(* ===== verification/_CoqProject ===== *)
-Q . S2P
Prelude.v
Serialise.v
Json.v
Taxonomy.v
TaxonomyClosure.v
TaxonomyFacts.v
TaxonomyOps.v
TaxonomyCut.v
TaxonomyThms.v
DocData.v
DocValues.v
Hashing.v
TextUtils.v
JsonPath.v
Mapping.v
MappingThms.v
MappingJson.v
Pipe.v
NGram.v
NGramThms.v
Schema.v
SchemaThms.v
CollConfig.v
Indexing.v
TaskQueue.v
TaskQueueThms.v
ThreadPool.v
TaskManager.v
TaskManagerThms.v
Checkpoints.v
CollectionPool.v
CollectionPoolThms.v
KeyMaker.v
RangeSource.v
Http.v
Router.v
Handlers.v
CategoryTasks.v
RefJson.v
XapianDb.v
RefLib.v
ProcessDoc.v
Termination.v
SendToPipe.v
ConfigThms.v
Query.v
DbGroup.v
DbGroupThms.v
Restart.v
IndexingThms.v
ProcessThms.v
QueryThms.v
IndexedFound.v
Collection.v
CollectionThms.v
CollectionOps.v
MatchSpies.v
MatchSpiesThms.v
Search.v
SearchThms.v
CategoryUpdates.v
Tasks.v
TaskThreads.v
TasksThms.v
PutThms.v
CacheThms.v
ResultHandle.v
ReadonlyTasks.v
Requests.v
IoWrappers.v
Server.v
ServerThms.v
Logger.v
Main.v
MongoImport.v
