(* ===== verification/Prelude.v ===== *)
(** * RestPose: the verification library

    RestPose is a search server: documents are sent to it as JSON over HTTP, queued,
    turned into Xapian documents and searched.  This library models the parts of
    its code (directory src/ of the repository, with the helpers of
    libs/xapiancommon it calls) that hold its own logic, and proves what makes them
    correct.

    ** The program

    The main loop (src/server/server.cc) waits in select for its sub-servers, the HTTP
    server and the task manager.  A request enters through libmicrohttpd
    (src/httpserver).  The router (src/rest) finds the handler of its path and method;
    the handler (src/rest/handlers.cc, src/features) validates the names in the path and
    puts a task on one of three groups of queues: searches, processing, indexing
    (src/server).  Threads take tasks from the groups and perform them
    (task_threads.cc, tasks.cc, src/features); a request that waits for its task shares
    a result with it (result_handle.cc).

    Processing turns a JSON document into a Xapian one by the configuration of its
    collection (src/jsonxapian/collconfig.cc): pipes send it through mappings
    (src/jsonmanip), which may ask for its language (src/ngramcat), to types; a type
    has a schema (schema.cc), whose fields are indexed as terms, values in slots and
    stored data (indexing.cc, docdata.cc, docvalues.cc, slotname.cc).  Indexing writes
    the document through a collection (collection.cc) taken from the pool of handles
    (collection_pool.cc) into a group of databases (src/dbgroup).  A collection keeps
    the ancestors of categories in its documents up to date (taxonomy.cc);
    checkpoints tell a client how far indexing has come and what failed
    (src/server/checkpoints.cc).

    A search (collection.cc) builds a query from JSON (query_builder.cc and the fields of
    schema.cc), reads values back through decoders, posting sources and sort keys
    (src/postingsources), collects facets and term occurrences (src/matchspies,
    infohandlers.cc) and shows documents (doctojson.cc).

    ** Files

    - [Prelude]: the error and state monads, machine integers, strings as bytes,
      ordered iteration over maps and sets, loops with fuel, weakest preconditions
      ([wp]), invariants of operations ([maintains]), and the tactics and hint
      databases the other files use.
    - [Serialise]: libs/xapiancommon/serialise.h and serialise.cc, the length
      prefix of all stored structures ([encode_length], [rsp_decode_length]).
    - [Json]: values of libs/jsoncpp as the code uses them, and
      src/utils/jsonutils.cc.
    - [Taxonomy] (definitions), [TaxonomyClosure], [TaxonomyFacts], [TaxonomyOps],
      [TaxonomyCut] (lemmas), [TaxonomyThms] (properties):
      src/jsonxapian/taxonomy.h and taxonomy.cc.
    - [DocData], [DocValues], [Hashing]: docdata.cc, docvalues.cc, slotname.cc and
      libs/xapiancommon/hashterm.cc; a Xapian document is the class [DocStore]
      with its law [DocStoreLaws].
    - [TextUtils]: src/utils/utils.cc, stringutils.h, validation.cc.
    - [JsonPath], [Mapping] (definitions), [MappingThms], [MappingJson] (properties):
      src/jsonmanip, paths with the walk over a document, conditions and mappings.
    - [Pipe]: src/jsonxapian/pipe.cc.
    - [NGram] (definitions), [NGramThms] (properties): src/ngramcat.
    - [Schema] (definitions), [SchemaThms] (properties): the field configurations,
      patterns and schemas of schema.h and schema.cc.
    - [CollConfig] (definitions), [ConfigThms] (properties): collconfig.cc.
    - [Indexing] (definitions), [IndexingThms] (lemmas): indexing.cc; what it uses of
      libraries is the class [IndexLib].
    - [ProcessDoc] (definitions), [ProcessThms] (properties): [Schema::process] and
      [CollectionConfig::process_doc]; [Termination]: they end.
    - [SendToPipe]: [CollectionConfig::send_to_pipe] with its hand-off to the indexing
      queue, and when it ends.
    - [Query] (definitions), [QueryThms], [IndexedFound] (properties):
      query_builder.cc and the queries of the fields; what a query matches is the
      class [QueryMatch] with its laws.
    - [XapianDb]: documents and databases of Xapian as the classes [Xapian] and
      [XapianLaws], with a database that satisfies the laws; [RefLib]: a library for
      indexing over it that can be run.
    - [RefJson]: a reader and writer of JSON that satisfy what the theorems ask of them.
    - [DbGroup] (definitions), [DbGroupThms] (properties): src/dbgroup; [Restart]: what
      a server that is started again finds.
    - [Collection] (definitions), [CollectionThms], [CategoryUpdates] (properties),
      [CollectionOps] (properties of the other operations): collection.cc, the updates of
      documents when categories change.
    - [MatchSpies] (definitions), [MatchSpiesThms] (properties): src/matchspies.
    - [Search] (definitions), [SearchThms] (properties): searches of collection.cc,
      infohandlers.cc, facetinfohandler.cc, occurinfohandler.cc and doctojson.cc.
    - [TaskQueue] (definitions), [TaskQueueThms] (properties):
      src/server/task_queue_group.h; every method is one atomic step under the
      group's lock and a wait on its condition is the outcome [Blocked]; the wake-up of
      a push goes on with the reference it took before, the other wake-ups look up anew.
    - [ThreadPool]: src/utils/threading.h and src/server/thread_pool.cc.
    - [TaskManager] (definitions), [TaskManagerThms] (properties): task_manager.cc, over
      three groups of queues and three pools; the threads and the main loop interleave
      between critical sections.
    - [Tasks]: basetasks.cc, tasks.cc and the tasks of src/features that change
      something, with collconfigs.cc, the cache of configurations; [TaskThreads]: what
      the threads of task_threads.cc do with the tasks they pop; [TasksThms],
      [PutThms], [CacheThms] (properties).
    - [ReadonlyTasks]: the tasks that answer requests, and the search threads.
    - [ResultHandle]: result_handle.cc, over a store of counted results.
    - [Requests]: src/rest/handler.cc and the callbacks of httpserver.cc, a request from
      its first byte to its response.
    - [Checkpoints]: src/server/checkpoints.cc, over a clock given as the sequence
      of its readings.
    - [CollectionPool] (definitions), [CollectionPoolThms] (properties):
      src/jsonxapian/collection_pool.cc, over a store of handle objects.
    - [KeyMaker], [RangeSource]: src/postingsources.
    - [Http]: the response and connection of src/httpserver.
    - [Router]: src/rest/router.cc.  [Handlers]: src/rest/routes.cc and the handlers
      of src/rest and src/features.
    - [CategoryTasks]: the read-only tasks of src/features/category_tasks.cc.
    - [IoWrappers]: src/utils/io_wrappers.cc.
    - [Server] (definitions), [ServerThms] (properties): server.cc, signals.cc and
      ignore_sigpipe.cc; sub-servers are the records [SubServer] of their methods.
    - [Main]: src/cli/cli.cc, src/restpose.cc, and the HTTP server and the task manager
      as sub-servers.
    - [Logger]: src/logger.
    - [MongoImport]: src/importer/mongo/mongo_import.cc, with the checks of strings and the
      stack of levels of libs/mongo-c-driver.

    A definition [Class_method] models the method of that class; a record or an
    inductive type carries the name of the C++ class or enumeration.  A method
    that changes its object is a function of type [M S A]: from a state to the
    state reached and a result, an exception keeping the state reached before it.
    [throw UndefinedBehaviour] marks what the C++ standard gives no meaning to.

    ** What is shown

    The comment of each theorem names its conditions; the main ones are given here.

    - Documents: processing keeps every schema well-formed; a document is identified
      by its type and identifier; one that is put is the one a request then gets, and
      the searches for its values find it, categories being within their limits.
    - Databases: a group of databases is one map from identifiers to documents, read
      through a combined database that is up to date; after a category is added or
      removed, or a parent of one, every document has exactly the ancestors of its
      categories as terms, if the fragments are read as they are written; removing a
      whole taxonomy fails as soon as a document has an ancestor in it.
    - Queries: a query tree of the forms that the code takes matches the documents its
      rules select; building one ends.
    - Configurations: schemas, mappings, taxonomies and whole configurations are read
      back as they were written.
    - Mappings compute a recursion over the document, though they run over the events
      of a walk with a stack; the categoriser's profiles hold the most frequent ngrams;
      pipes end whenever their targets lead out of the pipes and each hand-off to the
      indexing queue returns.
    - Taxonomies: after any operations the recorded ancestors and descendants are
      the transitive closures of the links, which are acyclic and mirrored; the
      exact effect and errors of each operation; all changed categories are
      reported; the answers of the REST tasks describe the hierarchy.
    - Queues: for every interleaving, up to the one fault of a push that wakes up to an
      erased queue: first in first out per queue, refinement of independent queues,
      exclusive tasks run alone (while no thread pops from a chosen queue of a closed
      group), sizes stay bounded, closing is final, queues are served in turn, no wake-up
      is lost.
    - Stored structures: encoding and decoding are inverse; hashes and slot numbers
      have the promised ranges; sort keys order documents by their columns; the
      range source enumerates exactly the matching documents.
    - Handles and checkpoints: every handle has one owner, handles on deleted
      collections are dropped; a checkpoint reports the errors of its interval
      and expires when untouched.
    - Tasks: a checkpoint that commits is marked as reached with exactly the errors of
      the tasks before it, and a document put before it is found by a server started
      again later, until the library commits of itself, when the tasks are updates and
      deletions of documents, configurations and checkpoints; the cached configurations
      follow the collections.
    - Restarts: when commits succeed, what was committed last is found again by a server
      that ends before the library commits of itself.
    - Back-pressure: a queue of processing that was stopped because the indexing queue
      behind it was full runs again, and its waiters wake, by the main loop alone, until
      the server is stopped.
    - Searches: the items, facets and counts of a search are those of the documents its
      query matches, in the order asked for, from the first to the last asked for; each
      page by itself, since documents that the order does not tell apart may come in
      another order on another page.
    - The process: every child is stopped and joined however the main loop ends; an
      interrupt ends it in the next round; no log message is lost without a trace; an
      imported document is marked only after it was queued.
    - Requests: every task that answers leaves its result ready, each request is queued
      once and answered once, results live exactly as long as their handles; the route tree is a table from patterns to handlers, searched
      soundly and completely; every request is routed without a fault; what
      reaches a queue names valid collections, taxonomies and categories.
    - Faults, as theorems about the code as it is: a sort key that never ends, a
      serialised source that cannot be read back, a missing taxonomy that is
      dereferenced, file paths taken verbatim from the URL, a pipe that feeds itself,
      ignored fields that do not stay ignored, documents without an identifier,
      category updates that undo each other or throw, long categories that are never
      found, distances that overflow, documents dropped and threads left waiting at
      shutdown, a push that goes on with an erased queue, handles that do not survive
      self-assignment, errors of recv taken for data, imports marked without a commit,
      queries nested deeper than the driver has room for, booleans that become numbers.

    ** Fuel

    Loops that are not structural take fuel, and the lemmas of each file show that what
    it is given is enough, so that [OutOfFuel] is never the result.  [recalc_closure]
    runs at most [2 ^ (n * n)] rounds for [n] categories (each round lowers a weight
    below that bound); [url_components], [pattern_components], [check_range_loop],
    [decode_all] and [unserialise_loop] one round per byte and one more;
    [decode_length_loop] six, [encode_length_loop] one per bit, the hashing loop six;
    [Mapping_apply] one per event of the walk and one more ([walk_size]); [build_query] the size of the
    tree; [send_to_pipe] one nested call per pipe and one more, and for its hand-offs as
    many rounds as the indexing queue stays full; the updates of documents one round per
    posting; [strip_loop] one per term of the document and one more; the loops over texts one per byte.
    [forward_loop] of [KeyMaker] takes its fuel as an argument because it may not end.

    ** Outside the model

    Xapian (documents, databases, when it commits of itself and whether a commit succeeds,
    value streams, weights, stemming, the query parser), libmicrohttpd, the JSON reader and writer, the driver for MongoDB and
    zlib, the file system, the clock and the answers of the operating system are
    arguments, with the laws the code relies on as hypotheses.  Critical sections are
    atomic; what interleaves are the sections.  The destructors of the server and of
    HTTP connections, [clone] of tasks, the connections of the importer, getopt and the
    text the program prints are left out, as are the file system importer (no part of
    the program uses it), threadsafequeue.h (nothing includes it), the windows service,
    rmdir.cc and compression.cc, and the vendored libraries but for what is named
    above. *)

From stdpp Require Export gmap strings list sorting relations sets fin_maps.
From Stdlib Require Export ZArith NArith Lia.
From Stdlib Require Ascii.
Export (notations) Stdlib.Strings.Ascii.

Abbreviation ascii := Ascii.ascii.

Declare Scope rp_scope.
Delimit Scope rp_scope with rp.
Open Scope rp_scope.

(** ** Errors and results *)

(** The exception classes of src/utils/rsperrors.h the modelled code throws,
    with the message where the message is built from values. *)
Inductive error : Type :=
| InvalidValueError (msg : string)
| UnserialisationError (msg : string)
| HTTPServerError (msg : string)
| NetworkError (msg : string)
| RuntimeError (msg : string)
| InvalidStateError (msg : string)
| SysError (msg : string)
| ThreadError (msg : string)
| ImporterError (msg : string)
| OutOfRange (msg : string)
| XapianError (msg : string)
| AssertionError
| UndefinedBehaviour.

(** [RuntimeError] is [std::runtime_error], [OutOfRange] is [std::out_of_range] and
    [XapianError] any exception of Xapian, named by its class; [UndefinedBehaviour] is not
    an exception of the code but what the model answers where the C++ standard gives no
    meaning (dereferencing [end()], indexing out of bounds). *)

(** Result of a fallible function: a value, a thrown exception, or the
    exhaustion of the fuel of a loop (a model artefact that the termination
    theorems rule out). *)
Inductive res (A : Type) : Type :=
| Ok (a : A)
| Throw (e : error)
| OutOfFuel.
Arguments Ok {A} a.
Arguments Throw {A} e.
Arguments OutOfFuel {A}.

#[export] Instance error_eq_dec : EqDecision error.
Proof. solve_decision. Defined.
#[export] Instance res_eq_dec `{EqDecision A} : EqDecision (res A).
Proof. solve_decision. Defined.

#[export] Instance res_ret : MRet res := λ A a, Ok a.
#[export] Instance res_bind : MBind res := λ A B f r,
  match r with Ok a => f a | Throw e => Throw e | OutOfFuel => OutOfFuel end.
#[export] Instance res_fmap : FMap res := λ A B f r,
  match r with Ok a => Ok (f a) | Throw e => Throw e | OutOfFuel => OutOfFuel end.

(** Code that updates an object in place and may throw half-way: the state
    reached is kept when an exception leaves. *)
Definition M (S A : Type) : Type := S → S * res A.
#[export] Instance M_ret {S} : MRet (M S) := λ A a s, (s, Ok a).
#[export] Instance M_bind {S} : MBind (M S) := λ A B f m s,
  match m s with
  | (s, Ok a) => f a s
  | (s, Throw e) => (s, Throw e)
  | (s, OutOfFuel) => (s, OutOfFuel)
  end.
(** A chain of fallible steps returns when each does. *)
Lemma res_bind_ok {A B} (m : res A) (f : A → res B) b : m ≫= f = Ok b ↔ ∃ a, m = Ok a ∧ f a = Ok b.
Proof. destruct m as [a|e|]; cbn; naive_solver. Qed.

Definition getM {S} : M S S := λ s, (s, Ok s).
Definition putM {S} (s : S) : M S () := λ _, (s, Ok ()).
Definition modifyM {S} (f : S → S) : M S () := λ s, (f s, Ok ()).
Definition throwM {S A} (e : error) : M S A := λ s, (s, Throw e).
Definition liftM {S A} (r : res A) : M S A := λ s, (s, r).

(** [for (i = l.begin(); i != l.end(); ++i) f( *i )]. *)
Fixpoint for_each {S A} (l : list A) (f : A → M S ()) : M S () :=
  match l with
  | [] => mret ()
  | x :: l => f x ;; for_each l f
  end.

(** Up to [2 ^ d] iterations of a loop body, [inr] being its exit. *)
Fixpoint iterate {S R} (d : nat) (body : S → S + R) (s : S) : S + R :=
  match d with
  | O => body s
  | S d => match iterate d body s with
           | inl s => iterate d body s
           | inr r => inr r
           end
  end.

Notation "'throw' e" := (Throw e) (at level 20) : rp_scope.

(** ** Machine integers *)

Definition wrap32 (n : N) : N := (n mod 2 ^ 32)%N.
Definition wrap64 (n : N) : N := (n mod 2 ^ 64)%N.

(** [Xapian::BAD_VALUENO], the largest slot number. *)
Definition BAD_VALUENO : N := 0xffffffff.

(** ** Strings as byte sequences *)

(** [static_cast<unsigned char>] of a byte and the byte of a number (only its
    low eight bits count). *)
Definition ord (c : ascii) : N := Ascii.N_of_ascii c.
Definition chr (n : N) : ascii := Ascii.ascii_of_N n.
Definition sing (c : ascii) : string := String c EmptyString.

Definition str_size (s : string) : N := N.of_nat (String.length s).

(** [s.substr(0, n)] and [s.substr(n)] for [n] within the string; a pair of
    pointers into a buffer is the remaining suffix. *)
Fixpoint str_take (n : nat) (s : string) : string :=
  match n, s with
  | S n, String c s => String c (str_take n s)
  | _, _ => EmptyString
  end.
Fixpoint str_drop (n : nat) (s : string) : string :=
  match n, s with
  | S n, String _ s => str_drop n s
  | _, _ => s
  end.

(** [std::string(n, c)]. *)
Fixpoint str_repeat (n : nat) (c : ascii) : string :=
  match n with O => EmptyString | S n => String c (str_repeat n c) end.

(** Concatenation of a sequence of strings (a loop of [result += *i]). *)
Definition str_concat (l : list string) : string := foldr String.app EmptyString l.

(** The bytes of a string, and every byte of it satisfying a predicate. *)
Definition bytes (s : string) : list ascii := String.list_ascii_of_string s.

(** Byte-wise comparison, as [std::string::operator<]. *)
Definition str_lt (a b : string) : Prop := String.ltb a b = true.
#[export] Instance str_lt_dec a b : Decision (str_lt a b).
Proof. unfold str_lt. apply _. Defined.

(** ** Ordered iteration

    A [std::map<std::string, T>] is a [gmap string T]; iterating over it visits
    the keys in increasing byte order. *)
Definition sorted_elems (X : gset string) : list string :=
  merge_sort String.le (elements X).
Definition sorted_keys {A} (m : gmap string A) : list string := sorted_elems (dom m).
Definition sorted_items {A} (m : gmap string A) : list (string * A) :=
  omap (λ k, (λ a, (k, a)) <$> m !! k) (sorted_keys m).

(** ** Generic lemmas *)

Lemma sorted_elems_perm X : sorted_elems X ≡ₚ elements X.
Proof. apply merge_sort_Permutation. Qed.

Lemma elem_of_sorted_elems X k : k ∈ sorted_elems X ↔ k ∈ X.
Proof. by rewrite sorted_elems_perm, elem_of_elements. Qed.

Lemma sorted_elems_sorted X : StronglySorted String.le (sorted_elems X).
Proof. apply (StronglySorted_merge_sort _). Qed.

Lemma sorted_elems_nodup X : NoDup (sorted_elems X).
Proof. rewrite sorted_elems_perm. apply NoDup_elements. Qed.

Lemma sorted_elems_empty : sorted_elems ∅ = [].
Proof. reflexivity. Qed.

(** A strictly sorted list is the iteration order of the set of its elements. *)
Lemma sorted_elems_of_list l :
  NoDup l → StronglySorted String.le l → sorted_elems (list_to_set l) = l.
Proof.
  intros Hnd Hs. apply (StronglySorted_unique String.le); [apply sorted_elems_sorted|done|].
  rewrite sorted_elems_perm. by apply elements_list_to_set.
Qed.

Lemma sorted_lookup_lt {A} (R : A → A → Prop) l i j x y :
  StronglySorted R l → l !! i = Some x → l !! j = Some y → i < j → R x y.
Proof.
  intros Hs. revert i j. induction Hs as [|z l Hs IH Hall]; intros i j Hi Hj Hlt; [done|].
  destruct j as [|j]; [lia|]. cbn in Hj. destruct i as [|i]; cbn in Hi.
  - simplify_eq. rewrite Forall_forall in Hall. apply Hall. by apply list_elem_of_lookup_2 with j.
  - apply (IH i j); [done..|lia].
Qed.

Lemma elem_of_sorted_keys {A} (m : gmap string A) k :
  k ∈ sorted_keys m ↔ is_Some (m !! k).
Proof. unfold sorted_keys. by rewrite elem_of_sorted_elems, elem_of_dom. Qed.

Lemma sorted_keys_nodup {A} (m : gmap string A) : NoDup (sorted_keys m).
Proof. apply sorted_elems_nodup. Qed.

Lemma elem_of_sorted_items {A} (m : gmap string A) k a :
  (k, a) ∈ sorted_items m ↔ m !! k = Some a.
Proof.
  unfold sorted_items. rewrite list_elem_of_omap. split.
  - intros (k' & _ & Hk). destruct (m !! k') eqn:E; simplify_eq/=. done.
  - intros Hk. exists k. rewrite elem_of_sorted_keys, Hk. eauto.
Qed.

Lemma sorted_items_fst {A} (m : gmap string A) : (sorted_items m).*1 = sorted_keys m.
Proof.
  unfold sorted_items. assert (Hs : ∀ k, k ∈ sorted_keys m → is_Some (m !! k)).
  { intros k. apply elem_of_sorted_keys. }
  induction (sorted_keys m) as [|k ks IH]; [done|]. csimpl.
  destruct (Hs k) as [a Ha]; [set_solver|]. rewrite Ha. csimpl. f_equal.
  apply IH. set_solver.
Qed.

Lemma sorted_items_nodup {A} (m : gmap string A) : NoDup (sorted_items m).*1.
Proof. rewrite sorted_items_fst. apply sorted_keys_nodup. Qed.

(** Rebuilding a map from its ordered items gives the map back. *)
Lemma list_to_map_sorted_items {A} (m : gmap string A) :
  list_to_map (sorted_items m) = m.
Proof.
  apply map_eq. intros k. apply option_eq. intros a.
  rewrite <-elem_of_list_to_map by apply sorted_items_nodup.
  apply elem_of_sorted_items.
Qed.

(** So does inserting them one by one. *)
Lemma foldl_insert_sorted_items {A} (m : gmap string A) :
  foldl (λ m '(k, v), <[k := v]> m) ∅ (sorted_items m) = m.
Proof.
  assert (H : ∀ (l : list (string * A)) (m0 : gmap string A),
    NoDup l.*1 → foldl (λ m '(k, v), <[k := v]> m) m0 l = list_to_map l ∪ m0).
  { induction l as [|[k v] l IH]; intros m0 Hnd; csimpl.
    - by rewrite (left_id_L ∅ (∪)).
    - apply NoDup_cons in Hnd as [Hk Hnd]. rewrite IH by done.
      rewrite <-insert_union_l, insert_union_r; [done|]. by apply not_elem_of_list_to_map_1. }
  rewrite H by apply sorted_items_nodup.
  by rewrite (right_id_L ∅ (∪)), list_to_map_sorted_items.
Qed.

(** *** Strings *)

Lemma str_app_cons c s t : String c s +:+ t = String c (s +:+ t).
Proof. reflexivity. Qed.

Lemma str_app_nil_l t : "" +:+ t = t.
Proof. reflexivity. Qed.

Create Rewrite HintDb strapp.
Lemma str_app_sing c t : sing c +:+ t = String c t.
Proof. reflexivity. Qed.

#[local] Hint Rewrite str_app_cons str_app_nil_l : strapp.

Lemma str_app_length s t : String.length (s +:+ t) = String.length s + String.length t.
Proof. induction s as [|c s IH]; autorewrite with strapp; cbn; congruence. Qed.

Lemma str_app_nil_r s : s +:+ "" = s.
Proof. induction s as [|c s IH]; autorewrite with strapp; congruence. Qed.

Lemma str_app_assoc s t u : (s +:+ t) +:+ u = s +:+ (t +:+ u).
Proof. induction s as [|c s IH]; autorewrite with strapp; congruence. Qed.

Lemma str_take_app s t : str_take (String.length s) (s +:+ t) = s.
Proof. induction s as [|c s IH]; autorewrite with strapp; cbn; congruence. Qed.

Lemma str_drop_app s t : str_drop (String.length s) (s +:+ t) = t.
Proof. induction s as [|c s IH]; autorewrite with strapp; cbn; [by destruct t|done]. Qed.

Lemma str_drop_length n s : String.length (str_drop n s) = String.length s - n.
Proof. revert s. induction n as [|n IH]; intros [|c s]; cbn; auto. Qed.

Lemma str_take_length n s : String.length (str_take n s) = n `min` String.length s.
Proof. revert s. induction n as [|n IH]; intros [|c s]; cbn; auto. Qed.

Lemma str_drop_0 s : str_drop 0 s = s.
Proof. by destruct s. Qed.

Lemma str_take_0 s : str_take 0 s = "".
Proof. by destruct s. Qed.

Lemma str_take_drop n s : str_take n s +:+ str_drop n s = s.
Proof.
  revert s. induction n as [|n IH]; intros [|c s]; cbn; auto.
  rewrite str_app_cons. by rewrite IH.
Qed.

Lemma str_size_app s t : str_size (s +:+ t) = (str_size s + str_size t)%N.
Proof. unfold str_size. rewrite str_app_length. lia. Qed.

Lemma ord_chr n : (n < 256)%N → ord (chr n) = n.
Proof. apply Ascii.N_ascii_embedding. Qed.

Lemma chr_ord c : chr (ord c) = c.
Proof. apply Ascii.ascii_N_embedding. Qed.

Lemma ord_bound c : (ord c < 256)%N.
Proof. apply Ascii.N_ascii_bounded. Qed.

Lemma ord_inj c d : ord c = ord d → c = d.
Proof. intros H. by rewrite <-(chr_ord c), H, chr_ord. Qed.

(** *** Byte order *)

Lemma str_lt_spec a b : str_lt a b ↔ String.le a b ∧ a ≠ b.
Proof.
  unfold str_lt, String.le, String.ltb, String.leb.
  destruct (String.compare a b) eqn:E.
  - apply String.compare_eq_iff in E. naive_solver.
  - split; [|naive_solver]. intros _. split; [done|]. intros ->.
    assert (String.compare b b = Eq) as He; [|congruence].
    pose proof (reflexivity (R:=String.le) b) as Hr. unfold String.le, String.leb in Hr.
    rewrite E in Hr. pose proof (String.compare_antisym b b) as Ha. rewrite E in Ha. done.
  - naive_solver.
Qed.

#[export] Instance str_lt_strict : StrictOrder str_lt.
Proof.
  split.
  - intros a Ha. apply str_lt_spec in Ha. naive_solver.
  - intros a b c [? Hab]%str_lt_spec [? Hbc]%str_lt_spec. apply str_lt_spec.
    split; [by etrans|]. intros ->. apply Hab. by apply (anti_symm String.le).
Qed.

Lemma str_lt_trichotomy a b : str_lt a b ∨ a = b ∨ str_lt b a.
Proof.
  destruct (decide (a = b)) as [|Hne]; [auto|].
  destruct (total String.le a b); [left|right; right]; apply str_lt_spec; naive_solver.
Qed.

Lemma str_lt_not_le a b : str_lt a b ↔ ¬ String.le b a.
Proof.
  rewrite str_lt_spec. split.
  - intros [Hab Hne] Hba. apply Hne. by apply (anti_symm String.le).
  - intros Hn. destruct (total String.le a b) as [Hab|]; [|done].
    split; [done|]. by intros ->.
Qed.

(** Comparison byte by byte. *)
Lemma str_lt_nil_r a : ¬ str_lt a "".
Proof. by destruct a. Qed.

Lemma str_lt_nil_cons c b : str_lt "" (String c b).
Proof. reflexivity. Qed.

Lemma str_lt_cons c d a b :
  str_lt (String c a) (String d b) ↔ (ord c < ord d)%N ∨ (c = d ∧ str_lt a b).
Proof.
  unfold str_lt, String.ltb. cbn. unfold Ascii.compare. fold (ord c) (ord d).
  destruct (N.compare_spec (ord c) (ord d)) as [He|Hl|Hg].
  - apply ord_inj in He. subst. split; [auto|]. intros [?|[_ ?]]; [lia|done].
  - naive_solver.
  - split; [done|]. intros [?|[-> _]]; lia.
Qed.

Lemma str_lt_app s x y : str_lt (s +:+ x) (s +:+ y) ↔ str_lt x y.
Proof.
  induction s as [|c s IH]; [done|]. rewrite !str_app_cons, str_lt_cons, IH.
  split; [|auto]. intros [?|[_ ?]]; [lia|done].
Qed.

(** [s + "\0"] is the immediate successor of [s]. *)
Lemma str_lt_succ s k : str_lt k (s +:+ sing (chr 0)) ↔ ¬ str_lt s k.
Proof.
  revert k. induction s as [|c s IH]; intros [|d k]; rewrite ?str_app_cons, ?str_app_nil_l.
  - split; [by intros _ ?%str_lt_nil_r|done].
  - unfold sing. rewrite str_lt_cons. change (ord (chr 0)) with 0%N. split.
    + intros [?|[_ ?%str_lt_nil_r]]; [lia|done].
    + intros []. apply str_lt_nil_cons.
  - split; [by intros _ ?%str_lt_nil_r|]. intros _. apply str_lt_nil_cons.
  - rewrite !str_lt_cons, IH. destruct (N.lt_trichotomy (ord c) (ord d)) as [?|[He|?]].
    + split; [|naive_solver]. intros [?|[-> _]]; lia.
    + apply ord_inj in He. subst. naive_solver lia.
    + split; [|auto]. intros _ [?|[-> _]]; lia.
Qed.

(** Sorted keys without duplicates are strictly increasing. *)
Lemma sorted_keys_strict {A} (m : gmap string A) : StronglySorted str_lt (sorted_keys m).
Proof.
  pose proof (sorted_keys_nodup m) as Hnd.
  pose proof (sorted_elems_sorted (dom m)) as Hs. fold (sorted_keys m) in Hs.
  induction Hs as [|k l Hs IH Hall]; constructor.
  - apply IH. by apply NoDup_cons in Hnd as [??].
  - apply NoDup_cons in Hnd as [Hk _]. rewrite Forall_forall in Hall |- *. intros j Hj.
    apply str_lt_spec. split; [auto|]. by intros ->.
Qed.

(** *** Loops *)

(** An exit is reached within the iterations when a measure decreases; the
    invariant holds at every iteration and gives the postcondition at the exit. *)
Lemma iterate_spec {S R} (I : S → Prop) (Q : R → Prop) (m : S → nat) (body : S → S + R) :
  (∀ s, I s → match body s with inl s' => I s' ∧ m s' < m s | inr r => Q r end) →
  ∀ d s, I s →
  match iterate d body s with
  | inl s' => I s' ∧ m s' + 2 ^ d ≤ m s
  | inr r => Q r
  end.
Proof.
  intros Hbody d. induction d as [|d IH]; intros s Hs; cbn [iterate].
  - specialize (Hbody s Hs). destruct (body s); [|done]. cbn. naive_solver lia.
  - specialize (IH s Hs) as IH1. destruct (iterate d body s) as [s'|]; [|done].
    destruct IH1 as [Hs' Hm]. specialize (IH s' Hs'). destruct (iterate d body s') as [s''|]; [|done].
    cbn [Nat.pow]. naive_solver lia.
Qed.

Lemma iterate_exits {S R} (I : S → Prop) (Q : R → Prop) (m : S → nat) (body : S → S + R) d s :
  (∀ s, I s → match body s with inl s' => I s' ∧ m s' < m s | inr r => Q r end) →
  I s → m s < 2 ^ d → ∃ r, iterate d body s = inr r ∧ Q r.
Proof.
  intros Hbody Hs Hm. pose proof (iterate_spec I Q m body Hbody d s Hs) as H.
  destruct (iterate d body s) as [s'|r]; [lia|eauto].
Qed.

(** A loop over a list keeps an invariant indexed by the elements visited. *)
Lemma for_each_inv {S A} (I : list A → S → Prop) (f : A → M S ()) (l : list A) :
  (∀ pre x s, x ∈ l → I pre s → ∃ s', f x s = (s', Ok ()) ∧ I (pre ++ [x]) s') →
  ∀ pre s, I pre s → ∃ s', for_each l f s = (s', Ok ()) ∧ I (pre ++ l) s'.
Proof.
  induction l as [|x l IH]; intros Hf pre s Hs; cbn.
  - rewrite app_nil_r. eauto.
  - destruct (Hf pre x s ltac:(set_solver) Hs) as (s1 & Hx & Hs1).
    destruct (IH ltac:(intros; apply Hf; set_solver) (pre ++ [x]) s1 Hs1) as (s2 & Hl & Hs2).
    exists s2. rewrite <-app_assoc in Hs2. split; [|done].
    unfold mbind, M_bind. by rewrite Hx.
Qed.

(** The same with the position in the list known. *)
Lemma for_each_inv_at {S A} (I : list A → S → Prop) (f : A → M S ()) (l : list A) s :
  (∀ pre x post s, l = pre ++ x :: post → I pre s → ∃ s', f x s = (s', Ok ()) ∧ I (pre ++ [x]) s') →
  I [] s → ∃ s', for_each l f s = (s', Ok ()) ∧ I l s'.
Proof.
  intros Hf. assert (H : ∀ k pre s, l = pre ++ k → I pre s →
    ∃ s', for_each k f s = (s', Ok ()) ∧ I l s'); [|by apply (H l [])].
  induction k as [|x k IH]; intros pre s0 Hl Hs; cbn.
  - rewrite app_nil_r in Hl. subst. eauto.
  - destruct (Hf pre x k s0 Hl Hs) as (s1 & Hx & Hs1).
    destruct (IH (pre ++ [x]) s1) as (s2 & Hk & Hs2); [by rewrite <-app_assoc|done|].
    exists s2. split; [|done]. unfold mbind, M_bind. by rewrite Hx.
Qed.

(** A reflexive and transitive relation between states every iteration
    establishes holds across the loop, however it ends. *)
Lemma for_each_rel {S A} (R : S → S → Prop) `{!PreOrder R} (f : A → M S ()) (l : list A) :
  (∀ x s, x ∈ l → R s (f x s).1) → ∀ s, R s (for_each l f s).1.
Proof.
  induction l as [|x l IH]; intros Hf s; cbn; [done|].
  unfold mbind, M_bind. pose proof (Hf x s ltac:(set_solver)) as Hx.
  destruct (f x s) as [s1 [[]|e|]]; cbn in *; [|done..].
  etrans; [exact Hx|]. apply IH. intros; apply Hf; set_solver.
Qed.

Lemma M_bind_rel {S A B} (R : S → S → Prop) `{!PreOrder R} (m : M S A) (f : A → M S B) s :
  R s (m s).1 → (∀ a s', R s' (f a s').1) → R s ((m ≫= f) s).1.
Proof.
  intros Hm Hf. unfold mbind, M_bind. destruct (m s) as [s1 [a|e|]]; cbn in *; [|done..].
  etrans; [exact Hm|apply Hf].
Qed.

(** Running past a step that returns. *)
Lemma bind_ok {S A B} (p : M S A) (f : A → M S B) s s' a :
  p s = (s', Ok a) → (p ≫= f) s = f a s'.
Proof. unfold mbind, M_bind. by intros ->. Qed.

Lemma M_bind_inv {S A B} (m : M S A) (f : A → M S B) s s' b :
  (m ≫= f) s = (s', Ok b) → ∃ s1 a, m s = (s1, Ok a) ∧ f a s1 = (s', Ok b).
Proof. unfold mbind, M_bind. destruct (m s) as [s1 [a|e|]]; [eauto|done..]. Qed.

(** A loop that returned ran every iteration. *)
Lemma for_each_app {S A} (l1 l2 : list A) (f : A → M S ()) s s' :
  for_each l1 f s = (s', Ok ()) → for_each (l1 ++ l2) f s = for_each l2 f s'.
Proof.
  revert s. induction l1 as [|x l1 IH]; intros s; cbn; [by intros [= ->]|]. unfold mbind, M_bind.
  destruct (f x s) as [s1 [[]|e|]]; [apply IH|done..].
Qed.

Lemma for_each_split {S A} (l1 l2 : list A) x (f : A → M S ()) s s' :
  for_each (l1 ++ x :: l2) f s = (s', Ok ()) →
  ∃ s1 s2, for_each l1 f s = (s1, Ok ()) ∧ f x s1 = (s2, Ok ()) ∧ for_each l2 f s2 = (s', Ok ()).
Proof.
  revert s. induction l1 as [|y l1 IH]; intros s H; cbn in H; apply M_bind_inv in H as (s1 & [] & H1 & H).
  - eauto.
  - destruct (IH s1 H) as (s2 & s3 & ? & ? & ?). exists s2, s3. split_and!; [|done..]. cbn. unfold mbind, M_bind. by rewrite H1.
Qed.

(** *** Total correctness of stateful code *)

(** [m] run from [s] returns, in a state and with a value that satisfy [Q]. *)
Definition wp {S A} (m : M S A) (Q : S → A → Prop) (s : S) : Prop :=
  match m s with (s', Ok a) => Q s' a | _ => False end.

Lemma wp_bind {S A B} (m : M S A) (f : A → M S B) Q s :
  wp m (λ s' a, wp (f a) Q s') s → wp (m ≫= f) Q s.
Proof. unfold wp, mbind, M_bind. by destruct (m s) as [s' [a|e|]]. Qed.

Lemma wp_ret {S A} (a : A) (Q : S → A → Prop) s : Q s a → wp (mret a) Q s.
Proof. done. Qed.

Lemma wp_modify {S} (f : S → S) (Q : S → () → Prop) s : Q (f s) () → wp (modifyM f) Q s.
Proof. done. Qed.

Lemma wp_mono {S A} (m : M S A) (Q Q' : S → A → Prop) s :
  wp m Q s → (∀ s' a, Q s' a → Q' s' a) → wp m Q' s.
Proof. unfold wp. destruct (m s) as [s' [a|e|]]; auto. Qed.

Lemma wp_ok {S A} (m : M S A) (Q : S → A → Prop) s :
  wp m Q s ↔ ∃ s' a, m s = (s', Ok a) ∧ Q s' a.
Proof.
  unfold wp. destruct (m s) as [s' [a|e|]]; split; [eauto|intros (?&?&?&?); by simplify_eq| | | |];
    naive_solver.
Qed.

(** *** Invariants of code that may throw *)

(** [m] keeps [P] however it ends, and a value it returns satisfies [Q]. *)
Definition maintains {S A} (P : S → Prop) (m : M S A) (Q : A → Prop) : Prop :=
  ∀ s, P s → P (m s).1 ∧ ∀ a, (m s).2 = Ok a → Q a.

Section maintains.
Context {S : Type} (P : S → Prop).

Lemma maintains_ret {A} (a : A) (Q : A → Prop) : Q a → maintains P (mret a) Q.
Proof. intros HQ s Hs. split; [done|]. cbn. by intros ? [= <-]. Qed.

Lemma maintains_bind {A B} (m : M S A) (f : A → M S B) (Q : A → Prop) (Q' : B → Prop) :
  maintains P m Q → (∀ a, Q a → maintains P (f a) Q') → maintains P (m ≫= f) Q'.
Proof.
  intros Hm Hf s Hs. destruct (Hm s Hs) as [H1 H2]. unfold mbind, M_bind.
  destruct (m s) as [s' [a|e|]]; cbn in *; [|done..]. by apply (Hf a (H2 a eq_refl)).
Qed.

Lemma maintains_bind_any {A B} (m : M S A) (f : A → M S B) (Q' : B → Prop) :
  maintains P m (λ _, True) → (∀ a, maintains P (f a) Q') → maintains P (m ≫= f) Q'.
Proof. intros Hm Hf. eapply maintains_bind; [exact Hm|auto]. Qed.

Lemma maintains_lift {A} (r : res A) (Q : A → Prop) : (∀ a, r = Ok a → Q a) → maintains P (liftM r) Q.
Proof. intros H s Hs. split; [done|]. auto. Qed.

Lemma maintains_modify (f : S → S) (Q : () → Prop) : (∀ s, P s → P (f s)) → Q () → maintains P (modifyM f) Q.
Proof. intros Hf HQ s Hs. cbn. split; [auto|]. by intros [] _. Qed.

Lemma maintains_get : maintains P getM P.
Proof. intros s Hs. split; [done|]. cbn. by intros ? [= <-]. Qed.

Lemma maintains_put (s : S) (Q : () → Prop) : P s → Q () → maintains P (putM s) Q.
Proof. intros Hs HQ s0 _. split; [done|]. by intros [] _. Qed.

Lemma maintains_throw {A} (e : error) (Q : A → Prop) : maintains P (throwM e) Q.
Proof. intros s Hs. by split. Qed.

Lemma maintains_for_each {A} (l : list A) (f : A → M S ()) :
  (∀ x, x ∈ l → maintains P (f x) (λ _, True)) → maintains P (for_each l f) (λ _, True).
Proof.
  induction l as [|x l IH]; intros Hf; cbn; [by apply maintains_ret|].
  eapply maintains_bind; [apply Hf; set_solver|]. intros _ _. apply IH. intros; apply Hf; set_solver.
Qed.

Lemma maintains_mono {A} (m : M S A) (Q Q' : A → Prop) : maintains P m Q → (∀ a, Q a → Q' a) → maintains P m Q'.
Proof. intros Hm HQ s Hs. destruct (Hm s Hs). eauto. Qed.

Lemma maintains_run {A} (m : M S A) (Q : A → Prop) s : maintains P m Q → P s → P (m s).1.
Proof. intros Hm Hs. by apply Hm. Qed.

End maintains.

(** *** Numbers *)

(** Setting bits above [k] in a number below [2 ^ k] adds them. *)
Lemma N_lor_shiftl_add a b k :
  (a < 2 ^ k)%N → N.lor a (N.shiftl b k) = (a + b * 2 ^ k)%N.
Proof.
  intros Ha. rewrite <-N.shiftl_mul_pow2.
  destruct (decide (a = 0)%N) as [->|Hz]; [by rewrite N.lor_0_l, N.add_0_l|].
  assert (Hl : N.land a (N.shiftl b k) = 0%N).
  { apply N.bits_inj. intros i. rewrite N.land_spec, N.bits_0.
    destruct (N.le_gt_cases k i) as [Hi|Hi].
    - rewrite (N.bits_above_log2 a i), andb_false_l; [done|].
      apply N.log2_lt_pow2; [lia|]. eapply N.lt_le_trans; [exact Ha|].
      by apply N.pow_le_mono_r.
    - by rewrite N.shiftl_spec_low, andb_false_r. }
  rewrite <-N.lxor_lor by done. symmetry. by apply N.add_nocarry_lxor.
Qed.

Create HintDb rp.
Create Rewrite HintDb rpstr.
Create Rewrite HintDb rplen.
#[export] Hint Rewrite @str_app_assoc @str_app_nil_r @str_app_cons @str_app_nil_l
  @str_app_sing : rpstr.
#[export] Hint Rewrite @str_app_length @str_size_app : rplen.
#[export] Hint Resolve ord_bound elem_of_sorted_elems sorted_elems_sorted
  sorted_elems_nodup : rp.

(** ** Tactics *)

(** Splits the conditions of an executable definition in the goal. *)
Ltac case_conds :=
  repeat match goal with
  | |- context [bool_decide _] => case_bool_decide
  | |- context [decide _] => case_decide
  | |- context [if ?b then _ else _] => let E := fresh "E" in destruct b eqn:E
  end.

(** Splits a stateful computation that returned into its steps. *)
Ltac run_inv H :=
  lazymatch type of H with
  | (_ ≫= _) _ = (_, Ok _) =>
      let H1 := fresh "Hrun" in apply M_bind_inv in H as (? & ? & H1 & H); run_inv H
  | _ => idtac
  end.

(** Goes through a stateful computation of which every step keeps an invariant; [tac]
    proves the steps that are not control. *)
Ltac maintain tac :=
  repeat lazymatch goal with
  | |- maintains _ (mret _) _ => apply maintains_ret; exact I
  | |- maintains _ (throwM _) _ => apply maintains_throw
  | |- maintains _ (liftM _) _ => by apply maintains_lift
  | |- maintains _ getM _ => eapply maintains_mono; [apply maintains_get|done]
  | |- maintains _ (for_each _ _) _ => apply maintains_for_each; intros
  | |- maintains _ (_ ≫= _) _ => first [tac | apply maintains_bind_any; [|intros]]
  | |- maintains _ (if ?b then _ else _) _ => destruct b
  | |- maintains _ (match ?x with _ => _ end) _ => destruct x
  | |- _ => tac
  end.

(** Normalises hypotheses about results of the error monad. *)
Ltac simplify_res :=
  repeat match goal with
  | H : Ok _ = Ok _ |- _ => injection H as H
  | H : Ok _ = Throw _ |- _ => discriminate H
  | H : Throw _ = Ok _ |- _ => discriminate H
  | H : OutOfFuel = Ok _ |- _ => discriminate H
  | H : mbind _ ?r = Ok _ |- _ =>
      let E := fresh "E" in destruct r eqn:E; simpl in H; try discriminate H
  end; simplify_eq/=.
