(* ===== verification/Serialise.v ===== *)
(** * Variable-length integers

    libs/xapiancommon/serialise.h and serialise.cc: the length encoding every
    stored document value and document body is built from.  A pair of pointers
    [*p], [end] into a buffer is the string of the bytes between them; advancing
    [*p] returns the remaining string. *)

From S2P Require Import Prelude.

(** ** Definitions *)

(** The [while (true)] loop of [encode_length]: seven bits per byte, least
    significant first, the top bit marking the last byte. *)
Fixpoint encode_length_loop (fuel : nat) (len : N) : string :=
  match fuel with
  | O => EmptyString
  | S fuel =>
      let byte := N.land len 0x7f in
      let len' := N.shiftr len 7 in
      if (len' =? 0)%N then sing (chr (N.lor byte 0x80))
      else String (chr byte) (encode_length_loop fuel len')
  end.

(** [encode_length]; the fuel is the number of bits of the value, every
    iteration dropping seven of them. *)
Definition encode_length (len : N) : string :=
  if (len <? 255)%N then sing (chr len)
  else String (chr 255)
         (encode_length_loop (S (N.to_nat (N.size (len - 255)))) (len - 255)).

(** The [do ... while] loop of [rsp_decode_length]. *)
Fixpoint decode_length_loop (fuel : nat) (shift acc : N) (p : string) : res (N * string) :=
  match fuel with
  | O => OutOfFuel
  | S fuel =>
      match p with
      | EmptyString => throw (UnserialisationError "Bad encoded length: insufficient data")
      | String c p =>
          if (28 <? shift)%N
          then throw (UnserialisationError "Bad encoded length: insufficient data")
          else
            let ch := ord c in
            let acc := N.lor acc (N.shiftl (N.land ch 0x7f) shift) in
            if (N.land ch 0x80 =? 0)%N
            then decode_length_loop fuel (shift + 7) acc p
            else Ok (acc, p)
      end
  end.

(** [rsp_decode_length]: the decoded length and the advanced position.  The
    loop runs at most six times, since [shift > 28] throws. *)
Definition rsp_decode_length (p : string) (check_remaining : bool) : res (N * string) :=
  match p with
  | EmptyString => throw (UnserialisationError "Bad encoded length: no data")
  | String c p =>
      '(len, p) ←
        (if (ord c =? 0xff)%N
         then '(l, p) ← decode_length_loop 6 0 0 p; Ok ((l + 255)%N, p)
         else Ok (ord c, p));
      if check_remaining && (str_size p <? len)%N
      then throw (UnserialisationError "Bad encoded length: length greater than data")
      else Ok (len, p)
  end.

(** [std::string(ptr, len)] followed by [ptr += len]. *)
Definition read_bytes (len : N) (p : string) : string * string :=
  (str_take (N.to_nat len) p, str_drop (N.to_nat len) p).

(** [result += encode_length(s.size()); result += s;] and the matching read,
    as every serialiser of the program writes a string. *)
Definition encode_string (s : string) : string := encode_length (str_size s) +:+ s.
Definition decode_string (p : string) : res (string * string) :=
  '(len, p) ← rsp_decode_length p true; Ok (read_bytes len p).

(** The largest length [rsp_decode_length] accepts: five groups of seven bits
    above the one-byte range. *)
Definition max_length : N := (255 + 2 ^ 35)%N.

(** ** The loop *)

Lemma shiftr7 len : N.shiftr len 7 = (len / 128)%N.
Proof. by rewrite N.shiftr_div_pow2. Qed.

Lemma land7f len : N.land len 0x7f = (len mod 128)%N.
Proof. exact (N.land_ones len 7). Qed.

Lemma land80_low n : (n < 128)%N → N.land n 0x80 = 0%N.
Proof.
  intros Hn. assert (Hall : forallb (λ n, N.land (N.of_nat n) 0x80 =? 0)%N (seq 0 128) = true)
    by reflexivity.
  rewrite forallb_forall in Hall. specialize (Hall (N.to_nat n)).
  rewrite N2Nat.id, N.eqb_eq in Hall. apply Hall, in_seq. lia.
Qed.

Lemma last_byte n : (n < 128)%N →
  N.lor n 0x80 = (n + 128)%N ∧ N.land (n + 128) 0x80 = 0x80%N ∧ N.land (n + 128) 0x7f = n.
Proof.
  intros Hn. split_and!.
  - exact (N_lor_shiftl_add n 1 7 Hn).
  - assert (Hall : forallb (λ n, N.land (N.of_nat n + 128) 0x80 =? 0x80)%N (seq 0 128) = true)
      by reflexivity.
    rewrite forallb_forall in Hall. specialize (Hall (N.to_nat n)).
    rewrite N2Nat.id, N.eqb_eq in Hall. apply Hall, in_seq. lia.
  - rewrite land7f. change (n + 128)%N with (n + 1 * 128)%N.
    rewrite N.Div0.mod_add. by apply N.mod_small.
Qed.

(** One iteration of the encoding loop, read by one iteration of the decoding
    loop. *)
Lemma encode_loop_unfold fuel len :
  encode_length_loop (S fuel) len =
    if (len / 128 =? 0)%N then sing (chr (len + 128))
    else String (chr (len mod 128)) (encode_length_loop fuel (len / 128)).
Proof.
  cbn [encode_length_loop]. rewrite shiftr7, land7f.
  destruct (N.eqb_spec (len / 128) 0) as [Hz|Hz]; [|done].
  apply N.div_small_iff in Hz; [|done]. rewrite N.mod_small by done.
  by rewrite (proj1 (last_byte len Hz)).
Qed.

Lemma size_div128 len : (len / 128 ≠ 0)%N → (N.size (len / 128) < N.size len)%N.
Proof.
  intros Hz. assert (len ≠ 0)%N by (intros ->; done). rewrite !N.size_log2 by done.
  change 128%N with (2 ^ 7)%N in *. rewrite <-N.shiftr_div_pow2 in *.
  rewrite N.log2_shiftr. assert (128 <= len)%N as Hb.
  { apply N.nlt_ge. intros Hlt. apply Hz. rewrite N.shiftr_div_pow2. by apply N.div_small. }
  apply (N.log2_le_mono 128) in Hb. change (N.log2 128) with 7%N in Hb. lia.
Qed.

(** ** Decoding what was encoded *)

Section roundtrip.
Context (rest : string).

(** Within the five groups the decoder allows, the loop returns the value. *)
Lemma decode_encode_loop g : ∀ efuel dfuel len acc,
  N.to_nat (N.size len) < efuel → g < dfuel → g < 5 →
  (len < 2 ^ (7 * N.of_nat (S g)))%N →
  (acc < 2 ^ (7 * N.of_nat (4 - g)))%N →
  decode_length_loop dfuel (7 * N.of_nat (4 - g)) acc (encode_length_loop efuel len +:+ rest)
  = Ok ((acc + len * 2 ^ (7 * N.of_nat (4 - g)))%N, rest).
Proof.
  induction g as [|g IH]; intros [|efuel] [|dfuel] len acc He Hd Hg Hlen Hacc; try lia.
  all: rewrite encode_loop_unfold; destruct (N.eqb_spec (len / 128) 0) as [Hz|Hz].
  all: try (apply N.div_small_iff in Hz; [|done]).
  all: try (exfalso; apply Hz, N.div_small; exact Hlen).
  all: unfold sing; rewrite ?str_app_cons; cbn [decode_length_loop];
    match goal with |- context [(28 <? ?x)%N] => destruct (N.ltb_spec 28 x); [lia|] end.
  1,2: rewrite ord_chr by lia; destruct (last_byte len Hz) as (_ & -> & ->);
    rewrite N_lor_shiftl_add by done; done.
  rewrite ord_chr by (pose proof (N.mod_lt len 128); lia).
  rewrite land7f, N.Div0.mod_mod, land80_low by (by apply N.mod_lt).
  rewrite N_lor_shiftl_add by done. cbn [N.eqb].
  replace (7 * N.of_nat (4 - S g) + 7)%N with (7 * N.of_nat (4 - g))%N by lia.
  rewrite IH; try lia.
  - f_equal. f_equal. rewrite (N.div_mod len 128) at 3 by done.
    replace (7 * N.of_nat (4 - g))%N with (7 + 7 * N.of_nat (4 - S g))%N by lia.
    rewrite N.pow_add_r. change (2 ^ 7)%N with 128%N. lia.
  - pose proof (size_div128 len Hz). lia.
  - apply N.Div0.div_lt_upper_bound. revert Hlen.
    replace (7 * N.of_nat (S (S g)))%N with (7 + 7 * N.of_nat (S g))%N by lia.
    by rewrite N.pow_add_r.
  - replace (7 * N.of_nat (4 - g))%N with (7 + 7 * N.of_nat (4 - S g))%N by lia.
    rewrite N.pow_add_r. change (2 ^ 7)%N with 128%N.
    pose proof (N.mod_lt len 128). nia.
Qed.

(** Beyond them it throws. *)
Lemma decode_encode_loop_overflow g : ∀ efuel dfuel len acc,
  N.to_nat (N.size len) < efuel → g < dfuel → g ≤ 5 →
  (2 ^ (7 * N.of_nat g) <= len)%N →
  decode_length_loop dfuel (7 * N.of_nat (5 - g)) acc (encode_length_loop efuel len +:+ rest)
  = throw (UnserialisationError "Bad encoded length: insufficient data").
Proof.
  induction g as [|g IH]; intros [|efuel] [|dfuel] len acc He Hd Hg Hlen; try lia.
  - rewrite encode_loop_unfold. destruct (_ =? 0)%N; unfold sing; rewrite ?str_app_cons; done.
  - assert (Hz : (len / 128 ≠ 0)%N).
    { intros Hz. apply N.div_small_iff in Hz; [|done].
      assert (2 ^ 7 <= 2 ^ (7 * N.of_nat (S g)))%N by (apply N.pow_le_mono_r; lia).
      change (2 ^ 7)%N with 128%N in *. lia. }
    rewrite encode_loop_unfold. destruct (N.eqb_spec (len / 128) 0) as [|_]; [done|].
    rewrite str_app_cons. cbn [decode_length_loop].
    destruct (N.ltb_spec 28 (7 * N.of_nat (5 - S g))); [done|].
    rewrite ord_chr by (pose proof (N.mod_lt len 128); lia).
    rewrite land80_low by (by apply N.mod_lt). cbn [N.eqb].
    replace (7 * N.of_nat (5 - S g) + 7)%N with (7 * N.of_nat (5 - g))%N by lia.
    apply IH; try lia.
    + pose proof (size_div128 len Hz). lia.
    + apply N.div_le_lower_bound; [done|]. revert Hlen.
      replace (7 * N.of_nat (S g))%N with (7 + 7 * N.of_nat g)%N by lia.
      by rewrite N.pow_add_r.
Qed.
End roundtrip.

(** One iteration of the decoding loop. *)
Lemma decode_loop_cons fuel shift acc c p :
  (acc < 2 ^ shift)%N → (shift <= 28)%N →
  decode_length_loop (S fuel) shift acc (String c p) =
    if (N.land (ord c) 0x80 =? 0)%N
    then decode_length_loop fuel (shift + 7) (acc + ord c mod 128 * 2 ^ shift) p
    else Ok ((acc + ord c mod 128 * 2 ^ shift)%N, p).
Proof.
  intros Hacc Hs. cbn [decode_length_loop]. destruct (N.ltb_spec 28 shift); [lia|].
  by rewrite N_lor_shiftl_add, land7f.
Qed.

(** Whatever the bytes are, the loop ends within its fuel, consumes between one
    and five bytes and returns a value of at most 35 bits. *)
Lemma decode_length_loop_spec k : ∀ p acc,
  k ≤ 5 → (acc < 2 ^ (7 * N.of_nat (5 - k)))%N →
  match decode_length_loop (S k) (7 * N.of_nat (5 - k)) acc p with
  | Ok (len, q) => (len < 2 ^ 35)%N ∧
      ∃ pre, p = pre +:+ q ∧ 1 ≤ String.length pre ≤ k
  | Throw e => e = UnserialisationError "Bad encoded length: insufficient data"
  | OutOfFuel => False
  end.
Proof.
  induction k as [|k IH]; intros [|c p] acc Hk Hacc; [done..|].
  rewrite decode_loop_cons by (done || lia).
  pose proof (N.mod_lt (ord c) 128).
  assert (Hnext : (acc + ord c mod 128 * 2 ^ (7 * N.of_nat (5 - S k))
            < 2 ^ (7 * N.of_nat (5 - k)))%N).
  { replace (7 * N.of_nat (5 - k))%N with (7 + 7 * N.of_nat (5 - S k))%N by lia.
    rewrite N.pow_add_r. change (2 ^ 7)%N with 128%N. nia. }
  destruct (N.eqb_spec (N.land (ord c) 128) 0).
  - replace (7 * N.of_nat (5 - S k) + 7)%N with (7 * N.of_nat (5 - k))%N by lia.
    specialize (IH p _ ltac:(lia) Hnext). destruct (decode_length_loop _ _ _ _) as [[len q]| |];
      [|done..]. destruct IH as (? & pre & -> & ?). split; [done|].
    exists (String c pre). rewrite str_app_cons. cbn. split; [done|lia].
  - split.
    + eapply N.lt_le_trans; [exact Hnext|]. apply N.pow_le_mono_r; lia.
    + exists (String c ""). rewrite str_app_cons. cbn. split; [done|lia].
Qed.

(** A length below the limit decodes to itself and leaves the bytes that follow. *)
Lemma decode_encode_ok len check rest :
  (len < max_length)%N → (check = true → (len <= str_size rest)%N) →
  rsp_decode_length (encode_length len +:+ rest) check = Ok (len, rest).
Proof.
  unfold max_length, encode_length, rsp_decode_length. intros Hlen Hck.
  assert (Hfin : check && (str_size rest <? len)%N = false).
  { destruct check; [|done]. cbn. apply N.ltb_ge. auto. }
  destruct (N.ltb_spec len 255) as [Hs|Hs].
  - rewrite str_app_sing, ord_chr by lia.
    destruct (N.eqb_spec len 0xff); [lia|]. cbn [mbind res_bind]. by rewrite Hfin.
  - rewrite str_app_cons. change (ord (chr 255)) with 255%N. cbn [N.eqb Pos.eqb].
    pose proof (decode_encode_loop rest 4 (S (N.to_nat (N.size (len - 255)))) 6
      (len - 255) 0) as H.
    change (7 * N.of_nat (4 - 4))%N with 0%N in H. rewrite H; [|lia..|]; clear H.
    + cbn [mbind res_bind]. replace (0 + (len - 255) * 2 ^ 0 + 255)%N with len by (cbn; lia).
      by rewrite Hfin.
    + change (7 * N.of_nat 5)%N with 35%N. lia.
Qed.

(** A larger one is refused, whatever follows. *)
Lemma decode_encode_too_long len check rest :
  (max_length <= len)%N →
  rsp_decode_length (encode_length len +:+ rest) check
  = throw (UnserialisationError "Bad encoded length: insufficient data").
Proof.
  unfold max_length, encode_length, rsp_decode_length. intros Hlen.
  destruct (N.ltb_spec len 255) as [Hs|Hs]; [lia|].
  rewrite str_app_cons. change (ord (chr 255)) with 255%N. cbn [N.eqb Pos.eqb].
  pose proof (decode_encode_loop_overflow rest 5 (S (N.to_nat (N.size (len - 255)))) 6
    (len - 255) 0) as H.
  change (7 * N.of_nat (5 - 5))%N with 0%N in H. rewrite H; [done|lia..|].
  change (7 * N.of_nat 5)%N with 35%N. lia.
Qed.

(** Shared with the clients of the decoder: reading the bytes a length announces. *)
Lemma read_bytes_app s t : read_bytes (str_size s) (s +:+ t) = (s, t).
Proof.
  unfold read_bytes, str_size. rewrite Nat2N.id. by rewrite str_take_app, str_drop_app.
Qed.

(** On arbitrary bytes the decoder never runs past the buffer and never
    loops: it either throws an unserialisation error or consumes a prefix of
    one to six bytes, and the returned length is below the limit and, when
    checked, fits in the bytes that remain. *)
Lemma rsp_decode_length_spec p check :
  match rsp_decode_length p check with
  | Ok (len, q) => (len < max_length)%N ∧
      (check = true → (len <= str_size q)%N) ∧
      ∃ pre, p = pre +:+ q ∧ 1 ≤ String.length pre ≤ 6
  | Throw e => ∃ msg, e = UnserialisationError msg
  | OutOfFuel => False
  end.
Proof.
  unfold rsp_decode_length. destruct p as [|c p]; [eauto|].
  assert (Hmid : match (if (ord c =? 0xff)%N
      then '(l, p) ← decode_length_loop 6 0 0 p; Ok ((l + 255)%N, p) else Ok (ord c, p)) with
    | Ok (len, q) => (len < max_length)%N ∧
        ∃ pre, String c p = pre +:+ q ∧ 1 ≤ String.length pre ≤ 6
    | Throw e => ∃ msg, e = UnserialisationError msg
    | OutOfFuel => False
    end).
  { destruct (ord c =? 0xff)%N.
    - pose proof (decode_length_loop_spec 5 p 0 ltac:(lia) ltac:(done)) as H.
      change (7 * N.of_nat (5 - 5))%N with 0%N in H.
      destruct (decode_length_loop 6 0 0 p) as [[len q]| |]; cbn; [|eauto|done].
      destruct H as (? & pre & -> & ?). split; [unfold max_length; lia|].
      exists (String c pre). rewrite str_app_cons. cbn. split; [done|lia].
    - pose proof (ord_bound c). split; [unfold max_length; lia|].
      exists (String c ""). rewrite str_app_cons. cbn. split; [done|lia]. }
  destruct (if (ord c =? 0xff)%N then _ else _) as [[len q]| |];
    cbn [mbind res_bind]; [|done..].
  destruct (check && _) eqn:E; [eauto|]. destruct Hmid as [? Hpre]. split_and!; [done| |done].
  intros ->. cbn in E. by apply N.ltb_ge.
Qed.

(** ** Properties *)

(** *** Length-prefixed strings *)

Lemma decode_string_app s rest :
  (str_size s < max_length)%N → decode_string (encode_string s +:+ rest) = Ok (s, rest).
Proof.
  intros Hs. unfold decode_string, encode_string. rewrite str_app_assoc, decode_encode_ok by
    (try done; intros _; rewrite str_size_app; lia).
  cbn [mbind res_bind]. by rewrite read_bytes_app.
Qed.

(** On arbitrary bytes: an unserialisation error, or a string and strictly fewer
    bytes to read. *)
Lemma decode_string_spec p :
  match decode_string p with
  | Ok (s, q) => String.length q < String.length p ∧ (str_size s < max_length)%N ∧
      ∃ pre, p = pre +:+ s +:+ q
  | Throw e => ∃ msg, e = UnserialisationError msg
  | OutOfFuel => False
  end.
Proof.
  unfold decode_string. pose proof (rsp_decode_length_spec p true) as H.
  destruct (rsp_decode_length p true) as [[len q]|e|]; cbn [mbind res_bind]; [|done..].
  destruct H as (Hlen & Hsz & pre & -> & Hpre). specialize (Hsz eq_refl). unfold read_bytes.
  unfold str_size in *. rewrite str_app_length, str_drop_length. split_and!; [lia| |].
  - rewrite str_take_length. lia.
  - exists pre. by rewrite str_take_drop.
Qed.

(** The strings the format can carry. *)
Definition encodable (s : string) : Prop := (str_size s < max_length)%N.

Lemma encode_string_cons s : ∃ c p, encode_string s = String c p.
Proof.
  unfold encode_string, encode_length. destruct (_ <? _)%N; unfold sing; rewrite str_app_cons; eauto.
Qed.

Lemma concat_length_ge {A} (f : A → string) l :
  (∀ a, 1 ≤ String.length (f a)) → length l ≤ String.length (str_concat (f <$> l)).
Proof.
  intros Hf. induction l as [|a l IH]; cbn; [lia|]. fold (str_concat (f <$> l)).
  rewrite str_app_length. specialize (Hf a). lia.
Qed.

(** A length below [255 + 2^35] followed by any bytes decodes to that length
    and leaves exactly those bytes (with [check_remaining], provided that many
    bytes follow); a length of [255 + 2^35] or more can be encoded but is never
    decoded: the decoder refuses a sixth group of seven bits. *)
Theorem encode_decode_length len check rest :
  (check = true → (len <= str_size rest)%N) →
  rsp_decode_length (encode_length len +:+ rest) check =
    if (len <? max_length)%N then Ok (len, rest)
    else throw (UnserialisationError "Bad encoded length: insufficient data").
Proof.
  intros Hck. destruct (N.ltb_spec len max_length).
  - by apply decode_encode_ok.
  - by apply decode_encode_too_long.
Qed.

Lemma encode_decode_length_witness :
  (true = true → (300 <= str_size (str_repeat 300 "x"%char))%N) ∧
  rsp_decode_length (encode_length 300 +:+ str_repeat 300 "x"%char) true
  = Ok (300%N, str_repeat 300 "x"%char).
Proof.
  assert (H : true = true → (300 <= str_size (str_repeat 300 "x"%char))%N)
    by (intros _; vm_compute; discriminate).
  split; [exact H|]. exact (encode_decode_length 300 true (str_repeat 300 "x"%char) H).
Defined.
