(* ===== verification/Json.v ===== *)
(** * JSON values and the checks made on them

    The [Json::Value] of libs/jsoncpp as the program uses it, and the accessors
    of src/utils/jsonutils.cc.

    An array is a dense list (the program only appends, or writes within the
    size); an object is the list of its members in the key order of the
    underlying [std::map].  A double is a [spec_float].  jsoncpp stores strings
    and keys as C strings, so a [std::string] entering a value is cut at its
    first NUL byte ([c_str]). *)

From Stdlib Require Import SpecFloat DecimalString.
From S2P Require Import Prelude.

(** [std::equal] on two sequences of the same length. *)
Definition forallb2 {A B} (f : A → B → bool) : list A → list B → bool :=
  fix go l k :=
    match l, k with
    | [], [] => true
    | x :: l, y :: k => f x y && go l k
    | _, _ => false
    end.

(** ** Values *)

Inductive json : Type :=
| JNull
| JInt (z : Z)
| JUInt (n : N)
| JReal (d : spec_float)
| JStr (s : string)
| JBool (b : bool)
| JArr (l : list json)
| JObj (m : list (string * json)).

(** The declaration order of [enum ValueType], used to compare values of
    different types. *)
Definition json_type (v : json) : Z :=
  match v with
  | JNull => 0 | JInt _ => 1 | JUInt _ => 2 | JReal _ => 3
  | JStr _ => 4 | JBool _ => 5 | JArr _ => 6 | JObj _ => 7
  end.

Definition intValue : Z := 1.
Definition uintValue : Z := 2.
Definition realValue : Z := 3.
Definition booleanValue : Z := 5.

Fixpoint c_str (s : string) : string :=
  match s with
  | EmptyString => EmptyString
  | String c s => if (ord c =? 0)%N then EmptyString else String c (c_str s)
  end.

(** [Value(const std::string &)]. *)
Definition jstr (s : string) : json := JStr (c_str s).

Definition maxInt : Z := 2147483647.
Definition minInt : Z := -2147483648.
Definition maxUInt : Z := 4294967295.
Definition maxUInt64 : N := 18446744073709551615.

(** *** Doubles against integers *)

Definition real_cmp_Z (d : spec_float) (z : Z) : option comparison :=
  match d with
  | S754_zero _ => Some (0 ?= z)%Z
  | S754_infinity s => Some (if s then Lt else Gt)
  | S754_nan => None
  | S754_finite s m e =>
      let v := if s then Z.neg m else Z.pos m in
      Some (if (0 <=? e)%Z then (v * 2 ^ e ?= z)%Z else (v ?= z * 2 ^ (- e))%Z)
  end.
Definition real_ge_Z (d : spec_float) (z : Z) : bool :=
  match real_cmp_Z d z with Some Gt | Some Eq => true | _ => false end.
Definition real_le_Z (d : spec_float) (z : Z) : bool :=
  match real_cmp_Z d z with Some Lt | Some Eq => true | _ => false end.
Definition real_eq_Z (d : spec_float) (z : Z) : bool :=
  match real_cmp_Z d z with Some Eq => true | _ => false end.
(** The conversion to an integer type truncates. *)
Definition real_trunc (d : spec_float) : Z :=
  match d with
  | S754_finite s m e =>
      let v := if s then Z.neg m else Z.pos m in
      if (0 <=? e)%Z then (v * 2 ^ e)%Z else Z.quot v (2 ^ (- e))
  | _ => 0
  end.

(** *** Type tests; null passes for an array and for an object. *)

Definition isNull (v : json) : bool := match v with JNull => true | _ => false end.
Definition isBool (v : json) : bool := match v with JBool _ => true | _ => false end.
Definition isIntegral (v : json) : bool :=
  match v with JInt _ | JUInt _ | JBool _ => true | _ => false end.
Definition isDouble (v : json) : bool := match v with JReal _ => true | _ => false end.
Definition isNumeric (v : json) : bool := isIntegral v || isDouble v.
Definition isString (v : json) : bool := match v with JStr _ => true | _ => false end.
Definition isArray (v : json) : bool := match v with JNull | JArr _ => true | _ => false end.
Definition isObject (v : json) : bool := match v with JNull | JObj _ => true | _ => false end.

Definition json_size (v : json) : N :=
  match v with
  | JArr l => N.of_nat (length l)
  | JObj m => N.of_nat (length m)
  | _ => 0
  end.

(** [operator<] with a right operand of a known scalar type: values of
    different types compare by type alone. *)
Definition lt_Int (v : json) (k : Z) : bool :=
  match v with JInt z => (z <? k)%Z | _ => (json_type v <? intValue)%Z end.
Definition gt_UInt64 (v : json) (k : N) : bool :=
  match v with JUInt n => (k <? n)%N | _ => (uintValue <? json_type v)%Z end.

(** [isConvertibleTo], for the three target types the program asks for. *)
Definition isConvertibleTo (v : json) (other : Z) : bool :=
  match v with
  | JNull => true
  | JInt z => (other =? intValue)%Z || ((other =? uintValue)%Z && (0 <=? z)%Z)
              || (other =? realValue)%Z || (other =? booleanValue)%Z
  | JUInt n => ((other =? intValue)%Z && (Z.of_N n <=? maxInt)%Z) || (other =? uintValue)%Z
              || (other =? realValue)%Z || (other =? booleanValue)%Z
  | JReal d => ((other =? intValue)%Z && real_ge_Z d minInt && real_le_Z d maxInt)
              || ((other =? uintValue)%Z && real_ge_Z d 0 && real_le_Z d maxUInt)
              || (other =? realValue)%Z || (other =? booleanValue)%Z
  | JBool _ => (other =? intValue)%Z || (other =? uintValue)%Z
              || (other =? realValue)%Z || (other =? booleanValue)%Z
  | JStr _ | JArr _ | JObj _ => false
  end.

(** Conversions; a failed JSON_ASSERT_MESSAGE throws [std::runtime_error]. *)
Definition asString (v : json) : res string :=
  match v with
  | JNull => Ok ""
  | JStr s => Ok s
  | JBool b => Ok (if b then "true" else "false")
  | _ => throw (RuntimeError "Type is not convertible to string")
  end.

Definition asUInt (v : json) : res N :=
  match v with
  | JNull => Ok 0%N
  | JInt z =>
      if (z <? 0)%Z then throw (RuntimeError "Negative integer can not be converted to unsigned integer")
      else if (maxUInt <? z)%Z then throw (RuntimeError "signed integer out of UInt range")
      else Ok (Z.to_N z)
  | JUInt n =>
      if (maxUInt <? Z.of_N n)%Z then throw (RuntimeError "unsigned integer out of UInt range")
      else Ok n
  | JReal d =>
      if real_ge_Z d 0 && real_le_Z d maxUInt then Ok (Z.to_N (real_trunc d))
      else throw (RuntimeError "Real out of unsigned integer range")
  | JBool b => Ok (if b then 1 else 0)%N
  | _ => throw (RuntimeError "Type is not convertible to uint")
  end.

Definition asInt (v : json) : res Z :=
  match v with
  | JNull => Ok 0%Z
  | JInt z => if ((minInt <=? z) && (z <=? maxInt))%Z then Ok z else throw (RuntimeError "unsigned integer out of signed int range")
  | JUInt n => if (Z.of_N n <=? maxInt)%Z then Ok (Z.of_N n) else throw (RuntimeError "unsigned integer out of signed int range")
  | JReal d => if real_ge_Z d minInt && real_le_Z d maxInt then Ok (real_trunc d) else throw (RuntimeError "Real out of signed integer range")
  | JBool b => Ok (if b then 1 else 0)%Z
  | _ => throw (RuntimeError "Type is not convertible to int")
  end.

(** The double nearest to an integer (53 bits of precision). *)
Definition Z_to_double (z : Z) : spec_float := binary_normalize 53 1024 z 0 false.

Definition asDouble (v : json) : res spec_float :=
  match v with
  | JNull => Ok (Z_to_double 0)
  | JInt z => Ok (Z_to_double z)
  | JUInt n => Ok (Z_to_double (Z.of_N n))
  | JReal d => Ok d
  | JBool b => Ok (Z_to_double (if b then 1 else 0))
  | JStr _ | JArr _ | JObj _ => throw (RuntimeError "Type is not convertible to double")
  end.

(** [asUInt64]; the real branch goes through the 32-bit [UInt]. *)
Definition asUInt64 (v : json) : res N :=
  match v with
  | JNull => Ok 0%N
  | JInt z =>
      if (z <? 0)%Z then throw (RuntimeError "Negative integer can not be converted to UInt64")
      else Ok (Z.to_N z)
  | JUInt n => Ok n
  | JReal d =>
      if real_ge_Z d 0 && real_le_Z d (2 ^ 64) then Ok (wrap32 (Z.to_N (real_trunc d)))
      else throw (RuntimeError "Real out of UInt64 range")
  | JBool b => Ok (if b then 1 else 0)%N
  | _ => throw (RuntimeError "Type is not convertible to UInt64")
  end.

Definition asBool (v : json) : bool :=
  match v with
  | JNull => false
  | JInt z => negb (z =? 0)%Z
  | JUInt n => negb (n =? 0)%N
  | JReal d => negb (real_eq_Z d 0)
  | JBool b => b
  | JStr s => negb (str_size s =? 0)%N
  | JArr _ | JObj _ => true
  end.

(** [valueToString(UInt64)]. *)
Definition valueToString (n : N) : string := NilZero.string_of_uint (N.to_uint n).

(** *** Members *)

Fixpoint obj_find (key : string) (m : list (string * json)) : option json :=
  match m with
  | [] => None
  | (k, v) :: m => if decide (k = key) then Some v else obj_find key m
  end.

(** Assignment through [operator[]]: replaces the member or inserts it at its
    place in key order. *)
Fixpoint obj_set (key : string) (x : json) (m : list (string * json)) : list (string * json) :=
  match m with
  | [] => [(key, x)]
  | (k, v) :: m' =>
      if decide (k = key) then (k, x) :: m'
      else if decide (str_lt key k) then (key, x) :: m
      else (k, v) :: obj_set key x m'
  end.

(** [operator[](key) const], [get(key, def)] and [isMember(key)]; on a value
    that is neither null nor an object JSON_ASSERT fails. *)
Definition json_member (v : json) (key : string) : res (option json) :=
  match v with
  | JNull => Ok None
  | JObj m => Ok (obj_find (c_str key) m)
  | _ => throw AssertionError
  end.
Definition json_get (v : json) (key : string) (def : json) : res json :=
  o ← json_member v key; Ok (default def o).
Definition json_index (v : json) (key : string) : res json := json_get v key JNull.

(** [value[key] = x] on a null or object value. *)
Definition json_set (v : json) (key : string) (x : json) : json :=
  match v with
  | JObj m => JObj (obj_set (c_str key) x m)
  | _ => JObj (obj_set (c_str key) x [])
  end.

(** [value[key]] of a value that is not constant: a missing member is added. *)
Definition json_index_insert (key : string) : M json json := λ v,
  match json_member v key with
  | Ok (Some x) => (v, Ok x)
  | Ok None => (json_set v key JNull, Ok JNull)
  | Throw e => (v, Throw e)
  | OutOfFuel => (v, OutOfFuel)
  end.

(** [value.append(x)] on a null or array value. *)
Definition json_append (v : json) (x : json) : json :=
  match v with JArr l => JArr (l ++ [x]) | _ => JArr [x] end.

(** The values an iterator visits, and the member names in iteration order. *)
Definition json_elems (v : json) : list json :=
  match v with JArr l => l | JObj m => m.*2 | _ => [] end.
Definition json_members (v : json) : list (string * json) :=
  match v with JObj m => m | _ => [] end.

(** ** src/utils/jsonutils.cc *)

(** A text between double quotes, as messages show names. *)
Definition quoted (s : string) : string := sing (chr 34) +:+ s +:+ sing (chr 34).

Definition json_check_object (v : json) (description : string) : res () :=
  if isObject v then Ok ()
  else throw (InvalidValueError ("JSON value for " +:+ description +:+ " was not an object")).
Definition json_check_array (v : json) (description : string) : res () :=
  if isArray v then Ok ()
  else throw (InvalidValueError ("JSON value for " +:+ description +:+ " was not an array")).
Definition json_check_string (v : json) (description : string) : res () :=
  if isString v then Ok ()
  else throw (InvalidValueError ("JSON value for " +:+ description +:+ " was not a string")).
Definition json_check_bool (v : json) (description : string) : res () :=
  if isBool v then Ok ()
  else throw (InvalidValueError ("JSON value for " +:+ description +:+ " was not a boolean")).

(** The checks both forms of [json_get_uint64_member] make on a member that is
    not null. *)
Definition check_uint64_member (member : json) (key : string) (max : N) : res N :=
  if negb (isIntegral member)
  then throw (InvalidValueError ("JSON value for " +:+ key +:+ " was not an integer"))
  else if lt_Int member 0
  then throw (InvalidValueError ("JSON value for " +:+ key +:+ " was negative"))
  else if gt_UInt64 member max
  then throw (InvalidValueError ("JSON value for " +:+ key
         +:+ " was larger than maximum allowed (" +:+ valueToString max +:+ ")"))
  else asUInt64 member.

Definition json_get_uint64_member_def (v : json) (key : string) (max def : N) : res N :=
  member ← json_get v key JNull;
  if isNull member then Ok def else check_uint64_member member key max.

Definition json_get_uint64_member (v : json) (key : string) (max : N) : res N :=
  member ← json_get v key JNull;
  if isNull member
  then throw (InvalidValueError ("Member " +:+ key +:+ " was missing"))
  else check_uint64_member member key max.

Definition json_get_string_member (v : json) (key def : string) : res string :=
  member ← json_get v key JNull;
  if isNull member then Ok def
  else if negb (isString member)
  then throw (InvalidValueError ("JSON value for " +:+ key +:+ " was not a string"))
  else asString member.

Definition json_get_bool (v : json) (key : string) (def : bool) : res bool :=
  member ← json_get v key JNull;
  if isNull member then Ok def
  else if negb (isConvertibleTo member booleanValue)
  then throw (InvalidValueError ("JSON value for " +:+ key +:+ " was not convertible to a boolean"))
  else Ok (asBool member).

(** [json_get_idstyle_value]: the value and the error string (empty when there
    is none).  [styled] is [toStyledString], the library's pretty printer. *)
Definition json_get_idstyle_value (styled : json → string) (v : json) : res (string * string) :=
  if isString v then s ← asString v; Ok (s, "")
  else if isNull v then Ok ("", "")
  else if negb (isConvertibleTo v uintValue)
  then Ok ("", "Expected value in field to be an integer or a string")
  else if lt_Int v 0
  then Ok ("", "JSON value for field was negative - wanted unsigned int")
  else if gt_UInt64 v maxUInt64
  then Ok ("", "JSON value " +:+ styled v +:+ " was larger than maximum allowed ("
           +:+ valueToString maxUInt64 +:+ ")")
  else n ← asUInt64 v; Ok (valueToString n, "").

Definition json_get_uint64 (styled : json → string) (value : json) : res N :=
  if negb (isConvertibleTo value uintValue)
  then throw (InvalidValueError "Value is not convertible to an integer")
  else if lt_Int value 0
  then throw (InvalidValueError "JSON value for was negative - wanted unsigned int")
  else if gt_UInt64 value maxUInt64
  then throw (InvalidValueError ("JSON value " +:+ styled value +:+ " was larger than maximum allowed ("
         +:+ valueToString maxUInt64 +:+ ")"))
  else asUInt64 value.

(** [json_get_lonlat]: the longitude and the latitude, or the error string. *)
Definition json_get_lonlat (value : json) : res ((spec_float * spec_float) + string) :=
  if isArray value then
    match json_elems value with
    | [lon; lat] =>
        if negb (isConvertibleTo lon realValue)
        then Ok (inr "Invalid longitude component - not convertible to double")
        else if negb (isConvertibleTo lat realValue)
        then Ok (inr "Invalid latitude component - not convertible to double")
        else longitude ← asDouble lon; latitude ← asDouble lat; Ok (inl (longitude, latitude))
    | _ => Ok (inr "Invalid lonlat value - array length not 2")
    end
  else if isObject value then
    lon ← json_index value "lon";
    if negb (isConvertibleTo lon realValue)
    then Ok (inr ("Invalid " +:+ quoted "lon" +:+ " component - not convertible to double"))
    else
      lat ← json_index value "lat";
      if negb (isConvertibleTo lat realValue)
      then Ok (inr ("Invalid " +:+ quoted "lat" +:+ " component - not convertible to double"))
      else longitude ← asDouble lon; latitude ← asDouble lat; Ok (inl (longitude, latitude))
  else Ok (inr "Invalid format for longitude-latitude coordinate").

(** [operator==]: values of different types differ, even as numbers; maps are compared
    member by member. *)
Fixpoint json_eqb (a b : json) : bool :=
  match a, b with
  | JNull, JNull => true
  | JInt x, JInt y => (x =? y)%Z
  | JUInt x, JUInt y => (x =? y)%N
  | JReal x, JReal y => SFeqb x y
  | JBool x, JBool y => eqb x y
  | JStr x, JStr y => bool_decide (x = y)
  | JArr l, JArr k => forallb2 json_eqb l k
  | JObj m, JObj n => forallb2 (λ x y, bool_decide (x.1 = y.1) && json_eqb x.2 y.2) m n
  | _, _ => false
  end.

Definition json_get_double_member (v : json) (key : string) (def : spec_float) : res spec_float :=
  member ← json_get v key JNull;
  if isNull member then Ok def
  else if negb (isConvertibleTo member realValue)
  then throw (InvalidValueError ("JSON value for " +:+ key +:+ " was not convertible to a double"))
  else asDouble member.

Definition json_get_double (v : json) : res spec_float :=
  if negb (isConvertibleTo v realValue)
  then throw (InvalidValueError "JSON value was not convertible to a double")
  else asDouble v.

(** Objects the code builds: members in strictly increasing key order. *)
Definition obj_wf (m : list (string * json)) : Prop := StronglySorted str_lt m.*1.

(** ** Lemmas *)

(** Induction over the values inside arrays and objects. *)
Section json_ind.
Context (P : json → Prop).
Context (HNull : P JNull) (HInt : ∀ z, P (JInt z)) (HUInt : ∀ n, P (JUInt n)) (HReal : ∀ d, P (JReal d)).
Context (HStr : ∀ s, P (JStr s)) (HBool : ∀ b, P (JBool b)).
Context (HArr : ∀ l, Forall P l → P (JArr l)) (HObj : ∀ m, Forall (λ x, P x.2) m → P (JObj m)).

Fixpoint json_nested_ind (v : json) : P v :=
  match v with
  | JNull => HNull | JInt z => HInt z | JUInt n => HUInt n | JReal d => HReal d
  | JStr s => HStr s | JBool b => HBool b
  | JArr l => HArr l ((fix go (l : list json) : Forall P l := match l with [] => Forall_nil_2 P | x :: l => Forall_cons_2 P x l (json_nested_ind x) (go l) end) l)
  | JObj m => HObj m ((fix go (m : list (string * json)) : Forall (λ x, P x.2) m := match m with
                        | [] => Forall_nil_2 _
                        | x :: m => Forall_cons_2 (λ x, P x.2) x m (json_nested_ind x.2) (go m) end) m)
  end.
End json_ind.

Lemma c_str_idemp s : c_str (c_str s) = c_str s.
Proof.
  induction s as [|c s IH]; cbn; [done|]. destruct (ord c =? 0)%N eqn:E; cbn; [done|].
  by rewrite E, IH.
Qed.

Lemma obj_find_set k k' x m :
  obj_find k' (obj_set k x m) = if decide (k = k') then Some x else obj_find k' m.
Proof.
  induction m as [|[j v] m IH]; cbn; [done|].
  destruct (decide (j = k)) as [->|]; cbn; [by case_decide|].
  destruct (decide (str_lt k j)); cbn; [done|].
  rewrite IH. repeat case_decide; naive_solver.
Qed.

Lemma obj_set_last k x m :
  Forall (λ j, str_lt j k) m.*1 → obj_set k x m = m ++ [(k, x)].
Proof.
  induction m as [|[j v] m IH]; csimpl; intros Hall; [done|].
  apply Forall_cons in Hall as [Hj Hall]. rewrite decide_False.
  - rewrite decide_False; [by rewrite IH|]. intros Hkj. exact (irreflexivity str_lt j ltac:(by etrans)).
  - intros ->. exact (irreflexivity str_lt _ Hj).
Qed.

Lemma obj_find_elem k m v : obj_find k m = Some v → (k, v) ∈ m.
Proof.
  induction m as [|[j w] m IH]; cbn; [done|]. case_decide; [|set_solver].
  intros ?. simplify_eq. set_solver.
Qed.

Lemma obj_find_sorted k m v : obj_wf m → (k, v) ∈ m → obj_find k m = Some v.
Proof.
  induction m as [|[j w] m IH]; unfold obj_wf; csimpl; [set_solver|].
  intros [Hs Hall]%StronglySorted_inv [?|Hin]%elem_of_cons; simplify_eq; [by case_decide|].
  case_decide as Hk; [|by apply IH]. subst. rewrite Forall_forall in Hall.
  exfalso. apply (irreflexivity str_lt k). apply Hall, list_elem_of_fmap. by exists (k, v).
Qed.

(** Writing members in increasing order of their names appends them. *)
Lemma json_set_members {A} (f : A → json) l k :
  Forall (λ n, c_str n = n) l.*1 →
  StronglySorted str_lt (k.*1 ++ l.*1) →
  foldl (λ v '(n, c), json_set v n (f c)) (JObj k) l = JObj (k ++ (prod_map id f <$> l)).
Proof.
  revert k. induction l as [|[n c] l IH]; intros k Hl Hs; cbn; [by rewrite app_nil_r|].
  apply Forall_cons in Hl as [Hn Hl]. cbn in Hn, Hs. rewrite Hn, obj_set_last.
  - rewrite IH; [by rewrite <-app_assoc|done|]. rewrite fmap_app. cbn. by rewrite <-app_assoc.
  - apply Forall_forall. intros j Hj. eapply (StronglySorted_app_1_elem_of str_lt); [exact Hs|done|set_solver].
Qed.

(** Reading a member that was just written. *)
Lemma json_get_set v k k' x d :
  isObject v = true → c_str k = k → c_str k' = k' →
  json_get (json_set v k x) k' d =
    if decide (k = k') then Ok x else json_get v k' d.
Proof.
  intros Hv Hk Hk'. unfold json_get, json_member.
  destruct v; try done; cbn; rewrite Hk, Hk', ?obj_find_set; repeat case_decide; done.
Qed.

(** *** Lists in the error monad *)

Lemma mapM_fmap_ok {A B} (f : A → res B) (g : B → A) l : Forall (λ x, f (g x) = Ok x) l → mapM f (g <$> l) = Ok l.
Proof. induction 1 as [|x l Hx _ IH]; [done|]. cbn in *. rewrite Hx. cbn. by rewrite IH. Qed.

Lemma mapM_ok_Forall2 {A B} (f : A → res B) l k : mapM f l = Ok k ↔ Forall2 (λ x y, f x = Ok y) l k.
Proof.
  split.
  - revert k. induction l as [|x l IH]; intros k; cbn; [by intros [= <-]|].
    destruct (f x) as [y|e|] eqn:E; [|done..]. cbn. destruct (mapM f l) as [ys|e|] eqn:El; [|done..]. intros [= <-].
    constructor; [done|]. by apply IH.
  - induction 1 as [|x y l k Hx H IH]; [done|]. cbn. rewrite Hx. cbn. by rewrite IH.
Qed.

Lemma mapM_ok_Forall {A B} (f : A → res B) (P : A → Prop) (Q : B → Prop) l k :
  (∀ x y, P x → f x = Ok y → Q y) → Forall P l → mapM f l = Ok k → Forall Q k.
Proof.
  intros HPQ Hl. revert k. induction Hl as [|x l Hx _ IH]; intros k; cbn; [by intros [= <-]|].
  intros (y & Hy & (k' & Hk & [= <-])%res_bind_ok)%res_bind_ok. eauto.
Qed.

Lemma foldl_json_append {A} (f : A → json) l k : foldl (λ v i, json_append v (f i)) (JArr l) k = JArr (l ++ (f <$> k)).
Proof. revert l. induction k as [|x k IH]; intros l; cbn; [by rewrite app_nil_r|]. by rewrite IH, <-app_assoc. Qed.

Lemma foldl_json_append_id l k : foldl json_append (JArr l) k = JArr (l ++ k).
Proof. change (foldl json_append) with (foldl (λ v i, json_append v (id i))). by rewrite foldl_json_append, list_fmap_id. Qed.

(** *** Values without NUL bytes *)

(** Strings read from JSON hold no NUL byte. *)
Definition clean (s : string) : Prop := c_str s = s.

#[export] Instance clean_dec s : Decision (clean s).
Proof. unfold clean. apply _. Defined.

Fixpoint json_clean (v : json) : bool :=
  match v with
  | JStr s => bool_decide (clean s)
  | JArr l => forallb json_clean l
  | JObj m => forallb (λ '(k, x), json_clean x) m
  | _ => true
  end.

Lemma json_clean_get v key d x :
  json_clean v = true → json_clean d = true → json_get v key d = Ok x → json_clean x = true.
Proof.
  intros Hv Hd. unfold json_get, json_member. destruct v; try done; cbn; intros [= <-]; [done|].
  cbn in Hv. destruct (obj_find (c_str key) m) as [y|] eqn:E; [|done]. cbn.
  apply obj_find_elem in E. rewrite forallb_forall in Hv. specialize (Hv (c_str key, y)).
  cbn in Hv. apply Hv. by apply list_elem_of_In.
Qed.

Lemma clean_app s t : clean s → clean t → clean (s +:+ t).
Proof.
  unfold clean. intros Hs Ht. induction s as [|c s IH]; [done|]. rewrite str_app_cons. cbn in *.
  destruct (ord c =? 0)%N; [done|]. injection Hs as Hs. by rewrite IH.
Qed.

Lemma clean_jstr s : clean s → jstr s = JStr s.
Proof. intros H. unfold jstr. by rewrite H. Qed.

Lemma json_clean_set v k x : json_clean v = true → json_clean x = true → json_clean (json_set v k x) = true.
Proof.
  intros Hv Hx. assert (H : ∀ m, forallb (λ '(k, x), json_clean x) m = true →
    forallb (λ '(k, x), json_clean x) (obj_set (c_str k) x m) = true).
  { induction m as [|[j y] m IH]; cbn; [by rewrite Hx|]. intros [Hy Hm]%andb_true_iff.
    repeat case_decide; cbn; rewrite ?Hx, ?Hy, ?Hm; [done..|]. by rewrite IH. }
  unfold json_set. destruct v; cbn in *; rewrite ?Hx; auto.
Qed.

Lemma json_clean_jstr s : json_clean (jstr s) = true.
Proof. cbn. apply bool_decide_eq_true. apply c_str_idemp. Qed.

Lemma get_set_same v k x d : isObject v = true → clean k → json_get (json_set v k x) k d = Ok x.
Proof. intros Hv Hk. rewrite json_get_set by done. by rewrite decide_True. Qed.

Lemma get_set_other v k k' x d :
  isObject v = true → clean k → clean k' → k ≠ k' → json_get (json_set v k x) k' d = json_get v k' d.
Proof. intros Hv Hk Hk' Hne. rewrite json_get_set by done. by rewrite decide_False. Qed.

(** ** Properties *)

(** The range checks of [json_get_uint64_member] by the stored type of the
    member.  A member parsed as a signed integer (jsoncpp's reader does so for
    every literal up to 2^31-1) passes whatever the maximum is, because values of
    different types compare by type; only a member stored as unsigned is held to
    the maximum, and a boolean is reported as too large. *)
Theorem json_get_uint64_member_range v key max member :
  json_get v key JNull = Ok member → isNull member = false →
  json_get_uint64_member v key max =
    match member with
    | JInt z => if (z <? 0)%Z
        then throw (InvalidValueError ("JSON value for " +:+ key +:+ " was negative"))
        else Ok (Z.to_N z)
    | JUInt n => if (n <=? max)%N then Ok n
        else throw (InvalidValueError ("JSON value for " +:+ key
          +:+ " was larger than maximum allowed (" +:+ valueToString max +:+ ")"))
    | JBool _ => throw (InvalidValueError ("JSON value for " +:+ key
          +:+ " was larger than maximum allowed (" +:+ valueToString max +:+ ")"))
    | _ => throw (InvalidValueError ("JSON value for " +:+ key +:+ " was not an integer"))
    end.
Proof.
  intros Hget Hn. unfold json_get_uint64_member. rewrite Hget. cbn [mbind res_bind].
  rewrite Hn. unfold check_uint64_member. destruct member; cbn; try done.
  - destruct (Z.ltb_spec z 0); [done|]. by destruct (Z.ltb_spec z 0); [lia|].
  - destruct (N.ltb_spec max n), (N.leb_spec n max); done || lia.
Qed.

Lemma json_get_uint64_member_range_witness :
  json_get (JObj [("max_length", JInt 1000)]) "max_length" JNull = Ok (JInt 1000) ∧
  isNull (JInt 1000) = false ∧
  json_get_uint64_member (JObj [("max_length", JInt 1000)]) "max_length" 240 = Ok 1000%N.
Proof.
  split; [reflexivity|]. split; [reflexivity|].
  exact (json_get_uint64_member_range (JObj [("max_length", JInt 1000)]) "max_length" 240
    (JInt 1000) eq_refl eq_refl).
Defined.

(** An identifier field yields a non-empty identifier exactly for a
    non-empty string or a non-negative integer (printed in decimal); null and the
    empty string yield an empty one without an error; every other value yields
    an error and no identifier.  The accessor itself never throws. *)
Theorem json_get_idstyle_value_spec styled v :
  ∃ val error, json_get_idstyle_value styled v = Ok (val, error) ∧
    match v with
    | JNull => val = "" ∧ error = ""
    | JStr s => val = s ∧ error = ""
    | JUInt n => (n <= maxUInt64)%N → val = valueToString n ∧ error = ""
    | JInt z => if (z <? 0)%Z then val = "" ∧ error ≠ ""
                else val = valueToString (Z.to_N z) ∧ error = ""
    | _ => val = "" ∧ error ≠ ""
    end.
Proof.
  unfold json_get_idstyle_value. destruct v; cbn -[maxUInt64 valueToString].
  - eauto.
  - destruct (Z.leb_spec 0 z); cbn -[valueToString].
    + destruct (Z.ltb_spec z 0); [lia|]. cbn -[valueToString]. eauto.
    + destruct (Z.ltb_spec z 0); [|lia]. cbn. eauto.
  - destruct (N.ltb_spec maxUInt64 n); cbn -[maxUInt64 valueToString]; [|eauto].
    eexists _, _. split; [done|]. lia.
  - destruct (real_ge_Z d 0), (real_le_Z d maxUInt); cbn -[maxUInt64 valueToString];
      eexists _, _; split; done.
  - eauto.
  - eexists _, _. split; done.
  - eexists _, _. split; done.
  - eexists _, _. split; done.
Qed.
