(* ===== verification/Taxonomy.v ===== *)
(** * Category taxonomies

    src/jsonxapian/taxonomy.h and taxonomy.cc: a hierarchy of categories in
    which every category records its direct parents and children and, kept up to
    date by every operation, the sets of all its ancestors and descendants.

    The state is the [categories] map together with the [modified] set the
    caller passes in; an operation that throws keeps what it changed before. *)

From S2P Require Import Prelude Json.

Abbreviation Categories := (gset string).

Record Category := mkCategory {
  name : string;
  parents : Categories;
  children : Categories;
  ancestors : Categories;
  descendants : Categories;
}.

#[export] Instance Category_eq_dec : EqDecision Category.
Proof. solve_decision. Defined.

Definition new_Category (n : string) : Category := mkCategory n ∅ ∅ ∅ ∅.

(** The categories of a [Taxonomy] and the caller's set of modified ones. *)
Record tstate := mkT { cats : gmap string Category; modified : Categories }.

(** ** Operations on one category: the new record and whether it changed *)

Definition Category_add_parent (p : string) (c : Category) : Category * bool :=
  (mkCategory (name c) ({[p]} ∪ parents c) (children c) ({[p]} ∪ ancestors c) (descendants c),
   bool_decide (p ∉ parents c) || bool_decide (p ∉ ancestors c)).
Definition Category_add_child (k : string) (c : Category) : Category * bool :=
  (mkCategory (name c) (parents c) ({[k]} ∪ children c) (ancestors c) ({[k]} ∪ descendants c),
   bool_decide (k ∉ children c) || bool_decide (k ∉ descendants c)).
Definition Category_add_ancestor (a : string) (c : Category) : Category * bool :=
  (mkCategory (name c) (parents c) (children c) ({[a]} ∪ ancestors c) (descendants c),
   bool_decide (a ∉ ancestors c)).
Definition Category_add_descendant (d : string) (c : Category) : Category * bool :=
  (mkCategory (name c) (parents c) (children c) (ancestors c) ({[d]} ∪ descendants c),
   bool_decide (d ∉ descendants c)).
Definition Category_remove_parent (p : string) (c : Category) : Category * bool :=
  (mkCategory (name c) (parents c ∖ {[p]}) (children c) (ancestors c) (descendants c),
   bool_decide (p ∈ parents c)).
Definition Category_remove_child (k : string) (c : Category) : Category * bool :=
  (mkCategory (name c) (parents c) (children c ∖ {[k]}) (ancestors c) (descendants c),
   bool_decide (k ∈ children c)).
Definition Category_set_ancestors (a : Categories) (c : Category) : Category * bool :=
  (mkCategory (name c) (parents c) (children c) a (descendants c),
   bool_decide (ancestors c ≠ a)).
Definition Category_set_descendants (d : Categories) (c : Category) : Category * bool :=
  (mkCategory (name c) (parents c) (children c) (ancestors c) d,
   bool_decide (descendants c ≠ d)).

(** [categories.find(n)->second.op(..., modified)]: applies an operation to the
    category in place and adds its own name to [modified] when it changed. *)
Definition on_cat (n : string) (op : Category → Category * bool) : M tstate () := λ t,
  match cats t !! n with
  | None => (t, throw UndefinedBehaviour)
  | Some c =>
      let '(c', changed) := op c in
      (mkT (<[n := c']> (cats t)) (if changed then {[name c]} ∪ modified t else modified t), Ok ())
  end.

(** [categories.find(n)->second], to read it. *)
Definition find_cat (n : string) : M tstate Category := λ t,
  match cats t !! n with
  | None => (t, throw UndefinedBehaviour)
  | Some c => (t, Ok c)
  end.

(** ** Operations on the taxonomy *)

Definition Taxonomy_find (t : gmap string Category) (cat_name : string) : option Category :=
  t !! cat_name.

Definition Taxonomy_add (cat_name : string) : M tstate () := λ t,
  match cats t !! cat_name with
  | Some _ => (t, Ok ())
  | None => (mkT (<[cat_name := new_Category cat_name]> (cats t))
                 ({[cat_name]} ∪ modified t), Ok ())
  end.

(** One iteration of [while (!stack.empty())] in [recalc_ancestors] and
    [recalc_descendants]: takes the first category of the stack, records it and
    pushes its direct parents (or children). *)
Definition recalc_body (next : Category → Categories) (t : gmap string Category)
    (s : Categories * Categories) : (Categories * Categories) + res Categories :=
  let '(stack, acc) := s in
  match sorted_elems stack with
  | [] => inr (Ok acc)
  | n :: _ =>
      match t !! n with
      | None => inr (throw UndefinedBehaviour)
      | Some cat => inl ((stack ∖ {[n]}) ∪ next cat, {[name cat]} ∪ acc)
      end
  end.

Definition recalc_closure (next : Category → Categories) (t : gmap string Category)
    (start : Categories) : res Categories :=
  match iterate (size t * size t) (recalc_body next t) (start, ∅) with
  | inl _ => OutOfFuel
  | inr r => r
  end.

Definition recalc_ancestors (cat_name : string) : M tstate () :=
  cat ← find_cat cat_name;
  t ← getM;
  a ← liftM (recalc_closure parents (cats t) (parents cat));
  on_cat cat_name (Category_set_ancestors a).

Definition recalc_descendants (cat_name : string) : M tstate () :=
  cat ← find_cat cat_name;
  t ← getM;
  d ← liftM (recalc_closure children (cats t) (children cat));
  on_cat cat_name (Category_set_descendants d).

Definition loop_msg (cat_name parent_name : string) : string :=
  "Attempt to create loop in taxonomy: '" +:+ parent_name +:+ "' is a descendant of '"
  +:+ cat_name +:+ "' - can't add it as a parent".

Definition Taxonomy_add_parent (cat_name parent_name : string) : M tstate () :=
  if decide (cat_name = parent_name)
  then throwM (InvalidValueError "Cannot set category as parent of itself")
  else
    Taxonomy_add cat_name ;;
    Taxonomy_add parent_name ;;
    cat ← find_cat cat_name;
    parent ← find_cat parent_name;
    if existsb (λ a, bool_decide (a ∈ descendants cat)) (sorted_elems (ancestors parent))
    then throwM (InvalidValueError (loop_msg cat_name parent_name))
    else if bool_decide (parent_name ∈ descendants cat)
    then throwM (InvalidValueError (loop_msg cat_name parent_name))
    else
      on_cat cat_name (Category_add_parent parent_name) ;;
      on_cat cat_name (Category_add_ancestor parent_name) ;;
      on_cat parent_name (Category_add_child cat_name) ;;
      on_cat parent_name (Category_add_descendant cat_name) ;;
      (cat ← find_cat cat_name;
       for_each (sorted_elems (descendants cat)) (λ i,
         cat ← find_cat cat_name;
         for_each (sorted_elems (ancestors cat)) (λ j,
           on_cat i (Category_add_ancestor j) ;;
           on_cat j (Category_add_descendant i)))) ;;
      (parent ← find_cat parent_name;
       for_each (sorted_elems (ancestors parent)) (λ i,
         parent ← find_cat parent_name;
         for_each (sorted_elems (descendants parent)) (λ j,
           on_cat i (Category_add_descendant j) ;;
           on_cat j (Category_add_ancestor i)))).

Definition Taxonomy_remove_parent (cat_name parent_name : string) : M tstate () := λ t,
  if decide (cat_name = parent_name) then (t, Ok ())
  else match cats t !! cat_name, cats t !! parent_name with
  | None, _ | _, None => (t, Ok ())
  | Some _, Some _ =>
      (on_cat parent_name (Category_remove_child cat_name) ;;
       on_cat cat_name (Category_remove_parent parent_name) ;;
       recalc_ancestors cat_name ;;
       recalc_descendants parent_name ;;
       (child ← find_cat cat_name;
        for_each (sorted_elems (descendants child)) recalc_ancestors) ;;
       (parent ← find_cat parent_name;
        for_each (sorted_elems (ancestors parent)) recalc_descendants)) t
  end.

Definition Taxonomy_remove (cat_name : string) : M tstate () := λ t,
  match cats t !! cat_name with
  | None => (t, Ok ())
  | Some _ =>
      ((category ← find_cat cat_name;
        for_each (sorted_elems (parents category)) (λ j,
          on_cat j (Category_remove_child cat_name))) ;;
       (category ← find_cat cat_name;
        for_each (sorted_elems (children category)) (λ j,
          on_cat j (Category_remove_parent cat_name))) ;;
       (category ← find_cat cat_name;
        for_each (sorted_elems (ancestors category)) recalc_descendants) ;;
       (category ← find_cat cat_name;
        for_each (sorted_elems (descendants category)) recalc_ancestors) ;;
       t ← getM;
       putM (mkT (delete cat_name (cats t)) ({[cat_name]} ∪ modified t))) t
  end.

(** ** JSON form *)

Definition Taxonomy_to_json (t : gmap string Category) : json :=
  foldl (λ value '(n, c),
    json_set value n (foldl (λ ps p, json_append ps (jstr p)) (JArr []) (sorted_elems (parents c))))
    (JObj []) (sorted_items t).

(** The body of the loop of [from_json], for one member. *)
Definition from_json_member (m : string * json) : M tstate () :=
  let '(n, item) := m in
  Taxonomy_add n ;;
  if isNull item then mret ()
  else
    liftM (json_check_array item "list of category parents") ;;
    for_each (json_elems item) (λ j,
      liftM (json_check_string j "category parent") ;;
      p ← liftM (asString j);
      Taxonomy_add_parent n p).

Definition Taxonomy_from_json (value : json) : M tstate () := λ t,
  (liftM (json_check_object value "taxonomy") ;;
   for_each (json_members value) from_json_member) (mkT ∅ ∅).
