(* ===== verification/TaxonomyClosure.v ===== *)
(** * Recomputing closures in a taxonomy

    The [while (!stack.empty())] loops of [Taxonomy::recalc_ancestors] and
    [Taxonomy::recalc_descendants] (src/jsonxapian/taxonomy.cc): they end on every
    acyclic hierarchy and compute the set of categories reachable over the direct
    links. *)

From S2P Require Import Prelude Taxonomy.

(** ** Weights of sets of categories *)

Definition wsum (f : string → nat) (X : Categories) : nat := sum_list_with f (elements X).

Lemma wsum_perm f (l k : list string) : l ≡ₚ k → sum_list_with f l = sum_list_with f k.
Proof. induction 1; cbn; lia. Qed.

Lemma wsum_disj_union f X Y : X ## Y → wsum f (X ∪ Y) = wsum f X + wsum f Y.
Proof.
  intros Hd. unfold wsum. rewrite (wsum_perm f _ _ (elements_disj_union X Y Hd)).
  apply sum_list_with_app.
Qed.

Lemma wsum_singleton f x : wsum f {[x]} = f x.
Proof. unfold wsum. rewrite elements_singleton. cbn. lia. Qed.

Lemma wsum_mono f X Y : X ⊆ Y → wsum f X ≤ wsum f Y.
Proof. intros H. rewrite (union_difference_L X Y H), wsum_disj_union by set_solver. lia. Qed.

Lemma wsum_remove f x X : x ∈ X → wsum f X = f x + wsum f (X ∖ {[x]}).
Proof.
  intros H. rewrite <-(wsum_singleton f x), <-wsum_disj_union by set_solver.
  by rewrite <-union_difference_L by set_solver.
Qed.

Lemma wsum_union f X Y : wsum f (X ∪ Y) ≤ wsum f X + wsum f Y.
Proof.
  replace (X ∪ Y) with (X ∪ (Y ∖ X)) by (apply set_eq; intros x; destruct (decide (x ∈ X)); set_solver).
  rewrite wsum_disj_union by set_solver. pose proof (wsum_mono f (Y ∖ X) Y ltac:(set_solver)). lia.
Qed.

Lemma wsum_bound f k X : (∀ x, x ∈ X → f x ≤ k) → wsum f X ≤ size X * k.
Proof.
  unfold wsum, size, set_size. intros Hf.
  assert (Hl : ∀ x, x ∈ elements X → f x ≤ k) by (intros; apply Hf; by apply elem_of_elements).
  cbn. induction (elements X) as [|x l IH]; cbn; [lia|].
  pose proof (Hl x ltac:(set_solver)). pose proof (IH ltac:(set_solver)). lia.
Qed.

(** ** Links and reachability *)

Definition edge (next : Category → Categories) (t : gmap string Category) (n m : string) : Prop :=
  ∃ c, t !! n = Some c ∧ m ∈ next c.

(** What a recomputation needs of the hierarchy: records know their name, links
    stay inside the map, and some rank below the number of categories decreases
    along every link. *)
Record linked (next : Category → Categories) (r : string → nat) (t : gmap string Category) : Prop := {
  linked_name n c : t !! n = Some c → name c = n;
  linked_closed n m : edge next t n m → is_Some (t !! m);
  linked_rank n m : edge next t n m → r m < r n;
  linked_bound n : is_Some (t !! n) → r n < size t;
}.

Lemma size_dom_gset (t : gmap string Category) : size (dom t) = size t.
Proof. apply size_dom. Qed.

Section recalc.
Context (next : Category → Categories) (r : string → nat) (t : gmap string Category).
Context (Hlink : linked next r t).

Definition weight (n : string) : nat := (size t + 1) ^ r n.

Definition recalc_inv (start : Categories) (s : Categories * Categories) : Prop :=
  let '(stack, acc) := s in
  stack ⊆ dom t ∧
  (∀ x, x ∈ stack ∪ acc → ∃ y, y ∈ start ∧ rtc (edge next t) y x) ∧
  start ⊆ stack ∪ acc ∧
  (∀ x y, x ∈ acc → edge next t x y → y ∈ stack ∪ acc).

Lemma next_subset n c : t !! n = Some c → next c ⊆ dom t.
Proof.
  intros Hn m Hm. apply elem_of_dom. apply (linked_closed _ _ _ Hlink n). by exists c.
Qed.

(** Replacing a category by its direct links lowers the weight. *)
Lemma weight_next n c : t !! n = Some c → wsum weight (next c) < weight n.
Proof.
  intros Hn. destruct (decide (next c = ∅)) as [->|Hne].
  { unfold wsum. rewrite elements_empty. cbn. unfold weight.
    assert ((size t + 1) ^ r n ≠ 0) by (apply Nat.pow_nonzero; lia). lia. }
  apply set_choose_L in Hne as [m Hm].
  assert (Hr : ∀ x, x ∈ next c → r x < r n)
    by (intros x Hx; apply (linked_rank _ _ _ Hlink); by exists c).
  pose proof (Hr m Hm). pose proof (subseteq_size _ _ (next_subset n c Hn)) as Hsz.
  rewrite size_dom_gset in Hsz.
  assert (Hb : wsum weight (next c) ≤ size (next c) * (size t + 1) ^ (r n - 1)).
  { apply wsum_bound. intros x Hx. apply Nat.pow_le_mono_r; [lia|]. pose proof (Hr x Hx). lia. }
  assert (Hw : weight n = (size t + 1) * (size t + 1) ^ (r n - 1)).
  { unfold weight. replace (r n) with (S (r n - 1)) at 1 by lia. reflexivity. }
  assert ((size t + 1) ^ (r n - 1) ≠ 0) by (apply Nat.pow_nonzero; lia). nia.
Qed.

Lemma recalc_body_spec start s :
  recalc_inv start s →
  match recalc_body next t s with
  | inl s' => recalc_inv start s' ∧ wsum weight s'.1 < wsum weight s.1
  | inr r => ∃ A, r = Ok A ∧ ∀ a, a ∈ A ↔ ∃ y, y ∈ start ∧ rtc (edge next t) y a
  end.
Proof.
  destruct s as [stack acc]. intros (Hdom & Hreach & Hstart & Hclosed).
  unfold recalc_body. pose proof (elem_of_sorted_elems stack) as Hel.
  destruct (sorted_elems stack) as [|n rest].
  - assert (stack = ∅) as -> by set_solver. eexists; split; [done|].
    intros a. split; [intros; apply Hreach; set_solver|]. intros (y & Hy & Hpath).
    assert (Hya : y ∈ acc) by set_solver. clear Hy.
    induction Hpath as [|y z w Hyz Hzw IH]; [done|]. apply IH. specialize (Hclosed y z). set_solver.
  - assert (Hn : n ∈ stack) by (apply Hel; set_solver).
    destruct (t !! n) as [c|] eqn:Ec; [|exfalso; apply Hdom, elem_of_dom in Hn as [??]; congruence].
    rewrite (linked_name _ _ _ Hlink n c Ec). split; [split_and!|].
    + pose proof (next_subset n c Ec). set_solver.
    + intros x. rewrite !elem_of_union, elem_of_difference, elem_of_singleton. intros Hx.
      destruct (decide (x ∈ stack ∪ acc)) as [|Hnx]; [by apply Hreach|].
      destruct (Hreach n ltac:(set_solver)) as (y & Hy & Hpath).
      assert (x ∈ next c) by set_solver. exists y. split; [done|].
      eapply rtc_r; [done|]. by exists c.
    + intros x Hx. destruct (decide (x = n)); set_solver.
    + intros x y Hx Hxy. destruct (decide (y = n)) as [->|]; [set_solver|].
      destruct (decide (x = n)) as [->|].
      * destruct Hxy as (c' & ? & ?). simplify_eq. set_solver.
      * specialize (Hclosed x y ltac:(set_solver) Hxy). set_solver.
    + cbn [fst]. rewrite (wsum_remove weight n stack Hn).
      pose proof (wsum_union weight (stack ∖ {[n]}) (next c)). pose proof (weight_next n c Ec). lia.
Qed.

(** The fuel of [recalc_closure] is enough. *)
Lemma weight_fuel X : X ⊆ dom t → wsum weight X < 2 ^ (size t * size t).
Proof.
  intros HX. set (N := size t).
  pose proof (subseteq_size _ _ HX) as Hsz. rewrite size_dom_gset in Hsz.
  destruct (decide (N = 0)) as [Hz|Hz].
  { assert (X = ∅) as -> by (apply leibniz_equiv, size_empty_inv; lia).
    unfold wsum. rewrite elements_empty. cbn. apply Nat.neq_0_lt_0, Nat.pow_nonzero. lia. }
  assert (Hb : wsum weight X ≤ size X * (N + 1) ^ (N - 1)).
  { apply wsum_bound. intros x Hx. apply Nat.pow_le_mono_r; [lia|].
    apply HX, elem_of_dom in Hx. apply (linked_bound _ _ _ Hlink) in Hx. fold N in Hx. lia. }
  assert (H2 : N + 1 ≤ 2 ^ N) by (pose proof (Nat.pow_gt_lin_r 2 N); lia).
  apply Nat.le_lt_trans with (N * (N + 1) ^ (N - 1)); [unfold N in *; nia|].
  apply Nat.lt_le_trans with ((N + 1) ^ N).
  - assert (Hp : (N + 1) ^ N = (N + 1) * (N + 1) ^ (N - 1)).
    { replace N with (S (N - 1)) at 2 by lia. reflexivity. }
    assert ((N + 1) ^ (N - 1) ≠ 0) by (apply Nat.pow_nonzero; lia). nia.
  - rewrite Nat.pow_mul_r. by apply Nat.pow_le_mono_l.
Qed.

(** The loop ends and returns what is reachable from the starting set. *)
Lemma recalc_closure_spec start :
  start ⊆ dom t →
  ∃ A, recalc_closure next t start = Ok A ∧
       ∀ a, a ∈ A ↔ ∃ y, y ∈ start ∧ rtc (edge next t) y a.
Proof.
  intros Hs. unfold recalc_closure.
  destruct (iterate_exits (recalc_inv start)
    (λ r, ∃ A, r = Ok A ∧ ∀ a, a ∈ A ↔ ∃ y, y ∈ start ∧ rtc (edge next t) y a)
    (λ s, wsum weight s.1) (recalc_body next t) (size t * size t) (start, ∅)) as (? & -> & A & -> & HA).
  - intros s Hinv. by apply recalc_body_spec.
  - split_and!; [done|..]; [|set_solver..]. intros x Hx. exists x. split; [set_solver|apply rtc_refl].
  - by apply weight_fuel.
  - by exists A.
Qed.

(** Starting from the direct links of a category it is the transitive closure. *)
Lemma recalc_closure_next n c :
  t !! n = Some c →
  ∃ A, recalc_closure next t (next c) = Ok A ∧ ∀ a, a ∈ A ↔ tc (edge next t) n a.
Proof.
  intros Hn. destruct (recalc_closure_spec (next c) (next_subset n c Hn)) as (A & HA & Hspec).
  exists A. split; [done|]. intros a. rewrite Hspec. split.
  - intros (y & Hy & Hpath). eapply tc_rtc_r; [|exact Hpath]. apply tc_once. by exists c.
  - intros Htc. destruct Htc as [x y (c' & ? & ?)|x y z (c' & ? & ?) Hpath]; simplify_eq.
    + exists y. split; [done|apply rtc_refl].
    + exists y. split; [done|]. by apply tc_rtc.
Qed.

End recalc.
