(* ===== verification/TaxonomyFacts.v ===== *)
(** * What the operations on taxonomies do

    The well-formedness invariant of a hierarchy, and the effect of the
    additions, removals and recomputations of Taxonomy.v on its links and
    closures. The theorems about whole operations are in TaxonomyThms.v. *)

From S2P Require Import Prelude Taxonomy TaxonomyClosure.

Abbreviation P := (edge parents).
Abbreviation C := (edge children).

(** ** Transitive closures *)

Lemma tc_mono {A} (R S : relation A) x y :
  (∀ x y, R x y → S x y) → tc R x y → tc S x y.
Proof. intros HRS. induction 1; [by apply tc_once, HRS|eapply tc_l; eauto]. Qed.

Lemma tc_iff {A} (R S : relation A) x y :
  (∀ x y, R x y ↔ S x y) → tc R x y ↔ tc S x y.
Proof. intros HRS. split; apply tc_mono; naive_solver. Qed.

Lemma tc_flip {A} (R S : relation A) x y :
  (∀ x y, R x y → S y x) → tc R x y → tc S y x.
Proof. intros HRS. induction 1; [by apply tc_once, HRS|eapply tc_r; eauto]. Qed.

(** Paths from [n] use only links that leave a node reachable from [n]. *)
Lemma tc_restrict {A} (R S : relation A) n a :
  (∀ x y, rtc R n x → R x y → S x y) → tc R n a → tc S n a.
Proof.
  intros HRS H. revert HRS. induction H as [x y Hxy|x y z Hxy Hyz IH]; intros HRS.
  - apply tc_once, HRS; [apply rtc_refl|done].
  - eapply tc_l; [apply HRS; [apply rtc_refl|done]|]. apply IH.
    intros x' y' Hx'. apply HRS. by eapply rtc_l.
Qed.

(** A path after adding the link [u -> v] avoids it or goes through it. *)
Lemma tc_add_edge {A} (R S : relation A) u v n a :
  (∀ x y, S x y → R x y ∨ (x = u ∧ y = v)) →
  tc S n a → tc R n a ∨ (rtc R n u ∧ rtc R v a).
Proof.
  intros HS. induction 1 as [x y Hxy|x y z Hxy Hyz IH].
  - apply HS in Hxy as [|[-> ->]]; [left; by apply tc_once|]. right; split; apply rtc_refl.
  - apply HS in Hxy as [Hxy|[-> ->]].
    + destruct IH as [|[]]; [left; by eapply tc_l|right; split; [by eapply rtc_l|done]].
    + right. destruct IH as [|[]]; split; try apply rtc_refl; [by apply tc_rtc|done].
Qed.

Lemma rtc_tc_or {A} (R : relation A) x y : rtc R x y → x = y ∨ tc R x y.
Proof. destruct 1; [auto|]. right. by eapply tc_rtc_r; [apply tc_once|]. Qed.

(** ** The invariant *)

Record wf (m : gmap string Category) : Prop := {
  wf_name n c : m !! n = Some c → name c = n;
  wf_sym n p : P m n p ↔ C m p n;
  wf_ancestors n c a : m !! n = Some c → a ∈ ancestors c ↔ tc (P m) n a;
  wf_descendants n c d : m !! n = Some c → d ∈ descendants c ↔ tc (C m) n d;
  wf_acyclic n : ¬ tc (P m) n n;
}.

Definition links (c : Category) := (name c, parents c, children c).
Definition same_links (m m' : gmap string Category) : Prop :=
  ∀ n, links <$> m !! n = links <$> m' !! n.

#[export] Instance same_links_equiv : Equivalence same_links.
Proof. split; [by intros m n|by intros m m' H n|]. intros m m' m'' H H' n. by rewrite H. Qed.

Lemma same_links_edge m m' next :
  same_links m m' → (next = parents ∨ next = children) →
  ∀ n x, edge next m n x ↔ edge next m' n x.
Proof.
  intros Hs Hnext n x. unfold edge. specialize (Hs n).
  destruct (m !! n) as [c|], (m' !! n) as [c'|]; cbn in Hs; [|done..|].
  - unfold links in Hs. injection Hs as _ Hp Hc.
    destruct Hnext as [-> | ->]; split; intros (d & ? & ?); simplify_eq; eexists; split; eauto; congruence.
  - split; intros (? & ? & _); done.
Qed.

Lemma same_links_dom m m' n : same_links m m' → is_Some (m !! n) → is_Some (m' !! n).
Proof. intros Hs [c Hc]. specialize (Hs n). rewrite Hc in Hs. destruct (m' !! n); [eauto|done]. Qed.

Lemma edge_dom next m n x : edge next m n x → is_Some (m !! n).
Proof. intros (c & ? & _). eauto. Qed.

Lemma tc_edge_dom next m n x : tc (edge next m) n x → is_Some (m !! n).
Proof. destruct 1; by eapply edge_dom. Qed.

Section wf.
Context (m : gmap string Category) (Hwf : wf m).

Lemma wf_tc_flip n a : tc (P m) n a ↔ tc (C m) a n.
Proof. split; apply tc_flip; intros; by apply (wf_sym m Hwf). Qed.

Lemma wf_parent_dom n p : P m n p → is_Some (m !! p).
Proof. intros H%(wf_sym m Hwf). by eapply edge_dom. Qed.

Lemma wf_child_dom n k : C m n k → is_Some (m !! k).
Proof. intros H%(wf_sym m Hwf). by eapply edge_dom. Qed.

Lemma wf_anc_dom n a : tc (P m) n a → is_Some (m !! a).
Proof. rewrite wf_tc_flip. apply tc_edge_dom. Qed.

Lemma wf_desc_dom n d : tc (C m) n d → is_Some (m !! d).
Proof. rewrite <-wf_tc_flip. apply tc_edge_dom. Qed.

Lemma wf_acyclic_children n : ¬ tc (C m) n n.
Proof. rewrite <-wf_tc_flip. apply (wf_acyclic m Hwf). Qed.

(** The number of ancestors (descendants) ranks the categories. *)
Definition rank_of (far : Category → Categories) (n : string) : nat :=
  from_option (λ c, size (far c)) 0 (m !! n).

Lemma far_rank far next :
  (∀ n c a, m !! n = Some c → a ∈ far c ↔ tc (edge next m) n a) →
  (∀ n a, tc (edge next m) n a → is_Some (m !! a)) →
  (∀ n, ¬ tc (edge next m) n n) →
  linked next (rank_of far) m.
Proof.
  intros Hfar Hdom Hacyc. split.
  - apply (wf_name m Hwf).
  - intros n x Hx. apply (Hdom n). by apply tc_once.
  - intros n x Hx. destruct (Hx) as (c & Hc & _).
    assert (Htc : tc (edge next m) n x) by by apply tc_once.
    destruct (Hdom n x Htc) as [cx Hcx]. unfold rank_of. rewrite Hc, Hcx. cbn.
    apply subset_size. split.
    + intros a Ha. apply (Hfar n c a Hc). apply (Hfar x cx a Hcx) in Ha. by eapply tc_trans.
    + intros Hsub. apply (Hacyc x). apply (Hfar x cx x Hcx), Hsub. by apply (Hfar n c x Hc).
  - intros n [c Hc]. unfold rank_of. rewrite Hc. cbn. rewrite <-size_dom.
    apply subset_size. split.
    + intros a Ha. apply elem_of_dom, (Hdom n). by apply (Hfar n c).
    + intros Hsub. apply (Hacyc n), (Hfar n c n Hc), Hsub, elem_of_dom. eauto.
Qed.

Lemma wf_linked_parents : linked parents (rank_of ancestors) m.
Proof.
  apply far_rank; [apply (wf_ancestors m Hwf)|apply wf_anc_dom|apply (wf_acyclic m Hwf)].
Qed.

Lemma wf_linked_children : linked children (rank_of descendants) m.
Proof.
  apply far_rank; [apply (wf_descendants m Hwf)|apply wf_desc_dom|apply wf_acyclic_children].
Qed.

End wf.

(** A rank for a hierarchy is one for every hierarchy with fewer links. *)
Lemma linked_fewer next r m m' :
  linked next r m → dom m = dom m' →
  (∀ n c, m' !! n = Some c → name c = n) →
  (∀ n x, edge next m' n x → edge next m n x) → linked next r m'.
Proof.
  intros Hl Hdom Hname Hsub.
  assert (Hd : ∀ n, is_Some (m !! n) ↔ is_Some (m' !! n)) by (intros; by rewrite <-!elem_of_dom, Hdom).
  split.
  - done.
  - intros n x Hx%Hsub. by apply Hd, (linked_closed _ _ _ Hl n).
  - intros n x Hx%Hsub. by apply (linked_rank _ _ _ Hl).
  - intros n Hn%Hd. rewrite <-!size_dom, <-Hdom, size_dom. by apply (linked_bound _ _ _ Hl).
Qed.

(** ** Steps of the state monad *)

Lemma on_cat_ok n op t c :
  cats t !! n = Some c →
  on_cat n op t =
    (mkT (<[n := (op c).1]> (cats t))
         (if (op c).2 then {[name c]} ∪ modified t else modified t), Ok ()).
Proof. intros H. unfold on_cat. rewrite H. by destruct (op c). Qed.

Lemma find_cat_ok n t c : cats t !! n = Some c → find_cat n t = (t, Ok c).
Proof. intros H. unfold find_cat. by rewrite H. Qed.

(** ** Recomputations *)

Record recalced {B} (next far : Category → Categories) (keep : Category → B)
    (X : Categories) (m m' : gmap string Category) : Prop := {
  recalced_keep n : keep <$> m' !! n = keep <$> m !! n;
  recalced_in n c : m' !! n = Some c → n ∈ X → ∀ a, a ∈ far c ↔ tc (edge next m) n a;
  recalced_out n : n ∉ X → m' !! n = m !! n;
}.

Section recalc_loop.
Context {B : Type} (next far : Category → Categories) (keep : Category → B).
Context (set_far : Categories → Category → Category * bool).
Context (Hnext : next = parents ∨ next = children).
Context (Hkeep_links : ∀ c c', keep c = keep c' → links c = links c').
Context (Hset_keep : ∀ X c, keep (set_far X c).1 = keep c).
Context (Hset_far : ∀ X c, far (set_far X c).1 = X).

Definition recalc (n : string) : M tstate () :=
  cat ← find_cat n;
  t ← getM;
  a ← liftM (recalc_closure next (cats t) (next cat));
  on_cat n (set_far a).

Lemma recalced_links X m m' : recalced next far keep X m m' → same_links m' m.
Proof.
  intros H n. pose proof (recalced_keep _ _ _ _ _ _ H n) as Hk.
  destruct (m !! n), (m' !! n); cbn in *; [|done..]. f_equal. apply Hkeep_links. congruence.
Qed.

Lemma recalced_empty m : recalced next far keep ∅ m m.
Proof. split; [done|set_solver|done]. Qed.

Lemma recalced_trans X Y m1 m2 m3 :
  recalced next far keep X m1 m2 → recalced next far keep Y m2 m3 →
  recalced next far keep (X ∪ Y) m1 m3.
Proof.
  intros H1 H2. pose proof (recalced_links _ _ _ H1) as Hl.
  assert (Htc : ∀ n a, tc (edge next m2) n a ↔ tc (edge next m1) n a)
    by (intros; apply tc_iff; intros; by apply same_links_edge).
  split.
  - intros n. rewrite (recalced_keep _ _ _ _ _ _ H2). apply (recalced_keep _ _ _ _ _ _ H1).
  - intros n c Hc Hn a. destruct (decide (n ∈ Y)) as [HY|HY].
    + rewrite (recalced_in _ _ _ _ _ _ H2 n c Hc HY). apply Htc.
    + apply (recalced_in _ _ _ _ _ _ H1); [|set_solver].
      by rewrite <-(recalced_out _ _ _ _ _ _ H2 n HY).
  - intros n Hn. rewrite (recalced_out _ _ _ _ _ _ H2) by set_solver.
    apply (recalced_out _ _ _ _ _ _ H1). set_solver.
Qed.

Lemma recalc_ok r n t :
  linked next r (cats t) → is_Some (cats t !! n) →
  ∃ t', recalc n t = (t', Ok ()) ∧ recalced next far keep {[n]} (cats t) (cats t').
Proof.
  intros Hl [c Hc]. destruct (recalc_closure_next next r (cats t) Hl n c Hc) as (A & HA & Hspec).
  eexists. split.
  { unfold recalc. rewrite (bind_ok _ _ _ _ _ (find_cat_ok n t c Hc)).
    rewrite (bind_ok _ _ _ t t eq_refl).
    rewrite (bind_ok _ _ t t A) by (unfold liftM; by rewrite HA).
    by apply on_cat_ok. }
  cbn. split.
  - intros x. destruct (decide (x = n)) as [->|]; [|by rewrite lookup_insert_ne].
    rewrite lookup_insert_eq, Hc. cbn. by rewrite Hset_keep.
  - intros x c' Hc' ->%elem_of_singleton a. rewrite lookup_insert_eq in Hc'. simplify_eq.
    by rewrite Hset_far.
  - intros x Hx. rewrite lookup_insert_ne; [done|set_solver].
Qed.

Lemma recalc_each_ok r l t :
  linked next r (cats t) → (∀ n, n ∈ l → is_Some (cats t !! n)) →
  ∃ t', for_each l recalc t = (t', Ok ()) ∧
        recalced next far keep (list_to_set l) (cats t) (cats t').
Proof.
  intros Hl Hdom.
  destruct (for_each_inv (λ pre s, recalced next far keep (list_to_set pre) (cats t) (cats s))
    recalc l) with (pre := @nil string) (s := t) as (t' & ? & ?); [|by apply recalced_empty|eauto].
  intros pre n s Hn Hs. pose proof (recalced_links _ _ _ Hs) as Hsl.
  destruct (recalc_ok r n s) as (s' & Hok & Hs').
  - apply (linked_fewer next r (cats t)); [done|..].
    + apply set_eq. intros x. rewrite !elem_of_dom.
      split; apply same_links_dom; [by symmetry|done].
    + intros x c Hc. specialize (Hsl x). rewrite Hc in Hsl.
      destruct (cats t !! x) as [c0|] eqn:E; [|done]. apply (linked_name _ _ _ Hl) in E.
      cbn in Hsl. unfold links in Hsl. congruence.
    + intros x y. by apply same_links_edge.
  - eapply same_links_dom; [by symmetry|]. by apply Hdom.
  - exists s'. split; [done|]. rewrite list_to_set_app_L. cbn [list_to_set]. rewrite union_empty_r_L.
    by apply (recalced_trans _ _ _ (cats s)).
Qed.

End recalc_loop.

Definition keepA (c : Category) := (name c, parents c, children c, descendants c).
Definition keepD (c : Category) := (name c, parents c, children c, ancestors c).

Lemma keepA_links c c' : keepA c = keepA c' → links c = links c'.
Proof. unfold keepA, links. congruence. Qed.

Lemma keepD_links c c' : keepD c = keepD c' → links c = links c'.
Proof. unfold keepD, links. congruence. Qed.

Lemma recalc_ancestors_each r (X : Categories) t :
  linked parents r (cats t) → (∀ n, n ∈ X → is_Some (cats t !! n)) →
  ∃ t', for_each (sorted_elems X) recalc_ancestors t = (t', Ok ()) ∧
        recalced parents ancestors keepA X (cats t) (cats t').
Proof.
  intros Hl Hdom.
  destruct (recalc_each_ok parents ancestors keepA Category_set_ancestors (or_introl eq_refl)
    keepA_links (λ _ _, eq_refl) (λ _ _, eq_refl) r (sorted_elems X) t Hl) as (t' & H & Hr).
  - intros n Hn%elem_of_sorted_elems. auto.
  - exists t'. split; [done|]. by replace X with (list_to_set (C:=gset string) (sorted_elems X))
      by (apply set_eq; intros; by rewrite elem_of_list_to_set, elem_of_sorted_elems).
Qed.

Lemma recalc_descendants_each r (X : Categories) t :
  linked children r (cats t) → (∀ n, n ∈ X → is_Some (cats t !! n)) →
  ∃ t', for_each (sorted_elems X) recalc_descendants t = (t', Ok ()) ∧
        recalced children descendants keepD X (cats t) (cats t').
Proof.
  intros Hl Hdom.
  destruct (recalc_each_ok children descendants keepD Category_set_descendants (or_intror eq_refl)
    keepD_links (λ _ _, eq_refl) (λ _ _, eq_refl) r (sorted_elems X) t Hl) as (t' & H & Hr).
  - intros n Hn%elem_of_sorted_elems. auto.
  - exists t'. split; [done|]. by replace X with (list_to_set (C:=gset string) (sorted_elems X))
      by (apply set_eq; intros; by rewrite elem_of_list_to_set, elem_of_sorted_elems).
Qed.

Lemma recalc_ancestors_ok r n t :
  linked parents r (cats t) → is_Some (cats t !! n) →
  ∃ t', recalc_ancestors n t = (t', Ok ()) ∧
        recalced parents ancestors keepA {[n]} (cats t) (cats t').
Proof.
  exact (recalc_ok parents ancestors keepA Category_set_ancestors (or_introl eq_refl) keepA_links
    (λ _ _, eq_refl) (λ _ _, eq_refl) r n t).
Qed.

Lemma recalc_descendants_ok r n t :
  linked children r (cats t) → is_Some (cats t !! n) →
  ∃ t', recalc_descendants n t = (t', Ok ()) ∧
        recalced children descendants keepD {[n]} (cats t) (cats t').
Proof.
  exact (recalc_ok children descendants keepD Category_set_descendants (or_intror eq_refl) keepD_links
    (λ _ _, eq_refl) (λ _ _, eq_refl) r n t).
Qed.

(** ** Additions to the recorded ancestors and descendants *)

(** [m'] is [m] with the ancestors [a] of [n] for which [QA n a] added, and the
    descendants [d] of [n] for which [QD n d]. *)
Definition grow (QA QD : string → string → Prop) (m m' : gmap string Category) : Prop :=
  same_links m m' ∧
  ∀ n c c', m !! n = Some c → m' !! n = Some c' →
    (∀ a, a ∈ ancestors c' ↔ a ∈ ancestors c ∨ QA n a) ∧
    (∀ d, d ∈ descendants c' ↔ d ∈ descendants c ∨ QD n d).

Lemma grow_refl m : grow (λ _ _, False) (λ _ _, False) m m.
Proof. split; [done|]. intros n c c' ??. simplify_eq. naive_solver. Qed.

Lemma grow_trans QA QD QA' QD' QA'' QD'' m m' m'' :
  grow QA QD m m' → grow QA' QD' m' m'' →
  (∀ n a, QA'' n a ↔ QA n a ∨ QA' n a) → (∀ n d, QD'' n d ↔ QD n d ∨ QD' n d) →
  grow QA'' QD'' m m''.
Proof.
  intros [Hl H] [Hl' H'] HA HD. split; [by trans m'|]. intros n c c'' Hc Hc''.
  destruct (same_links_dom _ _ n Hl ltac:(eauto)) as [c' Hc'].
  destruct (H n c c' Hc Hc') as [Ha Hd], (H' n c' c'' Hc' Hc'') as [Ha' Hd'].
  split; intros x; [rewrite Ha', Ha, HA|rewrite Hd', Hd, HD]; tauto.
Qed.

Lemma same_links_insert m n c c' :
  m !! n = Some c → links c' = links c → same_links m (<[n := c']> m).
Proof.
  intros Hc Hl x. destruct (decide (x = n)) as [->|]; [|by rewrite lookup_insert_ne].
  rewrite lookup_insert_eq, Hc. cbn. congruence.
Qed.

(** One pair of the loops: [i] gets the ancestor [j] and [j] the descendant [i]. *)
Definition pair_A (i j n a : string) : Prop := n = i ∧ a = j.
Definition pair_D (i j n d : string) : Prop := n = j ∧ d = i.

Lemma on_cat_grow n op QA QD t :
  is_Some (cats t !! n) →
  (∀ c, links (op c).1 = links c ∧
        (∀ a, a ∈ ancestors (op c).1 ↔ a ∈ ancestors c ∨ QA n a) ∧
        (∀ d, d ∈ descendants (op c).1 ↔ d ∈ descendants c ∨ QD n d)) →
  (∀ x a, QA x a → x = n) → (∀ x d, QD x d → x = n) →
  ∃ t', on_cat n op t = (t', Ok ()) ∧ grow QA QD (cats t) (cats t').
Proof.
  intros [c Hc] Hop HQA HQD. eexists. split; [by apply on_cat_ok|]. cbn. split.
  - apply same_links_insert with c; [done|]. apply Hop.
  - intros x cx cx' Hx Hx'. destruct (decide (x = n)) as [->|Hne].
    + rewrite lookup_insert_eq in Hx'. simplify_eq. split; apply Hop.
    + rewrite lookup_insert_ne in Hx' by done. simplify_eq. split; naive_solver.
Qed.

Lemma bind_grow QA QD QA' QD' QA'' QD'' (p q : M tstate ()) t :
  (∃ t', p t = (t', Ok ()) ∧ grow QA QD (cats t) (cats t')) →
  (∀ t', same_links (cats t) (cats t') →
     ∃ t'', q t' = (t'', Ok ()) ∧ grow QA' QD' (cats t') (cats t'')) →
  (∀ n a, QA'' n a ↔ QA n a ∨ QA' n a) → (∀ n d, QD'' n d ↔ QD n d ∨ QD' n d) →
  ∃ t'', (p ;; q) t = (t'', Ok ()) ∧ grow QA'' QD'' (cats t) (cats t'').
Proof.
  intros (t' & Hp & Hg) Hq HA HD. destruct (Hq t' (proj1 Hg)) as (t'' & Hq' & Hg').
  exists t''. rewrite (bind_ok _ _ _ _ _ Hp). split; [done|]. by eapply grow_trans.
Qed.

Lemma pair_up_grow i j t :
  is_Some (cats t !! i) → is_Some (cats t !! j) →
  ∃ t', (on_cat i (Category_add_ancestor j) ;; on_cat j (Category_add_descendant i)) t
          = (t', Ok ()) ∧ grow (pair_A i j) (pair_D i j) (cats t) (cats t').
Proof.
  intros Hi Hj. eapply (bind_grow (pair_A i j) (λ _ _, False) (λ _ _, False) (pair_D i j)).
  - apply on_cat_grow; unfold pair_A; [done| |naive_solver..]. intros c; cbn. set_solver.
  - intros t' Hl. apply on_cat_grow; unfold pair_D; [by eapply same_links_dom| |naive_solver..].
    intros c; cbn. set_solver.
  - naive_solver.
  - naive_solver.
Qed.

Lemma pair_down_grow i j t :
  is_Some (cats t !! i) → is_Some (cats t !! j) →
  ∃ t', (on_cat i (Category_add_descendant j) ;; on_cat j (Category_add_ancestor i)) t
          = (t', Ok ()) ∧ grow (pair_A j i) (pair_D j i) (cats t) (cats t').
Proof.
  intros Hi Hj. eapply (bind_grow (λ _ _, False) (pair_D j i) (pair_A j i) (λ _ _, False)).
  - apply on_cat_grow; unfold pair_D; [done| |naive_solver..]. intros c; cbn. set_solver.
  - intros t' Hl. apply on_cat_grow; unfold pair_A; [by eapply same_links_dom| |naive_solver..].
    intros c; cbn. set_solver.
  - naive_solver.
  - naive_solver.
Qed.

(** A loop whose body adds for each element adds for all of them. *)
Lemma for_each_grow (QA QD : string → string → string → Prop) (f : string → M tstate ()) l t :
  (∀ x pre t', x ∈ l → pre ⊆ l →
     grow (λ n a, ∃ x, x ∈ pre ∧ QA x n a) (λ n d, ∃ x, x ∈ pre ∧ QD x n d) (cats t) (cats t') →
     ∃ t'', f x t' = (t'', Ok ()) ∧ grow (QA x) (QD x) (cats t') (cats t'')) →
  ∃ t', for_each l f t = (t', Ok ()) ∧
        grow (λ n a, ∃ x, x ∈ l ∧ QA x n a) (λ n d, ∃ x, x ∈ l ∧ QD x n d) (cats t) (cats t').
Proof.
  intros Hf.
  destruct (for_each_inv (λ pre s, pre ⊆ l ∧
      grow (λ n a, ∃ x, x ∈ pre ∧ QA x n a) (λ n d, ∃ x, x ∈ pre ∧ QD x n d) (cats t) (cats s))
    f l) with (pre := @nil string) (s := t) as (t' & ? & _ & ?); [| |eauto].
  - intros pre x s Hx [Hpre Hs]. destruct (Hf x pre s Hx Hpre Hs) as (s' & Hok & Hs').
    exists s'. split_and!; [done|set_solver|]. eapply grow_trans; [exact Hs|exact Hs'|..]; set_solver.
  - split; [set_solver|]. eapply grow_trans; [apply grow_refl|apply grow_refl|..]; set_solver.
Qed.

(** The two nested loops of [add_parent]: over the recorded [outer] of a category
    that the additions leave alone, and for each over its recorded [inner]. *)
Lemma cross_grow (self : string) (outer inner : Category → Categories)
    (f : string → string → M tstate ()) (QA QD : string → string → string → string → Prop) t c :
  cats t !! self = Some c →
  (∀ i j t', is_Some (cats t' !! i) → is_Some (cats t' !! j) →
     ∃ t'', f i j t' = (t'', Ok ()) ∧ grow (QA i j) (QD i j) (cats t') (cats t'')) →
  (∀ x, x ∈ outer c ∪ inner c → is_Some (cats t !! x)) →
  (∀ t' c' X, X ⊆ outer c →
     grow (λ n a, ∃ i, i ∈ X ∧ ∃ j, j ∈ inner c ∧ QA i j n a)
          (λ n d, ∃ i, i ∈ X ∧ ∃ j, j ∈ inner c ∧ QD i j n d) (cats t) (cats t') →
     cats t' !! self = Some c' → inner c' = inner c) →
  ∃ t', (c ← find_cat self;
         for_each (sorted_elems (outer c)) (λ i,
           c ← find_cat self; for_each (sorted_elems (inner c)) (f i))) t = (t', Ok ()) ∧
    grow (λ n a, ∃ i, i ∈ outer c ∧ ∃ j, j ∈ inner c ∧ QA i j n a)
         (λ n d, ∃ i, i ∈ outer c ∧ ∃ j, j ∈ inner c ∧ QD i j n d) (cats t) (cats t').
Proof.
  intros Hc Hf Hdom Hinner. rewrite (bind_ok _ _ _ _ _ (find_cat_ok _ _ _ Hc)).
  assert (Hse : ∀ X x, x ∈ sorted_elems X ↔ x ∈ X) by apply elem_of_sorted_elems.
  destruct (for_each_grow
    (λ i n a, ∃ j, j ∈ inner c ∧ QA i j n a) (λ i n d, ∃ j, j ∈ inner c ∧ QD i j n d)
    (λ i, c ← find_cat self; for_each (sorted_elems (inner c)) (f i))
    (sorted_elems (outer c)) t) as (t' & Hok & Hg).
  - intros i pre t' Hi Hpre Hg.
    destruct (same_links_dom _ _ self (proj1 Hg) ltac:(eauto)) as [c' Hc'].
    rewrite (bind_ok _ _ _ _ _ (find_cat_ok _ _ _ Hc')).
    rewrite (Hinner t' c' (list_to_set pre)); [|set_solver| |done].
    2:{ eapply grow_trans; [exact Hg|apply grow_refl|..]; set_solver. }
    destruct (for_each_grow (QA i) (QD i) (f i) (sorted_elems (inner c)) t') as (t2 & Hok & Hg2).
    + intros j pre' t2 Hj _ Hg2. apply Hf; (eapply same_links_dom; [by apply Hg2|]);
        (eapply same_links_dom; [by apply Hg|]); apply Hdom; set_solver.
    + exists t2. split; [done|]. eapply grow_trans; [exact Hg2|apply grow_refl|..]; set_solver.
  - exists t'. split; [done|]. eapply grow_trans; [exact Hg|apply grow_refl|..]; set_solver.
Qed.
