(* ===== verification/TaxonomyOps.v ===== *)
(** * Effect of each operation of a taxonomy

    For a well-formed hierarchy: the outcome of [add], [add_parent],
    [remove_parent] and [remove] of src/jsonxapian/taxonomy.cc, the links after
    it, and that the hierarchy is well-formed again. *)

From S2P Require Import Prelude Taxonomy TaxonomyClosure TaxonomyFacts.

(** ** [add] *)

Lemma edge_insert_new next m n x y :
  m !! n = None → (next = parents ∨ next = children) →
  edge next (<[n := new_Category n]> m) x y ↔ edge next m x y.
Proof.
  intros Hn Hnext. unfold edge. destruct (decide (x = n)) as [->|Hx].
  - rewrite lookup_insert_eq, Hn. split; [|intros (?&?&?); done].
    intros (c & Hc & Hy). simplify_eq. destruct Hnext as [-> | ->]; cbn in Hy; set_solver.
  - by rewrite lookup_insert_ne.
Qed.

Lemma wf_insert_new m n : wf m → m !! n = None → wf (<[n := new_Category n]> m).
Proof.
  intros Hwf Hn. pose proof (λ x y, edge_insert_new parents m n x y Hn (or_introl eq_refl)) as HP.
  pose proof (λ x y, edge_insert_new children m n x y Hn (or_intror eq_refl)) as HC.
  assert (Hnew : ∀ next x, (∀ y, ¬ edge next m n y) → ¬ tc (edge next m) n x)
    by (intros next x Hne Htc; destruct Htc; by eapply Hne).
  assert (Hno : ∀ next y, ¬ edge next m n y) by (intros next y (?&?&?); congruence).
  split.
  - intros x c Hx. destruct (decide (x = n)) as [->|Hne].
    + rewrite lookup_insert_eq in Hx. by simplify_eq.
    + rewrite lookup_insert_ne in Hx by done. by apply (wf_name m Hwf).
  - intros x y. rewrite HP, HC. apply (wf_sym m Hwf).
  - intros x c a Hx. rewrite (tc_iff _ _ _ _ HP). destruct (decide (x = n)) as [->|Hne].
    + rewrite lookup_insert_eq in Hx. simplify_eq. cbn. split; [set_solver|]. by intros ?%Hnew.
    + rewrite lookup_insert_ne in Hx by done. by apply (wf_ancestors m Hwf).
  - intros x c a Hx. rewrite (tc_iff _ _ _ _ HC). destruct (decide (x = n)) as [->|Hne].
    + rewrite lookup_insert_eq in Hx. simplify_eq. cbn. split; [set_solver|]. by intros ?%Hnew.
    + rewrite lookup_insert_ne in Hx by done. by apply (wf_descendants m Hwf).
  - intros x. rewrite (tc_iff _ _ _ _ HP). apply (wf_acyclic m Hwf).
Qed.

Lemma add_core n t :
  wf (cats t) →
  ∃ t', Taxonomy_add n t = (t', Ok ()) ∧ wf (cats t') ∧
        dom (cats t') = {[n]} ∪ dom (cats t) ∧ (∀ x y, P (cats t') x y ↔ P (cats t) x y) ∧
        (is_Some (cats t !! n) → t' = t).
Proof.
  intros Hwf. unfold Taxonomy_add. destruct (cats t !! n) as [c|] eqn:E.
  - exists t. split_and!; [done..| |done|done].
    assert (n ∈ dom (cats t)) by (apply elem_of_dom; eauto). set_solver.
  - eexists. split; [done|]. cbn. split_and!; [by apply wf_insert_new|by rewrite dom_insert_L| |].
    + intros. apply edge_insert_new; auto.
    + by intros [].
Qed.

(** ** [add_parent] *)

Lemma closure_add (R S : relation string) u v n a :
  (∀ x y, S x y ↔ R x y ∨ (x = u ∧ y = v)) →
  tc S n a ↔ tc R n a ∨ ((n = u ∨ tc R n u) ∧ (a = v ∨ tc R v a)).
Proof.
  intros HS. assert (HRS : ∀ x y, tc R x y → tc S x y) by (intros ??; apply tc_mono; naive_solver).
  assert (Huv : tc S u v) by (apply tc_once, HS; auto). split.
  - intros H. destruct (tc_add_edge R S u v n a) as [|[H1 H2]]; [naive_solver|done|auto|].
    apply rtc_tc_or in H1, H2. right. split; [auto|]. destruct H2; auto.
  - intros [H|[[->|H1] [->|H2]]]; [auto|done| | |].
    + eapply tc_trans; eauto.
    + eapply tc_trans; eauto.
    + eapply tc_trans; [eauto|]. eapply tc_trans; eauto.
Qed.

(** What [add_parent] adds to the recorded sets is what the new link reaches. *)
Lemma closure_loops (R : relation string) cat par n a :
  tc R n a ∨ (n = cat ∧ a = par) ∨ (tc R n cat ∧ (a = par ∨ tc R cat a)) ∨
    ((n = cat ∨ tc R n par ∨ tc R n cat) ∧ tc R par a) ↔
  tc R n a ∨ ((n = cat ∨ tc R n cat) ∧ (a = par ∨ tc R par a)).
Proof.
  assert (tc R n cat → tc R cat a → tc R n a) by (intros; by eapply tc_trans).
  assert (tc R n par → tc R par a → tc R n a) by (intros; by eapply tc_trans). tauto.
Qed.

Definition linked_up (cat par : string) (c p : Category) (m : gmap string Category) :=
  <[par := mkCategory (name p) (parents p) ({[cat]} ∪ children p) (ancestors p)
             ({[cat]} ∪ descendants p)]>
  (<[cat := mkCategory (name c) ({[par]} ∪ parents c) (children c) ({[par]} ∪ ancestors c)
             (descendants c)]> m).

(** The four updates of the two categories before the loops. *)
Lemma link_steps cat par t c p (k : M tstate ()) :
  cat ≠ par → cats t !! cat = Some c → cats t !! par = Some p →
  ∃ mo, (on_cat cat (Category_add_parent par) ;; on_cat cat (Category_add_ancestor par) ;;
   on_cat par (Category_add_child cat) ;; on_cat par (Category_add_descendant cat) ;; k) t =
  k (mkT (linked_up cat par c p (cats t)) mo).
Proof.
  intros Hne Hc Hp. eexists.
  rewrite (bind_ok _ _ _ _ _ (on_cat_ok _ _ _ _ Hc)).
  erewrite bind_ok by (apply on_cat_ok; apply lookup_insert_eq).
  erewrite bind_ok.
  2:{ apply on_cat_ok. cbn. rewrite !lookup_insert_ne by done. exact Hp. }
  erewrite bind_ok by (apply on_cat_ok; cbn; apply lookup_insert_eq).
  match goal with |- k (mkT ?X _) = _ =>
    replace X with (linked_up cat par c p (cats t)); [reflexivity|] end.
  unfold linked_up. cbn. rewrite !insert_insert_eq.
  assert (Hu : ∀ x (X : Categories), {[x]} ∪ ({[x]} ∪ X) = {[x]} ∪ X) by set_solver.
  by rewrite !Hu.
Qed.

Section add_link.
Context (m : gmap string Category) (Hwf : wf m).
Context (cat par : string) (c p : Category).
Context (Hne : cat ≠ par) (Hc : m !! cat = Some c) (Hp : m !! par = Some p).
Context (Hloop : ¬ tc (P m) par cat).

Definition m3 : gmap string Category := linked_up cat par c p m.

Lemma m3_cat : ∃ c3, m3 !! cat = Some c3 ∧ ancestors c3 = {[par]} ∪ ancestors c ∧
                     descendants c3 = descendants c.
Proof.
  unfold m3, linked_up. rewrite lookup_insert_ne by done. rewrite lookup_insert_eq. eauto.
Qed.

Lemma m3_par : ∃ p3, m3 !! par = Some p3 ∧ ancestors p3 = ancestors p ∧
                     descendants p3 = {[cat]} ∪ descendants p.
Proof. unfold m3, linked_up. rewrite lookup_insert_eq. eauto. Qed.

(** The record of a category in [m3], from its record in [m]. *)
Lemma m3_lookup n c3 : m3 !! n = Some c3 →
  ∃ c0, m !! n = Some c0 ∧ name c3 = name c0 ∧
    (∀ x, x ∈ parents c3 ↔ x ∈ parents c0 ∨ (n = cat ∧ x = par)) ∧
    (∀ x, x ∈ children c3 ↔ x ∈ children c0 ∨ (n = par ∧ x = cat)) ∧
    (∀ x, x ∈ ancestors c3 ↔ x ∈ ancestors c0 ∨ (n = cat ∧ x = par)) ∧
    (∀ x, x ∈ descendants c3 ↔ x ∈ descendants c0 ∨ (n = par ∧ x = cat)).
Proof.
  unfold m3, linked_up. intros H. destruct (decide (n = par)) as [->|Hn].
  { rewrite lookup_insert_eq in H. simplify_eq. exists p. cbn. set_solver. }
  rewrite lookup_insert_ne in H by done. destruct (decide (n = cat)) as [->|Hn'].
  { rewrite lookup_insert_eq in H. simplify_eq. exists c. cbn. set_solver. }
  rewrite lookup_insert_ne in H by done. exists c3. set_solver.
Qed.

Lemma m3_dom : dom m3 = dom m.
Proof.
  unfold m3, linked_up. rewrite !dom_insert_L.
  assert (cat ∈ dom m) by (apply elem_of_dom; eauto).
  assert (par ∈ dom m) by (apply elem_of_dom; eauto). set_solver.
Qed.

Lemma m3_some n c0 : m !! n = Some c0 → is_Some (m3 !! n).
Proof. intros H. apply elem_of_dom. rewrite m3_dom. apply elem_of_dom. eauto. Qed.

Lemma m3_P x y : P m3 x y ↔ P m x y ∨ (x = cat ∧ y = par).
Proof.
  split.
  - intros (c3 & (c0 & H0 & _ & HP & _)%m3_lookup & Hy). apply HP in Hy.
    destruct Hy; [left; exists c0; eauto|auto].
  - intros [(c0 & H0 & Hy)|[-> ->]].
    + destruct (m3_some x c0 H0) as [c3 H3]. exists c3. split; [done|].
      destruct (m3_lookup x c3 H3) as (c0' & H0' & _ & HP & _). apply HP. simplify_eq. auto.
    + destruct m3_cat as (c3 & H3 & _). exists c3. split; [done|].
      destruct (m3_lookup cat c3 H3) as (c0' & _ & _ & HP & _). apply HP. auto.
Qed.

Lemma m3_C x y : C m3 x y ↔ C m x y ∨ (x = par ∧ y = cat).
Proof.
  split.
  - intros (c3 & (c0 & H0 & _ & _ & HC & _)%m3_lookup & Hy). apply HC in Hy.
    destruct Hy; [left; exists c0; eauto|auto].
  - intros [(c0 & H0 & Hy)|[-> ->]].
    + destruct (m3_some x c0 H0) as [c3 H3]. exists c3. split; [done|].
      destruct (m3_lookup x c3 H3) as (c0' & H0' & _ & _ & HC & _). apply HC. simplify_eq. auto.
    + destruct m3_par as (p3 & H3 & _). exists p3. split; [done|].
      destruct (m3_lookup par p3 H3) as (c0' & _ & _ & _ & HC & _). apply HC. auto.
Qed.

(** What the loops record of the new ancestors [a] of [n]; of the new descendants
    it is the same with the two exchanged. *)
Definition looped (n a : string) : Prop :=
  (tc (P m) n cat ∧ (a = par ∨ tc (P m) cat a)) ∨
  ((n = cat ∨ tc (P m) n par ∨ tc (P m) n cat) ∧ tc (P m) par a).

Lemma grown_wf m5 : grow looped (λ n d, looped d n) m3 m5 → wf m5.
Proof.
  intros [Hl Hg].
  assert (HP : ∀ x y, P m5 x y ↔ P m x y ∨ (x = cat ∧ y = par))
    by (intros; rewrite <-m3_P; symmetry; apply same_links_edge; auto).
  assert (HC : ∀ x y, C m5 x y ↔ C m x y ∨ (x = par ∧ y = cat))
    by (intros; rewrite <-m3_C; symmetry; apply same_links_edge; auto).
  assert (Hsym : ∀ x y, P m5 x y ↔ C m5 y x)
    by (intros; rewrite HP, HC, (wf_sym m Hwf); naive_solver).
  pose proof (λ n a, closure_add (P m) (P m5) cat par n a HP) as Htc.
  assert (Hback : ∀ n c5, m5 !! n = Some c5 → ∃ c3, m3 !! n = Some c3).
  { intros n c5 H5. apply (same_links_dom m5 m3); [by symmetry|eauto]. }
  split.
  - intros n c5 H5. destruct (Hback n c5 H5) as [c3 H3]. specialize (Hl n).
    rewrite H3, H5 in Hl. destruct (m3_lookup n c3 H3) as (c0 & H0 & Hn & _).
    rewrite <-(wf_name m Hwf n c0 H0), <-Hn. cbn in Hl. unfold links in Hl. congruence.
  - done.
  - intros n c5 a H5. destruct (Hback n c5 H5) as [c3 H3].
    destruct (m3_lookup n c3 H3) as (c0 & H0 & _ & _ & _ & Ha & _).
    rewrite (proj1 (Hg n c3 c5 H3 H5) a), Ha, (wf_ancestors m Hwf n c0 a H0), Htc.
    rewrite <-closure_loops. unfold looped. tauto.
  - intros n c5 d H5. destruct (Hback n c5 H5) as [c3 H3].
    destruct (m3_lookup n c3 H3) as (c0 & H0 & _ & _ & _ & _ & Hd).
    rewrite (proj2 (Hg n c3 c5 H3 H5) d), Hd, (wf_descendants m Hwf n c0 d H0), <-wf_tc_flip by done.
    assert (Hf : tc (C m5) n d ↔ tc (P m5) d n) by (split; apply tc_flip; intros; by apply Hsym).
    rewrite Hf, Htc, <-closure_loops. unfold looped. tauto.
  - intros n. rewrite Htc. intros [H|[H1 H2]]; [by apply (wf_acyclic m Hwf) in H|].
    destruct H1 as [->|H1], H2 as [H2|H2]; try congruence; subst; try done.
    apply Hloop. by eapply tc_trans.
Qed.

(** The first pair of loops: every ancestor of [cat] for every descendant. *)
Lemma loop1_grow mo :
  ∃ t4, (cat0 ← find_cat cat;
         for_each (sorted_elems (descendants cat0)) (λ i,
           cat0 ← find_cat cat;
           for_each (sorted_elems (ancestors cat0)) (λ j,
             on_cat i (Category_add_ancestor j) ;;
             on_cat j (Category_add_descendant i)))) (mkT m3 mo) = (t4, Ok ()) ∧
    grow (λ n a, n ∈ descendants c ∧ a ∈ {[par]} ∪ ancestors c)
         (λ n d, d ∈ descendants c ∧ n ∈ {[par]} ∪ ancestors c) m3 (cats t4).
Proof.
  destruct m3_cat as (c3 & H3 & Ha3 & Hd3).
  destruct (cross_grow cat descendants ancestors
    (λ i j, on_cat i (Category_add_ancestor j) ;; on_cat j (Category_add_descendant i))
    pair_A pair_D (mkT m3 mo) c3) as (t4 & Hok & Hg).
  - done.
  - intros i j t' Hi Hj. by apply pair_up_grow.
  - rewrite Ha3, Hd3. intros x Hx.
    assert (Hdom : ∃ c0, m !! x = Some c0); [|destruct Hdom; by eapply m3_some].
    rewrite !elem_of_union, elem_of_singleton in Hx. destruct Hx as [Hx|[->|Hx]].
    + apply (wf_desc_dom m Hwf cat). by apply (wf_descendants m Hwf cat c).
    + eauto.
    + apply (wf_anc_dom m Hwf cat). by apply (wf_ancestors m Hwf cat c).
  - intros t' c' X HX [_ Hg] H'. destruct (Hg cat c3 c' H3 H') as [Ha _].
    apply set_eq. intros a. rewrite Ha. split; [|auto].
    intros [|(i & Hi & j & Hj & Hci & ->)]; [done|]. subst i.
    apply HX in Hi. rewrite Hd3 in Hi. apply (wf_descendants m Hwf cat c cat Hc) in Hi.
    by apply wf_acyclic_children in Hi.
  - exists t4. split; [done|]. rewrite Ha3, Hd3 in Hg. unfold pair_A, pair_D in Hg.
    eapply grow_trans; [exact Hg|apply grow_refl|..]; naive_solver.
Qed.

(** The second pair: every descendant of [par] for every ancestor. *)
Lemma loop2_grow t4 :
  grow (λ n a, n ∈ descendants c ∧ a ∈ {[par]} ∪ ancestors c)
       (λ n d, d ∈ descendants c ∧ n ∈ {[par]} ∪ ancestors c) m3 (cats t4) →
  ∃ t5, (parent ← find_cat par;
         for_each (sorted_elems (ancestors parent)) (λ i,
           parent ← find_cat par;
           for_each (sorted_elems (descendants parent)) (λ j,
             on_cat i (Category_add_descendant j) ;;
             on_cat j (Category_add_ancestor i)))) t4 = (t5, Ok ()) ∧ wf (cats t5) ∧
        same_links m3 (cats t5).
Proof.
  intros Hg4. destruct m3_par as (p3 & H3 & Ha3 & Hd3).
  destruct (same_links_dom _ _ par (proj1 Hg4) ltac:(eauto)) as [p4 H4].
  destruct (proj2 Hg4 par p3 p4 H3 H4) as [Ha4 Hd4].
  assert (Hnd : par ∉ descendants c).
  { intros Hx%(wf_descendants m Hwf cat c par Hc). by apply wf_tc_flip in Hx. }
  assert (Ha : ∀ a, a ∈ ancestors p4 ↔ tc (P m) par a).
  { intros a. rewrite Ha4, Ha3, (wf_ancestors m Hwf par p a Hp). naive_solver. }
  assert (Hd : ∀ d, d ∈ descendants p4 ↔ d = cat ∨ tc (P m) d par ∨ tc (P m) d cat).
  { intros d. rewrite Hd4, Hd3, elem_of_union, elem_of_singleton, (wf_descendants m Hwf par p d Hp),
      (wf_descendants m Hwf cat c d Hc), <-!wf_tc_flip by done. set_solver. }
  destruct (cross_grow par ancestors descendants
    (λ i j, on_cat i (Category_add_descendant j) ;; on_cat j (Category_add_ancestor i))
    (λ i j, pair_A j i) (λ i j, pair_D j i) t4 p4) as (t5 & Hok & Hg5).
  - done.
  - intros i j t' Hi Hj. by apply pair_down_grow.
  - intros x Hx. apply (same_links_dom m3); [apply Hg4|].
    assert (Hdom : ∃ c0, m !! x = Some c0); [|destruct Hdom; by eapply m3_some].
    rewrite elem_of_union, Ha, Hd in Hx. destruct Hx as [Hx|[->|[Hx|Hx]]]; [|eauto|..].
    + by apply (wf_anc_dom m Hwf par).
    + by eapply tc_edge_dom.
    + by eapply tc_edge_dom.
  - intros t' p' X HX [_ Hg] H'. destruct (Hg par p4 p' H4 H') as [_ Hd'].
    apply set_eq. intros d. rewrite Hd'. split; [|auto].
    intros [|(i & Hi & j & Hj & Hpi & ->)]; [done|]. subst i.
    apply HX, Ha in Hi. by apply (wf_acyclic m Hwf) in Hi.
  - exists t5. split; [done|]. split; [|etrans; [apply Hg4|apply Hg5]]. apply grown_wf.
    unfold pair_A, pair_D in Hg5. eapply grow_trans; [exact Hg4|exact Hg5|..]; intros n x; unfold looped.
    + rewrite (wf_descendants m Hwf cat c n Hc), <-wf_tc_flip by done.
      rewrite elem_of_union, elem_of_singleton, (wf_ancestors m Hwf cat c x Hc). naive_solver.
    + rewrite (wf_descendants m Hwf cat c x Hc), <-wf_tc_flip by done.
      rewrite elem_of_union, elem_of_singleton, (wf_ancestors m Hwf cat c n Hc). naive_solver.
Qed.

End add_link.

Lemma tc_in_dom m x y : wf m → tc (P m) x y → is_Some (m !! x) ∧ is_Some (m !! y).
Proof. intros Hwf Htc. split; [by eapply tc_edge_dom|by eapply wf_anc_dom]. Qed.

(** The test for loops: some ancestor of the new parent, or the new parent
    itself, is a descendant of the category. *)
Lemma loop_test m cat par c p :
  wf m → m !! cat = Some c → m !! par = Some p →
  existsb (λ a, bool_decide (a ∈ descendants c)) (sorted_elems (ancestors p)) = true ∨
  par ∈ descendants c ↔ tc (P m) par cat.
Proof.
  intros Hwf Hc Hp. rewrite (wf_descendants m Hwf cat c par Hc), <-wf_tc_flip by done.
  rewrite existsb_exists. split; [|auto]. intros [(a & Ha & Hb)|]; [|done].
  apply list_elem_of_In, elem_of_sorted_elems, (wf_ancestors m Hwf par p a Hp) in Ha.
  apply bool_decide_eq_true, (wf_descendants m Hwf cat c a Hc) in Hb.
  apply wf_tc_flip in Hb; [|done]. by eapply tc_trans.
Qed.

Lemma add_parent_core cat par t :
  wf (cats t) → cat ≠ par →
  (tc (P (cats t)) par cat ∧
   Taxonomy_add_parent cat par t = (t, throw (InvalidValueError (loop_msg cat par)))) ∨
  (¬ tc (P (cats t)) par cat ∧
   ∃ t', Taxonomy_add_parent cat par t = (t', Ok ()) ∧ wf (cats t') ∧
         dom (cats t') = {[cat; par]} ∪ dom (cats t) ∧
         ∀ x y, P (cats t') x y ↔ P (cats t) x y ∨ (x = cat ∧ y = par)).
Proof.
  intros Hwf Hne. unfold Taxonomy_add_parent. rewrite decide_False by done.
  destruct (add_core cat t Hwf) as (t1 & H1 & Hwf1 & Hdom1 & HP1 & Hid1).
  rewrite (bind_ok _ _ _ _ _ H1).
  destruct (add_core par t1 Hwf1) as (t2 & H2 & Hwf2 & Hdom2 & HP2 & Hid2).
  rewrite (bind_ok _ _ _ _ _ H2). set (m := cats t2) in *.
  assert (HP : ∀ x y, P m x y ↔ P (cats t) x y) by (intros; by rewrite HP2).
  assert (Hc : is_Some (m !! cat)) by (apply elem_of_dom; set_solver).
  assert (Hp : is_Some (m !! par)) by (apply elem_of_dom; set_solver).
  destruct Hc as [c Hc], Hp as [p Hp]. rewrite (tc_iff _ _ par cat (λ x y, iff_sym (HP x y))).
  rewrite (bind_ok _ _ _ _ _ (find_cat_ok _ _ _ Hc)), (bind_ok _ _ _ _ _ (find_cat_ok _ _ _ Hp)).
  pose proof (loop_test m cat par c p Hwf2 Hc Hp) as Htest. fold m.
  destruct (existsb _ _) eqn:Ek; [|case_bool_decide as Hd].
  - assert (Htc : tc (P m) par cat) by (apply Htest; auto). left. split; [done|].
    unfold throwM. destruct (tc_in_dom (cats t) par cat Hwf) as [Hdp Hdc].
    { by rewrite <-(tc_iff _ _ par cat HP). }
    rewrite (Hid2 ltac:(by rewrite Hid1)), (Hid1 Hdc). done.
  - assert (Htc : tc (P m) par cat) by (apply Htest; auto). left. split; [done|].
    unfold throwM. destruct (tc_in_dom (cats t) par cat Hwf) as [Hdp Hdc].
    { by rewrite <-(tc_iff _ _ par cat HP). }
    rewrite (Hid2 ltac:(by rewrite Hid1)), (Hid1 Hdc). done.
  - assert (Htc : ¬ tc (P m) par cat) by (rewrite <-Htest; naive_solver). right. split; [done|].
    edestruct (link_steps cat par t2 c p) as [mo Hmo]; [done..|]. rewrite Hmo. clear Hmo.
    destruct (loop1_grow m Hwf2 cat par c p Hne Hc Hp Htc mo) as (t4 & Hok4 & Hg4).
    erewrite bind_ok by exact Hok4.
    destruct (loop2_grow m Hwf2 cat par c p Hne Hc Hp Htc t4 Hg4) as (t5 & Hok5 & Hwf5 & Hsl).
    exists t5. split_and!; [done..| |].
    + assert (Hdom5 : dom (cats t5) = dom (m3 m cat par c p)).
      { apply set_eq. intros x. rewrite !elem_of_dom. split; apply same_links_dom; [by symmetry|done]. }
      rewrite Hdom5, (m3_dom m Hwf2 cat par c p) by done. rewrite Hdom2, Hdom1. set_solver.
    + intros x y. rewrite <-HP, <-(m3_P m Hwf2 cat par c p) by done. symmetry. apply same_links_edge; auto.
Qed.
