(* ===== verification/TaxonomyCut.v ===== *)
(** * Removing links and categories from a taxonomy

    [Taxonomy::remove_parent] and [Taxonomy::remove] of
    src/jsonxapian/taxonomy.cc on a well-formed hierarchy: links are cut first,
    then the ancestors and descendants that may have changed are recomputed. *)

From S2P Require Import Prelude Taxonomy TaxonomyClosure TaxonomyFacts.

(** ** Cutting links *)

(** [m'] is [m] without the links to parents [QP] and to children [QC]; the
    recorded ancestors and descendants are still those of [m]. *)
Definition cut (QP QC : string → string → Prop) (m m' : gmap string Category) : Prop :=
  dom m' = dom m ∧
  ∀ n c c', m !! n = Some c → m' !! n = Some c' →
    name c' = name c ∧ ancestors c' = ancestors c ∧ descendants c' = descendants c ∧
    (∀ x, x ∈ parents c' ↔ x ∈ parents c ∧ ¬ QP n x) ∧
    (∀ x, x ∈ children c' ↔ x ∈ children c ∧ ¬ QC n x).

Definition nothing : string → string → Prop := λ _ _, False.

Lemma cut_refl m : cut nothing nothing m m.
Proof. split; [done|]. intros n c c' ??. simplify_eq. unfold nothing. naive_solver. Qed.

Lemma dom_some {A} (m m' : gmap string A) n :
  dom m' = dom m → is_Some (m !! n) → ∃ c, m' !! n = Some c.
Proof. intros Hd Hn%elem_of_dom. rewrite <-Hd in Hn. by apply elem_of_dom in Hn as [??]; eauto. Qed.

Lemma cut_trans QP QC QP' QC' QP'' QC'' m m' m'' :
  cut QP QC m m' → cut QP' QC' m' m'' →
  (∀ n x, QP'' n x ↔ QP n x ∨ QP' n x) → (∀ n x, QC'' n x ↔ QC n x ∨ QC' n x) →
  cut QP'' QC'' m m''.
Proof.
  intros [Hd H] [Hd' H'] HP HC. split; [congruence|]. intros n c c'' Hc Hc''.
  destruct (dom_some m m' n Hd ltac:(eauto)) as [c' Hc'].
  destruct (H n c c' Hc Hc') as (Hn & Ha & Hds & Hp & Hk).
  destruct (H' n c' c'' Hc' Hc'') as (Hn' & Ha' & Hds' & Hp' & Hk').
  split_and!; [congruence..| |]; intros x.
  - rewrite Hp', Hp, HP. tauto.
  - rewrite Hk', Hk, HC. tauto.
Qed.

Lemma on_cat_cut n op QP QC t :
  is_Some (cats t !! n) →
  (∀ c, name (op c).1 = name c ∧ ancestors (op c).1 = ancestors c ∧
        descendants (op c).1 = descendants c ∧
        (∀ x, x ∈ parents (op c).1 ↔ x ∈ parents c ∧ ¬ QP n x) ∧
        (∀ x, x ∈ children (op c).1 ↔ x ∈ children c ∧ ¬ QC n x)) →
  (∀ y x, QP y x → y = n) → (∀ y x, QC y x → y = n) →
  ∃ t', on_cat n op t = (t', Ok ()) ∧ cut QP QC (cats t) (cats t').
Proof.
  intros [c Hc] Hop HQP HQC. eexists. split; [by apply on_cat_ok|]. cbn. split.
  - rewrite dom_insert_L. assert (n ∈ dom (cats t)) by (apply elem_of_dom; eauto). set_solver.
  - intros y cy cy' Hy Hy'. destruct (decide (y = n)) as [->|Hne].
    + rewrite lookup_insert_eq in Hy'. simplify_eq. apply Hop.
    + rewrite lookup_insert_ne in Hy' by done. simplify_eq. naive_solver.
Qed.

Lemma for_each_cut (QP QC : string → string → string → Prop) (f : string → M tstate ()) l t :
  (∀ x t', x ∈ l → dom (cats t') = dom (cats t) →
     ∃ t'', f x t' = (t'', Ok ()) ∧ cut (QP x) (QC x) (cats t') (cats t'')) →
  ∃ t', for_each l f t = (t', Ok ()) ∧
        cut (λ n y, ∃ x, x ∈ l ∧ QP x n y) (λ n y, ∃ x, x ∈ l ∧ QC x n y) (cats t) (cats t').
Proof.
  intros Hf.
  destruct (for_each_inv (λ pre s,
      cut (λ n y, ∃ x, x ∈ pre ∧ QP x n y) (λ n y, ∃ x, x ∈ pre ∧ QC x n y) (cats t) (cats s))
    f l) with (pre := @nil string) (s := t) as (t' & ? & ?); [| |eauto].
  - intros pre x s Hx Hs. destruct (Hf x s Hx (proj1 Hs)) as (s' & Hok & Hs').
    exists s'. split; [done|]. eapply cut_trans; [exact Hs|exact Hs'|..]; set_solver.
  - eapply cut_trans; [apply cut_refl|apply cut_refl|..]; unfold nothing; set_solver.
Qed.

Lemma cut_P QP QC m m' x y : cut QP QC m m' → P m' x y ↔ P m x y ∧ ¬ QP x y.
Proof.
  intros [Hd H]. split.
  - intros (c' & Hc' & Hy). assert (∃ c, m !! x = Some c) as [c Hc] by (apply (dom_some m'); eauto).
    destruct (H x c c' Hc Hc') as (_ & _ & _ & Hp & _). destruct (proj1 (Hp y) Hy) as [Hy' HQ].
    split; [|done]. by exists c.
  - intros [(c & Hc & Hy) HQ]. assert (∃ c', m' !! x = Some c') as [c' Hc'] by (apply (dom_some m); eauto).
    destruct (H x c c' Hc Hc') as (_ & _ & _ & Hp & _). exists c'. split; [done|]. by apply Hp.
Qed.

Lemma cut_C QP QC m m' x y : cut QP QC m m' → C m' x y ↔ C m x y ∧ ¬ QC x y.
Proof.
  intros [Hd H]. split.
  - intros (c' & Hc' & Hy). assert (∃ c, m !! x = Some c) as [c Hc] by (apply (dom_some m'); eauto).
    destruct (H x c c' Hc Hc') as (_ & _ & _ & _ & Hk). destruct (proj1 (Hk y) Hy) as [Hy' HQ].
    split; [|done]. by exists c.
  - intros [(c & Hc & Hy) HQ]. assert (∃ c', m' !! x = Some c') as [c' Hc'] by (apply (dom_some m); eauto).
    destruct (H x c c' Hc Hc') as (_ & _ & _ & _ & Hk). exists c'. split; [done|]. by apply Hk.
Qed.

(** ** Recomputing what the cut made stale *)

Record refreshed (X Y : Categories) (m m' : gmap string Category) : Prop := {
  rf_links : same_links m' m;
  rf_anc_in n c : m' !! n = Some c → n ∈ X → ∀ a, a ∈ ancestors c ↔ tc (P m) n a;
  rf_anc_out n c c' : m !! n = Some c → m' !! n = Some c' → n ∉ X → ancestors c' = ancestors c;
  rf_desc_in n c : m' !! n = Some c → n ∈ Y → ∀ d, d ∈ descendants c ↔ tc (C m) n d;
  rf_desc_out n c c' : m !! n = Some c → m' !! n = Some c' → n ∉ Y → descendants c' = descendants c;
}.

Lemma refreshed_refl m : refreshed ∅ ∅ m m.
Proof. split; [done|set_solver|naive_solver|set_solver|naive_solver]. Qed.

Lemma refreshed_back X Y m m' n c' :
  refreshed X Y m m' → m' !! n = Some c' → ∃ c, m !! n = Some c.
Proof.
  intros H Hc. destruct (same_links_dom m' m n) as [c ?]; [apply (rf_links _ _ _ _ H)|eauto..].
Qed.

Lemma keepA_desc (o o' : option Category) :
  keepA <$> o' = keepA <$> o → descendants <$> o' = descendants <$> o.
Proof. destruct o, o'; cbn; unfold keepA; congruence. Qed.

Lemma keepD_anc (o o' : option Category) :
  keepD <$> o' = keepD <$> o → ancestors <$> o' = ancestors <$> o.
Proof. destruct o, o'; cbn; unfold keepD; congruence. Qed.

Lemma refreshed_A X Y Z m m' m'' :
  refreshed X Y m m' → recalced parents ancestors keepA Z m' m'' →
  refreshed (X ∪ Z) Y m m''.
Proof.
  intros Hr Hz. pose proof (recalced_links _ _ _ keepA_links _ _ _ Hz) as Hl.
  pose proof (rf_links _ _ _ _ Hr) as Hl'.
  assert (Htc : ∀ n a, tc (P m') n a ↔ tc (P m) n a)
    by (intros; apply tc_iff; intros; apply same_links_edge; auto).
  assert (Hdesc : ∀ n c'', m'' !! n = Some c'' →
    ∃ c', m' !! n = Some c' ∧ descendants c'' = descendants c').
  { intros n c'' Hc. pose proof (keepA_desc _ _ (recalced_keep _ _ _ _ _ _ Hz n)) as Hk.
    rewrite Hc in Hk. destruct (m' !! n) as [c'|]; [|done]. cbn in Hk. exists c'. split; congruence. }
  split.
  - by trans m'.
  - intros n c Hc Hn a. destruct (decide (n ∈ Z)).
    + rewrite (recalced_in _ _ _ _ _ _ Hz n c) by done. apply Htc.
    + rewrite (recalced_out _ _ _ _ _ _ Hz n) in Hc by done.
      apply (rf_anc_in _ _ _ _ Hr n c Hc). set_solver.
  - intros n c c' Hc Hc' Hn. rewrite (recalced_out _ _ _ _ _ _ Hz n) in Hc' by set_solver.
    apply (rf_anc_out _ _ _ _ Hr n c c' Hc Hc'). set_solver.
  - intros n c Hc Hn. destruct (Hdesc n c Hc) as (c' & Hc' & ->).
    by apply (rf_desc_in _ _ _ _ Hr n c' Hc').
  - intros n c c'' Hc Hc'' Hn. destruct (Hdesc n c'' Hc'') as (c' & Hc' & ->).
    by apply (rf_desc_out _ _ _ _ Hr n c c').
Qed.

Lemma refreshed_D X Y Z m m' m'' :
  refreshed X Y m m' → recalced children descendants keepD Z m' m'' →
  refreshed X (Y ∪ Z) m m''.
Proof.
  intros Hr Hz. pose proof (recalced_links _ _ _ keepD_links _ _ _ Hz) as Hl.
  pose proof (rf_links _ _ _ _ Hr) as Hl'.
  assert (Htc : ∀ n a, tc (C m') n a ↔ tc (C m) n a)
    by (intros; apply tc_iff; intros; apply same_links_edge; auto).
  assert (Hanc : ∀ n c'', m'' !! n = Some c'' →
    ∃ c', m' !! n = Some c' ∧ ancestors c'' = ancestors c').
  { intros n c'' Hc. pose proof (keepD_anc _ _ (recalced_keep _ _ _ _ _ _ Hz n)) as Hk.
    rewrite Hc in Hk. destruct (m' !! n) as [c'|]; [|done]. cbn in Hk. exists c'. split; congruence. }
  split.
  - by trans m'.
  - intros n c Hc Hn. destruct (Hanc n c Hc) as (c' & Hc' & ->).
    by apply (rf_anc_in _ _ _ _ Hr n c' Hc').
  - intros n c c'' Hc Hc'' Hn. destruct (Hanc n c'' Hc'') as (c' & Hc' & ->).
    by apply (rf_anc_out _ _ _ _ Hr n c c').
  - intros n c Hc Hn a. destruct (decide (n ∈ Z)).
    + rewrite (recalced_in _ _ _ _ _ _ Hz n c) by done. apply Htc.
    + rewrite (recalced_out _ _ _ _ _ _ Hz n) in Hc by done.
      apply (rf_desc_in _ _ _ _ Hr n c Hc). set_solver.
  - intros n c c' Hc Hc' Hn. rewrite (recalced_out _ _ _ _ _ _ Hz n) in Hc' by set_solver.
    apply (rf_desc_out _ _ _ _ Hr n c c' Hc Hc'). set_solver.
Qed.

Lemma same_links_dom_eq m m' : same_links m m' → dom m = dom m'.
Proof. intros H. apply set_eq. intros n. rewrite !elem_of_dom. split; apply same_links_dom; [done|by symmetry]. Qed.

Lemma linked_same next r m m' :
  (next = parents ∨ next = children) → linked next r m → same_links m' m → linked next r m'.
Proof.
  intros Hnext Hl Hs. apply (linked_fewer next r m); [done|symmetry; by apply same_links_dom_eq|..].
  - intros n c Hc. specialize (Hs n). rewrite Hc in Hs. destruct (m !! n) as [c0|] eqn:E; [|done].
    apply (linked_name _ _ _ Hl) in E. cbn in Hs. unfold links in Hs. congruence.
  - intros n x. by apply same_links_edge.
Qed.

Section after_cut.
Context (m m1 : gmap string Category) (QP QC : string → string → Prop).
Context (Hwf : wf m) (Hcut : cut QP QC m m1).

Lemma cut_back n c1 : m1 !! n = Some c1 →
  ∃ c, m !! n = Some c ∧ name c1 = name c ∧ ancestors c1 = ancestors c ∧ descendants c1 = descendants c.
Proof.
  intros H1. destruct Hcut as [Hd H]. destruct (dom_some m1 m n) as [c Hc]; [done|eauto|].
  exists c. destruct (H n c c1 Hc H1) as (?&?&?&_). eauto.
Qed.

Lemma cut_names n c1 : m1 !! n = Some c1 → name c1 = n.
Proof. intros (c & Hc & -> & _)%cut_back. by apply (wf_name m Hwf). Qed.

Lemma cut_linked_parents : linked parents (rank_of m ancestors) m1.
Proof.
  apply (linked_fewer _ _ m); [by apply wf_linked_parents|symmetry; apply Hcut|apply cut_names|].
  intros n x Hx. by apply (cut_P _ _ _ _ _ _ Hcut) in Hx as [??].
Qed.

Lemma cut_linked_children : linked children (rank_of m descendants) m1.
Proof.
  apply (linked_fewer _ _ m); [by apply wf_linked_children|symmetry; apply Hcut|apply cut_names|].
  intros n x Hx. by apply (cut_C _ _ _ _ _ _ Hcut) in Hx as [??].
Qed.

Lemma cut_acyclic n : ¬ tc (P m1) n n.
Proof.
  intros H. apply (wf_acyclic m Hwf n). eapply tc_mono; [|exact H].
  intros x y Hx. by apply (cut_P _ _ _ _ _ _ Hcut) in Hx as [??].
Qed.

(** Once every stale set is recomputed, all of them are right. *)
Lemma refreshed_exact X Y m' :
  refreshed X Y m1 m' →
  (∀ n a, n ∉ X → tc (P m1) n a ↔ tc (P m) n a) →
  (∀ n d, n ∉ Y → tc (C m1) n d ↔ tc (C m) n d) →
  ∀ n c', m' !! n = Some c' →
    name c' = n ∧ (∀ a, a ∈ ancestors c' ↔ tc (P m') n a) ∧
    (∀ d, d ∈ descendants c' ↔ tc (C m') n d).
Proof.
  intros Hr HX HY n c' Hc'. pose proof (rf_links _ _ _ _ Hr) as Hl.
  assert (HP : ∀ n a, tc (P m') n a ↔ tc (P m1) n a)
    by (intros; apply tc_iff; intros; apply same_links_edge; auto).
  assert (HC : ∀ n a, tc (C m') n a ↔ tc (C m1) n a)
    by (intros; apply tc_iff; intros; apply same_links_edge; auto).
  destruct (refreshed_back _ _ _ _ n c' Hr Hc') as [c1 H1].
  destruct (cut_back n c1 H1) as (c & Hc & _ & Ha & Hd).
  split_and!.
  - specialize (Hl n). rewrite Hc', H1 in Hl. cbn in Hl. unfold links in Hl.
    rewrite <-(cut_names n c1 H1). congruence.
  - intros a. rewrite HP. destruct (decide (n ∈ X)) as [HnX|HnX].
    + by apply (rf_anc_in _ _ _ _ Hr n c' Hc').
    + rewrite (rf_anc_out _ _ _ _ Hr n c1 c' H1 Hc' HnX), Ha, HX by done.
      by apply (wf_ancestors m Hwf).
  - intros d. rewrite HC. destruct (decide (n ∈ Y)) as [HnY|HnY].
    + by apply (rf_desc_in _ _ _ _ Hr n c' Hc').
    + rewrite (rf_desc_out _ _ _ _ Hr n c1 c' H1 Hc' HnY), Hd, HY by done.
      by apply (wf_descendants m Hwf).
Qed.

(** The recomputations in a state where some have been done already. *)
Lemma refresh_A_each X Y Z t :
  refreshed X Y m1 (cats t) → Z ⊆ dom m →
  ∃ t', for_each (sorted_elems Z) recalc_ancestors t = (t', Ok ()) ∧
        refreshed (X ∪ Z) Y m1 (cats t').
Proof.
  intros Hr HZ. pose proof (rf_links _ _ _ _ Hr) as Hl.
  destruct (recalc_ancestors_each (rank_of m ancestors) Z t) as (t' & ? & ?).
  - apply (linked_same _ _ m1); [auto|apply cut_linked_parents|done].
  - intros n Hn. apply elem_of_dom. rewrite (same_links_dom_eq _ _ Hl), (proj1 Hcut). auto.
  - exists t'. split; [done|]. by eapply refreshed_A.
Qed.

Lemma refresh_D_each X Y Z t :
  refreshed X Y m1 (cats t) → Z ⊆ dom m →
  ∃ t', for_each (sorted_elems Z) recalc_descendants t = (t', Ok ()) ∧
        refreshed X (Y ∪ Z) m1 (cats t').
Proof.
  intros Hr HZ. pose proof (rf_links _ _ _ _ Hr) as Hl.
  destruct (recalc_descendants_each (rank_of m descendants) Z t) as (t' & ? & ?).
  - apply (linked_same _ _ m1); [auto|apply cut_linked_children|done].
  - intros n Hn. apply elem_of_dom. rewrite (same_links_dom_eq _ _ Hl), (proj1 Hcut). auto.
  - exists t'. split; [done|]. by eapply refreshed_D.
Qed.

Lemma refresh_A n X Y t :
  refreshed X Y m1 (cats t) → is_Some (m !! n) →
  ∃ t', recalc_ancestors n t = (t', Ok ()) ∧ refreshed (X ∪ {[n]}) Y m1 (cats t').
Proof.
  intros Hr Hn. pose proof (rf_links _ _ _ _ Hr) as Hl.
  destruct (recalc_ancestors_ok (rank_of m ancestors) n t) as (t' & ? & ?).
  - apply (linked_same _ _ m1); [auto|apply cut_linked_parents|done].
  - apply elem_of_dom. rewrite (same_links_dom_eq _ _ Hl), (proj1 Hcut). by apply elem_of_dom.
  - exists t'. split; [done|]. by eapply refreshed_A.
Qed.

Lemma refresh_D n X Y t :
  refreshed X Y m1 (cats t) → is_Some (m !! n) →
  ∃ t', recalc_descendants n t = (t', Ok ()) ∧ refreshed X (Y ∪ {[n]}) m1 (cats t').
Proof.
  intros Hr Hn. pose proof (rf_links _ _ _ _ Hr) as Hl.
  destruct (recalc_descendants_ok (rank_of m descendants) n t) as (t' & ? & ?).
  - apply (linked_same _ _ m1); [auto|apply cut_linked_children|done].
  - apply elem_of_dom. rewrite (same_links_dom_eq _ _ Hl), (proj1 Hcut). by apply elem_of_dom.
  - exists t'. split; [done|]. by eapply refreshed_D.
Qed.

(** The record of a category in a state reached by recomputations. *)
Lemma refreshed_record X Y n t :
  refreshed X Y m1 (cats t) → is_Some (m !! n) → ∃ c, cats t !! n = Some c.
Proof.
  intros Hr Hn. apply (dom_some m); [|done].
  rewrite (same_links_dom_eq _ _ (rf_links _ _ _ _ Hr)). apply Hcut.
Qed.

End after_cut.

(** ** [remove_parent] *)

Section remove_parent.
Context (m : gmap string Category) (Hwf : wf m) (cat par : string) (c p : Category).
Context (Hne : cat ≠ par) (Hc : m !! cat = Some c) (Hp : m !! par = Some p).

Definition link_P (n x : string) : Prop := n = cat ∧ x = par.
Definition link_C (n x : string) : Prop := n = par ∧ x = cat.

Context (m1 : gmap string Category) (Hcut : cut link_P link_C m m1).

(** Cutting a link that was not there changes nothing. *)
Lemma cut_absent : ¬ P m cat par →
  (∀ x y, P m1 x y ↔ P m x y) ∧ (∀ x y, C m1 x y ↔ C m x y).
Proof.
  intros Hno. split; intros x y.
  - rewrite (cut_P _ _ _ _ _ _ Hcut). split; [naive_solver|]. intros H. split; [done|].
    intros [-> ->]. done.
  - rewrite (cut_C _ _ _ _ _ _ Hcut). split; [naive_solver|]. intros H. split; [done|].
    intros [-> ->]. apply Hno. by apply (wf_sym m Hwf).
Qed.

Lemma cut_P_far n a : n ≠ cat → ¬ tc (P m) n cat → tc (P m1) n a ↔ tc (P m) n a.
Proof.
  intros Hn Hnt. split.
  - apply tc_mono. intros x y Hx. by apply (cut_P _ _ _ _ _ _ Hcut) in Hx as [??].
  - apply tc_restrict. intros x y Hx Hxy. apply (cut_P _ _ _ _ _ _ Hcut). split; [done|].
    intros [-> ->]. apply rtc_tc_or in Hx as [|]; naive_solver.
Qed.

Lemma cut_C_far n d : n ≠ par → ¬ tc (C m) n par → tc (C m1) n d ↔ tc (C m) n d.
Proof.
  intros Hn Hnt. split.
  - apply tc_mono. intros x y Hx. by apply (cut_C _ _ _ _ _ _ Hcut) in Hx as [??].
  - apply tc_restrict. intros x y Hx Hxy. apply (cut_C _ _ _ _ _ _ Hcut). split; [done|].
    intros [-> ->]. apply rtc_tc_or in Hx as [|]; naive_solver.
Qed.

(** The ancestors of [par] are what they were. *)
Lemma cut_P_par a : tc (P m1) par a ↔ tc (P m) par a.
Proof.
  destruct (decide (par ∈ parents c)) as [Hin|Hnin].
  - apply cut_P_far; [done|]. intros Htc. apply (wf_acyclic m Hwf cat).
    eapply tc_l; [|exact Htc]. by exists c.
  - apply tc_iff. apply cut_absent. intros (c' & ? & ?). simplify_eq.
Qed.

Lemma cut_sym x y : P m1 x y ↔ C m1 y x.
Proof.
  rewrite (cut_P _ _ _ _ _ _ Hcut), (cut_C _ _ _ _ _ _ Hcut), (wf_sym m Hwf).
  unfold link_P, link_C. naive_solver.
Qed.

End remove_parent.

Lemma wf_of_exact m :
  (∀ n p, P m n p ↔ C m p n) → (∀ n, ¬ tc (P m) n n) →
  (∀ n c, m !! n = Some c → name c = n ∧ (∀ a, a ∈ ancestors c ↔ tc (P m) n a) ∧
     (∀ d, d ∈ descendants c ↔ tc (C m) n d)) → wf m.
Proof. intros Hsym Hac Hex. split; [|done| | |done]; intros n c ?; intros; by apply Hex. Qed.

Lemma remove_parent_core cat par t :
  wf (cats t) → cat ≠ par → is_Some (cats t !! cat) → is_Some (cats t !! par) →
  ∃ t', Taxonomy_remove_parent cat par t = (t', Ok ()) ∧ wf (cats t') ∧
        dom (cats t') = dom (cats t) ∧
        ∀ x y, P (cats t') x y ↔ P (cats t) x y ∧ ¬ (x = cat ∧ y = par).
Proof.
  intros Hwf Hne [c Hc] [p Hp]. unfold Taxonomy_remove_parent.
  rewrite decide_False by done. rewrite Hc, Hp. set (m := cats t) in *.
  destruct (on_cat_cut par (Category_remove_child cat) nothing (link_C cat par) t)
    as (ta & Hoka & Hcuta); [eauto| |done|by intros ?? []|].
  { intros c0. unfold nothing, link_C. cbn. set_solver. }
  rewrite (bind_ok _ _ _ _ _ Hoka).
  destruct (on_cat_cut cat (Category_remove_parent par) (link_P cat par) nothing ta)
    as (t1 & Hok1 & Hcut1); [|..|done|].
  { apply elem_of_dom. rewrite (proj1 Hcuta). apply elem_of_dom. eauto. }
  { intros c0. unfold nothing, link_P. cbn. set_solver. }
  { by intros ?? []. }
  rewrite (bind_ok _ _ _ _ _ Hok1).
  assert (Hcut : cut (link_P cat par) (link_C cat par) m (cats t1))
    by (eapply cut_trans; [exact Hcuta|exact Hcut1|..]; unfold nothing; tauto).
  clear ta Hoka Hcuta Hok1 Hcut1. set (m1 := cats t1) in *.
  destruct (refresh_A m m1 _ _ Hwf Hcut cat ∅ ∅ t1 (refreshed_refl m1)) as (t2 & Hok2 & Hr2); [eauto|].
  rewrite (bind_ok _ _ _ _ _ Hok2).
  destruct (refresh_D m m1 _ _ Hwf Hcut par _ _ t2 Hr2) as (t3 & Hok3 & Hr3); [eauto|].
  rewrite (bind_ok _ _ _ _ _ Hok3).
  destruct (refreshed_record m m1 _ _ Hcut _ _ cat t3 Hr3) as [c3 Hc3]; [eauto|].
  assert (Hd3 : descendants c3 = descendants c).
  { destruct (refreshed_back _ _ _ _ cat c3 Hr3 Hc3) as [c1 Hc1].
    rewrite (rf_desc_out _ _ _ _ Hr3 cat c1 c3) by (try done; set_solver).
    destruct (cut_back m m1 _ _ Hcut cat c1 Hc1) as (c0 & ? & _ & _ & ?). congruence. }
  destruct (refresh_A_each m m1 _ _ Hwf Hcut _ _ (descendants c) t3 Hr3) as (t4 & Hok4 & Hr4).
  { intros d Hd. apply elem_of_dom, (wf_desc_dom m Hwf cat). by apply (wf_descendants m Hwf cat c). }
  erewrite bind_ok by (rewrite (bind_ok _ _ _ _ _ (find_cat_ok _ _ _ Hc3)), Hd3; exact Hok4).
  destruct (refreshed_record m m1 _ _ Hcut _ _ par t4 Hr4) as [p4 Hp4]; [eauto|].
  assert (Ha4 : ∀ a, a ∈ ancestors p4 ↔ tc (P m) par a).
  { intros a. destruct (refreshed_back _ _ _ _ par p4 Hr4 Hp4) as [p1 Hp1].
    destruct (decide (par ∈ ∅ ∪ {[cat]} ∪ descendants c)) as [Hin|Hnin].
    - rewrite (rf_anc_in _ _ _ _ Hr4 par p4 Hp4 Hin). by apply (cut_P_par m Hwf cat par c).
    - rewrite (rf_anc_out _ _ _ _ Hr4 par p1 p4 Hp1 Hp4 Hnin).
      destruct (cut_back m m1 _ _ Hcut par p1 Hp1) as (p0 & ? & _ & -> & _).
      by apply (wf_ancestors m Hwf). }
  destruct (refresh_D_each m m1 _ _ Hwf Hcut _ _ (ancestors p4) t4 Hr4) as (t5 & Hok5 & Hr5).
  { intros a Ha%Ha4. apply elem_of_dom. by apply (wf_anc_dom m Hwf par). }
  rewrite (bind_ok _ _ _ _ _ (find_cat_ok _ _ _ Hp4)). exists t5. split; [done|].
  pose proof (rf_links _ _ _ _ Hr5) as Hl5.
  assert (HP5 : ∀ x y, P (cats t5) x y ↔ P m1 x y) by (intros; apply same_links_edge; auto).
  assert (HC5 : ∀ x y, C (cats t5) x y ↔ C m1 x y) by (intros; apply same_links_edge; auto).
  split_and!.
  - apply wf_of_exact.
    + intros x y. rewrite HP5, HC5. by apply (cut_sym m Hwf cat par).
    + intros x. rewrite (tc_iff _ _ x x HP5). by eapply cut_acyclic.
    + apply (refreshed_exact m m1 _ _ Hwf Hcut _ _ _ Hr5).
      * intros n a Hn. apply (cut_P_far m cat par m1 Hcut); [set_solver|].
        rewrite wf_tc_flip by done. rewrite <-(wf_descendants m Hwf cat c n Hc). set_solver.
      * intros n d Hn. apply (cut_C_far m cat par m1 Hcut); [set_solver|].
        rewrite <-wf_tc_flip by done. rewrite <-Ha4. set_solver.
  - rewrite (same_links_dom_eq _ _ Hl5). apply Hcut.
  - intros x y. rewrite HP5. apply (cut_P _ _ _ _ _ _ Hcut).
Qed.

(** ** [remove] *)

Section remove.
Context (m : gmap string Category) (Hwf : wf m) (cat : string) (c : Category).
Context (Hc : m !! cat = Some c).

Definition into (n x : string) : Prop := x = cat.

(** Cutting the links into [cat]: its parents forget their child, its children
    their parent. *)
Lemma remove_cuts t :
  cats t = m →
  ∃ t1, (∀ (k : M tstate ()),
    ((category ← find_cat cat;
        for_each (sorted_elems (parents category)) (λ j,
          on_cat j (Category_remove_child cat))) ;;
     (category ← find_cat cat;
        for_each (sorted_elems (children category)) (λ j,
          on_cat j (Category_remove_parent cat))) ;; k) t = k t1) ∧
    cut into into m (cats t1).
Proof.
  intros <-. destruct (for_each_cut (λ _, nothing) (λ j n x, n = j ∧ x = cat)
    (λ j, on_cat j (Category_remove_child cat)) (sorted_elems (parents c)) t) as (ta & Hoka & Hcuta).
  { intros j t' Hj Hd. apply on_cat_cut; [|intros c0; unfold nothing; cbn; set_solver
      |by intros ?? []|naive_solver].
    apply elem_of_dom. rewrite Hd. apply elem_of_dom, (wf_parent_dom _ Hwf cat). exists c.
    split; [done|]. by apply elem_of_sorted_elems. }
  destruct (dom_some _ _ cat (proj1 Hcuta)) as [ca Hca]; [eauto|].
  assert (Hch : children ca = children c).
  { destruct (proj2 Hcuta cat c ca Hc Hca) as (_ & _ & _ & _ & Hk). apply set_eq. intros x.
    rewrite Hk. split; [naive_solver|]. intros Hx. split; [done|].
    intros (j & Hj & Hcj & ->). subst j. apply elem_of_sorted_elems in Hj.
    apply (wf_acyclic _ Hwf cat), tc_once. by exists c. }
  destruct (for_each_cut (λ j n x, n = j ∧ x = cat) (λ _, nothing)
    (λ j, on_cat j (Category_remove_parent cat)) (sorted_elems (children c)) ta) as (t1 & Hok1 & Hcut1).
  { intros j t' Hj Hd. apply on_cat_cut; [|intros c0; unfold nothing; cbn; set_solver
      |naive_solver|by intros ?? []].
    apply elem_of_dom. rewrite Hd, (proj1 Hcuta). apply elem_of_dom, (wf_child_dom _ Hwf cat). exists c.
    split; [done|]. by apply elem_of_sorted_elems. }
  exists t1. split.
  - intros k. erewrite bind_ok by (rewrite (bind_ok _ _ _ _ _ (find_cat_ok _ _ _ Hc)); exact Hoka).
    by erewrite bind_ok by (rewrite (bind_ok _ _ _ _ _ (find_cat_ok _ _ _ Hca)), Hch; exact Hok1).
  - destruct Hcuta as [Hda Ha], Hcut1 as [Hd1 H1]. split; [congruence|]. intros n c0 c1 H0 Hn1.
    destruct (dom_some _ _ n Hda) as [c0a H0a]; [eauto|].
    destruct (Ha n c0 c0a H0 H0a) as (? & ? & ? & HaP & HaC).
    destruct (H1 n c0a c1 H0a Hn1) as (? & ? & ? & H1P & H1C).
    split_and!; [congruence..| |]; intros x; unfold into, nothing in *.
    + rewrite H1P, HaP. split; [|set_solver]. intros [[Hx _] Hnx]. split; [done|]. intros ->.
      apply Hnx. exists n. split; [|done]. apply elem_of_sorted_elems.
      assert (Hch' : C (cats t) cat n) by (apply (wf_sym _ Hwf); by exists c0).
      destruct Hch' as (? & ? & ?). by simplify_eq.
    + rewrite H1C, HaC. split; [|set_solver]. intros [[Hx Hnx] _]. split; [done|]. intros ->.
      apply Hnx. exists n. split; [|done]. apply elem_of_sorted_elems.
      assert (Hpa : P (cats t) cat n) by (apply (wf_sym _ Hwf); by exists c0).
      destruct Hpa as (? & ? & ?). by simplify_eq.
Qed.

Context (m1 : gmap string Category) (Hcut : cut into into m m1).

Lemma into_P_far n a : ¬ tc (P m) n cat → tc (P m1) n a ↔ tc (P m) n a.
Proof.
  intros Hnt. split.
  - apply tc_mono. intros x y Hx. by apply (cut_P _ _ _ _ _ _ Hcut) in Hx as [??].
  - apply tc_restrict. intros x y Hx Hxy. apply (cut_P _ _ _ _ _ _ Hcut). split; [done|].
    intros ->. apply Hnt. by eapply tc_rtc_l; [|apply tc_once].
Qed.

Lemma into_C_far n d : ¬ tc (C m) n cat → tc (C m1) n d ↔ tc (C m) n d.
Proof.
  intros Hnt. split.
  - apply tc_mono. intros x y Hx. by apply (cut_C _ _ _ _ _ _ Hcut) in Hx as [??].
  - apply tc_restrict. intros x y Hx Hxy. apply (cut_C _ _ _ _ _ _ Hcut). split; [done|].
    intros ->. apply Hnt. by eapply tc_rtc_l; [|apply tc_once].
Qed.

Lemma tc_last (R : relation string) x y : tc R x y → ∃ z, R z y.
Proof. induction 1; eauto. Qed.

(** Deleting a category nothing links to. *)
Lemma delete_edge next m' n x :
  edge next (delete cat m') n x ↔ edge next m' n x ∧ n ≠ cat.
Proof.
  unfold edge. destruct (decide (n = cat)) as [->|].
  - rewrite lookup_delete_eq. naive_solver.
  - rewrite lookup_delete_ne by done. naive_solver.
Qed.

Lemma delete_tc next m' n a :
  (∀ x, ¬ edge next m' x cat) → n ≠ cat →
  tc (edge next (delete cat m')) n a ↔ tc (edge next m') n a.
Proof.
  intros Hno Hn. split.
  - apply tc_mono. intros x y Hx. by apply delete_edge in Hx as [??].
  - apply tc_restrict. intros x y Hx Hxy. apply delete_edge. split; [done|]. intros ->.
    apply rtc_tc_or in Hx as [|Hx]; [done|]. apply tc_last in Hx as [z Hz]. by eapply Hno.
Qed.

End remove.

Lemma remove_core cat t :
  wf (cats t) → is_Some (cats t !! cat) →
  ∃ t', Taxonomy_remove cat t = (t', Ok ()) ∧ wf (cats t') ∧
        dom (cats t') = dom (cats t) ∖ {[cat]} ∧ cat ∈ modified t' ∧
        ∀ x y, P (cats t') x y ↔ P (cats t) x y ∧ x ≠ cat ∧ y ≠ cat.
Proof.
  intros Hwf [c Hc]. unfold Taxonomy_remove. rewrite Hc. set (m := cats t) in *.
  destruct (remove_cuts m Hwf cat c Hc t eq_refl) as (t1 & Hk & Hcut). rewrite Hk. clear Hk.
  set (m1 := cats t1) in *. pose proof (refreshed_refl m1) as Hr1.
  assert (Hrec : ∀ n c1, m1 !! n = Some c1 → n = cat →
    ancestors c1 = ancestors c ∧ descendants c1 = descendants c).
  { intros n c1 Hn ->. destruct (cut_back m m1 _ _ Hcut cat c1 Hn) as (c0 & ? & _ & ? & ?).
    naive_solver. }
  destruct (refreshed_record m m1 _ _ Hcut _ _ cat t1 Hr1) as [c1 Hc1]; [eauto|].
  destruct (Hrec cat c1 Hc1 eq_refl) as [Ha1 Hd1].
  destruct (refresh_D_each m m1 _ _ Hwf Hcut _ _ (ancestors c) t1 Hr1) as (t2 & Hok2 & Hr2).
  { intros d Hd. apply elem_of_dom, (wf_anc_dom m Hwf cat). by apply (wf_ancestors m Hwf cat c). }
  erewrite bind_ok by (rewrite (bind_ok _ _ _ _ _ (find_cat_ok _ _ _ Hc1)), Ha1; exact Hok2).
  destruct (refreshed_record m m1 _ _ Hcut _ _ cat t2 Hr2) as [c2 Hc2]; [eauto|].
  assert (Hd2 : descendants c2 = descendants c).
  { rewrite (rf_desc_out _ _ _ _ Hr2 cat c1 c2 Hc1 Hc2); [done|].
    intros Hin. apply (wf_acyclic m Hwf cat), (wf_ancestors m Hwf cat c cat Hc). set_solver. }
  destruct (refresh_A_each m m1 _ _ Hwf Hcut _ _ (descendants c) t2 Hr2) as (t3 & Hok3 & Hr3).
  { intros d Hd. apply elem_of_dom, (wf_desc_dom m Hwf cat). by apply (wf_descendants m Hwf cat c). }
  erewrite bind_ok by (rewrite (bind_ok _ _ _ _ _ (find_cat_ok _ _ _ Hc2)), Hd2; exact Hok3).
  rewrite (bind_ok _ _ _ t3 t3 eq_refl). eexists. split; [done|]. cbn [cats modified].
  pose proof (rf_links _ _ _ _ Hr3) as Hl3.
  assert (HP3 : ∀ x y, P (cats t3) x y ↔ P m x y ∧ y ≠ cat).
  { intros. rewrite (same_links_edge _ _ _ Hl3) by auto. apply (cut_P _ _ _ _ _ _ Hcut). }
  assert (HC3 : ∀ x y, C (cats t3) x y ↔ C m x y ∧ y ≠ cat).
  { intros. rewrite (same_links_edge _ _ _ Hl3) by auto. apply (cut_C _ _ _ _ _ _ Hcut). }
  assert (Hex : ∀ n c', cats t3 !! n = Some c' → name c' = n ∧
    (∀ a, a ∈ ancestors c' ↔ tc (P (cats t3)) n a) ∧ (∀ d, d ∈ descendants c' ↔ tc (C (cats t3)) n d)).
  { apply (refreshed_exact m m1 _ _ Hwf Hcut _ _ _ Hr3).
    - intros n a Hn. apply (into_P_far m cat m1 Hcut).
      rewrite wf_tc_flip by done. rewrite <-(wf_descendants m Hwf cat c n Hc). set_solver.
    - intros n d Hn. apply (into_C_far m cat m1 Hcut).
      rewrite <-wf_tc_flip by done. rewrite <-(wf_ancestors m Hwf cat c n Hc). set_solver. }
  split_and!.
  - apply wf_of_exact.
    + intros x y. rewrite !delete_edge, HP3, HC3, (wf_sym m Hwf). tauto.
    + intros x Htc. apply (wf_acyclic m Hwf x). eapply tc_mono; [|exact Htc].
      intros u v [[? _]%HP3 _]%delete_edge. done.
    + intros n c' Hn. destruct (decide (n = cat)) as [->|Hne]; [by rewrite lookup_delete_eq in Hn|].
      rewrite lookup_delete_ne in Hn by done. destruct (Hex n c' Hn) as (? & Ha & Hd).
      split_and!; [done|..]; intros x; rewrite delete_tc; auto; intros y.
      * rewrite HP3. tauto.
      * rewrite HC3. tauto.
  - rewrite dom_delete_L, (same_links_dom_eq _ _ Hl3). f_equal. apply Hcut.
  - set_solver.
  - intros x y. rewrite delete_edge, HP3. tauto.
Qed.
