(* ===== verification/TaxonomyThms.v ===== *)
(** * Correctness of category taxonomies

    The properties of src/jsonxapian/taxonomy.cc: the hierarchy stays
    well-formed under every sequence of operations, what each operation does to
    the links, which categories it reports as modified, and the JSON round trip. *)

From S2P Require Import Prelude Json Taxonomy TaxonomyClosure TaxonomyFacts TaxonomyOps TaxonomyCut.

(** ** Sequences of operations *)

Inductive operation : Type :=
| OpAdd (cat_name : string)
| OpAddParent (cat_name parent_name : string)
| OpRemoveParent (cat_name parent_name : string)
| OpRemove (cat_name : string)
| OpFromJson (value : json).

Definition run_op (o : operation) : M tstate () :=
  match o with
  | OpAdd n => Taxonomy_add n
  | OpAddParent n p => Taxonomy_add_parent n p
  | OpRemoveParent n p => Taxonomy_remove_parent n p
  | OpRemove n => Taxonomy_remove n
  | OpFromJson v => Taxonomy_from_json v
  end.

(** The states a taxonomy can be in: it starts empty, and an operation leaves a
    state whether it returns or throws. *)
Inductive reachable : tstate → Prop :=
| reachable_empty md : reachable (mkT ∅ md)
| reachable_step t o : reachable t → reachable (run_op o t).1.

(** ** Preservation of the invariant *)

Definition wf_rel (t t' : tstate) : Prop := wf (cats t) → wf (cats t').

#[export] Instance wf_rel_preorder : PreOrder wf_rel.
Proof. split; [by intros t H|]. intros t1 t2 t3 H12 H23 H. by apply H23, H12. Qed.

Lemma wf_empty : wf ∅.
Proof.
  assert (He : ∀ next x y, ¬ edge next ∅ x y) by (intros next x y (? & ? & _); done).
  split; try (intros n c; intros; by rewrite lookup_empty in *).
  - intros n p. split; intros H; by apply He in H.
  - intros n H. destruct H; by eapply He.
Qed.

Lemma add_wf n t : wf_rel t (Taxonomy_add n t).1.
Proof. intros H. by destruct (add_core n t H) as (? & -> & ? & _). Qed.

Lemma add_parent_wf n p t : wf_rel t (Taxonomy_add_parent n p t).1.
Proof.
  intros H. destruct (decide (n = p)) as [->|Hne].
  - unfold Taxonomy_add_parent. by rewrite decide_True.
  - by destruct (add_parent_core n p t H Hne) as [[_ ->]|(_ & ? & -> & ? & _)].
Qed.

Lemma remove_parent_none n p t :
  n = p ∨ cats t !! n = None ∨ cats t !! p = None → Taxonomy_remove_parent n p t = (t, Ok ()).
Proof.
  unfold Taxonomy_remove_parent. case_decide; [done|].
  destruct (cats t !! n), (cats t !! p); naive_solver.
Qed.

Lemma remove_parent_wf n p t : wf_rel t (Taxonomy_remove_parent n p t).1.
Proof.
  intros H. destruct (decide (n = p)) as [|Hne]; [by rewrite remove_parent_none by auto|].
  destruct (cats t !! n) eqn:E1; [|by rewrite remove_parent_none by auto].
  destruct (cats t !! p) eqn:E2; [|by rewrite remove_parent_none by auto].
  by destruct (remove_parent_core n p t H Hne) as (? & -> & ? & _); [eauto..|].
Qed.

Lemma remove_wf n t : wf_rel t (Taxonomy_remove n t).1.
Proof.
  intros H. destruct (cats t !! n) eqn:E.
  - by destruct (remove_core n t H) as (? & -> & ? & _); [eauto|].
  - unfold Taxonomy_remove. by rewrite E.
Qed.

Lemma liftM_rel {A} (R : tstate → tstate → Prop) `{!PreOrder R} (r : res A) t : R t (liftM r t).1.
Proof. done. Qed.

Lemma from_json_member_rel (R : tstate → tstate → Prop) `{!PreOrder R} m t :
  (∀ n t, R t (Taxonomy_add n t).1) → (∀ n p t, R t (Taxonomy_add_parent n p t).1) →
  R t (from_json_member m t).1.
Proof.
  intros Hadd Hpar. destruct m as [n item]. cbn [from_json_member].
  apply M_bind_rel; [done|apply Hadd|]. intros _ s. destruct (isNull item); [done|].
  apply M_bind_rel; [done|apply liftM_rel; done|]. intros _ s1. apply for_each_rel; [done|].
  intros j s2 _. apply M_bind_rel; [done|apply liftM_rel; done|]. intros _ s3.
  apply M_bind_rel; [done|apply liftM_rel; done|]. intros p s4. apply Hpar.
Qed.

Lemma from_json_wf v t : wf (cats (Taxonomy_from_json v t).1).
Proof.
  unfold Taxonomy_from_json. change (wf (cats (mkT ∅ ∅))) with (wf ∅).
  assert (H : wf_rel (mkT ∅ ∅) ((liftM (json_check_object v "taxonomy") ;;
    for_each (json_members v) from_json_member) (mkT ∅ ∅)).1); [|apply H, wf_empty].
  apply M_bind_rel; [apply _|apply liftM_rel, _|]. intros _ s.
  apply for_each_rel; [apply _|]. intros m s' _.
  apply from_json_member_rel; [apply _|intros; apply add_wf|intros; apply add_parent_wf].
Qed.

(** C2: the invariant of taxonomies.  After any sequence of operations, those
    that threw included, every record carries its own name, parents and children
    mirror each other, no category is its own ancestor, and every category
    records exactly the transitive closure of its parents as ancestors and of its
    children as descendants. *)
Theorem taxonomy_well_formed t : reachable t → wf (cats t).
Proof.
  induction 1 as [md|t o _ IH]; [apply wf_empty|]. revert IH. fold (wf_rel t (run_op o t).1).
  destruct o; cbn [run_op].
  - apply add_wf.
  - apply add_parent_wf.
  - apply remove_parent_wf.
  - apply remove_wf.
  - intros _. apply from_json_wf.
Qed.

(** A taxonomy for the witnesses: [c] below [b] below [a]. *)
Definition abc_ops : M tstate () :=
  Taxonomy_add_parent "b" "a" ;; Taxonomy_add_parent "c" "b".
Definition abc : tstate := (abc_ops (mkT ∅ ∅)).1.

Lemma abc_wf : wf (cats abc).
Proof.
  assert (H : wf_rel (mkT ∅ ∅) abc); [|apply H, wf_empty].
  unfold abc, abc_ops. apply M_bind_rel; [apply _|apply add_parent_wf|intros; apply add_parent_wf].
Qed.

Lemma taxonomy_well_formed_witness :
  reachable (run_op (OpRemove "b") (run_op (OpAddParent "b" "a") (mkT ∅ ∅)).1).1 ∧
  wf (cats (run_op (OpRemove "b") (run_op (OpAddParent "b" "a") (mkT ∅ ∅)).1).1).
Proof.
  assert (H : reachable (run_op (OpRemove "b") (run_op (OpAddParent "b" "a") (mkT ∅ ∅)).1).1)
    by (do 2 apply reachable_step; apply reachable_empty).
  exact (conj H (taxonomy_well_formed _ H)).
Defined.

(** ** Effect of each operation *)

(** C16: [add_parent].  Making a category its own parent and closing a cycle throw
    and change nothing; otherwise the call succeeds, creating the categories
    that are missing, the only new link is the requested one, and the recorded
    ancestors are those the new link gives. *)
Theorem add_parent_effect cat par t (Hwf : wf (cats t)) :
  (cat = par → Taxonomy_add_parent cat par t =
     (t, throw (InvalidValueError "Cannot set category as parent of itself"))) ∧
  (cat ≠ par → tc (P (cats t)) par cat →
     Taxonomy_add_parent cat par t = (t, throw (InvalidValueError (loop_msg cat par)))) ∧
  (cat ≠ par → ¬ tc (P (cats t)) par cat →
     ∃ t', Taxonomy_add_parent cat par t = (t', Ok ()) ∧
       dom (cats t') = {[cat; par]} ∪ dom (cats t) ∧
       (∀ x y, P (cats t') x y ↔ P (cats t) x y ∨ (x = cat ∧ y = par)) ∧
       (∀ x c' y, cats t' !! x = Some c' → y ∈ ancestors c' ↔
          tc (P (cats t)) x y ∨
          ((x = cat ∨ tc (P (cats t)) x cat) ∧ (y = par ∨ tc (P (cats t)) par y)))).
Proof.
  split_and!.
  - intros ->. unfold Taxonomy_add_parent. by rewrite decide_True.
  - intros Hne Htc. by destruct (add_parent_core cat par t Hwf Hne) as [[_ ?]|[? _]].
  - intros Hne Htc. destruct (add_parent_core cat par t Hwf Hne) as [[? _]|(_ & t' & Hok & Hwf' & Hd & HP)];
      [done|]. exists t'. split_and!; [done..|]. intros x c' y Hx.
    rewrite (wf_ancestors _ Hwf' x c' y Hx). by apply closure_add.
Qed.

Lemma add_parent_effect_witness :
  wf (cats abc) ∧ "a" ≠ "c" ∧ tc (P (cats abc)) "c" "a" ∧
  Taxonomy_add_parent "a" "c" abc = (abc, throw (InvalidValueError (loop_msg "a" "c"))).
Proof.
  assert (Htc : tc (P (cats abc)) "c" "a").
  { apply (wf_ancestors _ abc_wf "c" (mkCategory "c" {["b"]} ∅ {["a"; "b"]} ∅)); [|set_solver].
    vm_compute. reflexivity. }
  assert (Hne : "a" ≠ "c") by discriminate.
  exact (conj abc_wf (conj Hne (conj Htc
    (proj1 (proj2 (add_parent_effect "a" "c" abc abc_wf)) Hne Htc)))).
Defined.

(** [remove_parent] removes exactly the link between two categories that both
    exist, and otherwise changes nothing; it never throws and both
    recomputation loops end. *)
Theorem remove_parent_effect cat par t (Hwf : wf (cats t)) :
  ∃ t', Taxonomy_remove_parent cat par t = (t', Ok ()) ∧
    dom (cats t') = dom (cats t) ∧
    (∀ x y, P (cats t') x y ↔ P (cats t) x y ∧ ¬ (x = cat ∧ y = par)) ∧
    (∀ x c' y, cats t' !! x = Some c' → y ∈ descendants c' ↔ tc (P (cats t')) y x).
Proof.
  assert (Hself : ∀ x c y, cats t !! x = Some c → y ∈ descendants c ↔ tc (P (cats t)) y x).
  { intros x c y Hx. rewrite (wf_descendants _ Hwf x c y Hx). symmetry. by apply wf_tc_flip. }
  destruct (decide (cat = par ∨ cats t !! cat = None ∨ cats t !! par = None)) as [Hn|Hn].
  - exists t. rewrite remove_parent_none by done. split_and!; [done..| |done].
    intros x y. split; [|naive_solver]. intros HP. split; [done|]. intros [-> ->].
    destruct Hn as [->|[Hn|Hn]].
    + by apply (wf_acyclic _ Hwf par), tc_once.
    + apply edge_dom in HP as [? ?]. congruence.
    + apply (wf_parent_dom _ Hwf) in HP as [? ?]. congruence.
  - destruct (cats t !! cat) eqn:E1; [|naive_solver]. destruct (cats t !! par) eqn:E2; [|naive_solver].
    destruct (remove_parent_core cat par t Hwf) as (t' & Hok & Hwf' & Hd & HP); [naive_solver|eauto..|].
    exists t'. split_and!; [done..|]. intros x c' y Hx.
    rewrite (wf_descendants _ Hwf' x c' y Hx). symmetry. by apply wf_tc_flip.
Qed.

Lemma remove_parent_effect_witness :
  wf (cats abc) ∧ ∃ t', Taxonomy_remove_parent "b" "a" abc = (t', Ok ()) ∧
    dom (cats t') = dom (cats abc) ∧
    (∀ x y, P (cats t') x y ↔ P (cats abc) x y ∧ ¬ (x = "b" ∧ y = "a")) ∧
    (∀ x c' y, cats t' !! x = Some c' → y ∈ descendants c' ↔ tc (P (cats t')) y x).
Proof. exact (conj abc_wf (remove_parent_effect "b" "a" abc abc_wf)). Defined.

(** C20: [remove] deletes a category with every link from and to it and no other
    link, never throws, and leaves the ancestors of the others as the remaining
    links give them; removing an unknown category changes nothing. *)
Theorem remove_effect cat t (Hwf : wf (cats t)) :
  (cats t !! cat = None → Taxonomy_remove cat t = (t, Ok ())) ∧
  (is_Some (cats t !! cat) → ∃ t', Taxonomy_remove cat t = (t', Ok ()) ∧
    dom (cats t') = dom (cats t) ∖ {[cat]} ∧
    (∀ x y, P (cats t') x y ↔ P (cats t) x y ∧ x ≠ cat ∧ y ≠ cat) ∧
    (∀ x c' y, cats t' !! x = Some c' → y ∈ ancestors c' ↔ tc (P (cats t')) x y)).
Proof.
  split; [intros H; unfold Taxonomy_remove; by rewrite H|]. intros H.
  destruct (remove_core cat t Hwf H) as (t' & Hok & Hwf' & Hd & _ & HP).
  exists t'. split_and!; [done..|]. intros. by apply wf_ancestors.
Qed.

Lemma remove_effect_witness :
  wf (cats abc) ∧ is_Some (cats abc !! "b") ∧
  ∃ t', Taxonomy_remove "b" abc = (t', Ok ()) ∧
    dom (cats t') = dom (cats abc) ∖ {["b"]} ∧
    (∀ x y, P (cats t') x y ↔ P (cats abc) x y ∧ x ≠ "b" ∧ y ≠ "b") ∧
    (∀ x c' y, cats t' !! x = Some c' → y ∈ ancestors c' ↔ tc (P (cats t')) x y).
Proof.
  assert (H : is_Some (cats abc !! "b")) by (vm_compute; eauto).
  exact (conj abc_wf (conj H (proj2 (remove_effect "b" abc abc_wf) H))).
Defined.

(** ** Which categories are reported as modified *)

(** Records that differ are reported, and nothing reported is forgotten. *)
Definition tracked (t t' : tstate) : Prop :=
  (∀ n c, cats t !! n = Some c → name c = n) →
  (∀ n c, cats t' !! n = Some c → name c = n) ∧
  modified t ⊆ modified t' ∧
  ∀ n, cats t !! n ≠ cats t' !! n → n ∈ modified t'.

#[export] Instance tracked_preorder : PreOrder tracked.
Proof.
  split; [intros t H; split; [done|split; [done|intros ? []; done]]|].
  intros t1 t2 t3 H12 H23 H1. destruct (H12 H1) as (H2 & Hm12 & Hc12).
  destruct (H23 H2) as (H3 & Hm23 & Hc23). split_and!; [done|by etrans|]. intros n Hn.
  destruct (decide (cats t1 !! n = cats t2 !! n)) as [He|He]; [|by apply Hm23, Hc12].
  apply Hc23. congruence.
Qed.

Lemma on_cat_tracked n op t :
  (∀ c, name (op c).1 = name c ∧ ((op c).2 = false → (op c).1 = c)) →
  tracked t (on_cat n op t).1.
Proof.
  intros Hop Hname. unfold on_cat. destruct (cats t !! n) as [c|] eqn:E.
  2:{ cbn. split_and!; [done..|]. by intros ? []. }
  destruct (Hop c) as [Hn Hsame]. destruct (op c) as [c' b]. cbn in *. split_and!.
  - intros x cx. destruct (decide (x = n)) as [->|]; [|by rewrite lookup_insert_ne; auto].
    rewrite lookup_insert_eq. intros [= <-]. rewrite Hn. auto.
  - destruct b; set_solver.
  - intros x Hx. destruct (decide (x = n)) as [->|]; [|by rewrite lookup_insert_ne in Hx].
    rewrite lookup_insert_eq, E in Hx. destruct b.
    + rewrite (Hname n c E). set_solver.
    + by rewrite Hsame in Hx.
Qed.

Lemma Category_eq c c' :
  name c = name c' → parents c = parents c' → children c = children c' →
  ancestors c = ancestors c' → descendants c = descendants c' → c = c'.
Proof. destruct c, c'; cbn; congruence. Qed.

Ltac tracked_op :=
  apply on_cat_tracked; intros ?; split; [done|];
  cbn; rewrite ?orb_false_iff, ?bool_decide_eq_false; intros;
  destruct_and?; repeat match goal with H : ¬ ¬ _ |- _ => apply dec_stable in H end;
  apply Category_eq; cbn; try done; apply set_eq; intros; set_solver.

Lemma find_cat_tracked n t : tracked t (find_cat n t).1.
Proof. unfold find_cat. by destruct (cats t !! n). Qed.

Lemma M_bind_getM {A} (R : tstate → tstate → Prop) (f : tstate → M tstate A) s :
  R s (f s s).1 → R s ((getM ≫= f) s).1.
Proof. done. Qed.

(** Sequences, loops and the elementary steps preserve tracking. *)
Create HintDb tracking.
#[export] Hint Resolve find_cat_tracked : tracking.
Ltac track :=
  repeat first
    [ reflexivity
    | apply find_cat_tracked
    | progress eauto with tracking
    | tracked_op
    | apply M_bind_getM
    | apply M_bind_rel; [apply _| |intros ? ?]
    | apply for_each_rel; [apply _|intros ? ? _]
    | case_decide | case_bool_decide
    | match goal with |- context [if ?b then _ else _] => destruct b end ].

Lemma recalc_ancestors_tracked n t : tracked t (recalc_ancestors n t).1.
Proof. unfold recalc_ancestors. track. Qed.

Lemma recalc_descendants_tracked n t : tracked t (recalc_descendants n t).1.
Proof. unfold recalc_descendants. track. Qed.

Lemma add_tracked n t : tracked t (Taxonomy_add n t).1.
Proof.
  intros Hname. unfold Taxonomy_add. destruct (cats t !! n) as [c|] eqn:E; cbn.
  { split_and!; [done..|]. by intros ? []. }
  split_and!; [|set_solver|].
  - intros x cx. destruct (decide (x = n)) as [->|]; [|by rewrite lookup_insert_ne; auto].
    rewrite lookup_insert_eq. by intros [= <-].
  - intros x Hx. destruct (decide (x = n)) as [->|]; [set_solver|by rewrite lookup_insert_ne in Hx].
Qed.

#[export] Hint Resolve recalc_ancestors_tracked recalc_descendants_tracked add_tracked : tracking.

Lemma add_parent_tracked n p t : tracked t (Taxonomy_add_parent n p t).1.
Proof. unfold Taxonomy_add_parent. track. Qed.

Lemma remove_parent_tracked n p t : tracked t (Taxonomy_remove_parent n p t).1.
Proof.
  unfold Taxonomy_remove_parent. case_decide; [done|].
  destruct (cats t !! n), (cats t !! p); [|done..]. track.
Qed.

Lemma remove_tracked n t : tracked t (Taxonomy_remove n t).1.
Proof.
  unfold Taxonomy_remove. destruct (cats t !! n); [|done]. track.
  intros Hname. cbn. split_and!; [|set_solver|].
  - intros x cx. destruct (decide (x = n)) as [->|]; [by rewrite lookup_delete_eq|].
    rewrite lookup_delete_ne by done. auto.
  - intros x Hx. destruct (decide (x = n)) as [->|]; [set_solver|by rewrite lookup_delete_ne in Hx].
Qed.

(** C23: the categories reported.  After [add], [add_parent], [remove_parent] or
    [remove] -- finished or thrown out of -- every category whose record appeared,
    changed or disappeared is in the caller's set of modified categories. *)
Theorem modified_complete o t n (Hwf : wf (cats t)) (Ho : ∀ v, o ≠ OpFromJson v) :
  modified t ⊆ modified (run_op o t).1 ∧
  (cats t !! n ≠ cats (run_op o t).1 !! n → n ∈ modified (run_op o t).1).
Proof.
  assert (H : tracked t (run_op o t).1).
  { destruct o as [m|m p|m p|m|v]; cbn [run_op];
      [apply add_tracked|apply add_parent_tracked|apply remove_parent_tracked|apply remove_tracked|].
    by destruct (Ho v). }
  destruct (H (wf_name _ Hwf)) as (_ & ? & ?). auto.
Qed.

Lemma modified_complete_witness :
  wf (cats abc) ∧ (∀ v, OpRemoveParent "b" "a" ≠ OpFromJson v) ∧
  (modified abc ⊆ modified (run_op (OpRemoveParent "b" "a") abc).1 ∧
   (cats abc !! "c" ≠ cats (run_op (OpRemoveParent "b" "a") abc).1 !! "c" →
    "c" ∈ modified (run_op (OpRemoveParent "b" "a") abc).1)).
Proof.
  assert (Ho : ∀ v, OpRemoveParent "b" "a" ≠ OpFromJson v) by discriminate.
  exact (conj abc_wf (conj Ho (modified_complete (OpRemoveParent "b" "a") abc "c" abc_wf Ho))).
Defined.

(** ** JSON round trip *)

(** A hierarchy is determined by its categories and their direct parents. *)
Lemma wf_ext m m' :
  wf m → wf m' → dom m = dom m' → (∀ x y, P m x y ↔ P m' x y) → m = m'.
Proof.
  intros Hwf Hwf' Hd HP. apply map_eq. intros n.
  assert (HC : ∀ x y, C m x y ↔ C m' x y)
    by (intros; by rewrite <-(wf_sym m Hwf), <-(wf_sym m' Hwf')).
  destruct (m !! n) as [c|] eqn:E.
  - destruct (dom_some m m' n) as [c' E']; [done|eauto|]. rewrite E'. f_equal.
    apply Category_eq.
    + by rewrite (wf_name m Hwf n c E), (wf_name m' Hwf' n c' E').
    + apply set_eq. intros x. specialize (HP n x). unfold edge in HP. naive_solver.
    + apply set_eq. intros x. specialize (HC n x). unfold edge in HC. naive_solver.
    + apply set_eq. intros x.
      rewrite (wf_ancestors m Hwf n c x E), (wf_ancestors m' Hwf' n c' x E'). by apply tc_iff.
    + apply set_eq. intros x.
      rewrite (wf_descendants m Hwf n c x E), (wf_descendants m' Hwf' n c' x E'). by apply tc_iff.
  - symmetry. apply not_elem_of_dom. rewrite <-Hd. by apply not_elem_of_dom.
Qed.

Definition parents_json (c : Category) : json := JArr (JStr <$> sorted_elems (parents c)).

Lemma append_strings l k :
  Forall (λ p, c_str p = p) l →
  foldl (λ ps p, json_append ps (jstr p)) (JArr k) l = JArr (k ++ (JStr <$> l)).
Proof.
  intros Hl. revert k. induction Hl as [|p l Hp Hl IH]; intros k; cbn; [by rewrite app_nil_r|].
  unfold jstr. rewrite IH, Hp. by rewrite <-app_assoc.
Qed.

Definition names_c (t : gmap string Category) : Prop := ∀ n, is_Some (t !! n) → c_str n = n.

Lemma to_json_eq t : wf t → names_c t →
  Taxonomy_to_json t = JObj (prod_map id parents_json <$> sorted_items t).
Proof.
  intros Hwf Hnames. unfold Taxonomy_to_json.
  assert (Hp : ∀ n c, (n, c) ∈ sorted_items t →
    foldl (λ ps p, json_append ps (jstr p)) (JArr []) (sorted_elems (parents c)) = parents_json c).
  { intros n c Hc%elem_of_sorted_items. apply append_strings, Forall_forall.
    intros p Hp%elem_of_sorted_elems. apply Hnames, (wf_parent_dom t Hwf n). by exists c. }
  rewrite <-(app_nil_l (prod_map _ _ <$> _)), <-(json_set_members parents_json).
  - revert Hp. generalize (JObj []). induction (sorted_items t) as [|[n c] l IH]; intros v Hp; [done|].
    cbn. rewrite (Hp n c) by set_solver. apply IH. set_solver.
  - rewrite sorted_items_fst. apply Forall_forall. intros n Hn%elem_of_sorted_keys. auto.
  - rewrite sorted_items_fst. apply sorted_keys_strict.
Qed.

(** Reading one member of [to_json t] back into a part of [t]. *)
Lemma from_json_member_ok t n c s :
  wf t → t !! n = Some c → wf (cats s) → dom (cats s) ⊆ dom t →
  (∀ x y, P (cats s) x y → P t x y) →
  ∃ s', from_json_member (n, parents_json c) s = (s', Ok ()) ∧ wf (cats s') ∧
        n ∈ dom (cats s') ∧ dom (cats s) ⊆ dom (cats s') ⊆ dom t ∧
        ∀ x y, P (cats s') x y ↔ P (cats s) x y ∨ (x = n ∧ y ∈ parents c).
Proof.
  intros Hwf Hc Hs Hdom HP. cbn [from_json_member parents_json isNull].
  destruct (add_core n s Hs) as (s1 & Hok1 & Hs1 & Hd1 & HP1 & _).
  assert (Hn : n ∈ dom t) by (apply elem_of_dom; eauto).
  rewrite (bind_ok _ _ _ _ _ Hok1).
  rewrite (bind_ok _ _ s1 s1 ()) by done. cbn [json_elems].
  destruct (for_each_inv (λ pre s', wf (cats s') ∧ n ∈ dom (cats s') ∧
      dom (cats s) ⊆ dom (cats s') ⊆ dom t ∧
      (∀ y, JStr y ∈ pre → y ∈ parents c) ∧
      ∀ x y, P (cats s') x y ↔ P (cats s) x y ∨ (x = n ∧ JStr y ∈ pre))
    (λ j, liftM (json_check_string j "category parent") ;;
          p ← liftM (asString j); Taxonomy_add_parent n p)
    (JStr <$> sorted_elems (parents c))) with (pre := @nil json) (s := s1)
    as (s' & Hok & Hs' & Hn' & Hd' & Hpre & HP').
  - intros pre x s2 Hx (Hs2 & Hn2 & Hd2 & Hpre & HP2).
    apply list_elem_of_fmap in Hx as (p & -> & Hp%elem_of_sorted_elems).
    assert (Hnp : P t n p) by (by exists c).
    rewrite (bind_ok _ _ s2 s2 ()), (bind_ok _ _ s2 s2 p) by done.
    assert (Hsub : ∀ u v, P (cats s2) u v → P t u v).
    { intros u v [?|[-> Hv]]%HP2; [auto|]. exists c. auto. }
    assert (Hne : n ≠ p) by (intros <-; by apply (wf_acyclic t Hwf n), tc_once).
    destruct (add_parent_core n p s2 Hs2 Hne) as [[Htc _]|(_ & s3 & Hok3 & Hs3 & Hd3 & HP3)].
    { exfalso. apply (wf_acyclic t Hwf n). eapply tc_l; [exact Hnp|]. by eapply tc_mono. }
    exists s3. pose proof (wf_parent_dom t Hwf n p Hnp) as Hpd%elem_of_dom.
    assert (Hsn : ∀ y, JStr y ∈ pre ++ [JStr p] ↔ JStr y ∈ pre ∨ y = p).
    { intros y. rewrite elem_of_app, list_elem_of_singleton. naive_solver. }
    split; [done|]. split_and!; [done|clear -Hd3 Hn2; set_solver|clear -Hd3 Hd2; set_solver
      |clear -Hd3 Hd2 Hn Hpd; set_solver| |].
    + intros y [?| ->]%Hsn; auto.
    + intros u v. rewrite HP3, HP2, Hsn. tauto.
  - split_and!; [done|clear -Hd1; set_solver..|clear -Hd1 Hdom Hn; set_solver| |].
    + by intros y ?%elem_of_nil.
    + intros u v. rewrite HP1, elem_of_nil. tauto.
  - exists s'. split_and!; [done..|apply Hd'|apply Hd'|]. intros u v. rewrite HP'.
    assert (Hv : JStr v ∈ JStr <$> sorted_elems (parents c) ↔ v ∈ parents c); [|by rewrite Hv].
    rewrite <-(elem_of_sorted_elems (parents c)). split.
    + intros (p & [= ->] & ?)%list_elem_of_fmap. done.
    + intros ?. apply list_elem_of_fmap. eauto.
Qed.

Lemma taxonomy_json_roundtrip_ok t s (Hwf : wf t) (Hnames : names_c t) :
  ∃ md, Taxonomy_from_json (Taxonomy_to_json t) s = (mkT t md, Ok ()).
Proof.
  rewrite to_json_eq by done. unfold Taxonomy_from_json.
  rewrite (bind_ok _ _ (mkT ∅ ∅) (mkT ∅ ∅) ()) by done. cbn [json_members].
  assert (Hit : ∀ n c, (n, c) ∈ sorted_items t ↔ t !! n = Some c) by apply elem_of_sorted_items.
  destruct (for_each_inv (λ pre s', wf (cats s') ∧ dom (cats s') ⊆ dom t ∧
      (∀ n c, (n, parents_json c) ∈ pre → t !! n = Some c → n ∈ dom (cats s')) ∧
      (∀ x y, P (cats s') x y → P t x y) ∧
      (∀ x c y, t !! x = Some c → (x, parents_json c) ∈ pre → y ∈ parents c → P (cats s') x y))
    from_json_member (prod_map id parents_json <$> sorted_items t))
    with (pre := @nil (string * json)) (s := mkT ∅ ∅)
    as (s' & Hok & Hs' & Hd & Hall & Hsub & Hsup).
  - intros pre m s1 Hm (Hs1 & Hd1 & Hall1 & Hsub1 & Hsup1).
    apply list_elem_of_fmap in Hm as ([n c] & -> & Hc%Hit). cbn [prod_map fst snd id].
    destruct (from_json_member_ok t n c s1 Hwf Hc Hs1 Hd1 Hsub1) as (s2 & Hok & Hs2 & Hn2 & Hd2 & HP2).
    exists s2. split; [done|]. split_and!; [done|set_solver|..].
    + intros x cx [Hx|Hx%list_elem_of_singleton]%elem_of_app Hxc; [specialize (Hall1 x cx Hx Hxc); set_solver|].
      injection Hx as -> _. done.
    + intros x y [?|[-> ?]]%HP2; [auto|by exists c].
    + intros x cx y Hxc [Hx|Hx%list_elem_of_singleton]%elem_of_app Hy; apply HP2; [left; eauto|].
      injection Hx as -> _. simplify_eq. auto.
  - split_and!; cbn; [apply wf_empty|set_solver|set_solver| |set_solver].
    intros x y (? & ? & _). by rewrite lookup_empty in *.
  - exists (modified s'). rewrite Hok. f_equal. destruct s' as [m md]. cbn in *. f_equal.
    symmetry. apply wf_ext; [done..| |].
    + apply set_eq. intros n. split; [|set_solver]. intros [c Hc]%elem_of_dom.
      apply (Hall n c); [|done]. apply list_elem_of_fmap. exists (n, c). by rewrite Hit.
    + intros x y. split; [|auto]. intros (c & Hc & Hy). apply (Hsup x c y Hc); [|done].
      apply list_elem_of_fmap. exists (x, c). by rewrite Hit.
Qed.

(** C24: [from_json] rebuilds from the output of [to_json] the same taxonomy -- the
    same categories and links, and recomputed ancestors and descendants -- for
    every well-formed taxonomy whose names have no NUL byte. *)
Theorem taxonomy_json_roundtrip t s (Hwf : wf t) (Hnames : names_c t) :
  ∃ md, Taxonomy_from_json (Taxonomy_to_json t) s = (mkT t md, Ok ()).
Proof. by apply taxonomy_json_roundtrip_ok. Qed.

Lemma abc_names_c : names_c (cats abc).
Proof.
  intros n Hn%elem_of_dom. assert (Hd : dom (cats abc) = {["a"; "b"; "c"]}) by (vm_compute; reflexivity).
  rewrite Hd in Hn. set_unfold in Hn. destruct Hn as [[->| ->]| ->]; reflexivity.
Qed.

Lemma taxonomy_json_roundtrip_witness :
  wf (cats abc) ∧ names_c (cats abc) ∧
  ∃ md, Taxonomy_from_json (Taxonomy_to_json (cats abc)) abc = (mkT (cats abc) md, Ok ()).
Proof. exact (conj abc_wf (conj abc_names_c (taxonomy_json_roundtrip (cats abc) abc abc_wf abc_names_c))). Defined.
