(* ===== verification/DocData.v ===== *)
(** * Stored document data

    src/jsonxapian/docdata.h and docdata.cc: the fields of a document, stored as
    one string of length-prefixed names and values.  The [fields] map of a
    [DocumentData] is the state. *)

From S2P Require Import Prelude Serialise Json.

(** ** Definitions *)

Abbreviation DocumentData := (gmap string string).

Definition DocumentData_set (field value : string) (fields : DocumentData) : DocumentData :=
  if (str_size value =? 0)%N then delete field fields else <[field := value]> fields.

Definition DocumentData_get (field : string) (fields : DocumentData) : string :=
  default "" (fields !! field).

Definition DocumentData_serialise (fields : DocumentData) : string :=
  foldl (λ result '(field, value),
    result +:+ encode_length (str_size field) +:+ field
           +:+ encode_length (str_size value) +:+ value) "" (sorted_items fields).

(** The [while (ptr != endptr)] loop; every iteration consumes bytes. *)
Fixpoint unserialise_loop (fuel : nat) (ptr : string) : M DocumentData () :=
  match fuel with
  | O => liftM OutOfFuel
  | S fuel =>
      match ptr with
      | "" => mret ()
      | _ =>
          '(len, ptr) ← liftM (rsp_decode_length ptr true);
          let '(field, ptr) := read_bytes len ptr in
          '(len, ptr) ← liftM (rsp_decode_length ptr true);
          let '(value, ptr) := read_bytes len ptr in
          modifyM (<[field := value]>) ;;
          unserialise_loop fuel ptr
      end
  end.

Definition DocumentData_unserialise (s : string) : M DocumentData () :=
  putM ∅ ;; unserialise_loop (S (String.length s)) s.

Section display.
(** The JSON parser: src/utils/jsonutils.cc [json_unserialise]. *)
Context (json_unserialise : string → res json).

Definition display_field (result : json) (field value : string) : res json :=
  if (str_size value =? 0)%N then Ok result
  else v ← json_unserialise value; Ok (json_set result field v).

Fixpoint display_all (items : list (string * string)) (result : json) : res json :=
  match items with
  | [] => Ok result
  | (field, value) :: items => result ← display_field result field value; display_all items result
  end.

Fixpoint display_list (fields : DocumentData) (fieldlist : list json) (result : json) : res json :=
  match fieldlist with
  | [] => Ok result
  | f :: fieldlist =>
      fieldname ← asString f;
      result ← match fields !! fieldname with
               | None => Ok result
               | Some value => display_field result fieldname value
               end;
      display_list fields fieldlist result
  end.

Definition DocumentData_to_display (fields : DocumentData) (fieldlist : json) : res json :=
  if isNull fieldlist then display_all (sorted_items fields) (JObj [])
  else display_list fields (json_elems fieldlist) (JObj []).

End display.

(** ** Lemmas *)

Lemma serialise_pieces l s :
  foldl (λ result '(field, value),
    result +:+ encode_length (str_size field) +:+ field
           +:+ encode_length (str_size value) +:+ value) s l
  = s +:+ str_concat ((λ '(field, value), encode_string field +:+ encode_string value) <$> l).
Proof.
  revert s. induction l as [|[k v] l IH]; intros s; cbn; [by rewrite str_app_nil_r|].
  rewrite IH. unfold encode_string. by rewrite !str_app_assoc.
Qed.

Lemma DocumentData_serialise_eq fields :
  DocumentData_serialise fields =
  str_concat ((λ '(field, value), encode_string field +:+ encode_string value) <$> sorted_items fields).
Proof. unfold DocumentData_serialise. by rewrite serialise_pieces, str_app_nil_l. Qed.

(** One iteration as two reads of length-prefixed strings. *)
Lemma unserialise_loop_step fuel c p fields :
  unserialise_loop (S fuel) (String c p) fields =
  match decode_string (String c p) with
  | Ok (field, p1) =>
      match decode_string p1 with
      | Ok (value, p2) => unserialise_loop fuel p2 (<[field := value]> fields)
      | Throw e => (fields, Throw e)
      | OutOfFuel => (fields, OutOfFuel)
      end
  | Throw e => (fields, Throw e)
  | OutOfFuel => (fields, OutOfFuel)
  end.
Proof.
  cbn [unserialise_loop]. unfold decode_string, liftM, mbind at 1, M_bind.
  destruct (rsp_decode_length (String c p) true) as [[len p1]|e|]; cbn; [|done..].
  unfold read_bytes at 1. cbn. unfold mbind at 1, M_bind.
  destruct (rsp_decode_length (str_drop (N.to_nat len) p1) true) as [[len' p2]|e|]; cbn; done.
Qed.

Lemma unserialise_pieces l fuel fields :
  Forall (λ '(k, v), encodable k ∧ encodable v) l → length l < fuel →
  unserialise_loop fuel
    (str_concat ((λ '(field, value), encode_string field +:+ encode_string value) <$> l)) fields
  = (foldl (λ m '(k, v), <[k := v]> m) fields l, Ok ()).
Proof.
  revert fuel fields. induction l as [|[k v] l IH]; intros [|fuel] fields Hl Hf; cbn [length] in Hf;
    try lia; [done|]. cbn [fmap list_fmap str_concat foldr foldl].
  apply Forall_cons in Hl as [[Hk Hv] Hl].
  set (rest := foldr _ _ _). rewrite str_app_assoc.
  destruct (encode_string_cons k) as (c & p & Hc).
  replace (encode_string k +:+ encode_string v +:+ rest)
    with (String c (p +:+ encode_string v +:+ rest)) by (by rewrite Hc, str_app_cons).
  rewrite unserialise_loop_step.
  replace (String c (p +:+ encode_string v +:+ rest))
    with (encode_string k +:+ encode_string v +:+ rest) by (by rewrite Hc, str_app_cons).
  rewrite !decode_string_app by done. apply IH; [done|lia].
Qed.

(** ** Properties *)

(** Storing and reading back.  [unserialise] of the output of [serialise]
    rebuilds the fields, whatever the object held before, when every name and
    value is shorter than the longest length the format can carry. *)
Theorem docdata_roundtrip (d d0 : DocumentData) :
  (∀ k v, d !! k = Some v → encodable k ∧ encodable v) →
  DocumentData_unserialise (DocumentData_serialise d) d0 = (d, Ok ()).
Proof.
  intros Henc. unfold DocumentData_unserialise.
  change ((putM ∅ ;; ?k) d0) with (k ∅). rewrite DocumentData_serialise_eq.
  rewrite unserialise_pieces.
  - by rewrite foldl_insert_sorted_items.
  - apply Forall_forall. intros [k v] Hkv%elem_of_sorted_items. by apply Henc.
  - apply Nat.lt_succ_r, concat_length_ge. intros [k v].
    destruct (encode_string_cons k) as (c & p & ->). rewrite str_app_cons. cbn. lia.
Qed.

Lemma docdata_roundtrip_witness :
  (∀ k v, ({["id" := "1"; "text" := "abc"]} : DocumentData) !! k = Some v → encodable k ∧ encodable v) ∧
  DocumentData_unserialise (DocumentData_serialise {["id" := "1"; "text" := "abc"]}) {["x" := "y"]}
  = ({["id" := "1"; "text" := "abc"]}, Ok ()).
Proof.
  assert (H : ∀ k v, ({["id" := "1"; "text" := "abc"]} : DocumentData) !! k = Some v →
    encodable k ∧ encodable v).
  { by intros k v [[<- <-]|[_ [<- <-]%lookup_singleton_Some]]%lookup_insert_Some. }
  exact (conj H (docdata_roundtrip _ _ H)).
Defined.

Lemma unserialise_loop_total fuel p d :
  String.length p < fuel →
  match (unserialise_loop fuel p d).2 with
  | Ok _ => True
  | Throw e => ∃ msg, e = UnserialisationError msg
  | OutOfFuel => False
  end.
Proof.
  revert p d. induction fuel as [|fuel IH]; intros p d Hf; [lia|]. destruct p as [|c p]; [done|].
  rewrite unserialise_loop_step. pose proof (decode_string_spec (String c p)) as H1.
  destruct (decode_string (String c p)) as [[field p1]|e|]; [|done..].
  pose proof (decode_string_spec p1) as H2. destruct (decode_string p1) as [[value p2]|e|]; [|done..].
  apply IH. lia.
Qed.

(** [unserialise] ends on every byte string, valid or not: it returns or
    throws an unserialisation error, and never reads past the data. *)
Theorem docdata_unserialise_total s d :
  ∃ d', DocumentData_unserialise s d = (d', Ok ()) ∨
        ∃ msg, DocumentData_unserialise s d = (d', throw (UnserialisationError msg)).
Proof.
  unfold DocumentData_unserialise. change ((putM ∅ ;; ?k) d) with (k ∅).
  pose proof (unserialise_loop_total (S (String.length s)) s ∅ ltac:(lia)) as H.
  destruct (unserialise_loop (S (String.length s)) s ∅) as [d' [[]|e|]]; cbn in H; [eauto| |done].
  destruct H as [msg ->]. eauto.
Qed.

(** *** Display *)

Section display_facts.
Context (json_unserialise : string → res json).

(** What the display form holds for field [x]: its parsed value when it is
    stored and not empty. *)
Definition shown (fields : DocumentData) (x : string) : option json :=
  value ← fields !! x;
  if (str_size value =? 0)%N then None
  else match json_unserialise value with Ok v => Some v | _ => None end.

Definition parsable (fields : DocumentData) : Prop :=
  ∀ k v, fields !! k = Some v → c_str k = k ∧ (v = "" ∨ ∃ j, json_unserialise v = Ok j).

Lemma display_field_ok fields m k v :
  parsable fields → fields !! k = Some v →
  ∃ m', display_field json_unserialise (JObj m) k v = Ok (JObj m') ∧
    ∀ x, obj_find x m' = if decide (k = x) then shown fields k ∪ obj_find x m else obj_find x m.
Proof.
  intros Hp Hk. destruct (Hp k v Hk) as [Hc Hv]. unfold display_field, shown. rewrite Hk. cbn.
  destruct Hv as [->|[j Hj]].
  - exists m. split; [done|]. intros x. cbn. by case_decide; destruct (obj_find x m).
  - destruct (N.eqb_spec (str_size v) 0); [|rewrite Hj; cbn; rewrite Hc].
    + exists m. split; [done|]. intros x. cbn. by case_decide; destruct (obj_find x m).
    + eexists; split; [done|]. intros x.
      rewrite obj_find_set. case_decide; [|done]. by destruct (obj_find x m).
Qed.

Lemma display_list_ok fields names m :
  parsable fields →
  ∃ m', display_list json_unserialise fields (JStr <$> names) (JObj m) = Ok (JObj m') ∧
    ∀ x, obj_find x m' =
      if decide (x ∈ names) then shown fields x ∪ obj_find x m else obj_find x m.
Proof.
  intros Hp. revert m. induction names as [|n names IH]; intros m; cbn.
  { exists m. split; [done|]. intros x. case_decide as Hx; [by apply elem_of_nil in Hx|done]. }
  destruct (fields !! n) as [v|] eqn:Hn; cbn.
  - destruct (display_field_ok fields m n v Hp Hn) as (m1 & Hok & H1). rewrite Hok. cbn.
    destruct (IH m1) as (m2 & -> & H2). exists m2. split; [done|]. intros x. rewrite H2, H1.
    destruct (decide (n = x)) as [->|Hne].
    + rewrite (decide_True (P := x ∈ x :: names)) by set_solver.
      case_decide; destruct (shown fields x), (obj_find x m); done.
    + by rewrite (decide_ext (x ∈ n :: names) (x ∈ names)) by set_solver.
  - destruct (IH m) as (m2 & -> & H2). exists m2. split; [done|]. intros x. rewrite H2.
    destruct (decide (n = x)) as [->|Hne].
    + rewrite (decide_True (P := x ∈ x :: names)) by set_solver.
      assert (shown fields x = None) as -> by (unfold shown; by rewrite Hn).
      case_decide; destruct (obj_find x m); done.
    + by rewrite (decide_ext (x ∈ n :: names) (x ∈ names)) by set_solver.
Qed.
End display_facts.

(** The display form for a list of field names: an object whose member of a
    name is the parsed stored value for exactly the requested names that are
    stored with a non-empty value. *)
Theorem docdata_display_list json_unserialise fields names
    (Hp : parsable json_unserialise fields) :
  ∃ m, DocumentData_to_display json_unserialise fields (JArr (JStr <$> names)) = Ok (JObj m) ∧
    ∀ x, obj_find x m = if decide (x ∈ names) then shown json_unserialise fields x else None.
Proof.
  unfold DocumentData_to_display. cbn [isNull json_elems].
  destruct (display_list_ok json_unserialise fields names [] Hp) as (m & Hok & Hm).
  exists m. split; [done|]. intros x. rewrite Hm. cbn. case_decide; [|done].
  by destruct (shown _ _ x).
Qed.

Lemma docdata_display_list_witness :
  parsable (λ s, Ok (JStr s)) {["id" := "1"; "text" := ""]} ∧
  ∃ m, DocumentData_to_display (λ s, Ok (JStr s)) {["id" := "1"; "text" := ""]}
         (JArr (JStr <$> ["text"; "id"; "x"])) = Ok (JObj m) ∧
    ∀ x, obj_find x m = if decide (x ∈ ["text"; "id"; "x"])
      then shown (λ s, Ok (JStr s)) {["id" := "1"; "text" := ""]} x else None.
Proof.
  assert (H : parsable (λ s, Ok (JStr s)) {["id" := "1"; "text" := ""]}).
  { intros k v [[<- <-]|[_ [<- <-]%lookup_singleton_Some]]%lookup_insert_Some;
      (split; [reflexivity|eauto]). }
  exact (conj H (docdata_display_list (λ s, Ok (JStr s)) _ ["text"; "id"; "x"] H)).
Defined.
