(* ===== verification/DocValues.v ===== *)
(** * Values stored in document slots

    src/jsonxapian/docvalues.h and docvalues.cc: the sets of values a document
    holds in its slots, their three encodings, and the decoders that read them
    back from a stored document. *)

From S2P Require Import Prelude Serialise.

(** ** Documents

    [Xapian::Document] is a library class; the code relies on a value written to
    a slot being the one read from it. *)

Class DocStore (Doc : Type) := {
  add_value : N → string → Doc → Doc;
  get_value : N → Doc → string;
}.
Class DocStoreLaws (Doc : Type) `{!DocStore Doc} : Prop := {
  get_add_value (slot slot' : N) v (d : Doc) :
    get_value slot (add_value slot' v d) = if decide (slot' = slot) then v else get_value slot d;
}.

(** ** Definitions *)

Inductive ValueEncoding : Type :=
| ENC_VINT_LENGTHS
| ENC_SINGLY_VALUED
| ENC_GEOENCODE.

#[export] Instance ValueEncoding_eq_dec : EqDecision ValueEncoding.
Proof. solve_decision. Defined.

(** A [DocumentValue]: its class (chosen by the encoding) and its set of values. *)
Record DocumentValue := mkDocumentValue {
  encoding : ValueEncoding;
  values : gset string;
}.

Definition DocumentValue_empty (v : DocumentValue) : bool := bool_decide (values v = ∅).
Definition DocumentValue_add (x : string) (v : DocumentValue) : DocumentValue :=
  mkDocumentValue (encoding v) ({[x]} ∪ values v).
Definition DocumentValue_remove (x : string) (v : DocumentValue) : DocumentValue :=
  mkDocumentValue (encoding v) (values v ∖ {[x]}).

Definition Singly_serialise (X : gset string) : string :=
  match sorted_elems X with [] => "" | x :: _ => x end.

Definition Vint_serialise (X : gset string) : string :=
  foldl (λ result x, result +:+ encode_length (str_size x) +:+ x) "" (sorted_elems X).

(** [Assert] throws only in a build with assertions enabled. *)
Definition Geo_serialise (assertions : bool) (X : gset string) : res string :=
  foldl (λ result x,
    result ← result;
    if assertions && negb (str_size x =? 6)%N then throw AssertionError
    else Ok (result +:+ x)) (Ok "") (sorted_elems X).

Definition DocumentValue_serialise (assertions : bool) (v : DocumentValue) : res string :=
  match encoding v with
  | ENC_SINGLY_VALUED => Ok (Singly_serialise (values v))
  | ENC_VINT_LENGTHS => Ok (Vint_serialise (values v))
  | ENC_GEOENCODE => Geo_serialise assertions (values v)
  end.

Record DocumentValues := mkDocumentValues {
  entries : gmap N DocumentValue;
  formats : gmap N ValueEncoding;
}.

Definition DocumentValues_set_slot_format (slot : N) (e : ValueEncoding) (d : DocumentValues) :=
  mkDocumentValues (entries d) (<[slot := e]> (formats d)).

Definition DocumentValues_add (slot : N) (value : string) (d : DocumentValues) : DocumentValues :=
  let valptr := match entries d !! slot with
                | None => mkDocumentValue (default ENC_VINT_LENGTHS (formats d !! slot)) ∅
                | Some v => v
                end in
  mkDocumentValues (<[slot := DocumentValue_add value valptr]> (entries d)) (formats d).

Definition DocumentValues_remove (slot : N) (value : string) (d : DocumentValues) : DocumentValues :=
  match entries d !! slot with
  | None => d
  | Some v =>
      let v := DocumentValue_remove value v in
      mkDocumentValues (if DocumentValue_empty v then delete slot (entries d)
                        else <[slot := v]> (entries d)) (formats d)
  end.

Definition DocumentValues_empty (slot : N) (d : DocumentValues) : bool :=
  match entries d !! slot with None => true | Some v => DocumentValue_empty v end.

(** The slots in iteration order. *)
Definition sorted_slots (m : gmap N DocumentValue) : list N := merge_sort N.le (elements (dom m)).

Definition DocumentValues_apply `{DocStore Doc} (assertions : bool) (d : DocumentValues) : M Doc () :=
  for_each (sorted_slots (entries d)) (λ slot,
    match entries d !! slot with
    | None => mret ()
    | Some v => s ← liftM (DocumentValue_serialise assertions v); modifyM (add_value slot s)
    end).

(** *** Decoders *)

(** A [SlotDecoder] of the class given by its encoding: [pos] is the part of
    [value] between [pos] and [endpos]. *)
Record SlotDecoder := mkSlotDecoder {
  slot : N;
  kind : ValueEncoding;
  value : string;
  read : bool;
  pos : string;
}.

Definition SlotDecoder_create (slot : N) (e : ValueEncoding) : option SlotDecoder :=
  if (slot =? BAD_VALUENO)%N then None else Some (mkSlotDecoder slot e "" true "").

Definition SlotDecoder_newdoc `{DocStore Doc} (doc : Doc) (d : SlotDecoder) : SlotDecoder :=
  let v := get_value (slot d) doc in mkSlotDecoder (slot d) (kind d) v false v.

(** The next value, if there is one, and the advanced decoder. *)
Definition SlotDecoder_next (d : SlotDecoder) : res (option string * SlotDecoder) :=
  match kind d with
  | ENC_SINGLY_VALUED =>
      if read d then Ok (None, d)
      else Ok (Some (value d), mkSlotDecoder (slot d) (kind d) (value d) true (pos d))
  | ENC_VINT_LENGTHS =>
      if (str_size (pos d) =? 0)%N then Ok (None, d)
      else
        '(len, p) ← rsp_decode_length (pos d) true;
        let '(x, p) := read_bytes len p in
        Ok (Some x, mkSlotDecoder (slot d) (kind d) (value d) (read d) p)
  | ENC_GEOENCODE =>
      if (str_size (pos d) =? 0)%N then Ok (None, d)
      else if (str_size (pos d) <? 6)%N
      then throw (UnserialisationError "Bad geoencoded value: invalid encoded length")
      else
        let '(x, p) := read_bytes 6 (pos d) in
        Ok (Some x, mkSlotDecoder (slot d) (kind d) (value d) (read d) p)
  end.

(** [while (decoder->next(&begin, &len)) ...], the loop of every user of a
    decoder (src/matchspies, src/postingsources): the values it sees. *)
Fixpoint decode_all (fuel : nat) (d : SlotDecoder) : res (list string) :=
  match fuel with
  | O => OutOfFuel
  | S fuel =>
      '(o, d) ← SlotDecoder_next d;
      match o with
      | None => Ok []
      | Some x => l ← decode_all fuel d; Ok (x :: l)
      end
  end.

(** The values read from a document. *)
Definition read_slot `{DocStore Doc} (d : SlotDecoder) (doc : Doc) : res (list string) :=
  decode_all (2 + String.length (get_value (slot d) doc)) (SlotDecoder_newdoc doc d).

(** ** Encoding and decoding *)

Lemma Vint_serialise_eq X : Vint_serialise X = str_concat (encode_string <$> sorted_elems X).
Proof.
  unfold Vint_serialise.
  assert (H : ∀ l s, foldl (λ result x, result +:+ encode_length (str_size x) +:+ x) s l =
    s +:+ str_concat (encode_string <$> l)); [|apply H].
  induction l as [|x l IH]; intros s; cbn; [by rewrite str_app_nil_r|].
  rewrite IH. unfold encode_string. by rewrite !str_app_assoc.
Qed.

Lemma Geo_serialise_ok assertions X :
  (∀ x, x ∈ X → str_size x = 6%N) → Geo_serialise assertions X = Ok (str_concat (sorted_elems X)).
Proof.
  intros HX. unfold Geo_serialise.
  assert (Hl : Forall (λ x, str_size x = 6%N) (sorted_elems X)).
  { apply Forall_forall. intros x Hx%elem_of_sorted_elems. auto. }
  assert (H : ∀ l s, Forall (λ x, str_size x = 6%N) l →
    foldl (λ result x, result ← result;
      if assertions && negb (str_size x =? 6)%N then throw AssertionError
      else Ok (result +:+ x)) (Ok s) l = Ok (s +:+ str_concat l)); [|by apply H].
  clear Hl HX X. induction l as [|x l IH]; intros s Hl; cbn; [by rewrite str_app_nil_r|].
  apply Forall_cons in Hl as [-> Hl]. rewrite andb_false_r. rewrite IH by done.
  by rewrite !str_app_assoc.
Qed.

Lemma next_vint_cons s v r x rest :
  encodable x →
  SlotDecoder_next (mkSlotDecoder s ENC_VINT_LENGTHS v r (encode_string x +:+ rest))
  = Ok (Some x, mkSlotDecoder s ENC_VINT_LENGTHS v r rest).
Proof.
  intros Hx. unfold SlotDecoder_next. cbn [kind pos slot value read].
  pose proof (decode_string_app x rest Hx) as Hd. unfold decode_string in Hd.
  destruct (encode_string_cons x) as (c & p & Hc).
  replace (str_size (encode_string x +:+ rest) =? 0)%N with false
    by (rewrite Hc, str_app_cons; symmetry; apply N.eqb_neq; unfold str_size; cbn; lia).
  destruct (rsp_decode_length _ _) as [[len q]|e'|]; cbn in *; [|done..].
  unfold read_bytes in *. by simplify_eq.
Qed.

Lemma decode_vint s v r l fuel :
  Forall encodable l → length l < fuel →
  decode_all fuel (mkSlotDecoder s ENC_VINT_LENGTHS v r (str_concat (encode_string <$> l))) = Ok l.
Proof.
  revert fuel. induction l as [|x l IH]; intros [|fuel] Hl Hf; cbn [length] in Hf; try lia; [done|].
  apply Forall_cons in Hl as [Hx Hl]. cbn [fmap list_fmap str_concat foldr decode_all].
  pose proof (next_vint_cons s v r x (str_concat (encode_string <$> l)) Hx) as Hn.
  unfold str_concat in Hn. rewrite Hn. cbn [mbind res_bind].
  fold (str_concat (encode_string <$> l)). by rewrite IH by (done || lia).
Qed.

Lemma decode_geo s v r l fuel :
  Forall (λ x, str_size x = 6%N) l → length l < fuel →
  decode_all fuel (mkSlotDecoder s ENC_GEOENCODE v r (str_concat l)) = Ok l.
Proof.
  revert fuel. induction l as [|x l IH]; intros [|fuel] Hl Hf; cbn [length] in Hf; try lia; [done|].
  apply Forall_cons in Hl as [Hx Hl]. cbn [str_concat foldr decode_all].
  unfold SlotDecoder_next. cbn [kind pos slot value read]. rewrite str_size_app, Hx.
  destruct (N.eqb_spec (6 + str_size (foldr String.app "" l)) 0); [lia|].
  destruct (N.ltb_spec (6 + str_size (foldr String.app "" l)) 6); [lia|].
  rewrite <-Hx at 1. rewrite read_bytes_app. cbn [mbind res_bind].
  fold (str_concat l). by rewrite IH by (done || lia).
Qed.

(** The values an encoding can carry, and what a decoder reads back: all of them
    in byte order, or the first for a slot that holds a single value. *)
Definition carries (e : ValueEncoding) (X : gset string) : Prop :=
  match e with
  | ENC_VINT_LENGTHS => ∀ x, x ∈ X → encodable x
  | ENC_SINGLY_VALUED => True
  | ENC_GEOENCODE => ∀ x, x ∈ X → str_size x = 6%N
  end.

Definition read_back (e : ValueEncoding) (X : gset string) : list string :=
  match e with
  | ENC_SINGLY_VALUED => [default "" (head (sorted_elems X))]
  | _ => sorted_elems X
  end.

Lemma serialise_carries assertions v :
  carries (encoding v) (values v) → ∃ s, DocumentValue_serialise assertions v = Ok s.
Proof.
  unfold carries, DocumentValue_serialise. destruct (encoding v); eauto.
  intros H. rewrite Geo_serialise_ok by done. eauto.
Qed.

Lemma decode_serialise assertions v str s b :
  carries (encoding v) (values v) → DocumentValue_serialise assertions v = Ok str →
  decode_all (2 + String.length str) (mkSlotDecoder s (encoding v) str b str)
  = match encoding v with
    | ENC_SINGLY_VALUED => Ok (if b then [] else read_back (encoding v) (values v))
    | _ => Ok (read_back (encoding v) (values v))
    end.
Proof.
  intros Hc. unfold DocumentValue_serialise. destruct (encoding v) eqn:E; cbn [carries read_back] in *.
  - intros [= <-]. rewrite Vint_serialise_eq. apply decode_vint.
    + apply Forall_forall. intros x Hx%elem_of_sorted_elems. auto.
    + pose proof (concat_length_ge encode_string (sorted_elems (values v))) as Hl.
      assert (∀ a, 1 ≤ String.length (encode_string a)); [|specialize (Hl H); lia].
      intros a. destruct (encode_string_cons a) as (c & p & ->). cbn. lia.
  - intros [= <-]. destruct b; [done|]. unfold Singly_serialise. by destruct (sorted_elems (values v)).
  - rewrite Geo_serialise_ok by done. intros [= <-]. apply decode_geo.
    + apply Forall_forall. intros x Hx%elem_of_sorted_elems. auto.
    + assert (Hl : ∀ l, Forall (λ x, str_size x = 6%N) l → length l ≤ String.length (str_concat l)).
      { induction 1 as [|x l Hx _ IH]; cbn; [lia|]. fold (str_concat l). rewrite str_app_length.
        unfold str_size in Hx. lia. }
      specialize (Hl (sorted_elems (values v))).
      assert (Forall (λ x, str_size x = 6%N) (sorted_elems (values v))); [|specialize (Hl H); lia].
      apply Forall_forall. intros x Hx%elem_of_sorted_elems. auto.
Qed.

Lemma elem_of_sorted_slots m (s : N) : s ∈ sorted_slots m ↔ is_Some (m !! s).
Proof. unfold sorted_slots. by rewrite merge_sort_Permutation, elem_of_elements, elem_of_dom. Qed.

Lemma sorted_slots_nodup m : NoDup (sorted_slots m).
Proof. unfold sorted_slots. rewrite merge_sort_Permutation. apply NoDup_elements. Qed.

(** ** Through a document *)

Section stored.
Context {Doc : Type} `{!DocStore Doc} `{!DocStoreLaws Doc}.

Definition sound_values (d : DocumentValues) : Prop :=
  ∀ s v, entries d !! s = Some v → carries (encoding v) (values v).

Lemma apply_ok assertions d doc :
  sound_values d →
  ∃ doc', DocumentValues_apply assertions d doc = (doc', Ok ()) ∧
    ∀ s, match entries d !! s with
         | Some v => DocumentValue_serialise assertions v = Ok (get_value s doc')
         | None => get_value s doc' = get_value s doc
         end.
Proof.
  intros Hsound. unfold DocumentValues_apply.
  set (f := λ s, match entries d !! s with None => mret () | Some v => _ end).
  destruct (for_each_inv (λ pre doc', ∀ s,
      (s ∈ pre → ∀ v, entries d !! s = Some v →
         DocumentValue_serialise assertions v = Ok (get_value s doc')) ∧
      (s ∉ pre → get_value s doc' = get_value s doc)) f (sorted_slots (entries d)))
    with (pre := @nil N) (s := doc) as (doc' & Hok & Hdoc).
  - intros pre s doc1 Hs Hinv. apply elem_of_sorted_slots in Hs as [v Hv].
    destruct (serialise_carries assertions v (Hsound s v Hv)) as [str Hstr].
    exists (add_value s str doc1). split.
    { unfold f. rewrite Hv, Hstr. done. }
    intros s'. rewrite get_add_value. destruct (decide (s = s')) as [->|Hne].
    + split; [intros _ v' Hv'; congruence|set_solver].
    + destruct (Hinv s') as [H1 H2]. split; intros Hin; [apply H1|apply H2]; set_solver.
  - intros s. split; [set_solver|done].
  - exists doc'. split; [done|]. intros s. destruct (Hdoc s) as [H1 H2]. cbn in H1, H2.
    destruct (entries d !! s) as [v|] eqn:E.
    + apply H1; [|done]. apply elem_of_sorted_slots. eauto.
    + apply H2. rewrite elem_of_sorted_slots, E. by intros [].
Qed.

(** Reading back what was stored.  Applying the values to a document
    succeeds when each slot's encoding can carry them; the decoder of a slot's
    encoding then reads from the document the values of the slot in byte order
    (the first of them for a slot that holds a single value), and the slots
    without values are as before. *)
Theorem docvalues_stored assertions (d : DocumentValues) (doc : Doc) :
  sound_values d →
  ∃ doc', DocumentValues_apply assertions d doc = (doc', Ok ()) ∧
    (∀ s v dec, entries d !! s = Some v → SlotDecoder_create s (encoding v) = Some dec →
       read_slot dec doc' = Ok (read_back (encoding v) (values v))) ∧
    (∀ s, entries d !! s = None → get_value s doc' = get_value s doc).
Proof.
  intros Hsound. destruct (apply_ok assertions d doc Hsound) as (doc' & Hok & Hget).
  exists doc'. split_and!; [done| |].
  - intros s v dec Hv Hdec. specialize (Hget s). rewrite Hv in Hget.
    unfold SlotDecoder_create in Hdec. destruct (_ =? _)%N; simplify_eq.
    unfold read_slot, SlotDecoder_newdoc. cbn [slot kind].
    rewrite (decode_serialise assertions v _ s false (Hsound s v Hv) Hget).
    by destruct (encoding v).
  - intros s Hs. specialize (Hget s). by rewrite Hs in Hget.
Qed.

End stored.

(** A document as a plain map, in which an absent slot reads as empty. *)
#[export] Instance map_DocStore : DocStore (gmap N string) := {
  add_value s v d := <[s := v]> d;
  get_value s d := default "" (d !! s);
}.
#[export] Instance map_DocStoreLaws : DocStoreLaws (gmap N string).
Proof.
  split. intros s s' v d. cbn. case_decide as H; [subst; by rewrite lookup_insert_eq|].
  by rewrite lookup_insert_ne.
Qed.

Definition example_values : DocumentValues :=
  DocumentValues_add 1 "b" (DocumentValues_add 1 "a" (mkDocumentValues ∅ ∅)).

Lemma docvalues_stored_witness :
  sound_values example_values ∧
  ∃ doc', DocumentValues_apply true example_values (∅ : gmap N string) = (doc', Ok ()) ∧
    (∀ s v dec, entries example_values !! s = Some v → SlotDecoder_create s (encoding v) = Some dec →
       read_slot dec doc' = Ok (read_back (encoding v) (values v))) ∧
    (∀ s, entries example_values !! s = None → get_value s doc' = get_value s (∅ : gmap N string)).
Proof.
  assert (H : sound_values example_values).
  { assert (He : entries example_values = {[1%N := mkDocumentValue ENC_VINT_LENGTHS {["a"; "b"]}]})
      by (vm_compute; reflexivity).
    intros s v. rewrite He. intros [<- <-]%lookup_singleton_Some x Hx. cbn in Hx.
    assert (Hx' : x = "a" ∨ x = "b") by set_solver. by destruct Hx' as [->| ->]. }
  exact (conj H (docvalues_stored true example_values (∅ : gmap N string) H)).
Defined.

(** ** Operations as operations on sets *)

Inductive values_op : Type :=
| VSetFormat (s : N) (e : ValueEncoding)
| VAdd (s : N) (x : string)
| VRemove (s : N) (x : string).

Definition run_values_op (d : DocumentValues) (o : values_op) : DocumentValues :=
  match o with
  | VSetFormat s e => DocumentValues_set_slot_format s e d
  | VAdd s x => DocumentValues_add s x d
  | VRemove s x => DocumentValues_remove s x d
  end.

(** The specification: a set of values for every slot, the format requested for
    it, and the encoding in use while it has values. *)
Record slot_spec := mkSlotSpec {
  contents : gset string;
  format : ValueEncoding;
  in_use : ValueEncoding;
}.

Definition spec_op (s : N) (a : slot_spec) (o : values_op) : slot_spec :=
  match o with
  | VSetFormat s' e => if decide (s' = s) then mkSlotSpec (contents a) e (in_use a) else a
  | VAdd s' x => if decide (s' = s)
      then mkSlotSpec ({[x]} ∪ contents a) (format a)
             (if decide (contents a = ∅) then format a else in_use a)
      else a
  | VRemove s' x => if decide (s' = s) then mkSlotSpec (contents a ∖ {[x]}) (format a) (in_use a) else a
  end.

Definition slot_rel (s : N) (d : DocumentValues) (a : slot_spec) : Prop :=
  default ENC_VINT_LENGTHS (formats d !! s) = format a ∧
  match entries d !! s with
  | None => contents a = ∅
  | Some v => contents a ≠ ∅ ∧ v = mkDocumentValue (in_use a) (contents a)
  end.

Lemma slot_rel_step s d a o :
  slot_rel s d a → slot_rel s (run_values_op d o) (spec_op s a o).
Proof.
  intros [Hf He]. destruct o as [s' e|s' x|s' x]; cbn [run_values_op spec_op].
  - unfold slot_rel, DocumentValues_set_slot_format. cbn. case_decide as Hs.
    + subst. by rewrite lookup_insert_eq.
    + by rewrite lookup_insert_ne.
  - unfold slot_rel, DocumentValues_add. cbn [entries formats]. case_decide as Hs.
    + subst. rewrite lookup_insert_eq. split; [done|]. cbn [contents in_use].
      destruct (entries d !! s) as [v|].
      * destruct He as [Hne ->]. rewrite decide_False by done. split; [set_solver|done].
      * rewrite He, decide_True, Hf by done. split; [set_solver|done].
    + rewrite lookup_insert_ne by done. done.
  - unfold slot_rel, DocumentValues_remove. case_decide as Hs; [subst|].
    + destruct (entries d !! s) as [v|] eqn:E.
      * destruct He as [Hne ->]. cbn. unfold DocumentValue_empty. cbn. split; [done|].
        case_bool_decide as Hz; [by rewrite lookup_delete_eq|by rewrite lookup_insert_eq].
      * rewrite E. cbn. rewrite He. set_solver.
    + destruct (entries d !! s') as [v'|]; [|done]. cbn.
      destruct (DocumentValue_empty _); [by rewrite lookup_delete_ne|by rewrite lookup_insert_ne].
Qed.

(** C31: the slots of a [DocumentValues] refine independent sets.  After any
    sequence of operations on a new object, a slot has an entry exactly when its
    set is not empty; the entry holds exactly that set, in the format requested
    for the slot when its first value was added (a later change of format does
    not apply to it). *)
Theorem docvalues_refine_sets ops s :
  let a := foldl (spec_op s) (mkSlotSpec ∅ ENC_VINT_LENGTHS ENC_VINT_LENGTHS) ops in
  let d := foldl run_values_op (mkDocumentValues ∅ ∅) ops in
  entries d !! s =
    (if decide (contents a = ∅) then None else Some (mkDocumentValue (in_use a) (contents a))) ∧
  DocumentValues_empty s d = bool_decide (contents a = ∅).
Proof.
  intros a d. assert (H : slot_rel s d a).
  { subst a d. assert (Hg : ∀ ops d a, slot_rel s d a →
      slot_rel s (foldl run_values_op d ops) (foldl (spec_op s) a ops)).
    { induction ops0 as [|o ops0 IH]; intros d0 a0 H0; [done|]. apply IH. by apply slot_rel_step. }
    by apply Hg. }
  destruct H as [_ He]. unfold DocumentValues_empty, DocumentValue_empty.
  destruct (entries d !! s) as [v|].
  - destruct He as [Hne ->]. rewrite decide_False by done. split; [done|].
    cbn. done.
  - rewrite He. by rewrite decide_True, bool_decide_true.
Qed.

(** A decoder reads any stored bytes to the end.  For every encoding and
    every value read from a document, valid or not, the loop over the decoder
    ends, returning values or throwing an unserialisation error. *)
Theorem read_slot_total `{!DocStore Doc} (dec : SlotDecoder) (doc : Doc) :
  match read_slot dec doc with
  | Ok _ => True
  | Throw e => ∃ msg, e = UnserialisationError msg
  | OutOfFuel => False
  end.
Proof.
  unfold read_slot, SlotDecoder_newdoc. generalize (get_value (slot dec) doc). intros v.
  destruct (kind dec).
  2:{ cbn. done. }
  - assert (H : ∀ fuel b v0 p, String.length p < fuel →
      match decode_all fuel (mkSlotDecoder (slot dec) ENC_VINT_LENGTHS v0 b p) with
      | Ok _ => True | Throw e => ∃ msg, e = UnserialisationError msg | OutOfFuel => False end);
      [|apply H; lia].
    induction fuel as [|fuel IH]; intros b v0 p Hf; [lia|]. cbn [decode_all].
    unfold SlotDecoder_next. cbn [kind pos slot value read].
    destruct (str_size p =? 0)%N; [done|]. pose proof (decode_string_spec p) as Hd.
    unfold decode_string in Hd. destruct (rsp_decode_length p true) as [[len q]|e|]; cbn in Hd |- *; [|done..].
    destruct Hd as [Hlt _]. specialize (IH b v0 (str_drop (N.to_nat len) q) ltac:(lia)).
    destruct (decode_all fuel _); done.
  - assert (H : ∀ fuel b v0 p, String.length p < fuel →
      match decode_all fuel (mkSlotDecoder (slot dec) ENC_GEOENCODE v0 b p) with
      | Ok _ => True | Throw e => ∃ msg, e = UnserialisationError msg | OutOfFuel => False end);
      [|apply H; lia].
    induction fuel as [|fuel IH]; intros b v0 p Hf; [lia|]. cbn [decode_all].
    unfold SlotDecoder_next. cbn [kind pos slot value read].
    destruct (N.eqb_spec (str_size p) 0); [done|]. destruct (N.ltb_spec (str_size p) 6); [cbn; eauto|].
    unfold read_bytes. assert (Hq : String.length (str_drop (N.to_nat 6) p) < fuel)
      by (rewrite str_drop_length; unfold str_size in *; lia).
    revert Hq. generalize (str_drop (N.to_nat 6) p) (str_take (N.to_nat 6) p). intros q x Hq.
    cbn [mbind res_bind]. specialize (IH b v0 q Hq). destruct (decode_all fuel _); done.
Qed.
