(* ===== verification/Hashing.v ===== *)
(** * Hashes of names and terms

    libs/xapiancommon/hashterm.cc, which shortens long terms by hashing their
    end, and src/jsonxapian/slotname.h and slotname.cc, which number slots by
    hashing their names.  Both compute with [unsigned long], whose width [w]
    depends on the platform. *)

From S2P Require Import Prelude Json.

(** ** Definitions *)

(** [h += (h << 5) + static_cast<unsigned char>( *i)] in [w] bits, from [h = 1]. *)
Definition hash_step (w : N) (h : N) (c : ascii) : N :=
  ((h + (N.shiftl h 5 + ord c)) mod 2 ^ w)%N.
Definition hash_bytes (w : N) (s : string) : N := foldl (hash_step w) 1%N (bytes s).

(** *** hashterm.cc *)

Definition HASH_LEN : N := ((4 * 8 + 5) / 6)%N.

(** [result[j] = ch]. *)
Fixpoint str_set (j : nat) (ch : ascii) (s : string) : option string :=
  match s, j with
  | EmptyString, _ => None
  | String _ s, O => Some (String ch s)
  | String c s, S j => String c <$> str_set j ch s
  end.

(** The [while (h != 0)] loop of [hash_string]. *)
Fixpoint hash_string_loop (fuel : nat) (h : N) (j : nat) (result : string) : res string :=
  if (h =? 0)%N then Ok result
  else match fuel with
  | O => OutOfFuel
  | S fuel =>
      let ch := chr (N.land h 63 + 33) in
      match str_set j ch result with
      | None => throw UndefinedBehaviour
      | Some result => hash_string_loop fuel (N.shiftr h 6) (S j) result
      end
  end.

Definition hash_string (w : N) (s : string) : res string :=
  let h := N.land (hash_bytes w s) 0xffffffff in
  hash_string_loop 6 h 0 (str_repeat (N.to_nat HASH_LEN) " "%char).

Definition hash_long_term (w : N) (term : string) (max_length : N) : res string :=
  if (str_size term <=? max_length)%N then Ok term
  else
    let max_length := if (max_length <? HASH_LEN)%N then 0%N else (max_length - HASH_LEN)%N in
    h ← hash_string w (str_drop (N.to_nat max_length) term);
    Ok (str_take (N.to_nat max_length) term +:+ h).

(** *** slotname.h, slotname.cc *)

Definition max_explicit_slot_num : N := 0x0fffffff.
(** The result is an [unsigned long] converted to the 32 bits of a slot number. *)
Definition hash_slot (w : N) (slotname : string) : N :=
  if (str_size slotname =? 0)%N then BAD_VALUENO
  else wrap32 ((max_explicit_slot_num + 1 + N.land (hash_bytes w slotname) 0xefffffff) mod 2 ^ w).

Record SlotName := mkSlotName { slot_name : string; slot_num : N }.

Definition SlotName_default : SlotName := mkSlotName "" BAD_VALUENO.
Definition SlotName_of_num (slotnum : N) : SlotName := mkSlotName "" (wrap32 slotnum).
Definition SlotName_of_string (w : N) (slotname : string) : SlotName :=
  mkSlotName slotname (hash_slot w slotname).

Definition SlotName_of_json (w : N) (value : json) : res SlotName :=
  if isNull value then Ok (mkSlotName "" BAD_VALUENO)
  else if isIntegral value then
    if lt_Int value 0 then throw (InvalidValueError "Value for slot number was negative")
    else if gt_UInt64 value 0xffffffff
    then throw (InvalidValueError ("Value for slot number was larger than maximum allowed ("
           +:+ valueToString 0xffffffff +:+ ")"))
    else num ← asUInt value; Ok (mkSlotName "" num)
  else if isString value then
    name ← asString value; Ok (mkSlotName name (hash_slot w name))
  else throw (InvalidValueError "Value for slot number was not an integer or a string.").

Definition SlotName_to_json (value : json) (slotname : string) (s : SlotName) : json :=
  if (str_size (slot_name s) =? 0)%N then
    if (slot_num s =? BAD_VALUENO)%N then value
    else json_set value slotname (JUInt (slot_num s))
  else json_set value slotname (jstr (slot_name s)).

Definition SlotName_get (s : SlotName) : N := slot_num s.

(** ** The hash does not depend on the width of a word *)

Lemma pow_divide a b : (a <= b)%N → (2 ^ a | 2 ^ b)%N.
Proof. intros H. exists (2 ^ (b - a))%N. rewrite <-N.pow_add_r. f_equal. lia. Qed.

Lemma mod_mod_pow x a b : (a <= b)%N → ((x mod 2 ^ b) mod 2 ^ a = x mod 2 ^ a)%N.
Proof.
  intros H. destruct (pow_divide a b H) as [k Hk].
  rewrite (N.Div0.div_mod x (2 ^ b)) at 2. rewrite Hk at 2.
  replace (k * 2 ^ a * (x / 2 ^ b))%N with (k * (x / 2 ^ b) * 2 ^ a)%N by lia.
  by rewrite N.add_comm, N.Div0.mod_add.
Qed.

Lemma hash_step_mod w h h' c :
  (32 <= w)%N → (h mod 2 ^ 32 = h' mod 2 ^ 32)%N →
  (hash_step w h c mod 2 ^ 32 = hash_step 32 h' c mod 2 ^ 32)%N.
Proof.
  intros Hw Hh. unfold hash_step. rewrite !mod_mod_pow by lia. rewrite !N.shiftl_mul_pow2.
  replace (h + (h * 2 ^ 5 + ord c))%N with (33 * h + ord c)%N by lia.
  replace (h' + (h' * 2 ^ 5 + ord c))%N with (33 * h' + ord c)%N by lia.
  rewrite (N.Div0.add_mod (33 * h)), (N.Div0.add_mod (33 * h')).
  by rewrite (N.Div0.mul_mod 33 h), (N.Div0.mul_mod 33 h'), Hh.
Qed.

Lemma hash_bytes_mod w s : (32 <= w)%N → (hash_bytes w s mod 2 ^ 32 = hash_bytes 32 s mod 2 ^ 32)%N.
Proof.
  intros Hw. unfold hash_bytes.
  assert (H : ∀ l h h', (h mod 2 ^ 32 = h' mod 2 ^ 32)%N →
    (foldl (hash_step w) h l mod 2 ^ 32 = foldl (hash_step 32) h' l mod 2 ^ 32)%N); [|by apply H].
  induction l as [|c l IH]; intros h h' Hh; [done|]. apply IH. by apply hash_step_mod.
Qed.

(** A mask of the low 32 bits only sees those bits. *)
Lemma land_low h m k : (m < 2 ^ k)%N → N.land h m = N.land (h mod 2 ^ k) m.
Proof.
  intros Hm. apply N.bits_inj. intros i. rewrite !N.land_spec.
  destruct (N.lt_ge_cases i k) as [Hi|Hi].
  - by rewrite N.mod_pow2_bits_low.
  - destruct (N.eq_dec m 0) as [->|Hz]; [by rewrite !N.bits_0, !andb_false_r|].
    rewrite (N.bits_above_log2 m i), !andb_false_r; [done|].
    apply N.log2_lt_pow2; [lia|]. eapply N.lt_le_trans; [exact Hm|]. by apply N.pow_le_mono_r.
Qed.

Lemma land_hash w s m : (32 <= w)%N → (m < 2 ^ 32)%N →
  N.land (hash_bytes w s) m = N.land (hash_bytes 32 s) m.
Proof.
  intros Hw Hm. rewrite (land_low (hash_bytes w s) m 32), (land_low (hash_bytes 32 s) m 32) by done.
  by rewrite hash_bytes_mod.
Qed.

Lemma land_le a m : (N.land a m <= m)%N.
Proof.
  apply N.ldiff_le, N.bits_inj. intros i. rewrite N.ldiff_spec, N.land_spec, N.bits_0.
  by destruct (N.testbit a i), (N.testbit m i).
Qed.

(** ** Hashed terms *)

Lemma str_set_ok j ch s : j < String.length s →
  ∃ s', str_set j ch s = Some s' ∧ String.length s' = String.length s ∧
        (∀ P : ascii → Prop, P ch → Forall P (bytes s) → Forall P (bytes s')).
Proof.
  revert j. induction s as [|c s IH]; intros j Hj; cbn in Hj; [lia|]. destruct j as [|j]; cbn.
  - eexists. split_and!; [done..|]. intros P Hch Hs. apply Forall_cons in Hs as [_ Hs].
    by constructor.
  - destruct (IH j ltac:(lia)) as (s' & -> & Hlen & Hall). cbn. eexists. split_and!; [done|cbn; lia|].
    intros P Hch Hs. apply Forall_cons in Hs as [Hc Hs]. constructor; [done|]. by apply Hall.
Qed.

(** The characters of a hash are printable. *)
Definition hash_char (c : ascii) : Prop := (32 <= ord c <= 96)%N.

Lemma hash_string_loop_ok k : ∀ h j r,
  (h < 2 ^ (6 * N.of_nat k))%N → j + k = String.length r → Forall hash_char (bytes r) →
  ∃ r', hash_string_loop k h j r = Ok r' ∧ String.length r' = String.length r ∧
        Forall hash_char (bytes r').
Proof.
  induction k as [|k IH]; intros h j r Hh Hj Hr; cbn [hash_string_loop].
  - change (2 ^ (6 * N.of_nat 0))%N with 1%N in Hh.
    destruct (N.eqb_spec h 0); [eauto|lia].
  - destruct (N.eqb_spec h 0); [eauto|].
    destruct (str_set_ok j (chr (N.land h 63 + 33)) r ltac:(lia)) as (r1 & -> & Hlen & Hall).
    destruct (IH (N.shiftr h 6) (S j) r1) as (r' & -> & Hl & Hc).
    + rewrite N.shiftr_div_pow2. apply N.Div0.div_lt_upper_bound. rewrite <-N.pow_add_r.
      by replace (6 + 6 * N.of_nat k)%N with (6 * N.of_nat (S k))%N by lia.
    + lia.
    + apply Hall; [|done]. pose proof (land_le h 63). unfold hash_char. rewrite ord_chr by lia. lia.
    + exists r'. split_and!; [done|congruence|done].
Qed.

Lemma hash_string_ok w s : (32 <= w)%N →
  ∃ r, hash_string w s = Ok r ∧ str_size r = HASH_LEN ∧ Forall hash_char (bytes r) ∧
       hash_string 32 s = Ok r.
Proof.
  intros Hw. unfold hash_string. rewrite (land_hash w s 0xffffffff) by (done || lia).
  destruct (hash_string_loop_ok 6 (N.land (hash_bytes 32 s) 0xffffffff) 0
    (str_repeat (N.to_nat HASH_LEN) " "%char)) as (r & Hok & Hlen & Hc).
  - eapply N.le_lt_trans; [apply land_le|]. reflexivity.
  - reflexivity.
  - repeat constructor; vm_compute; discriminate.
  - exists r. unfold str_size. rewrite Hlen. done.
Qed.

Lemma str_take_take_app n s t : n ≤ String.length s → str_take n (str_take n s +:+ t) = str_take n s.
Proof.
  intros H. rewrite <-(str_take_app (str_take n s) t) at 2. rewrite str_take_length.
  by rewrite Nat.min_l.
Qed.

(** Shortening long terms.  A term within the limit is kept; a longer one
    becomes its first [max_length - 6] bytes and a six-character printable hash of
    the rest, so the result has exactly [max_length] bytes when the limit leaves
    room for the hash -- and six bytes, above the limit, when it does not.  The
    loop ends within the six characters and the result is the same on every
    platform. *)
Theorem hash_long_term_spec w term max_length : (32 <= w)%N →
  ∃ r, hash_long_term w term max_length = Ok r ∧ hash_long_term 32 term max_length = Ok r ∧
    (str_size term <= max_length → r = term)%N ∧
    (max_length < str_size term →
       str_size r = N.max max_length HASH_LEN ∧
       ∃ h, r = str_take (N.to_nat (max_length - HASH_LEN)) term +:+ h ∧
            str_size h = HASH_LEN ∧ Forall hash_char (bytes h))%N.
Proof.
  intros Hw. unfold hash_long_term.
  destruct (N.leb_spec (str_size term) max_length) as [Hle|Hgt].
  { exists term. split_and!; [done..|]. lia. }
  set (k := if (max_length <? HASH_LEN)%N then 0%N else (max_length - HASH_LEN)%N).
  assert (Hk : k = (max_length - HASH_LEN)%N).
  { unfold k. destruct (N.ltb_spec max_length HASH_LEN); lia. }
  destruct (hash_string_ok w (str_drop (N.to_nat k) term) Hw) as (h & Hh & Hlen & Hc & Hh32).
  rewrite Hh, Hh32. cbn [mbind res_bind]. eexists. split_and!; [done..|lia|].
  intros _. split; [|exists h; by rewrite Hk].
  rewrite str_size_app, Hlen. unfold str_size at 1. rewrite str_take_length.
  unfold str_size in Hgt. rewrite Hk. change HASH_LEN with 6%N. lia.
Qed.

Lemma hash_long_term_spec_witness :
  (32 <= 64)%N ∧
  ∃ r, hash_long_term 64 "a long term" 8 = Ok r ∧ hash_long_term 32 "a long term" 8 = Ok r ∧
    (str_size "a long term" <= 8 → r = "a long term")%N ∧
    (8 < str_size "a long term" →
       str_size r = N.max 8 HASH_LEN ∧
       ∃ h, r = str_take (N.to_nat (8 - HASH_LEN)) "a long term" +:+ h ∧
            str_size h = HASH_LEN ∧ Forall hash_char (bytes h))%N.
Proof.
  assert (H : (32 <= 64)%N) by lia.
  exact (conj H (hash_long_term_spec 64 "a long term" 8 H)).
Defined.

(** ** Slot numbers *)

Lemma hash_slot_eq w s : (32 <= w)%N → (str_size s ≠ 0)%N →
  hash_slot w s = (2 ^ 28 + N.land (hash_bytes 32 s) 0xefffffff)%N.
Proof.
  intros Hw Hs. unfold hash_slot. destruct (N.eqb_spec (str_size s) 0); [done|].
  rewrite (land_hash w s 0xefffffff) by (done || lia).
  pose proof (land_le (hash_bytes 32 s) 0xefffffff) as Hle.
  assert (Hb : (2 ^ 28 + N.land (hash_bytes 32 s) 0xefffffff < 2 ^ 32)%N)
    by (eapply N.le_lt_trans; [apply N.add_le_mono_l; exact Hle|]; reflexivity).
  change (max_explicit_slot_num + 1)%N with (2 ^ 28)%N. unfold wrap32.
  rewrite mod_mod_pow by done. by apply N.mod_small.
Qed.

(** Slot numbers from names.  The number of a named slot is the same on every
    platform, always has bit 28 set and so lies above every explicit slot number
    up to [max_explicit_slot_num], and fits a slot number; an empty name is no
    slot.  (Nothing keeps a hash from being [BAD_VALUENO].) *)
Theorem hash_slot_range w s : (32 <= w)%N →
  hash_slot w s = hash_slot 32 s ∧
  (str_size s = 0 → hash_slot w s = BAD_VALUENO)%N ∧
  (str_size s ≠ 0 → max_explicit_slot_num < hash_slot w s <= BAD_VALUENO ∧
                    N.testbit (hash_slot w s) 28 = true)%N.
Proof.
  intros Hw. destruct (N.eq_dec (str_size s) 0) as [Hz|Hz].
  { unfold hash_slot. rewrite Hz. done. }
  rewrite !hash_slot_eq by (done || lia). split; [done|]. split; [done|]. intros _.
  pose proof (land_le (hash_bytes 32 s) 0xefffffff) as Hle. split.
  - unfold max_explicit_slot_num, BAD_VALUENO. change (2 ^ 28)%N with 0x10000000%N. lia.
  - assert (Hl : N.land (2 ^ 28) (N.land (hash_bytes 32 s) 0xefffffff) = 0%N).
    { rewrite (N.land_comm (hash_bytes 32 s)), N.land_assoc. done. }
    rewrite N.add_nocarry_lxor, N.lxor_spec, N.land_spec by done.
    change (N.testbit 0xefffffff 28) with false. by rewrite andb_false_r.
Qed.

Lemma hash_slot_range_witness :
  (32 <= 64)%N ∧ hash_slot 64 "title" = hash_slot 32 "title" ∧
  (str_size "title" = 0 → hash_slot 64 "title" = BAD_VALUENO)%N ∧
  (str_size "title" ≠ 0 → max_explicit_slot_num < hash_slot 64 "title" <= BAD_VALUENO ∧
                    N.testbit (hash_slot 64 "title") 28 = true)%N.
Proof.
  assert (H : (32 <= 64)%N) by lia. exact (conj H (hash_slot_range 64 "title" H)).
Defined.

(** The slots the constructors make. *)
Definition slot_wf (w : N) (s : SlotName) : Prop :=
  if decide (slot_name s = "") then (slot_num s <= BAD_VALUENO)%N
  else slot_num s = hash_slot w (slot_name s).

(** Configuration round trip.  Writing a slot into an object that has no
    member of that name, and reading the member back, gives the same slot: an
    absent one, an explicit number or a name with its hash. *)
Theorem slotname_json_roundtrip w s m key :
  slot_wf w s → c_str (slot_name s) = slot_name s → obj_find (c_str key) m = None →
  ∃ v, json_index (SlotName_to_json (JObj m) key s) key = Ok v ∧ SlotName_of_json w v = Ok s.
Proof.
  intros Hwf Hc Hm. destruct s as [name num]. unfold slot_wf, SlotName_to_json in *.
  cbn [slot_name slot_num] in *.
  assert (Hset : ∀ x, json_index (json_set (JObj m) key x) key = Ok x).
  { intros x. unfold json_index, json_get, json_member. cbn. rewrite obj_find_set.
    by rewrite decide_True. }
  destruct name as [|c name].
  - change (str_size "" =? 0)%N with true. destruct (N.eqb_spec num BAD_VALUENO) as [->|Hne].
    + eexists. unfold json_index, json_get, json_member. rewrite Hm. done.
    + exists (JUInt num). split; [apply Hset|]. rewrite decide_True in Hwf by done.
      unfold SlotName_of_json. cbn. unfold BAD_VALUENO in *.
      destruct (N.ltb_spec 0xffffffff num); [lia|]. unfold asUInt.
      unfold maxUInt. destruct (Z.ltb_spec 4294967295 (Z.of_N num)); [lia|done].
  - rewrite decide_False in Hwf by done. exists (jstr (String c name)). split; [apply Hset|].
    unfold jstr. rewrite Hc. cbn. by rewrite Hwf.
Qed.

Lemma slotname_json_roundtrip_witness :
  slot_wf 64 (SlotName_of_string 64 "title") ∧
  c_str "title" = "title" ∧ obj_find (c_str "slot") [] = None ∧
  ∃ v, json_index (SlotName_to_json (JObj []) "slot" (SlotName_of_string 64 "title")) "slot" = Ok v ∧
       SlotName_of_json 64 v = Ok (SlotName_of_string 64 "title").
Proof.
  assert (H : slot_wf 64 (SlotName_of_string 64 "title")) by reflexivity.
  exact (conj H (conj eq_refl (conj eq_refl
    (slotname_json_roundtrip 64 (SlotName_of_string 64 "title") [] "slot" H eq_refl eq_refl)))).
Defined.
