(* ===== verification/TextUtils.v ===== *)
(** * Text utilities and validation of names

    src/utils/utils.cc (URL quoting), src/utils/stringutils.h (prefixes, suffixes,
    joining, escaping) and src/utils/validation.cc (the names the server accepts). *)

From stdpp Require Import pretty.
From S2P Require Import Prelude.

(** ** Definitions *)

Definition in_span (lo hi c : ascii) : bool := ((ord lo <=? ord c) && (ord c <=? ord hi))%N.
Definition is_digit (c : ascii) : bool := in_span "0" "9" c.
Definition is_alnum (c : ascii) : bool := is_digit c || in_span "A" "Z" c || in_span "a" "z" c.

(** ["0123456789abcdef" [n]]. *)
Definition hex_digit (n : N) : ascii :=
  if (n <? 10)%N then chr (ord "0" + n) else chr (ord "a" + (n - 10)).

(** [char] is signed: for a byte above 127 [isalnum] has no meaning and the
    indices [ch / 16] and [ch % 16] are negative or zero. *)
Definition url_plain (c : ascii) : bool :=
  is_alnum c || bool_decide (c = "_"%char) || bool_decide (c = "-"%char) || bool_decide (c = "."%char).

Fixpoint urlquote (value : string) : res string :=
  match value with
  | EmptyString => Ok ""
  | String ch rest =>
      if (127 <? ord ch)%N then throw UndefinedBehaviour
      else
        q ← urlquote rest;
        if url_plain ch then Ok (String ch q)
        else Ok (String "%" (String (hex_digit (ord ch / 16)) (String (hex_digit (ord ch mod 16)) q)))
  end.

Definition hex_to_int (ch : ascii) : N :=
  if is_digit ch then ord ch - ord "0"
  else if in_span "A" "F" ch then ord ch - ord "A"
  else if in_span "a" "f" ch then ord ch - ord "a"
  else 0.

(** Both [ch1] and [ch2] are [value[i + 1]]. *)
Fixpoint urlunquote (value : string) : string :=
  match value with
  | EmptyString => ""
  | String ch rest =>
      if decide (ch = "%"%char) then
        match rest with
        | String a (String _ rest') => String (chr (hex_to_int a * 16 + hex_to_int a)) (urlunquote rest')
        | _ => value
        end
      else String ch (urlunquote rest)
  end.

Definition string_startswith (text start : string) : bool :=
  if (str_size text <? str_size start)%N then false
  else bool_decide (str_take (String.length start) text = start).

Definition string_endswith (text ending : string) : bool :=
  if (str_size text <? str_size ending)%N then false
  else bool_decide (str_drop (String.length text - String.length ending) text = ending).

Definition string_join (separator : string) (l : list string) : string :=
  (foldl (λ (st : string * bool) x,
     let '(result, need_sep) := st in
     ((if need_sep then result +:+ separator else result) +:+ x, true)) ("", false) l).1.

(** *** str.cc *)

(** [str(n)] for an unsigned [n]: its decimal digits. *)
Definition str_unsigned (n : N) : string := pretty n.

#[export] Instance str_unsigned_inj : Inj (=) (=) str_unsigned.
Proof. unfold str_unsigned. apply _. Qed.

(** *** Escapes *)

(** The bytes [hexesc] writes for a byte. *)
Definition hexesc_char (ch : ascii) : string :=
  if decide (ch = "\"%char) then "\\"
  else if decide (ch = chr 9) then "\t"
  else if decide (ch = chr 10) then "\n"
  else if decide (ch = chr 13) then "\r"
  else if ((32 <=? ord ch) && (ord ch <=? 127))%N then sing ch
  else String "\" (String "x" (String (hex_digit (N.shiftr (N.land (ord ch) 0xf0) 4))
                                 (sing (hex_digit (N.land (ord ch) 0x0f))))).

Definition hexesc (input : string) : string := str_concat (hexesc_char <$> bytes input).

(** *** Validation *)

(** The bytes rejected by the [switch] statements. *)
Definition bad_char (ch : ascii) : bool :=
  ((ord ch <=? 31)%N || bool_decide (ch ∈ [":"; "/"; "\"; "."; ","; "["; "]"; "{"; "}"]%char)).

Fixpoint validate_chars (what value : string) : string :=
  match value with
  | EmptyString => ""
  | String ch rest =>
      if bad_char ch then "Invalid character (" +:+ hexesc (sing ch) +:+ ") in " +:+ what
      else validate_chars what rest
  end.

Definition validate_collname (value : string) : string :=
  match value with
  | EmptyString => "Invalid empty collection name"
  | _ => validate_chars "collection name" value
  end.
Definition validate_doc_type (value : string) : string :=
  match value with
  | EmptyString => "Invalid empty document type name"
  | _ => validate_chars "document type" value
  end.
Definition validate_doc_id (value : string) : string :=
  match value with
  | EmptyString => "Invalid empty document ID"
  | _ => validate_chars "document ID" value
  end.
Definition validate_catid (value : string) : string :=
  match value with
  | EmptyString => "Invalid empty category identifier"
  | _ => validate_chars "category identifier" value
  end.

Definition throw_if_error (error : string) : res () :=
  match error with EmptyString => Ok () | _ => throw (InvalidValueError error) end.
Definition validate_collname_throw (value : string) : res () := throw_if_error (validate_collname value).
Definition validate_catid_throw (value : string) : res () := throw_if_error (validate_catid value).

(** ** Lemmas *)

(** A fact about every byte, checked byte by byte. *)
Lemma all_bytes (P : ascii → bool) :
  forallb (λ n, P (chr (N.of_nat n))) (seq 0 256) = true → ∀ c, P c = true.
Proof.
  intros H c. rewrite forallb_forall in H. specialize (H (N.to_nat (ord c))).
  rewrite N2Nat.id, chr_ord in H. apply H, in_seq. pose proof (ord_bound c). lia.
Qed.

Lemma bytes_cons c s : bytes (String c s) = c :: bytes s.
Proof. reflexivity. Qed.

Lemma validate_chars_ok what value : validate_chars what value = "" ↔ Forall (λ c, bad_char c = false) (bytes value).
Proof.
  induction value as [|c value IH]; [by split; [constructor|]|]. rewrite bytes_cons, Forall_cons, <-IH. cbn.
  destruct (bad_char c); [|tauto]. split; [done|]. by intros [? _].
Qed.

(** The error names the first byte that is rejected. *)
Lemma validate_chars_error what value pre c post :
  value = pre +:+ String c post → Forall (λ c, bad_char c = false) (bytes pre) → bad_char c = true →
  validate_chars what value = "Invalid character (" +:+ hexesc (sing c) +:+ ") in " +:+ what.
Proof.
  intros -> Hpre Hc. induction pre as [|d pre IH]; rewrite ?str_app_nil_l, ?str_app_cons; cbn [validate_chars].
  - by rewrite Hc.
  - rewrite bytes_cons in Hpre. apply Forall_cons in Hpre as [-> Hpre]. by apply IH.
Qed.

(** A decoder of [hexesc], which shows that nothing is lost. *)
Definition unhex (c : ascii) : N := if is_digit c then ord c - ord "0" else ord c - ord "a" + 10.
Fixpoint unhexesc (s : string) : string :=
  match s with
  | String a r =>
      if decide (a = "\"%char) then
        match r with
        | String b r =>
            if decide (b = "\"%char) then String b (unhexesc r)
            else if decide (b = "t"%char) then String (chr 9) (unhexesc r)
            else if decide (b = "n"%char) then String (chr 10) (unhexesc r)
            else if decide (b = "r"%char) then String (chr 13) (unhexesc r)
            else match r with
                 | String h (String l r) => String (chr (unhex h * 16 + unhex l)) (unhexesc r)
                 | _ => s
                 end
        | _ => s
        end
      else String a (unhexesc r)
  | EmptyString => ""
  end.

(** What an escaped byte looks like, with its decoding. *)
Definition escape_ok (c : ascii) : bool :=
  match hexesc_char c with
  | String a EmptyString => bool_decide (a = c) && negb (bool_decide (a = "\"%char))
  | String a (String b EmptyString) => bool_decide (a = "\"%char) &&
      (bool_decide (b = "\"%char ∧ c = "\"%char) || bool_decide (b = "t"%char ∧ c = chr 9) ||
       bool_decide (b = "n"%char ∧ c = chr 10) || bool_decide (b = "r"%char ∧ c = chr 13))
  | String a (String b (String h (String l EmptyString))) => bool_decide (a = "\"%char ∧ b = "x"%char) &&
      bool_decide (chr (unhex h * 16 + unhex l) = c)
  | _ => false
  end.

Lemma escape_ok_all c : escape_ok c = true.
Proof. apply all_bytes. by vm_compute. Qed.

Lemma unhexesc_char c s : unhexesc (hexesc_char c +:+ s) = String c (unhexesc s).
Proof.
  pose proof (escape_ok_all c) as H. unfold escape_ok in H.
  destruct (hexesc_char c) as [|a [|b [|h [|l [|]]]]]; try done; autorewrite with rpstr in *.
  - apply andb_true_iff in H as [->%bool_decide_eq_true H]. apply negb_true_iff, bool_decide_eq_false in H.
    cbn. by rewrite decide_False.
  - apply andb_true_iff in H as [->%bool_decide_eq_true H]. cbn -[decide chr].
    rewrite !orb_true_iff, !bool_decide_eq_true in H.
    by destruct H as [[[[-> ->]|[-> ->]]|[-> ->]]|[-> ->]].
  - apply andb_true_iff in H as [[-> ->]%bool_decide_eq_true H%bool_decide_eq_true].
    cbn -[decide chr unhex]. by rewrite H.
Qed.

Lemma unhexesc_hexesc s : unhexesc (hexesc s) = s.
Proof.
  unfold hexesc. induction s as [|c s IH]; [done|]. rewrite bytes_cons. cbn.
  fold (str_concat (hexesc_char <$> bytes s)). by rewrite unhexesc_char, IH.
Qed.

Lemma hexesc_char_printable c d : d ∈ bytes (hexesc_char c) → (32 <= ord d <= 127)%N.
Proof.
  assert (H : forallb (λ d, (32 <=? ord d) && (ord d <=? 127))%N (bytes (hexesc_char c)) = true).
  { apply (all_bytes (λ c, forallb _ (bytes (hexesc_char c)))). by vm_compute. }
  rewrite forallb_forall in H. intros Hd%list_elem_of_In%H. cbn beta in Hd. by rewrite andb_true_iff, !N.leb_le in Hd.
Qed.

Lemma bytes_concat l : bytes (str_concat l) = concat (bytes <$> l).
Proof.
  assert (Happ : ∀ s t, bytes (s +:+ t) = bytes s ++ bytes t).
  { induction s as [|c s IH]; intros t; autorewrite with rpstr; [done|]. by rewrite !bytes_cons, IH. }
  induction l as [|s l IH]; [done|]. cbn. fold (str_concat l). by rewrite Happ, IH.
Qed.

(** Prefixes and suffixes. *)
Lemma string_startswith_spec text start : string_startswith text start = true ↔ ∃ r, text = start +:+ r.
Proof.
  unfold string_startswith. destruct (N.ltb_spec (str_size text) (str_size start)) as [Hl|Hl].
  - split; [done|]. intros [r ->]. rewrite str_size_app in Hl. lia.
  - rewrite bool_decide_eq_true. split.
    + intros H. exists (str_drop (String.length start) text). rewrite <-H at 1. by rewrite str_take_drop.
    + intros [r ->]. apply str_take_app.
Qed.

Lemma string_endswith_spec text ending : string_endswith text ending = true ↔ ∃ r, text = r +:+ ending.
Proof.
  unfold string_endswith. destruct (N.ltb_spec (str_size text) (str_size ending)) as [Hl|Hl].
  - split; [done|]. intros [r ->]. rewrite str_size_app in Hl. lia.
  - rewrite bool_decide_eq_true. split.
    + intros H. exists (str_take (String.length text - String.length ending) text).
      rewrite <-H at 2. by rewrite str_take_drop.
    + intros [r ->]. rewrite str_app_length, Nat.add_sub. apply str_drop_app.
Qed.

(** One quoted byte, unquoted. *)
Definition requoted (c : ascii) : ascii := if url_plain c then c else chr (17 * (ord c / 16)).

Lemma urlunquote_cons c q : (ord c <= 127)%N →
  urlunquote (if url_plain c then String c q
              else String "%" (String (hex_digit (ord c / 16)) (String (hex_digit (ord c mod 16)) q)))
  = String (requoted c) (urlunquote q).
Proof.
  intros Hc. unfold requoted. destruct (url_plain c) eqn:E.
  - cbn. rewrite decide_False; [done|]. intros ->. by vm_compute in E.
  - cbn -[N.div N.modulo hex_digit hex_to_int chr decide]. rewrite decide_True by done. f_equal. f_equal.
    assert (Hd : (ord c / 16 < 8)%N) by (apply N.Div0.div_lt_upper_bound; lia).
    revert Hd. generalize (ord c / 16)%N as d. intros d Hd.
    assert (Hh : forallb (λ n, hex_to_int (hex_digit (N.of_nat n)) =? N.of_nat n)%N (seq 0 8) = true) by done.
    rewrite forallb_forall in Hh. specialize (Hh (N.to_nat d)).
    rewrite N2Nat.id, N.eqb_eq in Hh. rewrite Hh; [lia|]. apply in_seq. lia.
Qed.

Lemma urlquote_spec s :
  match urlquote s with
  | Ok q => Forall (λ c, ord c <= 127)%N (bytes s) ∧ bytes (urlunquote q) = requoted <$> bytes s
  | Throw e => e = UndefinedBehaviour ∧ ¬ Forall (λ c, ord c <= 127)%N (bytes s)
  | OutOfFuel => False
  end.
Proof.
  induction s as [|c s IH]; [by cbn; split; [constructor|]|].
  cbn [urlquote]. rewrite bytes_cons. destruct (N.ltb_spec 127 (ord c)) as [Hc|Hc].
  - split; [done|]. intros [? _]%Forall_cons. lia.
  - destruct (urlquote s) as [q|e|]; cbn [mbind res_bind]; [|rewrite Forall_cons; tauto|done].
    destruct IH as [Hs IH]. pose proof (urlunquote_cons c q Hc) as Hu.
    destruct (url_plain c); cbn beta iota; (split; [by constructor|]); rewrite Hu; cbn; by rewrite <-IH.
Qed.

Lemma bytes_inj s t : bytes s = bytes t → s = t.
Proof.
  intros H. rewrite <-(String.string_of_list_ascii_of_string s), <-(String.string_of_list_ascii_of_string t).
  unfold bytes in H. by rewrite H.
Qed.

(** A name the server accepts. *)
Definition valid_name (value : string) : Prop :=
  value ≠ "" ∧ Forall (λ c, (32 <= ord c)%N ∧ c ∉ [":"; "/"; "\"; "."; ","; "["; "]"; "{"; "}"]%char) (bytes value).

Lemma bad_char_spec c :
  bad_char c = false ↔ (32 <= ord c)%N ∧ c ∉ [":"; "/"; "\"; "."; ","; "["; "]"; "{"; "}"]%char.
Proof.
  unfold bad_char. rewrite orb_false_iff, bool_decide_eq_false, N.leb_gt. split; intros [? ?]; split; lia || done.
Qed.

Lemma validate_with_spec what empty value : empty ≠ "" →
  match value with "" => empty | _ => validate_chars what value end = "" ↔ valid_name value.
Proof.
  intros He. unfold valid_name. destruct value as [|c v]; [split; [done|by intros [? _]]|].
  rewrite validate_chars_ok, (Forall_iff _ _ _ bad_char_spec). split; [done|by intros [_ ?]].
Qed.

Lemma validate_collname_throw_ok value : validate_collname_throw value = Ok () ↔ valid_name value.
Proof.
  unfold validate_collname_throw, throw_if_error, validate_collname.
  rewrite <-(validate_with_spec "collection name" "Invalid empty collection name") by done.
  by destruct (match value with "" => _ | _ => _ end).
Qed.

Lemma validate_catid_throw_ok value : validate_catid_throw value = Ok () ↔ valid_name value.
Proof.
  unfold validate_catid_throw, throw_if_error, validate_catid.
  rewrite <-(validate_with_spec "category identifier" "Invalid empty category identifier") by done.
  by destruct (match value with "" => _ | _ => _ end).
Qed.

(** ** Properties *)

(** Escaping a string for display loses nothing and leaves only the bytes
    from space to delete. *)
Theorem hexesc_injective s t :
  (hexesc s = hexesc t ↔ s = t) ∧ Forall (λ d, 32 <= ord d <= 127)%N (bytes (hexesc s)).
Proof.
  split.
  - split; [|by intros ->]. intros H. by rewrite <-(unhexesc_hexesc s), H, unhexesc_hexesc.
  - apply Forall_forall. intros d. unfold hexesc. rewrite bytes_concat. rewrite <-list_fmap_compose.
    intros (l & Hl%list_elem_of_In & Hd)%list_elem_of_In%in_concat.
    apply list_elem_of_fmap in Hl as (c & -> & _). apply (hexesc_char_printable c). by apply list_elem_of_In.
Qed.

(** URL quoting undone.  Quoting has a meaning exactly for seven-bit strings;
    unquoting gives the string back exactly when each of its bytes needs no
    quoting or has equal hexadecimal digits, since both digits are read from the
    first. *)
Theorem urlquote_roundtrip s :
  match urlquote s with
  | Ok q => Forall (λ c, ord c <= 127)%N (bytes s) ∧
      (urlunquote q = s ↔ Forall (λ c, url_plain c = true ∨ ord c / 16 = ord c mod 16)%N (bytes s))
  | Throw e => e = UndefinedBehaviour ∧ ¬ Forall (λ c, ord c <= 127)%N (bytes s)
  | OutOfFuel => False
  end.
Proof.
  pose proof (urlquote_spec s) as H. destruct (urlquote s) as [q|e|]; [|done..].
  destruct H as [Hs Hq]. split; [done|].
  assert (Hfix : ∀ c, (ord c <= 127)%N → requoted c = c ↔ url_plain c = true ∨ (ord c / 16 = ord c mod 16)%N).
  { intros c Hc. unfold requoted. pose proof (N.div_mod (ord c) 16 ltac:(done)) as Hd.
    destruct (url_plain c); [tauto|]. split.
    - intros He. right. apply (f_equal ord) in He.
      assert (ord c / 16 < 8)%N by (apply N.Div0.div_lt_upper_bound; lia). rewrite ord_chr in He by lia. lia.
    - intros [?|He]; [done|]. apply ord_inj. rewrite <-He in Hd. rewrite ord_chr; lia. }
  assert (Hq' : urlunquote q = s ↔ requoted <$> bytes s = bytes s).
  { rewrite <-Hq. split; [by intros ->|apply bytes_inj]. }
  rewrite Hq'. clear Hq Hq' q. induction Hs as [|c l Hc Hl IH]; [by split; [constructor|]|].
  rewrite fmap_cons, Forall_cons, <-IH, <-(Hfix c Hc). split; [by intros [= -> ->]|by intros [-> ->]].
Qed.

(** Validation of names.  The four validators accept exactly the nonempty
    strings without control bytes and the listed punctuation, so an accepted name
    is a single path component other than "." and ".."; the throwing forms fail
    for exactly the others, with the message. *)
Theorem validate_names value :
  (validate_collname value = "" ↔ valid_name value) ∧ (validate_doc_type value = "" ↔ valid_name value) ∧
  (validate_doc_id value = "" ↔ valid_name value) ∧ (validate_catid value = "" ↔ valid_name value) ∧
  (validate_collname_throw value = Ok () ↔ valid_name value) ∧
  (¬ valid_name value ↔ validate_collname_throw value = throw (InvalidValueError (validate_collname value))) ∧
  (validate_catid_throw value = Ok () ↔ valid_name value).
Proof.
  split_and!; try by apply validate_with_spec.
  - apply validate_collname_throw_ok.
  - rewrite <-validate_collname_throw_ok. unfold validate_collname_throw, throw_if_error.
    by destruct (validate_collname value).
  - apply validate_catid_throw_ok.
Qed.
