(* ===== verification/JsonPath.v ===== *)
(** * Paths in JSON documents, conditions on them and the walk over them

    src/jsonmanip/jsonpath.h, jsonpath.cc, conditionals.h and conditionals.cc.  A
    component of a path is a key or an index; the other member of the structure is left
    over from an earlier use and is not read. *)

From Stdlib Require Import SpecFloat.
From S2P Require Import Prelude Json.

(** ** Paths *)

Inductive JSONPathComponent := JSONPATH_KEY (key : string) | JSONPATH_INDEX (index : N).

#[export] Instance JSONPathComponent_eq_dec : EqDecision JSONPathComponent.
Proof. solve_decision. Defined.

(** [operator<]: keys before indices. *)
Definition component_lt (a b : JSONPathComponent) : Prop :=
  match a, b with
  | JSONPATH_KEY j, JSONPATH_KEY k => str_lt j k
  | JSONPATH_KEY _, JSONPATH_INDEX _ => True
  | JSONPATH_INDEX _, JSONPATH_KEY _ => False
  | JSONPATH_INDEX i, JSONPATH_INDEX j => (i < j)%N
  end.

#[export] Instance component_lt_dec a b : Decision (component_lt a b).
Proof. destruct a, b; cbn; apply _. Defined.

(** [set]: a real is not compared with the integer 0 but by its type, which is larger. *)
Definition JSONPathComponent_set (value : json) : res JSONPathComponent :=
  if isString value then s ← asString value; Ok (JSONPATH_KEY s)
  else if isNumeric value && negb (lt_Int value 0) then i ← asUInt value; Ok (JSONPATH_INDEX i)
  else throw (InvalidValueError "Path components must only be set to strings or integers").

Definition JSONPathComponent_get (c : JSONPathComponent) : json :=
  match c with JSONPATH_KEY key => jstr key | JSONPATH_INDEX index => JUInt index end.

Abbreviation JSONPath := (list JSONPathComponent).

Definition JSONPath_to_json (path : JSONPath) : json :=
  foldl (λ value i, json_append value (JSONPathComponent_get i)) (JArr []) path.

Definition path_item (it : json) : res JSONPathComponent :=
  if isIntegral it then
    if lt_Int it 0 then throw (InvalidValueError "Negative index found in JSON path")
    else i ← asUInt it; Ok (JSONPATH_INDEX i)
  else if isString it then s ← asString it; Ok (JSONPATH_KEY s)
  else throw (InvalidValueError "Item in JSON path found which is neither a string nor an integer").

Definition JSONPath_from_json (value : json) : res JSONPath :=
  json_check_array value "path" ;;
  mapM path_item (json_elems value).

(** ** Conditions *)

Inductive ConditionalClause :=
| ConditionalClauseExists (path : JSONPath)
| ConditionalClauseGet (path : JSONPath)
| ConditionalClauseLiteral (value : json)
| ConditionalClauseEquals (children : list ConditionalClause).

(** The member [name] of a clause. *)
Definition clause_name (c : ConditionalClause) : string :=
  match c with
  | ConditionalClauseExists _ => "exists"
  | ConditionalClauseGet _ => "get"
  | ConditionalClauseLiteral _ => "literal"
  | ConditionalClauseEquals _ => "equals"
  end.

Definition ConditionalClauseExists_new (value : json) : res ConditionalClause :=
  json_check_array value "exists member in ConditionalClauseExists" ;;
  path ← JSONPath_from_json value; Ok (ConditionalClauseExists path).

Definition ConditionalClauseGet_new (value : json) : res ConditionalClause :=
  json_check_array value "get member in ConditionalClauseGet" ;;
  path ← JSONPath_from_json value; Ok (ConditionalClauseGet path).

Definition unsupported_clause : res ConditionalClause :=
  throw (InvalidValueError "Unsupported conditional clause format").

(** [ConditionalClause::from_json] with the constructor of [ConditionalClauseEquals]. *)
Fixpoint ConditionalClause_from_json (value : json) : res ConditionalClause :=
  json_check_object value "conditional clause" ;;
  match value with
  | JObj [(name, obj)] =>
      if decide (name = "exists") then ConditionalClauseExists_new obj
      else if decide (name = "get") then ConditionalClauseGet_new obj
      else if decide (name = "literal") then Ok (ConditionalClauseLiteral obj)
      else if decide (name = "equals") then
        json_check_array obj "equals member in ConditionalClauseEquals" ;;
        children ← match obj with JArr l => mapM ConditionalClause_from_json l | _ => Ok [] end;
        Ok (ConditionalClauseEquals children)
      else unsupported_clause
  | _ => unsupported_clause
  end.

Fixpoint ConditionalClause_to_json (c : ConditionalClause) : json :=
  match c with
  | ConditionalClauseExists path | ConditionalClauseGet path => JSONPath_to_json path
  | ConditionalClauseLiteral value => value
  | ConditionalClauseEquals children =>
      foldl json_append (JArr [])
        (map (λ i, json_set (JObj []) (clause_name i) (ConditionalClause_to_json i)) children)
  end.

(** One step along a path, [None] where both loops return early. *)
Definition path_step (current : json) (i : JSONPathComponent) : option json :=
  match i with
  | JSONPATH_KEY key =>
      if negb (isObject current) then None
      else match json_member current key with Ok o => o | _ => None end
  | JSONPATH_INDEX index =>
      if negb (isArray current) then None
      else if (index <? json_size current)%N then json_elems current !! N.to_nat index
      else None
  end.

Fixpoint path_find (current : json) (path : JSONPath) : option json :=
  match path with
  | [] => Some current
  | i :: path => match path_step current i with Some current => path_find current path | None => None end
  end.

Definition ConditionalClauseExists_apply (path : JSONPath) (document : json) : json :=
  JBool (bool_decide (is_Some (path_find document path))).

Definition ConditionalClauseGet_apply (path : JSONPath) (document : json) : json :=
  default JNull (path_find document path).

(** [apply]: an equality with fewer than two children evaluates none of them. *)
Fixpoint ConditionalClause_apply (c : ConditionalClause) (document : json) : json :=
  match c with
  | ConditionalClauseExists path => ConditionalClauseExists_apply path document
  | ConditionalClauseGet path => ConditionalClauseGet_apply path document
  | ConditionalClauseLiteral value => value
  | ConditionalClauseEquals [] | ConditionalClauseEquals [_] => JBool true
  | ConditionalClauseEquals (i :: children) =>
      let first := ConditionalClause_apply i document in
      JBool (forallb (λ i, json_eqb (ConditionalClause_apply i document) first) children)
  end.

Abbreviation Conditional := (option ConditionalClause).

Definition Conditional_to_json (c : Conditional) : json :=
  match c with
  | None => JNull
  | Some clause => json_set (JObj []) (clause_name clause) (ConditionalClause_to_json clause)
  end.

Definition Conditional_from_json (value : json) : res Conditional :=
  if isNull value then Ok None else clause ← ConditionalClause_from_json value; Ok (Some clause).

(** The copy constructor and the assignment. *)
Definition Conditional_copy (other : Conditional) : res Conditional :=
  Conditional_from_json (Conditional_to_json other).

Definition Conditional_test (c : Conditional) (value : json) : res bool :=
  match c with
  | None => throw (InvalidValueError "Attempt to test a null conditional")
  | Some clause => Ok (asBool (ConditionalClause_apply clause value))
  end.

(** ** The walk *)

Inductive event_type := START | LEAF | END.

Record Event := mkEvent { ev_type : event_type; component : JSONPathComponent; ev_value : json }.

(** A level of the walk: the iterator is the list of what it will still visit, each with
    the component that leads there. *)
Record Level := mkLevel {
  parent_value : json;
  parent_component : JSONPathComponent;
  pos : list (JSONPathComponent * json);
  started : bool;
}.

Definition level_items (v : json) : list (JSONPathComponent * json) :=
  match v with
  | JArr l => imap (λ i x, (JSONPATH_INDEX (N.of_nat i), x)) l
  | JObj m => prod_map JSONPATH_KEY id <$> m
  | _ => []
  end.

Definition new_Level (new_value : json) (parent_component : JSONPathComponent) : Level :=
  mkLevel new_value parent_component (level_items new_value) false.

(** [Level::next], with the parts of the event that [JSONWalker::next] sets for it. *)
Definition Level_next (l : Level) : Level * Event :=
  if negb (started l) then
    (mkLevel (parent_value l) (parent_component l) (pos l) true,
     mkEvent START (parent_component l) (parent_value l))
  else match pos l with
       | [] => (l, mkEvent END (parent_component l) (parent_value l))
       | (c, v) :: rest => (mkLevel (parent_value l) (parent_component l) rest true, mkEvent LEAF c v)
       end.

(** The levels, the innermost first. *)
Definition JSONWalker := list Level.

Definition JSONWalker_new (value : json) : res JSONWalker :=
  if negb (isObject value) && negb (isArray value)
  then throw (InvalidValueError "JSON value passed to walker was neither an object nor an array")
  else Ok [new_Level value (JSONPATH_INDEX 0)].

(** [next]: [None] for the result [false]. *)
Definition JSONWalker_next (stack : JSONWalker) : JSONWalker * option Event :=
  match stack with
  | [] => ([], None)
  | l :: stack =>
      let '(l, event) := Level_next l in
      match ev_type event with
      | LEAF =>
          if negb (isNull (ev_value event)) && (isObject (ev_value event) || isArray (ev_value event)) then
            let '(child, event) := Level_next (new_Level (ev_value event) (component event)) in
            (child :: l :: stack, Some event)
          else (l :: stack, Some event)
      | START => (l :: stack, Some event)
      | END => (stack, Some event)
      end
  end.
