(* ===== verification/Mapping.v ===== *)
(** * Mappings of JSON documents

    src/jsonmanip/mapping.h and mapping.cc: a mapping copies values found at paths of a
    document into the fields of another one, some of them through a categoriser.  The
    categorisers are those of the configuration, [collconfig.categorise]. *)

From S2P Require Import Prelude Json JsonPath.

(** ** The actions *)

Record MappingTarget := mkTarget { field : string; categoriser : string }.

Definition new_MappingTarget (field : string) : MappingTarget := mkTarget field "".

(** [children] is in the order of the components. *)
Inductive MappingActions :=
  mkActions (children : list (JSONPathComponent * MappingActions)) (target_fields : list MappingTarget).

Abbreviation ActionMap := (list (JSONPathComponent * MappingActions)).

Definition children (a : MappingActions) : ActionMap := let 'mkActions c _ := a in c.
Definition target_fields (a : MappingActions) : list MappingTarget := let 'mkActions _ t := a in t.

Definition new_MappingActions : MappingActions := mkActions [] [].

(** [find] of the map. *)
Fixpoint action_find (comp : JSONPathComponent) (m : ActionMap) : option MappingActions :=
  match m with
  | [] => None
  | (c, a) :: m => if decide (c = comp) then Some a else action_find comp m
  end.

(** [children[comp] = a]. *)
Fixpoint action_set (comp : JSONPathComponent) (a : MappingActions) (m : ActionMap) : ActionMap :=
  match m with
  | [] => [(comp, a)]
  | (c, b) :: m' =>
      if decide (c = comp) then (c, a) :: m'
      else if decide (component_lt comp c) then (comp, a) :: m
      else (c, b) :: action_set comp a m'
  end.

(** An operation on the reference [children[comp]], which creates the entry. *)
Definition on_child {A} (comp : JSONPathComponent) (op : M MappingActions A) : M MappingActions A := λ a,
  let '(b, r) := op (default new_MappingActions (action_find comp (children a))) in
  (mkActions (action_set comp b (children a)) (target_fields a), r).

(** [find(path, path_offset)] for an array, [path] being what is left of it: an element
    beyond the end is null. *)
Fixpoint find_path {A} (path : list json) (op : M MappingActions A) : M MappingActions A :=
  match path with
  | [] => comp ← liftM (JSONPathComponent_set JNull); on_child comp op
  | [x] => comp ← liftM (JSONPathComponent_set x); on_child comp op
  | x :: path => comp ← liftM (JSONPathComponent_set x); on_child comp (find_path path op)
  end.

(** What is done with the actions [find] returns a reference to. *)
Definition MappingActions_find {A} (path : json) (op : M MappingActions A) : M MappingActions A :=
  if negb (isArray path) then comp ← liftM (JSONPathComponent_set path); on_child comp op
  else find_path (json_elems path) op.

(** ** The JSON form *)

Inductive default_action_type := PRESERVE_TOP | DISCARD.

Record Mapping := mkMapping {
  when : Conditional;
  mappings : MappingActions;
  default_action : default_action_type;
}.

Definition new_Mapping : Mapping := mkMapping None new_MappingActions PRESERVE_TOP.

Definition push_target (t : MappingTarget) (a : MappingActions) : MappingActions :=
  mkActions (children a) (target_fields a ++ [t]).

(** [target_fields.back().categoriser = s] *)
Definition set_last_categoriser (s : string) (a : MappingActions) : MappingActions :=
  mkActions (children a)
    (match last (target_fields a) with
     | Some t => take (length (target_fields a) - 1) (target_fields a) ++ [mkTarget (field t) s]
     | None => target_fields a
     end).

Definition add_target (to item : json) : M MappingActions () :=
  s ← liftM (asString to);
  modifyM (push_target (new_MappingTarget s)) ;;
  categoriser ← liftM (json_index item "categoriser");
  if isNull categoriser then mret ()
  else
    liftM (json_check_string categoriser "mapping target categoriser") ;;
    s ← liftM (asString categoriser);
    modifyM (set_last_categoriser s).

Definition read_row (item : json) : M MappingActions () :=
  liftM (json_check_object item "mapping definition") ;;
  from ← liftM (json_index item "from");
  to ← liftM (json_index item "to");
  liftM (json_check_string to "mapping target fieldname") ;;
  MappingActions_find from (add_target to item).

Definition set_when (c : Conditional) (m : Mapping) : Mapping := mkMapping c (mappings m) (default_action m).
Definition set_default_action (d : default_action_type) (m : Mapping) : Mapping := mkMapping (when m) (mappings m) d.
Definition on_mappings {A} (op : M MappingActions A) : M Mapping A := λ m,
  let '(a, r) := op (mappings m) in (mkMapping (when m) a (default_action m), r).

Definition default_of_json (defval : json) : res default_action_type :=
  if json_eqb defval (JStr "preserve_top") || json_eqb defval JNull then Ok PRESERVE_TOP
  else if json_eqb defval (JStr "discard") then Ok DISCARD
  else throw (InvalidValueError ("Invalid value for " +:+ quoted "default" +:+ " parameter in mapping")).

Definition Mapping_from_json (value : json) : M Mapping () :=
  liftM (json_check_object value "mapping") ;;
  w ← liftM (json_get value "when" JNull);
  c ← liftM (Conditional_from_json w);
  modifyM (set_when c) ;;
  on_mappings (modifyM (λ _, new_MappingActions)) ;;
  mapval ← liftM (json_index value "map");
  (if isNull mapval then mret ()
   else
     liftM (json_check_array mapval "map property in mapping") ;;
     on_mappings (for_each (json_elems mapval) read_row)) ;;
  defval ← liftM (json_get value "default" JNull);
  d ← liftM (default_of_json defval);
  modifyM (set_default_action d).

(** *** Writing: a loop with a stack of iterators and the path they stand at *)

(** [path[path.size() - 1] = x] and [path.resize(path.size() - 1)]. *)
Definition set_last (x : json) (path : list json) : list json := take (length path - 1) path ++ [x].
Definition drop_last (path : list json) : list json := take (length path - 1) path.

Fixpoint pop_levels (stack : list ActionMap) (path : list json) : list ActionMap * list json :=
  match stack with
  | [] :: stack => pop_levels stack (drop_last path)
  | _ => (stack, path)
  end.

Definition target_row (path : list json) (t : MappingTarget) : json :=
  let obj := json_set (JObj []) "to" (jstr (field t)) in
  let obj := json_set obj "from" (JArr path) in
  if decide (categoriser t = "") then obj else json_set obj "categoriser" (jstr (categoriser t)).

Definition write_step (s : list ActionMap * list json * list json) : (list ActionMap * list json * list json) + list json :=
  let '(stack, path, paths) := s in
  match pop_levels stack path with
  | ([], _) => inr paths
  | ([] :: stack, path) => inl (stack, path, paths)
  | (((c, a) :: level) :: stack, path) =>
      let path := set_last (JSONPathComponent_get c) path in
      inl (children a :: level :: stack, path ++ [JNull], paths ++ (target_row path <$> target_fields a))
  end.

(** The number of actions: the rounds of the loop. *)
Fixpoint actions_count (a : MappingActions) : nat :=
  match a with mkActions children _ => S (list_sum (map (λ x, actions_count x.2) children)) end.

Fixpoint write_loop (fuel : nat) (s : list ActionMap * list json * list json) : res (list json) :=
  match fuel with
  | O => OutOfFuel
  | S fuel => match write_step s with inl s => write_loop fuel s | inr paths => Ok paths end
  end.

Definition Mapping_to_json (m : Mapping) : res json :=
  let value := JObj [] in
  let value := match when m with None => value | Some _ => json_set value "when" (Conditional_to_json (when m)) end in
  let value := match default_action m with DISCARD => json_set value "default" (jstr "discard") | PRESERVE_TOP => value end in
  paths ← write_loop (S (actions_count (mappings m))) ([children (mappings m)], [JNull], []);
  Ok (if decide (paths = []) then value else json_set value "map" (JArr paths)).

(** ** Applying a mapping *)

(** A null counts as an array without elements: it replaces what the field holds. *)
Definition append_field (output : json) (key : string) (value : json) : res json :=
  let '(output, r) := json_index_insert key output in
  oldval ← r;
  let oldval := if isArray oldval then oldval else JArr [] in
  let newval :=
    if isArray value then
      if (json_size value =? 0)%N then JArr []
      else foldl json_append oldval (json_elems value)
    else json_append oldval value in
  Ok (json_set output key newval).

(** The text handed to a categoriser: a string, or the strings of an array. *)
Definition category_text (fieldval : json) : res string :=
  if negb (isArray fieldval) then
    if isString fieldval then asString fieldval else Ok ""
  else
    foldl (λ text j,
      text ← text;
      if negb (isString j) then Ok text else s ← asString j; Ok (text +:+ s +:+ " "))
      (Ok "") (json_elems fieldval).

Section apply.
Context (categorise : string → string → res json).

Definition apply_target (value : json) (output : json) (i : MappingTarget) : res json :=
  if decide (categoriser i = "") then append_field output (field i) value
  else
    text ← category_text value;
    if decide (text = "") then append_field output (field i) (JStr "")
    else category ← categorise (categoriser i) text; append_field output (field i) category.

Definition apply_targets (value : json) (output : json) (targets : list MappingTarget) : res json :=
  foldl (λ output i, output ← output; apply_target value output i) (Ok output) targets.

(** [handle]: the innermost actions come first, [None] where the mapping has none. *)
Definition handle (stack : list (option MappingActions)) (event : Event) (output : json) : res (bool * json) :=
  match stack with
  | [] | None :: _ => Ok (false, output)
  | Some actions :: _ =>
      match action_find (component event) (children actions) with
      | None => Ok (false, output)
      | Some actions =>
          output ← apply_targets (ev_value event) output (target_fields actions);
          Ok (negb (bool_decide (target_fields actions = [])), output)
      end
  end.

(** The key of the component; the walk has left a key there when this is used. *)
Definition component_key (c : JSONPathComponent) : string :=
  match c with JSONPATH_KEY key => key | JSONPATH_INDEX _ => "" end.

Definition handle_default (m : Mapping) (stack : list (option MappingActions)) (event : Event) (output : json) : res json :=
  match default_action m, stack with
  | PRESERVE_TOP, [_] => append_field output (component_key (component event)) (ev_value event)
  | _, _ => Ok output
  end.

Record apply_state := mkApply {
  ap_stack : list (option MappingActions);
  handled_top : bool;
  ap_output : json;
}.

(** The actions a new level of the document is handled with. *)
Definition push_actions (m : Mapping) (event : Event) (stack : list (option MappingActions)) : list (option MappingActions) :=
  match stack with
  | [] => [Some (mappings m)]
  | None :: _ => None :: stack
  | Some actions :: _ => action_find (component event) (children actions) :: stack
  end.

(** [handled_top] before an event, at the start of a member of the document. *)
Definition enter_top (s : apply_state) : bool :=
  if decide (length (ap_stack s) = 1) then false else handled_top s.

Definition apply_event (m : Mapping) (event : Event) (s : apply_state) : res apply_state :=
  match ev_type event with
  | START =>
      '(handled, output) ← handle (ap_stack s) event (ap_output s);
      Ok (mkApply (push_actions m event (ap_stack s)) (handled || enter_top s) output)
  | LEAF =>
      '(handled, output) ← handle (ap_stack s) event (ap_output s);
      let handled_top := handled || enter_top s in
      output ← if handled_top then Ok output else handle_default m (ap_stack s) event output;
      Ok (mkApply (ap_stack s) handled_top output)
  | END =>
      let stack := tail (ap_stack s) in
      output ← if handled_top s then Ok (ap_output s) else handle_default m stack event (ap_output s);
      Ok (mkApply stack (handled_top s) output)
  end.

Fixpoint apply_loop (m : Mapping) (fuel : nat) (walker : JSONWalker) (s : apply_state) : res json :=
  match fuel with
  | O => OutOfFuel
  | S fuel =>
      match JSONWalker_next walker with
      | (_, None) => Ok (ap_output s)
      | (walker, Some event) => s ← apply_event m event s; apply_loop m fuel walker s
      end
  end.

(** The number of events of a walk. *)
Fixpoint walk_size (v : json) : nat :=
  match v with
  | JArr l => 2 + list_sum (map walk_size l)
  | JObj o => 2 + list_sum (map (λ x, walk_size x.2) o)
  | _ => 1
  end.

(** [apply]: whether the mapping was applied, and the output. *)
Definition Mapping_apply (m : Mapping) (input : json) : res (bool * json) :=
  json_check_object input "input to mapping" ;;
  matches ← match when m with None => Ok true | Some _ => Conditional_test (when m) input end;
  if negb matches then Ok (false, JNull)
  else
    walker ← JSONWalker_new input;
    output ← apply_loop m (2 + walk_size input) walker (mkApply [] false (JObj []));
    Ok (true, output).

End apply.
