(* ===== verification/MappingThms.v ===== *)
(** * Walks, conditions and mappings: properties

    The walker visits a document in the order of a structural recursion, and the mapping,
    which is driven by its events, computes what a recursive definition computes. *)

From S2P Require Import Prelude Json JsonPath Mapping.

(** ** The walk as a recursion *)

Definition is_container (v : json) : bool := negb (isNull v) && (isObject v || isArray v).

(** The events of a value reached by a component. *)
Fixpoint walk (c : JSONPathComponent) (v : json) : list Event :=
  match v with
  | JArr l =>
      mkEvent START c v ::
        (fix go i l := match l with [] => [] | x :: l => walk (JSONPATH_INDEX (N.of_nat i)) x ++ go (S i) l end) 0 l
        ++ [mkEvent END c v]
  | JObj m =>
      mkEvent START c v ::
        (fix go m := match m with [] => [] | (k, x) :: m => walk (JSONPATH_KEY k) x ++ go m end) m
        ++ [mkEvent END c v]
  | _ => [mkEvent LEAF c v]
  end.

Definition walk_items (items : list (JSONPathComponent * json)) : list Event :=
  mjoin ((λ x, walk x.1 x.2) <$> items).

Lemma walk_items_cons c x items : walk_items ((c, x) :: items) = walk c x ++ walk_items items.
Proof. done. Qed.

Lemma walk_container c v : is_container v = true →
  walk c v = mkEvent START c v :: walk_items (level_items v) ++ [mkEvent END c v].
Proof.
  destruct v; try done; intros _; cbn [walk]; f_equal; f_equal; unfold walk_items; cbn [level_items].
  - change (imap (λ i x, (JSONPATH_INDEX (N.of_nat i), x)) l) with (imap (λ i x, (JSONPATH_INDEX (N.of_nat (0 + i)), x)) l).
    generalize 0. induction l as [|x l IH]; intros n; [done|]. cbn. rewrite Nat.add_0_r. f_equal. rewrite (IH (S n)).
    do 2 f_equal. apply imap_ext. intros i y _. cbn. by rewrite Nat.add_succ_r.
  - induction m as [|[k x] m IH]; [done|]. cbn. by rewrite IH.
Qed.

Lemma walk_leaf c v : is_container v = false → walk c v = [mkEvent LEAF c v].
Proof. by destruct v. Qed.

(** Induction over what is inside a container. *)
Lemma items_ind (P : json → Prop) :
  (∀ v, is_container v = false → P v) →
  (∀ v, is_container v = true → Forall (λ x, P x.2) (level_items v) → P v) → ∀ v, P v.
Proof.
  intros Hl Hc. apply json_nested_ind; try (intros; by apply Hl).
  - intros l Hf. apply Hc; [done|]. cbn. apply Forall_forall. intros [c x] (i & y & [= -> ->] & Hx)%elem_of_lookup_imap_1.
    cbn in *. eapply Forall_lookup_1; done.
  - intros m Hf. apply Hc; [done|]. cbn. apply Forall_fmap. eapply Forall_impl; [exact Hf|]. by intros [].
Qed.

(** Calling [next] a number of times. *)
Fixpoint JSONWalker_run (n : nat) (w : JSONWalker) : list Event * JSONWalker :=
  match n with
  | O => ([], w)
  | S n =>
      match JSONWalker_next w with
      | (w, None) => ([], w)
      | (w, Some e) => let '(es, w) := JSONWalker_run n w in (e :: es, w)
      end
  end.

(** [es] are the next events, and lead to [w']. *)
Fixpoint yields (w : JSONWalker) (es : list Event) (w' : JSONWalker) : Prop :=
  match es with
  | [] => w = w'
  | e :: es => ∃ w1, JSONWalker_next w = (w1, Some e) ∧ yields w1 es w'
  end.

Lemma yields_app w es1 es2 w1 w' : yields w es1 w1 → yields w1 es2 w' → yields w (es1 ++ es2) w'.
Proof.
  revert w. induction es1 as [|e es1 IH]; intros w; cbn; [by intros ->|].
  intros (w2 & H1 & H2) H. eauto.
Qed.

Lemma yields_run w es w' : yields w es w' → JSONWalker_run (length es) w = (es, w').
Proof.
  revert w. induction es as [|e es IH]; intros w; cbn; [by intros ->|]. intros (w1 & -> & H). by rewrite (IH w1).
Qed.

Lemma yields_items pv pc items ws :
  Forall (λ x, ∀ pv pc rest ws, yields (mkLevel pv pc (x :: rest) true :: ws) (walk x.1 x.2) (mkLevel pv pc rest true :: ws)) items →
  yields (mkLevel pv pc items true :: ws) (walk_items items) (mkLevel pv pc [] true :: ws).
Proof.
  induction 1 as [|x items Hx _ IH]; [done|]. unfold walk_items. cbn. by eapply yields_app.
Qed.

(** One value in a level. *)
Lemma yields_value v : ∀ c pv pc rest ws,
  yields (mkLevel pv pc ((c, v) :: rest) true :: ws) (walk c v) (mkLevel pv pc rest true :: ws).
Proof.
  induction v as [v Hv|v Hv IH] using items_ind; intros c pv pc rest ws.
  - rewrite walk_leaf by done. eexists. split; [|reflexivity]. unfold JSONWalker_next, Level_next. cbn. unfold is_container in Hv. by rewrite Hv.
  - rewrite walk_container by done. eexists. split.
    + unfold JSONWalker_next, Level_next at 1. cbn. unfold is_container in Hv. rewrite Hv. reflexivity.
    + eapply yields_app.
      * apply yields_items. eapply Forall_impl; [exact IH|]. intros [c' x]. cbn. auto.
      * eexists. split; [reflexivity|done].
Qed.

(** The events of a document: null is walked like an empty container. *)
Definition walk_document (v : json) : list Event :=
  mkEvent START (JSONPATH_INDEX 0) v :: walk_items (level_items v) ++ [mkEvent END (JSONPATH_INDEX 0) v].

Lemma yields_document v : yields [new_Level v (JSONPATH_INDEX 0)] (walk_document v) [].
Proof.
  eexists. split; [reflexivity|]. eapply yields_app.
  - apply yields_items. apply Forall_forall. intros [c x] _ *. apply yields_value.
  - eexists. by split.
Qed.

(** ** The mapping as a recursion *)

Section mapping.
Context (categorise : string → string → res json) (m : Mapping).

Definition below (node : option MappingActions) (c : JSONPathComponent) : option MappingActions :=
  node ≫= λ a, action_find c (children a).

(** The targets of a node receive the value. *)
Definition map_targets (node : option MappingActions) (v output : json) : res (bool * json) :=
  match node with
  | None => Ok (false, output)
  | Some a => output ← apply_targets categorise v output (target_fields a); Ok (negb (bool_decide (target_fields a = [])), output)
  end.

(** The value and what is inside it: whether anything was mapped, and the output. *)
Fixpoint map_value (node : option MappingActions) (v output : json) : res (bool * json) :=
  '(h, output) ← map_targets node v output;
  match v with
  | JArr l =>
      '(h', output) ←
        (fix go i l output := match l with
         | [] => Ok (false, output)
         | x :: l => '(h1, output) ← map_value (below node (JSONPATH_INDEX (N.of_nat i))) x output;
                     '(h2, output) ← go (S i) l output; Ok (h2 || h1, output)
         end) 0 l output;
      Ok (h' || h, output)
  | JObj o =>
      '(h', output) ←
        (fix go o output := match o with
         | [] => Ok (false, output)
         | (k, x) :: o => '(h1, output) ← map_value (below node (JSONPATH_KEY k)) x output;
                          '(h2, output) ← go o output; Ok (h2 || h1, output)
         end) o output;
      Ok (h' || h, output)
  | _ => Ok (h, output)
  end.

(** Every member of the document; what is not mapped is kept, unless it is discarded. *)
Fixpoint map_members (l : list (string * json)) (output : json) : res json :=
  match l with
  | [] => Ok output
  | (k, x) :: l =>
      '(h, output) ← map_value (below (Some (mappings m)) (JSONPATH_KEY k)) x output;
      output ← if (h : bool) then Ok output
               else match default_action m with PRESERVE_TOP => append_field output k x | DISCARD => Ok output end;
      map_members l output
  end.

Fixpoint map_items (node : option MappingActions) (items : list (JSONPathComponent * json)) (output : json) : res (bool * json) :=
  match items with
  | [] => Ok (false, output)
  | (c, x) :: items =>
      '(h1, output) ← map_value (below node c) x output;
      '(h2, output) ← map_items node items output; Ok (h2 || h1, output)
  end.

Lemma map_value_container node v output : is_container v = true →
  map_value node v output =
    ('(h, output) ← map_targets node v output; '(h', output) ← map_items node (level_items v) output; Ok (h' || h, output)).
Proof.
  destruct v; try done; intros _; cbn [map_value]; destruct (map_targets node _ output) as [[h o]|e|]; try done; cbn.
  - change (imap (λ i x, (JSONPATH_INDEX (N.of_nat i), x)) l) with (imap (λ i x, (JSONPATH_INDEX (N.of_nat (0 + i)), x)) l).
    do 2 f_equal. generalize 0 at 1 2. intros n. revert n o. induction l as [|x l IH]; intros n o; [done|]. cbn. rewrite Nat.add_0_r.
    destruct (map_value _ x o) as [[h1 o1]|e|]; [|done..]. cbn. rewrite (IH (S n)).
    assert (E : ∀ p q, p = q → map_items node p o1 = map_items node q o1) by by intros ? ? ->.
    rewrite (E _ (imap ((λ i x, (JSONPATH_INDEX (N.of_nat (n + i)), x)) ∘ S) l)); [done|].
    apply imap_ext. intros i y _. cbn. by rewrite Nat.add_succ_r.
  - do 2 f_equal. revert o. induction m0 as [|[k x] m0 IH]; intros o; [done|]. cbn.
    destruct (map_value _ x o) as [[h1 o1]|e|]; [|done..]. cbn. by rewrite IH.
Qed.

Lemma map_value_leaf node v output : is_container v = false → map_value node v output = map_targets node v output.
Proof. destruct v; try done; intros _; cbn; by destruct (map_targets node _ output) as [[]| |]. Qed.

(** *** The events of a value *)

Definition apply_events (es : list Event) (s : apply_state) : res apply_state :=
  foldl (λ s e, s ← s; apply_event categorise m e s) (Ok s) es.

Lemma apply_events_cons e es s : apply_events (e :: es) s = (s ← apply_event categorise m e s; apply_events es s).
Proof.
  unfold apply_events. cbn. destruct (apply_event categorise m e s) as [s'|err|]; [done|..]; cbn; by induction es.
Qed.

Lemma apply_events_app es1 es2 s : apply_events (es1 ++ es2) s = (s ← apply_events es1 s; apply_events es2 s).
Proof.
  revert s. induction es1 as [|e es1 IH]; intros s; [done|]. cbn [app]. rewrite !apply_events_cons.
  destruct (apply_event categorise m e s); cbn; auto.
Qed.

Lemma apply_loop_events es w w' s n : yields w es w' →
  apply_loop categorise m (length es + n) w s = (s ← apply_events es s; apply_loop categorise m n w' s).
Proof.
  revert w s. induction es as [|e es IH]; intros w s; [by intros ->|]. intros (w1 & H1 & H2). cbn [length Nat.add apply_loop].
  rewrite H1, apply_events_cons. destruct (apply_event categorise m e s) as [s1|err|]; [|done..]. by apply IH.
Qed.

Lemma handle_below a as_ e out : handle categorise (a :: as_) e out = map_targets (below a (component e)) (ev_value e) out.
Proof. destruct a as [a|]; [|done]. cbn. by destruct (action_find (component e) (children a)). Qed.

Lemma push_below a as_ e : push_actions m e (a :: as_) = below a (component e) :: a :: as_.
Proof. by destruct a. Qed.

Lemma default_nested a as_ e out : as_ ≠ [] → handle_default m (a :: as_) e out = Ok out.
Proof. intros H. unfold handle_default. destruct (default_action m), as_; done. Qed.

(** Below the top level an event only adds to what is handled. *)
Definition nested_result (v : json) : Prop := ∀ c a as_ h out, as_ ≠ [] →
  apply_events (walk c v) (mkApply (a :: as_) h out) =
    ('(h', out) ← map_value (below a c) v out; Ok (mkApply (a :: as_) (h' || h) out)).

Lemma nested_items items a as_ h out : as_ ≠ [] → Forall (λ x, nested_result x.2) items →
  apply_events (walk_items items) (mkApply (a :: as_) h out) =
    ('(h', out) ← map_items a items out; Ok (mkApply (a :: as_) (h' || h) out)).
Proof.
  intros Has Hf. revert h out. induction Hf as [|[c x] items Hx _ IH]; intros h out; [done|].
  cbn [snd] in Hx. rewrite walk_items_cons, apply_events_app, (Hx c a as_ h out Has). cbn [map_items snd].
  destruct (map_value (below a c) x out) as [[h1 o1]|e|]; [|done..]. cbn [mbind res_bind]. rewrite IH.
  destruct (map_items a items o1) as [[h2 o2]|e|]; [|done..]. cbn. by rewrite orb_assoc.
Qed.

Lemma enter_nested a as_ h out : as_ ≠ [] → enter_top (mkApply (a :: as_) h out) = h.
Proof. intros H. unfold enter_top. cbn. rewrite decide_False; [done|]. destruct as_; cbn; [done|lia]. Qed.

Lemma nested_value v : nested_result v.
Proof.
  induction v as [v Hv|v Hv IH] using items_ind; intros c a as_ h out Has.
  - rewrite walk_leaf, map_value_leaf, apply_events_cons by done. unfold apply_event. cbn [ev_type ap_stack ap_output].
    rewrite handle_below. cbn [component ev_value]. destruct (map_targets _ v out) as [[h1 o1]|e|]; [|done..]. cbn.
    rewrite enter_nested by done. destruct (h1 || h) eqn:E; [done|]. by rewrite default_nested.
  - rewrite walk_container, map_value_container, apply_events_cons by done. unfold apply_event at 1. cbn [ev_type ap_stack ap_output].
    rewrite handle_below. cbn [component ev_value]. destruct (map_targets _ v out) as [[h1 o1]|e|]; [|done..]. cbn [mbind res_bind].
    rewrite push_below, enter_nested, apply_events_app, nested_items by done. cbn [component].
    destruct (map_items _ _ o1) as [[h2 o2]|e|]; [|done..]. cbn [mbind res_bind]. rewrite apply_events_cons. unfold apply_event.
    cbn [ev_type ap_stack handled_top ap_output tail]. rewrite orb_assoc. destruct (h2 || h1 || h); [done|]. by rewrite default_nested.
Qed.

(** A member of the document itself. *)
Lemma top_value k v h out :
  apply_events (walk (JSONPATH_KEY k) v) (mkApply [Some (mappings m)] h out) =
    ('(h', out) ← map_value (below (Some (mappings m)) (JSONPATH_KEY k)) v out;
     out ← if (h' : bool) then Ok out
           else match default_action m with PRESERVE_TOP => append_field out k v | DISCARD => Ok out end;
     Ok (mkApply [Some (mappings m)] h' out)).
Proof.
  destruct (is_container v) eqn:Hv.
  - rewrite walk_container, map_value_container, apply_events_cons by done. unfold apply_event at 1. cbn [ev_type ap_stack ap_output].
    rewrite handle_below. cbn [component ev_value]. destruct (map_targets _ v out) as [[h1 o1]|e|]; [|done..]. cbn [mbind res_bind].
    rewrite push_below, apply_events_app, nested_items; [|done|apply Forall_forall; intros; apply nested_value]. cbn [component].
    destruct (map_items _ _ o1) as [[h2 o2]|e|]; [|done..]. cbn [mbind res_bind]. rewrite apply_events_cons. unfold apply_event.
    cbn [ev_type ap_stack handled_top ap_output tail]. unfold enter_top. cbn. rewrite orb_false_r.
    destruct (h2 || h1); [done|]. unfold handle_default. cbn. by destruct (default_action m); [destruct (append_field o2 k v)|].
  - rewrite walk_leaf, map_value_leaf, apply_events_cons by done. unfold apply_event. cbn [ev_type ap_stack ap_output].
    rewrite handle_below. cbn [component ev_value]. destruct (map_targets _ v out) as [[h1 o1]|e|]; [|done..]. cbn.
    rewrite orb_false_r. destruct h1; [done|]. unfold handle_default. cbn. by destruct (default_action m); [destruct (append_field o1 k v)|].
Qed.

Lemma top_members l h out :
  (s ← apply_events (walk_items (prod_map JSONPATH_KEY id <$> l)) (mkApply [Some (mappings m)] h out);
   Ok (ap_stack s, ap_output s)) = (out ← map_members l out; Ok ([Some (mappings m)], out)).
Proof.
  revert h out. induction l as [|[k x] l IH]; intros h out; [done|].
  change (prod_map JSONPATH_KEY id <$> (k, x) :: l) with ((JSONPATH_KEY k, x) :: (prod_map JSONPATH_KEY id <$> l)).
  rewrite walk_items_cons, apply_events_app, top_value. cbn [map_members].
  destruct (map_value _ x out) as [[h1 o1]|e|]; [|done..]. cbn [mbind res_bind].
  destruct h1; [apply IH|]. destruct (default_action m); [|apply IH].
  destruct (append_field o1 k x) as [o2|e|]; [|done..]. apply IH.
Qed.

End mapping.

Lemma walk_length v : ∀ c, length (walk c v) = walk_size v.
Proof.
  apply (json_nested_ind (λ v, ∀ c, length (walk c v) = walk_size v)); clear v; try done.
  - intros l Hf c. cbn [walk walk_size length]. rewrite length_app. cbn.
    assert (E : ∀ i, length ((fix go (i : nat) (l : list json) {struct l} : list Event :=
      match l with [] => [] | x :: l => walk (JSONPATH_INDEX (N.of_nat i)) x ++ go (S i) l end) i l) = list_sum (map walk_size l)).
    { induction Hf as [|x l Hx _ IH]; intros i; [done|]. cbn. by rewrite length_app, Hx, IH. }
    rewrite E. lia.
  - intros o Hf c. cbn [walk walk_size length]. rewrite length_app. cbn.
    assert (E : length ((fix go (m : list (string * json)) : list Event :=
      match m with [] => [] | (k, x) :: m => walk (JSONPATH_KEY k) x ++ go m end) o) = list_sum (map (λ x, walk_size x.2) o)).
    { induction Hf as [|[k x] o Hx _ IH]; [done|]. cbn in *. by rewrite length_app, Hx, IH. }
    rewrite E. lia.
Qed.

Lemma walk_document_length v : length (walk_document v) <= 1 + walk_size v.
Proof.
  destruct (is_container v) eqn:Hv.
  - rewrite <-(walk_length v (JSONPATH_INDEX 0)), walk_container by done. cbn. lia.
  - destruct v; cbn; try done; lia.
Qed.

Lemma mapping_apply_recursive_ok categorise m input :
  Mapping_apply categorise m input =
    (json_check_object input "input to mapping" ;;
     matches ← match when m with None => Ok true | Some _ => Conditional_test (when m) input end;
     if negb matches then Ok (false, JNull)
     else output ← map_members categorise m (json_members input) (JObj []); Ok (true, output)).
Proof.
  unfold Mapping_apply, json_check_object. destruct (isObject input) eqn:Ho; [|done]. cbn [mbind res_bind].
  destruct (match when m with None => _ | Some _ => _ end) as [b|e|]; [|done..]. cbn [mbind res_bind]. destruct b; [|done]. cbn [negb].
  unfold JSONWalker_new. rewrite Ho. cbn [negb andb mbind res_bind].
  pose proof (walk_document_length input) as Hlen.
  replace (2 + walk_size input) with (length (walk_document input) + S (1 + walk_size input - length (walk_document input))) by lia.
  rewrite (apply_loop_events _ _ _ _ [] _ _ (yields_document input)). unfold walk_document.
  rewrite apply_events_cons. unfold apply_event at 1. cbn [ev_type ap_stack ap_output handle mbind res_bind orb push_actions enter_top].
  rewrite apply_events_app.
  assert (Hi : level_items input = prod_map JSONPATH_KEY id <$> json_members input) by by destruct input. rewrite Hi.
  pose proof (top_members categorise m (json_members input) (enter_top (mkApply [] false (JObj []))) (JObj [])) as H.
  destruct (apply_events _ _ (walk_items _) _) as [s|e|], (map_members _ _ _ _) as [o|e'|]; cbn in H; simplify_eq; try done.
  destruct s as [st h out]. cbn [ap_stack ap_output] in *. subst st. cbn [mbind res_bind]. rewrite apply_events_cons. unfold apply_event. cbn.
  unfold handle_default. destruct h; [done|]. by destruct (default_action m).
Qed.

(** ** Properties *)

(** The walker visits a document in the order of the structural recursion [walk]: it is
    refused exactly for a value that holds no others, and otherwise the calls of [next]
    give the events of [walk] one by one and then end. *)
Theorem walker_preorder v :
  match JSONWalker_new v with
  | Ok w => (isObject v || isArray v) = true ∧
      JSONWalker_run (length (walk_document v)) w = (walk_document v, []) ∧ JSONWalker_next [] = ([], None)
  | Throw _ => (isObject v || isArray v) = false
  | OutOfFuel => False
  end.
Proof.
  unfold JSONWalker_new. destruct (isObject v || isArray v) eqn:E.
  - assert (E' : negb (isObject v) && negb (isArray v) = false) by (rewrite <-negb_orb; by rewrite E). rewrite E'.
    split_and!; [done| |done]. apply yields_run, yields_document.
  - assert (E' : negb (isObject v) && negb (isArray v) = true) by (rewrite <-negb_orb; by rewrite E). by rewrite E'.
Qed.

(** C17: a mapping, which handles the events of a walk with a stack of its own, computes a
    recursion over the document: every value that has targets is appended to their fields
    before what is inside it, and a member of the document below which nothing has a
    target is kept under its own name, unless unmapped members are discarded.  The loop
    always ends. *)
Theorem mapping_apply_recursive categorise m input :
  Mapping_apply categorise m input =
    (json_check_object input "input to mapping" ;;
     matches ← match when m with None => Ok true | Some _ => Conditional_test (when m) input end;
     if negb matches then Ok (false, JNull)
     else output ← map_members categorise m (json_members input) (JObj []); Ok (true, output)).
Proof. apply mapping_apply_recursive_ok. Qed.

(** Two members of a document mapped to one field. *)
Definition merging : Mapping :=
  match Mapping_from_json (JObj [("map", JArr [
      JObj [("from", JArr [JStr "author"]); ("to", JStr "people")];
      JObj [("from", JArr [JStr "editor"]); ("to", JStr "people")]])]) new_Mapping with (m, _) => m end.

(** A source that is an empty array (or null) empties the field it is mapped to, whatever
    earlier sources have put there; mapping two members to one field so loses the values
    of the first when the second is empty, and keeps those of the second when the first
    is. *)
Theorem empty_source_discards :
  (∀ o key, ∃ o', append_field (JObj o) key (JArr []) = Ok o' ∧ json_get o' key JNull = Ok (JArr [])) ∧
  (∀ cat, Mapping_apply cat merging (JObj [("author", JArr [JStr "ann"]); ("editor", JArr [])])
    = Ok (true, JObj [("people", JArr [])])) ∧
  ∀ cat, Mapping_apply cat merging (JObj [("author", JArr []); ("editor", JArr [JStr "bob"])])
    = Ok (true, JObj [("people", JArr [JStr "bob"])]).
Proof.
  split_and!; [|reflexivity..]. intros o key. unfold append_field, json_index_insert. cbn [json_member].
  destruct (obj_find (c_str key) o) as [x|]; eexists; (split; [reflexivity|]); unfold json_get; cbn; by rewrite obj_find_set, decide_True.
Qed.
