(* ===== verification/MappingJson.v ===== *)
(** * The JSON forms of conditions and mappings

    What is read from JSON is well-formed, and a well-formed condition or mapping is read
    back from what is written. *)

From S2P Require Import Prelude Json JsonPath Mapping.

(** ** Paths *)

Definition component_ok (c : JSONPathComponent) : Prop :=
  match c with JSONPATH_KEY key => clean key | JSONPATH_INDEX index => (Z.of_N index <= maxUInt)%Z end.

Lemma component_get_set c : component_ok c → JSONPathComponent_set (JSONPathComponent_get c) = Ok c.
Proof.
  destruct c as [k|i]; cbn; [by intros ->|]. intros H. unfold JSONPathComponent_set. cbn.
  destruct (Z.ltb_spec maxUInt (Z.of_N i)); [lia|done].
Qed.

Lemma path_item_get c : component_ok c → path_item (JSONPathComponent_get c) = Ok c.
Proof.
  destruct c as [k|i]; cbn; [by intros ->|]. intros H. unfold path_item. cbn.
  destruct (Z.ltb_spec maxUInt (Z.of_N i)); [lia|done].
Qed.

Lemma real_trunc_range d z : real_ge_Z d 0 = true → real_le_Z d z = true → (0 <= z)%Z → (0 <= real_trunc d <= z)%Z.
Proof.
  unfold real_ge_Z, real_le_Z, real_cmp_Z, real_trunc. destruct d as [b|b| |b m e]; try done; intros H1 H2 Hz.
  destruct (Z.leb_spec 0 e) as [He|He].
  - set (v := ((if b then Z.neg m else Z.pos m) * 2 ^ e)%Z) in *.
    destruct (Z.compare_spec v 0); try done; destruct (Z.compare_spec v z); done || lia.
  - set (v := (if b then Z.neg m else Z.pos m)) in *. rewrite Z.mul_0_l in H1.
    assert (Hp : (0 < 2 ^ (- e))%Z) by (apply Z.pow_pos_nonneg; lia).
    assert (Hv : (0 <= v <= z * 2 ^ (- e))%Z).
    { destruct (Z.compare_spec v 0); try done; destruct (Z.compare_spec v (z * 2 ^ (- e))); done || lia. }
    rewrite Z.quot_div_nonneg by lia. split; [apply Z.div_pos; lia|]. apply Z.div_le_upper_bound; lia.
Qed.

Lemma asUInt_bound v i : asUInt v = Ok i → (Z.of_N i <= maxUInt)%Z.
Proof.
  unfold asUInt. destruct v as [|z|n|d| |b| |]; intros H; try done.
  - by injection H as <-.
  - destruct (Z.ltb_spec z 0), (Z.ltb_spec maxUInt z); try done. injection H as <-. lia.
  - destruct (Z.ltb_spec maxUInt (Z.of_N n)); [done|]. by injection H as <-.
  - destruct (real_ge_Z d 0) eqn:E1; [|done]. destruct (real_le_Z d maxUInt) eqn:E2; [|done].
    pose proof (real_trunc_range d maxUInt E1 E2 ltac:(done)). injection H as <-. lia.
  - injection H as <-. by destruct b.
Qed.

Lemma asString_clean v s : json_clean v = true → isString v = true → asString v = Ok s → clean s.
Proof. destruct v; try done. cbn. intros H _ [= <-]. by apply bool_decide_eq_true in H. Qed.

Lemma path_item_ok v c : json_clean v = true → path_item v = Ok c → component_ok c.
Proof.
  intros Hv. unfold path_item. destruct (isIntegral v).
  - destruct (lt_Int v 0); [done|]. intros (i & Hi & [= <-])%res_bind_ok. by eapply asUInt_bound.
  - destruct (isString v) eqn:E; [|done]. intros (s & Hs & [= <-])%res_bind_ok. by eapply asString_clean.
Qed.

Lemma component_set_ok v c : json_clean v = true → JSONPathComponent_set v = Ok c → component_ok c.
Proof.
  intros Hv. unfold JSONPathComponent_set. destruct (isString v) eqn:E.
  - intros (s & Hs & [= <-])%res_bind_ok. by eapply asString_clean.
  - destruct (isNumeric v && _); [|done]. intros (i & Hi & [= <-])%res_bind_ok. by eapply asUInt_bound.
Qed.

Lemma json_clean_elems v : json_clean v = true → Forall (λ x, json_clean x = true) (json_elems v).
Proof.
  destruct v; try done; cbn; intros H; [by apply forallb_True, Is_true_true_2 in H || by apply Forall_forall; intros x Hx; rewrite forallb_forall in H; apply H, list_elem_of_In|].
  apply Forall_fmap, Forall_forall. intros [k x] Hx. rewrite forallb_forall in H. cbn. apply (H (k, x)), list_elem_of_In, Hx.
Qed.

Lemma path_to_json_eq path : JSONPath_to_json path = JArr (JSONPathComponent_get <$> path).
Proof. unfold JSONPath_to_json. by rewrite foldl_json_append. Qed.

Lemma path_json_roundtrip path : Forall component_ok path → JSONPath_from_json (JSONPath_to_json path) = Ok path.
Proof.
  intros H. rewrite path_to_json_eq. unfold JSONPath_from_json. cbn. apply mapM_fmap_ok.
  eapply Forall_impl; [exact H|]. apply path_item_get.
Qed.

Lemma path_from_json_ok v path : json_clean v = true → JSONPath_from_json v = Ok path → Forall component_ok path.
Proof.
  intros Hv (_ & _ & H)%res_bind_ok. eapply mapM_ok_Forall; [|by apply json_clean_elems|exact H]. cbn. intros x y. apply path_item_ok.
Qed.

(** ** Conditions *)

Section clause_ind.
Context (P : ConditionalClause → Prop).
Context (HExists : ∀ p, P (ConditionalClauseExists p)) (HGet : ∀ p, P (ConditionalClauseGet p)).
Context (HLiteral : ∀ v, P (ConditionalClauseLiteral v)) (HEquals : ∀ cs, Forall P cs → P (ConditionalClauseEquals cs)).

Fixpoint clause_nested_ind (c : ConditionalClause) : P c :=
  match c with
  | ConditionalClauseExists p => HExists p
  | ConditionalClauseGet p => HGet p
  | ConditionalClauseLiteral v => HLiteral v
  | ConditionalClauseEquals cs =>
      HEquals cs ((fix go (cs : list ConditionalClause) : Forall P cs :=
        match cs with [] => Forall_nil_2 P | c :: cs => Forall_cons_2 P c cs (clause_nested_ind c) (go cs) end) cs)
  end.
End clause_ind.

Fixpoint clause_ok (c : ConditionalClause) : Prop :=
  match c with
  | ConditionalClauseExists path | ConditionalClauseGet path => Forall component_ok path
  | ConditionalClauseLiteral _ => True
  | ConditionalClauseEquals cs => foldr (λ c P, clause_ok c ∧ P) True cs
  end.

Lemma clause_ok_equals cs : clause_ok (ConditionalClauseEquals cs) ↔ Forall clause_ok cs.
Proof. cbn. induction cs as [|c cs IH]; cbn; [done|]. by rewrite IH, Forall_cons. Qed.

Lemma from_json_equals l :
  ConditionalClause_from_json (JObj [("equals", JArr l)]) =
    (cs ← mapM ConditionalClause_from_json l; Ok (ConditionalClauseEquals cs)).
Proof. done. Qed.

Lemma clause_json_roundtrip c : clause_ok c →
  ConditionalClause_from_json (json_set (JObj []) (clause_name c) (ConditionalClause_to_json c)) = Ok c.
Proof.
  induction c as [p|p|v|cs IH] using clause_nested_ind; intros Hc; [cbn..|].
  - unfold ConditionalClauseExists_new, json_check_array. rewrite path_json_roundtrip by done. by rewrite path_to_json_eq.
  - unfold ConditionalClauseGet_new, json_check_array. rewrite path_json_roundtrip by done. by rewrite path_to_json_eq.
  - done.
  - apply clause_ok_equals in Hc. cbn [clause_name ConditionalClause_to_json]. rewrite foldl_json_append_id.
    etransitivity; [apply from_json_equals|].
    match goal with |- context [mapM _ ([] ++ map ?g cs)] => assert (E : mapM ConditionalClause_from_json (map g cs) = Ok cs) end.
    { apply mapM_fmap_ok. rewrite Forall_forall in IH, Hc |- *. auto. }
    cbn [app]. by rewrite E.
Qed.

Lemma clause_from_json_ok v : ∀ c, json_clean v = true → ConditionalClause_from_json v = Ok c → clause_ok c.
Proof.
  set (P := λ v, ∀ c, json_clean v = true → ConditionalClause_from_json v = Ok c → clause_ok c).
  enough (H : P v ∧ Forall P (json_elems v)) by apply H. subst P. cbn beta.
  induction v as [| | | | | |l IH|m IH] using json_nested_ind; try by split.
  - split; [done|]. eapply Forall_impl; [exact IH|]. by intros x [? _].
  - split; [|apply Forall_fmap; eapply Forall_impl; [exact IH|]; by intros x [? _]].
    intros c Hv. destruct m as [|[name obj] [|]]; try done. apply Forall_cons in IH as [[_ IH] _]. cbn [snd] in IH.
    cbn [ConditionalClause_from_json json_check_object isObject mbind res_bind]. cbn in Hv. rewrite andb_true_r in Hv.
    case_decide; [intros (_ & _ & (p & Hp & [= <-])%res_bind_ok)%res_bind_ok; by eapply path_from_json_ok|].
    case_decide; [intros (_ & _ & (p & Hp & [= <-])%res_bind_ok)%res_bind_ok; by eapply path_from_json_ok|].
    case_decide; [by intros [= <-]|]. case_decide; [|done].
    intros (_ & _ & (cs & Hcs & [= <-])%res_bind_ok)%res_bind_ok. apply clause_ok_equals.
    destruct obj as [| | | | | |l|]; try (by injection Hcs as <-). cbn [json_elems] in IH.
    eapply (mapM_ok_Forall _ (λ x, json_clean x = true ∧ ∀ c, json_clean x = true → ConditionalClause_from_json x = Ok c → clause_ok c)).
    3: exact Hcs. { intros x y [Hx Hc] Hy. by apply Hc. }
    apply Forall_forall. intros x Hx. rewrite Forall_forall in IH. split; [|by apply IH].
    apply json_clean_elems in Hv. rewrite Forall_forall in Hv. by apply Hv.
Qed.

Lemma conditional_json_roundtrip c : (∀ clause, c = Some clause → clause_ok clause) →
  Conditional_from_json (Conditional_to_json c) = Ok c.
Proof.
  destruct c as [c|]; [|done]. intros H. unfold Conditional_from_json, Conditional_to_json. cbn [isNull].
  replace (isNull (json_set _ _ _)) with false by done. by rewrite clause_json_roundtrip by auto.
Qed.

Lemma conditional_from_json_ok v c clause : json_clean v = true → Conditional_from_json v = Ok c → c = Some clause → clause_ok clause.
Proof.
  intros Hv. unfold Conditional_from_json. destruct (isNull v); [by intros [= <-]|].
  intros (cl & Hcl & [= <-])%res_bind_ok [= ->]. by eapply clause_from_json_ok.
Qed.

(** ** Writing the rows of a mapping *)

Section actions_ind.
Context (P : MappingActions → Prop) (H : ∀ m ts, Forall (λ x, P x.2) m → P (mkActions m ts)).

Fixpoint actions_nested_ind (a : MappingActions) : P a :=
  match a with
  | mkActions m ts =>
      H m ts ((fix go (m : ActionMap) : Forall (λ x, P x.2) m := match m with
        | [] => Forall_nil_2 _
        | x :: m => Forall_cons_2 (λ x, P x.2) x m (actions_nested_ind x.2) (go m) end) m)
  end.
End actions_ind.

(** The targets of a node and below, each with the components that lead there. *)
Fixpoint all_targets (a : MappingActions) : list (JSONPath * MappingTarget) :=
  match a with
  | mkActions m ts =>
      (pair [] <$> ts) ++ mjoin (map (λ x, prod_map (cons x.1) id <$> all_targets x.2) m)
  end.

Definition below_targets (m : ActionMap) : list (JSONPath * MappingTarget) :=
  mjoin ((λ x, prod_map (cons x.1) id <$> all_targets x.2) <$> m).

Lemma all_targets_eq m ts : all_targets (mkActions m ts) = (pair [] <$> ts) ++ below_targets m.
Proof. done. Qed.

Lemma below_targets_cons c a m : below_targets ((c, a) :: m) = (prod_map (cons c) id <$> all_targets a) ++ below_targets m.
Proof. done. Qed.

Definition row_of (path : list json) (x : JSONPath * MappingTarget) : json :=
  target_row (path ++ (JSONPathComponent_get <$> x.1)) x.2.

Lemma row_of_cons path c (l : list (JSONPath * MappingTarget)) :
  row_of path <$> (prod_map (cons c) id <$> l) = row_of (path ++ [JSONPathComponent_get c]) <$> l.
Proof.
  rewrite <-list_fmap_compose. apply list_fmap_ext. intros _ [p t] _. unfold row_of. cbn. by rewrite <-app_assoc.
Qed.

Definition items_count (m : ActionMap) : nat := list_sum (map (λ x, actions_count x.2) m).

Lemma actions_count_eq a : actions_count a = S (items_count (children a)).
Proof. by destruct a. Qed.

Lemma drop_last_app p x : drop_last (p ++ [x]) = p.
Proof. unfold drop_last. rewrite length_app. cbn. by rewrite Nat.add_sub, take_app_length. Qed.

Lemma set_last_app p x y : set_last y (p ++ [x]) = p ++ [y].
Proof. unfold set_last. rewrite length_app. cbn. by rewrite Nat.add_sub, take_app_length. Qed.

(** A finished level is popped before the next round. *)
Lemma write_loop_pop n m stack p x out :
  write_loop n ([] :: m :: stack, p ++ [x], out) = write_loop n (m :: stack, p, out).
Proof. destruct n; [done|]. cbn [write_loop]. unfold write_step. cbn [pop_levels]. by rewrite drop_last_app. Qed.

Lemma write_loop_level a : ∀ n stack p x out,
  ∃ x', write_loop (items_count (children a) + n) (children a :: stack, p ++ [x], out) =
    write_loop n ([] :: stack, p ++ [x'], out ++ (row_of p <$> below_targets (children a))).
Proof.
  induction a as [m ts IH] using actions_nested_ind. cbn [children]. clear ts.
  induction IH as [|[c a] m Ha _ IHm]; intros n stack p x out; [exists x; cbn; by rewrite app_nil_r|]. cbn [snd] in Ha.
  change (items_count ((c, a) :: m)) with (actions_count a + items_count m). rewrite actions_count_eq. cbn [Nat.add write_loop].
  unfold write_step. cbn [pop_levels]. rewrite set_last_app, <-Nat.add_assoc.
  destruct (Ha (items_count m + n) (m :: stack) (p ++ [JSONPathComponent_get c]) JNull
    (out ++ (target_row (p ++ [JSONPathComponent_get c]) <$> target_fields a))) as [x' ->].
  rewrite write_loop_pop.
  destruct (IHm n stack p (JSONPathComponent_get c)
    ((out ++ (target_row (p ++ [JSONPathComponent_get c]) <$> target_fields a)) ++
     (row_of (p ++ [JSONPathComponent_get c]) <$> below_targets (children a)))) as [x'' ->].
  exists x''. f_equal. f_equal. rewrite <-!app_assoc. f_equal. rewrite below_targets_cons, fmap_app, row_of_cons.
  destruct a as [ma ts]. rewrite all_targets_eq, fmap_app, <-app_assoc. f_equal. rewrite <-list_fmap_compose.
  apply list_fmap_ext. intros _ t _. unfold row_of. cbn. by rewrite app_nil_r.
Qed.

(** The JSON rows of a mapping: the loop of [to_json] visits every node. *)
Lemma write_loop_rows a :
  write_loop (S (actions_count a)) ([children a], [JNull], []) = Ok (row_of [] <$> below_targets (children a)).
Proof.
  rewrite actions_count_eq. replace (S (S (items_count (children a)))) with (items_count (children a) + 2) by lia.
  destruct (write_loop_level a 2 [] [] JNull []) as [x E]. exact E.
Qed.

(** ** Reading them back *)

#[export] Instance component_lt_strict : StrictOrder component_lt.
Proof.
  split.
  - intros [k|i]; unfold complement; cbn; [apply irreflexivity; apply _|lia].
  - intros [j|i] [k|l] [p|q]; cbn; try done; [by intros; etrans|lia].
Qed.

Lemma action_find_beyond c m : Forall (λ k, component_lt k c) m.*1 → action_find c m = None.
Proof.
  induction m as [|[k a] m IH]; csimpl; [done|]. intros [Hk Hm]%Forall_cons.
  rewrite decide_False by (intros ->; by apply (irreflexivity component_lt c)). auto.
Qed.

Lemma action_set_beyond c a m : Forall (λ k, component_lt k c) m.*1 → action_set c a m = m ++ [(c, a)].
Proof.
  induction m as [|[k b] m IH]; csimpl; [done|]. intros [Hk Hm]%Forall_cons.
  rewrite decide_False by (intros ->; by apply (irreflexivity component_lt c)).
  rewrite decide_False by (intros ?; apply (irreflexivity component_lt c); by etrans). by rewrite IH.
Qed.

Lemma action_find_end c a m : Forall (λ k, component_lt k c) m.*1 → action_find c (m ++ [(c, a)]) = Some a.
Proof.
  induction m as [|[k b] m IH]; csimpl; [by rewrite decide_True|]. intros [Hk Hm]%Forall_cons.
  rewrite decide_False by (intros ->; by apply (irreflexivity component_lt c)). auto.
Qed.

Lemma action_set_end c a b m : Forall (λ k, component_lt k c) m.*1 → action_set c b (m ++ [(c, a)]) = m ++ [(c, b)].
Proof.
  induction m as [|[k d] m IH]; csimpl; [by rewrite decide_True|]. intros [Hk Hm]%Forall_cons.
  rewrite decide_False by (intros ->; by apply (irreflexivity component_lt c)).
  rewrite decide_False by (intros ?; apply (irreflexivity component_lt c); by etrans). by rewrite IH.
Qed.

(** A target added at the end of a path. *)
Fixpoint insert_target (path : JSONPath) (t : MappingTarget) (a : MappingActions) : MappingActions :=
  match path with
  | [] => push_target t a
  | c :: path =>
      mkActions (action_set c (insert_target path t (default new_MappingActions (action_find c (children a)))) (children a))
        (target_fields a)
  end.

Definition insert_targets (l : list (JSONPath * MappingTarget)) (a : MappingActions) : MappingActions :=
  foldl (λ a x, insert_target x.1 x.2 a) a l.

Lemma insert_targets_app l k a : insert_targets (l ++ k) a = insert_targets k (insert_targets l a).
Proof. apply foldl_app. Qed.

Lemma insert_below c l m ts b : Forall (λ k, component_lt k c) m.*1 →
  insert_targets (prod_map (cons c) id <$> l) (mkActions (m ++ [(c, b)]) ts) = mkActions (m ++ [(c, insert_targets l b)]) ts.
Proof.
  intros Hm. revert b. induction l as [|[p t] l IH]; intros b; [done|]. unfold insert_targets in *. cbn.
  rewrite action_find_end, action_set_end by done. apply IH.
Qed.

Lemma insert_below_new c l m ts : Forall (λ k, component_lt k c) m.*1 → l ≠ [] →
  insert_targets (prod_map (cons c) id <$> l) (mkActions m ts) = mkActions (m ++ [(c, insert_targets l new_MappingActions)]) ts.
Proof.
  intros Hm Hl. destruct l as [|[p t] l]; [done|].
  change (insert_targets (prod_map (cons c) id <$> (p, t) :: l) (mkActions m ts))
    with (insert_targets (prod_map (cons c) id <$> l) (insert_target (c :: p) t (mkActions m ts))).
  cbn [insert_target children target_fields]. rewrite action_find_beyond, action_set_beyond, insert_below by done. done.
Qed.

(** *** What mappings read from JSON look like *)

Definition target_ok (t : MappingTarget) : Prop := clean (field t) ∧ clean (categoriser t).

(** The children are in order and each of them leads to a target. *)
Fixpoint actions_ok (a : MappingActions) : Prop :=
  match a with
  | mkActions m ts =>
      StronglySorted component_lt m.*1 ∧ Forall target_ok ts ∧
      foldr (λ x P, (component_ok x.1 ∧ all_targets x.2 ≠ [] ∧ actions_ok x.2) ∧ P) True m
  end.

Definition child_ok (x : JSONPathComponent * MappingActions) : Prop :=
  component_ok x.1 ∧ all_targets x.2 ≠ [] ∧ actions_ok x.2.

Lemma actions_ok_eq m ts :
  actions_ok (mkActions m ts) ↔ StronglySorted component_lt m.*1 ∧ Forall target_ok ts ∧ Forall child_ok m.
Proof.
  cbn. enough (E : foldr (λ x P, (component_ok x.1 ∧ all_targets x.2 ≠ [] ∧ actions_ok x.2) ∧ P) True m ↔ Forall child_ok m) by by rewrite E.
  induction m as [|x m IH]; cbn; [done|]. by rewrite IH, Forall_cons.
Qed.

Lemma insert_all_targets a : actions_ok a → insert_targets (all_targets a) new_MappingActions = a.
Proof.
  induction a as [m ts IH] using actions_nested_ind. intros (Hs & _ & Hm)%actions_ok_eq.
  rewrite all_targets_eq, insert_targets_app.
  assert (E : ∀ ts0, insert_targets (pair [] <$> ts) (mkActions [] ts0) = mkActions [] (ts0 ++ ts)).
  { clear. induction ts as [|t ts IH]; intros ts0; cbn; [by rewrite app_nil_r|]. unfold insert_targets in *. cbn. unfold push_target. cbn.
    by rewrite IH, <-app_assoc. }
  unfold new_MappingActions at 1. rewrite E. cbn [app]. clear E.
  change (mkActions m ts) with (mkActions ([] ++ m) ts). change (m.*1) with (([] ++ m : ActionMap).*1) in Hs.
  revert Hs. generalize ([] : ActionMap). revert IH Hm. induction m as [|[c a] m IHm]; intros IH Hm m0 Hs; [by rewrite app_nil_r|].
  apply Forall_cons in IH as [IHa IH], Hm as [(Hc & Hp & Ha) Hm]. cbn [fst snd] in *.
  rewrite below_targets_cons, insert_targets_app, insert_below_new; [|..|done].
  - rewrite IHa by done. rewrite IHm; [by rewrite <-app_assoc|done..|]. by rewrite <-app_assoc.
  - rewrite fmap_app in Hs. apply Forall_forall. intros k Hk. eapply (StronglySorted_app_1_elem_of component_lt); [exact Hs|done|]. cbn. set_solver.
Qed.

(** *** Rows that were written *)

Lemma find_path_insert path (op : M MappingActions ()) t a : path ≠ [] → Forall component_ok path →
  (∀ b, op b = (push_target t b, Ok ())) →
  find_path (JSONPathComponent_get <$> path) op a = (insert_target path t a, Ok ()).
Proof.
  intros Hne Hp Hop. revert a. induction Hp as [|c path Hc Hp IH]; intros a; [done|]. cbn [fmap list_fmap insert_target].
  assert (E : ∀ (op' : M MappingActions ()) f, (∀ b, op' b = (f b, Ok ())) →
    (comp ← liftM (JSONPathComponent_set (JSONPathComponent_get c)); on_child comp op') a =
    (mkActions (action_set c (f (default new_MappingActions (action_find c (children a)))) (children a)) (target_fields a), Ok ())).
  { intros op' f Hf. rewrite component_get_set by done. unfold mbind, M_bind, liftM, on_child. by rewrite Hf. }
  destruct path as [|c' path]; [by apply E|]. cbn [fmap list_fmap] in *. apply (E _ (insert_target (c' :: path) t)).
  intros b. by apply IH.
Qed.

Lemma set_last_push f s a : set_last_categoriser s (push_target (new_MappingTarget f) a) = push_target (mkTarget f s) a.
Proof.
  unfold set_last_categoriser, push_target. cbn. rewrite last_snoc, length_app. cbn. by rewrite Nat.add_sub, take_app_length.
Qed.

Lemma target_row_eq path f s :
  target_row path (mkTarget f s) =
    JObj ((if decide (s = "") then [] else [("categoriser", jstr s)]) ++ [("from", JArr path); ("to", jstr f)]).
Proof. unfold target_row. cbn [categoriser]. by case_decide. Qed.

Lemma read_row_written path t a : path ≠ [] → Forall component_ok path → target_ok t →
  read_row (row_of [] (path, t)) a = (insert_target path t a, Ok ()).
Proof.
  intros Hne Hp [Hf Hc]. destruct t as [f s]. cbn [field categoriser] in *. unfold row_of. cbn [fst snd app].
  assert (E : ∀ b, add_target (jstr f) (target_row (JSONPathComponent_get <$> path) (mkTarget f s)) b = (push_target (mkTarget f s) b, Ok ())).
  { intros b. rewrite target_row_eq, clean_jstr by done. unfold add_target, mbind, M_bind, liftM, modifyM, mret, M_ret.
    cbn [asString]. case_decide as Hs; cbn [app].
    - change (json_index _ "categoriser") with (Ok JNull : res json). cbn [isNull]. by rewrite Hs.
    - change (json_index _ "categoriser") with (Ok (jstr s) : res json). rewrite clean_jstr by done.
      cbn [isNull isString json_check_string asString]. by rewrite set_last_push. }
  rewrite <-(find_path_insert path _ (mkTarget f s) a Hne Hp E). rewrite target_row_eq. by case_decide.
Qed.

Lemma below_targets_ok m : Forall child_ok m → Forall (λ x, x.1 ≠ [] ∧ Forall component_ok x.1 ∧ target_ok x.2) (below_targets m).
Proof.
  assert (Ha : ∀ a, actions_ok a → Forall (λ x, Forall component_ok x.1 ∧ target_ok x.2) (all_targets a)).
  { intros a. induction a as [m' ts IH] using actions_nested_ind. intros (_ & Ht & Hm)%actions_ok_eq. rewrite all_targets_eq.
    apply Forall_app. split; [apply Forall_fmap; eapply Forall_impl; [exact Ht|]; by intros t Hok|].
    unfold below_targets. apply Forall_join, Forall_fmap. apply Forall_forall. intros [c a] Hin. rewrite Forall_forall in IH, Hm.
    destruct (Hm _ Hin) as (Hc & _ & Ha). cbn in *. apply Forall_fmap. eapply Forall_impl; [apply (IH _ Hin), Ha|].
    intros [p t] [Hp Hok]. cbn in *. auto. }
  intros Hm. unfold below_targets. apply Forall_join, Forall_fmap. eapply Forall_impl; [exact Hm|].
  intros [c a] (Hc & _ & Hok). cbn in *. apply Forall_fmap. eapply Forall_impl; [by apply Ha|]. intros [p t] [Hp Ht]. cbn in *. auto.
Qed.

Lemma read_rows_written l a : Forall (λ x, x.1 ≠ [] ∧ Forall component_ok x.1 ∧ target_ok x.2) l →
  for_each (row_of [] <$> l) read_row a = (insert_targets l a, Ok ()).
Proof.
  intros Hl. revert a. induction Hl as [|[p t] l (Hp & Hc & Ht) _ IH]; intros a; [done|]. cbn [fmap list_fmap for_each].
  rewrite (bind_ok _ _ _ (insert_target p t a) ()); [apply IH|]. by apply read_row_written.
Qed.

(** *** What is read *)

Lemma action_set_ok c a m : StronglySorted component_lt m.*1 → Forall child_ok m → child_ok (c, a) →
  StronglySorted component_lt (action_set c a m).*1 ∧ Forall child_ok (action_set c a m).
Proof.
  intros Hs Hm Ha.
  assert (H : StronglySorted component_lt (action_set c a m).*1 ∧ Forall child_ok (action_set c a m) ∧
    ∀ k, k ∈ (action_set c a m).*1 → k = c ∨ k ∈ m.*1); [|naive_solver].
  induction m as [|[k b] m IH]; cbn in *.
  - split_and!; [by repeat constructor|by apply Forall_singleton|set_solver].
  - apply StronglySorted_inv in Hs as [Hs Hall]. apply Forall_cons in Hm as [Hb Hm].
    case_decide as Hd; [subst k; split_and!; [by constructor|by constructor|set_solver]|].
    case_decide as Hlt.
    + split_and!; cbn; [|by rewrite !Forall_cons|set_solver]. constructor; [by constructor|]. constructor; [done|].
      eapply Forall_impl; [exact Hall|]. intros j Hj. by etrans.
    + destruct (IH Hs Hm) as (H1 & H2 & H3). split_and!; cbn; [|by constructor|set_solver]. constructor; [done|].
      apply Forall_forall. intros j [->|Hj]%H3; [|by rewrite Forall_forall in Hall; apply Hall].
      assert (Htri : component_lt k c ∨ k = c ∨ component_lt c k); [|naive_solver].
      destruct k as [j|i], c as [l|n]; cbn; try auto; [destruct (str_lt_trichotomy j l) as [|[->|]]|destruct (N.lt_trichotomy i n) as [|[->|]]]; auto.
Qed.

Lemma action_find_ok c m a : Forall child_ok m → action_find c m = Some a → actions_ok a.
Proof.
  induction 1 as [|[k b] m (_ & _ & Hb) _ IH]; cbn; [done|]. case_decide; [by intros [= <-]|done].
Qed.

Lemma insert_target_ok path t a : Forall component_ok path → target_ok t → actions_ok a →
  actions_ok (insert_target path t a) ∧ all_targets (insert_target path t a) ≠ [].
Proof.
  intros Hp Ht. revert a. induction Hp as [|c path Hc Hp IH]; intros [m ts] (Hs & Hts & Hm)%actions_ok_eq; cbn [insert_target].
  - unfold push_target. cbn [children target_fields]. rewrite actions_ok_eq, all_targets_eq, fmap_app. split.
    + split_and!; [done| |done]. apply Forall_app. split; [done|by apply Forall_singleton].
    + by intros [[_ ?]%app_eq_nil _]%app_eq_nil.
  - cbn [children target_fields]. set (b := default new_MappingActions (action_find c m)).
    assert (Hb : actions_ok b).
    { subst b. destruct (action_find c m) as [b|] eqn:E; [by eapply action_find_ok|]. cbn. by repeat constructor. }
    destruct (IH b Hb) as [H1 H2]. set (b' := insert_target path t b) in *.
    destruct (action_set_ok c b' m Hs Hm ltac:(by split_and!)) as [H3 H4]. split; [by apply actions_ok_eq|].
    rewrite all_targets_eq. assert (H5 : (c, b') ∈ action_set c b' m).
    { generalize b'. clear. intros b'. induction m as [|[k d] m IH]; cbn; [by left|]. case_decide as E; [subst; by left|]. case_decide; rewrite elem_of_cons; [by left|by right]. }
    apply list_elem_of_split in H5 as (m1 & m2 & ->). unfold below_targets. rewrite fmap_app, join_app, fmap_cons. cbn.
    destruct (all_targets b') as [|x l]; [done|]. cbn. intros [_ [_ ?]%app_eq_nil]%app_eq_nil. done.
Qed.

Lemma find_path_run path t (op : M MappingActions ()) a a' :
  Forall (λ x, json_clean x = true) path → (∀ b b', op b = (b', Ok ()) → b' = push_target t b) →
  find_path path op a = (a', Ok ()) → ∃ cs, Forall component_ok cs ∧ cs ≠ [] ∧ a' = insert_target cs t a.
Proof.
  intros Hp Hop.
  assert (E : ∀ x (op' : M MappingActions ()) (cs' : JSONPath → Prop), json_clean x = true →
    (∀ b b', op' b = (b', Ok ()) → ∃ cs, cs' cs ∧ Forall component_ok cs ∧ b' = insert_target cs t b) →
    ∀ a a', (comp ← liftM (JSONPathComponent_set x); on_child comp op') a = (a', Ok ()) →
    ∃ cs, Forall component_ok cs ∧ cs ≠ [] ∧ a' = insert_target cs t a).
  { clear. intros x op' cs' Hx Hop' a a' H. apply M_bind_inv in H as (? & c & [= <- Hc] & H). unfold on_child in H.
    destruct (op' _) as [b' r] eqn:Eb in H. injection H as <- ->. destruct (Hop' _ _ Eb) as (cs & _ & Hcs & ->).
    exists (c :: cs). split_and!; [constructor; [by eapply component_set_ok|done]|done|done]. }
  assert (Hlast : ∀ b b', op b = (b', Ok ()) → ∃ cs, cs = [] ∧ Forall component_ok cs ∧ b' = insert_target cs t b).
  { intros b b' ->%Hop. by exists []. }
  revert a a'. induction Hp as [|x path Hx Hp IH]; intros a a'; [by apply (E JNull op (λ cs, cs = []))|].
  destruct path as [|y path]; [by apply (E x op (λ cs, cs = []))|]. apply (E x _ (λ cs, cs ≠ [])); [done|].
  intros b b' H. destruct (IH b b' H) as (cs & ? & ? & ?). eauto.
Qed.

Lemma add_target_run to item : json_clean to = true → isString to = true → json_clean item = true →
  ∃ t, ∀ b b', add_target to item b = (b', Ok ()) → target_ok t ∧ b' = push_target t b.
Proof.
  intros Ht Hs Hi. destruct to as [| | | |s| | |]; try done. cbn in Ht. apply bool_decide_eq_true in Ht.
  destruct (json_index item "categoriser") as [x|e|] eqn:Ex.
  - destruct x as [| | | |c| | |].
    { exists (mkTarget s ""). intros u u' H. unfold add_target, mbind, M_bind, liftM, modifyM in H. cbn [asString] in H. rewrite Ex in H.
      injection H as <-. done. }
    4: { exists (mkTarget s c). intros u u' H. unfold add_target, mbind, M_bind, liftM, modifyM in H. cbn [asString] in H. rewrite Ex in H.
         cbn in H. injection H as <-. split; [|apply set_last_push]. split; [done|].
         pose proof (json_clean_get item "categoriser" JNull _ Hi eq_refl Ex) as Hc. by apply bool_decide_eq_true in Hc. }
    all: exists (mkTarget s ""); intros u u' H; unfold add_target, mbind, M_bind, liftM, modifyM in H; cbn [asString] in H; by rewrite Ex in H.
  - exists (mkTarget s ""). intros u u' H. unfold add_target, mbind, M_bind, liftM, modifyM in H. cbn [asString] in H. by rewrite Ex in H.
  - exists (mkTarget s ""). intros u u' H. unfold add_target, mbind, M_bind, liftM, modifyM in H. cbn [asString] in H. by rewrite Ex in H.
Qed.

(** The actions at the root of a mapping. *)
Definition root_ok (a : MappingActions) : Prop := actions_ok a ∧ target_fields a = [].

Lemma insert_target_root cs t a : cs ≠ [] → Forall component_ok cs → target_ok t → root_ok a → root_ok (insert_target cs t a).
Proof. intros Hne Hcs Ht [Ha Hr]. split; [by apply insert_target_ok|]. by destruct cs. Qed.

Lemma find_path_fails {A} path (op : M MappingActions A) a a' r :
  (∀ b b' r, op b = (b', Ok r) → False) → find_path path op a = (a', Ok r) → False.
Proof.
  intros Hop. revert a a' r.
  assert (E : ∀ x (op' : M MappingActions A), (∀ b b' r, op' b = (b', Ok r) → False) →
    ∀ a a' r, (comp ← liftM (JSONPathComponent_set x); on_child comp op') a = (a', Ok r) → False).
  { intros x op' Hop' a a' r H. apply M_bind_inv in H as (? & c & [= <- Hc] & H). unfold on_child in H.
    destruct (op' _) as [b r'] eqn:Eb in H. injection H as _ ->. eauto. }
  induction path as [|x [|y path] IH]; intros a a' r; apply E; eauto.
Qed.

Lemma read_row_ok item a a' : json_clean item = true → root_ok a → read_row item a = (a', Ok ()) → root_ok a'.
Proof.
  intros Hi Ha H. unfold read_row in H. apply M_bind_inv in H as (? & [] & [= <- _] & H).
  apply M_bind_inv in H as (? & from & [= <- Hfrom] & H). apply M_bind_inv in H as (? & to & [= <- Hto] & H).
  apply M_bind_inv in H as (? & [] & [= <- Hs] & H).
  pose proof (json_clean_get _ _ JNull _ Hi eq_refl Hfrom) as Hcf. pose proof (json_clean_get _ _ JNull _ Hi eq_refl Hto) as Hct.
  assert (Hstr : isString to = true) by by destruct (isString to) eqn:E; [|unfold json_check_string in Hs; rewrite E in Hs].
  destruct (add_target_run to item Hct Hstr Hi) as [t Hadd]. unfold MappingActions_find in H.
  set (path := if negb (isArray from) then [from] else json_elems from).
  assert (Hpath : Forall (λ x, json_clean x = true) path).
  { subst path. destruct (isArray from); cbn; [by apply json_clean_elems|by apply Forall_singleton]. }
  assert (Hf : find_path path (add_target to item) a = (a', Ok ())) by (subst path; by destruct (isArray from)).
  destruct (decide (target_ok t)) as [Ht|Hn].
  - destruct (find_path_run path t (add_target to item) a a' Hpath ltac:(intros b b' Hb; apply Hadd, Hb) Hf) as (cs & Hcs & Hne & ->).
    by apply insert_target_root.
  - exfalso. eapply find_path_fails; [|exact Hf]. intros b b' [] Hb. by apply Hn, (Hadd b b').
Qed.

Lemma read_rows_ok l a a' : Forall (λ x, json_clean x = true) l → root_ok a →
  for_each l read_row a = (a', Ok ()) → root_ok a'.
Proof.
  intros Hl. revert a. induction Hl as [|x l Hx _ IH]; intros a Ha; cbn; [by intros [= <-]|].
  intros (a1 & [] & H1 & H)%M_bind_inv. eapply IH; [|exact H]. by eapply read_row_ok.
Qed.

(** ** Mappings *)

Record mapping_ok (m : Mapping) : Prop := {
  mapping_when : ∀ clause, when m = Some clause → clause_ok clause;
  mapping_root : root_ok (mappings m);
}.

Lemma mapping_from_json_ok v m0 m : json_clean v = true → Mapping_from_json v m0 = (m, Ok ()) → mapping_ok m.
Proof.
  intros Hv H. unfold Mapping_from_json in H.
  apply M_bind_inv in H as (? & [] & [= <- _] & H). apply M_bind_inv in H as (? & w & [= <- Hw] & H).
  apply M_bind_inv in H as (? & c & [= <- Hc] & H). apply M_bind_inv in H as (? & [] & [= <-] & H).
  apply M_bind_inv in H as (? & [] & [= <-] & H). apply M_bind_inv in H as (? & mapval & [= <- Hm] & H).
  apply M_bind_inv in H as (m1 & [] & H1 & H). apply M_bind_inv in H as (? & defval & [= <- _] & H).
  apply M_bind_inv in H as (? & d & [= <- _] & [= <-]).
  pose proof (json_clean_get _ _ JNull _ Hv eq_refl Hw) as Hcw. pose proof (json_clean_get _ _ JNull _ Hv eq_refl Hm) as Hcm.
  assert (Hroot : root_ok new_MappingActions) by (split; [apply actions_ok_eq; split_and!; constructor|done]).
  assert (E : when m1 = c ∧ root_ok (mappings m1)).
  { destruct (isNull mapval); [by injection H1 as <-|].
    apply M_bind_inv in H1 as (? & [] & [= <- _] & H1). unfold on_mappings in H1. cbn [mappings set_when] in H1.
    destruct (for_each _ _ _) as [a r] eqn:E in H1. injection H1 as <- ->. split; [done|]. cbn.
    eapply read_rows_ok; [by apply json_clean_elems|exact Hroot|exact E]. }
  destruct E as [E1 E2]. split; cbn; [|done]. rewrite E1. intros clause. exact (conditional_from_json_ok w c clause Hcw Hc).
Qed.

Lemma mapping_json_roundtrip_ok m m0 : mapping_ok m →
  ∃ j, Mapping_to_json m = Ok j ∧ Mapping_from_json j m0 = (m, Ok ()).
Proof.
  intros [Hw [Ha Hr]]. destruct m as [w [cs ts] d]. cbn [when mappings default_action target_fields] in *. subst ts.
  unfold Mapping_to_json. cbn [when mappings default_action]. rewrite write_loop_rows. cbn [mbind res_bind children].
  eexists. split; [reflexivity|]. pose proof (proj1 (actions_ok_eq _ _) Ha) as (_ & _ & Hc).
  set (rows := row_of [] <$> below_targets cs).
  set (j := if decide (rows = []) then _ else _).
  assert (Hj : isObject j = true ∧ json_get j "when" JNull = Ok (Conditional_to_json w) ∧
    json_index j "map" = Ok (if decide (rows = []) then JNull else JArr rows) ∧
    json_get j "default" JNull = Ok (match d with PRESERVE_TOP => JNull | DISCARD => JStr "discard" end)).
  { subst j. destruct w, d; case_decide; split_and!; reflexivity. }
  destruct Hj as (Hj & H1 & H2 & H3). unfold Mapping_from_json, json_check_object. rewrite Hj.
  rewrite (bind_ok _ _ m0 m0 ()) by done. rewrite H1. rewrite (bind_ok _ _ m0 m0 (Conditional_to_json w)) by done.
  rewrite conditional_json_roundtrip by done. rewrite (bind_ok _ _ m0 m0 w) by done.
  rewrite (bind_ok _ _ m0 (set_when w m0) ()) by done.
  rewrite (bind_ok _ _ (set_when w m0) (mkMapping w new_MappingActions (default_action m0)) ()) by done.
  set (m1 := mkMapping w new_MappingActions (default_action m0)). rewrite H2, (bind_ok _ _ m1 m1 (if decide (rows = []) then JNull else JArr rows)) by done.
  rewrite (bind_ok _ _ m1 (mkMapping w (mkActions cs []) (default_action m0)) ()).
  - rewrite H3. by destruct d.
  - assert (Hrows : for_each rows read_row new_MappingActions = (mkActions cs [], Ok ())).
    { subst rows. rewrite read_rows_written by (by apply below_targets_ok). f_equal.
      rewrite <-(insert_all_targets _ Ha). by rewrite all_targets_eq. }
    case_decide as Hd; cbn [isNull].
    + rewrite Hd in Hrows. injection Hrows as Hn. unfold m1, new_MappingActions. by rewrite Hn.
    + rewrite (bind_ok _ _ m1 m1 ()) by done. unfold on_mappings. cbn [mappings m1 json_elems]. by rewrite Hrows.
Qed.

(** ** Properties *)

(** Whatever JSON a mapping was read from, writing it and reading that back gives the
    same mapping: the same condition, the same targets at the same paths in the same
    order, and the same treatment of the members that are not mapped. *)
Theorem mapping_json_roundtrip v m0 m m1 (Hv : json_clean v = true) (H : Mapping_from_json v m0 = (m, Ok ())) :
  ∃ j, Mapping_to_json m = Ok j ∧ Mapping_from_json j m1 = (m, Ok ()).
Proof. apply mapping_json_roundtrip_ok. by eapply mapping_from_json_ok. Qed.

(** Copying a condition, which goes through its JSON form, gives the same condition. *)
Theorem conditional_copy_same v c (Hv : json_clean v = true) (H : Conditional_from_json v = Ok c) :
  Conditional_copy c = Ok c.
Proof. apply conditional_json_roundtrip. intros clause. exact (conditional_from_json_ok v c clause Hv H). Qed.

(** A mapping with a condition, nested paths and a categoriser. *)
Definition mapping_doc : json :=
  JObj [("default", JStr "discard");
        ("map", JArr [JObj [("from", JArr [JStr "body"; JInt 0]); ("to", JStr "first")];
                      JObj [("categoriser", JStr "lang"); ("from", JStr "body"); ("to", JStr "lang_tag")];
                      JObj [("from", JArr [JStr "author"; JStr "name"]); ("to", JStr "name")]]);
        ("when", JObj [("equals", JArr [JObj [("get", JArr [JStr "kind"])]; JObj [("literal", JStr "post")]])])].

Lemma mapping_json_roundtrip_witness :
  let m := (Mapping_from_json mapping_doc new_Mapping).1 in
  json_clean mapping_doc = true ∧ Mapping_from_json mapping_doc new_Mapping = (m, Ok ()) ∧
  ∃ j, Mapping_to_json m = Ok j ∧ Mapping_from_json j new_Mapping = (m, Ok ()).
Proof.
  refine (conj _ (conj _ (mapping_json_roundtrip mapping_doc new_Mapping _ new_Mapping _ _))); vm_compute; reflexivity.
Defined.

Lemma conditional_copy_same_witness :
  let v := JObj [("equals", JArr [JObj [("exists", JArr [JStr "a"; JInt 2])]; JObj [("literal", JBool true)]])] in
  let c := Some (ConditionalClauseEquals [ConditionalClauseExists [JSONPATH_KEY "a"; JSONPATH_INDEX 2]; ConditionalClauseLiteral (JBool true)]) in
  json_clean v = true ∧ Conditional_from_json v = Ok c ∧ Conditional_copy c = Ok c.
Proof.
  intros v c. exact (conj eq_refl (conj eq_refl (conditional_copy_same v c eq_refl eq_refl))).
Defined.
