(* ===== verification/Pipe.v ===== *)
(** * Pipes

    src/jsonxapian/pipe.h and pipe.cc: a list of mappings with the pipe their output is
    sent to.  Growing the vector of mappings copies the conditions of those it holds
    through their JSON form, which gives the same conditions
    ([MappingJson.conditional_copy_same]). *)

From S2P Require Import Prelude Json JsonPath Mapping MappingJson.

Record Pipe := mkPipe { pipe_mappings : list Mapping; apply_all : bool; target : string }.

Definition new_Pipe : Pipe := mkPipe [] false "".

Definition set_mappings (l : list Mapping) (p : Pipe) : Pipe := mkPipe l (apply_all p) (target p).
Definition set_apply_all (b : bool) (p : Pipe) : Pipe := mkPipe (pipe_mappings p) b (target p).
Definition set_target (s : string) (p : Pipe) : Pipe := mkPipe (pipe_mappings p) (apply_all p) s.

Definition mappings_to_json (l : list Mapping) : res json :=
  foldl (λ v i, v ← v; x ← Mapping_to_json i; Ok (json_append v x)) (Ok (JArr [])) l.

Definition Pipe_to_json (p : Pipe) : res json :=
  let value := JObj [] in
  value ← (if decide (pipe_mappings p = []) then Ok value
           else mappings_obj ← mappings_to_json (pipe_mappings p); Ok (json_set value "mappings" mappings_obj));
  let value := if apply_all p then json_set value "apply_all" (JBool true) else value in
  Ok (if decide (target p = "") then value else json_set value "target" (jstr (target p))).

(** [mappings.resize(mappings.size() + 1); mappings.back().from_json( *i )] *)
Definition push_mapping (i : json) : M Pipe () := λ p,
  let '(m, r) := Mapping_from_json i new_Mapping in (set_mappings (pipe_mappings p ++ [m]) p, r).

Definition Pipe_from_json (value : json) : M Pipe () :=
  modifyM (λ _, new_Pipe) ;;
  liftM (json_check_object value "pipe definition") ;;
  tmp ← liftM (json_get value "mappings" JNull);
  (if isNull tmp then mret ()
   else liftM (json_check_array tmp "pipe mappings") ;; for_each (json_elems tmp) push_mapping) ;;
  tmp ← liftM (json_get value "apply_all" JNull);
  (if isNull tmp then mret ()
   else liftM (json_check_bool tmp "pipe apply_all property") ;; modifyM (set_apply_all (asBool tmp))) ;;
  tmp ← liftM (json_get value "target" JNull);
  if isNull tmp then mret ()
  else
    liftM (json_check_string tmp "pipe target property") ;;
    s ← liftM (asString tmp); modifyM (set_target s).

(** ** Lemmas *)

Record pipe_ok (p : Pipe) : Prop := {
  pipe_mappings_ok : Forall mapping_ok (pipe_mappings p);
  pipe_target_ok : clean (target p);
}.

Lemma mappings_to_json_ok l : Forall mapping_ok l →
  ∃ js, mappings_to_json l = Ok (JArr js) ∧ length js = length l ∧
    ∀ p, for_each js push_mapping p = (set_mappings (pipe_mappings p ++ l) p, Ok ()).
Proof.
  unfold mappings_to_json. intros Hl.
  enough (H : ∃ js, (∀ k, foldl (λ v i, v ← v; x ← Mapping_to_json i; Ok (json_append v x)) (Ok (JArr k)) l = Ok (JArr (k ++ js))) ∧
    length js = length l ∧ ∀ p, for_each js push_mapping p = (set_mappings (pipe_mappings p ++ l) p, Ok ())).
  { destruct H as (js & H1 & H2 & H3). exists js. split_and!; [apply (H1 [])|done..]. }
  induction Hl as [|m l Hm _ (js & H1 & H2 & H3)].
  - exists []. split_and!; [intros k; by rewrite app_nil_r|done|]. intros [ms a t]. unfold set_mappings. cbn. by rewrite app_nil_r.
  - destruct (mapping_json_roundtrip_ok m new_Mapping Hm) as (j & Hj & Hr). exists (j :: js). split_and!; [|by cbn; rewrite H2|].
    + intros k. cbn [foldl mbind res_bind]. rewrite Hj. cbn [mbind res_bind json_append]. rewrite H1. by rewrite <-app_assoc.
    + intros p. cbn [for_each]. rewrite (bind_ok _ _ p (set_mappings (pipe_mappings p ++ [m]) p) ()).
      * rewrite H3. unfold set_mappings. cbn. by rewrite <-app_assoc.
      * unfold push_mapping. by rewrite Hr.
Qed.

(** A pipe is read back from its JSON form. *)
Lemma pipe_json_roundtrip p p0 : pipe_ok p → ∃ j, Pipe_to_json p = Ok j ∧ Pipe_from_json j p0 = (p, Ok ()).
Proof.
  intros [Hm Ht]. destruct p as [l a t]. cbn [pipe_mappings target] in *.
  destruct (mappings_to_json_ok l Hm) as (js & Hjs & Hlen & Hread). unfold Pipe_to_json. cbn [pipe_mappings apply_all target].
  rewrite Hjs. set (value := if decide (l = []) then _ else _).
  assert (E : value = Ok (if decide (l = []) then JObj [] else JObj [("mappings", JArr js)])) by (subst value; by case_decide).
  rewrite E. cbn [mbind res_bind]. eexists. split; [reflexivity|]. clear value E.
  set (j := if decide (t = "") then _ else _).
  assert (Hj : isObject j = true ∧ json_get j "mappings" JNull = Ok (if decide (l = []) then JNull else JArr js) ∧
    json_get j "apply_all" JNull = Ok (if a then JBool true else JNull) ∧
    json_get j "target" JNull = Ok (if decide (t = "") then JNull else jstr t)).
  { subst j. destruct a; repeat case_decide; split_and!; reflexivity. }
  destruct Hj as (Hj & H1 & H2 & H3). unfold Pipe_from_json, json_check_object. rewrite Hj, H1, H2, H3.
  rewrite (bind_ok _ _ p0 new_Pipe ()), (bind_ok _ _ new_Pipe new_Pipe ()) by done.
  rewrite (bind_ok _ _ new_Pipe new_Pipe (if decide (l = []) then JNull else JArr js)) by done.
  rewrite (bind_ok _ _ new_Pipe (set_mappings l new_Pipe) ()).
  - destruct a; (case_decide as Hd; [by rewrite Hd|by rewrite clean_jstr by done]).
  - destruct (decide (l = [])) as [Hd|Hd]; [by rewrite Hd|]. cbn [isNull]. rewrite (bind_ok _ _ new_Pipe new_Pipe ()) by done. apply Hread.
Qed.

Lemma push_mappings_ok l p p' : Forall (λ x, json_clean x = true) l →
  for_each l push_mapping p = (p', Ok ()) → Forall mapping_ok (pipe_mappings p) →
  Forall mapping_ok (pipe_mappings p') ∧ target p' = target p.
Proof.
  intros Hl. revert p. induction Hl as [|x l Hx _ IH]; intros p; cbn; [by intros [= <-]|].
  intros (p1 & [] & H1 & H2)%M_bind_inv Hp. unfold push_mapping in H1.
  destruct (Mapping_from_json x new_Mapping) as [m r] eqn:Em. injection H1 as <- ->.
  apply (IH _ H2). cbn. apply Forall_app. split; [done|]. apply Forall_singleton. by eapply mapping_from_json_ok.
Qed.

Lemma pipe_from_json_ok v p0 p : json_clean v = true → Pipe_from_json v p0 = (p, Ok ()) → pipe_ok p.
Proof.
  intros Hv H. unfold Pipe_from_json in H. apply M_bind_inv in H as (? & [] & [= <-] & H).
  apply M_bind_inv in H as (? & [] & [= <- _] & H). apply M_bind_inv in H as (? & t1 & [= <- E1] & H).
  apply M_bind_inv in H as (p1 & [] & H1 & H). apply M_bind_inv in H as (? & t2 & [= <- _] & H).
  apply M_bind_inv in H as (p2 & [] & H2 & H). apply M_bind_inv in H as (? & t3 & [= <- E3] & H).
  pose proof (json_clean_get _ _ JNull _ Hv eq_refl E1) as C1. pose proof (json_clean_get _ _ JNull _ Hv eq_refl E3) as C3.
  assert (Hp1 : Forall mapping_ok (pipe_mappings p1) ∧ target p1 = "").
  { destruct (isNull t1); [by injection H1 as <-|]. apply M_bind_inv in H1 as (? & [] & [= <- _] & H1).
    apply json_clean_elems in C1. by apply (push_mappings_ok _ new_Pipe) in H1. }
  assert (Hp2 : pipe_mappings p2 = pipe_mappings p1 ∧ target p2 = "").
  { destruct (isNull t2); [injection H2 as <-; by split; [|apply Hp1]|]. apply M_bind_inv in H2 as (? & [] & [= <- _] & [= <-]). by split; [|apply Hp1]. }
  destruct (isNull t3); [injection H as <-; split; [rewrite (proj1 Hp2); apply Hp1|by rewrite (proj2 Hp2)]|].
  apply M_bind_inv in H as (? & [] & [= <- Hs] & H). apply M_bind_inv in H as (? & s & [= <- Ha] & [= <-]).
  split; cbn; [rewrite (proj1 Hp2); apply Hp1|]. destruct t3; try done. injection Ha as <-. by apply bool_decide_eq_true in C3.
Qed.
