(* ===== verification/NGram.v ===== *)
(** * The categoriser of texts by their ngrams

    src/ngramcat/profile.h, profile.cc, categoriser.h and categoriser.cc.  The profile of
    a text is the list of its most frequent ngrams; a text gets the labels of the profiles
    nearest to its own.

    The Unicode functions of Xapian are the class [UnicodeLib].  A [Utf8Iterator] is the
    list of the characters it still has to visit.  The heap algorithms of the standard
    library are modelled by their contract: a heap is the list of its elements with the
    largest first. *)

From Stdlib Require Import SpecFloat.
From stdpp Require Import sorting.
From S2P Require Import Prelude Json.

(** [Xapian::Unicode] and [Xapian::Utf8Iterator]. *)
Class UnicodeLib := {
  utf8_decode : string → list N;
  append_utf8 : N → string;
  is_wordchar : N → bool;
  unicode_tolower : N → N;
  is_decimal_digit : N → bool;
}.

(** ** Profiles *)

Record NGramProfile := mkProfile { np_max_ngrams : N; positions : gmap string N }.
Record SortedNGramProfile := mkSorted { max_ngrams : N; ngrams : list string }.

Definition empty_NGramProfile : NGramProfile := mkProfile 0 ∅.

(** [init_from_sorted_ngram]: a repeated ngram keeps its last position. *)
Definition init_from_sorted_ngram (other : SortedNGramProfile) : NGramProfile :=
  mkProfile (max_ngrams other)
    (foldl (λ m x, <[x.2 := wrap32 (N.of_nat x.1)]> m) ∅ (imap pair (ngrams other))).

(** [init_from_ngram]: [ngrams[i->second] = i->first] on a vector that has one place for
    each ngram. *)
Definition init_from_ngram (other : NGramProfile) : res SortedNGramProfile :=
  let places := replicate (size (positions other)) "" in
  l ← foldl (λ l '(ngram, pos),
        l ← l;
        if decide (N.to_nat pos < length l) then Ok (<[N.to_nat pos := ngram]> l) else throw UndefinedBehaviour)
      (Ok places) (sorted_items (positions other));
  Ok (mkSorted (np_max_ngrams other) l).

(** [abs(j->second - i)]: the difference of two unsigned numbers, taken as an [int]. *)
Definition abs_diff (a b : N) : N :=
  let d := wrap32 (a + (2 ^ 32 - b)) in
  if (d <? 2 ^ 31)%N then d else (2 ^ 32 - d)%N.

(** [distance]: all the arithmetic is that of unsigned integers. *)
Definition distance (p : SortedNGramProfile) (other : NGramProfile) : N :=
  let ngram_count := N.min (max_ngrams p) (np_max_ngrams other) in
  let ngrams_size := wrap32 (N.of_nat (length (ngrams p))) in
  let count := if (ngrams_size <? ngram_count)%N then wrap32 ((ngram_count - ngrams_size) * ngram_count) else 0%N in
  let len := N.min ngrams_size ngram_count in
  foldl (λ count '(i, ngram),
    wrap32 (count + match positions other !! ngram with None => ngram_count | Some j => abs_diff j (N.of_nat i) end))
    count (imap pair (take (N.to_nat len) (ngrams p))).

(** *** JSON forms *)

Definition SortedNGramProfile_to_json (p : SortedNGramProfile) : json :=
  let value := json_set (JObj []) "ngrams" (foldl (λ v i, json_append v (jstr i)) (JArr []) (ngrams p)) in
  json_set value "max_ngrams" (JUInt (max_ngrams p)).

Definition ngram_item (i : json) : res string :=
  json_check_string i "ngram in ngram list in ngram profile" ;; asString i.

Definition SortedNGramProfile_from_json (value : json) : res SortedNGramProfile :=
  json_check_object value "ngram profile" ;;
  ngram_obj ← json_index value "ngrams";
  json_check_array ngram_obj "ngram list in ngram profile" ;;
  ngrams ← mapM ngram_item (json_elems ngram_obj);
  max_ngrams ← json_get_uint64_member value "max_ngrams" 4294967295;
  Ok (mkSorted (wrap32 max_ngrams) ngrams).

Definition NGramProfile_to_json (p : NGramProfile) : res json :=
  sorted ← init_from_ngram p; Ok (SortedNGramProfile_to_json sorted).

Definition NGramProfile_from_json (value : json) : res NGramProfile :=
  sorted ← SortedNGramProfile_from_json value; Ok (init_from_sorted_ngram sorted).

(** ** Building a profile *)

Section builder.
Context `{!UnicodeLib}.

Definition check_wordchar (ch : N) : N := if is_wordchar ch then unicode_tolower ch else 0.

Definition UNICODE_IGNORE : N := 0xffffffff.

(** Characters of no width. *)
Definition zero_width (ch : N) : bool :=
  (0x200b <=? ch)%N && ((ch <=? 0x200d)%N || (ch =? 0x2060)%N || (ch =? 0xfeff)%N).

Definition check_infix (ch : N) : N :=
  if existsb (N.eqb ch) [39; 38; 0xb7; 0x5f4; 0x2027]%N then ch
  else if (ch =? 0x2019)%N || (ch =? 0x201b)%N then 39
  else if zero_width ch then UNICODE_IGNORE else 0.

Definition check_infix_digit (ch : N) : N :=
  if existsb (N.eqb ch) [44; 46; 59; 0x037e; 0x0589; 0x060d; 0x07f8; 0x2044; 0xfe10; 0xfe13; 0xfe14]%N then ch
  else if zero_width ch then UNICODE_IGNORE else 0.

Definition check_suffix (ch : N) : N := if (ch =? 43)%N || (ch =? 35)%N then ch else 0.

Abbreviation counts := (gmap string N).

(** [++(counts[ngram])] *)
Definition count_ngram (ngram : string) (m : counts) : counts :=
  <[ngram := wrap32 (default 0%N (m !! ngram) + 1)]> m.

(** The ngrams that start at one character, [sublen] characters being still allowed. *)
Fixpoint add_subngrams (sublen : nat) (subpos : list N) (ngram : string) (m : counts) : counts :=
  match sublen, subpos with
  | S sublen, ch :: subpos =>
      let ngram := ngram +:+ append_utf8 ch in
      add_subngrams sublen subpos ngram (count_ngram ngram m)
  | _, _ => m
  end.

Fixpoint add_ngrams_loop (max_ngram_length : nat) (pos : list N) (m : counts) : counts :=
  match pos with
  | [] => m
  | _ :: pos' => add_ngrams_loop max_ngram_length pos' (add_subngrams max_ngram_length pos "" m)
  end.

Definition add_ngrams (max_ngram_length : N) (term : string) (m : counts) : counts :=
  add_ngrams_loop (N.to_nat max_ngram_length) (utf8_decode term) m.

(** *** Splitting a text into terms *)

(** To the start of the next term; [None] at the end of the text. *)
Fixpoint skip_nonword (iter : list N) : option (N * list N) :=
  match iter with
  | [] => None
  | c :: rest => let ch := check_wordchar c in if (ch =? 0)%N then skip_nonword rest else Some (ch, iter)
  end.

(** The characters of a term: [iter] stands at the one [ch] was made from.  The result is
    the term and the position behind it, [None] where the text ends with it. *)
Fixpoint read_word (term : string) (ch : N) (iter : list N) : string * option (list N) :=
  match iter with
  | [] => (term, None)
  | _ :: rest =>
      let term := term +:+ append_utf8 ch in
      match rest with
      | [] => (term, None)
      | c :: rest' =>
          let ch' := check_wordchar c in
          if negb (ch' =? 0)%N then read_word term ch' rest
          else
            match rest' with
            | [] => (term, Some rest)
            | n :: _ =>
                let nextch := check_wordchar n in
                let infix_ch := if is_decimal_digit ch && is_decimal_digit n then check_infix_digit c else check_infix c in
                if (nextch =? 0)%N || (infix_ch =? 0)%N then (term, Some rest)
                else
                  let term := if (infix_ch =? UNICODE_IGNORE)%N then term else term +:+ append_utf8 infix_ch in
                  read_word term nextch rest'
            end
      end
  end.

(** Up to three of the characters that may end a term; [start] is the term without them. *)
Fixpoint read_suffix (start term : string) (count : N) (iter : list N) : string * list N :=
  match iter with
  | [] => (term, [])
  | c :: rest =>
      let ch := check_suffix c in
      if (ch =? 0)%N then (if is_wordchar c then start else term, iter)
      else if (3 <? count + 1)%N then (start, iter)
      else read_suffix start (term +:+ append_utf8 ch) (count + 1) rest
  end.

(** A whole term, from its first character. *)
Definition read_term (ch : N) (iter : list N) : string * list N :=
  match read_word "" ch iter with
  | (term, None) => (term, [])
  | (term, Some iter) => read_suffix term term 0 iter
  end.

(** [add_text]: the loop over the terms of the text. *)
Fixpoint add_text_loop (max_ngram_length : N) (fuel : nat) (iter : list N) (m : counts) : res counts :=
  match fuel with
  | O => OutOfFuel
  | S fuel =>
      match skip_nonword iter with
      | None => Ok m
      | Some (ch, iter) =>
          let '(term, iter) := read_term ch iter in
          add_text_loop max_ngram_length fuel iter (add_ngrams max_ngram_length ("|" +:+ term +:+ "|") m)
      end
  end.

Definition add_text (max_ngram_length : N) (input : string) (m : counts) : res counts :=
  let iter := utf8_decode input in
  add_text_loop max_ngram_length (S (length iter)) iter m.

End builder.

(** *** The most frequent ngrams *)

Record NGramFreq := mkFreq { ngram : string; freq : N }.

#[export] Instance NGramFreq_eq_dec : EqDecision NGramFreq.
Proof. solve_decision. Defined.

(** [operator<]: the most frequent first, then by the ngram. *)
Definition freq_lt (a b : NGramFreq) : Prop :=
  (freq b < freq a)%N ∨ freq a = freq b ∧ str_lt (ngram a) (ngram b).

#[export] Instance freq_lt_dec a b : Decision (freq_lt a b).
Proof. unfold freq_lt. apply _. Defined.

(** [push_heap]. *)
Fixpoint push_heap (x : NGramFreq) (heap : list NGramFreq) : list NGramFreq :=
  match heap with
  | [] => [x]
  | y :: heap => if decide (freq_lt x y) then y :: push_heap x heap else x :: y :: heap
  end.

Definition make_heap (items : list NGramFreq) : list NGramFreq := foldr push_heap [] items.

(** The loop that keeps a heap of fixed size. *)
Fixpoint fill_heap (min_freq : N) (heap iter : list NGramFreq) : list NGramFreq :=
  match iter with
  | [] => heap
  | i :: iter =>
      if (min_freq <? freq i)%N then
        let heap := tail (push_heap i heap) in
        fill_heap (match heap with front :: _ => freq front | [] => min_freq end) heap iter
      else fill_heap min_freq heap iter
  end.

(** [build]. *)
Definition build_sorted (m : gmap string N) (max_ngrams : N) : SortedNGramProfile :=
  let iter := (λ x, mkFreq x.1 x.2) <$> sorted_items m in
  let items := take (N.to_nat max_ngrams) iter in
  let iter := drop (N.to_nat max_ngrams) iter in
  match make_heap items with
  | [] => mkSorted max_ngrams []
  | (front :: _) as heap => mkSorted max_ngrams (ngram <$> reverse (fill_heap (freq front) heap iter))
  end.

Definition build (m : gmap string N) (max_ngrams : N) : NGramProfile :=
  init_from_sorted_ngram (build_sorted m max_ngrams).

(** ** Categorisers *)

Record Categoriser := mkCategoriser {
  profiles : list (string * NGramProfile);
  labels : gset string;
  accuracy_threshold : spec_float;
  max_ngram_length : N;
  cat_max_ngrams : N;
  max_candidates : N;
}.

(** 1.03 as a double. *)
Definition def_accuracy_threshold : spec_float := S754_finite false 4638707616191611 (-52).
Definition def_max_ngram_length : N := 5.
Definition def_max_ngrams : N := 400.
Definition def_max_candidates : N := 3.

Definition new_Categoriser : Categoriser :=
  mkCategoriser [] ∅ def_accuracy_threshold def_max_ngram_length def_max_ngrams def_max_candidates.

Definition push_profile (label : string) (p : NGramProfile) (c : Categoriser) : Categoriser :=
  mkCategoriser (profiles c ++ [(label, p)]) (labels c) (accuracy_threshold c) (max_ngram_length c) (cat_max_ngrams c) (max_candidates c).

(** [profiles.back().second = p] *)
Definition set_last_profile (p : NGramProfile) (c : Categoriser) : Categoriser :=
  mkCategoriser (match last (profiles c) with
                 | Some (label, _) => take (length (profiles c) - 1) (profiles c) ++ [(label, p)]
                 | None => []
                 end) (labels c) (accuracy_threshold c) (max_ngram_length c) (cat_max_ngrams c) (max_candidates c).

Definition set_label (label : string) (c : Categoriser) : Categoriser :=
  mkCategoriser (profiles c) ({[label]} ∪ labels c) (accuracy_threshold c) (max_ngram_length c) (cat_max_ngrams c) (max_candidates c).

Definition set_limits (t : spec_float) (l n k : N) (c : Categoriser) : Categoriser :=
  mkCategoriser (profiles c) (labels c) t l n k.

Definition check_label (label : string) (c : Categoriser) : res () :=
  if decide (label ∈ labels c)
  then throw (InvalidValueError "Can't add target profile to categoriser; already have a target with same label")
  else Ok ().

Definition add_target_profile (label : string) (profile : NGramProfile) : M Categoriser () :=
  c ← getM; liftM (check_label label c) ;;
  modifyM (push_profile label profile) ;;
  modifyM (set_label label).

(** The overload for a text leaves the set of labels alone. *)
Definition add_target_text `{!UnicodeLib} (label profile_text : string) : M Categoriser () :=
  c ← getM; liftM (check_label label c) ;;
  m ← liftM (add_text (max_ngram_length c) profile_text ∅);
  modifyM (push_profile label (build m (cat_max_ngrams c))).

Definition Categoriser_to_json (c : Categoriser) : res json :=
  profiles_obj ← foldl (λ v '(label, p), v ← v; p ← NGramProfile_to_json p; Ok (json_set v label p)) (Ok (JObj [])) (profiles c);
  let value := json_set (JObj []) "profiles" profiles_obj in
  let value := json_set value "accuracy_threshold" (JReal (accuracy_threshold c)) in
  let value := json_set value "max_ngram_length" (JUInt (max_ngram_length c)) in
  let value := json_set value "max_ngrams" (JUInt (cat_max_ngrams c)) in
  let value := json_set value "max_candidates" (JUInt (max_candidates c)) in
  Ok (json_set value "type" (jstr "ngram_rank")).

(** What an iterator visits with the names of the members, which are empty in an array. *)
Definition json_named (v : json) : list (string * json) :=
  match v with JObj m => m | JArr l => pair "" <$> l | _ => [] end.

Definition Categoriser_from_json (value : json) : M Categoriser () :=
  liftM (json_check_object value "categoriser") ;;
  type ← liftM (json_index value "type");
  (if negb (json_eqb type (JStr "ngram_rank")) then throwM (InvalidValueError "Unknown categoriser type") else mret ()) ;;
  t ← liftM (json_get_double_member value "accuracy_threshold" def_accuracy_threshold);
  c ← getM; putM (set_limits t (max_ngram_length c) (cat_max_ngrams c) (max_candidates c) c) ;;
  l ← liftM (json_get_uint64_member_def value "max_ngram_length" 100 def_max_ngram_length);
  c ← getM; putM (set_limits t (wrap32 l) (cat_max_ngrams c) (max_candidates c) c) ;;
  n ← liftM (json_get_uint64_member_def value "max_ngrams" 65536 def_max_ngrams);
  c ← getM; putM (set_limits t (wrap32 l) (wrap32 n) (max_candidates c) c) ;;
  k ← liftM (json_get_uint64_member_def value "max_candidates" 4294967295 def_max_candidates);
  c ← getM; putM (set_limits t (wrap32 l) (wrap32 n) (wrap32 k) c) ;;
  profiles_obj ← liftM (json_index value "profiles");
  if isNull profiles_obj then throwM (InvalidValueError "Missing profiles property in categoriser")
  else
    for_each (json_named profiles_obj) (λ '(name, i),
      modifyM (push_profile name empty_NGramProfile) ;;
      p ← liftM (NGramProfile_from_json i);
      modifyM (set_last_profile p)).

(** *** Categorising *)

(** The scores are pairs, compared by the distance and then by the label. *)
Definition score_le (a b : N * string) : Prop := (a.1 < b.1)%N ∨ a.1 = b.1 ∧ (str_lt a.2 b.2 ∨ a.2 = b.2).

#[export] Instance score_le_dec a b : Decision (score_le a b).
Proof. unfold score_le. apply _. Defined.

Definition within (max_allowed : spec_float) (s : N * string) : bool := SFleb (Z_to_double (Z.of_N s.1)) max_allowed.

(** The loop over the scores after the best one. *)
Fixpoint candidates (max_allowed : spec_float) (scores : list (N * string)) : list string :=
  match scores with
  | [] => []
  | s :: scores => if within max_allowed s then s.2 :: candidates max_allowed scores else []
  end.

Definition categorise_profile (c : Categoriser) (profile : SortedNGramProfile) : list string :=
  let scores := merge_sort score_le ((λ x, (distance profile x.2, x.1)) <$> profiles c) in
  match scores with
  | [] => []
  | best :: rest =>
      let max_allowed := SFmul 53 1024 (Z_to_double (Z.of_N best.1)) (accuracy_threshold c) in
      let max_results := N.to_nat (max_candidates c) in
      match scores !! max_results with
      | Some s =>
          if within max_allowed s then [] else best.2 :: candidates max_allowed (take (max_results - 1) rest)
      | None => best.2 :: candidates max_allowed rest
      end
  end.

Definition categorise_text `{!UnicodeLib} (c : Categoriser) (text : string) : res (list string) :=
  m ← add_text (max_ngram_length c) text ∅;
  Ok (categorise_profile c (build_sorted m (cat_max_ngrams c))).
