(* ===== verification/NGramThms.v ===== *)
(** * The categoriser: properties

    The profile of a text is the beginning of the list of its ngrams by frequency; the
    distances and where their arithmetic overflows; the JSON forms. *)

From Stdlib Require Import SpecFloat.
From stdpp Require Import sorting.
From S2P Require Import Prelude Json NGram.

(** ** Splitting a text ends *)

Section text.
Context {unicode : UnicodeLib}.

Lemma skip_nonword_length iter ch iter' : skip_nonword iter = Some (ch, iter') → 0 < length iter' ≤ length iter.
Proof.
  induction iter as [|c iter IH]; cbn; [done|]. destruct (check_wordchar c =? 0)%N; [|intros [= _ <-]; cbn; lia].
  intros ?%IH. lia.
Qed.

Lemma read_word_length n : ∀ iter term ch, length iter ≤ n → 0 < length iter →
  match (read_word term ch iter).2 with Some iter' => length iter' < length iter | None => True end.
Proof.
  induction n as [|n IH]; intros iter term ch Hn Hi; [lia|].
  assert (Hrec : ∀ l term ch, 0 < length l < length iter →
    match (read_word term ch l).2 with Some iter' => length iter' < length iter | None => True end).
  { intros l t c Hl. specialize (IH l t c ltac:(lia) ltac:(lia)). case_match; [lia|done]. }
  clear IH. destruct iter as [|a rest]; [done|]. cbn [read_word]. destruct rest as [|c rest']; [done|].
  destruct (negb _); [apply Hrec; cbn; lia|]. destruct rest' as [|b rest'']; [cbn; lia|].
  destruct (_ || _); [cbn; lia|]. apply Hrec. cbn. lia.
Qed.

Lemma read_suffix_length iter : ∀ start term count, length (read_suffix start term count iter).2 ≤ length iter.
Proof.
  induction iter as [|c iter IH]; intros start term count; cbn -[check_suffix]; [lia|].
  destruct (check_suffix c =? 0)%N; [by destruct (is_wordchar c)|]. destruct (3 <? _)%N; [done|]. etrans; [apply IH|lia].
Qed.

(** A term takes at least one character. *)
Lemma read_term_length ch iter : 0 < length iter → length (read_term ch iter).2 < length iter.
Proof.
  intros Hi. unfold read_term. pose proof (read_word_length (length iter) iter "" ch ltac:(lia) Hi) as Hw.
  destruct (read_word "" ch iter) as [term [iter'|]]; cbn in *; [|lia]. pose proof (read_suffix_length iter' term term 0%N). lia.
Qed.

Lemma add_text_loop_total l fuel : ∀ iter m, length iter < fuel → ∃ m', add_text_loop l fuel iter m = Ok m'.
Proof.
  induction fuel as [|fuel IH]; intros iter m H; [lia|]. cbn. destruct (skip_nonword iter) as [[ch iter']|] eqn:E; [|eauto].
  apply skip_nonword_length in E. pose proof (read_term_length ch iter' ltac:(lia)) as Ht.
  destruct (read_term ch iter') as [term iter'']. cbn in Ht. apply IH. lia.
Qed.

End text.

(** ** The most frequent ngrams *)

#[export] Instance freq_lt_strict : StrictOrder freq_lt.
Proof.
  split.
  - intros x [?|[_ H]]; [lia|]. by apply (irreflexivity str_lt (ngram x)).
  - intros x y z [H|[H1 H2]] [K|[K1 K2]]; unfold freq_lt; [lia..|]. right. split; [lia|by etrans].
Qed.

Abbreviation freq_gt := (flip freq_lt).

Lemma push_heap_perm x h : push_heap x h ≡ₚ x :: h.
Proof. induction h as [|y h IH]; cbn; [done|]. case_decide; [|done]. rewrite IH. apply Permutation_swap. Qed.

Lemma freq_lt_total x y : x ≠ y → ¬ freq_lt x y → freq_lt y x.
Proof.
  intros Hne H. unfold freq_lt in *. destruct (N.lt_trichotomy (freq x) (freq y)) as [|[E|]]; [by left|right|exfalso; auto].
  split; [done|]. destruct (str_lt_trichotomy (ngram x) (ngram y)) as [|[E'|]]; [exfalso; auto| |done].
  destruct x, y; cbn in *; by subst.
Qed.

Lemma push_heap_sorted x h : x ∉ h → StronglySorted freq_gt h → StronglySorted freq_gt (push_heap x h).
Proof.
  induction h as [|y h IH]; cbn; intros Hx Hs; [by repeat constructor|]. apply StronglySorted_inv in Hs as [Hs Hy].
  case_decide as Hlt.
  - constructor; [apply IH; [set_solver|done]|]. rewrite push_heap_perm. by constructor.
  - assert (Hyx : freq_lt y x) by (apply freq_lt_total; [set_solver|done]).
    constructor; [by constructor|]. constructor; [done|]. eapply Forall_impl; [exact Hy|]. cbn. intros z Hz. by etrans.
Qed.

Lemma make_heap_perm l : make_heap l ≡ₚ l.
Proof. induction l as [|x l IH]; cbn; [done|]. by rewrite push_heap_perm, IH. Qed.

Lemma make_heap_sorted l : NoDup l → StronglySorted freq_gt (make_heap l).
Proof.
  induction 1 as [|x l Hx _ IH]; cbn; [constructor|]. apply push_heap_sorted; [by rewrite make_heap_perm|done].
Qed.

(** [done] has been seen: the heap keeps the first of it, in the order of the items. *)
Record heap_of (done heap : list NGramFreq) : Prop := {
  heap_sorted : StronglySorted freq_gt heap;
  heap_split : ∃ rest, heap ++ rest ≡ₚ done ∧ ∀ x y, x ∈ heap → y ∈ rest → freq_lt x y;
}.

Lemma fill_heap_spec iter : ∀ seen front heap,
  heap_of seen (front :: heap) → StronglySorted str_lt (ngram <$> seen ++ iter) →
  heap_of (seen ++ iter) (fill_heap (freq front) (front :: heap) iter) ∧
  length (fill_heap (freq front) (front :: heap) iter) = S (length heap).
Proof.
  induction iter as [|i iter IH]; intros seen front heap Hh Hs; [rewrite app_nil_r; done|]. cbn [fill_heap].
  assert (Hnew : ∀ x, x ∈ seen → str_lt (ngram x) (ngram i)).
  { intros x Hx. rewrite fmap_app in Hs. eapply (StronglySorted_app_1_elem_of str_lt); [exact Hs| |cbn; by left].
    apply list_elem_of_fmap. eauto. }
  replace (seen ++ i :: iter) with ((seen ++ [i]) ++ iter) in Hs |- * by by rewrite <-app_assoc.
  destruct Hh as [Hd (rest & Hp & Hr)].
  assert (Hseen : ∀ x, x ∈ seen ↔ x ∈ front :: heap ∨ x ∈ rest) by (intros x; by rewrite <-Hp, elem_of_app).
  pose proof Hd as Hd'. apply StronglySorted_inv in Hd' as [Hd' Hf]. rewrite Forall_forall in Hf.
  destruct (N.ltb_spec (freq front) (freq i)) as [Hlt|Hge].
  - (* the front is dropped *)
    assert (Hif : freq_lt i front) by by left.
    assert (Ei : tail (push_heap i (front :: heap)) = push_heap i heap) by (cbn; by rewrite decide_True).
    rewrite Ei. assert (Hih : i ∉ front :: heap).
    { intros Hi. apply (irreflexivity str_lt (ngram i)), Hnew, Hseen. by left. }
    assert (Hnext : heap_of (seen ++ [i]) (push_heap i heap)).
    { split; [apply push_heap_sorted; [set_solver|done]|]. exists (front :: rest). split.
      - rewrite push_heap_perm, <-Hp. cbn. rewrite <-Permutation_middle, <-Permutation_cons_append. apply Permutation_swap.
      - assert (Hall : ∀ x, x ∈ push_heap i heap → freq_lt x front).
        { intros x. rewrite push_heap_perm. intros [->|Hx]%elem_of_cons; [done|by apply Hf]. }
        intros x y Hx [->|Hy]%elem_of_cons; [by apply Hall|]. etrans; [by apply Hall|]. apply Hr; [by left|done]. }
    pose proof (push_heap_perm i heap) as Hlen. apply Permutation_length in Hlen. cbn in Hlen.
    destruct (push_heap i heap) as [|front' heap']; [done|]. injection Hlen as Hlen. rewrite <-Hlen. by apply IH.
  - assert (Hnext : heap_of (seen ++ [i]) (front :: heap)).
    { split; [done|]. exists (rest ++ [i]). split; [by rewrite app_assoc, Hp|].
      intros x y Hx Hy. apply elem_of_app in Hy as [Hy|Hy]; [by apply Hr|]. apply list_elem_of_singleton in Hy as ->.
      assert (Hxf : (freq front <= freq x)%N) by (apply elem_of_cons in Hx as [->|Hx]; [lia|]; apply Hf in Hx as [?|[? _]]; lia).
      destruct (N.lt_total (freq i) (freq x)) as [|[E|]]; [by left| |lia]. right. split; [done|]. apply Hnew, Hseen. by left. }
    by apply IH.
Qed.

Lemma StronglySorted_reverse {A} (R : A → A → Prop) l : StronglySorted (flip R) l → StronglySorted R (reverse l).
Proof.
  induction 1 as [|x l Hs IH Hx]; [constructor|]. rewrite reverse_cons. apply StronglySorted_app_2; [|done|by repeat constructor].
  intros y z Hy ->%list_elem_of_singleton. rewrite elem_of_reverse in Hy. rewrite Forall_forall in Hx. by apply Hx.
Qed.

(** The items in the order of the map. *)
Definition freq_items (m : gmap string N) : list NGramFreq := (λ x, mkFreq x.1 x.2) <$> sorted_items m.

Lemma freq_items_sorted m : StronglySorted str_lt (ngram <$> freq_items m).
Proof.
  unfold freq_items. rewrite <-list_fmap_compose.
  assert (E : (ngram ∘ (λ x : string * N, mkFreq x.1 x.2)) <$> sorted_items m = (sorted_items m).*1) by done.
  rewrite E, sorted_items_fst. apply sorted_keys_strict.
Qed.

Lemma freq_items_nodup m : NoDup (freq_items m).
Proof.
  apply (NoDup_fmap_1 ngram). pose proof (freq_items_sorted m) as H. induction H as [|x l _ IH Hx]; constructor; [|done].
  intros Hin. rewrite Forall_forall in Hx. by apply (irreflexivity str_lt x), Hx.
Qed.

(** C26: the profile built from the counts of a text holds the ngrams of the [n] highest
    counts, the most frequent first and equally frequent ones in the order of their bytes:
    the heap of fixed size selects the beginning of the whole list of ngrams in that order. *)
Theorem build_most_frequent m n :
  ∃ l, l ≡ₚ (λ x, mkFreq x.1 x.2) <$> map_to_list m ∧ StronglySorted freq_lt l ∧
    build_sorted m n = mkSorted n (ngram <$> take (N.to_nat n) l).
Proof.
  assert (Hperm : freq_items m ≡ₚ (λ x, mkFreq x.1 x.2) <$> map_to_list m).
  { unfold freq_items. apply fmap_Permutation. rewrite <-(list_to_map_sorted_items m) at 2.
    symmetry. apply map_to_list_to_map, sorted_items_nodup. }
  enough (H : ∃ l, l ≡ₚ freq_items m ∧ StronglySorted freq_lt l ∧ build_sorted m n = mkSorted n (ngram <$> take (N.to_nat n) l))
    by (destruct H as (l & H1 & H2); exists l; split; [by rewrite H1|done]).
  clear Hperm. unfold build_sorted. fold (freq_items m). set (items := take (N.to_nat n) (freq_items m)).
  set (iter := drop (N.to_nat n) (freq_items m)).
  assert (Eall : items ++ iter = freq_items m) by apply take_drop.
  pose proof (freq_items_nodup m) as Hnd. rewrite <-Eall in Hnd. pose proof Hnd as [Hnd1 _]%NoDup_app.
  assert (Hheap : heap_of items (make_heap items)).
  { split; [by apply make_heap_sorted|]. exists []. rewrite app_nil_r. split; [apply make_heap_perm|]. intros x y _ []%elem_of_nil. }
  destruct (make_heap items) as [|front heap] eqn:Eh.
  - exists (reverse (make_heap (freq_items m))). split_and!; [by rewrite reverse_Permutation, make_heap_perm| |].
    + apply StronglySorted_reverse, make_heap_sorted, freq_items_nodup.
    + pose proof (make_heap_perm items) as Hp. rewrite Eh in Hp. apply Permutation_nil_l in Hp.
      replace (take (N.to_nat n) _) with (@nil NGramFreq); [done|]. symmetry. apply nil_length_inv.
      apply (f_equal length) in Hp. unfold items in Hp. rewrite length_take in Hp |- *. rewrite length_reverse, (Permutation_length (make_heap_perm _)). done.
  - destruct (fill_heap_spec iter items front heap Hheap) as [[Hd (rest & Hp & Hr)] Hlen]; [rewrite Eall; apply freq_items_sorted|].
    rewrite Eall in Hp. set (h := fill_heap _ _ _) in *.
    assert (Hndr : NoDup rest) by (rewrite Eall in Hnd; rewrite <-Hp in Hnd; by apply NoDup_app in Hnd as (_ & _ & ?)).
    exists (reverse h ++ reverse (make_heap rest)). split_and!.
    + by rewrite !reverse_Permutation, make_heap_perm.
    + apply StronglySorted_app_2; [|by apply StronglySorted_reverse|by apply StronglySorted_reverse, make_heap_sorted].
      intros x y. rewrite !elem_of_reverse, make_heap_perm. apply Hr.
    + do 2 f_equal. apply (f_equal length) in Eh. rewrite (Permutation_length (make_heap_perm _)) in Eh.
      unfold items in Eh. rewrite length_take in Eh. cbn in Eh.
      destruct (decide (length (freq_items m) <= N.to_nat n)) as [Hle|Hgt].
      * assert (rest = []) as ->. { apply nil_length_inv. apply Permutation_length in Hp. rewrite length_app in Hp. lia. }
        change (make_heap []) with (@nil NGramFreq). rewrite reverse_nil, app_nil_r, take_ge; [done|]. rewrite length_reverse. lia.
      * rewrite take_app_length'; [done|]. rewrite length_reverse. lia.
Qed.

(** ** Distances *)

(** The distance meant: numbers of any size. *)
Definition term_distance (n : N) (other : NGramProfile) (x : nat * string) : N :=
  match positions other !! x.2 with None => n | Some j => (N.max j (N.of_nat x.1) - N.min j (N.of_nat x.1))%N end.

Definition sumN (l : list N) : N := foldr N.add 0%N l.

Definition true_distance (p : SortedNGramProfile) (other : NGramProfile) : N :=
  let n := N.min (max_ngrams p) (np_max_ngrams other) in
  let size := N.of_nat (length (ngrams p)) in
  ((n - size) * n + sumN (term_distance n other <$> imap pair (take (N.to_nat n) (ngrams p))))%N.

Lemma foldl_wrap {A} (f : A → N) l : ∀ c, (c < 2 ^ 32)%N →
  foldl (λ c x, wrap32 (c + f x)) c l = wrap32 (c + sumN (f <$> l)).
Proof.
  induction l as [|x l IH]; intros c Hc; cbn.
  - unfold wrap32. by rewrite N.add_0_r, N.mod_small.
  - rewrite IH by (apply N.mod_lt; done). unfold wrap32. rewrite N.Div0.add_mod_idemp_l. by rewrite N.add_assoc.
Qed.

Lemma abs_diff_small a b : (a < 2 ^ 31)%N → (b < 2 ^ 31)%N → abs_diff a b = (N.max a b - N.min a b)%N.
Proof.
  intros Ha Hb. unfold abs_diff, wrap32. change (2 ^ 32)%N with 4294967296%N in *. change (2 ^ 31)%N with 2147483648%N in *.
  destruct (N.leb_spec b a).
  - replace (a + (4294967296 - b))%N with ((a - b) + 1 * 4294967296)%N by lia. rewrite N.Div0.mod_add, N.mod_small by lia.
    destruct (N.ltb_spec (a - b) 2147483648); lia.
  - rewrite N.mod_small by lia. destruct (N.ltb_spec (a + (4294967296 - b)) 2147483648); lia.
Qed.

Lemma sumN_le l b : Forall (λ x, (x <= b)%N) l → (sumN l <= N.of_nat (length l) * b)%N.
Proof. induction 1 as [|x l Hx _ IH]; cbn [sumN foldr length] in *; [lia|]. rewrite Nat2N.inj_succ, N.mul_succ_l. unfold sumN in *. lia. Qed.

Lemma sumN_const l b : Forall (λ x, x = b) l → sumN l = (N.of_nat (length l) * b)%N.
Proof. induction 1 as [|x l Hx _ IH]; cbn [sumN foldr length] in *; [lia|]. rewrite Nat2N.inj_succ, N.mul_succ_l. unfold sumN in *. lia. Qed.

Section distance.
Context (p : SortedNGramProfile) (other : NGramProfile).
Let n := N.min (max_ngrams p) (np_max_ngrams other).
Context (Hsize : (N.of_nat (length (ngrams p)) < 2 ^ 32)%N) (Hn : (n <= 65536)%N).
Context (Hpos : ∀ g j, positions other !! g = Some j → (j < n)%N).

Lemma term_bound : Forall (λ x, (x <= n)%N) (term_distance n other <$> imap pair (take (N.to_nat n) (ngrams p))).
Proof using Hpos.
  clear Hsize Hn. apply Forall_fmap, Forall_forall. intros [i g] (i' & g' & [= -> ->] & Hx)%elem_of_lookup_imap_1. cbn.
  unfold term_distance. cbn. destruct (positions other !! g') as [j|] eqn:E; [|lia].
  apply lookup_lt_Some in Hx. rewrite length_take in Hx. apply Hpos in E. lia.
Qed.

Lemma distance_eq : distance p other = wrap32 (true_distance p other).
Proof.
  unfold distance, true_distance. fold n. cbn [mbind]. set (size := N.of_nat (length (ngrams p))) in *.
  replace (wrap32 size) with size by (unfold wrap32; by rewrite N.mod_small).
  assert (Et : take (N.to_nat (N.min size n)) (ngrams p) = take (N.to_nat n) (ngrams p)).
  { destruct (N.min_spec size n) as [[H ->]|[H ->]]; [|done]. unfold size. rewrite !take_ge; [done|lia..]. }
  rewrite Et. set (l := imap pair (take (N.to_nat n) (ngrams p))).
  set (c := if (size <? n)%N then _ else _).
  assert (Ec : c = wrap32 ((n - size) * n) ∧ (c < 2 ^ 32)%N).
  { subst c. destruct (N.ltb_spec size n); [split; [done|]; by apply N.mod_lt|]. replace (n - size)%N with 0%N by lia. done. }
  destruct Ec as [Ec Hc].
  assert (Ef : ∀ c0, foldl (λ count '(i, g), wrap32 (count + match positions other !! g with None => n | Some j => abs_diff j (N.of_nat i) end)) c0 l
    = foldl (λ count x, wrap32 (count + term_distance n other x)) c0 l).
  { assert (Hl : Forall (λ x, x.1 < N.to_nat n) l).
    { apply Forall_forall. intros [i g] (i' & g' & [= -> ->] & Hx)%elem_of_lookup_imap_1. apply lookup_lt_Some in Hx.
      rewrite length_take in Hx. cbn. lia. }
    induction Hl as [|[i g] l' Hi _ IH]; intros c0; [done|]. cbn. rewrite IH. f_equal. f_equal. f_equal. unfold term_distance. cbn in *.
    destruct (positions other !! g) as [j|] eqn:E; [|done]. apply Hpos in E. by rewrite abs_diff_small by lia. }
  rewrite Ef, foldl_wrap by done. rewrite Ec. unfold wrap32. by rewrite N.Div0.add_mod_idemp_l.
Qed.

Lemma true_distance_bound : (true_distance p other <= n * n)%N.
Proof using Hpos.
  clear Hsize Hn.   unfold true_distance. fold n. pose proof (sumN_le _ _ term_bound) as H. rewrite length_fmap, length_imap, length_take in H. nia.
Qed.

End distance.

(** The distance of two profiles is a sum of at most [n] terms of at most [n], where [n]
    is the smaller of their sizes: it is computed exactly up to [n = 65535].  A profile
    may hold 65536 ngrams; then the distance of a text to a profile that has none of its
    ngrams is 2^32, computed as 0: the best score there is. *)
Theorem distance_overflow p other (n := N.min (max_ngrams p) (np_max_ngrams other))
    (Hsize : (N.of_nat (length (ngrams p)) < 2 ^ 32)%N) (Hpos : ∀ g j, positions other !! g = Some j → (j < n)%N) :
  (true_distance p other <= n * n)%N ∧
  ((n <= 65535)%N → distance p other = true_distance p other) ∧
  (n = 65536%N → Forall (λ g, positions other !! g = None) (ngrams p) →
    true_distance p other = (2 ^ 32)%N ∧ distance p other = 0%N).
Proof.
  pose proof (true_distance_bound p other Hpos) as Hb. fold n in Hb. split; [done|]. split.
  - intros Hn. rewrite distance_eq by (done || fold n; lia). unfold wrap32. apply N.mod_small. nia.
  - intros Hn Hnone. enough (E : true_distance p other = (2 ^ 32)%N).
    { split; [done|]. rewrite distance_eq by (done || fold n; lia). by rewrite E. }
    unfold true_distance. fold n. rewrite (sumN_const _ n).
    + rewrite length_fmap, length_imap, length_take. nia.
    + apply Forall_fmap, Forall_forall. intros [i g] (i' & g' & [= -> ->] & Hx)%elem_of_lookup_imap_1. cbn.
      unfold term_distance. cbn. rewrite Forall_forall in Hnone. rewrite Hnone; [done|].
      apply list_elem_of_lookup_2 in Hx. rewrite <-(take_drop (N.to_nat n) (ngrams p)). apply elem_of_app. by left.
Qed.

Lemma distance_overflow_witness :
  let p := mkSorted 65536 ["|a|"] in let other := mkProfile 65536 (<["b" := 0%N]> ∅) in
  (true_distance p other <= 65536 * 65536)%N ∧
  ((65536 <= 65535)%N → distance p other = true_distance p other) ∧
  (65536%N = 65536%N → Forall (λ g, positions other !! g = None) (ngrams p) →
    true_distance p other = (2 ^ 32)%N ∧ distance p other = 0%N).
Proof.
  intros p other. apply (distance_overflow p other); [done|].
  intros g j Hg. cbn in Hg. apply lookup_insert_Some in Hg as [[_ <-]|[_ Hg]]; [done|]. by rewrite lookup_empty in Hg.
Defined.

(** ** JSON forms of profiles *)

Abbreviation positions_of l := (positions (init_from_sorted_ngram (mkSorted 0 l))).

Lemma positions_of_snoc l x : positions_of (l ++ [x]) = <[x := wrap32 (N.of_nat (length l))]> (positions_of l).
Proof. cbn. rewrite imap_app, foldl_app. cbn. by rewrite Nat.add_0_r. Qed.

Lemma positions_of_spec l g pos : NoDup l → (N.of_nat (length l) <= 2 ^ 32)%N →
  positions_of l !! g = Some pos ↔ l !! N.to_nat pos = Some g ∧ (pos < 2 ^ 32)%N.
Proof.
  revert pos. induction l as [|x l IH] using rev_ind; intros pos Hnd Hlen; [cbn; rewrite lookup_empty, lookup_nil; naive_solver|].
  rewrite positions_of_snoc. apply NoDup_app in Hnd as (Hnd & Hx & _). rewrite length_app in Hlen. cbn in Hlen.
  specialize (IH pos Hnd ltac:(lia)). unfold wrap32. rewrite N.mod_small by lia.
  destruct (decide (x = g)) as [->|Hne].
  - rewrite lookup_insert_eq. assert (Hg : g ∉ l) by (intros Hg; eapply Hx; [exact Hg|by left]). split.
    + intros [= <-]. rewrite Nat2N.id. split; [|lia]. by rewrite lookup_app_r, Nat.sub_diag by lia.
    + intros [H _]. f_equal. destruct (decide (N.to_nat pos < length l)) as [Hl|Hl].
      * rewrite lookup_app_l in H by done. exfalso. apply Hg. by eapply list_elem_of_lookup_2.
      * rewrite lookup_app_r in H by lia. apply lookup_lt_Some in H. cbn in H. lia.
  - rewrite lookup_insert_ne by done. rewrite IH. split; intros [H ?]; (split; [|done]).
    + by apply lookup_app_l_Some.
    + apply lookup_app_Some in H as [H|[_ H]]; [done|]. apply list_lookup_singleton_Some in H as [_ ->]. done.
Qed.

Lemma positions_of_dom l : dom (positions_of l) = list_to_set l.
Proof.
  induction l as [|x l IH] using rev_ind; [apply dom_empty_L|].
  rewrite positions_of_snoc, dom_insert_L, IH, list_to_set_app_L. set_solver.
Qed.

Lemma positions_of_size l : size (positions_of l) = size (list_to_set l : gset string).
Proof. by rewrite <-positions_of_dom, size_dom. Qed.

Lemma size_le_length l : size (list_to_set l : gset string) ≤ length l.
Proof.
  induction l as [|x l IH]; cbn; [by rewrite size_empty|]. rewrite size_union_alt. pose proof (size_singleton x (C := gset string)).
  assert (size (list_to_set l ∖ {[x]} : gset string) ≤ size (list_to_set l : gset string)) by (apply subseteq_size; set_solver). lia.
Qed.

Lemma size_nodup l : NoDup l ↔ size (list_to_set l : gset string) = length l.
Proof.
  split; [apply size_list_to_set|]. induction l as [|x l IH]; [constructor|]. cbn. intros H.
  pose proof (size_le_length l) as Hle. destruct (decide (x ∈ l)) as [Hx|Hx].
  - replace ({[x]} ∪ list_to_set l : gset string) with (list_to_set l : gset string) in H by set_solver. lia.
  - constructor; [done|]. apply IH. rewrite size_union, size_singleton in H by set_solver. lia.
Qed.

(** The vector is filled place by place. *)
Lemma fill_places (items : list (string * N)) (l0 : list string) :
  Forall (λ x, N.to_nat x.2 < length l0) items →
  ∃ l', foldl (λ l '(g, pos), l ← l; if decide (N.to_nat pos < length l) then Ok (<[N.to_nat pos := g]> l) else throw UndefinedBehaviour)
    (Ok l0) items = Ok l' ∧ length l' = length l0 ∧
    (∀ i, (∀ x, x ∈ items → N.to_nat x.2 ≠ i) → l' !! i = l0 !! i) ∧
    (NoDup items.*2 → ∀ g pos, (g, pos) ∈ items → l' !! N.to_nat pos = Some g).
Proof.
  intros H. remember (length l0) as n eqn:En. revert l0 En.
  induction H as [|[g pos] items Hi _ IH]; intros l0 En.
  - exists l0. split_and!; [done|done|done|]. intros _ ? ? []%elem_of_nil.
  - cbn in Hi. cbn [foldl mbind res_bind]. rewrite decide_True by lia.
    destruct (IH (<[N.to_nat pos := g]> l0)) as (l' & H1 & H2 & H3 & H4); [by rewrite length_insert|].
    exists l'. split_and!; [done|done| |].
    + intros i Hall. rewrite H3; [|intros x Hx; apply Hall; by right]. rewrite list_lookup_insert_ne; [done|]. apply (Hall (g, pos)). by left.
    + intros [Hnd1 Hnd]%NoDup_cons g' pos' [[= -> ->]|Hin]%elem_of_cons; [|by apply H4].
      rewrite H3; [apply list_lookup_insert_eq; lia|]. intros [g' p'] Hin E. cbn in E. apply Hnd1, list_elem_of_fmap. exists (g', p'). split; [cbn; lia|done].
Qed.

(** A position beyond the end. *)
Lemma fill_fails (items : list (string * N)) l0 :
  Exists (λ x, length l0 ≤ N.to_nat x.2) items →
  foldl (λ l '(g, pos), l ← l; if decide (N.to_nat pos < length l) then Ok (<[N.to_nat pos := g]> l) else throw UndefinedBehaviour)
    (Ok l0) items = throw UndefinedBehaviour.
Proof.
  intros H. revert l0 H. assert (Hs : ∀ its, foldl (λ (l : res (list string)) '(g, pos), l ← l; if decide (N.to_nat pos < length l)
    then Ok (<[N.to_nat pos := g]> l) else throw UndefinedBehaviour) (throw UndefinedBehaviour) its = throw UndefinedBehaviour).
  { induction its as [|[]]; done. }
  induction items as [|[g pos] items IH]; intros l0 H; [by inversion H|]. cbn [foldl mbind res_bind].
  case_decide as Hd; [|apply Hs]. apply IH. apply Exists_cons in H as [H|H]; [cbn in H; lia|]. by rewrite length_insert.
Qed.

Lemma positions_injective l : NoDup l → (N.of_nat (length l) <= 2 ^ 32)%N → NoDup (sorted_items (positions_of l)).*2.
Proof.
  intros Hnd Hlen. apply NoDup_fmap_2_strong; [|apply (NoDup_fmap_1 fst), sorted_items_nodup].
  intros [g p] [g' p'] H1%elem_of_sorted_items H2%elem_of_sorted_items E. cbn in E. subst p'.
  apply (positions_of_spec l) in H1 as [H1 _]; [|done..]. apply (positions_of_spec l) in H2 as [H2 _]; [|done..]. congruence.
Qed.

(** A profile is written as the list it was made from, when no ngram is repeated in it. *)
Lemma init_from_ngram_sorted s : (N.of_nat (length (ngrams s)) <= 2 ^ 32)%N →
  init_from_ngram (init_from_sorted_ngram s) = if decide (NoDup (ngrams s)) then Ok s else throw UndefinedBehaviour.
Proof.
  destruct s as [n l]. cbn [ngrams]. intros Hlen. unfold init_from_ngram.
  change (positions (init_from_sorted_ngram (mkSorted n l))) with (positions_of l). cbn [np_max_ngrams init_from_sorted_ngram max_ngrams].
  rewrite positions_of_size. set (items := sorted_items (positions_of l)).
  case_decide as Hnd.
  - rewrite (proj1 (size_nodup l) Hnd).
    destruct (fill_places items (replicate (length l) "")) as (l' & -> & Hl & _ & H).
    { rewrite length_replicate. apply Forall_forall. intros [g p] Hin%elem_of_sorted_items. cbn.
      apply (positions_of_spec l) in Hin as [Hin _]; [|done..]. by apply lookup_lt_Some in Hin. }
    cbn. do 2 f_equal. rewrite length_replicate in Hl. apply list_eq_same_length with (length l); [done|done|].
    intros i x y Hi Hx Hy. specialize (H (positions_injective l Hnd Hlen) y (N.of_nat i)). rewrite Nat2N.id in H.
    rewrite Hx in H. enough (Some x = Some y) by congruence. apply H, elem_of_sorted_items, positions_of_spec; [done..|].
    rewrite Nat2N.id. split; [done|lia].
  - rewrite fill_fails; [done|]. rewrite length_replicate. pose proof (size_le_length l) as Hle.
    assert (Hlt : size (list_to_set l : gset string) ≠ length l) by (intros E; by apply Hnd, size_nodup).
    destruct l as [|x l] using rev_ind; [done|]. clear IHl. rewrite length_app in *. cbn in Hle, Hlt, Hlen.
    apply Exists_exists. exists (x, N.of_nat (length l)). split; [|cbn; lia].
    apply elem_of_sorted_items. rewrite positions_of_snoc, lookup_insert_eq. unfold wrap32. by rewrite N.mod_small by lia.
Qed.

Definition profile_ok (s : SortedNGramProfile) : Prop :=
  Forall clean (ngrams s) ∧ (N.of_nat (length (ngrams s)) <= 2 ^ 32)%N ∧ (max_ngrams s < 2 ^ 32)%N.

Lemma sorted_profile_json s : profile_ok s → SortedNGramProfile_from_json (SortedNGramProfile_to_json s) = Ok s.
Proof.
  intros (Hc & _ & Hm). destruct s as [n l]. cbn [ngrams max_ngrams] in *. unfold SortedNGramProfile_to_json. cbn [ngrams max_ngrams].
  rewrite foldl_json_append. cbn [app]. set (x := JArr _). unfold SortedNGramProfile_from_json.
  change (json_set (json_set (JObj []) "ngrams" x) "max_ngrams" (JUInt n)) with (JObj [("max_ngrams", JUInt n); ("ngrams", x)]).
  cbn [json_check_object isObject mbind res_bind]. change (json_index _ "ngrams") with (Ok x : res json). cbn [mbind res_bind].
  subst x. cbn [json_check_array isArray mbind res_bind json_elems]. rewrite (mapM_fmap_ok ngram_item jstr).
  - cbn [mbind res_bind]. unfold json_get_uint64_member. change (json_get _ "max_ngrams" JNull) with (Ok (JUInt n) : res json).
    cbn [mbind res_bind isNull]. unfold check_uint64_member. cbn [isIntegral negb lt_Int json_type gt_UInt64 asUInt64].
    destruct (N.ltb_spec 4294967295 n) as [H|H]; [change (2 ^ 32)%N with 4294967296%N in Hm; lia|]. cbn.
    unfold wrap32. by rewrite N.mod_small.
  - eapply Forall_impl; [exact Hc|]. intros y Hy. cbn. unfold jstr. by rewrite Hy.
Qed.

(** A profile is read back from its JSON form, when no ngram is repeated in it; a
    profile read from JSON with a repeated ngram writes outside the vector when it is
    written again. *)
Theorem profile_json_roundtrip s (Hs : profile_ok s) :
  let p := init_from_sorted_ngram s in
  if decide (NoDup (ngrams s))
  then ∃ j, NGramProfile_to_json p = Ok j ∧ NGramProfile_from_json j = Ok p
  else NGramProfile_from_json (SortedNGramProfile_to_json s) = Ok p ∧ NGramProfile_to_json p = throw UndefinedBehaviour.
Proof.
  intros p. unfold NGramProfile_to_json. subst p. rewrite init_from_ngram_sorted by apply Hs. case_decide as Hd.
  - eexists. split; [reflexivity|]. unfold NGramProfile_from_json. by rewrite sorted_profile_json.
  - split; [|done]. unfold NGramProfile_from_json. by rewrite sorted_profile_json.
Qed.

Lemma profile_json_roundtrip_witness :
  let s := mkSorted 400 ["|"; "|a"; "|"] in let p := init_from_sorted_ngram s in
  NGramProfile_from_json (SortedNGramProfile_to_json s) = Ok p ∧ NGramProfile_to_json p = throw UndefinedBehaviour.
Proof.
  assert (Hs : profile_ok (mkSorted 400 ["|"; "|a"; "|"])) by (split_and!; [by repeat constructor|vm_compute; discriminate|done]).
  pose proof (profile_json_roundtrip (mkSorted 400 ["|"; "|a"; "|"]) Hs) as H. cbv zeta in H.
  rewrite decide_False in H; [exact H|]. intros Hn. apply NoDup_cons in Hn as [Hn _]. apply Hn. by right; left.
Defined.

(** ** Categorisers *)

#[export] Instance score_le_trans : Transitive score_le.
Proof.
  intros [a s] [b t] [c u] H K. unfold score_le in *. cbn in *.
  destruct H as [H|[? H]], K as [K|[? K]]; [left; lia..|]. subst. right. split; [done|].
  destruct H as [H|H], K as [K|K]; subst; try by auto. left. by etrans.
Qed.

#[export] Instance score_le_antisymm : AntiSymm (=) score_le.
Proof.
  intros [a s] [b t] H K. unfold score_le in *. cbn in *. destruct H as [H|[? H]], K as [K|[? K]]; [lia..|]. subst. f_equal.
  destruct H as [H|H], K as [K|K]; try done. exfalso. apply (irreflexivity str_lt s). by etrans.
Qed.

#[export] Instance score_le_total : Total score_le.
Proof.
  intros [a s] [b t]. unfold score_le. cbn. destruct (N.lt_trichotomy a b) as [|[->|]]; [by auto| |by auto].
  destruct (str_lt_trichotomy s t) as [|[->|]]; auto 6.
Qed.

(** The order of the profiles does not matter. *)
Lemma categorise_perm c c' profile : profiles c ≡ₚ profiles c' → accuracy_threshold c = accuracy_threshold c' →
  max_candidates c = max_candidates c' → categorise_profile c profile = categorise_profile c' profile.
Proof.
  intros Hp Ht Hm. unfold categorise_profile. rewrite Ht, Hm.
  replace (merge_sort score_le ((λ x, (distance profile x.2, x.1)) <$> profiles c))
    with (merge_sort score_le ((λ x, (distance profile x.2, x.1)) <$> profiles c')); [done|].
  apply (StronglySorted_unique score_le); [apply StronglySorted_merge_sort; apply _..|]. by rewrite !merge_sort_Permutation, Hp.
Qed.

Lemma obj_set_perm k x m : k ∉ m.*1 → obj_set k x m ≡ₚ (k, x) :: m.
Proof.
  induction m as [|[j v] m IH]; csimpl; [done|]. intros [Hne Hm]%not_elem_of_cons. rewrite decide_False by done.
  case_decide; [done|]. rewrite IH by done. apply Permutation_swap.
Qed.

Definition categoriser_ok (c : Categoriser) : Prop :=
  NoDup (profiles c).*1 ∧
  Forall (λ x, clean x.1 ∧ ∃ s, x.2 = init_from_sorted_ngram s ∧ profile_ok s ∧ NoDup (ngrams s)) (profiles c) ∧
  (max_ngram_length c <= 100)%N ∧ (cat_max_ngrams c <= 65536)%N ∧ (max_candidates c < 2 ^ 32)%N.

(** The JSON of a profile that has one. *)
Definition profile_json (p : NGramProfile) : json := match NGramProfile_to_json p with Ok j => j | _ => JNull end.

Lemma profiles_to_json_eq l : NoDup l.*1 →
  Forall (λ x, clean x.1 ∧ ∃ j, NGramProfile_to_json x.2 = Ok j) l →
  ∃ m, foldl (λ v '(label, p), v ← v; p ← NGramProfile_to_json p; Ok (json_set v label p)) (Ok (JObj [])) l = Ok (JObj m) ∧
    m ≡ₚ prod_map id profile_json <$> l.
Proof.
  induction l as [|[label p] l IH] using rev_ind; intros Hnd Hl; [by exists []|].
  rewrite fmap_app in Hnd. apply NoDup_app in Hnd as (Hnd & Hx & _). apply Forall_app in Hl as [Hl Hl2]. apply Forall_cons in Hl2 as [[Hc [j Hj]] _].
  destruct (IH Hnd Hl) as (m & Hm & Hp). cbn [fst snd] in *. exists (obj_set label j m). rewrite foldl_app, Hm. split.
  - cbn. by rewrite Hj, Hc.
  - rewrite obj_set_perm, Hp, fmap_app.
    + rewrite Permutation_cons_append. by cbn; unfold profile_json; rewrite Hj.
    + rewrite Hp, <-list_fmap_compose. intros Hin. apply (Hx label); [|by left]. by rewrite (list_fmap_ext _ fst) in Hin.
Qed.

Definition add_profiles (q : list (string * NGramProfile)) (c : Categoriser) : Categoriser :=
  mkCategoriser (profiles c ++ q) (labels c) (accuracy_threshold c) (max_ngram_length c) (cat_max_ngrams c) (max_candidates c).

Lemma read_profiles q c : Forall (λ x, NGramProfile_from_json (profile_json x.2) = Ok x.2) q →
  for_each (prod_map id profile_json <$> q) (λ '(name, i),
      modifyM (push_profile name empty_NGramProfile) ;; p ← liftM (NGramProfile_from_json i); modifyM (set_last_profile p)) c
  = (add_profiles q c, Ok ()).
Proof.
  intros Hq. revert c. induction Hq as [|[name p] q Hp _ IH]; intros c.
  { unfold add_profiles. rewrite app_nil_r. by destruct c. }
  cbn [fmap list_fmap prod_map id for_each fst snd] in *.
  rewrite (bind_ok _ _ c (push_profile name p c) ()).
  - rewrite IH. unfold add_profiles, push_profile. cbn. by rewrite <-app_assoc.
  - rewrite (bind_ok _ _ c (push_profile name empty_NGramProfile c) ()) by done. rewrite Hp.
    rewrite (bind_ok _ _ _ (push_profile name empty_NGramProfile c) p) by done. unfold modifyM, set_last_profile, push_profile. cbn.
    rewrite last_snoc, length_app. cbn. by rewrite Nat.add_sub, take_app_length.
Qed.

Lemma get_limit v key max def n : json_get v key JNull = Ok (JUInt n) → (n <= max)%N → json_get_uint64_member_def v key max def = Ok n.
Proof.
  intros H Hn. unfold json_get_uint64_member_def. rewrite H. cbn [mbind res_bind isNull]. unfold check_uint64_member.
  cbn [isIntegral negb lt_Int json_type gt_UInt64 asUInt64]. by destruct (N.ltb_spec max n); [lia|].
Qed.

Lemma categoriser_json_same_ok c (Hc : categoriser_ok c) :
  ∃ j c', Categoriser_to_json c = Ok j ∧ Categoriser_from_json j new_Categoriser = (c', Ok ()) ∧
    profiles c' ≡ₚ profiles c ∧ (max_ngram_length c', cat_max_ngrams c') = (max_ngram_length c, cat_max_ngrams c) ∧
    ∀ profile, categorise_profile c' profile = categorise_profile c profile.
Proof.
  destruct Hc as (Hnd & Hp & Hl & Hn & Hk).
  assert (Hread : Forall (λ x, NGramProfile_from_json (profile_json x.2) = Ok x.2 ∧ ∃ j, NGramProfile_to_json x.2 = Ok j) (profiles c)).
  { eapply Forall_impl; [exact Hp|]. intros [label p] (_ & s & -> & Hs & Hsd). cbn.
    pose proof (init_from_ngram_sorted s (proj1 (proj2 Hs))) as E. rewrite decide_True in E by done.
    unfold profile_json, NGramProfile_to_json. rewrite E. cbn [mbind res_bind]. split; [|eauto].
    unfold NGramProfile_from_json. by rewrite sorted_profile_json. }
  destruct (profiles_to_json_eq (profiles c) Hnd) as (m & Hm & Hperm).
  { apply Forall_and. split; eapply Forall_impl; [exact Hp|by intros ? [? _]|exact Hread|by intros ? [_ ?]]. }
  destruct (Permutation_map_inv _ _ Hperm) as (q & -> & Hq).
  set (j := JObj [("accuracy_threshold", JReal (accuracy_threshold c)); ("max_candidates", JUInt (max_candidates c));
    ("max_ngram_length", JUInt (max_ngram_length c)); ("max_ngrams", JUInt (cat_max_ngrams c));
    ("profiles", JObj (prod_map id profile_json <$> q)); ("type", JStr "ngram_rank")]).
  set (c0 := set_limits (accuracy_threshold c) (max_ngram_length c) (cat_max_ngrams c) (max_candidates c) new_Categoriser).
  exists j, (add_profiles q c0). split_and!; [unfold Categoriser_to_json; by rewrite Hm| |by rewrite Hq|done|].
  - unfold Categoriser_from_json. cbn [json_check_object isObject j].
    set (t := accuracy_threshold c) in *. set (l := max_ngram_length c) in *. set (n := cat_max_ngrams c) in *. set (k := max_candidates c) in *.
    assert (El : json_get_uint64_member_def j "max_ngram_length" 100 def_max_ngram_length = Ok l) by (by apply get_limit).
    assert (En : json_get_uint64_member_def j "max_ngrams" 65536 def_max_ngrams = Ok n) by (by apply get_limit).
    assert (Ek : json_get_uint64_member_def j "max_candidates" 4294967295 def_max_candidates = Ok k)
      by (apply get_limit; [done|change (2 ^ 32)%N with 4294967296%N in Hk; lia]).
    assert (Et : json_get_double_member j "accuracy_threshold" def_accuracy_threshold = Ok t) by done.
    fold j. rewrite El, En, Ek, Et.
    assert (W : wrap32 l = l ∧ wrap32 n = n ∧ wrap32 k = k)
      by (unfold wrap32; change (2 ^ 32)%N with 4294967296%N in *; rewrite !N.mod_small by lia; done).
    change (json_index j "type") with (Ok (JStr "ngram_rank") : res json).
    change (json_index j "profiles") with (Ok (JObj (prod_map id profile_json <$> q)) : res json).
    etransitivity; [|apply (read_profiles q c0)].
    + unfold mbind, M_bind, liftM, getM, putM, mret, M_ret. cbn -[wrap32 NGramProfile_from_json for_each]. by destruct W as (-> & -> & ->).
    + rewrite Hq in Hread. eapply Forall_impl; [exact Hread|]. by intros x [? _].
  - intros profile. apply categorise_perm; [|done..]. by rewrite Hq.
Qed.

(** A categoriser that is written and read back gives the same labels to every profile,
    and so to every text: the profiles come back in another order, but in which order they
    are compared does not matter.  The labels must differ, the limits be within the ranges
    of the reader, and no profile repeat an ngram. *)
Theorem categoriser_json_same c (Hc : categoriser_ok c) :
  ∃ j c', Categoriser_to_json c = Ok j ∧ Categoriser_from_json j new_Categoriser = (c', Ok ()) ∧
    profiles c' ≡ₚ profiles c ∧ (max_ngram_length c', cat_max_ngrams c') = (max_ngram_length c, cat_max_ngrams c) ∧
    ∀ profile, categorise_profile c' profile = categorise_profile c profile.
Proof. by apply categoriser_json_same_ok. Qed.

Definition two_languages : Categoriser :=
  mkCategoriser [("en", init_from_sorted_ngram (mkSorted 400 ["|"; "e"; "|t"])); ("de", init_from_sorted_ngram (mkSorted 400 ["e"; "|"]))]
    ∅ def_accuracy_threshold 5 400 3.

Lemma two_languages_ok : categoriser_ok two_languages.
Proof.
  split_and!; [by vm_compute; repeat (constructor; [set_solver|]); constructor| |vm_compute; discriminate..|done].
    repeat constructor; [exists (mkSorted 400 ["|"; "e"; "|t"])|exists (mkSorted 400 ["e"; "|"])];
      (split_and!; [done|split_and!; [by repeat constructor|vm_compute; discriminate|done]|cbn; repeat (constructor; [set_solver|]); constructor]).
Qed.

Lemma categoriser_json_same_witness : categoriser_ok two_languages ∧
  ∃ j c', Categoriser_to_json two_languages = Ok j ∧ Categoriser_from_json j new_Categoriser = (c', Ok ()) ∧
    profiles c' ≡ₚ profiles two_languages ∧ (max_ngram_length c', cat_max_ngrams c') = (5%N, 400%N) ∧
    ∀ profile, categorise_profile c' profile = categorise_profile two_languages profile.
Proof. exact (conj two_languages_ok (categoriser_json_same two_languages two_languages_ok)). Defined.

Lemma categorise_text_total_ok {unicode : UnicodeLib} c text : ∃ labels, categorise_text c text = Ok labels.
Proof.
  unfold categorise_text, add_text.
  destruct (add_text_loop_total (max_ngram_length c) (S (length (utf8_decode text))) (utf8_decode text) ∅ ltac:(lia)) as [m ->].
  cbn. eauto.
Qed.

(** Categorising ends for every text, whatever its characters are: each round of the
    loop over the terms of the text takes at least one character. *)
Theorem categorise_text_total {unicode : UnicodeLib} c text : ∃ labels, categorise_text c text = Ok labels.
Proof. apply categorise_text_total_ok. Qed.
