(* ===== verification/Schema.v ===== *)
(** * Schemas: the configuration of the fields of documents

    src/jsonxapian/schema.h and schema.cc without the searches and the indexing itself
    ([Indexing]): the kinds of field and their JSON form, the patterns that configure
    unknown fields, and the schema of a type of document with its cache of indexers.

    [w] is the width of [unsigned long], which the hashes of slot names use;
    [json_serialise] is the writer of the JSON library. *)

From S2P Require Import Prelude Json TextUtils Hashing DocValues.

(** ** Kinds of field *)

Inductive TooLongAction := TOOLONG_HASH | TOOLONG_TRUNCATE | TOOLONG_ERROR.

#[export] Instance TooLongAction_eq_dec : EqDecision TooLongAction.
Proof. solve_decision. Defined.
#[export] Instance SlotName_eq_dec : EqDecision SlotName.
Proof. solve_decision. Defined.

(** The base of the kinds with a maximum length. *)
Record MaxLenFieldConfig := mkMaxLen {
  ml_slot : SlotName;
  max_length : N;
  too_long_action : TooLongAction;
}.

#[export] Instance MaxLenFieldConfig_eq_dec : EqDecision MaxLenFieldConfig.
Proof. solve_decision. Defined.

(** The subclasses of [FieldConfig]; a category field has a slot of its own besides
    that of its base. *)
Inductive FieldConfig :=
| MetaFieldConfig (prefix : string) (slot : SlotName)
| IDFieldConfig (base : MaxLenFieldConfig) (store_field prefix : string)
| ExactFieldConfig (base : MaxLenFieldConfig) (prefix store_field : string) (wdfinc : N) (lowercase : bool)
| TextFieldConfig (prefix : string) (slot : SlotName) (store_field processor : string)
| DoubleFieldConfig (slot : SlotName) (store_field : string)
| TimestampFieldConfig (slot : SlotName) (store_field : string)
| DateFieldConfig (slot : SlotName) (store_field : string)
| CategoryFieldConfig (base : MaxLenFieldConfig) (prefix : string) (slot : SlotName)
    (taxonomy_name store_field : string)
| LonLatFieldConfig (slot : SlotName) (store_field : string)
| StoredFieldConfig (store_field : string)
| IgnoredFieldConfig.

#[export] Instance FieldConfig_eq_dec : EqDecision FieldConfig.
Proof. solve_decision. Defined.

(** The subclasses of [FieldIndexer] (indexing.h). *)
Inductive FieldIndexer :=
| MetaIndexer (prefix : string) (slot : N)
| ExactStringIndexer (prefix store_field : string) (wdfinc max_length : N)
    (too_long_action : TooLongAction) (isid : bool) (slot : N) (lowercase : bool)
| StoredIndexer (store_field : string)
| DoubleIndexer (slot : N) (store_field : string)
| TimeStampIndexer (slot : N) (store_field : string)
| DateIndexer (slot : N) (store_field : string)
| CategoryIndexer (prefix taxonomy_name store_field : string) (max_length : N)
    (too_long_action : TooLongAction) (slot : N)
| LonLatIndexer (slot : N) (store_field : string)
| TermGeneratorIndexer (prefix store_field stem_lang : string) (slot : N)
| CJKIndexer (prefix store_field : string) (slot : N).

#[export] Instance FieldIndexer_eq_dec : EqDecision FieldIndexer.
Proof. solve_decision. Defined.

Definition tab : string := sing (chr 9).

Definition chop (s : string) : string := str_take (String.length s - 1) s.

(** *** [indexer()]: no indexer for an ignored field *)

Definition MetaFieldConfig_indexer (prefix : string) (slot : SlotName) : option FieldIndexer :=
  Some (MetaIndexer prefix (SlotName_get slot)).

Definition IDFieldConfig_indexer (base : MaxLenFieldConfig) (store_field prefix : string) : option
    FieldIndexer :=
  Some (ExactStringIndexer prefix store_field 0 (max_length base) (too_long_action base) true
    (SlotName_get (ml_slot base)) false).

Definition ExactFieldConfig_indexer (base : MaxLenFieldConfig) (prefix store_field : string) (wdfinc : N)
    (lowercase : bool) : option FieldIndexer :=
  Some (ExactStringIndexer prefix store_field wdfinc (max_length base) (too_long_action base) false
    (SlotName_get (ml_slot base)) lowercase).

Definition TextFieldConfig_indexer (prefix : string) (slot : SlotName) (store_field processor : string) :
    option FieldIndexer :=
  if decide (processor = "cjk") then Some (CJKIndexer prefix store_field (SlotName_get slot))
  else if string_startswith processor "stem_"
  then Some (TermGeneratorIndexer prefix store_field (str_drop 5 processor) (SlotName_get slot))
  else Some (TermGeneratorIndexer prefix store_field "" (SlotName_get slot)).

Definition DoubleFieldConfig_indexer (slot : SlotName) (store_field : string) : option FieldIndexer :=
  Some (DoubleIndexer (SlotName_get slot) store_field).

Definition TimestampFieldConfig_indexer (slot : SlotName) (store_field : string) : option FieldIndexer :=
  Some (TimeStampIndexer (SlotName_get slot) store_field).

Definition DateFieldConfig_indexer (slot : SlotName) (store_field : string) : option FieldIndexer :=
  Some (DateIndexer (SlotName_get slot) store_field).

Definition CategoryFieldConfig_indexer (base : MaxLenFieldConfig) (prefix : string) (slot : SlotName)
    (taxonomy_name store_field : string) : option FieldIndexer :=
  Some (CategoryIndexer prefix taxonomy_name store_field (max_length base) (too_long_action base)
    (SlotName_get slot)).

Definition LonLatFieldConfig_indexer (slot : SlotName) (store_field : string) : option FieldIndexer :=
  Some (LonLatIndexer (SlotName_get slot) store_field).

Definition StoredFieldConfig_indexer (store_field : string) : option FieldIndexer :=
  Some (StoredIndexer store_field).

Definition IgnoredFieldConfig_indexer : option FieldIndexer :=
  None.

Definition FieldConfig_indexer (f : FieldConfig) : option FieldIndexer :=
  match f with
  | MetaFieldConfig prefix slot => MetaFieldConfig_indexer prefix slot
  | IDFieldConfig base store_field prefix => IDFieldConfig_indexer base store_field prefix
  | ExactFieldConfig base prefix store_field wdfinc lowercase => ExactFieldConfig_indexer base prefix store_field wdfinc lowercase
  | TextFieldConfig prefix slot store_field processor => TextFieldConfig_indexer prefix slot store_field processor
  | DoubleFieldConfig slot store_field => DoubleFieldConfig_indexer slot store_field
  | TimestampFieldConfig slot store_field => TimestampFieldConfig_indexer slot store_field
  | DateFieldConfig slot store_field => DateFieldConfig_indexer slot store_field
  | CategoryFieldConfig base prefix slot taxonomy_name store_field => CategoryFieldConfig_indexer base prefix slot taxonomy_name store_field
  | LonLatFieldConfig slot store_field => LonLatFieldConfig_indexer slot store_field
  | StoredFieldConfig store_field => StoredFieldConfig_indexer store_field
  | IgnoredFieldConfig => IgnoredFieldConfig_indexer
  end.

(** [stored_field()], empty when values are not stored. *)
Definition FieldConfig_stored_field (f : FieldConfig) : string :=
  match f with
  | MetaFieldConfig _ _ | IgnoredFieldConfig => ""
  | IDFieldConfig _ store_field _ | ExactFieldConfig _ _ store_field _ _
  | TextFieldConfig _ _ store_field _ | DoubleFieldConfig _ store_field
  | TimestampFieldConfig _ store_field | DateFieldConfig _ store_field
  | CategoryFieldConfig _ _ _ _ store_field | LonLatFieldConfig _ store_field
  | StoredFieldConfig store_field => store_field
  end.

(** [get_slot(encoding)]: the slot, and the encoding when the method sets it. *)
Definition FieldConfig_get_slot (f : FieldConfig) : N * option ValueEncoding :=
  match f with
  | MetaFieldConfig _ slot | TextFieldConfig _ slot _ _ | DoubleFieldConfig slot _
  | TimestampFieldConfig slot _ | DateFieldConfig slot _ | CategoryFieldConfig _ _ slot _ _ =>
      (SlotName_get slot, Some ENC_VINT_LENGTHS)
  | IDFieldConfig base _ _ | ExactFieldConfig base _ _ _ _ =>
      (SlotName_get (ml_slot base), Some ENC_VINT_LENGTHS)
  | LonLatFieldConfig slot _ => (SlotName_get slot, Some ENC_GEOENCODE)
  | StoredFieldConfig _ | IgnoredFieldConfig => (BAD_VALUENO, None)
  end.

Definition add_group_if_taxonomy (taxonomy_name : string) (f : FieldConfig) (result : gset string) : gset string :=
  match f with
  | CategoryFieldConfig _ prefix _ name _ =>
      if decide (name = taxonomy_name) then {[chop prefix]} ∪ result else result
  | _ => result
  end.

(** ** The JSON form of a field *)

Definition has_tab (s : string) : bool := existsb (λ c, bool_decide (c = chr 9)) (bytes s).

(** A member that may not be empty or hold a tab. *)
Definition json_name_member (value : json) (key : string) : res string :=
  name ← json_get_string_member value key "";
  if decide (name = "")
  then throw (InvalidValueError ("Field configuration argument " +:+ quoted key +:+ " may not be empty"))
  else if has_tab name
  then throw (InvalidValueError ("Field configuration argument " +:+ quoted key +:+ " contains invalid character \t"))
  else Ok name.

(** The prefix of the terms of a field with a group. *)
Definition json_group_prefix (value : json) : res string :=
  prefix ← json_name_member value "group"; Ok (prefix +:+ tab).

Definition TooLongAction_of_string (action_str : string) : res TooLongAction :=
  if decide (action_str = "error") then Ok TOOLONG_ERROR
  else if decide (action_str = "hash") then Ok TOOLONG_HASH
  else if decide (action_str = "truncate") then Ok TOOLONG_TRUNCATE
  else throw (InvalidValueError ("Field configuration too_long_action " +:+ quoted action_str +:+ " is not supported")).

Definition TooLongAction_to_string (a : TooLongAction) : string :=
  match a with TOOLONG_ERROR => "error" | TOOLONG_HASH => "hash" | TOOLONG_TRUNCATE => "truncate" end.

Section from_json.
Context (w : N).

Definition json_slot (value : json) : res SlotName :=
  v ← json_index value "slot"; SlotName_of_json w v.

Definition json_store_field (value : json) : res string := json_get_string_member value "store_field" "".

Definition MetaFieldConfig_new (value : json) : res FieldConfig :=
  json_check_object value "field configuration" ;;
  prefix ← json_group_prefix value;
  slot ← json_slot value;
  Ok (MetaFieldConfig prefix slot).

(** The maximum length is an [unsigned int]. *)
Definition MaxLenFieldConfig_new (value : json) : res MaxLenFieldConfig :=
  json_check_object value "field configuration" ;;
  max_length ← json_get_uint64_member_def value "max_length" 240 64;
  action_str ← json_get_string_member value "too_long_action" "error";
  action ← TooLongAction_of_string action_str;
  slot ← json_slot value;
  Ok (mkMaxLen slot (wrap32 max_length) action).

Definition id_prefix (doc_type : string) : string := tab +:+ doc_type +:+ tab.

Definition IDFieldConfig_new (value : json) (doc_type : string) : res FieldConfig :=
  base ← MaxLenFieldConfig_new value;
  store_field ← json_store_field value;
  Ok (IDFieldConfig base store_field (id_prefix doc_type)).

(** The increment of the frequency is an [unsigned int]. *)
Definition ExactFieldConfig_new (value : json) : res FieldConfig :=
  base ← MaxLenFieldConfig_new value;
  prefix ← json_group_prefix value;
  store_field ← json_store_field value;
  wdfinc ← json_get_uint64_member_def value "wdfinc" maxUInt64 0;
  lowercase ← json_get_bool value "lowercase" false;
  Ok (ExactFieldConfig base prefix store_field (wrap32 wdfinc) lowercase).

Definition TextFieldConfig_new (value : json) : res FieldConfig :=
  json_check_object value "schema object" ;;
  prefix ← json_group_prefix value;
  store_field ← json_store_field value;
  processor ← json_get_string_member value "processor" "";
  slot ← json_slot value;
  Ok (TextFieldConfig prefix slot store_field processor).

(** The constructors of numbers, times, dates and coordinates, which read the same
    members. *)
Definition SlotFieldConfig_new (make : SlotName → string → FieldConfig) (value : json) : res FieldConfig :=
  json_check_object value "schema object" ;;
  slot ← json_slot value;
  store_field ← json_store_field value;
  Ok (make slot store_field).
Definition DoubleFieldConfig_new := SlotFieldConfig_new DoubleFieldConfig.
Definition TimestampFieldConfig_new := SlotFieldConfig_new TimestampFieldConfig.
Definition DateFieldConfig_new := SlotFieldConfig_new DateFieldConfig.
Definition LonLatFieldConfig_new := SlotFieldConfig_new LonLatFieldConfig.

Definition CategoryFieldConfig_new (value : json) : res FieldConfig :=
  base ← MaxLenFieldConfig_new value;
  prefix ← json_group_prefix value;
  taxonomy_name ← json_name_member value "taxonomy";
  store_field ← json_store_field value;
  slot ← json_slot value;
  Ok (CategoryFieldConfig base prefix slot taxonomy_name store_field).

Definition StoredFieldConfig_new (value : json) : res FieldConfig :=
  json_check_object value "schema object" ;;
  store_field ← json_store_field value;
  if decide (store_field = "")
  then throw (InvalidValueError ("Field configuration argument " +:+ quoted "store_field" +:+ " may not be empty"))
  else Ok (StoredFieldConfig store_field).

(** [FieldConfig::from_json]. *)
Definition FieldConfig_from_json (value : json) (doc_type : string) : res FieldConfig :=
  json_check_object value "field configuration" ;;
  type ← json_get_string_member value "type" "";
  if decide (type = "cat") then CategoryFieldConfig_new value
  else if decide (type = "date") then DateFieldConfig_new value
  else if decide (type = "double") then DoubleFieldConfig_new value
  else if decide (type = "exact") then ExactFieldConfig_new value
  else if decide (type = "id") then IDFieldConfig_new value doc_type
  else if decide (type = "ignore") then Ok IgnoredFieldConfig
  else if decide (type = "lonlat") then LonLatFieldConfig_new value
  else if decide (type = "meta") then MetaFieldConfig_new value
  else if decide (type = "stored") then StoredFieldConfig_new value
  else if decide (type = "text") then TextFieldConfig_new value
  else if decide (type = "timestamp") then TimestampFieldConfig_new value
  else throw (InvalidValueError ("Field configuration type " +:+ quoted type +:+ " is not supported")).

End from_json.

Definition MaxLenFieldConfig_to_json (base : MaxLenFieldConfig) (value : json) : res json :=
  json_check_object value "field configuration" ;;
  let value := json_set value "max_length" (JUInt (max_length base)) in
  let value := json_set value "too_long_action" (jstr (TooLongAction_to_string (too_long_action base))) in
  Ok (SlotName_to_json value "slot" (ml_slot base)).

Definition set_member (key : string) (x : json) (value : json) : json := json_set value key x.

(** *** [to_json(value)] *)

Definition MetaFieldConfig_to_json (prefix : string) (slot : SlotName) (value : json) : res json :=
  let value := set_member "type" (jstr "meta") value in
  let value := set_member "group" (jstr (chop prefix)) value in
  Ok (SlotName_to_json value "slot" slot).

Definition IDFieldConfig_to_json (base : MaxLenFieldConfig) (store_field prefix : string) (value : json) :
    res json :=
  value ← MaxLenFieldConfig_to_json base value;
  let value := set_member "type" (jstr "id") value in
  Ok (set_member "store_field" (jstr store_field) value).

Definition ExactFieldConfig_to_json (base : MaxLenFieldConfig) (prefix store_field : string) (wdfinc : N)
    (lowercase : bool) (value : json) : res json :=
  value ← MaxLenFieldConfig_to_json base value;
  let value := set_member "type" (jstr "exact") value in
  let value := set_member "group" (jstr (chop prefix)) value in
  let value := set_member "store_field" (jstr store_field) value in
  let value := set_member "wdfinc" (JUInt wdfinc) value in
  Ok (set_member "lowercase" (JBool lowercase) value).

Definition TextFieldConfig_to_json (prefix : string) (slot : SlotName) (store_field processor : string)
    (value : json) : res json :=
  let value := set_member "type" (jstr "text") value in
  let value := set_member "group" (jstr (chop prefix)) value in
  let value := set_member "store_field" (jstr store_field) value in
  let value := set_member "processor" (jstr processor) value in
  Ok (SlotName_to_json value "slot" slot).

Definition DoubleFieldConfig_to_json (slot : SlotName) (store_field : string) (value : json) : res json :=
  let value := SlotName_to_json (set_member "type" (jstr "double") value) "slot" slot in
  Ok (set_member "store_field" (jstr store_field) value).

Definition TimestampFieldConfig_to_json (slot : SlotName) (store_field : string) (value : json) : res json :=
  let value := SlotName_to_json (set_member "type" (jstr "timestamp") value) "slot" slot in
  Ok (set_member "store_field" (jstr store_field) value).

Definition DateFieldConfig_to_json (slot : SlotName) (store_field : string) (value : json) : res json :=
  let value := SlotName_to_json (set_member "type" (jstr "date") value) "slot" slot in
  Ok (set_member "store_field" (jstr store_field) value).

Definition CategoryFieldConfig_to_json (base : MaxLenFieldConfig) (prefix : string) (slot : SlotName)
    (taxonomy_name store_field : string) (value : json) : res json :=
  value ← MaxLenFieldConfig_to_json base value;
  let value := set_member "type" (jstr "cat") value in
  let value := set_member "group" (jstr (chop prefix)) value in
  let value := set_member "taxonomy" (jstr taxonomy_name) value in
  let value := set_member "store_field" (jstr store_field) value in
  Ok (SlotName_to_json value "slot" slot).

Definition LonLatFieldConfig_to_json (slot : SlotName) (store_field : string) (value : json) : res json :=
  let value := SlotName_to_json (set_member "type" (jstr "lonlat") value) "slot" slot in
  Ok (set_member "store_field" (jstr store_field) value).

Definition StoredFieldConfig_to_json (store_field : string) (value : json) : res json :=
  let value := set_member "type" (jstr "stored") value in
  Ok (set_member "store_field" (jstr store_field) value).

Definition IgnoredFieldConfig_to_json (value : json) : res json :=
  Ok (set_member "type" (jstr "ignore") value).

Definition FieldConfig_to_json (f : FieldConfig) (value : json) : res json :=
  match f with
  | MetaFieldConfig prefix slot => MetaFieldConfig_to_json prefix slot value
  | IDFieldConfig base store_field prefix => IDFieldConfig_to_json base store_field prefix value
  | ExactFieldConfig base prefix store_field wdfinc lowercase => ExactFieldConfig_to_json base prefix store_field wdfinc lowercase value
  | TextFieldConfig prefix slot store_field processor => TextFieldConfig_to_json prefix slot store_field processor value
  | DoubleFieldConfig slot store_field => DoubleFieldConfig_to_json slot store_field value
  | TimestampFieldConfig slot store_field => TimestampFieldConfig_to_json slot store_field value
  | DateFieldConfig slot store_field => DateFieldConfig_to_json slot store_field value
  | CategoryFieldConfig base prefix slot taxonomy_name store_field => CategoryFieldConfig_to_json base prefix slot taxonomy_name store_field value
  | LonLatFieldConfig slot store_field => LonLatFieldConfig_to_json slot store_field value
  | StoredFieldConfig store_field => StoredFieldConfig_to_json store_field value
  | IgnoredFieldConfig => IgnoredFieldConfig_to_json value
  end.

(** ** Patterns *)

Record FieldConfigPattern := mkPattern {
  leading_wildcard : bool;
  ending : string;
  pattern_config : json;
}.

Abbreviation FieldConfigPatterns := (list FieldConfigPattern).

Definition new_FieldConfigPattern : FieldConfigPattern := mkPattern false "" JNull.

Definition has_star (s : string) : bool := existsb (λ c, bool_decide (c = "*"%char)) (bytes s).

Definition FieldConfigPattern_from_json (value : json) : M FieldConfigPattern () :=
  liftM (json_check_array value "schema pattern") ;;
  match value with
  | JArr [pattern_obj; config_obj] =>
      liftM (json_check_string pattern_obj "field in schema pattern") ;;
      liftM (json_check_object config_obj "config in schema pattern") ;;
      pattern ← liftM (asString pattern_obj);
      let wild := string_startswith pattern "*" in
      let pattern := if wild then str_drop 1 pattern else pattern in
      modifyM (λ p, mkPattern wild (ending p) (pattern_config p)) ;;
      if has_star pattern
      then throwM (InvalidValueError "fields in schema patterns must not contain a * other than at the start")
      else putM (mkPattern wild pattern config_obj)
  | _ => throwM (InvalidValueError "Schema patterns must be arrays of length 2")
  end.

Definition FieldConfigPattern_to_json (p : FieldConfigPattern) : json :=
  JArr [jstr (if leading_wildcard p then "*" +:+ ending p else ending p); pattern_config p].

(** The text with its first star replaced by the matched part of the name. *)
Fixpoint subst_star (prefix s : string) : string :=
  match s with
  | EmptyString => EmptyString
  | String c s => if decide (c = "*"%char) then prefix +:+ s else String c (subst_star prefix s)
  end.

Definition subst_item (prefix : string) (v : json) : json :=
  match v with
  | JStr s => if has_star s then jstr (subst_star prefix s) else v
  | _ => v
  end.

Definition subst_config (prefix : string) (config : json) : json :=
  foldl (λ newconfig '(name, v), json_set newconfig name (subst_item prefix v)) JNull (json_members config).

(** The part of a name before the ending. *)
Definition before_ending (fieldname ending : string) : string :=
  str_take (String.length fieldname - String.length ending) fieldname.

(** [test]: the configuration of a field whose name matches, else none. *)
Definition FieldConfigPattern_test (w : N) (p : FieldConfigPattern) (fieldname doc_type : string) : res (option FieldConfig) :=
  if leading_wildcard p then
    if string_endswith fieldname (ending p)
    then Some <$> FieldConfig_from_json w (subst_config (before_ending fieldname (ending p)) (pattern_config p)) doc_type
    else Ok None
  else if decide (fieldname = ending p)
  then Some <$> FieldConfig_from_json w (pattern_config p) doc_type
  else Ok None.

(** Reading the patterns one by one at the end of the list. *)
Definition FieldConfigPatterns_from_json (value : json) : M FieldConfigPatterns () :=
  putM [] ;;
  liftM (json_check_array value "schema pattern list") ;;
  for_each (json_elems value) (λ i, λ patterns,
    let '(p, r) := FieldConfigPattern_from_json i new_FieldConfigPattern in (patterns ++ [p], r)).

Definition FieldConfigPatterns_to_json (patterns : FieldConfigPatterns) : json :=
  JArr (FieldConfigPattern_to_json <$> patterns).

Definition FieldConfigPatterns_merge_from (other patterns : FieldConfigPatterns) : FieldConfigPatterns :=
  match other with [] => patterns | _ => other end.

(** [get]: what the first matching pattern gives. *)
Fixpoint FieldConfigPatterns_get (w : N) (patterns : FieldConfigPatterns) (fieldname doc_type : string) : res (option FieldConfig) :=
  match patterns with
  | [] => Ok None
  | p :: patterns =>
      result ← FieldConfigPattern_test w p fieldname doc_type;
      match result with
      | Some f => Ok (Some f)
      | None => FieldConfigPatterns_get w patterns fieldname doc_type
      end
  end.

(** ** Schemas *)

(** [indexers] caches the indexer of a field; an entry may hold a null pointer. *)
Record Schema := mkSchema {
  doc_type : string;
  fields : gmap string FieldConfig;
  indexers : gmap string (option FieldIndexer);
  patterns : FieldConfigPatterns;
}.

Definition new_Schema (doc_type : string) : Schema := mkSchema doc_type ∅ ∅ [].

Definition set_fields (m : gmap string FieldConfig) (s : Schema) : Schema :=
  mkSchema (doc_type s) m (indexers s) (patterns s).

Definition Schema_clear (s : Schema) : Schema := mkSchema (doc_type s) ∅ ∅ (patterns s).

Definition on_patterns (op : M FieldConfigPatterns ()) : M Schema () := λ s,
  let '(l, r) := op (patterns s) in (mkSchema (doc_type s) (fields s) (indexers s) l, r).

(** [set]: no configuration removes the field. *)
Definition Schema_set (fieldname : string) (config : option FieldConfig) (s : Schema) : Schema :=
  match config with
  | None => set_fields (delete fieldname (fields s)) s
  | Some f => set_fields (<[fieldname := f]> (fields s)) s
  end.

Definition Schema_get (fieldname : string) (s : Schema) : option FieldConfig := fields s !! fieldname.

(** [get_indexer]: the cached indexer, or that of the configuration, which is cached. *)
Definition Schema_get_indexer (fieldname : string) : M Schema (option FieldIndexer) := λ s,
  match indexers s !! fieldname with
  | Some i => (s, Ok i)
  | None =>
      match fields s !! fieldname with
      | None => (s, Ok None)
      | Some f =>
          let i := FieldConfig_indexer f in
          (mkSchema (doc_type s) (fields s) (<[fieldname := i]> (indexers s)) (patterns s), Ok i)
      end
  end.

Definition Schema_get_taxonomy_groups (taxonomy_name : string) (s : Schema) (result : gset string) : gset string :=
  foldl (λ result '(_, f), add_group_if_taxonomy taxonomy_name f result) result (sorted_items (fields s)).

Definition fields_to_json (m : gmap string FieldConfig) : res json :=
  foldl (λ subval '(name, f),
    subval ← subval; item ← FieldConfig_to_json f (JObj []); Ok (json_set subval name item))
    (Ok (JObj [])) (sorted_items m).

Definition Schema_to_json (s : Schema) : res json :=
  value ← (if decide (fields s = ∅) then Ok (JObj [])
           else subval ← fields_to_json (fields s); Ok (json_set (JObj []) "fields" subval));
  Ok (json_set value "patterns" (FieldConfigPatterns_to_json (patterns s))).

Section schema.
Context (w : N) (json_serialise : json → string).

Definition Schema_from_json (value : json) : M Schema () :=
  modifyM Schema_clear ;;
  liftM (json_check_object value "schema") ;;
  fields_value ← liftM (json_get value "fields" JNull);
  (if isNull fields_value then mret ()
   else
     liftM (json_check_object fields_value "fields in schema") ;;
     for_each (json_members fields_value) (λ '(name, i),
       s ← getM;
       f ← liftM (FieldConfig_from_json w i (doc_type s));
       modifyM (Schema_set name (Some f)))) ;;
  patterns_value ← liftM (json_get value "patterns" JNull);
  on_patterns (FieldConfigPatterns_from_json patterns_value).

(** One field of the other schema: new here, or configured in the same way. *)
Definition merge_field (name : string) (f : FieldConfig) : M Schema () :=
  s ← getM;
  tmp ← liftM (FieldConfig_to_json f JNull);
  match fields s !! name with
  | None =>
      f ← liftM (FieldConfig_from_json w tmp (doc_type s));
      modifyM (Schema_set name (Some f))
  | Some f' =>
      tmp2 ← liftM (FieldConfig_to_json f' JNull);
      if decide (json_serialise tmp = json_serialise tmp2) then mret ()
      else throwM (InvalidValueError ("Cannot change configuration in schema for field " +:+ quoted name +:+ "."))
  end.

Definition Schema_merge_from (other : Schema) : M Schema () :=
  for_each (sorted_items (fields other)) (λ '(name, f), merge_field name f) ;;
  on_patterns (modifyM (FieldConfigPatterns_merge_from (patterns other))).

End schema.

(** Unfolding the methods of a field of a known kind. *)
Ltac unfold_to_json := unfold FieldConfig_to_json, MetaFieldConfig_to_json, IDFieldConfig_to_json, ExactFieldConfig_to_json, TextFieldConfig_to_json, DoubleFieldConfig_to_json, TimestampFieldConfig_to_json, DateFieldConfig_to_json, CategoryFieldConfig_to_json, LonLatFieldConfig_to_json, StoredFieldConfig_to_json, IgnoredFieldConfig_to_json.
Ltac unfold_indexer H := unfold FieldConfig_indexer, MetaFieldConfig_indexer, IDFieldConfig_indexer, ExactFieldConfig_indexer, TextFieldConfig_indexer, DoubleFieldConfig_indexer, TimestampFieldConfig_indexer, DateFieldConfig_indexer, CategoryFieldConfig_indexer, LonLatFieldConfig_indexer, StoredFieldConfig_indexer, IgnoredFieldConfig_indexer in H.
