(* ===== verification/SchemaThms.v ===== *)
(** * Schemas: properties

    What the constructors of fields accept ([field_ok]), the JSON round trip of fields
    and schemas, and what patterns match. *)

From S2P Require Import Prelude Json TextUtils Hashing DocValues Schema.

Lemma string_member_clean v key d s :
  json_clean v = true → clean d → json_get_string_member v key d = Ok s → clean s.
Proof.
  intros Hv Hd. unfold json_get_string_member.
  destruct (json_get v key JNull) as [x|e|] eqn:E; [|done..]. cbn.
  pose proof (json_clean_get _ _ JNull _ Hv eq_refl E) as Hx. destruct x; try done; cbn; intros [= <-]; [done|].
  cbn in Hx. by apply bool_decide_eq_true in Hx.
Qed.

(** ** What the constructors accept *)

Definition name_ok (g : string) : Prop := g ≠ "" ∧ has_tab g = false ∧ clean g.
Definition prefix_ok (p : string) : Prop := ∃ g, p = g +:+ tab ∧ name_ok g.

Section facts.
Context (w : N).

Definition slot_ok (s : SlotName) : Prop := slot_wf w s ∧ clean (slot_name s).

(** [limit] bounds the maximum length. *)
Definition maxUInt32 : N := 4294967295.

Definition base_ok (limit : N) (b : MaxLenFieldConfig) : Prop := slot_ok (ml_slot b) ∧ (max_length b <= limit)%N.

Definition field_ok (limit : N) (doc_type : string) (f : FieldConfig) : Prop :=
  match f with
  | MetaFieldConfig prefix slot => prefix_ok prefix ∧ slot_ok slot
  | IDFieldConfig base store_field prefix => base_ok limit base ∧ clean store_field ∧ prefix = id_prefix doc_type
  | ExactFieldConfig base prefix store_field wdfinc lowercase =>
      base_ok limit base ∧ prefix_ok prefix ∧ clean store_field ∧ (wdfinc < 2 ^ 32)%N
  | TextFieldConfig prefix slot store_field processor =>
      prefix_ok prefix ∧ slot_ok slot ∧ clean store_field ∧ clean processor
  | DoubleFieldConfig slot store_field | TimestampFieldConfig slot store_field
  | DateFieldConfig slot store_field | LonLatFieldConfig slot store_field => slot_ok slot ∧ clean store_field
  | CategoryFieldConfig base prefix slot taxonomy_name store_field =>
      base_ok limit base ∧ prefix_ok prefix ∧ slot = ml_slot base ∧ name_ok taxonomy_name ∧ clean store_field
  | StoredFieldConfig store_field => store_field ≠ "" ∧ clean store_field
  | IgnoredFieldConfig => True
  end.

Lemma json_slot_ok v s : json_clean v = true → json_slot w v = Ok s → slot_ok s.
Proof.
  intros Hv. unfold json_slot, json_index. destruct (json_get v "slot" JNull) as [x|e|] eqn:E; [|done..]. cbn.
  pose proof (json_clean_get _ _ JNull _ Hv eq_refl E) as Hx. unfold slot_ok, slot_wf, clean.
  destruct x as [|z|n|d|s'|b|l|m]; cbn -[asUInt]; try done.
  - intros [= <-]. done.
  - destruct (z <? 0)%Z eqn:Ez; [done|]. cbn. rewrite Ez. destruct (Z.ltb_spec maxUInt z); [done|]. cbn.
    intros [= <-]. cbn. split; [|done]. rewrite decide_True by done. unfold BAD_VALUENO, maxUInt in *. lia.
  - destruct (0xffffffff <? n)%N eqn:En; [done|]. cbn. destruct (Z.ltb_spec maxUInt (Z.of_N n)); [done|]. cbn.
    intros [= <-]. cbn. split; [|done]. rewrite decide_True by done. unfold BAD_VALUENO. by apply N.ltb_ge in En.
  - intros [= <-]. cbn in *. apply bool_decide_eq_true in Hx. split; [|done]. by case_decide as H; [rewrite H|].
Qed.

Lemma json_name_member_ok v key g : json_clean v = true → json_name_member v key = Ok g → name_ok g.
Proof.
  intros Hv. unfold json_name_member. destruct (json_get_string_member v key "") as [s|e|] eqn:E; [|done..].
  cbn. case_decide; [done|]. destruct (has_tab s) eqn:Ht; [done|]. intros [= <-].
  split; [done|]. split; [done|]. by apply (string_member_clean v key "").
Qed.

Lemma wrap32_lt n : (wrap32 n < 2 ^ 32)%N.
Proof. unfold wrap32. apply N.mod_lt. done. Qed.

(** Inverts the chain of reads of a constructor. *)
Ltac reads :=
  repeat match goal with
  | H : (_ ≫= _) = Ok _ |- _ =>
      let E := fresh "E" in apply res_bind_ok in H as (? & E & H)
  | H : (if decide _ then _ else _) = Ok _ |- _ => case_decide
  | H : throw _ = Ok _ |- _ => discriminate H
  | H : Ok _ = Ok _ |- _ => injection H as <-
  end.

Lemma MaxLenFieldConfig_new_ok v b :
  json_clean v = true → MaxLenFieldConfig_new w v = Ok b → base_ok maxUInt32 b.
Proof.
  intros Hv H. unfold MaxLenFieldConfig_new in H. reads. split; cbn.
  - by eapply json_slot_ok.
  - pose proof (wrap32_lt x0). unfold maxUInt32. lia.
Qed.

Lemma MaxLenFieldConfig_new_slot v b : MaxLenFieldConfig_new w v = Ok b → json_slot w v = Ok (ml_slot b).
Proof. intros H. unfold MaxLenFieldConfig_new in H. by reads. Qed.

Lemma json_group_prefix_ok v p : json_clean v = true → json_group_prefix v = Ok p → prefix_ok p.
Proof. intros Hv H. unfold json_group_prefix in H. reads. eexists. split; [done|]. by eapply json_name_member_ok. Qed.

(** Whatever the configuration of a field is read from, it is well-formed. *)
Lemma from_json_ok v dt f :
  json_clean v = true → FieldConfig_from_json w v dt = Ok f → field_ok maxUInt32 dt f.
Proof.
  intros Hv H. unfold FieldConfig_from_json in H.
  unfold CategoryFieldConfig_new, DateFieldConfig_new, DoubleFieldConfig_new, ExactFieldConfig_new, IDFieldConfig_new,
    LonLatFieldConfig_new, MetaFieldConfig_new, StoredFieldConfig_new, TextFieldConfig_new, TimestampFieldConfig_new,
    SlotFieldConfig_new, json_store_field in H.
  reads; cbn [field_ok]; try done; split_and?; try done.
  all: match goal with
       | |- base_ok _ _ => by eapply MaxLenFieldConfig_new_ok
       | |- prefix_ok _ => by eapply json_group_prefix_ok
       | |- slot_ok _ => by eapply json_slot_ok
       | |- name_ok _ => by eapply json_name_member_ok
       | |- clean _ => eapply (string_member_clean _ _ ""); [exact Hv|reflexivity|eassumption]
       | |- (wrap32 _ < _)%N => apply wrap32_lt
       | H1 : MaxLenFieldConfig_new w ?v = Ok _, H2 : json_slot w ?v = Ok _ |- _ =>
           apply MaxLenFieldConfig_new_slot in H1; rewrite H1 in H2; by injection H2
       end.
Qed.

(** ** Reading back what was written *)

Lemma isObject_set v k x : isObject (json_set v k x) = true.
Proof. by destruct v. Qed.

Lemma isObject_slot v s : isObject v = true → isObject (SlotName_to_json v "slot" s) = true.
Proof. unfold SlotName_to_json. repeat case_match; auto using isObject_set. Qed.

Lemma get_slot_other v s k d :
  isObject v = true → clean k → "slot" ≠ k → json_get (SlotName_to_json v "slot" s) k d = json_get v k d.
Proof. intros. unfold SlotName_to_json. repeat case_match; [done|by apply get_set_other..]. Qed.

(** The member [to_json] writes for a slot. *)
Definition slot_json (s : SlotName) : json :=
  if (str_size (slot_name s) =? 0)%N then if (slot_num s =? BAD_VALUENO)%N then JNull else JUInt (slot_num s)
  else JStr (slot_name s).

Lemma get_slot_same v s :
  isObject v = true → clean (slot_name s) → json_get v "slot" JNull = Ok JNull ∨ json_get v "slot" JNull = Ok (slot_json s) →
  json_get (SlotName_to_json v "slot" s) "slot" JNull = Ok (slot_json s).
Proof.
  intros Hv Hc Hold. unfold SlotName_to_json, slot_json in *. repeat case_match; [by destruct Hold| |].
  - by apply get_set_same.
  - rewrite get_set_same by done. unfold jstr. by rewrite Hc.
Qed.

Lemma slot_json_read s : slot_ok s → SlotName_of_json w (slot_json s) = Ok s.
Proof.
  intros [Hwf _]. unfold slot_json, slot_wf in *. destruct s as [name num]. cbn [slot_name slot_num] in *.
  destruct name as [|c name]; cbn [str_size String.length].
  - rewrite decide_True in Hwf by done. change (str_size "" =? 0)%N with true. cbn iota.
    destruct (N.eqb_spec num BAD_VALUENO) as [->|Hne]; [done|]. unfold SlotName_of_json. cbn. unfold BAD_VALUENO in *.
    destruct (N.ltb_spec 0xffffffff num); [lia|]. unfold asUInt, maxUInt. destruct (Z.ltb_spec 4294967295 (Z.of_N num)); [lia|done].
  - rewrite decide_False in Hwf by done. cbn. by rewrite Hwf.
Qed.

Lemma read_string v key d s : json_get v key JNull = Ok (JStr s) → json_get_string_member v key d = Ok s.
Proof. intros H. unfold json_get_string_member. by rewrite H. Qed.

Lemma read_uint v key max def n :
  json_get v key JNull = Ok (JUInt n) → (n <= max)%N → json_get_uint64_member_def v key max def = Ok n.
Proof.
  intros H Hn. unfold json_get_uint64_member_def. rewrite H. cbn. unfold check_uint64_member. cbn.
  by destruct (N.ltb_spec max n); [lia|].
Qed.

Lemma read_bool v key d b : json_get v key JNull = Ok (JBool b) → json_get_bool v key d = Ok b.
Proof. intros H. unfold json_get_bool. by rewrite H. Qed.

Lemma read_slot v s : slot_ok s → json_get v "slot" JNull = Ok (slot_json s) → json_slot w v = Ok s.
Proof. intros Hs H. unfold json_slot, json_index. rewrite H. by apply slot_json_read. Qed.

Lemma read_name v key g : name_ok g → json_get v key JNull = Ok (JStr g) → json_name_member v key = Ok g.
Proof.
  intros (Hne & Ht & _) H. unfold json_name_member. rewrite (read_string _ _ _ _ H). cbn. by rewrite decide_False, Ht.
Qed.

Lemma read_prefix v g : name_ok g → json_get v "group" JNull = Ok (JStr g) → json_group_prefix v = Ok (g +:+ tab).
Proof. intros Hg H. unfold json_group_prefix. by rewrite (read_name _ _ _ Hg H). Qed.

Lemma chop_tab g : chop (g +:+ tab) = g.
Proof. unfold chop. rewrite str_app_length. cbn. rewrite Nat.add_sub. apply str_take_app. Qed.

End facts.

#[export] Hint Resolve isObject_set isObject_slot : rp.

(** ** Round trip *)

(** Reads the member a chain of writes left. *)
Ltac gets :=
  unfold set_member;
  repeat first
    [ rewrite get_set_same by first [reflexivity | eauto with rp]
    | rewrite get_set_other by first [reflexivity | done | eauto with rp]
    | rewrite get_slot_other by first [reflexivity | done | eauto with rp] ].

Section roundtrip.
Context (w : N).

Definition blank (v : json) : Prop := v = JNull ∨ v = JObj [].

Lemma blank_object v : blank v → isObject v = true.
Proof. by intros [-> | ->]. Qed.

Lemma blank_get v key d : blank v → json_get v key d = Ok d.
Proof. by intros [-> | ->]. Qed.

#[local] Hint Resolve blank_object : rp.

Lemma base_read b j :
  base_ok w 240 b → isObject j = true →
  json_get j "max_length" JNull = Ok (JUInt (max_length b)) →
  json_get j "too_long_action" JNull = Ok (JStr (TooLongAction_to_string (too_long_action b))) →
  json_get j "slot" JNull = Ok (slot_json (ml_slot b)) →
  MaxLenFieldConfig_new w j = Ok b.
Proof.
  intros [Hs Hm] Hj H1 H2 H3. unfold MaxLenFieldConfig_new, json_check_object. rewrite Hj. cbn [mbind res_bind].
  rewrite (read_uint _ _ _ _ _ H1) by done. cbn [mbind res_bind]. rewrite (read_string _ _ _ _ H2). cbn [mbind res_bind].
  rewrite (read_slot w _ _ Hs H3). destruct b as [s m a]. cbn in *.
  replace (wrap32 m) with m by (unfold wrap32; rewrite N.mod_small; lia). by destruct a.
Qed.

Lemma from_json_type j dt type :
  isObject j = true → json_get j "type" JNull = Ok (JStr type) →
  FieldConfig_from_json w j dt =
    if decide (type = "cat") then CategoryFieldConfig_new w j
    else if decide (type = "date") then DateFieldConfig_new w j
    else if decide (type = "double") then DoubleFieldConfig_new w j
    else if decide (type = "exact") then ExactFieldConfig_new w j
    else if decide (type = "id") then IDFieldConfig_new w j dt
    else if decide (type = "ignore") then Ok IgnoredFieldConfig
    else if decide (type = "lonlat") then LonLatFieldConfig_new w j
    else if decide (type = "meta") then MetaFieldConfig_new w j
    else if decide (type = "stored") then StoredFieldConfig_new j
    else if decide (type = "text") then TextFieldConfig_new w j
    else if decide (type = "timestamp") then TimestampFieldConfig_new w j
    else throw (InvalidValueError ("Field configuration type " +:+ quoted type +:+ " is not supported")).
Proof.
  intros Hj Ht. unfold FieldConfig_from_json, json_check_object. rewrite Hj. cbn [mbind res_bind].
  by rewrite (read_string _ _ _ _ Ht).
Qed.

Lemma slot_field_read make j slot store_field :
  isObject j = true → slot_ok w slot → json_get j "slot" JNull = Ok (slot_json slot) →
  json_get j "store_field" JNull = Ok (JStr store_field) →
  SlotFieldConfig_new w make j = Ok (make slot store_field).
Proof.
  intros Hj Hs H1 H2. unfold SlotFieldConfig_new, json_check_object, json_store_field. rewrite Hj. cbn [mbind res_bind].
  rewrite (read_slot w _ _ Hs H1). cbn [mbind res_bind]. by rewrite (read_string _ _ _ _ H2).
Qed.

(** The four kinds that are a slot and a stored field write the same members. *)
Lemma slot_field_roundtrip make type v slot store_field :
  blank v → slot_ok w slot → clean store_field →
  let j := set_member "store_field" (jstr store_field)
             (SlotName_to_json (set_member "type" (jstr type) v) "slot" slot) in
  isObject j = true ∧ json_get j "type" JNull = Ok (jstr type) ∧
  SlotFieldConfig_new w make j = Ok (make slot store_field).
Proof.
  intros Hv [Hs1 Hs2] Hc j. assert (Hj : isObject j = true) by apply isObject_set.
  split_and!; [done|by unfold j; gets|]. apply slot_field_read; [done|done| |].
  - unfold j. gets. rewrite get_slot_same; eauto with rp. left. gets. by apply blank_get.
  - unfold j. gets. by rewrite clean_jstr.
Qed.

(** What the kinds with a maximum length write first. *)
Lemma base_written b v :
  blank v → base_ok w 240 b →
  ∃ j, MaxLenFieldConfig_to_json b v = Ok j ∧ isObject j = true ∧
    json_get j "max_length" JNull = Ok (JUInt (max_length b)) ∧
    json_get j "too_long_action" JNull = Ok (JStr (TooLongAction_to_string (too_long_action b))) ∧
    json_get j "slot" JNull = Ok (slot_json (ml_slot b)).
Proof.
  intros Hv [[Hs1 Hs2] Hm]. unfold MaxLenFieldConfig_to_json, json_check_object. rewrite blank_object by done.
  cbn [mbind res_bind]. eexists. split; [reflexivity|]. split_and!; [by auto with rp|by gets| |].
  - gets. by destruct (too_long_action b).
  - rewrite get_slot_same; [done|by auto with rp|done|]. left. gets. by apply blank_get.
Qed.

(** Selects the branch of the type in [FieldConfig_from_json]. *)
Ltac of_type type :=
  rewrite (from_json_type _ _ type) by first [done | by eauto with rp | by gets];
  repeat (rewrite decide_False by done); rewrite decide_True by done.

(** The JSON form of the configuration of a field is read back as the same configuration,
    for every kind of field, as long as the maximum length is one the reader accepts. *)
Lemma field_config_roundtrip f dt v :
  field_ok w 240 dt f → blank v →
  ∃ j, FieldConfig_to_json f v = Ok j ∧ FieldConfig_from_json w j dt = Ok f.
Proof.
  intros Hf Hv. destruct f as [prefix slot|b store prefix|b prefix store wdfinc lower|prefix slot store proc|slot store|slot store
    |slot store|b prefix slot name store|slot store|store|]; cbn [field_ok] in Hf.
  - destruct Hf as [(g & -> & Hg) [Hs1 Hs2]]. eexists. split; [reflexivity|]. rewrite chop_tab. unfold set_member.
    of_type "meta". unfold MetaFieldConfig_new, json_check_object. rewrite isObject_slot by auto with rp. cbn [mbind res_bind].
    rewrite (read_prefix _ g) by first [done | by gets; rewrite clean_jstr by apply Hg]. cbn [mbind res_bind].
    rewrite (read_slot w _ slot); [done|done|]. rewrite get_slot_same; [done|by auto with rp|done|].
    left. gets. by apply blank_get.
  - destruct Hf as (Hb & Hc & ->). destruct (base_written b v Hv Hb) as (j & Hj & Ho & H1 & H2 & H3).
    unfold_to_json. rewrite Hj. cbn [mbind res_bind]. eexists. split; [reflexivity|]. unfold set_member.
    of_type "id". unfold IDFieldConfig_new, json_store_field.
    rewrite (base_read b) by first [done | by auto with rp | by gets]. cbn [mbind res_bind].
    by rewrite (read_string _ "store_field" _ store) by (gets; by rewrite clean_jstr).
  - destruct Hf as (Hb & (g & -> & Hg) & Hc & Hn). destruct (base_written b v Hv Hb) as (j & Hj & Ho & H1 & H2 & H3).
    unfold_to_json. rewrite Hj. cbn [mbind res_bind]. eexists. split; [reflexivity|]. unfold set_member.
    rewrite chop_tab. of_type "exact". unfold ExactFieldConfig_new, json_store_field.
    rewrite (base_read b) by first [done | by auto with rp | by gets]. cbn [mbind res_bind].
    rewrite (read_prefix _ g) by first [done | by gets; rewrite clean_jstr by apply Hg]. cbn [mbind res_bind].
    rewrite (read_string _ "store_field" _ store) by (gets; by rewrite clean_jstr). cbn [mbind res_bind].
    rewrite (read_uint _ _ _ _ wdfinc) by first [by gets | unfold maxUInt64; lia]. cbn [mbind res_bind].
    rewrite (read_bool _ _ _ lower) by (by gets). cbn [mbind res_bind].
    unfold wrap32. by rewrite N.mod_small.
  - destruct Hf as ((g & -> & Hg) & [Hs1 Hs2] & Hc & Hp). eexists. split; [reflexivity|]. rewrite chop_tab. unfold set_member.
    of_type "text". unfold TextFieldConfig_new, json_check_object, json_store_field. rewrite isObject_slot by auto with rp.
    cbn [mbind res_bind].
    rewrite (read_prefix _ g) by first [done | by gets; rewrite clean_jstr by apply Hg]. cbn [mbind res_bind].
    rewrite (read_string _ "store_field" _ store) by (gets; by rewrite clean_jstr). cbn [mbind res_bind].
    rewrite (read_string _ "processor" _ proc) by (gets; by rewrite clean_jstr). cbn [mbind res_bind].
    rewrite (read_slot w _ slot); [done|done|]. rewrite get_slot_same; [done|by auto with rp|done|].
    left. gets. by apply blank_get.
  - destruct Hf as [Hs Hc]. eexists. split; [reflexivity|].
    destruct (slot_field_roundtrip DoubleFieldConfig "double" v slot store) as (Ho & Ht & H); [done..|].
    by of_type "double".
  - destruct Hf as [Hs Hc]. eexists. split; [reflexivity|].
    destruct (slot_field_roundtrip TimestampFieldConfig "timestamp" v slot store) as (Ho & Ht & H); [done..|].
    by of_type "timestamp".
  - destruct Hf as [Hs Hc]. eexists. split; [reflexivity|].
    destruct (slot_field_roundtrip DateFieldConfig "date" v slot store) as (Ho & Ht & H); [done..|].
    by of_type "date".
  - destruct Hf as (Hb & (g & -> & Hg) & -> & Hn & Hc). destruct (base_written b v Hv Hb) as (j & Hj & Ho & H1 & H2 & H3).
    unfold_to_json. rewrite Hj. cbn [mbind res_bind]. eexists. split; [reflexivity|]. unfold set_member.
    rewrite chop_tab. destruct Hb as [[Hs1 Hs2] Hm] eqn:E. clear E.
    assert (Hslot : json_get (SlotName_to_json (json_set (json_set (json_set (json_set j "type" (jstr "cat")) "group" (jstr g))
      "taxonomy" (jstr name)) "store_field" (jstr store)) "slot" (ml_slot b)) "slot" JNull = Ok (slot_json (ml_slot b))).
    { rewrite get_slot_same; [done|by auto with rp|done|]. right. by gets. }
    of_type "cat". unfold CategoryFieldConfig_new, json_store_field.
    rewrite (base_read b) by first [done | by eauto with rp | by gets]. cbn [mbind res_bind].
    rewrite (read_prefix _ g) by first [done | by gets; rewrite clean_jstr by apply Hg]. cbn [mbind res_bind].
    rewrite (read_name _ "taxonomy" name) by first [done | by gets; rewrite clean_jstr by apply Hn]. cbn [mbind res_bind].
    rewrite (read_string _ "store_field" _ store) by (gets; by rewrite clean_jstr). cbn [mbind res_bind].
    by rewrite (read_slot w _ (ml_slot b)).
  - destruct Hf as [Hs Hc]. eexists. split; [reflexivity|].
    destruct (slot_field_roundtrip LonLatFieldConfig "lonlat" v slot store) as (Ho & Ht & H); [done..|].
    by of_type "lonlat".
  - destruct Hf as [Hne Hc]. eexists. split; [reflexivity|]. unfold set_member. of_type "stored".
    unfold StoredFieldConfig_new, json_check_object, json_store_field. rewrite isObject_set. cbn [mbind res_bind].
    rewrite (read_string _ "store_field" _ store) by (gets; by rewrite clean_jstr). cbn [mbind res_bind]. by rewrite decide_False.
  - eexists. split; [reflexivity|]. unfold set_member. by of_type "ignore".
Qed.

End roundtrip.

(** ** Schemas *)

(** The text [ending] has no star, and the configuration is an object of the JSON reader. *)
Definition pattern_ok (p : FieldConfigPattern) : Prop :=
  clean (ending p) ∧ has_star (ending p) = false ∧ isObject (pattern_config p) = true ∧
  json_clean (pattern_config p) = true.

Section schemas.
Context (w : N).

(** The invariant of schemas: all configurations are well-formed, and a cached indexer is
    that of a well-formed configuration. *)
Record schema_ok (limit : N) (s : Schema) : Prop := {
  ok_fields : ∀ name f, fields s !! name = Some f → field_ok w limit (doc_type s) f;
  ok_indexers : ∀ name i, indexers s !! name = Some (Some i) →
    ∃ f, field_ok w limit (doc_type s) f ∧ FieldConfig_indexer f = Some i;
  ok_patterns : Forall pattern_ok (patterns s);
}.

Lemma string_startswith_star s : has_star s = false → string_startswith s "*" = false.
Proof.
  intros H. destruct s as [|c s]; [done|]. destruct (string_startswith (String c s) "*") eqn:E; [|done].
  apply string_startswith_spec in E as [r E]. injection E as -> ->. done.
Qed.

(** A pattern read from its JSON form. *)
Lemma pattern_roundtrip p p0 :
  pattern_ok p → FieldConfigPattern_from_json (FieldConfigPattern_to_json p) p0 = (p, Ok ()).
Proof.
  intros (Hc & Hs & Ho & _). destruct p as [wild e cfg]. cbn [ending pattern_config] in *. unfold FieldConfigPattern_to_json. cbn [leading_wildcard ending pattern_config].
  rewrite clean_jstr by (destruct wild; [by apply clean_app|done]).
  unfold FieldConfigPattern_from_json, json_check_object. cbn -[string_startswith has_star str_drop]. rewrite Ho.
  unfold mbind, M_bind, liftM, modifyM. destruct wild; cbn -[string_startswith has_star str_drop String.app].
  - replace (string_startswith ("*" +:+ e) "*") with true by (symmetry; apply string_startswith_spec; eauto).
    change (str_drop 1 ("*" +:+ e)) with (str_drop (String.length "*") ("*" +:+ e)). by rewrite str_drop_app, Hs.
  - rewrite string_startswith_star by done. rewrite Hs. done.
Qed.

Lemma patterns_roundtrip l l0 :
  Forall pattern_ok l → FieldConfigPatterns_from_json (FieldConfigPatterns_to_json l) l0 = (l, Ok ()).
Proof.
  intros Hl. unfold FieldConfigPatterns_from_json, FieldConfigPatterns_to_json, json_check_array.
  cbn [isArray json_elems]. unfold mbind at 1, M_bind at 1, putM. unfold mbind at 1, M_bind at 1, liftM.
  assert (H : ∀ pre, for_each (FieldConfigPattern_to_json <$> l) (λ i patterns,
      let '(p, r) := FieldConfigPattern_from_json i new_FieldConfigPattern in (patterns ++ [p], r)) pre = (pre ++ l, Ok ()));
    [|apply H].
  induction Hl as [|p l Hp Hl IH]; intros pre; cbn [fmap list_fmap for_each]; [by rewrite app_nil_r|].
  unfold mbind, M_bind. rewrite pattern_roundtrip by done. by rewrite IH, <-app_assoc.
Qed.

(** The JSON form of a field (an object is always written). *)
Definition field_json (f : FieldConfig) : json :=
  match FieldConfig_to_json f (JObj []) with Ok j => j | _ => JNull end.

Lemma field_json_ok dt f : field_ok w 240 dt f →
  FieldConfig_to_json f (JObj []) = Ok (field_json f) ∧ FieldConfig_from_json w (field_json f) dt = Ok f.
Proof.
  intros Hf. destruct (field_config_roundtrip w f dt (JObj []) Hf ltac:(by right)) as (j & H1 & H2).
  unfold field_json. by rewrite H1.
Qed.

Lemma fields_to_json_eq dt m :
  (∀ name f, m !! name = Some f → field_ok w 240 dt f ∧ clean name) →
  fields_to_json m = Ok (JObj (prod_map id field_json <$> sorted_items m)).
Proof.
  intros Hm. unfold fields_to_json.
  assert (H : ∀ l v, (∀ name f, (name, f) ∈ l → field_ok w 240 dt f) →
    foldl (λ subval '(name, f), subval ← subval; item ← FieldConfig_to_json f (JObj []); Ok (json_set subval name item)) (Ok v) l
    = Ok (foldl (λ v '(name, f), json_set v name (field_json f)) v l)).
  { induction l as [|[name f] l IH]; intros v Hl; cbn; [done|].
    destruct (field_json_ok dt f) as [E _]; [by apply (Hl name); left|]. rewrite E. cbn. apply IH. set_solver. }
  rewrite H by (intros name f Hf%elem_of_sorted_items; by eapply Hm).
  rewrite (json_set_members field_json); [done| |]; rewrite sorted_items_fst; [|apply sorted_keys_strict].
  apply Forall_forall. intros n [f Hf]%elem_of_sorted_keys. by eapply Hm.
Qed.

(** Reading the fields one by one. *)
Lemma fields_from_json l s :
  (∀ name f, (name, f) ∈ l → field_ok w 240 (doc_type s) f) →
  for_each (prod_map id field_json <$> l) (λ '(name, i),
    s ← getM; f ← liftM (FieldConfig_from_json w i (doc_type s)); modifyM (Schema_set name (Some f))) s
  = (set_fields (foldl (λ m '(k, v), <[k := v]> m) (fields s) l) s, Ok ()).
Proof.
  revert s. induction l as [|[name f] l IH]; intros s Hl; cbn [fmap list_fmap for_each foldl]; [by destruct s|].
  destruct (field_json_ok (doc_type s) f) as [_ E]; [by apply (Hl name); left|].
  rewrite (bind_ok _ _ _ (Schema_set name (Some f) s) ()).
  - rewrite IH by (cbn; set_solver). by destruct s.
  - cbn [prod_map fst snd id]. unfold mbind, M_bind, getM, liftM. by rewrite E.
Qed.

(** ** Every operation keeps schemas well-formed *)

Abbreviation ok := (schema_ok maxUInt32).

Lemma subst_config_clean prefix v : json_clean v = true → json_clean (subst_config prefix v) = true.
Proof.
  intros Hv. unfold subst_config.
  assert (H : ∀ m v0, forallb (λ '(k, x), json_clean x) m = true → json_clean v0 = true →
    json_clean (foldl (λ newconfig '(name, v), json_set newconfig name (subst_item prefix v)) v0 m) = true).
  { induction m as [|[k x] m IH]; intros v0; cbn; [done|]. intros [Hx Hm]%andb_true_iff H0. apply IH; [done|].
    apply json_clean_set; [done|]. destruct x; try done. unfold subst_item. case_match; [apply json_clean_jstr|done]. }
  apply H; [|done]. by destruct v.
Qed.

Lemma pattern_test_ok p name dt f :
  pattern_ok p → FieldConfigPattern_test w p name dt = Ok (Some f) → field_ok w maxUInt32 dt f.
Proof.
  intros (_ & _ & _ & Hc) H. unfold FieldConfigPattern_test in H.
  destruct (leading_wildcard p); [destruct (string_endswith name (ending p)); [|done]|case_decide; [|done]].
  - destruct (FieldConfig_from_json _ _ _) eqn:E in H; simplify_eq/=. by eapply from_json_ok, E; apply subst_config_clean.
  - destruct (FieldConfig_from_json _ _ _) eqn:E in H; simplify_eq/=. by eapply from_json_ok.
Qed.

Lemma patterns_get_ok l name dt f :
  Forall pattern_ok l → FieldConfigPatterns_get w l name dt = Ok (Some f) → field_ok w maxUInt32 dt f.
Proof.
  induction 1 as [|p l Hp Hl IH]; cbn; [done|]. destruct (FieldConfigPattern_test w p name dt) as [[g|]|e|] eqn:E; [|done..].
  cbn. intros [= <-]. by eapply pattern_test_ok.
Qed.

Lemma new_Schema_ok limit dt : schema_ok limit (new_Schema dt).
Proof. by split; cbn; [intros ??; rewrite lookup_empty..|]. Qed.

Lemma Schema_set_ok limit name f s :
  schema_ok limit s → (∀ g, f = Some g → field_ok w limit (doc_type s) g) → schema_ok limit (Schema_set name f s).
Proof.
  intros [H1 H2 H3] Hf. destruct f as [f|]; split; cbn; try done; intros n g.
  - intros [[<- <-]|[_ ?]]%lookup_insert_Some; eauto.
  - intros [_ ?]%lookup_delete_Some. eauto.
Qed.

(** The invariant as a property of a schema of a given type. *)
Definition ok_for (limit : N) (dt : string) (s : Schema) : Prop := schema_ok limit s ∧ doc_type s = dt.

Lemma pattern_from_json_ok v p :
  json_clean v = true → (FieldConfigPattern_from_json v p).2 = Ok () → pattern_ok (FieldConfigPattern_from_json v p).1.
Proof.
  intros Hv. unfold FieldConfigPattern_from_json. destruct v as [| | | | | |[|x [|c [|]]]|]; try done.
  cbn in Hv. apply andb_true_iff in Hv as [Hx Hc]. rewrite andb_true_r in Hc.
  destruct x as [| | | |s| | |]; try done. cbn in Hx. apply bool_decide_eq_true in Hx.
  unfold json_check_object. unfold mbind, M_bind, liftM, modifyM, throwM, putM. cbn -[string_startswith str_drop has_star].
  destruct (isObject c) eqn:Ho; [|done]. cbn -[string_startswith str_drop has_star].
  destruct (string_startswith s "*") eqn:Hst; destruct (has_star _) eqn:Hs; cbn -[str_drop has_star]; try done; intros _.
  split_and!; cbn -[str_drop has_star]; [|done..]. apply string_startswith_spec in Hst as [r ->].
    change (str_drop 1 ("*" +:+ r)) with (str_drop (String.length "*") ("*" +:+ r)). rewrite str_drop_app.
    unfold clean in *. cbn in Hx. by injection Hx.
Qed.

Lemma patterns_from_json_ok v l :
  json_clean v = true → (FieldConfigPatterns_from_json v l).2 = Ok () →
  Forall pattern_ok (FieldConfigPatterns_from_json v l).1.
Proof.
  intros Hv. unfold FieldConfigPatterns_from_json, json_check_array. unfold mbind at 1 2, M_bind at 1 2, putM, liftM.
  destruct (isArray v) eqn:Ha; [|done]. cbn [fst snd].
  assert (H : ∀ k pre, forallb json_clean k = true → Forall pattern_ok pre →
    (for_each k (λ i patterns, let '(p, r) := FieldConfigPattern_from_json i new_FieldConfigPattern in (patterns ++ [p], r)) pre).2 = Ok () →
    Forall pattern_ok (for_each k (λ i patterns, let '(p, r) := FieldConfigPattern_from_json i new_FieldConfigPattern in (patterns ++ [p], r)) pre).1).
  { induction k as [|x k IH]; intros pre Hk Hpre; cbn [for_each]; [done|]. apply andb_true_iff in Hk as [Hx Hk].
    unfold mbind, M_bind. pose proof (pattern_from_json_ok x new_FieldConfigPattern Hx) as Hp.
    destruct (FieldConfigPattern_from_json x new_FieldConfigPattern) as [p [[]|e|]]; cbn [fst snd] in *; [|done..].
    apply IH; [done|]. apply Forall_app. split; [done|]. apply Forall_singleton. auto. }
  apply H; [|done]. by destruct v.
Qed.

Lemma Schema_from_json_ok v s s' dt :
  json_clean v = true → ok_for maxUInt32 dt s → Schema_from_json w v s = (s', Ok ()) → ok_for maxUInt32 dt s'.
Proof.
  intros Hv [Hs Hdt] H. unfold Schema_from_json in H.
  apply M_bind_inv in H as (? & ? & [= <- _] & H). apply M_bind_inv in H as (? & ? & [= <- _] & H).
  apply M_bind_inv in H as (? & fv & [= <- Ef] & H). apply M_bind_inv in H as (s1 & [] & Hl & H).
  apply M_bind_inv in H as (? & pv & [= <- Ep] & H).
  pose proof (json_clean_get _ _ JNull _ Hv eq_refl Ef) as Hfv. pose proof (json_clean_get _ _ JNull _ Hv eq_refl Ep) as Hpv.
  assert (Hs1 : ok_for maxUInt32 dt s1).
  { assert (H0 : ok_for maxUInt32 dt (Schema_clear s)).
    { split; [|done]. split; cbn; [intros ??; by rewrite lookup_empty..|apply Hs]. }
    match type of Hl with ?m _ = _ => apply (maintains_run _ m (λ _, True)) in H0 end; [by rewrite Hl in H0|].
    destruct (isNull fv); [by apply maintains_ret|].
    eapply maintains_bind; [by apply (maintains_lift _ _ (λ _, True))|]. intros _ _. apply maintains_for_each. intros [name i] Hi.
    eapply maintains_bind; [apply maintains_get|]. intros s2 [_ <-].
    eapply maintains_bind; [apply (maintains_lift _ _ (field_ok w maxUInt32 (doc_type s2)))|].
    - intros f. apply from_json_ok. destruct fv as [| | | | | | |m]; try by apply elem_of_nil in Hi. cbn in Hi, Hfv.
      rewrite forallb_forall in Hfv. apply (Hfv (name, i)). by apply list_elem_of_In.
    - intros f Hf. apply maintains_modify; [|done]. intros s3 [? ?]. split; [|by destruct s3]. apply Schema_set_ok; [done|].
      intros g [= <-]. congruence. }
  destruct Hs1 as [Hs1 Hdt1]. unfold on_patterns in H.
  pose proof (patterns_from_json_ok pv (patterns s1) Hpv) as Hp.
  destruct (FieldConfigPatterns_from_json pv (patterns s1)) as [l r]. injection H as <- ->.
  split; [|done]. split; cbn; [apply Hs1|apply Hs1|auto].
Qed.

Lemma slot_to_json_clean v k s : json_clean v = true → json_clean (SlotName_to_json v k s) = true.
Proof. intros Hv. unfold SlotName_to_json. repeat case_match; auto using json_clean_set, json_clean_jstr. Qed.

Lemma to_json_clean f v j : json_clean v = true → FieldConfig_to_json f v = Ok j → json_clean j = true.
Proof.
  intros Hv.
  assert (Hb : ∀ b j, MaxLenFieldConfig_to_json b v = Ok j → json_clean j = true).
  { intros b j' Hj. unfold MaxLenFieldConfig_to_json in Hj. apply res_bind_ok in Hj as (? & _ & [= <-]).
    auto using slot_to_json_clean, json_clean_set, json_clean_jstr. }
  unfold_to_json; destruct f; intros H; try (apply res_bind_ok in H as (? & ?%Hb & H)); injection H as <-;
    unfold set_member; auto 10 using slot_to_json_clean, json_clean_set, json_clean_jstr.
Qed.

Lemma merge_from_ok json_serialise other dt :
  Forall pattern_ok (patterns other) →
  maintains (ok_for maxUInt32 dt) (Schema_merge_from w json_serialise other) (λ _, True).
Proof.
  intros Hp. unfold Schema_merge_from. eapply maintains_bind.
  - apply maintains_for_each. intros [name f] _. unfold merge_field.
    eapply maintains_bind; [apply maintains_get|]. intros s [_ <-].
    eapply maintains_bind; [apply (maintains_lift _ _ (λ j, json_clean j = true)); intros j; by apply to_json_clean|]. intros tmp Htmp.
    destruct (fields s !! name) as [f'|].
    + eapply maintains_bind; [by apply (maintains_lift _ _ (λ _, True))|]. intros tmp2 _.
      case_decide; [by apply maintains_ret|apply maintains_throw].
    + eapply maintains_bind; [apply (maintains_lift _ _ (field_ok w maxUInt32 (doc_type s))); intros g; by apply from_json_ok|].
      intros g Hg. apply maintains_modify; [|done]. intros s3 [? ?]. split; [|by destruct s3]. apply Schema_set_ok; [done|].
      intros ? [= <-]. congruence.
  - intros _ _ s [Hs Hdt]. cbn. split; [|done]. split; [|done]. split; cbn; [apply Hs|apply Hs|].
    unfold FieldConfigPatterns_merge_from. destruct (patterns other); [apply Hs|done].
Qed.

(** Looking up an indexer keeps the schema well-formed, and the indexer is that of a
    well-formed configuration. *)
Definition indexer_ok (dt : string) (i : FieldIndexer) : Prop :=
  ∃ f, field_ok w maxUInt32 dt f ∧ FieldConfig_indexer f = Some i.

Lemma get_indexer_ok name dt :
  maintains (ok_for maxUInt32 dt) (Schema_get_indexer name) (λ i, ∀ i', i = Some i' → indexer_ok dt i').
Proof.
  intros s [Hs <-]. unfold Schema_get_indexer. destruct (indexers s !! name) as [i|] eqn:Ei; cbn.
  - split; [done|]. intros ? [= <-] i' ->. by eapply (ok_indexers _ _ Hs).
  - destruct (fields s !! name) as [f|] eqn:Ef; cbn; [|split; [done|]; by intros ? [= <-]].
    pose proof (ok_fields _ _ Hs _ _ Ef) as Hf. split.
    + split; [|done]. split; cbn; [apply Hs| |apply Hs]. intros n i [[<- <-]|[_ ?]]%lookup_insert_Some; [eauto|].
      by eapply (ok_indexers _ _ Hs).
    + intros ? [= <-] i' Hi. by exists f.
Qed.

End schemas.

Lemma schema_json_roundtrip_ok w s s0 (Hs : schema_ok w 240 s) (Hn : ∀ name, is_Some (fields s !! name) → clean name)
    (Hdt : doc_type s0 = doc_type s) :
  ∃ j, Schema_to_json s = Ok j ∧
    Schema_from_json w j s0 = (mkSchema (doc_type s) (fields s) ∅ (patterns s), Ok ()).
Proof.
  unfold Schema_to_json. rewrite (fields_to_json_eq w (doc_type s)) by (split; [by eapply (ok_fields w 240)|eauto]).
  set (fs := prod_map id field_json <$> sorted_items (fields s)).
  assert (Hj : ∃ v, (if decide (fields s = ∅) then Ok (JObj []) else subval ← Ok (JObj fs); Ok (json_set (JObj []) "fields" subval)) = Ok v
    ∧ isObject v = true ∧ json_get v "fields" JNull = Ok (if decide (fields s = ∅) then JNull else JObj fs)).
  { case_decide; eexists; (split; [reflexivity|done]). }
  destruct Hj as (v & -> & Hv & Hf). cbn [mbind res_bind]. eexists. split; [reflexivity|].
  set (j := json_set v "patterns" _). assert (Hj : isObject j = true) by apply isObject_set.
  unfold Schema_from_json, json_check_object. rewrite Hj.
  rewrite (bind_ok _ _ _ (Schema_clear s0) ()), (bind_ok _ _ _ (Schema_clear s0) ()) by done.
  rewrite (bind_ok _ _ _ (Schema_clear s0) (if decide (fields s = ∅) then JNull else JObj fs))
    by (unfold liftM; f_equal; unfold j; by gets).
  rewrite (bind_ok _ _ _ (set_fields (fields s) (Schema_clear s0)) ()).
  - rewrite (bind_ok _ _ _ (set_fields (fields s) (Schema_clear s0)) (FieldConfigPatterns_to_json (patterns s)))
      by (unfold liftM; f_equal; unfold j; by gets).
    unfold on_patterns. rewrite patterns_roundtrip by apply Hs. cbn. by rewrite Hdt.
  - case_decide as Hemp; [rewrite Hemp; done|]. cbn [isNull isObject]. rewrite (bind_ok _ _ _ (Schema_clear s0) ()) by done.
    cbn [json_members]. unfold fs. rewrite fields_from_json.
    + unfold Schema_clear at 1 2. cbn [fields]. by rewrite foldl_insert_sorted_items.
    + cbn. rewrite Hdt. intros name f Hf'%elem_of_sorted_items. by eapply (ok_fields w 240).
Qed.

(** The JSON form of a schema -- its fields and its patterns -- is read back as the same
    schema (with an empty cache of indexers), whatever the reading schema held before.
    The maximum lengths must be those the reader accepts. *)
Theorem schema_json_roundtrip w s s0 (Hs : schema_ok w 240 s) (Hn : ∀ name, is_Some (fields s !! name) → clean name)
    (Hdt : doc_type s0 = doc_type s) :
  ∃ j, Schema_to_json s = Ok j ∧
    Schema_from_json w j s0 = (mkSchema (doc_type s) (fields s) ∅ (patterns s), Ok ()).
Proof. by apply schema_json_roundtrip_ok. Qed.

(** A schema with a field of each common sort and a pattern. *)
Definition blog_schema : Schema :=
  mkSchema "blog"
    (<["id" := IDFieldConfig (mkMaxLen SlotName_default 64 TOOLONG_ERROR) "id" (id_prefix "blog")]>
     (<["title" := TextFieldConfig ("t" +:+ tab) (SlotName_of_string 64 "title") "title" "stem_en"]>
      (<["tag" := ExactFieldConfig (mkMaxLen (SlotName_of_num 7) 30 TOOLONG_HASH) ("g" +:+ tab) "tag" 1 true]>
       (<["extra" := IgnoredFieldConfig]> ∅))))
    ∅ [mkPattern true "_num" (JObj [("slot", JStr "*_num"); ("type", JStr "double")])].

Lemma blog_schema_ok : schema_ok 64 240 blog_schema ∧ ∀ name, is_Some (fields blog_schema !! name) → clean name.
Proof.
  assert (Hp : ∀ g, name_ok g → prefix_ok (g +:+ tab)) by by eexists.
  assert (Hf : map_Forall (λ name f, clean name ∧ field_ok 64 240 "blog" f) (fields blog_schema)).
  { repeat apply map_Forall_insert_2; [..|by apply map_Forall_empty]; (split; [done|]); cbn; split_and?; try apply Hp; done. }
  split; [split|].
  - intros name f Hl. apply (Hf _ _ Hl).
  - done.
  - by repeat constructor.
  - intros name [f Hl]. apply (Hf _ _ Hl).
Qed.

Lemma schema_json_roundtrip_witness : schema_ok 64 240 blog_schema ∧
  ∃ j, Schema_to_json blog_schema = Ok j ∧
    Schema_from_json 64 j (new_Schema "blog") = (mkSchema "blog" (fields blog_schema) ∅ (patterns blog_schema), Ok ()).
Proof.
  destruct blog_schema_ok as [Hs Hn].
  exact (conj Hs (schema_json_roundtrip 64 blog_schema (new_Schema "blog") Hs Hn eq_refl)).
Defined.
