(* ===== verification/CollConfig.v ===== *)
(** * Collection configurations

    src/jsonxapian/collconfig.h and collconfig.cc: the types of document with their
    schemas, the names of the special fields, the configuration of new types, pipes,
    categorisers and taxonomies, with their JSON forms.  [process_doc] and
    [send_to_pipe] are in [ProcessDoc] and [SendToPipe]. *)

From S2P Require Import Prelude Json TextUtils JsonPath Mapping Pipe NGram Taxonomy Hashing DocValues Schema.

(** ** Configurations *)

Abbreviation taxonomy := (gmap string Category).

(** The entry of a type may be a null pointer. *)
Record CollectionConfig := mkConfig {
  coll_name : string;
  types : gmap string (option Schema);
  pipes : gmap string Pipe;
  categorisers : gmap string Categoriser;
  id_field : string;
  type_field : string;
  meta_field : string;
  default_type_config : json;
  taxonomies : gmap string taxonomy;
  changed : bool;
}.

(** The constructor: [validate_collname] has accepted the name. *)
Definition new_CollectionConfig (name : string) : res CollectionConfig :=
  validate_collname_throw name ;;
  Ok (mkConfig name ∅ ∅ ∅ "" "" "" JNull ∅ false).

Definition set_taxonomies (m : gmap string taxonomy) (ch : bool) (c : CollectionConfig) : CollectionConfig :=
  mkConfig (coll_name c) (types c) (pipes c) (categorisers c) (id_field c) (type_field c) (meta_field c) (default_type_config c) m ch.
Definition set_types (m : gmap string (option Schema)) (ch : bool) (c : CollectionConfig) : CollectionConfig :=
  mkConfig (coll_name c) m (pipes c) (categorisers c) (id_field c) (type_field c) (meta_field c) (default_type_config c) (taxonomies c) ch.
Definition set_pipes (m : gmap string Pipe) (ch : bool) (c : CollectionConfig) : CollectionConfig :=
  mkConfig (coll_name c) (types c) m (categorisers c) (id_field c) (type_field c) (meta_field c) (default_type_config c) (taxonomies c) ch.
Definition set_categorisers (m : gmap string Categoriser) (ch : bool) (c : CollectionConfig) : CollectionConfig :=
  mkConfig (coll_name c) (types c) (pipes c) m (id_field c) (type_field c) (meta_field c) (default_type_config c) (taxonomies c) ch.
Definition set_special (id type meta : string) (c : CollectionConfig) : CollectionConfig :=
  mkConfig (coll_name c) (types c) (pipes c) (categorisers c) id type meta (default_type_config c) (taxonomies c) (changed c).
Definition set_default_type (v : json) (c : CollectionConfig) : CollectionConfig :=
  mkConfig (coll_name c) (types c) (pipes c) (categorisers c) (id_field c) (type_field c) (meta_field c) v (taxonomies c) (changed c).

(** ** Taxonomies *)

Definition get_taxonomy_groups (taxonomy_name : string) (c : CollectionConfig) : gset string :=
  foldl (λ result '(_, s),
    match s with None => result | Some s => Schema_get_taxonomy_groups taxonomy_name s result end)
    ∅ (sorted_items (types c)).

Definition get_taxonomy (taxonomy_name : string) (c : CollectionConfig) : option taxonomy :=
  taxonomies c !! taxonomy_name.

Definition set_taxonomy (taxonomy_name : string) (t : taxonomy) (c : CollectionConfig) : CollectionConfig :=
  set_taxonomies (<[taxonomy_name := t]> (taxonomies c)) true c.

Definition remove_taxonomy_config (taxonomy_name : string) (c : CollectionConfig) : CollectionConfig :=
  match taxonomies c !! taxonomy_name with
  | None => c
  | Some _ => set_taxonomies (delete taxonomy_name (taxonomies c)) true c
  end.

Definition get_taxonomy_names (c : CollectionConfig) : json :=
  foldl (λ result '(name, _), json_append result (jstr name)) (JArr []) (sorted_items (taxonomies c)).

Definition get_or_add_taxonomy (taxonomy_name : string) : M CollectionConfig taxonomy := λ c,
  match taxonomies c !! taxonomy_name with
  | None => (set_taxonomies (<[taxonomy_name := ∅]> (taxonomies c)) true c, Ok ∅)
  | Some t => (c, Ok t)
  end.

(** An operation on the taxonomy of a name, created if there is none: the taxonomy after
    it and the categories it reports as modified. *)
Definition change_taxonomy (taxonomy_name : string) (op : M tstate ()) : M CollectionConfig (taxonomy * Categories) :=
  t ← get_or_add_taxonomy taxonomy_name;
  let '(t', r) := op (mkT t ∅) in
  modifyM (λ c, set_taxonomies (<[taxonomy_name := cats t']> (taxonomies c)) (changed c) c) ;;
  liftM r ;;
  modifyM (λ c, set_taxonomies (taxonomies c) true c) ;;
  mret (cats t', modified t').

Definition category_add (taxonomy_name cat_name : string) :=
  change_taxonomy taxonomy_name (Taxonomy_add cat_name).
Definition category_remove (taxonomy_name cat_name : string) :=
  change_taxonomy taxonomy_name (Taxonomy_remove cat_name).
Definition category_add_parent (taxonomy_name child_name parent_name : string) :=
  change_taxonomy taxonomy_name (Taxonomy_add_parent child_name parent_name).
Definition category_remove_parent (taxonomy_name child_name parent_name : string) :=
  change_taxonomy taxonomy_name (Taxonomy_remove_parent child_name parent_name).

Definition categories_config_to_json (c : CollectionConfig) (value : json) : json :=
  json_set value "taxonomies"
    (foldl (λ categories_obj '(name, t), json_set categories_obj name (Taxonomy_to_json t))
      (JObj []) (sorted_items (taxonomies c))).

Definition categories_config_from_json (value : json) : M CollectionConfig () :=
  categories_obj ← liftM (json_index value "taxonomies");
  if isNull categories_obj then mret ()
  else
    liftM (json_check_object categories_obj "taxonomies definition") ;;
    for_each (json_members categories_obj) (λ '(name, i),
      let '(t, r) := Taxonomy_from_json i (mkT ∅ ∅) in
      liftM r ;;
      modifyM (set_taxonomy name (cats t))).

(** ** Schemas *)

Definition CONFIG_FORMAT : N := 3.
Definition CONFIG_FORMAT_OLDEST : N := 3.

Definition check_format_number (format : N) : res () :=
  if (format <? CONFIG_FORMAT_OLDEST)%N
  then throw (InvalidValueError ("Configuration supplied is in too old a format: in format " +:+ str_unsigned format
         +:+ " but the oldest supported is " +:+ str_unsigned CONFIG_FORMAT_OLDEST))
  else if (CONFIG_FORMAT <? format)%N
  then throw (InvalidValueError ("Configuration supplied is in too new a format: in format " +:+ str_unsigned format
         +:+ " but the newest supported is " +:+ str_unsigned CONFIG_FORMAT))
  else Ok ().

Definition get_schema (type : string) (c : CollectionConfig) : option Schema := mjoin (types c !! type).

Definition CollectionConfig_clear (c : CollectionConfig) : CollectionConfig :=
  let c := set_types ∅ (changed c) c in
  let c := set_pipes ∅ (changed c) c in
  let c := set_categorisers ∅ (changed c) c in
  set_taxonomies ∅ (changed c) c.

(** The document the literal of [set_default_schema] holds. *)
Definition text_pattern (pattern group store_field : string) : json :=
  JArr [JStr pattern; JObj [("group", JStr group); ("processor", JStr "stem_en");
                            ("store_field", JStr store_field); ("type", JStr "text")]].
Definition slot_pattern (type pattern slot store_field : string) : json :=
  JArr [JStr pattern; JObj [("slot", JStr slot); ("store_field", JStr store_field); ("type", JStr type)]].
Definition exact_pattern (pattern group store_field : string) : json :=
  JArr [JStr pattern; JObj [("group", JStr group); ("max_length", JInt 100); ("slot", JStr group);
                            ("store_field", JStr store_field); ("too_long_action", JStr "hash");
                            ("type", JStr "exact")]].
Definition cat_pattern (pattern group store_field : string) : json :=
  JArr [JStr pattern; JObj [("group", JStr group); ("max_length", JInt 32); ("slot", JStr group);
                            ("store_field", JStr store_field); ("taxonomy", JStr store_field);
                            ("too_long_action", JStr "hash"); ("type", JStr "cat")]].

Definition default_schema : json :=
  JObj [("fields", JObj []);
        ("patterns", JArr [
          text_pattern "*_text" "t*" "*_text"; text_pattern "text" "t" "text";
          slot_pattern "double" "*_num" "n*" "*_num"; slot_pattern "double" "num" "n" "num";
          slot_pattern "timestamp" "*_time" "d*" "*_time"; slot_pattern "timestamp" "time" "d" "time";
          exact_pattern "*_tag" "g*" "*_tag"; exact_pattern "tag" "g" "tag";
          exact_pattern "*_url" "u*" "*_url"; exact_pattern "url" "u" "url";
          cat_pattern "*_cat" "c*" "*_cat"; cat_pattern "cat" "c" "cat";
          slot_pattern "lonlat" "*_lonlat" "l*" "*_lonlat"; slot_pattern "lonlat" "lonlat" "l" "lonlat";
          JArr [JStr "id"; JObj [("store_field", JStr "id"); ("type", JStr "id")]];
          JArr [JStr "type"; JObj [("group", JStr "!"); ("slot", JInt 1); ("store_field", JStr "type");
                                   ("type", JStr "exact")]];
          JArr [JStr "_meta"; JObj [("group", JStr "#"); ("slot", JInt 0); ("type", JStr "meta")]];
          JArr [JStr "*"; JObj [("group", JStr "t"); ("store_field", JStr "*"); ("type", JStr "text")]]])].

Section schemas.
Context (w : N) (json_serialise : json → string).

Definition set_default_schema : M CollectionConfig () :=
  modifyM (λ c, set_special "id" "type" "_meta" (set_types ∅ (changed c) c)) ;;
  let '(defschema, r) := Schema_from_json w default_schema (new_Schema "") in
  liftM r ;;
  value ← liftM (Schema_to_json defschema);
  modifyM (set_default_type value).

Definition set_default : M CollectionConfig () :=
  modifyM CollectionConfig_clear ;; set_default_schema.

(** [set_schema]: the schema is merged into that of the type, which is created if the
    type has no entry. *)
Definition set_schema (type : string) (schema : Schema) : M CollectionConfig Schema := λ c,
  match (match types c !! type with None => Some (new_Schema type) | Some s => s end) with
  | None => (c, throw UndefinedBehaviour)
  | Some s =>
      let '(s', r) := Schema_merge_from w json_serialise schema s in
      let m := <[type := Some s']> (types c) in
      match r with
      | Ok _ => (set_types m true c, Ok s')
      | Throw e => (set_types m (changed c) c, Throw e)
      | OutOfFuel => (set_types m (changed c) c, OutOfFuel)
      end
  end.

Definition schemas_config_to_json (c : CollectionConfig) (value : json) : res json :=
  types_obj ← foldl (λ types_obj '(name, s),
      types_obj ← types_obj;
      match s with
      | None => throw UndefinedBehaviour
      | Some s => type_obj ← Schema_to_json s; Ok (json_set types_obj name type_obj)
      end) (Ok (JObj [])) (sorted_items (types c));
  let value := json_set value "types" types_obj in
  let value := json_set value "default_type" (default_type_config c) in
  let special_obj := json_set (json_set (json_set JNull "id_field" (jstr (id_field c)))
    "type_field" (jstr (type_field c))) "meta_field" (jstr (meta_field c)) in
  Ok (json_set value "special_fields" special_obj).

(** The types of a configuration, each merged into the present ones. *)
Definition types_from_json (types_obj : json) : M CollectionConfig () :=
  liftM (json_check_object types_obj "types definition") ;;
  for_each (json_members types_obj) (λ '(name, i),
    let '(schema, r) := Schema_from_json w i (new_Schema name) in
    liftM r ;;
    set_schema name schema ;;
    mret ()).

Definition default_type_from_json (deftype_obj : json) : M CollectionConfig () :=
  liftM (Schema_from_json w deftype_obj (new_Schema "")).2 ;;
  modifyM (set_default_type deftype_obj).

(** The names are set one by one. *)
Definition special_fields_from_json (special_obj : json) : M CollectionConfig () :=
  liftM (json_check_object special_obj "special_fields definition") ;;
  c ← getM;
  id ← liftM (json_get_string_member special_obj "id_field" (id_field c));
  modifyM (λ c, set_special id (type_field c) (meta_field c) c) ;;
  type ← liftM (json_get_string_member special_obj "type_field" (type_field c));
  modifyM (λ c, set_special (id_field c) type (meta_field c) c) ;;
  meta ← liftM (json_get_string_member special_obj "meta_field" (meta_field c));
  modifyM (λ c, set_special (id_field c) (type_field c) meta c).

Definition schemas_config_from_json (value : json) : M CollectionConfig () :=
  types_obj ← liftM (json_index value "types");
  (if isNull types_obj then mret () else types_from_json types_obj) ;;
  deftype_obj ← liftM (json_index value "default_type");
  (if isNull deftype_obj then mret () else default_type_from_json deftype_obj) ;;
  special_obj ← liftM (json_index value "special_fields");
  (if isNull special_obj then mret () else special_fields_from_json special_obj).

End schemas.

(** ** Pipes and categorisers *)

Definition get_pipe (pipe_name : string) (c : CollectionConfig) : res Pipe :=
  match pipes c !! pipe_name with
  | None => throw (InvalidValueError "No pipe of requested name found")
  | Some p => Ok p
  end.

Definition set_pipe (pipe_name : string) (p : Pipe) (c : CollectionConfig) : CollectionConfig :=
  set_pipes (<[pipe_name := p]> (pipes c)) true c.

Definition get_categoriser (categoriser_name : string) (c : CollectionConfig) : res Categoriser :=
  match categorisers c !! categoriser_name with
  | None => throw (InvalidValueError "No categoriser of requested name found")
  | Some cat => Ok cat
  end.

Definition set_categoriser (categoriser_name : string) (cat : Categoriser) (c : CollectionConfig) : CollectionConfig :=
  set_categorisers (<[categoriser_name := cat]> (categorisers c)) true c.

(** An object with a member for each entry of a map. *)
Definition map_to_json {A} (f : A → res json) (m : gmap string A) : res json :=
  foldl (λ obj '(name, x), obj ← obj; v ← f x; Ok (json_set obj name v)) (Ok (JObj [])) (sorted_items m).

Definition pipes_config_to_json (c : CollectionConfig) (value : json) : res json :=
  pipes_obj ← map_to_json Pipe_to_json (pipes c); Ok (json_set value "pipes" pipes_obj).

Definition pipes_config_from_json (value : json) : M CollectionConfig () :=
  pipes_obj ← liftM (json_index value "pipes");
  if isNull pipes_obj then mret ()
  else
    liftM (json_check_object pipes_obj "pipes definition") ;;
    for_each (json_members pipes_obj) (λ '(name, i),
      let '(p, r) := Pipe_from_json i new_Pipe in
      liftM r ;; modifyM (set_pipe name p)).

Definition categorisers_config_to_json (c : CollectionConfig) (value : json) : res json :=
  categorisers_obj ← map_to_json Categoriser_to_json (categorisers c); Ok (json_set value "categorisers" categorisers_obj).

Definition categorisers_config_from_json (value : json) : M CollectionConfig () :=
  categorisers_obj ← liftM (json_index value "categorisers");
  if isNull categorisers_obj then mret ()
  else
    liftM (json_check_object categorisers_obj "categorisers definition") ;;
    for_each (json_members categorisers_obj) (λ '(name, i),
      let '(cat, r) := Categoriser_from_json i new_Categoriser in
      liftM r ;; modifyM (set_categoriser name cat)).

(** [categorise]: the labels of a text as an array. *)
Definition categorise `{!UnicodeLib} (c : CollectionConfig) (categoriser_name text : string) : res json :=
  cat ← get_categoriser categoriser_name c;
  result_vec ← categorise_text cat text;
  Ok (foldl (λ result i, json_append result (jstr i)) (JArr []) result_vec).

(** ** Whole configurations *)

Definition CollectionConfig_to_json (c : CollectionConfig) : res json :=
  value ← schemas_config_to_json c (JObj []);
  value ← (if decide (pipes c = ∅) then Ok value else pipes_config_to_json c value);
  value ← (if decide (categorisers c = ∅) then Ok value else categorisers_config_to_json c value);
  let value := if decide (taxonomies c = ∅) then value else categories_config_to_json c value in
  Ok (json_set value "format" (JUInt CONFIG_FORMAT)).

Section whole.
Context (w : N) (json_serialise : json → string).

Definition CollectionConfig_from_json (value : json) : M CollectionConfig () :=
  liftM (json_check_object value "collection configuration") ;;
  format ← liftM (json_get_uint64_member value "format" (Z.to_N maxInt));
  liftM (check_format_number (wrap32 format)) ;;
  modifyM CollectionConfig_clear ;;
  schemas_config_from_json w json_serialise value ;;
  pipes_config_from_json value ;;
  categorisers_config_from_json value ;;
  categories_config_from_json value.

(** [clone()], which goes through the JSON form. *)
Definition CollectionConfig_clone (c : CollectionConfig) : res CollectionConfig :=
  result ← new_CollectionConfig (coll_name c);
  tmp ← CollectionConfig_to_json c;
  match CollectionConfig_from_json tmp result with
  | (result, Ok _) => Ok result
  | (_, Throw e) => Throw e
  | (_, OutOfFuel) => OutOfFuel
  end.

End whole.
