(* ===== verification/Indexing.v ===== *)
(** * Indexing documents

    src/jsonxapian/indexing.h and indexing.cc: how each kind of field turns the values
    of a JSON document into terms, values in slots and stored data; and
    [Schema::process] (schema.cc) and [CollectionConfig::process_doc] (collconfig.cc),
    which build a Xapian document from a JSON document.

    What the code takes from libraries is the class [IndexLib]: the operations of a
    [Xapian::Document] (its values are [DocStore] of DocValues.v), Xapian's term
    generator and number formats, the tokenizer of Chinese, Japanese and Korean text,
    coordinates, [strtod] and the writers of the JSON library. *)

From Stdlib Require Import SpecFloat.
From S2P Require Import Prelude Json TextUtils Taxonomy DocData DocValues Hashing Schema CollConfig.

(** ** What is used of libraries *)

Class IndexLib (document : Type) := {
  (** [Document()], [add_term(t, wdfinc)], [add_posting(t, pos)], [set_data]. *)
  new_document : document;
  add_term_wdf : string → N → document → document;
  add_posting : string → N → document → document;
  set_data : string → document → document;
  (** [TermGenerator] with the stemmer of a language, on a text with weight 1 and a
      prefix; [Stem(lang)] refuses a language it does not know. *)
  known_language : string → bool;
  index_text : string → string → string → document → document;
  (** [cjk::tokenizer::tokenize]: tokens with their positions. *)
  tokenize : string → list (string * N);
  (** [Unicode::tolower], [sortable_serialise], and the serialised
      [LatLongCoord(latitude, longitude)], which refuses some latitudes. *)
  tolower : string → string;
  sortable_serialise : spec_float → string;
  serialise_coord : spec_float → spec_float → res string;
  (** [strtod]: the number and the text after it. *)
  strtod : string → spec_float * string;
  (** [json_serialise] and [toStyledString]. *)
  json_serialise : json → string;
  styled : json → string;
}.

(** ** The state of indexing *)

Record FieldPresence := mkPresence { nonempty : bool; empty : bool; has_errors : bool }.

Definition new_FieldPresence : FieldPresence := mkPresence false false false.

(** Pairs of a field and a message. *)
Record IndexingErrors := mkErrors { errors : list (string * string); total_failure : bool }.

Definition new_IndexingErrors : IndexingErrors := mkErrors [] false.

Definition IndexingErrors_append (fieldname error : string) (e : IndexingErrors) : IndexingErrors :=
  mkErrors (errors e ++ [(fieldname, error)]) (total_failure e).

(** [errors.append] followed by [total_failure = true]. *)
Definition fail_totally (fieldname error : string) (e : IndexingErrors) : IndexingErrors :=
  mkErrors (errors e ++ [(fieldname, error)]) true.

Record IndexingState {document : Type} := mkState {
  doc : document;
  docdata : DocumentData;
  docvals : DocumentValues;
  presence : gmap string FieldPresence;
  idterm : string;
  state_errors : IndexingErrors;
}.
Arguments IndexingState : clear implicits.

Section indexing.
Context {document : Type} `{!DocStore document} `{!IndexLib document}.
Context (w : N).

Abbreviation indexM := (M (IndexingState document)).

Implicit Type s : IndexingState document.

Definition new_IndexingState (e : IndexingErrors) : IndexingState document :=
  mkState _ new_document ∅ (mkDocumentValues ∅ ∅) ∅ "" e.

Definition upd_doc (f : document → document) s : IndexingState document :=
  mkState _ (f (doc s)) (docdata s) (docvals s) (presence s) (idterm s) (state_errors s).
Definition upd_docdata (f : DocumentData → DocumentData) s : IndexingState document :=
  mkState _ (doc s) (f (docdata s)) (docvals s) (presence s) (idterm s) (state_errors s).
Definition upd_docvals (f : DocumentValues → DocumentValues) s : IndexingState document :=
  mkState _ (doc s) (docdata s) (f (docvals s)) (presence s) (idterm s) (state_errors s).
Definition upd_presence (fieldname : string) (f : FieldPresence → FieldPresence) s : IndexingState document :=
  mkState _ (doc s) (docdata s) (docvals s)
    (<[fieldname := f (default new_FieldPresence (presence s !! fieldname))]> (presence s)) (idterm s) (state_errors s).
Definition upd_idterm (t : string) s : IndexingState document :=
  mkState _ (doc s) (docdata s) (docvals s) (presence s) t (state_errors s).
Definition upd_errors (f : IndexingErrors → IndexingErrors) s : IndexingState document :=
  mkState _ (doc s) (docdata s) (docvals s) (presence s) (idterm s) (f (state_errors s)).

Definition field_empty (fieldname : string) : indexM () :=
  modifyM (upd_presence fieldname (λ p, mkPresence (nonempty p) true (has_errors p))).
Definition field_nonempty (fieldname : string) : indexM () :=
  modifyM (upd_presence fieldname (λ p, mkPresence true (empty p) (has_errors p))).
Definition append_error (fieldname error : string) : indexM () :=
  modifyM (upd_presence fieldname (λ p, mkPresence (nonempty p) (empty p) true)) ;;
  modifyM (upd_errors (IndexingErrors_append fieldname error)).

Definition set_idterm (fieldname idterm_ : string) : indexM () :=
  s ← getM;
  if decide (idterm s = "") then modifyM (upd_idterm idterm_)
  else if decide (idterm_ = "") then mret ()
  else append_error fieldname "Multiple ID values provided - must have only one".

(** ** The indexers *)

(** The end of most indexers: the values are stored under the field, if it has one. *)
Definition store_values (store_field : string) (values : json) : indexM () :=
  if decide (store_field = "") then mret ()
  else modifyM (upd_docdata (DocumentData_set store_field (json_serialise values))).

Definition add_value_if (slot : N) (val : string) : indexM () :=
  if (slot =? BAD_VALUENO)%N then mret () else modifyM (upd_docvals (DocumentValues_add slot val)).

(** The treatment of a value longer than the maximum: none is left after an error. *)
Definition shorten (fieldname : string) (max_length : N) (action : TooLongAction) (val : string) : indexM (option string) :=
  if (max_length <? str_size val)%N then
    match action with
    | TOOLONG_ERROR =>
        append_error fieldname ("Field value of length " +:+ str_unsigned (str_size val)
          +:+ " exceeds maximum permissible length for this field of " +:+ str_unsigned max_length) ;;
        mret None
    | TOOLONG_HASH => val ← liftM (hash_long_term w val max_length); mret (Some val)
    | TOOLONG_TRUNCATE => mret (Some (str_take (N.to_nat max_length) val))
    end
  else mret (Some val).

Section with_config.
Context (collconfig : CollectionConfig).

(** *** Metadata *)

Definition add_entry (prefix : string) (slot : N) (entry : string) : indexM () :=
  modifyM (upd_doc (add_term_wdf (prefix +:+ entry) 0)) ;;
  if (1 <? str_size entry)%N && negb (slot =? BAD_VALUENO)%N
  then modifyM (upd_docvals (DocumentValues_add slot entry)) else mret ().

Definition add_entry_if (b : bool) (prefix : string) (slot : N) (entry : string) : indexM () :=
  if b then add_entry prefix slot entry else mret ().

Definition meta_field_entries (prefix : string) (slot : N) (fieldname : string) (p : FieldPresence) : indexM () :=
  add_entry prefix slot ("F" +:+ fieldname) ;;
  add_entry_if (nonempty p) prefix slot ("N" +:+ fieldname) ;;
  add_entry_if (empty p) prefix slot ("M" +:+ fieldname) ;;
  add_entry_if (has_errors p) prefix slot ("E" +:+ fieldname).

(** The fields [MetaIndexer::index] goes through. *)
Definition meta_fields (presence : gmap string FieldPresence) : list (string * FieldPresence) :=
  filter (λ '(name, _), name ≠ id_field collconfig ∧ name ≠ type_field collconfig) (sorted_items presence).

Definition MetaIndexer_index (prefix : string) (slot : N) : indexM () :=
  s ← getM;
  let fields := meta_fields (presence s) in
  for_each fields (λ '(name, p), meta_field_entries prefix slot name p) ;;
  add_entry_if (existsb (λ f, nonempty f.2) fields) prefix slot "N" ;;
  add_entry_if (existsb (λ f, empty f.2) fields) prefix slot "M" ;;
  add_entry_if (existsb (λ f, has_errors f.2) fields) prefix slot "E".

(** *** Exact values and identifiers *)

(** One value; the result tells whether the whole method returns. *)
Definition exact_value (prefix : string) (wdfinc max_length : N) (action : TooLongAction) (isid : bool)
    (slot : N) (lowercase : bool) (fieldname : string) (value : json) : indexM bool :=
  '(val, error) ← liftM (json_get_idstyle_value styled value);
  if negb (bool_decide (error = "")) then append_error fieldname error ;; mret false
  else if decide (val = "") then field_empty fieldname ;; mret false
  else
    field_nonempty fieldname ;;
    let error := if isid then validate_doc_id val else "" in
    if negb (bool_decide (error = "")) then
      append_error fieldname error ;;
      modifyM (upd_errors (λ e, mkErrors (errors e) true)) ;;
      mret true
    else
      add_value_if slot val ;;
      let val := if lowercase then tolower val else val in
      val ← shorten fieldname max_length action val;
      match val with
      | None => mret false
      | Some val =>
          modifyM (upd_doc (add_term_wdf (prefix +:+ val) wdfinc)) ;;
          (if isid then set_idterm fieldname (prefix +:+ val) else mret ()) ;;
          mret false
      end.

Fixpoint exact_values (f : json → indexM bool) (values : list json) : indexM bool :=
  match values with
  | [] => mret false
  | v :: values => stop ← f v; if (stop : bool) then mret true else exact_values f values
  end.

Definition ExactStringIndexer_index (prefix store_field : string) (wdfinc max_length : N) (action : TooLongAction)
    (isid : bool) (slot : N) (lowercase : bool) (fieldname : string) (values : json) : indexM () :=
  stop ← exact_values (exact_value prefix wdfinc max_length action isid slot lowercase fieldname) (json_elems values);
  if (stop : bool) then mret () else store_values store_field values.

(** *** Stored values *)

(** [Value::empty()]. *)
Definition json_empty (v : json) : bool :=
  if isNull v || isArray v || isObject v then (json_size v =? 0)%N else false.

Definition stored_value (fieldname : string) (value : json) : indexM () :=
  if json_empty value || match value with JStr val => bool_decide (val = "") | _ => false end
  then field_empty fieldname else field_nonempty fieldname.

Definition StoredIndexer_index (store_field fieldname : string) (values : json) : indexM () :=
  for_each (json_elems values) (stored_value fieldname) ;;
  modifyM (upd_docdata (DocumentData_set store_field (json_serialise values))).

(** *** Numbers, times and dates *)

(** A number, with the start of the message for a value that is none. *)
Definition number_value (what : string) (slot : N) (fieldname : string) (value : json) : indexM () :=
  if isNull value then field_empty fieldname
  else if isConvertibleTo value realValue then
    field_nonempty fieldname ;;
    d ← liftM (asDouble value);
    modifyM (upd_docvals (DocumentValues_add slot (sortable_serialise d)))
  else field_nonempty fieldname ;; append_error fieldname (what +:+ json_serialise value).

Definition DoubleIndexer_index (slot : N) (store_field fieldname : string) (values : json) : indexM () :=
  for_each (json_elems values) (number_value "Double field must be numeric; was " slot fieldname) ;;
  store_values store_field values.

Definition TimeStampIndexer_index (slot : N) (store_field fieldname : string) (values : json) : indexM () :=
  for_each (json_elems values) (number_value "Timestamp field must be numeric; was " slot fieldname) ;;
  store_values store_field values.

(** [int n = floor(d)]: no meaning outside the range of [int]. *)
Definition floor_to_int (d : spec_float) : res Z :=
  match d with
  | S754_zero _ => Ok 0%Z
  | S754_finite s m e =>
      let v := if s then Z.neg m else Z.pos m in
      let n := (if (0 <=? e)%Z then v * 2 ^ e else v / 2 ^ (- e))%Z in
      if ((minInt <=? n) && (n <=? maxInt))%Z then Ok n else throw UndefinedBehaviour
  | _ => throw UndefinedBehaviour
  end.

Definition str_int (z : Z) : string :=
  match z with Z.neg p => "-" +:+ str_unsigned (N.pos p) | _ => str_unsigned (Z.to_N z) end.

Definition skip_hyphen (s : string) : string :=
  match s with String c r => if decide (c = "-"%char) then r else s | _ => s end.

Definition bad_date (value : json) (what : string) (n : Z) : string :=
  "Unable to parse date value '" +:+ json_serialise value +:+ "'; got " +:+ what +:+ " value ("
    +:+ str_int n +:+ ") out of range".

(** [parse_date]: the form stored in the slot and the error. *)
Definition parse_date (value : json) : res (string * string) :=
  if isNull value then Ok ("", "")
  else if negb (isString value) then Ok ("", "Non-string value supplied to date field.")
  else
    value_str ← asString value;
    if decide (value_str = "") then Ok ("", "")
    else
      let '(year, rest) := strtod value_str in
      let '(m, rest) := strtod (skip_hyphen rest) in
      month ← floor_to_int m;
      if ((month <=? 0) || (12 <? month))%Z then Ok ("", bad_date value "month" month)
      else
        let '(d, _) := strtod (skip_hyphen rest) in
        day ← floor_to_int d;
        if ((day <=? 0) || (31 <? day))%Z then Ok ("", bad_date value "day" day)
        else Ok (sortable_serialise year +:+ sing (chr (32 + Z.to_N month)) +:+ sing (chr (32 + Z.to_N day)), "").

Definition date_value (slot : N) (fieldname : string) (value : json) : indexM () :=
  '(parsed, error) ← liftM (parse_date value);
  if negb (bool_decide (error = "")) then field_nonempty fieldname ;; append_error fieldname error
  else if decide (parsed = "") then field_empty fieldname
  else field_nonempty fieldname ;; modifyM (upd_docvals (DocumentValues_add slot parsed)).

Definition DateIndexer_index (slot : N) (store_field fieldname : string) (values : json) : indexM () :=
  for_each (json_elems values) (date_value slot fieldname) ;;
  store_values store_field values.

(** *** Categories *)

Definition category_value (prefix : string) (taxonomy : option taxonomy) (max_length : N) (action : TooLongAction)
    (slot : N) (fieldname : string) (value : json) : indexM () :=
  '(val, error) ← liftM (json_get_idstyle_value styled value);
  if negb (bool_decide (error = "")) then field_nonempty fieldname ;; append_error fieldname error
  else if decide (val = "") then field_empty fieldname
  else
    add_value_if slot val ;;
    field_nonempty fieldname ;;
    val ← shorten fieldname max_length action val;
    match val with
    | None => mret ()
    | Some val =>
        modifyM (upd_doc (add_term_wdf ((prefix +:+ "C") +:+ val) 0)) ;;
        match taxonomy ≫= λ t, Taxonomy_find t val with
        | None => mret ()
        | Some cat =>
            for_each (sorted_elems (ancestors cat)) (λ a,
              modifyM (upd_doc (add_term_wdf ((prefix +:+ "A") +:+ a) 0)))
        end
    end.

Definition CategoryIndexer_index (prefix taxonomy_name store_field : string) (max_length : N) (action : TooLongAction)
    (slot : N) (fieldname : string) (values : json) : indexM () :=
  for_each (json_elems values)
    (category_value prefix (get_taxonomy taxonomy_name collconfig) max_length action slot fieldname) ;;
  store_values store_field values.

(** *** Coordinates *)

Definition lonlat_value (slot : N) (fieldname : string) (value : json) : indexM () :=
  r ← liftM (json_get_lonlat value);
  match r with
  | inr error => field_nonempty fieldname ;; append_error fieldname (error +:+ " value was " +:+ json_serialise value)
  | inl (longitude, latitude) =>
      field_nonempty fieldname ;;
      coord ← liftM (serialise_coord latitude longitude);
      modifyM (upd_docvals (DocumentValues_add slot coord))
  end.

Definition LonLatIndexer_index (slot : N) (store_field fieldname : string) (values : json) : indexM () :=
  modifyM (upd_docvals (DocumentValues_set_slot_format slot ENC_GEOENCODE)) ;;
  for_each (json_elems values) (lonlat_value slot fieldname) ;;
  store_values store_field values.

(** *** Text *)

(** What both kinds of text do before a non-empty value is cut into words: only the
    first value of the document goes into the slot. *)
Definition text_value (slot : N) (fieldname : string) (index : string → indexM ()) (value : json) : indexM () :=
  if isNull value then field_empty fieldname
  else if negb (isString value) then
    field_nonempty fieldname ;;
    append_error fieldname ("Field value for text field must be a string; was " +:+ json_serialise value)
  else
    val ← liftM (asString value);
    if decide (val = "") then field_empty fieldname
    else
      s ← getM;
      (if negb (slot =? BAD_VALUENO)%N && DocumentValues_empty slot (docvals s)
       then modifyM (upd_docvals (DocumentValues_add slot val)) else mret ()) ;;
      field_nonempty fieldname ;;
      index val.

Definition stemmed_text (stem_lang prefix val : string) : indexM () :=
  if known_language stem_lang then modifyM (upd_doc (index_text stem_lang val prefix))
  else throwM (XapianError "InvalidArgumentError").

Definition TermGeneratorIndexer_index (prefix store_field stem_lang : string) (slot : N) (fieldname : string)
    (values : json) : indexM () :=
  for_each (json_elems values) (text_value slot fieldname (stemmed_text stem_lang prefix)) ;;
  store_values store_field values.

Definition cjk_text (prefix val : string) : indexM () :=
  for_each (tokenize val) (λ '(token, pos),
    let term := tolower token in
    if (str_size term <? 32)%N then modifyM (upd_doc (add_posting (prefix +:+ term) (wrap32 (pos + 0)))) else mret ()).

Definition CJKIndexer_index (prefix store_field : string) (slot : N) (fieldname : string) (values : json) : indexM () :=
  for_each (json_elems values) (text_value slot fieldname (cjk_text prefix)) ;;
  store_values store_field values.

(** *** The virtual method *)

Definition FieldIndexer_index (i : FieldIndexer) (fieldname : string) (values : json) : indexM () :=
  match i with
  | MetaIndexer prefix slot => MetaIndexer_index prefix slot
  | ExactStringIndexer prefix store_field wdfinc max_length action isid slot lowercase =>
      ExactStringIndexer_index prefix store_field wdfinc max_length action isid slot lowercase fieldname values
  | StoredIndexer store_field => StoredIndexer_index store_field fieldname values
  | DoubleIndexer slot store_field => DoubleIndexer_index slot store_field fieldname values
  | TimeStampIndexer slot store_field => TimeStampIndexer_index slot store_field fieldname values
  | DateIndexer slot store_field => DateIndexer_index slot store_field fieldname values
  | CategoryIndexer prefix taxonomy_name store_field max_length action slot =>
      CategoryIndexer_index prefix taxonomy_name store_field max_length action slot fieldname values
  | LonLatIndexer slot store_field => LonLatIndexer_index slot store_field fieldname values
  | TermGeneratorIndexer prefix store_field stem_lang slot =>
      TermGeneratorIndexer_index prefix store_field stem_lang slot fieldname values
  | CJKIndexer prefix store_field slot => CJKIndexer_index prefix store_field slot fieldname values
  end.

End with_config.
End indexing.
