(* ===== verification/TaskQueue.v ===== *)
(** * Groups of task queues

    src/server/task_queue_group.h: named FIFO queues of tasks shared by the
    threads of the server.  Every method runs under the lock of [cond], so the
    methods are modelled as atomic steps on the state of the group; a method that
    waits on [cond] is the step [Blocked].  The wake-up of [pop_any], [pop_from] and
    [assign_handler] looks the queues up afresh, and so is the same step again (with
    no completed task, the prologue having been done).  The wake-up of [push] goes on
    with the reference [QueueInfo & queue] taken before the wait: it is the step
    [push_body] on that reference, whose behaviour is undefined when the entry has
    been erased meanwhile.

    A task is the address of the [Task] object; [allow_parallel] is the member set
    when a task is created.  The calls of [cond.broadcast] and of [io_send_byte]
    are recorded in the state. *)

From S2P Require Import Prelude Json.

(** ** State *)

Abbreviation task := N.

(** [Queue::QueueState], src/utils/queueing.h. *)
Inductive QueueState : Type := HAS_SPACE | LOW_SPACE | FULL | CLOSED.

Record QueueInfo := mkQueueInfo {
  queue : list task;
  in_progress : gset task;
  active : bool;
  assigned : bool;
}.

Definition new_QueueInfo : QueueInfo := mkQueueInfo [] ∅ true false.

(** [erased] counts the entries of each key that have been erased: an entry is told
    by its key and the number of entries erased before it. *)
Record TaskQueueGroup := mkGroup {
  queues : gmap string QueueInfo;
  erased : gmap string nat;
  last_pop_from : string;
  closed : bool;
  nudge_fd : Z;
  nudge_byte : ascii;
  broadcasts : nat;
  sent : list (Z * ascii);
}.

Definition new_group : TaskQueueGroup := mkGroup ∅ ∅ "" false (-1) "Q"%char 0 [].

(** Outcome of a step that may have to wait. *)
Inductive outcome (A : Type) : Type := Done (a : A) | Blocked.
Arguments Done {A} a.
Arguments Blocked {A}.

Definition set_queues (f : gmap string QueueInfo → gmap string QueueInfo) (g : TaskQueueGroup) :=
  mkGroup (f (queues g)) (erased g) (last_pop_from g) (closed g) (nudge_fd g) (nudge_byte g)
    (broadcasts g) (sent g).
Definition broadcast : M TaskQueueGroup () := modifyM (λ g,
  mkGroup (queues g) (erased g) (last_pop_from g) (closed g) (nudge_fd g) (nudge_byte g)
    (S (broadcasts g)) (sent g)).
Definition io_send_byte (fd : Z) (b : ascii) : M TaskQueueGroup () := modifyM (λ g,
  mkGroup (queues g) (erased g) (last_pop_from g) (closed g) (nudge_fd g) (nudge_byte g)
    (broadcasts g) (sent g ++ [(fd, b)])).

(** [queues.erase(i)]. *)
Definition erasures (key : string) (g : TaskQueueGroup) : nat := default 0 (erased g !! key).
Definition erase_entry (key : string) (g : TaskQueueGroup) : TaskQueueGroup :=
  mkGroup (delete key (queues g)) (<[key := S (erasures key g)]> (erased g)) (last_pop_from g) (closed g)
    (nudge_fd g) (nudge_byte g) (broadcasts g) (sent g).

(** A reference to an entry, and what it refers to as long as the entry is there. *)
Definition queue_ref : Type := string * nat.
Definition deref (r : queue_ref) (g : TaskQueueGroup) : option QueueInfo :=
  if decide (erasures r.1 g = r.2) then queues g !! r.1 else None.

(** [queues[key]]: creates the queue when it does not exist. *)
Definition get_or_new (key : string) (g : TaskQueueGroup) : QueueInfo :=
  default new_QueueInfo (queues g !! key).

Definition set_active_flag (b : bool) (q : QueueInfo) : QueueInfo :=
  mkQueueInfo (queue q) (in_progress q) b (assigned q).
Definition set_assigned_flag (b : bool) (q : QueueInfo) : QueueInfo :=
  mkQueueInfo (queue q) (in_progress q) (active q) b.

(** The first element of a [std::set<Task *>]. *)
Definition set_begin (X : gset task) : option task := head (merge_sort N.le (elements X)).

Section group.
Context (allow_parallel : task → bool) (throttle_size max_size : N).

Definition size_of (q : QueueInfo) : N := N.of_nat (length (queue q)).

Definition check_parallel_allowed (q : QueueInfo) : bool :=
  match set_begin (in_progress q) with
  | None => true
  | Some t =>
      if negb (allow_parallel t) then false
      else match head (queue q) with
           | Some next => if negb (allow_parallel next) then false else true
           | None => true
           end
  end.

(** ** Picking a queue *)

Fixpoint take_while (p : string → bool) (l : list string) : list string :=
  match l with [] => [] | x :: l => if p x then x :: take_while p l else [] end.
Fixpoint drop_while (p : string → bool) (l : list string) : list string :=
  match l with [] => [] | x :: l' => if p x then drop_while p l' else l end.

(** The order in which the inner loop of [pick_queue] visits the queues: from
    [lower_bound(last_pop_from + "\0")] to the end, then from the beginning. *)
Definition visit_order (last : string) (keys : list string) : list string :=
  let below k := bool_decide (str_lt k (last +:+ sing (chr 0))) in
  drop_while below keys ++ take_while below keys.

Definition pickable (q : QueueInfo) : bool :=
  active q && negb (assigned q) && negb (bool_decide (queue q = [])) && check_parallel_allowed q.

Definition pick_queue : M TaskQueueGroup (outcome (option string)) := λ g,
  match list_find (λ k, default false (pickable <$> queues g !! k) = true)
          (visit_order (last_pop_from g) (sorted_keys (queues g))) with
  | Some (_, k) =>
      (mkGroup (queues g) (erased g) k (closed g) (nudge_fd g) (nudge_byte g) (broadcasts g) (sent g),
       Ok (Done (Some k)))
  | None => (g, Ok (if closed g then Done None else Blocked))
  end.

(** ** Operations *)

Definition boring (q : QueueInfo) : bool :=
  (size_of q =? 0)%N && bool_decide (in_progress q = ∅) && active q && negb (assigned q).

Definition check_for_cleanup (key : string) : M TaskQueueGroup () := λ g,
  match queues g !! key with
  | None => (g, throw UndefinedBehaviour)
  | Some q => (if boring q then erase_entry key g else g, Ok ())
  end.

Definition set_inactive_internal (key : string) : M TaskQueueGroup () := λ g,
  if closed g then (g, Ok ())
  else (set_queues (<[key := set_active_flag false (get_or_new key g)]>) g, Ok ()).

Definition set_nudge (fd : Z) (b : ascii) : M TaskQueueGroup () := modifyM (λ g,
  mkGroup (queues g) (erased g) (last_pop_from g) (closed g) fd b (broadcasts g) (sent g)).

Definition close : M TaskQueueGroup () :=
  modifyM (λ g, mkGroup (set_active_flag true <$> queues g) (erased g) (last_pop_from g) true
                  (nudge_fd g) (nudge_byte g) (broadcasts g) (sent g)) ;;
  broadcast.

Definition set_active (key : string) (on : bool) : M TaskQueueGroup () := λ g,
  if closed g then (g, Ok ())
  else
    ((λ g, (set_queues (<[key := set_active_flag on (get_or_new key g)]>) g, Ok ())) ;;
     (if on then check_for_cleanup key else mret ()) ;;
     broadcast) g.

(** The loop of [push] up to its wait, with the reference [queue]: [Blocked] when the
    queue is too full. *)
Definition push_body (queue_at : queue_ref) (item : task) (allow_throttle : bool)
    : M TaskQueueGroup (outcome QueueState) := λ g,
  match deref queue_at g with
  | None => (g, throw UndefinedBehaviour)
  | Some q =>
      if closed g then (g, Ok (Done CLOSED))
      else if (allow_throttle && (throttle_size <=? size_of q)%N)
              || (negb allow_throttle && (max_size <=? size_of q)%N)
      then (g, Ok Blocked)
      else
        let q' := mkQueueInfo (queue q ++ [item]) (in_progress q) (active q) (assigned q) in
        ((λ g, (set_queues (<[queue_at.1 := q']>) g, Ok ())) ;;
         broadcast ;;
         mret (Done (if (size_of q' <? throttle_size)%N then HAS_SPACE else LOW_SPACE))) g
  end.

(** Entering [push]: inserts an empty queue when there is none; the reference. *)
Definition push_enter (key : string) : M TaskQueueGroup queue_ref := λ g,
  match queues g !! key with
  | Some _ => (g, Ok (key, erasures key g))
  | None => (set_queues (<[key := new_QueueInfo]>) g, Ok (key, erasures key g))
  end.

(** [push] without a time limit ([end_time == 0.0]). *)
Definition push (key : string) (item : task) (allow_throttle : bool) : M TaskQueueGroup QueueState :=
  queue_at ← push_enter key;
  o ← push_body queue_at item allow_throttle;
  mret (match o with Done s => s | Blocked => FULL end).

(** [push] with a time limit, up to its first wait: there the thread holds the
    reference. *)
Definition push_timed (key : string) (item : task) (allow_throttle : bool)
    : M TaskQueueGroup (QueueState + queue_ref) :=
  queue_at ← push_enter key;
  o ← push_body queue_at item allow_throttle;
  mret (match o with Done s => inl s | Blocked => inr queue_at end).

(** The wake-up of [push]: round the loop again with the reference it holds (a
    time-out returns [FULL] and leaves the state alone). *)
Definition push_wake (queue_at : queue_ref) (item : task) (allow_throttle : bool)
    : M TaskQueueGroup (outcome QueueState) :=
  push_body queue_at item allow_throttle.

Definition assign_handler : M TaskQueueGroup (outcome (option string)) :=
  o ← pick_queue;
  match o with
  | Done (Some key) =>
      modifyM (λ g, set_queues (alter (set_assigned_flag true) key) g) ;;
      mret (Done (Some key))
  | _ => mret o
  end.

Definition unassign_handler (assignment : string) : M TaskQueueGroup () :=
  modifyM (λ g, set_queues (<[assignment := set_assigned_flag false (get_or_new assignment g)]>) g) ;;
  check_for_cleanup assignment ;;
  broadcast.

Definition erase_in_progress (t : task) (q : QueueInfo) : QueueInfo :=
  mkQueueInfo (queue q) (in_progress q ∖ {[t]}) (active q) (assigned q).

Definition completed (key : string) (t : option task) : M TaskQueueGroup () :=
  match t with
  | None => mret ()
  | Some t => modifyM (λ g, set_queues (alter (erase_in_progress t) key) g)
  end.

(** The prologue of [pop_any] and [pop_from]: registers the completed task.  The
    entry it belongs to is asserted to exist. *)
Definition complete_first (key : string) (t : option task) : M TaskQueueGroup () :=
  match t with
  | None => mret ()
  | Some t => λ g,
      match queues g !! key with
      | None => (g, throw AssertionError)
      | Some q => (modifyM (λ g, set_queues (<[key := erase_in_progress t q]>) g) ;;
                   check_for_cleanup key) g
      end
  end.

(** Taking the oldest task of a queue, the end of [pop_any] and [pop_from]. *)
Definition pop_front (key : string) : M TaskQueueGroup task := λ g,
  match queues g !! key with
  | Some (mkQueueInfo (t :: rest) ip act asg) =>
      let q := mkQueueInfo (t :: rest) ip act asg in
      let nudge_fd_copy := if (size_of q =? throttle_size)%N then nudge_fd g else (-1)%Z in
      let nudge_byte_copy := nudge_byte g in
      (modifyM (λ g, set_queues (<[key := mkQueueInfo rest ({[t]} ∪ ip) act asg]>) g) ;;
       check_for_cleanup key ;;
       broadcast ;;
       (if (nudge_fd_copy =? -1)%Z then mret () else io_send_byte nudge_fd_copy nudge_byte_copy) ;;
       mret t) g
  | _ => (g, throw UndefinedBehaviour)
  end.

(** [pop_any]: the popped task with its key, or [None] when the group is closed
    and no queue can be popped from. *)
Definition pop_any (key : string) (completed_task : option task)
    : M TaskQueueGroup (outcome (option (string * task))) :=
  complete_first key completed_task ;;
  o ← pick_queue;
  match o with
  | Blocked => mret Blocked
  | Done None => mret (Done None)
  | Done (Some k) => t ← pop_front k; mret (Done (Some (k, t)))
  end.

(** The loop of [pop_from] up to its wait, and what follows it. *)
Definition pop_from_body (key : string) : M TaskQueueGroup (outcome (option task)) := λ g,
  let ready := match queues g !! key with
               | Some q => active q && negb (bool_decide (queue q = [])) && check_parallel_allowed q
               | None => false
               end in
  if negb (closed g) && negb ready then (g, Ok Blocked)
  else match queues g !! key with
       | None => (g, Ok (Done None))
       | Some q =>
           if bool_decide (queue q = []) then (g, Ok (Done None))
           else (t ← pop_front key; mret (Done (Some t))) g
       end.

(** [pop_from]: [Blocked] is a wait with a time limit (a time-out returns no task
    and leaves the state alone); [Done None] is the return with [is_finished]. *)
Definition pop_from (key : string) (completed_task : option task) (completed_key : string)
    : M TaskQueueGroup (outcome (option task)) :=
  complete_first completed_key completed_task ;; pop_from_body key.

(** ** Observers *)

Definition get_busy_queues (g : TaskQueueGroup) : list string :=
  omap (λ '(k, q), if (throttle_size <=? size_of q)%N then Some k else None) (sorted_items (queues g)).

Definition get_inactive_queues (g : TaskQueueGroup) : list string :=
  omap (λ '(k, q), if active q then None else Some k) (sorted_items (queues g)).

(** [wait_for_empty] waits until the group is closed and then until no queue has
    an item. *)
Definition wait_for_empty (g : TaskQueueGroup) : outcome () :=
  if closed g && forallb (λ '(_, q), bool_decide (queue q = [])) (sorted_items (queues g))
  then Done () else Blocked.

Definition get_status (g : TaskQueueGroup) : json :=
  foldl (λ result '(k, q),
    json_set result k
      (json_set (json_set (json_set (json_set (JObj [])
        "size" (JUInt (size_of q)))
        "active" (JBool (active q)))
        "assigned" (JBool (assigned q)))
        "in_progress" (JUInt (N.of_nat (size (in_progress q))))))
    (JObj []) (sorted_items (queues g)).

End group.
