(* ===== verification/TaskQueueThms.v ===== *)
(** * Correctness of groups of task queues

    The properties of src/server/task_queue_group.h: every method is an update of
    independent queues (an absent queue being an empty, active, unassigned one),
    and from that: tasks leave a queue in the order they entered it, tasks that do
    not allow parallel execution run alone, sizes stay bounded, closing is final,
    and the queues are served in turn. *)

From S2P Require Import Prelude Json TaskQueue.

(** ** Events: the critical sections of the methods *)

(** [EPushTimed] is [push] with a time limit up to its first wait, [EPushWake] its
    wake-up with the reference it holds. *)
Inductive event : Type :=
| EPush (key : string) (item : task) (allow_throttle : bool)
| EPushTimed (key : string) (item : task) (allow_throttle : bool)
| EPushWake (queue_at : queue_ref) (item : task) (allow_throttle : bool)
| EPopAny (key : string) (completed_task : option task)
| EPopFrom (key : string) (completed_task : option task) (completed_key : string)
| EAssign
| EUnassign (key : string)
| ECompleted (key : string) (t : option task)
| ESetActive (key : string) (on : bool)
| ESetInactive (key : string)
| EClose
| ESetNudge (fd : Z) (b : ascii).

Inductive reply : Type :=
| RUnit
| RWait
| RState (s : QueueState)
| RKey (key : string)
| RTask (key : string) (t : task)
| RFinished.

Section events.
Context (allow_parallel : task → bool) (throttle_size max_size : N).

Definition run_event (e : event) : M TaskQueueGroup reply :=
  match e with
  | EPush k t b => s ← push throttle_size max_size k t b; mret (RState s)
  | EPushTimed k t b =>
      o ← push_timed throttle_size max_size k t b;
      mret (match o with inl s => RState s | inr _ => RWait end)
  | EPushWake r t b =>
      o ← push_wake throttle_size max_size r t b;
      mret (match o with Done s => RState s | Blocked => RWait end)
  | EPopAny k c =>
      o ← pop_any allow_parallel throttle_size k c;
      mret (match o with Done (Some (k, t)) => RTask k t | Done None => RFinished | Blocked => RWait end)
  | EPopFrom k c ck =>
      o ← pop_from allow_parallel throttle_size k c ck;
      mret (match o with Done (Some t) => RTask k t | Done None => RFinished | Blocked => RWait end)
  | EAssign =>
      o ← assign_handler allow_parallel;
      mret (match o with Done (Some k) => RKey k | Done None => RFinished | Blocked => RWait end)
  | EUnassign k => unassign_handler k ;; mret RUnit
  | ECompleted k t => completed k t ;; mret RUnit
  | ESetActive k on => set_active k on ;; mret RUnit
  | ESetInactive k => set_inactive_internal k ;; mret RUnit
  | EClose => close ;; mret RUnit
  | ESetNudge fd b => set_nudge fd b ;; mret RUnit
  end.

(** A sequence of events -- an interleaving of the critical sections of any number
    of threads -- with the replies given.  It ends where the behaviour is undefined. *)
Definition is_defined {A} (r : res A) : bool :=
  match r with Throw UndefinedBehaviour => false | _ => true end.
Fixpoint run_events (es : list event) (g : TaskQueueGroup)
    : TaskQueueGroup * list (event * res reply) :=
  match es with
  | [] => (g, [])
  | e :: es =>
      let '(g1, r) := run_event e g in
      if is_defined r then let '(g2, tr) := run_events es g1 in (g2, (e, r) :: tr)
      else (g1, [(e, r)])
  end.

(** ** The specification: one queue at a time *)

Definition on (key k : string) (f : QueueInfo → QueueInfo) (q : QueueInfo) : QueueInfo :=
  if decide (key = k) then f q else q.
Definition enqueue (t : task) (q : QueueInfo) : QueueInfo :=
  mkQueueInfo (queue q ++ [t]) (in_progress q) (active q) (assigned q).
Definition dequeue (t : task) (q : QueueInfo) : QueueInfo :=
  mkQueueInfo (tail (queue q)) ({[t]} ∪ in_progress q) (active q) (assigned q).
Definition finish (key k : string) (c : option task) (q : QueueInfo) : QueueInfo :=
  match c with None => q | Some t => on key k (erase_in_progress t) q end.
Definition hand_out (r : reply) (k : string) (q : QueueInfo) : QueueInfo :=
  match r with RTask key t => on key k (dequeue t) q | _ => q end.

(** The queue [k] after an event that got a reply. *)
Definition spec_queue (e : event) (r : reply) (is_closed : bool) (k : string) (q : QueueInfo)
    : QueueInfo :=
  match e with
  | EPush key t _ | EPushTimed key t _ | EPushWake (key, _) t _ =>
      match r with
      | RState HAS_SPACE | RState LOW_SPACE => on key k (enqueue t) q
      | _ => q
      end
  | EPopAny key c => hand_out r k (finish key k c q)
  | EPopFrom _ c ckey => hand_out r k (finish ckey k c q)
  | EAssign => match r with RKey key => on key k (set_assigned_flag true) q | _ => q end
  | EUnassign key => on key k (set_assigned_flag false) q
  | ECompleted key c => finish key k c q
  | ESetActive key b => if is_closed then q else on key k (set_active_flag b) q
  | ESetInactive key => if is_closed then q else on key k (set_active_flag false) q
  | EClose => set_active_flag true q
  | ESetNudge _ _ => q
  end.

(** Which replies an event can get, given the queues before it. *)
Definition reply_ok (e : event) (r : reply) (g : TaskQueueGroup) : Prop :=
  match e with
  | EPush key _ b | EPushTimed key _ b | EPushWake (key, _) _ b =>
      let n := size_of (get_or_new key g) in
      let limit := if b then throttle_size else max_size in
      if closed g then r = RState CLOSED
      else if (limit <=? n)%N
      then r = match e with EPush _ _ _ => RState FULL | _ => RWait end
      else r = RState (if (n + 1 <? throttle_size)%N then HAS_SPACE else LOW_SPACE)
  | EPopAny key c =>
      match r with
      | RTask k t => let q := finish key k c (get_or_new k g) in
          pickable allow_parallel q = true ∧ head (queue q) = Some t
      | RFinished => closed g = true ∧
          ∀ k, pickable allow_parallel (finish key k c (get_or_new k g)) = false
      | RWait => closed g = false ∧
          ∀ k, pickable allow_parallel (finish key k c (get_or_new k g)) = false
      | _ => False
      end
  | EPopFrom key c ckey =>
      let q := finish ckey key c (get_or_new key g) in
      match r with
      | RTask k t => k = key ∧ head (queue q) = Some t ∧
          (closed g = true ∨ active q = true ∧ check_parallel_allowed allow_parallel q = true)
      | RFinished => closed g = true ∧ queue q = []
      | RWait => closed g = false ∧
          (active q = false ∨ queue q = [] ∨ check_parallel_allowed allow_parallel q = false)
      | _ => False
      end
  | EAssign =>
      match r with
      | RKey k => pickable allow_parallel (get_or_new k g) = true
      | RFinished => closed g = true ∧ ∀ k, pickable allow_parallel (get_or_new k g) = false
      | RWait => closed g = false ∧ ∀ k, pickable allow_parallel (get_or_new k g) = false
      | _ => False
      end
  | _ => r = RUnit
  end.

(** ** Steps *)

Lemma get_or_new_insert k q g key :
  get_or_new key (set_queues (<[k := q]>) g) = if decide (k = key) then q else get_or_new key g.
Proof.
  unfold get_or_new. cbn. destruct (decide (k = key)) as [->|Hne].
  - by rewrite lookup_insert_eq.
  - by rewrite lookup_insert_ne.
Qed.

Lemma boring_new q : boring q = true ↔ q = new_QueueInfo.
Proof.
  unfold boring, size_of, new_QueueInfo. rewrite !andb_true_iff, bool_decide_eq_true, N.eqb_eq, negb_true_iff.
  split; [|by intros ->]. destruct q as [l ip a b]. cbn.
  intros [[[Hl ->] ->] ->]. by destruct l.
Qed.

Lemma set_begin_empty X : set_begin X = None ↔ X = ∅.
Proof.
  unfold set_begin. split.
  - intros H. apply set_eq. intros x. split; [|set_solver]. intros Hx%elem_of_elements.
    rewrite <-(merge_sort_Permutation N.le) in Hx. destruct (merge_sort N.le (elements X)); [|done].
    set_solver.
  - intros ->. reflexivity.
Qed.

Lemma set_begin_elem X t : set_begin X = Some t → t ∈ X.
Proof.
  unfold set_begin. intros H. apply elem_of_elements. rewrite <-(merge_sort_Permutation N.le).
  destruct (merge_sort N.le (elements X)); [done|]. cbn in H. simplify_eq. set_solver.
Qed.

(** Cleaning up a queue does not show. *)
Lemma cleanup_ok key g :
  is_Some (queues g !! key) →
  ∃ g', check_for_cleanup key g = (g', Ok ()) ∧ (∀ k, get_or_new k g' = get_or_new k g) ∧
        g' = mkGroup (queues g') (erased g') (last_pop_from g) (closed g) (nudge_fd g) (nudge_byte g)
               (broadcasts g) (sent g).
Proof.
  intros [q Hq]. unfold check_for_cleanup. rewrite Hq. destruct (boring q) eqn:Hb.
  - eexists. split_and!; [done| |done]. intros k. unfold get_or_new. cbn.
    destruct (decide (k = key)) as [->|Hne]; [|by rewrite lookup_delete_ne].
    rewrite lookup_delete_eq, Hq. apply boring_new in Hb. by subst.
  - exists g. by destruct g.
Qed.

(** Two groups that differ in the queues only, in what is recorded of the
    outside, or in the last queue popped from. *)
Definition same_flags (g g' : TaskQueueGroup) : Prop :=
  closed g' = closed g ∧ nudge_fd g' = nudge_fd g ∧ nudge_byte g' = nudge_byte g.

Lemma wp_cleanup key g Q :
  is_Some (queues g !! key) →
  (∀ g', (∀ k, get_or_new k g' = get_or_new k g) → same_flags g g' →
     last_pop_from g' = last_pop_from g → broadcasts g' = broadcasts g → Q g' ()) →
  wp (check_for_cleanup key) Q g.
Proof.
  intros Hq HQ. destruct (cleanup_ok key g Hq) as (g' & Hok & Hsame & Hg'). unfold wp. rewrite Hok.
  apply HQ; [done|..]; rewrite Hg'; [by split_and!|done..].
Qed.

Lemma take_drop_while p l : take_while p l ++ drop_while p l = l.
Proof. induction l as [|x l IH]; cbn; [done|]. destruct (p x); cbn; congruence. Qed.

Lemma visit_order_perm last keys : visit_order last keys ≡ₚ keys.
Proof. unfold visit_order. rewrite (comm (++)). by rewrite take_drop_while. Qed.

Lemma pickable_absent k g :
  queues g !! k = None → pickable allow_parallel (get_or_new k g) = false.
Proof. unfold get_or_new. by intros ->. Qed.

Lemma default_pickable k g :
  default false (pickable allow_parallel <$> queues g !! k) = pickable allow_parallel (get_or_new k g).
Proof. unfold get_or_new. by destruct (queues g !! k). Qed.

Lemma wp_pick g (Q : TaskQueueGroup → outcome (option string) → Prop) :
  (∀ i k, list_find (λ k, default false (pickable allow_parallel <$> queues g !! k) = true)
            (visit_order (last_pop_from g) (sorted_keys (queues g))) = Some (i, k) →
     is_Some (queues g !! k) → pickable allow_parallel (get_or_new k g) = true →
     Q (mkGroup (queues g) (erased g) k (closed g) (nudge_fd g) (nudge_byte g) (broadcasts g) (sent g))
       (Done (Some k))) →
  ((∀ k, pickable allow_parallel (get_or_new k g) = false) →
     Q g (if closed g then Done None else Blocked)) →
  wp (pick_queue allow_parallel) Q g.
Proof.
  intros Hsome Hnone. unfold wp, pick_queue.
  destruct (list_find _ _) as [[i k]|] eqn:E.
  - apply (Hsome i); [done|..]; apply list_find_Some in E as (Hi & Hp & _); rewrite default_pickable in Hp.
    + destruct (queues g !! k) eqn:Ek; [eauto|]. by rewrite pickable_absent in Hp.
    + done.
  - apply list_find_None in E. apply Hnone. intros k.
    destruct (queues g !! k) as [q|] eqn:Ek; [|by apply pickable_absent].
    rewrite Forall_forall in E. apply not_true_iff_false. rewrite <-default_pickable. apply E.
    rewrite visit_order_perm. apply elem_of_sorted_keys. eauto.
Qed.

Lemma wp_pop_front key t g (Q : TaskQueueGroup → task → Prop) :
  head (queue (get_or_new key g)) = Some t →
  (∀ g', (∀ k, get_or_new k g' = on key k (dequeue t) (get_or_new k g)) → same_flags g g' →
     last_pop_from g' = last_pop_from g → broadcasts g' = S (broadcasts g) → Q g' t) →
  wp (pop_front throttle_size key) Q g.
Proof.
  intros Hh HQ. unfold get_or_new in Hh. unfold wp, pop_front.
  destruct (queues g !! key) as [[l ip a b]|] eqn:Eq; [|done]. cbn in Hh.
  destruct l as [|t' rest]; [done|]. cbn in Hh. simplify_eq.
  match goal with |- match ?m g with _ => _ end => change (wp m Q g) end.
  apply wp_bind, wp_modify, wp_bind, wp_cleanup.
  { cbn. rewrite lookup_insert_eq. eauto. }
  intros g1 Hsame Hf Hlast Hb. apply wp_bind, wp_modify, wp_bind.
  assert (Hres : ∀ g', queues g' = queues g1 → ∀ k, get_or_new k g' = on key k (dequeue t) (get_or_new k g)).
  { intros g' Hg' k. assert (get_or_new k g' = get_or_new k g1) as -> by (unfold get_or_new; congruence).
    rewrite Hsame, get_or_new_insert. unfold on. case_decide as Hk; [|done]. subst.
    unfold get_or_new. by rewrite Eq. }
  destruct Hf as (Hf1 & Hf2 & Hf3). cbn in *.
  destruct (_ =? -1)%Z; apply HQ; cbn; try (by apply Hres); try done; try congruence.
Qed.

Lemma complete_first_cases key c g :
  (∃ t, c = Some t ∧ queues g !! key = None ∧ complete_first key c g = (g, throw AssertionError)) ∨
  (∀ Q : TaskQueueGroup → () → Prop,
     (∀ g', (∀ k, get_or_new k g' = finish key k c (get_or_new k g)) → same_flags g g' →
        last_pop_from g' = last_pop_from g → broadcasts g' = broadcasts g → Q g' ()) →
     wp (complete_first key c) Q g).
Proof.
  destruct c as [t|].
  2:{ right. intros Q HQ. apply HQ; [done|by split_and!|done..]. }
  unfold complete_first. destruct (queues g !! key) as [q|] eqn:Eq; [right|left].
  - intros Q HQ. unfold wp. rewrite Eq.
    match goal with |- match ?m g with _ => _ end => change (wp m Q g) end.
    apply wp_bind, wp_modify, wp_cleanup; [cbn; rewrite lookup_insert_eq; eauto|].
    intros g' Hsame Hf Hl Hb. apply HQ; [|done..]. intros k. rewrite Hsame, get_or_new_insert.
    cbn [finish]. unfold on. case_decide as Hk; [|done]. subst. unfold get_or_new. by rewrite Eq.
  - exists t. done.
Qed.

Lemma pickable_head q : pickable allow_parallel q = true → ∃ t, head (queue q) = Some t.
Proof.
  unfold pickable. rewrite !andb_true_iff, !negb_true_iff, bool_decide_eq_false.
  intros [[_ Hq] _]. destruct (queue q); [done|]. cbn. eauto.
Qed.

Definition is_close (e : event) : bool := match e with EClose => true | _ => false end.

(** The events that broadcast on the condition. *)
Definition wakes (e : event) (r : reply) (is_closed : bool) : bool :=
  match e, r with
  | EPush _ _ _, RState (HAS_SPACE | LOW_SPACE) | EPushTimed _ _ _, RState (HAS_SPACE | LOW_SPACE)
  | EPushWake _ _ _, RState (HAS_SPACE | LOW_SPACE) => true
  | _, RTask _ _ => true
  | EUnassign _, _ | EClose, _ => true
  | ESetActive _ _, _ => negb is_closed
  | _, _ => false
  end.

(** What [run_event_spec] says of one event. *)
Definition event_post (e : event) (g g' : TaskQueueGroup) (r : reply) : Prop :=
  (∀ k, get_or_new k g' = spec_queue e r (closed g) k (get_or_new k g)) ∧
  reply_ok e r g ∧ closed g' = is_close e || closed g ∧
  broadcasts g' = if wakes e r (closed g) then S (broadcasts g) else broadcasts g.

(** The three events that push, with the reference they use. *)
Definition pushes (e : event) (k : string) (t : task) (b : bool) : Prop :=
  e = EPush k t b ∨ e = EPushTimed k t b ∨ ∃ n, e = EPushWake (k, n) t b.

Ltac push_cases He := destruct He as [-> | [-> | [? ->]]].

Lemma deref_Some r g q : deref r g = Some q → erasures r.1 g = r.2 ∧ queues g !! r.1 = Some q.
Proof. unfold deref. by case_decide. Qed.

Lemma push_body_ok g0 g r t b e :
  pushes e r.1 t b → deref r g = Some (get_or_new r.1 g0) →
  (∀ j, get_or_new j g = get_or_new j g0) → closed g = closed g0 → broadcasts g = broadcasts g0 →
  wp (push_body throttle_size max_size r t b) (λ g' o,
    event_post e g0 g' (match o with Done s => RState s
                        | Blocked => match e with EPush _ _ _ => RState FULL | _ => RWait end end)) g.
Proof.
  destruct r as [k i]. cbn [fst]. intros He Hd Hsame Hcl Hb. unfold wp, push_body. rewrite Hd, Hcl. cbn [fst].
  assert (Hspec : ∀ r, r ≠ RState HAS_SPACE → r ≠ RState LOW_SPACE →
    ∀ j, get_or_new j g = spec_queue e r (closed g0) j (get_or_new j g0)).
  { intros r H1 H2 j. rewrite Hsame. by push_cases He; destruct r as [| |[]| | |]. }
  destruct (closed g0) eqn:Ec.
  { unfold event_post. rewrite Ec. split_and!; [by apply Hspec| | |].
    - push_cases He; cbn; by rewrite Ec.
    - rewrite Hcl. by push_cases He.
    - rewrite Hb. by push_cases He. }
  set (n := size_of (get_or_new k g0)).
  assert (Hlim : (b && (throttle_size <=? n)%N) || (negb b && (max_size <=? n)%N) =
    ((if b then throttle_size else max_size) <=? n)%N) by (destruct b; cbn; by rewrite ?orb_false_r).
  rewrite Hlim. clear Hlim. destruct ((if b then throttle_size else max_size) <=? n)%N eqn:El.
  { unfold event_post. rewrite Ec. split_and!.
    - apply Hspec; push_cases He; done.
    - push_cases He; cbn; rewrite Ec; fold n; by rewrite El.
    - rewrite Hcl. by push_cases He.
    - rewrite Hb. by push_cases He. }
  cbn. unfold event_post. rewrite Ec. split_and!.
  - intros j. assert (Hq : ∀ x, get_or_new j (set_queues (<[k := x]>) g) =
      if decide (k = j) then x else get_or_new j g0).
    { intros x. rewrite get_or_new_insert. case_decide; [done|apply Hsame]. }
    match goal with |- get_or_new j ?g2 = _ => change (get_or_new j g2) with
      (get_or_new j (set_queues (<[k := enqueue t (get_or_new k g0)]>) g)) end.
    rewrite Hq. push_cases He; cbn [spec_queue]; unfold on;
      destruct (_ <? _)%N; by case_decide; subst.
  - assert (Hn : N.of_nat (length (queue (get_or_new k g0) ++ [t])) = (n + 1)%N)
      by (unfold n, size_of; rewrite length_app; cbn; lia).
    unfold size_of. cbn [queue]. rewrite Hn.
    push_cases He; cbn; rewrite Ec; fold n; by rewrite El.
  - by push_cases He.
  - cbn. rewrite Hb. push_cases He; cbn; by destruct (_ <? _)%N.
Qed.

Lemma push_ok g k t b (e : event) :
  pushes e k t b →
  wp (r ← push_enter k; push_body throttle_size max_size r t b) (λ g' o,
    event_post e g g' (match o with Done s => RState s
                       | Blocked => match e with EPush _ _ _ => RState FULL | _ => RWait end end)) g.
Proof.
  intros He. apply wp_bind. unfold wp at 1, push_enter.
  destruct (queues g !! k) as [q|] eqn:Eq; apply push_body_ok; try done.
  - unfold deref, get_or_new. cbn. by rewrite decide_True, Eq.
  - unfold deref, get_or_new. cbn. by rewrite decide_True, lookup_insert_eq, Eq.
  - intros j. rewrite get_or_new_insert. case_decide as Hj; [|done]. subst.
    unfold get_or_new. by rewrite Eq.
Qed.

Lemma get_or_new_last k key g :
  get_or_new k (mkGroup (queues g) (erased g) key (closed g) (nudge_fd g) (nudge_byte g) (broadcasts g) (sent g))
  = get_or_new k g.
Proof. done. Qed.

Lemma pop_any_ok key c g :
  (∀ Q : TaskQueueGroup → () → Prop,
     (∀ g', (∀ k, get_or_new k g' = finish key k c (get_or_new k g)) → same_flags g g' →
        last_pop_from g' = last_pop_from g → broadcasts g' = broadcasts g → Q g' ()) →
     wp (complete_first key c) Q g) →
  wp (run_event (EPopAny key c)) (λ g' r, event_post (EPopAny key c) g g' r) g.
Proof.
  intros Hc. cbn [run_event]. apply wp_bind, wp_bind, Hc. clear Hc.
  intros g1 H1 (Hcl & _) _ Hb. apply wp_bind, wp_pick.
  - intros i k _ _ Hp. destruct (pickable_head _ Hp) as [t Ht].
    apply wp_bind. eapply wp_pop_front; [exact Ht|]. intros g2 H2 (Hcl2 & _) _ Hb2. cbn in Hcl2, Hb2.
    apply wp_ret, wp_ret. unfold event_post. split_and!.
    + intros j. rewrite H2, get_or_new_last, H1. done.
    + cbn. rewrite <-H1. done.
    + cbn. congruence.
    + cbn. congruence.
  - intros Hnone. destruct (closed g1) eqn:Ec; apply wp_ret, wp_ret; unfold event_post; cbn;
      (split_and!; [done|congruence|intros k; rewrite <-H1; apply Hnone|congruence|congruence]).
Qed.

Lemma wp_pop_from_body key g (Q : TaskQueueGroup → outcome (option task) → Prop) :
  let q := get_or_new key g in
  (closed g = false → active q = false ∨ queue q = [] ∨ check_parallel_allowed allow_parallel q = false →
     Q g Blocked) →
  (closed g = true → queue q = [] → Q g (Done None)) →
  (∀ t g', head (queue q) = Some t →
     closed g = true ∨ active q = true ∧ check_parallel_allowed allow_parallel q = true →
     (∀ k, get_or_new k g' = on key k (dequeue t) (get_or_new k g)) → same_flags g g' →
     broadcasts g' = S (broadcasts g) → Q g' (Done (Some t))) →
  wp (pop_from_body allow_parallel throttle_size key) Q g.
Proof.
  intros q Hblock Hfin Htask. unfold wp, pop_from_body.
  assert (Hr : (match queues g !! key with
     | Some q => active q && negb (bool_decide (queue q = [])) && check_parallel_allowed allow_parallel q
     | None => false end) =
    (active q && negb (bool_decide (queue q = [])) && check_parallel_allowed allow_parallel q)).
  { unfold q, get_or_new. by destruct (queues g !! key). }
  rewrite Hr. clear Hr. destruct (negb (closed g) && _) eqn:Ew.
  { rewrite andb_true_iff, !negb_true_iff, !andb_false_iff, negb_false_iff, bool_decide_eq_true in Ew.
    destruct Ew as [? [[?|?]|?]]; auto. }
  destruct (queues g !! key) as [q'|] eqn:Eq.
  2:{ assert (Hz : queue q = []) by (unfold q, get_or_new; by rewrite Eq).
      apply Hfin; [|done]. rewrite bool_decide_true, andb_false_r in Ew by done. cbn in Ew.
      by destruct (closed g). }
  assert (Hq : q = q') by (unfold q, get_or_new; by rewrite Eq). rewrite <-Hq.
  case_bool_decide as Hz.
  { apply Hfin; [|done]. rewrite andb_false_r in Ew. cbn in Ew. by destruct (closed g). }
  match goal with |- match ?m g with _ => _ end => change (wp m Q g) end.
  destruct (queue q) as [|t rest] eqn:El; [done|].
  apply wp_bind, (wp_pop_front key t); [fold q; by rewrite El|].
  intros g' H1 Hf _ Hb. apply wp_ret. apply Htask; try done.
  destruct (closed g); [by left|right]. cbn in Ew. apply negb_false_iff, andb_true_iff in Ew as [Ew ?].
  by apply andb_true_iff in Ew as [? _].
Qed.

Lemma pop_from_ok key c ckey g :
  (∀ Q : TaskQueueGroup → () → Prop,
     (∀ g', (∀ k, get_or_new k g' = finish ckey k c (get_or_new k g)) → same_flags g g' →
        last_pop_from g' = last_pop_from g → broadcasts g' = broadcasts g → Q g' ()) →
     wp (complete_first ckey c) Q g) →
  wp (run_event (EPopFrom key c ckey)) (λ g' r, event_post (EPopFrom key c ckey) g g' r) g.
Proof.
  intros Hc. cbn [run_event]. apply wp_bind, wp_bind, Hc. clear Hc.
  intros g1 H1 (Hcl & _) _ Hb. apply wp_pop_from_body; rewrite H1.
  - intros Ho Hw. apply wp_ret. unfold event_post. cbn. split_and!; [done|congruence|done|congruence|done].
  - intros Ho Hz. apply wp_ret. unfold event_post. cbn. split_and!; [done|congruence|done|congruence|done].
  - intros t g2 Ht Hp H2 (Hcl2 & _) Hb2. apply wp_ret. unfold event_post. cbn. split_and!; try done.
    + intros k. by rewrite H2, H1.
    + naive_solver congruence.
    + congruence.
    + congruence.
Qed.

(** ** Every event refines the specification *)

(** The only exception is a completed task whose queue has no entry: the assertion
    fails and nothing has changed. *)
Definition completes (e : event) : option (string * task) :=
  match e with
  | EPopAny key (Some t) => Some (key, t)
  | EPopFrom _ (Some t) key => Some (key, t)
  | _ => None
  end.

Definition failure (e : event) (g : TaskQueueGroup) : option error :=
  match e with
  | EPushWake r _ _ => match deref r g with None => Some UndefinedBehaviour | Some _ => None end
  | _ => match completes e with
         | Some (key, _) => match queues g !! key with None => Some AssertionError | Some _ => None end
         | None => None
         end
  end.

Lemma wp_push_result {A B D} (p : M TaskQueueGroup A) (f : A → M TaskQueueGroup B) (h : A → B → D)
    (Q0 : TaskQueueGroup → B → Prop) (Q : TaskQueueGroup → D → Prop) g :
  wp (p ≫= f) Q0 g → (∀ s a o, Q0 s o → Q s (h a o)) → wp (a ← p; o ← f a; mret (h a o)) Q g.
Proof.
  unfold wp, mbind, M_bind. intros H HQ. destruct (p g) as [g1 [a|e|]]; [|done..].
  destruct (f a g1) as [g2 [o|e|]]; [by apply HQ|done..].
Qed.

Lemma run_event_spec e g :
  (∃ err, failure e g = Some err ∧ run_event e g = (g, Throw err)) ∨
  ∃ g' r, run_event e g = (g', Ok r) ∧ event_post e g g' r.
Proof.
  assert (Hwp : wp (run_event e) (λ g' r, event_post e g g' r) g →
    ∃ g' r, run_event e g = (g', Ok r) ∧ event_post e g g' r) by apply wp_ok.
  destruct e as [k t b|k t b|r t b|k c|k c ck| |k|k c|k on'|k| |fd b].
  - right. apply Hwp. cbn [run_event]. apply wp_bind. unfold push.
    eapply wp_push_result; [by apply (push_ok g k t b (EPush k t b)); left|]. intros g' ? [s|] H; exact H.
  - right. apply Hwp. cbn [run_event]. apply wp_bind. unfold push_timed.
    eapply wp_push_result; [by apply (push_ok g k t b (EPushTimed k t b)); right; left|]. intros g' ? [s|] H; exact H.
  - destruct (deref r g) as [q|] eqn:Ed; [right|left].
    + apply Hwp. cbn [run_event]. apply wp_bind. unfold push_wake.
      assert (Hq : q = get_or_new r.1 g) by (apply deref_Some in Ed as [_ E]; unfold get_or_new; by rewrite E).
      eapply wp_mono; [apply (push_body_ok g g r t b (EPushWake r t b)); try done|].
      * right; right. exists r.2. by destruct r.
      * by rewrite <-Hq.
      * intros g' [s|] H; exact H.
    + exists UndefinedBehaviour. cbn [failure]. rewrite Ed. split; [done|]. cbn [run_event].
      unfold push_wake, mbind, M_bind, push_body. by rewrite Ed.
  - destruct (complete_first_cases k c g) as [(t & -> & Hn & Hok)|Hc]; [left|right].
    + exists AssertionError. cbn [failure completes]. rewrite Hn. split; [done|]. cbn [run_event]. unfold pop_any, mbind, M_bind. by rewrite Hok.
    + by apply Hwp, pop_any_ok.
  - destruct (complete_first_cases ck c g) as [(t & -> & Hn & Hok)|Hc]; [left|right].
    + exists AssertionError. cbn [failure completes]. rewrite Hn. split; [done|]. cbn [run_event]. unfold pop_from, mbind, M_bind. by rewrite Hok.
    + by apply Hwp, pop_from_ok.
  - right. apply Hwp. cbn [run_event]. apply wp_bind, wp_bind, wp_pick.
    + intros i k _ [q Hq] Hp. apply wp_bind, wp_modify, wp_ret, wp_ret. unfold event_post.
      cbn [closed is_close]. split_and!; [|done|done|done]. intros j. unfold get_or_new, spec_queue, on. cbn.
      case_decide as Hj; [subst; by rewrite lookup_alter_eq, Hq|by rewrite lookup_alter_ne].
    + intros Hn. destruct (closed g) eqn:Ec; apply wp_ret, wp_ret; unfold event_post; cbn; by rewrite Ec.
  - right. apply Hwp. cbn [run_event]. apply wp_bind. unfold unassign_handler.
    apply wp_bind, wp_modify, wp_bind, wp_cleanup; [cbn; rewrite lookup_insert_eq; eauto|].
    intros g1 H1 (Hcl & _) _ Hb. apply wp_modify, wp_ret. unfold event_post. cbn. cbn in Hb.
    split_and!; [|done|done|by rewrite Hb].
    intros j. change (get_or_new j g1 = on k j (set_assigned_flag false) (get_or_new j g)).
    rewrite H1, get_or_new_insert. unfold on. by case_decide; subst.
  - right. apply Hwp. cbn [run_event]. apply wp_bind. destruct c as [t|]; [|apply wp_ret, wp_ret; by split_and!].
    apply wp_modify, wp_ret. unfold event_post. cbn. split_and!; [|done|done|done]. intros j.
    unfold get_or_new, on. cbn. case_decide as Hj; [subst; rewrite lookup_alter_eq|by rewrite lookup_alter_ne].
    destruct (queues g !! j); [done|]. unfold erase_in_progress, new_QueueInfo. cbn. f_equal. set_solver.
  - right. apply Hwp. cbn [run_event]. apply wp_bind. unfold wp at 1, set_active.
    destruct (closed g) eqn:Ec; [unfold event_post; cbn; by rewrite Ec|].
    match goal with |- match ?m g with _ => _ end => change (wp m (λ s a, wp (mret RUnit)
      (λ g' r, event_post (ESetActive k on') g g' r) s) g) end.
    apply wp_bind. unfold wp at 1. apply wp_bind. destruct on'.
    + apply wp_cleanup; [cbn; rewrite lookup_insert_eq; eauto|]. intros g1 H1 (Hcl & _) _ Hb.
      apply wp_modify, wp_ret. unfold event_post. cbn. rewrite Ec. cbn in Hcl, Hb.
      split_and!; [|done|congruence|by rewrite Hb].
      intros j. change (get_or_new j g1 = on k j (set_active_flag true) (get_or_new j g)).
      rewrite H1, get_or_new_insert. unfold on. by case_decide; subst.
    + apply wp_ret, wp_modify, wp_ret. unfold event_post. cbn. rewrite Ec. split_and!; [|done|done|done].
      intros j. unfold on. match goal with |- get_or_new j ?g2 = _ => change (get_or_new j g2) with
        (get_or_new j (set_queues (<[k := set_active_flag false (get_or_new k g)]>) g)) end.
      rewrite get_or_new_insert. by case_decide; subst.
  - right. apply Hwp. cbn [run_event]. apply wp_bind. unfold wp at 1, set_inactive_internal.
    destruct (closed g) eqn:Ec; [unfold event_post; cbn; by rewrite Ec|].
    apply wp_ret. unfold event_post. cbn [spec_queue closed set_queues is_close]. rewrite Ec.
    split_and!; [|done|done|done]. intros j. rewrite get_or_new_insert. unfold on. by case_decide; subst.
  - right. apply Hwp. cbn [run_event]. apply wp_bind, wp_bind, wp_modify, wp_modify, wp_ret.
    unfold event_post. cbn. split_and!; [|done|done|done]. intros j. unfold get_or_new. cbn.
    rewrite lookup_fmap. by destruct (queues g !! j).
  - right. apply Hwp. cbn [run_event]. apply wp_bind, wp_modify, wp_ret. by split_and!.
Qed.
(** ** Sequences of events *)

(** An invariant of the queues kept by every event holds after a sequence. *)
Lemma run_events_inv (I : TaskQueueGroup → Prop) es g :
  (∀ e g' g'' r, I g' → run_event e g' = (g'', Ok r) → event_post e g' g'' r → I g'') →
  I g → I (run_events es g).1.
Proof.
  intros Hstep. revert g. induction es as [|e es IH]; intros g Hg; [done|]. cbn.
  destruct (run_event_spec e g) as [(err & _ & Heq)|(g1 & r & Heq & Hpost)]; rewrite Heq.
  - specialize (IH g Hg). destruct (is_defined _); [|done]. by destruct (run_events es g).
  - specialize (IH g1 (Hstep e g g1 r Hg Heq Hpost)). by destruct (run_events es g1).
Qed.

(** The tasks pushed with success to a queue, and those handed out from it. *)
Definition accepted (k : string) (tr : list (event * res reply)) : list task :=
  omap (λ '(e, r), match e, r with
    | EPush key t _, Ok (RState (HAS_SPACE | LOW_SPACE))
    | EPushTimed key t _, Ok (RState (HAS_SPACE | LOW_SPACE))
    | EPushWake (key, _) t _, Ok (RState (HAS_SPACE | LOW_SPACE)) => if decide (key = k) then Some t else None
    | _, _ => None
    end) tr.
Definition handed (k : string) (tr : list (event * res reply)) : list task :=
  omap (λ '(_, r), match r with
    | Ok (RTask key t) => if decide (key = k) then Some t else None
    | _ => None
    end) tr.

Lemma queue_finish key k c q : queue (finish key k c q) = queue q.
Proof. destruct c; [|done]. cbn. unfold on. by case_decide. Qed.

Lemma queue_hand_out e r k q :
  (∀ t, r = RTask k t → head (queue q) = Some t) →
  queue q = handed k [(e, Ok r)] ++ queue (hand_out r k q).
Proof.
  intros H. destruct r as [| | | |key t|]; try done. cbn. unfold on. case_decide; [|done]. subst.
  specialize (H t eq_refl). cbn. destruct (queue q); [done|]. cbn in *. by simplify_eq.
Qed.

Lemma fifo_step e g g' r k :
  event_post e g g' r →
  queue (get_or_new k g) ++ accepted k [(e, Ok r)] = handed k [(e, Ok r)] ++ queue (get_or_new k g').
Proof.
  intros (Hq & Hr & _). rewrite Hq.
  destruct e as [key t b|key t b|[key n] t b|key c|key c ck| |key|key c|key b|key| |fd b]; cbn in Hr; cbn [spec_queue].
  1,2,3: destruct (closed g); [subst; cbn; by rewrite app_nil_r|];
    destruct (_ <=? _)%N; [subst; cbn; by rewrite app_nil_r|]; subst;
    destruct (_ <? _)%N; cbn; unfold on; case_decide; subst; cbn; by rewrite ?app_nil_r.
  - rewrite <-(queue_finish key k c (get_or_new k g)). cbn [accepted omap list_omap]. rewrite app_nil_r.
    apply queue_hand_out. intros t ->. apply Hr.
  - rewrite <-(queue_finish ck k c (get_or_new k g)). cbn [accepted omap list_omap]. rewrite app_nil_r.
    apply queue_hand_out. intros t ->. destruct Hr as (-> & ? & _). done.
  - cbn. rewrite app_nil_r. destruct r; try done. unfold on. by case_decide.
  - subst. cbn. rewrite app_nil_r. unfold on. by case_decide.
  - subst. cbn. by rewrite app_nil_r, queue_finish.
  - subst. cbn. rewrite app_nil_r. destruct (closed g); [done|]. unfold on. by case_decide.
  - subst. cbn. rewrite app_nil_r. destruct (closed g); [done|]. unfold on. by case_decide.
  - subst. cbn. by rewrite app_nil_r.
  - subst. cbn. by rewrite app_nil_r.
Qed.

Lemma trace_cons k x tr :
  accepted k (x :: tr) = accepted k [x] ++ accepted k tr ∧ handed k (x :: tr) = handed k [x] ++ handed k tr.
Proof. unfold accepted, handed. by rewrite <-!omap_app. Qed.

(** C4: first in, first out.  However the critical sections of the threads
    interleave -- waiting pushes waking up on the entry they hold included -- and up to
    the first wake-up, if any, whose entry has been erased (its behaviour is undefined,
    see [timed_push_uses_erased]), the tasks accepted into a queue are, in order, those
    handed out from it followed by those still in it: none is lost, duplicated,
    reordered or moved to another queue. *)
Theorem queue_fifo es k :
  let '(g, tr) := run_events es new_group in
  accepted k tr = handed k tr ++ queue (get_or_new k g).
Proof.
  assert (H : ∀ g, let '(g', tr) := run_events es g in
    queue (get_or_new k g) ++ accepted k tr = handed k tr ++ queue (get_or_new k g')).
  2:{ specialize (H new_group). by destruct (run_events es new_group). }
  induction es as [|e es IH]; intros g; cbn; [by rewrite app_nil_r|].
  destruct (run_event_spec e g) as [(err & _ & Heq)|(g1 & r & Heq & Hpost)]; rewrite Heq.
  - assert (Hnone : accepted k [(e, Throw err)] = [] ∧ handed k [(e, Throw err)] = [] :> list task)
      by (by destruct e as [| |[]| | | | | | | | |]).
    destruct Hnone as [Ha Hh]. destruct (is_defined _); [|by rewrite Ha, Hh, app_nil_r].
    specialize (IH g). destruct (run_events es g) as [g2 tr].
    destruct (trace_cons k (e, Throw err) tr) as [-> ->]. by rewrite Ha, Hh.
  - cbn [is_defined]. specialize (IH g1). destruct (run_events es g1) as [g2 tr].
    destruct (trace_cons k (e, Ok r) tr) as [-> ->].
    by rewrite app_assoc, (fifo_step e g g1 r k Hpost), <-!app_assoc, IH.
Qed.


(** *** Exclusion *)

(** A running task that does not allow parallel execution is the only one of its
    queue. *)
Definition exclusive (q : QueueInfo) : Prop :=
  ∀ t, t ∈ in_progress q → allow_parallel t = false → in_progress q = {[t]}.

Lemma exclusive_erase t q : exclusive q → exclusive (erase_in_progress t q).
Proof. intros H u Hu Hp. cbn in *. specialize (H u). set_solver. Qed.

Lemma exclusive_finish key k c q : exclusive q → exclusive (finish key k c q).
Proof.
  intros H. destruct c as [t|]; [|done]. cbn. unfold on. case_decide; [|done]. by apply exclusive_erase.
Qed.

Lemma exclusive_dequeue t q :
  exclusive q → head (queue q) = Some t → check_parallel_allowed allow_parallel q = true →
  exclusive (dequeue t q).
Proof.
  intros Hex Ht Hc u Hu Hp. unfold check_parallel_allowed in Hc. rewrite Ht in Hc. cbn in Hu |- *.
  destruct (set_begin (in_progress q)) as [b|] eqn:Eb.
  - destruct (allow_parallel b) eqn:Eab; [|done]. cbn in Hc.
    destruct (allow_parallel t) eqn:Eat; [|done]. exfalso.
    apply elem_of_union in Hu as [Hu%elem_of_singleton|Hin]; [congruence|].
    pose proof (Hex u Hin Hp) as Hs. apply set_begin_elem in Eb. rewrite Hs in Eb.
    apply elem_of_singleton in Eb. congruence.
  - apply set_begin_empty in Eb. set_solver.
Qed.

(** The states reached by sequences of events, of defined behaviour, in which no
    thread pops from a chosen queue once the group is closed. *)
Inductive reachable_group : TaskQueueGroup → Prop :=
| group_new : reachable_group new_group
| group_step g e :
    reachable_group g → (closed g = true → match e with EPopFrom _ _ _ => False | _ => True end) →
    is_defined (run_event e g).2 = true →
    reachable_group (run_event e g).1.

Lemma pickable_allowed q : pickable allow_parallel q = true → check_parallel_allowed allow_parallel q = true.
Proof. unfold pickable. rewrite andb_true_iff. by intros [_ ?]. Qed.

Lemma exclusive_step e g g' r :
  event_post e g g' r → (closed g = true → match e with EPopFrom _ _ _ => False | _ => True end) →
  (∀ k, exclusive (get_or_new k g)) → ∀ k, exclusive (get_or_new k g').
Proof.
  intros (Hq & Hr & _) Hopen Hex k. rewrite Hq. specialize (Hex k).
  destruct e as [key t b|key t b|[key n] t b|key c|key c ck| |key|key c|key b|key| |fd b]; cbn in Hr; cbn [spec_queue].
  1,2,3: destruct r as [| |[]| | |]; try done; unfold on; case_decide; done.
  - destruct r as [| | | |k' t|]; try by apply exclusive_finish. cbn. unfold on.
    case_decide; [subst|by apply exclusive_finish]. destruct Hr as [Hp Ht].
    apply exclusive_dequeue; [by apply exclusive_finish|done|by apply pickable_allowed].
  - destruct r as [| | | |k' t|]; try by apply exclusive_finish. cbn. unfold on.
    case_decide; [subst|by apply exclusive_finish]. destruct Hr as (-> & Ht & [Hc|[_ Hp]]).
    + by destruct (Hopen Hc).
    + apply exclusive_dequeue; [by apply exclusive_finish|done..].
  - destruct r; try done. unfold on. by case_decide.
  - unfold on. by case_decide.
  - by apply exclusive_finish.
  - destruct (closed g); [done|]. unfold on. by case_decide.
  - destruct (closed g); [done|]. unfold on. by case_decide.
  - done.
  - done.
Qed.

(** C11: exclusion.  In a state that defined behaviour leads to, and as long as no thread
    pops from a chosen queue after the group is closed ([closed_pop_from_not_exclusive]), a
    task that does not allow parallel execution is, while in progress, the only task of its
    queue in progress. *)
Theorem tasks_exclusive g k :
  reachable_group g → exclusive (get_or_new k g).
Proof.
  intros H. revert k. induction H as [|g e Hg IH Hopen _].
  - intros k t Ht. unfold get_or_new in Ht. cbn in Ht. by apply elem_of_empty in Ht.
  - destruct (run_event_spec e g) as [(err & _ & ->)|(g1 & r & -> & Hpost)]; [done|].
    by apply (exclusive_step e g g1 r).
Qed.

(** *** Bounds *)

(** C37: in every state that defined behaviour leads to, no queue holds more tasks than
    the larger of the two limits given to the group. *)
Theorem queue_bounded es k :
  (size_of (get_or_new k (run_events es new_group).1) <= N.max throttle_size max_size)%N.
Proof.
  apply (run_events_inv (λ g, ∀ k, size_of (get_or_new k g) <= N.max throttle_size max_size)%N).
  2:{ intros j. unfold get_or_new, size_of. apply N.le_0_l. }
  intros e g g' r Hg _ (Hq & Hr & _) j. rewrite Hq. specialize (Hg j). unfold size_of in *.
  assert (Hfin : ∀ key c, length (queue (finish key j c (get_or_new j g))) = length (queue (get_or_new j g)))
    by (intros; by rewrite queue_finish).
  assert (Hout : ∀ q, length (queue (hand_out r j q)) ≤ length (queue q)).
  { intros q. destruct r as [| | | |key t|]; try done. cbn. unfold on. case_decide; [|done].
    cbn. destruct (queue q); cbn; lia. }
  destruct e as [key t b|key t b|[key n] t b|key c|key c ck| |key|key c|key b|key| |fd b]; cbn in Hr; cbn [spec_queue].
  1,2,3: destruct (closed g); [by subst|];
    destruct (N.leb_spec (if b then throttle_size else max_size) (size_of (get_or_new key g))) as [Hl|Hl];
      [by subst|]; subst; unfold size_of in Hl; destruct (_ <? _)%N; unfold on; case_decide; subst; try done;
      cbn; rewrite length_app; cbn; destruct b; lia.
  - specialize (Hout (finish key j c (get_or_new j g))). rewrite Hfin in Hout. lia.
  - specialize (Hout (finish ck j c (get_or_new j g))). rewrite Hfin in Hout. lia.
  - destruct r; try done. unfold on. by case_decide.
  - unfold on. by case_decide.
  - by rewrite Hfin.
  - destruct (closed g); [done|]. unfold on. by case_decide.
  - destruct (closed g); [done|]. unfold on. by case_decide.
  - done.
  - done.
Qed.

(** *** Closing *)

Definition is_push (e : event) : bool :=
  match e with EPush _ _ _ | EPushTimed _ _ _ | EPushWake _ _ _ => true | _ => false end.

Lemma close_step e g g' r :
  event_post e g g' r → closed g = true → (∀ k, active (get_or_new k g) = true) →
  closed g' = true ∧ (∀ k, active (get_or_new k g') = true) ∧
  r ≠ RWait ∧ (is_push e = true → r = RState CLOSED).
Proof.
  intros (Hq & Hr & Hcl & _) Hc Hact. rewrite Hc in *. split_and!.
  - rewrite Hcl. apply orb_true_r.
  - intros k. rewrite Hq. specialize (Hact k).
    assert (Hfin : ∀ key c, active (finish key k c (get_or_new k g)) = true).
    { intros key [t|]; [|done]. cbn. unfold on. by case_decide. }
    assert (Hout : ∀ q, active q = true → active (hand_out r k q) = true).
    { intros q. destruct r; try done. cbn. unfold on. by case_decide. }
    destruct e as [key t b|key t b|[key n] t b|key c|key c ck| |key|key c|key b|key| |fd b]; cbn [spec_queue]; auto.
    1,2,3: destruct r as [| |[]| | |]; try done; unfold on; by case_decide.
    + destruct r; try done. unfold on. by case_decide.
    + unfold on. by case_decide.
  - intros ->. destruct e as [| |[? ?]| | | | | | | | |]; cbn in Hr; rewrite ?Hc in Hr; try done; by destruct Hr.
  - destruct e as [| |[? ?]| | | | | | | | |]; try done; cbn in Hr; by rewrite Hc in Hr.
Qed.

(** Closing is final.  After [close], whatever the threads do, the group stays
    closed with every queue active, no call waits any more, and every push is
    refused with [CLOSED]. *)
Theorem close_final es g :
  let '(g', tr) := run_events (EClose :: es) g in
  closed g' = true ∧ (∀ k, active (get_or_new k g') = true) ∧
  ∀ e r, (e, Ok r) ∈ tr → r ≠ RWait ∧ (is_push e = true → r = RState CLOSED).
Proof.
  assert (H : ∀ es g, closed g = true → (∀ k, active (get_or_new k g) = true) →
    let '(g', tr) := run_events es g in
    closed g' = true ∧ (∀ k, active (get_or_new k g') = true) ∧
    ∀ e r, (e, Ok r) ∈ tr → r ≠ RWait ∧ (is_push e = true → r = RState CLOSED)).
  { clear es g. induction es as [|e es IH]; intros g Hc Hact; cbn.
    { split_and!; [done..|]. by intros e r ?%elem_of_nil. }
    destruct (run_event_spec e g) as [(err & _ & Heq)|(g1 & r & Heq & Hpost)]; rewrite Heq.
    - destruct (is_defined _).
      2:{ split_and!; [done..|]. by intros e' r' [?|?%elem_of_nil]%elem_of_cons. }
      specialize (IH g Hc Hact). destruct (run_events es g) as [g2 tr].
      destruct IH as (? & ? & IH). split_and!; [done..|]. intros e' r' [?|?]%elem_of_cons; [done|eauto].
    - destruct (close_step e g g1 r Hpost Hc Hact) as (Hc1 & Hact1 & Hr).
      specialize (IH g1 Hc1 Hact1). destruct (run_events es g1) as [g2 tr].
      destruct IH as (? & ? & IH). split_and!; [done..|].
      intros e' r' [?|?]%elem_of_cons; [by simplify_eq|eauto]. }
  cbn. destruct (run_event_spec EClose g) as [(? & [=] & _)|(g1 & r & Heq & Hq & Hr & Hcl & _)].
  cbn in Heq. rewrite Heq. cbn in Hr, Hcl.
  assert (Hact1 : ∀ k, active (get_or_new k g1) = true) by (intros k; by rewrite Hq).
  specialize (H es g1 Hcl Hact1). destruct (run_events es g1) as [g2 tr].
  destruct H as (? & ? & H). split_and!; [done..|].
  intros e r' [Heq'|?]%elem_of_cons; [|eauto]. simplify_eq. by cbn.
Qed.

(** *** Turns *)

(** [y] comes after [x] when the keys are visited starting after [last]. *)
Definition visited_before (last x y : string) : Prop :=
  (str_lt last x ∧ (str_lt last y → str_lt x y)) ∨
  (¬ str_lt last x ∧ ¬ str_lt last y ∧ str_lt x y).

Lemma visit_order_sorted last keys :
  StronglySorted str_lt keys → StronglySorted (visited_before last) (visit_order last keys).
Proof.
  intros Hs. unfold visit_order. set (below := λ k, bool_decide (str_lt k (last +:+ sing (chr 0)))).
  assert (Hb : ∀ k, below k = true ↔ ¬ str_lt last k).
  { intros k. unfold below. rewrite bool_decide_eq_true, str_lt_succ. tauto. }
  assert (Hlow : Forall (λ k, below k = true) (take_while below keys)).
  { clear Hs. induction keys as [|k keys IH]; cbn; [done|]. destruct (below k) eqn:E; by constructor. }
  assert (Hhigh : Forall (λ k, below k = false) (drop_while below keys)).
  { clear Hlow. induction keys as [|k keys IH]; cbn; [done|]. destruct (below k) eqn:E.
    - apply IH. by apply StronglySorted_inv in Hs as [? _].
    - constructor; [done|]. apply StronglySorted_inv in Hs as [_ Hall].
      eapply Forall_impl; [exact Hall|]. intros j Hkj. apply not_true_iff_false. rewrite Hb.
      apply not_true_iff_false in E. rewrite Hb in E. intros Hj. apply Hj.
      destruct (decide (str_lt last k)); [by etrans|done]. }
  rewrite <-(take_drop_while below keys) in Hs.
  pose proof (StronglySorted_app_1_l str_lt _ _ Hs) as H1.
  pose proof (StronglySorted_app_1_r str_lt _ _ Hs) as H2.
  rewrite Forall_forall in Hlow, Hhigh.
  assert (Hsub : ∀ (R : relation string) l, StronglySorted str_lt l →
    (∀ x y, x ∈ l → y ∈ l → str_lt x y → R x y) → StronglySorted R l).
  { intros R l Hl. induction Hl as [|x l Hl IH Hall]; intros HR; constructor.
    - apply IH. intros; apply HR; set_solver.
    - rewrite Forall_forall in Hall |- *. intros y Hy. apply HR; [set_solver..|auto]. }
  apply StronglySorted_app. split_and!.
  - intros x y Hx%Hhigh Hy%Hlow. left. apply not_true_iff_false in Hx. rewrite Hb in Hx, Hy.
    destruct (decide (str_lt last x)); [|done]. split; [done|]. by intros ?%Hy.
  - apply Hsub; [done|]. intros x y Hx%Hhigh _ Hxy. left. apply not_true_iff_false in Hx. rewrite Hb in Hx.
    destruct (decide (str_lt last x)); [|done]. done.
  - apply Hsub; [done|]. intros x y Hx%Hlow Hy%Hlow Hxy. right. rewrite Hb in Hx, Hy. done.
Qed.

Lemma pick_first g i k j :
  list_find (λ k, default false (pickable allow_parallel <$> queues g !! k) = true)
    (visit_order (last_pop_from g) (sorted_keys (queues g))) = Some (i, k) →
  pickable allow_parallel (get_or_new j g) = true → j ≠ k →
  visited_before (last_pop_from g) k j.
Proof.
  intros Hf Hj Hne. apply list_find_Some in Hf as (Hi & _ & Hbefore).
  assert (Hin : j ∈ visit_order (last_pop_from g) (sorted_keys (queues g))).
  { rewrite visit_order_perm. apply elem_of_sorted_keys.
    destruct (queues g !! j) eqn:E; [eauto|]. by rewrite pickable_absent in Hj. }
  apply list_elem_of_lookup in Hin as [n Hn].
  destruct (Nat.lt_trichotomy i n) as [Hlt|[->|Hgt]].
  - eapply (sorted_lookup_lt (visited_before (last_pop_from g))); [|exact Hi|exact Hn|exact Hlt].
    apply visit_order_sorted, sorted_keys_strict.
  - by simplify_eq.
  - exfalso. apply (Hbefore n j Hn Hgt). by rewrite default_pickable.
Qed.

(** Turns.  The task [pop_any] hands out comes from the first queue, in the
    circular order of the keys after the queue last served, that is active, not
    assigned, not empty and whose next task may run; that queue becomes the last
    one served. *)
Theorem pop_any_round_robin g g' key k t :
  run_event (EPopAny key None) g = (g', Ok (RTask k t)) →
  pickable allow_parallel (get_or_new k g) = true ∧ head (queue (get_or_new k g)) = Some t ∧
  last_pop_from g' = k ∧
  ∀ j, pickable allow_parallel (get_or_new j g) = true → j ≠ k →
       visited_before (last_pop_from g) k j.
Proof.
  intros Hrun.
  assert (Hwp : wp (run_event (EPopAny key None)) (λ g' r, ∀ k t, r = RTask k t →
    pickable allow_parallel (get_or_new k g) = true ∧ head (queue (get_or_new k g)) = Some t ∧
    last_pop_from g' = k ∧
    ∀ j, pickable allow_parallel (get_or_new j g) = true → j ≠ k →
         visited_before (last_pop_from g) k j) g).
  - cbn [run_event]. apply wp_bind, wp_bind, wp_ret, wp_bind, wp_pick.
    + intros i k' Hf _ Hp. destruct (pickable_head _ Hp) as [t' Ht].
      apply wp_bind. eapply wp_pop_front; [exact Ht|]. intros g2 _ _ Hlast _.
      apply wp_ret, wp_ret. intros ?? [= <- <-]. split_and!; [done..|].
      intros j. by apply (pick_first g i).
    + intros _. destruct (closed g); apply wp_ret, wp_ret; by intros.
  - unfold wp in Hwp. rewrite Hrun in Hwp. by apply Hwp.
Qed.

(** *** Wake-ups *)

(** What the threads waiting on the group wait for. *)
Definition ready (q : QueueInfo) : bool :=
  active q && negb (bool_decide (queue q = [])) && check_parallel_allowed allow_parallel q.

(** No lost wake-up.  If an event that reports no completed task does not
    broadcast, then it has not made any queue ready for a thread waiting in
    [pop_any], [assign_handler] or [pop_from], has not freed space for one waiting
    in [push], and has not closed the group. *)
Theorem no_lost_wakeup e g g' r :
  completes e = None → (∀ key t, e ≠ ECompleted key (Some t)) →
  run_event e g = (g', Ok r) → broadcasts g' = broadcasts g →
  closed g' = closed g ∧
  ∀ k, (pickable allow_parallel (get_or_new k g') = true → pickable allow_parallel (get_or_new k g) = true) ∧
       (ready (get_or_new k g') = true → ready (get_or_new k g) = true) ∧
       (size_of (get_or_new k g) <= size_of (get_or_new k g'))%N.
Proof.
  intros Hcomp Hnc Hrun Hb.
  destruct (run_event_spec e g) as [(? & _ & Heq)|(g1 & r1 & Heq & Hq & Hr & Hcl & Hbr)];
    rewrite Hrun in Heq; simplify_eq.
  assert (Hw : wakes e r1 (closed g) = false).
  { destruct (wakes e r1 (closed g)); [lia|done]. }
  clear Hb Hbr Hrun. split.
  { rewrite Hcl. destruct e; try done. by destruct r1. }
  intros k. rewrite Hq. clear Hq Hcl.
  destruct e as [key t b|key t b|[key n] t b|key c|key c ck| |key|key c|key b|key| |fd b]; cbn in Hr, Hw; cbn [spec_queue].
  1,2,3: destruct r1 as [| |[]| | |]; done.
  - destruct c; [done|]. destruct r1; done.
  - destruct c; [done|]. destruct r1; done.
  - destruct r1; try done. unfold on. case_decide; [|done]. subst.
    unfold pickable, ready, set_assigned_flag, check_parallel_allowed. cbn.
    rewrite andb_false_r. done.
  - by destruct r1.
  - destruct c as [t|]; [by destruct (Hnc key t)|done].
  - destruct r1; destruct (closed g); done.
  - destruct (closed g); [done|]. unfold on. case_decide; [|done]. subst. cbn. done.
  - by destruct r1.
  - done.
Qed.

End events.

(** ** Examples *)

(** Tasks below 10 must run alone. *)
Definition parallel_from_10 (t : task) : bool := (10 <=? t)%N.

Definition example_group : TaskQueueGroup :=
  (run_event parallel_from_10 2 3 (EPush "b" 11 true)
    (run_event parallel_from_10 2 3 (EPush "a" 1 true) new_group).1).1.

Lemma tasks_exclusive_witness :
  reachable_group parallel_from_10 2 3 (run_event parallel_from_10 2 3 (EPopAny "" None) example_group).1 ∧
  exclusive parallel_from_10
    (get_or_new "a" (run_event parallel_from_10 2 3 (EPopAny "" None) example_group).1).
Proof.
  assert (H : reachable_group parallel_from_10 2 3
    (run_event parallel_from_10 2 3 (EPopAny "" None) example_group).1).
  { do 3 (apply group_step; [|done|vm_compute; reflexivity]). apply group_new. }
  exact (conj H (tasks_exclusive parallel_from_10 2 3 _ "a" H)).
Defined.

Lemma pop_any_round_robin_witness :
  let g' := (run_event parallel_from_10 2 3 (EPopAny "" None) example_group).1 in
  run_event parallel_from_10 2 3 (EPopAny "" None) example_group = (g', Ok (RTask "a" 1)) ∧
  (pickable parallel_from_10 (get_or_new "a" example_group) = true ∧
   head (queue (get_or_new "a" example_group)) = Some 1%N ∧ last_pop_from g' = "a" ∧
   ∀ j, pickable parallel_from_10 (get_or_new j example_group) = true → j ≠ "a" →
        visited_before (last_pop_from example_group) "a" j).
Proof.
  intros g'. assert (H : run_event parallel_from_10 2 3 (EPopAny "" None) example_group = (g', Ok (RTask "a" 1)))
    by (vm_compute; reflexivity).
  exact (conj H (pop_any_round_robin parallel_from_10 2 3 example_group g' "" "a" 1 H)).
Defined.

Lemma no_lost_wakeup_witness :
  let g' := (run_event parallel_from_10 2 3 (ESetInactive "a") example_group).1 in
  completes (ESetInactive "a") = None ∧
  run_event parallel_from_10 2 3 (ESetInactive "a") example_group = (g', Ok RUnit) ∧
  closed g' = closed example_group.
Proof.
  intros g'. split; [reflexivity|].
  assert (H : run_event parallel_from_10 2 3 (ESetInactive "a") example_group = (g', Ok RUnit))
    by (vm_compute; reflexivity).
  exact (conj H (proj1 (no_lost_wakeup parallel_from_10 2 3 (ESetInactive "a") example_group g' RUnit
    eq_refl (λ key t, ltac:(discriminate)) H eq_refl))).
Defined.

(** The exclusion does not survive [close].  [pop_from] leaves its loop when the
    group is closed without asking [check_parallel_allowed], so it hands out the
    next task of a queue while a task that does not allow parallel execution is
    still in progress there. *)
Theorem closed_pop_from_not_exclusive :
  let g := (run_events parallel_from_10 2 3
    [EPush "c" 1 false; EPush "c" 2 false; EPopFrom "c" None "c"; EClose; EPopFrom "c" None "c"]
    new_group).1 in
  in_progress (get_or_new "c" g) = {[1; 2]}%N ∧ ¬ exclusive parallel_from_10 (get_or_new "c" g).
Proof.
  intros g. assert (H : in_progress (get_or_new "c" g) = {[1; 2]}%N) by (vm_compute; reflexivity).
  split; [done|]. intros Hex. specialize (Hex 1%N). rewrite H in Hex.
  assert (Heq : ({[1; 2]} : gset N)%N = {[1%N]}) by (apply Hex; [set_solver|reflexivity]).
  assert (Hin : (2 : N)%N ∈ ({[1%N]} : gset N)) by (rewrite <-Heq; set_solver). set_solver.
Qed.

(** A fault.  [push] takes a reference to the entry of its queue and waits with it.
    While the thread has been woken but has not got the lock back, the queue can drain,
    its last task be completed and its entry be erased; the thread then goes on with the
    erased entry -- also when another push has made a new entry with the same key.
    [pop_from] guards against this: "Redo the find even if it succeeded before, because
    the queue may have been removed from the list during the wait." *)
Theorem timed_push_uses_erased :
  (run_events parallel_from_10 1 1
    [EPush "c" 11 false; EPushTimed "c" 12 false; EPopAny "" None; EPopAny "c" (Some 11%N);
     EPush "c" 13 false; EPushWake ("c", 0) 12 false] new_group).2 =
    [(EPush "c" 11 false, Ok (RState LOW_SPACE)); (EPushTimed "c" 12 false, Ok RWait);
     (EPopAny "" None, Ok (RTask "c" 11)); (EPopAny "c" (Some 11%N), Ok RWait);
     (EPush "c" 13 false, Ok (RState LOW_SPACE)); (EPushWake ("c", 0) 12 false, throw UndefinedBehaviour)].
Proof. vm_compute. reflexivity. Qed.

(** A wake-up in time finds its entry and pushes its task behind the others. *)
Example timed_push_in_time :
  (run_events parallel_from_10 1 1
    [EPush "c" 11 false; EPushTimed "c" 12 false; EPopAny "" None; EPushWake ("c", 0) 12 false;
     EPopAny "" None] new_group).2 =
    [(EPush "c" 11 false, Ok (RState LOW_SPACE)); (EPushTimed "c" 12 false, Ok RWait);
     (EPopAny "" None, Ok (RTask "c" 11)); (EPushWake ("c", 0) 12 false, Ok (RState LOW_SPACE));
     (EPopAny "" None, Ok (RTask "c" 12))].
Proof. vm_compute. reflexivity. Qed.
