(* ===== verification/ThreadPool.v ===== *)
(** * Threads and pools of threads

    src/utils/threading.h and threading.cc (the class [Thread]) and
    src/server/thread_pool.h and thread_pool.cc: which threads of the task manager run,
    which have ended, and what the status of the server says of them.

    A thread is the address of its object in a store.  The functions of the operating
    system are arguments: what [pthread_create] and [pthread_join] return. *)

From S2P Require Import Prelude Json.

Abbreviation thread_ptr := N.

(** ** A thread *)

(** [made] tells whether the member [thread] was set by [pthread_create]. *)
Record Thread := mkThread { made : bool; started : bool; joined : bool; stop_requested : bool; wakes : nat }.

Definition new_Thread : Thread := mkThread false false false false 0.

(** [start], with what [pthread_create] returns: zero or the number of an error, which
    is looked for as -1. *)
Definition Thread_start (created : Z) : M Thread bool := λ t,
  if started t then (t, Ok false)
  else (mkThread (created =? 0)%Z true (joined t) (stop_requested t) (wakes t), Ok (negb (created =? -1)%Z)).

Definition Thread_stop : M Thread () := λ t,
  if negb (started t) then (t, Ok ())
  else if stop_requested t then (t, Ok ())
  else (mkThread (made t) (started t) (joined t) true (S (wakes t)), Ok ()).

Definition Thread_join (join_result : Z) : M Thread () := λ t,
  if negb (started t) || joined t then (t, Ok ())
  else (mkThread (made t) (started t) true (stop_requested t) (wakes t),
        if negb (made t) then throw UndefinedBehaviour
        else if (join_result =? 0)%Z then Ok () else throw (ThreadError "Can't join thread")).

Definition Thread_destroy (join_result : Z) : M Thread () := Thread_stop ;; Thread_join join_result.

(** ** The pool *)

Record ThreadPool := mkPool {
  objects : gmap thread_ptr Thread;
  threads : gmap thread_ptr bool;
  running : N;
  waiting_for_join : N;
}.

Definition new_ThreadPool : ThreadPool := mkPool ∅ ∅ 0 0.

Definition set_object (p : thread_ptr) (t : Thread) (s : ThreadPool) : ThreadPool :=
  mkPool (<[p := t]> (objects s)) (threads s) (running s) (waiting_for_join s).
Definition set_threads (m : gmap thread_ptr bool) (s : ThreadPool) : ThreadPool :=
  mkPool (objects s) m (running s) (waiting_for_join s).
Definition set_counts (r w : N) (s : ThreadPool) : ThreadPool := mkPool (objects s) (threads s) r w.

(** A method of a thread of the store. *)
Definition on_thread {A} (p : thread_ptr) (m : M Thread A) : M ThreadPool A := λ s,
  match objects s !! p with
  | None => (s, throw UndefinedBehaviour)
  | Some t => let '(t, r) := m t in (set_object p t s, r)
  end.

(** [delete thread]. *)
Definition delete_thread (p : thread_ptr) (join_result : Z) : M ThreadPool () :=
  on_thread p (Thread_destroy join_result) ;;
  modifyM (λ s, mkPool (delete p (objects s)) (threads s) (running s) (waiting_for_join s)).

Definition ThreadPool_add_thread (p : thread_ptr) (created join_result : Z) : M ThreadPool () :=
  modifyM (λ s, set_threads (<[p := true]> (threads s)) s) ;;
  ok ← on_thread p (Thread_start created);
  if negb ok then
    modifyM (λ s, set_threads (delete p (threads s)) s) ;; delete_thread p join_result
  else modifyM (λ s, set_counts (wrap32 (running s + 1)) (waiting_for_join s) s).

(** [--running] of an unsigned 32-bit number. *)
Definition dec32 (n : N) : N := wrap32 (n + (2 ^ 32 - 1)).

Definition ThreadPool_thread_finished (p : thread_ptr) : M ThreadPool () := modifyM (λ s,
  match threads s !! p with
  | Some _ => set_counts (dec32 (running s)) (wrap32 (waiting_for_join s + 1)) (set_threads (<[p := false]> (threads s)) s)
  | None => s
  end).

(** Iterating over the map visits the threads in the order of their addresses. *)
Definition ptr_le (a b : thread_ptr * bool) : Prop := (a.1 <= b.1)%N.
#[export] Instance ptr_le_dec a b : Decision (ptr_le a b).
Proof. unfold ptr_le. apply _. Defined.
Definition pool_threads (s : ThreadPool) : list (thread_ptr * bool) := merge_sort ptr_le (map_to_list (threads s)).

Definition ThreadPool_stop : M ThreadPool () :=
  s ← getM;
  for_each (pool_threads s) (λ '(p, runs), if runs : bool then on_thread p Thread_stop else mret ()).

Definition ThreadPool_join (join_result : thread_ptr → Z) : M ThreadPool () :=
  s ← getM;
  for_each (pool_threads s) (λ '(p, _), on_thread p (Thread_join (join_result p))).

Definition ThreadPool_destroy (join_result : thread_ptr → Z) : M ThreadPool () :=
  s ← getM;
  for_each (pool_threads s) (λ '(p, _), on_thread p Thread_stop) ;;
  s ← getM;
  for_each (pool_threads s) (λ '(p, _), on_thread p (Thread_join (join_result p))) ;;
  s ← getM;
  for_each (pool_threads s) (λ '(p, _), delete_thread p (join_result p)).

Definition ThreadPool_get_status (s : ThreadPool) : json :=
  json_set (json_set (json_set (JObj [])
    "size" (JUInt (N.of_nat (size (threads s)))))
    "running" (JUInt (running s)))
    "waiting_for_join" (JUInt (waiting_for_join s)).

(** ** What the pool knows *)

(** The threads marked as running, and those marked as ended. *)
Definition marked (b : bool) (m : gmap thread_ptr bool) : nat := size (filter (λ e : thread_ptr * bool, e.2 = b) m).

Definition live (t : Thread) : Prop := made t = true ∧ started t = true.

(** The counts of the status are those of the marks; the threads of the pool exist and
    were made. *)
Record pool_ok (s : ThreadPool) : Prop := {
  pool_running : running s = N.of_nat (marked true (threads s));
  pool_waiting : waiting_for_join s = N.of_nat (marked false (threads s));
  pool_objects : ∀ p, is_Some (threads s !! p) → ∃ t, objects s !! p = Some t ∧ live t;
}.

Lemma marked_insert b b' p m : m !! p = None → marked b (<[p := b']> m) = (if decide (b' = b) then 1 else 0) + marked b m.
Proof.
  intros Hp. unfold marked. case_decide.
  - rewrite map_filter_insert_True by done. apply map_size_insert_None. apply map_lookup_filter_None. auto.
  - rewrite map_filter_insert_False by done. by rewrite delete_id.
Qed.

Lemma marked_total m : marked true m + marked false m = size m.
Proof.
  induction m as [|p b m Hp IH] using map_ind; [done|]. rewrite !marked_insert, map_size_insert_None by done.
  destruct b; repeat case_decide; try done; lia.
Qed.

Lemma marked_update b b' p (m : gmap thread_ptr bool) : m !! p = Some (negb b') →
  marked b (<[p := b']> m) + (if decide (negb b' = b) then 1 else 0) = (if decide (b' = b) then 1 else 0) + marked b m.
Proof.
  intros Hp. pose proof (lookup_delete_eq m p) as H0. assert (E : m = <[p := negb b']> (delete p m)) by (symmetry; by apply insert_delete_id).
  revert H0 E. generalize (delete p m). intros m0 H0 ->. rewrite insert_insert_eq, !marked_insert by done. destruct b, b'; repeat case_decide; try done; lia.
Qed.

(** A method run on threads of the pool changes no mark. *)
Lemma on_threads_ok (f : thread_ptr * bool → M ThreadPool ()) l : ∀ s, pool_ok s →
  (∀ e s, e ∈ l → pool_ok s → is_Some (threads s !! e.1) →
    ∃ s', f e s = (s', Ok ()) ∧ pool_ok s' ∧ threads s' = threads s) →
  (∀ e, e ∈ l → is_Some (threads s !! e.1)) →
  ∃ s', for_each l f s = (s', Ok ()) ∧ pool_ok s' ∧ threads s' = threads s.
Proof.
  induction l as [|e l IH]; intros s Hs Hf Hl; cbn [for_each]; [by exists s|]. unfold mbind, M_bind.
  destruct (Hf e s) as (s1 & E & Hs1 & Ht1); [set_solver|done|apply Hl; set_solver|]. rewrite E.
  destruct (IH s1) as (s2 & E2 & Hs2 & Ht2); [done| |rewrite Ht1; set_solver|].
  - intros e' s' He. apply Hf. set_solver.
  - exists s2. split_and!; [done..|congruence].
Qed.

Lemma pool_threads_in s e : e ∈ pool_threads s → threads s !! e.1 = Some e.2.
Proof. unfold pool_threads. rewrite merge_sort_Permutation. destruct e. apply elem_of_map_to_list. Qed.

Lemma on_thread_ok (m : M Thread ()) p s : pool_ok s → is_Some (threads s !! p) →
  (∀ t, live t → ∃ t', m t = (t', Ok ()) ∧ live t') →
  ∃ s', on_thread p m s = (s', Ok ()) ∧ pool_ok s' ∧ threads s' = threads s.
Proof.
  intros [H1 H2 H3] Hp Hm. destruct (H3 p Hp) as (t & Ht & Hl). destruct (Hm t Hl) as (t' & E & Hl').
  unfold on_thread. rewrite Ht, E. eexists. split_and!; [done| |done]. split; try done. intros p' Hp'. cbn.
  destruct (decide (p' = p)) as [->|]; [rewrite lookup_insert_eq; eauto|rewrite lookup_insert_ne by done; auto].
Qed.

Lemma stop_live t : live t → ∃ t', Thread_stop t = (t', Ok ()) ∧ live t'.
Proof. intros [Hm Hs]. unfold Thread_stop, live. rewrite Hs. destruct (stop_requested t); cbn; eauto. Qed.
Lemma join_live t : live t → ∃ t', Thread_join 0 t = (t', Ok ()) ∧ live t'.
Proof. intros [Hm Hs]. unfold Thread_join, live. rewrite Hs, Hm. destruct (joined t); cbn; eauto. Qed.

(** What happens to a pool: threads are made and added, end, are told to stop and
    are joined. *)
Inductive pool_event := Added (p : thread_ptr) | Finished (p : thread_ptr) | Stopped | Joined.

Definition run_pool_event (e : pool_event) : M ThreadPool () :=
  match e with
  | Added p => modifyM (set_object p new_Thread) ;; ThreadPool_add_thread p 0 0
  | Finished p => ThreadPool_thread_finished p
  | Stopped => ThreadPool_stop
  | Joined => ThreadPool_join (λ _, 0%Z)
  end.

(** A thread is added under a new address, and tells once that it ended. *)
Definition event_ok (e : pool_event) (s : ThreadPool) : Prop :=
  match e with
  | Added p => objects s !! p = None ∧ (N.of_nat (S (size (threads s))) < 2 ^ 32)%N
  | Finished p => threads s !! p = Some true ∧ (N.of_nat (size (threads s)) < 2 ^ 32)%N
  | _ => True
  end.

Inductive pool_reachable : ThreadPool → Prop :=
| pool_new : pool_reachable new_ThreadPool
| pool_event_step e s : pool_reachable s → event_ok e s → pool_reachable (run_pool_event e s).1.

Lemma pool_event_ok e s : pool_ok s → event_ok e s → ∃ s', run_pool_event e s = (s', Ok ()) ∧ pool_ok s'.
Proof.
  intros Hs He. pose proof (marked_total (threads s)) as Htot. destruct e as [p|p| |]; cbn in He |- *.
  - destruct He as [Hp Hb]. destruct Hs as [H1 H2 H3].
    assert (Hn : threads s !! p = None).
    { destruct (threads s !! p) as [b|] eqn:E; [|done]. destruct (H3 p) as (t & Ht & _); [by rewrite E|]. congruence. }
    unfold ThreadPool_add_thread, mbind, M_bind, modifyM, on_thread. cbn. rewrite lookup_insert_eq. cbn. eexists. split; [done|].
    split; cbn.
    + rewrite H1, marked_insert by done. unfold wrap32. rewrite N.mod_small by lia. rewrite decide_True by done. lia.
    + rewrite H2, marked_insert by done. by rewrite decide_False.
    + intros p' Hp'. cbn in Hp'. rewrite insert_insert_eq. destruct (decide (p' = p)) as [->|]; [rewrite lookup_insert_eq; eexists; by split|].
      rewrite lookup_insert_ne in Hp' by done. rewrite lookup_insert_ne by done. auto.
  - destruct He as [Hp Hb]. destruct Hs as [H1 H2 H3]. unfold ThreadPool_thread_finished, modifyM. rewrite Hp. eexists. split; [done|].
    pose proof (marked_update true false p _ Hp) as E1. pose proof (marked_update false false p _ Hp) as E2. rewrite decide_True, decide_False in E1 by done.
    rewrite decide_False, decide_True in E2 by done.
    split; cbn.
    + rewrite H1. unfold dec32, wrap32. replace (N.of_nat (marked true (threads s)) + (2 ^ 32 - 1))%N
        with (N.of_nat (marked true (<[p:=false]> (threads s))) + 1 * 2 ^ 32)%N by lia. rewrite N.Div0.mod_add, N.mod_small; [done|]. lia.
    + rewrite H2. unfold wrap32. rewrite N.mod_small by lia. lia.
    + intros p' Hp'. apply H3. destruct (decide (p' = p)) as [->|]; [by rewrite Hp|by rewrite lookup_insert_ne in Hp'].
  - unfold ThreadPool_stop, mbind at 1, M_bind at 1, getM.
    destruct (on_threads_ok (λ '(p, runs), if runs : bool then on_thread p Thread_stop else mret ()) (pool_threads s) s) as (s' & E & Hs' & _); [done| | |eauto].
    + intros [p []] s' _ Hs' Hp; [|by exists s']. apply on_thread_ok; [done..|apply stop_live].
    + intros e ->%pool_threads_in. done.
  - unfold ThreadPool_join, mbind at 1, M_bind at 1, getM.
    destruct (on_threads_ok (λ '(p, _), on_thread p (Thread_join 0)) (pool_threads s) s) as (s' & E & Hs' & _); [done| | |eauto].
    + intros [p b] s' _ Hs' Hp. apply on_thread_ok; [done..|apply join_live].
    + intros e ->%pool_threads_in. done.
Qed.

(** ** Properties *)

(** The counts the status reports are true: when threads are made, added, end, are
    stopped and joined in any order, [running] is the number of threads that have not
    told that they ended, [waiting_for_join] the number of those that have, and no
    operation of the pool fails. *)
Theorem pool_counts s : pool_reachable s → pool_ok s ∧ ∀ e, event_ok e s → (run_pool_event e s).2 = Ok ().
Proof.
  intros H. assert (Hs : pool_ok s).
  { induction H as [|e s _ IH He]; [|by destruct (pool_event_ok e s IH He) as (s' & -> & Hs)].
    split; try done. by intros p []. }
  split; [done|]. intros e He. by destruct (pool_event_ok e s Hs He) as (s' & -> & _).
Qed.

Lemma pool_counts_witness :
  let s := (run_pool_event (Finished 1) (run_pool_event (Added 2) (run_pool_event (Added 1) new_ThreadPool).1).1).1 in
  pool_ok s ∧ running s = 1%N ∧ waiting_for_join s = 1%N.
Proof.
  intros s. split; [|by vm_compute]. apply pool_counts. do 3 (apply pool_event_step; [|split; [by vm_compute|done]]). apply pool_new.
Defined.

(** A fault.  [pthread_create] returns the number of an error, which is never -1: a
    thread that could not be made counts as running, and joining it joins a thread
    that does not exist. *)
Theorem failed_thread_counted created p : (created ≠ 0)%Z → (created ≠ -1)%Z →
  let s := (ThreadPool_add_thread p created 0 (set_object p new_Thread new_ThreadPool)).1 in
  running s = 1%N ∧ threads s !! p = Some true ∧ (ThreadPool_join (λ _, 0%Z) s).2 = throw UndefinedBehaviour.
Proof.
  intros H0 H1 s. subst s. unfold ThreadPool_add_thread, mbind, M_bind, modifyM, on_thread, Thread_start. cbn. rewrite !lookup_insert_eq. cbn.
  rewrite (proj2 (Z.eqb_neq _ _) H1), (proj2 (Z.eqb_neq _ _) H0). cbn. rewrite lookup_insert_eq. split_and!; [done..|].
  unfold ThreadPool_join, mbind, M_bind, getM, pool_threads. cbn. rewrite insert_empty, map_to_list_singleton. cbn. unfold on_thread. cbn.
  unfold mbind, M_bind. cbn. by rewrite lookup_insert_eq.
Qed.

Lemma failed_thread_counted_witness :
  running (ThreadPool_add_thread 7 11 0 (set_object 7 new_Thread new_ThreadPool)).1 = 1%N.
Proof. apply (failed_thread_counted 11 7); done. Defined.
