(* ===== verification/TaskManager.v ===== *)
(** * The task manager

    src/server/task_manager.h and task_manager.cc: the three groups of queues of the
    server, how work moves from processing to indexing when a queue is full, how the
    main loop reactivates queues, and how the server is shut down.

    The socket pair is the list of bytes sent and not read yet.  A method that waits on
    a condition is [Blocked] and is run again when woken, as in [TaskQueue]; a push that
    waits goes on with the reference it holds. *)

From S2P Require Import Prelude Json TaskQueue ThreadPool.

(** ** State *)

Record TaskManager := mkManager {
  nudge_write_end : Z;
  socket : list ascii;
  tm_started : bool;
  stopping : bool;
  indexing_queues : TaskQueueGroup;
  processing_queues : TaskQueueGroup;
  search_queues : TaskQueueGroup;
  indexing_threads : ThreadPool;
  processing_threads : ThreadPool;
  search_threads : ThreadPool;
}.

Definition set_flags (st sp : bool) (t : TaskManager) : TaskManager :=
  mkManager (nudge_write_end t) (socket t) st sp (indexing_queues t) (processing_queues t) (search_queues t)
    (indexing_threads t) (processing_threads t) (search_threads t).
Definition set_socket (l : list ascii) (t : TaskManager) : TaskManager :=
  mkManager (nudge_write_end t) l (tm_started t) (stopping t) (indexing_queues t) (processing_queues t) (search_queues t)
    (indexing_threads t) (processing_threads t) (search_threads t).

(** Which group or pool. *)
Inductive stage := Indexing | Processing | Search.

#[export] Instance stage_eq_dec : EqDecision stage.
Proof. solve_decision. Defined.

Definition queues_of (s : stage) (t : TaskManager) : TaskQueueGroup :=
  match s with Indexing => indexing_queues t | Processing => processing_queues t | Search => search_queues t end.
Definition set_group (s : stage) (g : TaskQueueGroup) (t : TaskManager) : TaskManager :=
  mkManager (nudge_write_end t) (socket t) (tm_started t) (stopping t)
    (match s with Indexing => g | _ => indexing_queues t end)
    (match s with Processing => g | _ => processing_queues t end)
    (match s with Search => g | _ => search_queues t end)
    (indexing_threads t) (processing_threads t) (search_threads t).
Definition threads_of (s : stage) (t : TaskManager) : ThreadPool :=
  match s with Indexing => indexing_threads t | Processing => processing_threads t | Search => search_threads t end.
Definition set_pool (s : stage) (p : ThreadPool) (t : TaskManager) : TaskManager :=
  mkManager (nudge_write_end t) (socket t) (tm_started t) (stopping t) (indexing_queues t) (processing_queues t) (search_queues t)
    (match s with Indexing => p | _ => indexing_threads t end)
    (match s with Processing => p | _ => processing_threads t end)
    (match s with Search => p | _ => search_threads t end).

(** The bytes a method has sent to the write end of the socket pair. *)
Definition new_bytes (fd : Z) (g g' : TaskQueueGroup) : list ascii :=
  omap (λ '(f, b), if decide (f = fd) then Some b else None) (drop (length (sent g)) (sent g')).

(** A method of one of the groups: what it sends arrives in the socket. *)
Definition on_queues {A} (s : stage) (m : M TaskQueueGroup A) : M TaskManager A := λ t,
  let '(g, r) := m (queues_of s t) in
  (set_socket (socket t ++ new_bytes (nudge_write_end t) (queues_of s t) g) (set_group s g t), r).

Definition on_pool {A} (s : stage) (m : M ThreadPool A) : M TaskManager A := λ t,
  let '(p, r) := m (threads_of s t) in (set_pool s p t, r).

(** The limits of a group. *)
Definition throttle_of (s : stage) : N := match s with Search => 1000 | _ => 100000 end.
Definition max_of (s : stage) : N := match s with Search => 2000 | _ => 101000 end.

(** The constructor, when the socket pair could be made. *)
Definition new_TaskManager (write_end : Z) : TaskManager :=
  ((on_queues Indexing (set_nudge write_end "I"%char) ;;
   on_queues Processing (set_nudge write_end "P"%char) ;;
   on_queues Search (set_nudge write_end "S"%char) : M TaskManager ())
    (mkManager write_end [] false false new_group new_group new_group new_ThreadPool new_ThreadPool new_ThreadPool)).1.

Section manager.
Context (allow_parallel : task → bool).

(** ** Putting tasks on queues *)

Definition push_to (s : stage) (queue : string) (t : task) (allow_throttle : bool) : M TaskManager QueueState :=
  on_queues s (push (throttle_of s) (max_of s) queue t allow_throttle).

Definition queue_readonly (queue : string) (t : task) : M TaskManager QueueState := λ m,
  if stopping m then (m, Ok CLOSED) else push_to Search queue t false m.

Definition queue_indexing (queue : string) (t : task) (allow_throttle : bool) : M TaskManager QueueState := λ m,
  if stopping m then (m, Ok CLOSED) else push_to Indexing queue t allow_throttle m.

(** With [end_time == 0.0]. *)
Definition queue_processing (queue : string) (t : task) (allow_throttle : bool) : M TaskManager QueueState := λ m,
  if stopping m then (m, Ok CLOSED) else push_to Processing queue t allow_throttle m.

(** With a time limit: waits for space, with the reference to the queue it holds. *)
Definition queue_processing_timed (queue : string) (t : task) (allow_throttle : bool) : M TaskManager (QueueState + queue_ref) := λ m,
  if stopping m then (m, Ok (inl CLOSED))
  else on_queues Processing (push_timed (throttle_of Processing) (max_of Processing) queue t allow_throttle) m.

Definition queue_processing_wake (queue_at : queue_ref) (t : task) (allow_throttle : bool) : M TaskManager (outcome QueueState) :=
  on_queues Processing (push_wake (throttle_of Processing) (max_of Processing) queue_at t allow_throttle).

(** The two calls that make the task themselves; a task of a class is an argument. *)
Definition queue_pipe_document (ProcessorPipeDocumentTask : string → json → task) (collection pipe : string) (doc : json)
    (allow_throttle : bool) : M TaskManager (QueueState + queue_ref) :=
  queue_processing_timed collection (ProcessorPipeDocumentTask pipe doc) allow_throttle.
Definition queue_index_document {document : Type} (IndexerUpdateDocumentTask : string → document → task) (collection : string)
    (doc : document) (idterm : string) (allow_throttle : bool) : M TaskManager QueueState :=
  queue_indexing collection (IndexerUpdateDocumentTask idterm doc) allow_throttle.

(** One round of the loop of [queue_indexing_from_processing], which holds the lock of
    the processing queues: a clone of the task is pushed; when there is no space the
    processing queue is made inactive and the thread waits. *)
Definition push_clone (queue : string) (clone : task) : M TaskManager QueueState := push_to Indexing queue clone false.

Definition after_push (queue : string) (state : QueueState) : M TaskManager (outcome ()) :=
  match state with
  | HAS_SPACE => mret (Done ())
  | LOW_SPACE => on_queues Processing (set_inactive_internal queue) ;; mret (Done ())
  | FULL => on_queues Processing (set_inactive_internal queue) ;; mret Blocked
  | CLOSED => mret (Done ())
  end.

Definition queue_indexing_from_processing (queue : string) (clone : task) : M TaskManager (outcome ()) :=
  state ← push_clone queue clone; after_push queue state.

(** ** The main loop *)

Definition CHUNKSIZE : nat := 4096.

(** The critical sections of [serve], when the read end is ready. *)
Definition serve_recv : M TaskManager () := modifyM (λ t, set_socket (drop CHUNKSIZE (socket t)) t).
Definition serve_busy (t : TaskManager) : gset string := list_to_set (get_busy_queues (throttle_of Indexing) (indexing_queues t)).
Definition serve_inactive (busy : gset string) (t : TaskManager) : list string :=
  filter (λ k, k ∉ busy) (get_inactive_queues (processing_queues t)).
Definition serve_active (k : string) : M TaskManager () := on_queues Processing (set_active k true).

(** [serve], when nothing comes in between. *)
Definition serve (timed_out : bool) : M TaskManager () := λ t,
  if timed_out || bool_decide (socket t = []) then (t, Ok ())
  else
    (serve_recv ;;
     t ← getM;
     let busy := serve_busy t in
     for_each (serve_inactive busy t) serve_active) t.

(** ** Starting and stopping *)

Section threads.
(** The addresses of the threads, and what the functions of the system return. *)
Context (address : stage → nat → thread_ptr) (created : stage → nat → Z) (join_result : thread_ptr → Z).

Definition start_threads (s : stage) (n : nat) : M TaskManager () :=
  for_each (rev (seq 1 n)) (λ i,
    on_pool s (modifyM (set_object (address s i) new_Thread) ;;
               ThreadPool_add_thread (address s i) (created s i) (join_result (address s i)))).

Definition TaskManager_start : M TaskManager () := λ t,
  if tm_started t then (t, Ok ())
  else
    (modifyM (λ t, set_flags true (stopping t) t) ;;
     start_threads Indexing 2 ;; start_threads Processing 10 ;; start_threads Search 10) t.

Definition TaskManager_stop : M TaskManager () :=
  modifyM (λ t, set_flags (tm_started t) true t) ;;
  on_queues Processing close ;;
  on_queues Search close.

(** The steps of [join] and of the destructor; a step that waits is [Blocked].  Joining
    a pool waits until every thread has ended. *)
Inductive join_step := WaitEmpty (s : stage) | CloseQueues (s : stage) | StopThreads (s : stage) | JoinThreads (s : stage).

Definition run_join_step (j : join_step) : M TaskManager (outcome ()) :=
  match j with
  | WaitEmpty s => λ t, (t, Ok (wait_for_empty (queues_of s t)))
  | CloseQueues s => on_queues s close ;; mret (Done ())
  | StopThreads s => on_pool s ThreadPool_stop ;; mret (Done ())
  | JoinThreads s => λ t,
      if forallb (λ e, negb e.2) (pool_threads (threads_of s t))
      then (on_pool s (ThreadPool_join join_result) ;; mret (Done ())) t
      else (t, Ok Blocked)
  end.

Definition join_steps : list join_step :=
  [WaitEmpty Processing; CloseQueues Indexing; StopThreads Processing; WaitEmpty Search; StopThreads Search;
   WaitEmpty Indexing; StopThreads Indexing; JoinThreads Processing; JoinThreads Indexing; JoinThreads Search].

Definition destroy_steps : list join_step :=
  [CloseQueues Search; CloseQueues Processing; WaitEmpty Processing; CloseQueues Indexing; StopThreads Processing;
   WaitEmpty Indexing; StopThreads Indexing; WaitEmpty Search; StopThreads Search;
   JoinThreads Processing; JoinThreads Indexing; JoinThreads Search].

(** As far as the steps go without waiting: what is left of them. *)
Fixpoint run_join (l : list join_step) : M TaskManager (list join_step) :=
  match l with
  | [] => mret []
  | j :: rest =>
      o ← run_join_step j;
      match o with Done _ => run_join rest | Blocked => mret (j :: rest) end
  end.

Definition TaskManager_join : M TaskManager (list join_step) := run_join join_steps.
End threads.

(** ** Status *)

(** The body of the answer of [ServerStatusTask]. *)
Definition stage_status (s : stage) (t : TaskManager) : json :=
  json_set (json_set (JObj []) "queues" (get_status (queues_of s t))) "threads" (ThreadPool_get_status (threads_of s t)).

Definition server_status (t : TaskManager) : json :=
  json_set (JObj []) "tasks"
    (json_set (json_set (json_set (JObj []) "indexing" (stage_status Indexing t))
       "processing" (stage_status Processing t)) "search" (stage_status Search t)).

End manager.
