(* ===== verification/TaskManagerThms.v ===== *)
(** * The flow of work through the task manager

    A queue of processing is made inactive when the queue of indexing behind it fills
    up, and a thread that could not put its document there waits.  What follows shows
    that the main loop wakes both up once there is space again, however the threads
    interleave; and what is lost when the server is stopped. *)

From S2P Require Import Prelude Json TaskQueue TaskQueueThms ThreadPool TaskManager.

Section flow.
Context (allow_parallel : task → bool).

Abbreviation ev s := (run_event allow_parallel (throttle_of s) (max_of s)).

(** ** What is sent *)

(** [g'] has sent what [g] has, and more. *)
Definition grows (g g' : TaskQueueGroup) : Prop := (∃ l, sent g' = sent g ++ l) ∧ nudge_fd g' = nudge_fd g.

#[global] Instance grows_preorder : PreOrder grows.
Proof.
  split; [intros g; split; [exists []; by rewrite app_nil_r|done]|]. intros g1 g2 g3 [[l1 E1] F1] [[l2 E2] F2].
  split; [exists (l1 ++ l2); by rewrite E2, E1, app_assoc|congruence].
Qed.

#[local] Hint Extern 0 (grows _ _) => reflexivity : core.

Definition growing {A} (m : M TaskQueueGroup A) : Prop := ∀ g, grows g (m g).1.

Lemma growing_bind {A B} (m : M TaskQueueGroup A) (f : A → M TaskQueueGroup B) : growing m → (∀ a, growing (f a)) → growing (m ≫= f).
Proof.
  intros Hm Hf g. unfold mbind, M_bind. specialize (Hm g). destruct (m g) as [g1 [a| |]]; [|done..]. etrans; [exact Hm|apply Hf].
Qed.
Lemma growing_ret {A} (a : A) : growing (mret a).
Proof. intros g. reflexivity. Qed.
Lemma growing_modify f : (∀ g, grows g (f g)) → growing (modifyM f).
Proof. intros H g. apply H. Qed.
Lemma growing_same {A} (m : M TaskQueueGroup A) : (∀ g, sent (m g).1 = sent g ∧ nudge_fd (m g).1 = nudge_fd g) → growing m.
Proof. intros H g. destruct (H g) as [E1 E2]. split; [exists []; by rewrite app_nil_r|done]. Qed.

Lemma growing_cleanup k : growing (check_for_cleanup k).
Proof. apply growing_same. intros g. unfold check_for_cleanup. destruct (queues g !! k); [|done]. by destruct (boring _). Qed.
Lemma growing_broadcast : growing broadcast.
Proof. by apply growing_same. Qed.
Lemma growing_complete k c : growing (complete_first k c).
Proof.
  destruct c as [t|]; [|apply growing_ret]. intros g. unfold complete_first. destruct (queues g !! k); [|done].
  apply (growing_bind (modifyM _) (λ _, check_for_cleanup k)); [by apply growing_same|intros _; apply growing_cleanup].
Qed.
Lemma growing_pick : growing (pick_queue allow_parallel).
Proof. apply growing_same. intros g. unfold pick_queue. by destruct (list_find _ _) as [[]|]. Qed.
Lemma growing_send fd b : growing (io_send_byte fd b).
Proof. intros g. split; [by eexists|done]. Qed.

Lemma growing_pop_front thr k : growing (pop_front thr k).
Proof.
  intros g. unfold pop_front. destruct (queues g !! k) as [[[|t rest] ip act asg]|]; [done| |done]. set (fd := if (_ =? _)%N then _ else _).
  repeat (apply growing_bind; [|intros []]); [by apply growing_same|apply growing_cleanup|apply growing_broadcast| |apply growing_ret].
  destruct (fd =? -1)%Z; [apply growing_ret|apply growing_send].
Qed.

Lemma growing_event thr max e : (∀ fd b, e ≠ ESetNudge fd b) → growing (run_event allow_parallel thr max e).
Proof.
  intros He. assert (Hpush : ∀ r t b, growing (push_body thr max r t b)).
  { intros r t b. apply growing_same. intros g. unfold push_body. destruct (deref r g); [|done]. destruct (closed g); [done|].
    by destruct (_ || _). }
  assert (Henter : ∀ k, growing (push_enter k)).
  { intros k. apply growing_same. intros g. unfold push_enter. by destruct (queues g !! k). }
  destruct e; try (by apply growing_same); cbn [run_event].
  1,2: apply growing_bind; [|intros; apply growing_ret]; apply growing_bind; [apply Henter|intros r];
    apply growing_bind; [apply Hpush|intros; apply growing_ret].
  - apply growing_bind; [apply Hpush|intros; apply growing_ret].
  - apply growing_bind; [|intros; apply growing_ret]. unfold pop_any. apply growing_bind; [apply growing_complete|intros _].
    apply growing_bind; [apply growing_pick|]. intros [[k|]|]; try apply growing_ret. apply growing_bind; [apply growing_pop_front|intros; apply growing_ret].
  - apply growing_bind; [|intros; apply growing_ret]. unfold pop_from. apply growing_bind; [apply growing_complete|intros _].
    intros g. unfold pop_from_body. destruct (_ && _); [done|]. destruct (queues g !! key); [|done]. case_bool_decide; [done|].
    apply (growing_bind (pop_front thr key)); [apply growing_pop_front|intros; apply growing_ret].
  - apply growing_bind; [|intros; apply growing_ret]. unfold assign_handler. apply growing_bind; [apply growing_pick|].
    intros [[k|]|]; try apply growing_ret. apply growing_bind; [by apply growing_same|intros; apply growing_ret].
  - apply growing_bind; [|intros; apply growing_ret]. unfold unassign_handler. apply growing_bind; [by apply growing_same|intros _].
    apply growing_bind; [apply growing_cleanup|intros _; apply growing_broadcast].
  - apply growing_bind; [|intros; apply growing_ret]. destruct t; [by apply growing_same|apply growing_ret].
  - apply growing_bind; [|intros; apply growing_ret]. intros g. unfold set_active. destruct (closed g); [done|].
    apply (growing_bind _ (λ _, (if on then check_for_cleanup key else mret ()) ;; broadcast)); [by apply growing_same|intros _].
    apply growing_bind; [|intros _; apply growing_broadcast]. destruct on; [apply growing_cleanup|apply growing_ret].
  - apply growing_bind; [|intros; apply growing_ret]. apply growing_same. intros g. unfold set_inactive_internal. by destruct (closed g).
  - by exfalso; eapply He.
Qed.

(** Taking a task from a queue as long as the limit sends the nudge. *)
Definition quiet (g g' : TaskQueueGroup) : Prop := sent g' = sent g ∧ nudge_fd g' = nudge_fd g ∧ nudge_byte g' = nudge_byte g.

Lemma pop_front_sent thr k g g' t : pop_front thr k g = (g', Ok t) → size_of (get_or_new k g) = thr → nudge_fd g ≠ (-1)%Z →
  sent g' = sent g ++ [(nudge_fd g, nudge_byte g)].
Proof.
  unfold pop_front, get_or_new. destruct (queues g !! k) as [[[|t0 rest] ip act asg]|]; [done| |done]. cbn [default queue].
  intros H Hs Hfd. assert (Hsz : (size_of (mkQueueInfo (t0 :: rest) ip act asg) =? thr)%N = true) by (apply N.eqb_eq; exact Hs).
  rewrite Hsz in H. revert H. unfold mbind at 1, M_bind at 1, modifyM. unfold mbind at 1, M_bind at 1.
  set (g1 := set_queues _ g). assert (Hc : ∃ g2, check_for_cleanup k g1 = (g2, Ok ()) ∧ quiet g g2).
  { unfold check_for_cleanup, g1. cbn. rewrite lookup_insert_eq. by destruct (boring _); eexists. }
  destruct Hc as (g2 & -> & H1 & H2 & H3). rewrite (proj2 (Z.eqb_neq _ _) Hfd). intros [= <- <-]. cbn. by rewrite H1.
Qed.

Lemma complete_quiet k c g g' r : complete_first k c g = (g', r) → quiet g g'.
Proof.
  destruct c as [t|]; [|by intros [= <- <-]]. unfold complete_first. destruct (queues g !! k) as [q|]; [|by intros [= <- <-]].
  unfold mbind, M_bind, modifyM, check_for_cleanup. cbn. rewrite lookup_insert_eq. by destruct (boring _); intros [= <- <-].
Qed.

Lemma complete_size k c g g' : complete_first k c g = (g', Ok ()) → ∀ j, queue (get_or_new j g') = queue (get_or_new j g).
Proof.
  intros H j. destruct (complete_first_cases k c g) as [(t & -> & _ & E)|Hwp]; [congruence|].
  specialize (Hwp (λ g' _, ∀ j, queue (get_or_new j g') = queue (get_or_new j g))). unfold wp in Hwp. rewrite H in Hwp. apply Hwp.
  intros g2 Hg _ _ _ i. by rewrite Hg, queue_finish.
Qed.

(** When a queue shrinks below the limit, the group has sent its nudge. *)
Lemma shrinking_nudges s e g g' r k : (∀ fd b, e ≠ ESetNudge fd b) → ev s e g = (g', Ok r) → nudge_fd g ≠ (-1)%Z →
  (throttle_of s <= size_of (get_or_new k g))%N → (size_of (get_or_new k g') < throttle_of s)%N →
  ∃ l, sent g' = sent g ++ l ++ [(nudge_fd g, nudge_byte g)].
Proof.
  intros Hnn H Hfd Hbig Hsmall. destruct (run_event_spec allow_parallel (throttle_of s) (max_of s) e g) as [(err & _ & E)|(g1 & r1 & E & Hpost)];
    rewrite H in E; [done|]. injection E as <- <-. destruct Hpost as (Hq & Hr & _).
  assert (Hkeep : (length (queue (get_or_new k g)) <= length (queue (get_or_new k g'))) → False) by (unfold size_of in *; lia).
  assert (Hpop : ∀ key t, r = RTask key t → queue (get_or_new k g') = queue (on key k (dequeue t) (get_or_new k g)) →
    key = k ∧ size_of (get_or_new k g) = throttle_of s).
  { intros key t -> Hqe. unfold on in Hqe. case_decide; [|by rewrite Hqe in Hkeep; destruct Hkeep]. split; [done|].
    unfold size_of in *. rewrite Hqe in Hsmall. cbn in Hsmall. rewrite length_tl in Hsmall. lia. }
  destruct e as [key t b|key t b|[key n] t b|key c|key c ck| |key|key c|key b|key| |fd b].
  1,2,3: rewrite Hq in Hkeep; cbn [spec_queue] in Hkeep; destruct Hkeep; destruct r as [| |[]| | |]; try done; unfold on; case_decide; cbn; rewrite ?length_app; lia.
  - destruct r as [| | | |k0 t|]; try (rewrite Hq in Hkeep; cbn [spec_queue hand_out] in Hkeep; rewrite queue_finish in Hkeep; destruct Hkeep; lia).
    destruct (Hpop k0 t eq_refl) as [Hk0 Hsz]; [rewrite Hq; cbn [spec_queue hand_out]; unfold on; case_decide; cbn; by rewrite queue_finish|]. subst k0.
    cbn [run_event] in H. unfold pop_any, mbind, M_bind in H. destruct (complete_first key c g) as [g2 [[]| |]] eqn:Ec; [|done..].
    destruct (complete_quiet _ _ _ _ _ Ec) as (Q1 & Q2 & Q3). pose proof (complete_size _ _ _ _ Ec k) as Qs.
    assert (Hpick : ∀ g3 o, pick_queue allow_parallel g2 = (g3, Ok o) → quiet g2 g3 ∧ queues g3 = queues g2).
    { intros g3 o. unfold pick_queue. by destruct (list_find _ _) as [[]|]; intros [= <- <-]. }
    destruct (pick_queue allow_parallel g2) as [g3 [[[k1|]|]| |]] eqn:Ep; try done. destruct (Hpick _ _ eq_refl) as ((P1 & P2 & P3) & Pq).
    destruct (pop_front (throttle_of s) k1 g3) as [g4 [t1| |]] eqn:Ef; [|done..]. injection H as <- -> ->.
    exists []. cbn. rewrite (pop_front_sent _ _ _ _ _ Ef), P1, P2, P3, Q1, Q2, Q3; [done| |by rewrite P2, Q2].
    unfold get_or_new, size_of in *. rewrite Pq, Qs. exact Hsz.
  - destruct r as [| | | |k0 t|]; try (rewrite Hq in Hkeep; cbn [spec_queue hand_out] in Hkeep; rewrite queue_finish in Hkeep; destruct Hkeep; lia).
    destruct (Hpop k0 t eq_refl) as [Hk0 Hsz]; [rewrite Hq; cbn [spec_queue hand_out]; unfold on; case_decide; cbn; by rewrite queue_finish|]. subst k0.
    destruct Hr as (<- & _). cbn [run_event] in H. unfold pop_from, mbind, M_bind in H. destruct (complete_first ck c g) as [g2 [[]| |]] eqn:Ec; [|done..].
    destruct (complete_quiet _ _ _ _ _ Ec) as (Q1 & Q2 & Q3). pose proof (complete_size _ _ _ _ Ec k) as Qs.
    unfold pop_from_body in H. destruct (_ && _) in H; [done|]. destruct (queues g2 !! k); [|done]. case_bool_decide; [done|].
    unfold mbind, M_bind in H. destruct (pop_front (throttle_of s) k g2) as [g4 [t1| |]] eqn:Ef; [|done..]. injection H as <- ->.
    exists []. cbn. rewrite (pop_front_sent _ _ _ _ _ Ef), Q1, Q2, Q3; [done| |by rewrite Q2].
    unfold size_of in *. rewrite Qs. exact Hsz.
  - exfalso. apply Hkeep. rewrite Hq. cbn [spec_queue]. destruct r; try done. unfold on. by case_decide.
  - exfalso. apply Hkeep. rewrite Hq. cbn [spec_queue]. unfold on. by case_decide.
  - exfalso. apply Hkeep. rewrite Hq. cbn [spec_queue]. by rewrite queue_finish.
  - exfalso. apply Hkeep. rewrite Hq. cbn [spec_queue]. unfold on. by repeat case_match.
  - exfalso. apply Hkeep. rewrite Hq. cbn [spec_queue]. unfold on. by repeat case_match.
  - exfalso. apply Hkeep. by rewrite Hq.
  - by destruct (Hnn fd b).
Qed.

(** ** The system *)

(** Where the main loop is in [serve]. *)
Inductive serving := Idle | Nudged | HasBusy (busy : gset string) | Waking (l : list string).

(** The task manager; the thread between its push of a clone and what it does with the
    answer, which holds the lock of the processing queues; where the main loop is; and
    the threads that wait in [queue_indexing_from_processing], with the number of
    broadcasts when they started to wait. *)
Record system := mkSystem {
  man : TaskManager;
  marking : option (string * QueueState);
  serve_at : serving;
  waiters : list (string * nat);
}.

Definition set_man (t : TaskManager) (s : system) : system := mkSystem t (marking s) (serve_at s) (waiters s).

Definition manager_event (st : stage) (e : event) (s : system) : system :=
  set_man (on_queues st (ev st e) (man s)).1 s.

(** What other code does with the queues of a stage: everything but setting the nudge,
    and, for processing, making queues inactive. *)
Definition event_allowed (st : stage) (e : event) : Prop :=
  match e with ESetNudge _ _ => False | ESetInactive _ | ESetActive _ false => st ≠ Processing | _ => True end.

Definition after_mark (queue : string) (state : QueueState) (s : system) : system :=
  let t := (after_push queue state (man s)).1 in
  mkSystem t None (serve_at s)
    (match state with FULL => (queue, broadcasts (processing_queues t)) :: waiters s | _ => waiters s end).

(** One critical section of the main loop. *)
Inductive serve_step : system → system → Prop :=
| step_recv s : serve_at s = Idle → socket (man s) ≠ [] →
    serve_step s (mkSystem (serve_recv (man s)).1 (marking s) Nudged (waiters s))
| step_busy s : serve_at s = Nudged →
    serve_step s (mkSystem (man s) (marking s) (HasBusy (serve_busy (man s))) (waiters s))
| step_inactive busy s : serve_at s = HasBusy busy → marking s = None →
    serve_step s (mkSystem (man s) (marking s) (Waking (serve_inactive busy (man s))) (waiters s))
| step_active k l s : serve_at s = Waking (k :: l) → marking s = None →
    serve_step s (mkSystem (serve_active k (man s)).1 (marking s) (Waking l) (waiters s))
| step_end s : serve_at s = Waking [] →
    serve_step s (mkSystem (man s) (marking s) Idle (waiters s)).

(** One critical section of one thread, of defined behaviour. *)
Inductive sys_step : system → system → Prop :=
| step_event st e s : event_allowed st e → (st = Processing → marking s = None) →
    is_defined (ev st e (queues_of st (man s))).2 = true → sys_step s (manager_event st e s)
| step_push queue clone s t state : marking s = None → push_clone queue clone (man s) = (t, Ok state) →
    sys_step s (mkSystem t (Some (queue, state)) (serve_at s) (waiters s))
| step_mark queue state s : marking s = Some (queue, state) → sys_step s (after_mark queue state s)
| step_woken w1 w w2 s : waiters s = w1 ++ w :: w2 → w.2 < broadcasts (processing_queues (man s)) →
    sys_step s (mkSystem (man s) (marking s) (serve_at s) (w1 ++ w2))
| step_serve s s' : serve_step s s' → sys_step s s'.

Inductive sys_reachable (write_end : Z) : system → Prop :=
| sys_start : sys_reachable write_end (mkSystem (new_TaskManager write_end) None Idle [])
| sys_next s s' : sys_reachable write_end s → sys_step s s' → sys_reachable write_end s'.

(** ** The invariant *)

Definition inactive (k : string) (s : system) : Prop := active (get_or_new k (processing_queues (man s))) = false.

(** The queue is inactive, or is about to be. *)
Definition sleeping (k : string) (s : system) : Prop :=
  inactive k s ∨ ∃ st, marking s = Some (k, st) ∧ (st = LOW_SPACE ∨ st = FULL).

Definition busy (k : string) (s : system) : Prop := (throttle_of Indexing <= size_of (get_or_new k (indexing_queues (man s))))%N.

(** The main loop is going to wake the queue. *)
Definition will_wake (k : string) (s : system) : Prop :=
  socket (man s) ≠ [] ∨
  match serve_at s with Idle => False | Nudged => True | HasBusy B => k ∉ B | Waking L => k ∈ L end.

Record flow_ok (s : system) : Prop := {
  flow_fd : nudge_write_end (man s) ≠ (-1)%Z;
  flow_wired : nudge_fd (indexing_queues (man s)) = nudge_write_end (man s);
  flow_wakes : closed (processing_queues (man s)) = false → ∀ k, sleeping k s → busy k s ∨ will_wake k s;
  flow_waits : ∀ k b, (k, b) ∈ waiters s → b ≤ broadcasts (processing_queues (man s)) ∧
    (b < broadcasts (processing_queues (man s)) ∨ closed (processing_queues (man s)) = true ∨ inactive k s);
}.

(** An operation on a group shows in the manager. *)
Lemma on_queues_eq {A} st (m : M TaskQueueGroup A) t g r : m (queues_of st t) = (g, r) →
  on_queues st m t = (set_socket (socket t ++ new_bytes (nudge_write_end t) (queues_of st t) g) (set_group st g t), r).
Proof. unfold on_queues. by intros ->. Qed.

Lemma new_bytes_last fd (g g' : TaskQueueGroup) l b : sent g' = sent g ++ l ++ [(fd, b)] → new_bytes fd g g' ≠ [].
Proof.
  intros E. unfold new_bytes. rewrite E, drop_app_length, omap_app. cbn. rewrite decide_True by done. by intros [_ ?]%app_eq_nil.
Qed.

Lemma elem_busy k t : k ∈ serve_busy t ↔ (throttle_of Indexing <= size_of (get_or_new k (indexing_queues t)))%N.
Proof.
  unfold serve_busy, get_busy_queues, get_or_new. rewrite elem_of_list_to_set, list_elem_of_omap. split.
  - intros ([k0 q] & Hin%elem_of_sorted_items & H). destruct (N.leb_spec (throttle_of Indexing) (size_of q)); [|done]. injection H as ->. by rewrite Hin.
  - destruct (queues (indexing_queues t) !! k) as [q|] eqn:E; [|by cbn]. cbn. intros H. exists (k, q).
    split; [by apply elem_of_sorted_items|]. by rewrite (proj2 (N.leb_le _ _) H).
Qed.

Lemma elem_inactive k g : k ∈ get_inactive_queues g ↔ active (get_or_new k g) = false.
Proof.
  unfold get_inactive_queues, get_or_new. rewrite list_elem_of_omap. split.
  - intros ([k0 q] & Hin%elem_of_sorted_items & H). destruct (active q) eqn:Ea; [done|]. injection H as ->. by rewrite Hin.
  - destruct (queues g !! k) as [q|] eqn:E; [|done]. cbn. intros H. exists (k, q). split; [by apply elem_of_sorted_items|]. by rewrite H.
Qed.

(** What an event on the processing queues does to what threads wait for. *)
Record moved (g g' : TaskQueueGroup) : Prop := {
  moved_broadcasts : broadcasts g ≤ broadcasts g';
  moved_closed : closed g = true → closed g' = true;
  moved_inactive k : active (get_or_new k g') = false → active (get_or_new k g) = false;
  moved_active k : active (get_or_new k g) = false → active (get_or_new k g') = false ∨ broadcasts g < broadcasts g';
}.

Lemma active_finish key k c q : active (finish key k c q) = active q.
Proof. destruct c; [|done]. cbn. unfold on. by case_decide. Qed.

Lemma event_moved e g : event_allowed Processing e → moved g (ev Processing e g).1.
Proof.
  intros He. destruct (run_event_spec allow_parallel (throttle_of Processing) (max_of Processing) e g) as [(err & _ & E)|(g' & r & E & Hpost)];
    rewrite E; cbn; [split; auto|]. destruct Hpost as (Hq & Hr & Hc & Hb).
  assert (Hon : ∀ key k f q, (∀ q, active (f q) = active q) → active (on key k f q) = active q) by (intros; unfold on; case_decide; auto).
  assert (Hsame : (∀ k q, active (spec_queue e r (closed g) k q) = active q) → moved g g').
  { intros Hs. split.
    - rewrite Hb. destruct (TaskQueueThms.wakes _ _ _); lia.
    - rewrite Hc. intros ->. apply orb_true_r.
    - intros k. by rewrite Hq, Hs.
    - intros k. rewrite Hq, Hs. auto. }
  destruct e as [key t b|key t b|[key n] t b|key c|key c ck| |key|key c|key b|key| |fd b]; try done; cbn [spec_queue] in Hsame.
  1,2,3: apply Hsame; intros k q; destruct r as [| |[]| | |]; try done; by apply Hon.
  1,2: apply Hsame; intros k q; destruct r; cbn [hand_out]; rewrite ?Hon by done; apply active_finish.
  - apply Hsame. intros k q. destruct r; try done. by apply Hon.
  - apply Hsame. intros k q. by apply Hon.
  - apply Hsame. intros k q. apply active_finish.
  - destruct b; [|done]. cbn in Hr. subst r. cbn in Hb. destruct (closed g) eqn:Ec; [by apply Hsame|]. cbn in Hb, Hc. split.
    + lia.
    + intros; congruence.
    + intros k. rewrite Hq. cbn [spec_queue]. unfold on. by case_decide.
    + intros k _. right. lia.
  - cbn in Hr. subst r. cbn in Hb. split; [lia|done| |right; lia]. intros k. rewrite Hq. by cbn.
Qed.

(** The bytes in the socket stay until the main loop reads them. *)
Lemma on_queues_socket {A} st (m : M TaskQueueGroup A) t : socket t ≠ [] → socket (on_queues st m t).1 ≠ [].
Proof. unfold on_queues. destruct (m (queues_of st t)) as [g r]. cbn. intros H [? _]%app_eq_nil. done. Qed.

Lemma on_queues_group {A} st st' (m : M TaskQueueGroup A) t :
  queues_of st' (on_queues st m t).1 = if decide (st = st') then (m (queues_of st t)).1 else queues_of st' t.
Proof. unfold on_queues. destruct (m (queues_of st t)) as [g r]. by destruct st, st'. Qed.
Lemma on_queues_end {A} st (m : M TaskQueueGroup A) t : nudge_write_end (on_queues st m t).1 = nudge_write_end t.
Proof. unfold on_queues. by destruct (m (queues_of st t)). Qed.

(** *** The steps keep it *)

Lemma waits_moved s s' g k b : processing_queues (man s) = g → moved g (processing_queues (man s')) →
  b ≤ broadcasts g ∧ (b < broadcasts g ∨ closed g = true ∨ inactive k s) →
  b ≤ broadcasts (processing_queues (man s')) ∧ (b < broadcasts (processing_queues (man s')) ∨ closed (processing_queues (man s')) = true ∨ inactive k s').
Proof.
  intros <- [H1 H2 H3 H4] [Hb Hor]. split; [lia|]. destruct Hor as [?|[?|Hi]]; [left; lia|auto|].
  destruct (H4 k Hi) as [?|?]; [auto|left; lia].
Qed.

Lemma moved_refl g : moved g g.
Proof. split; auto. Qed.

Lemma will_wake_grows s s' k : serve_at s' = serve_at s → (socket (man s) ≠ [] → socket (man s') ≠ []) → will_wake k s → will_wake k s'.
Proof. intros Hs Hsock [H|H]; [left; auto|right]. by rewrite Hs. Qed.

(** An event on the indexing queues: a queue stays busy, or the main loop is nudged. *)
Lemma indexing_event e t k : event_allowed Indexing e → nudge_write_end t ≠ (-1)%Z → nudge_fd (indexing_queues t) = nudge_write_end t →
  (throttle_of Indexing <= size_of (get_or_new k (indexing_queues t)))%N →
  (throttle_of Indexing <= size_of (get_or_new k (indexing_queues (on_queues Indexing (ev Indexing e) t).1)))%N ∨
  socket (on_queues Indexing (ev Indexing e) t).1 ≠ [].
Proof.
  intros He Hfd Hw Hb. unfold on_queues. cbn [queues_of].
  destruct (run_event_spec allow_parallel (throttle_of Indexing) (max_of Indexing) e (indexing_queues t)) as [(err & _ & E)|(g & r & E & _)]; rewrite E; cbn; [by left|].
  destruct (N.le_gt_cases (throttle_of Indexing) (size_of (get_or_new k g))) as [|Hs]; [by left|]. right.
  destruct (shrinking_nudges Indexing e (indexing_queues t) g r k) as [l Hl]; [by destruct e|done|by rewrite Hw|done|done|].
  rewrite Hw in Hl. apply new_bytes_last in Hl. by intros [_ ?]%app_eq_nil.
Qed.

Lemma event_wired e t : event_allowed Indexing e → nudge_fd (indexing_queues (on_queues Indexing (ev Indexing e) t).1) = nudge_fd (indexing_queues t).
Proof.
  intros He. change (indexing_queues (on_queues Indexing (ev Indexing e) t).1) with (queues_of Indexing (on_queues Indexing (ev Indexing e) t).1).
  rewrite on_queues_group, decide_True by done. apply growing_event. intros fd b ->. done.
Qed.

Lemma flow_event st e s : event_allowed st e → (st = Processing → marking s = None) → flow_ok s → flow_ok (manager_event st e s).
Proof.
  intros He Hmark [H1 H2 H3 H4]. unfold manager_event. set (t := (on_queues st (ev st e) (man s)).1).
  assert (Hend : nudge_write_end t = nudge_write_end (man s)) by apply on_queues_end.
  assert (Hsock : socket (man s) ≠ [] → socket t ≠ []) by apply on_queues_socket.
  assert (Hq : ∀ st', queues_of st' t = if decide (st = st') then (ev st e (queues_of st (man s))).1 else queues_of st' (man s)) by (intros; apply on_queues_group).
  assert (Hi : st ≠ Indexing → indexing_queues t = indexing_queues (man s)) by (intros; specialize (Hq Indexing); by rewrite decide_False in Hq).
  assert (Hp : st ≠ Processing → processing_queues t = processing_queues (man s)) by (intros; specialize (Hq Processing); by rewrite decide_False in Hq).
  assert (Hmoved : moved (processing_queues (man s)) (processing_queues t)).
  { destruct (decide (st = Processing)) as [->|]; [|rewrite Hp by done; apply moved_refl]. specialize (Hq Processing). rewrite decide_True in Hq by done.
    cbn in Hq. rewrite Hq. by apply event_moved. }
  assert (Hbusy : ∀ k, busy k s → busy k (set_man t s) ∨ socket t ≠ []).
  { intros k Hb. destruct (decide (st = Indexing)) as [->|]; [by apply indexing_event|left; unfold busy; cbn; by rewrite Hi]. }
  split; cbn.
  - by rewrite Hend.
  - rewrite Hend. destruct (decide (st = Indexing)) as [->|]; [|by rewrite Hi]. by rewrite <-H2; apply event_wired.
  - intros Hc k Hk. assert (Hk' : sleeping k s).
    { destruct Hk as [Hk|Hk]; [left; by apply (moved_inactive _ _ Hmoved)|by right]. }
    destruct (H3 ltac:(destruct (closed (processing_queues (man s))) eqn:E; [by rewrite (moved_closed _ _ Hmoved E) in Hc|done]) k Hk') as [Hb|Hw].
    + destruct (Hbusy k Hb); [by left|right; by left].
    + right. by eapply will_wake_grows; [| |exact Hw].
  - intros k b Hkb. specialize (H4 k b Hkb). by eapply (waits_moved s (set_man t s)).
Qed.

Lemma push_is_event st queue t b m : push_to st queue t b m =
  let '(m', r) := on_queues st (ev st (EPush queue t b)) m in (m', r ≫= λ r, match r with RState q => Ok q | _ => Ok CLOSED end).
Proof.
  unfold push_to, on_queues. cbn [run_event]. unfold mbind, M_bind.
  by destruct (push (throttle_of st) (max_of st) queue t b (queues_of st m)) as [g [q| |]].
Qed.

Lemma flow_push queue clone s t state : marking s = None → push_clone queue clone (man s) = (t, Ok state) → flow_ok s →
  flow_ok (mkSystem t (Some (queue, state)) (serve_at s) (waiters s)).
Proof.
  intros Hm Hpush Hs. unfold push_clone in Hpush. rewrite push_is_event in Hpush.
  pose proof (flow_event Indexing (EPush queue clone false) s I ltac:(done) Hs) as [H1 H2 H3 H4]. unfold manager_event in *.
  destruct (on_queues Indexing (ev Indexing (EPush queue clone false)) (man s)) as [t' r] eqn:E. injection Hpush as -> Hr.
  assert (Hmark : state = LOW_SPACE ∨ state = FULL → busy queue (mkSystem t (Some (queue, state)) (serve_at s) (waiters s))).
  { intros Hst. unfold on_queues in E. cbn [queues_of] in E.
    destruct (run_event_spec allow_parallel (throttle_of Indexing) (max_of Indexing) (EPush queue clone false) (indexing_queues (man s)))
      as [(err & Hx & _)|(g & r0 & Eg & Hq & Hr0 & _)]; [done|]. rewrite Eg in E. injection E as <- <-. cbn in Hr.
    unfold busy. cbn. rewrite Hq. cbn -[throttle_of max_of N.leb N.ltb N.add] in Hr0. destruct (closed (indexing_queues (man s))); [subst; destruct Hst; congruence|].
    destruct (N.leb_spec (max_of Indexing) (size_of (get_or_new queue (indexing_queues (man s))))); subst r0; cbn [spec_queue].
    - cbn in *. lia.
    - destruct (N.ltb_spec (size_of (get_or_new queue (indexing_queues (man s))) + 1) (throttle_of Indexing)).
      + destruct Hst; congruence.
      + unfold on, enqueue, size_of in *. rewrite decide_True by done. cbn. rewrite length_app. cbn in *. lia. }
  split; cbn in *; try done. intros Hc k Hk.
  destruct Hk as [Hk|(st & [= <- <-] & Hst)]; [|left; by apply Hmark]. apply (H3 Hc k). by left.
Qed.

Lemma inactive_after k queue g : active (get_or_new k (set_inactive_internal queue g).1) = false →
  k = queue ∨ active (get_or_new k g) = false.
Proof.
  unfold set_inactive_internal. destruct (closed g); [by right|]. cbn. rewrite get_or_new_insert. case_decide; auto.
Qed.

Lemma flow_mark queue state s : marking s = Some (queue, state) → flow_ok s → flow_ok (after_mark queue state s).
Proof.
  intros Hm [H1 H2 H3 H4]. unfold after_mark. set (t := (after_push queue state (man s)).1).
  assert (Hcase : (t = man s ∧ state ≠ FULL) ∨
    (state = LOW_SPACE ∨ state = FULL) ∧ t = (on_queues Processing (set_inactive_internal queue) (man s)).1).
  { unfold t, after_push, mbind, M_bind. destruct state; auto; right; split; auto; by destruct (on_queues Processing _ (man s)) as [t' [[]| |]]. }
  destruct Hcase as [[-> Hst]|[Hst ->]].
  { split; try done; cbn.
    - intros Hc k [Hk|(st & ? & _)]; [|done]. apply (H3 Hc k). by left.
    - intros k b. destruct state; try done; apply H4. }
  set (t' := (on_queues Processing (set_inactive_internal queue) (man s)).1).
  assert (Hp : processing_queues t' = (set_inactive_internal queue (processing_queues (man s))).1).
  { pose proof (on_queues_group Processing Processing (set_inactive_internal queue) (man s)) as E. by rewrite decide_True in E. }
  assert (Hi : indexing_queues t' = indexing_queues (man s)).
  { pose proof (on_queues_group Processing Indexing (set_inactive_internal queue) (man s)) as E. by rewrite decide_False in E. }
  assert (Hb : broadcasts (processing_queues t') = broadcasts (processing_queues (man s)) ∧ closed (processing_queues t') = closed (processing_queues (man s))).
  { rewrite Hp. unfold set_inactive_internal.
    destruct (closed (processing_queues (man s))) eqn:E; cbn; by rewrite ?E. }
  destruct Hb as [Hb Hc']. split; cbn.
  - unfold t'. by rewrite on_queues_end.
  - rewrite Hi. unfold t'. by rewrite on_queues_end.
  - rewrite Hc'. intros Hc k [Hk|(st & ? & _)]; [|done].
    assert (Hk' : sleeping k s).
    { unfold inactive in Hk. cbn in Hk. rewrite Hp in Hk. apply inactive_after in Hk as [->|Hk]; [right; by exists state|by left]. }
    destruct (H3 Hc k Hk') as [Hbk|Hw]; [left; unfold busy; cbn; by rewrite Hi|right].
    by eapply will_wake_grows; [|apply on_queues_socket|exact Hw].
  - intros k b Hkb. rewrite Hb, Hc'.
    assert (Hin : inactive k s ∨ k = queue → closed (processing_queues (man s)) = true ∨ active (get_or_new k (processing_queues t')) = false).
    { rewrite Hp. unfold set_inactive_internal. destruct (closed _); [by left|]. cbn. rewrite get_or_new_insert. intros [?| ->]; right;
        [by case_decide|by rewrite decide_True]. }
    assert (Hold : (k, b) ∈ waiters s → b ≤ broadcasts (processing_queues (man s)) ∧
      (b < broadcasts (processing_queues (man s)) ∨ closed (processing_queues (man s)) = true ∨ active (get_or_new k (processing_queues t')) = false)).
    { intros Hw. destruct (H4 k b Hw) as [? [?|[?|?]]]; [auto..|]. split; [done|]. right. apply Hin. by left. }
    destruct state; try by apply Hold. apply elem_of_cons in Hkb as [[= -> ->]|Hkb]; [|by apply Hold]. rewrite Hb. split; [done|]. right. apply Hin. by right.
Qed.

Lemma flow_serve s s' : serve_step s s' → flow_ok s → flow_ok s'.
Proof.
  intros Hstep [H1 H2 H3 H4]. destruct Hstep as [s Hs Hne|s Hs|B s Hs Hm|k0 l s Hs Hm|s Hs].
  - split; try done. intros Hc k Hk. right. right. done.
  - split; try done. cbn. intros Hc k Hk. destruct (H3 Hc k Hk) as [Hb|[Hw|Hw]]; [by left|right; by left|].
    destruct (decide (k ∈ serve_busy (man s))) as [Hin|Hout]; [left; by apply elem_busy|right; by right].
  - split; try done. cbn. intros Hc k Hk. destruct (H3 Hc k Hk) as [Hb|[Hw|Hw]]; [by left|right; by left|]. rewrite Hs in Hw.
    right. right. cbn. unfold serve_inactive. apply list_elem_of_filter. split; [done|]. apply elem_inactive.
    destruct Hk as [Hk|(st & Hk & _)]; [exact Hk|cbn in Hk; congruence].
  - pose proof (flow_event Processing (ESetActive k0 true) s I ltac:(done) ltac:(by split)) as [K1 K2 K3 K4].
    assert (E : serve_active k0 (man s) = ((on_queues Processing (ev Processing (ESetActive k0 true)) (man s)).1, (serve_active k0 (man s)).2)).
    { unfold serve_active, on_queues. cbn [run_event]. unfold mbind, M_bind. by destruct (set_active k0 true (queues_of Processing (man s))) as [g [[]| |]]. }
    rewrite E. cbn [fst]. unfold manager_event in K1, K2, K3, K4. split; [exact K1|exact K2| |exact K4]. intros Hc k Hk. cbn [man] in Hc.
    assert (Hk' : sleeping k (set_man (on_queues Processing (ev Processing (ESetActive k0 true)) (man s)).1 s)).
    { destruct Hk as [Hk|Hk]; [by left|right; exact Hk]. }
    destruct (K3 Hc k Hk') as [Hb|[Hw|Hw]]; [by left|right; by left|]. cbn in Hw. rewrite Hs in Hw.
    apply elem_of_cons in Hw as [->|Hw]; [|right; by right]. exfalso.
    destruct Hk as [Hk|(st & Hk & _)]; [|cbn in Hk; congruence]. unfold inactive in Hk. cbn [man] in Hk.
    pose proof (on_queues_group Processing Processing (ev Processing (ESetActive k0 true)) (man s)) as Eg. rewrite decide_True in Eg by done. cbn [queues_of] in Eg.
    rewrite Eg in Hk, Hc.
    destruct (run_event_spec allow_parallel (throttle_of Processing) (max_of Processing) (ESetActive k0 true) (processing_queues (man s)))
      as [(? & ? & _)|(g & r & E' & Hq & Hr & Hcl & _)]; [done|]. rewrite E' in Hk, Hc. cbn [fst] in Hk, Hc. rewrite Hq in Hk.
    cbn [is_close orb] in Hcl. rewrite Hc in Hcl. rewrite <-Hcl in Hk. cbn [spec_queue] in Hk. unfold on in Hk. by rewrite decide_True in Hk.
  - split; try done. cbn. intros Hc k Hk. destruct (H3 Hc k Hk) as [Hb|[Hw|Hw]]; [by left|right; by left|]. rewrite Hs in Hw. by apply elem_of_nil in Hw.
Qed.

Lemma flow_step s s' : sys_step s s' → flow_ok s → flow_ok s'.
Proof.
  intros Hstep Hs. destruct Hstep as [st e s He Hm _|q c s t st Hm Hp|q st s Hm|w1 w w2 s Hw _|s s' Hserve].
  - by apply flow_event.
  - by eapply flow_push.
  - by apply flow_mark.
  - destruct Hs as [H1 H2 H3 H4]. split; try done. cbn. intros k b Hkb. apply H4. rewrite Hw. set_solver.
  - by eapply flow_serve.
Qed.

Lemma reachable_flow_ok fd s : fd ≠ (-1)%Z → sys_reachable fd s → flow_ok s.
Proof.
  intros Hfd. induction 1 as [|s s' _ IH Hstep]; [|by eapply flow_step]. split; [done|done| |].
  - intros _ k [Hk|(st & Hk & _)]; done.
  - cbn. intros k b ?%elem_of_nil. done.
Qed.

(** *** Releasing a queue *)

(** Rounds of the main loop alone. *)
Abbreviation serve_steps := (rtc serve_step).

Lemma serve_active_active k k0 t : closed (processing_queues t) = false →
  active (get_or_new k (processing_queues (serve_active k0 t).1)) = (if decide (k0 = k) then true else active (get_or_new k (processing_queues t))) ∧
  closed (processing_queues (serve_active k0 t).1) = false.
Proof.
  intros Hc. unfold serve_active.
  assert (E : ∀ t : TaskManager, queues_of Processing t = processing_queues t) by done.
  rewrite <-!(E (on_queues _ _ _).1), on_queues_group, decide_True by done. cbn [queues_of].
  destruct (run_event_spec allow_parallel (throttle_of Processing) (max_of Processing) (ESetActive k0 true) (processing_queues t))
    as [(? & ? & _)|(g & r & E' & Hq & Hr & Hcl & _)]; [done|].
  assert (E2 : (set_active k0 true (processing_queues t)).1 = g).
  { cbn [run_event] in E'. unfold mbind, M_bind in E'. destruct (set_active k0 true (processing_queues t)) as [g2 [[]| |]]; [|done..]. by injection E' as -> _. }
  rewrite E2, Hq, Hcl, Hc. split; [|done]. cbn [spec_queue]. unfold on. by case_decide.
Qed.

(** The loop that reactivates. *)
Lemma waking_runs l : ∀ s, serve_at s = Waking l → marking s = None → closed (processing_queues (man s)) = false →
  ∃ s', serve_steps s s' ∧ serve_at s' = Idle ∧ marking s' = None ∧ waiters s' = waiters s ∧ socket (man s) = socket (man s') ∧
    closed (processing_queues (man s')) = false ∧ indexing_queues (man s') = indexing_queues (man s) ∧
    ∀ k, active (get_or_new k (processing_queues (man s'))) = (bool_decide (k ∈ l) || active (get_or_new k (processing_queues (man s)))).
Proof.
  induction l as [|k0 l IH]; intros s Hs Hm Hc.
  - exists (mkSystem (man s) (marking s) Idle (waiters s)). split; [apply rtc_once; by apply step_end|]. split_and!; done.
  - destruct (serve_active_active k0 k0 (man s) Hc) as [_ Hc1].
    destruct (IH (mkSystem (serve_active k0 (man s)).1 (marking s) (Waking l) (waiters s))) as (s' & Hr & H1 & H2 & H3 & H4 & H5 & H6 & H7); [done..|].
    exists s'. split; [eapply rtc_l; [by eapply step_active|exact Hr]|]. split_and!; [done|done|done| |done| |].
    + rewrite <-H4. cbn. unfold serve_active, on_queues. cbn [queues_of].
      assert (Hq : sent (set_active k0 true (processing_queues (man s))).1 = sent (processing_queues (man s))).
      { unfold set_active. rewrite Hc. unfold mbind, M_bind, check_for_cleanup. cbn. rewrite lookup_insert_eq. by destruct (boring _). }
      destruct (set_active k0 true (processing_queues (man s))) as [g r]. cbn in Hq |- *. unfold new_bytes. rewrite Hq, drop_all. cbn. by rewrite app_nil_r.
    + rewrite H6. cbn. pose proof (on_queues_group Processing Indexing (set_active k0 true) (man s)) as E. by rewrite decide_False in E.
    + intros k. rewrite H7. cbn [man]. destruct (serve_active_active k k0 (man s) Hc) as [-> _]. destruct (decide (k0 = k)) as [->|Hne].
      * rewrite orb_true_r, bool_decide_true; [done|set_solver].
      * destruct (decide (k ∈ l)); [rewrite !bool_decide_true; [done|set_solver|done]|rewrite !bool_decide_false; [done|set_solver|done]].
Qed.

(** What is left of the current round of the main loop. *)
Lemma finish_serve s : marking s = None → closed (processing_queues (man s)) = false → serve_at s ≠ Nudged →
  ∃ s', serve_steps s s' ∧ serve_at s' = Idle ∧ marking s' = None ∧ closed (processing_queues (man s')) = false ∧
    socket (man s') = socket (man s) ∧ indexing_queues (man s') = indexing_queues (man s) ∧
    ∀ k, inactive k s' → inactive k s ∧ match serve_at s with HasBusy B => k ∈ B | Waking L => k ∉ L | _ => True end.
Proof.
  intros Hm Hc Hn.
  assert (Hwake : ∀ l s, marking s = None → closed (processing_queues (man s)) = false → serve_at s = Waking l →
    ∃ s', serve_steps s s' ∧ serve_at s' = Idle ∧ marking s' = None ∧ closed (processing_queues (man s')) = false ∧
      socket (man s') = socket (man s) ∧ indexing_queues (man s') = indexing_queues (man s) ∧ ∀ k, inactive k s' → inactive k s ∧ k ∉ l).
  { clear s Hm Hc Hn. intros l s Hm Hc Hs. destruct (waking_runs l s Hs Hm Hc) as (s' & H1 & H2 & H3 & _ & H5 & H6 & H7 & H8).
    exists s'. split_and!; [done..|]. unfold inactive. intros k. rewrite H8. case_bool_decide; [done|]. done. }
  destruct (serve_at s) as [| |B|l] eqn:Es; [by exists s|done| |by apply Hwake].
  destruct (Hwake (serve_inactive B (man s)) (mkSystem (man s) (marking s) (Waking (serve_inactive B (man s))) (waiters s)))
    as (s' & H1 & H2 & H3 & H4 & H5 & H6 & H7); [done..|]. exists s'.
  split; [eapply rtc_l; [by eapply step_inactive|exact H1]|]. split_and!; [done..|]. intros k Hk. destruct (H7 k Hk) as [Hi Hl].
  split; [exact Hi|]. destruct (decide (k ∈ B)) as [|Hout]; [done|]. destruct Hl. apply list_elem_of_filter. split; [done|]. by apply elem_inactive.
Qed.

Lemma nudged_serves s k : marking s = None → closed (processing_queues (man s)) = false → serve_at s = Nudged → ¬ busy k s →
  ∃ s', serve_steps s s' ∧ closed (processing_queues (man s')) = false ∧ ¬ inactive k s'.
Proof.
  intros Hm Hc Hs Hb. destruct (finish_serve (mkSystem (man s) (marking s) (HasBusy (serve_busy (man s))) (waiters s)))
    as (s' & H1 & _ & _ & H4 & _ & _ & H7); [done..|]. exists s'. split; [eapply rtc_l; [by apply step_busy|exact H1]|].
  split; [done|]. intros Hk. destruct (H7 k Hk) as [_ Hin]. by apply Hb, elem_busy.
Qed.

Lemma idle_serves s k : marking s = None → closed (processing_queues (man s)) = false → serve_at s = Idle → socket (man s) ≠ [] → ¬ busy k s →
  ∃ s', serve_steps s s' ∧ closed (processing_queues (man s')) = false ∧ ¬ inactive k s'.
Proof.
  intros Hm Hc Hs Hsock Hb. destruct (nudged_serves (mkSystem (serve_recv (man s)).1 (marking s) Nudged (waiters s)) k) as (s' & H1 & H2 & H3); [done..|].
  exists s'. split; [|done]. eapply rtc_l; [by apply step_recv|exact H1].
Qed.

Lemma will_wake_serves s k : marking s = None → closed (processing_queues (man s)) = false → will_wake k s → ¬ busy k s →
  ∃ s', serve_steps s s' ∧ closed (processing_queues (man s')) = false ∧ ¬ inactive k s'.
Proof.
  intros Hm Hc Hw Hb. destruct (decide (active (get_or_new k (processing_queues (man s))) = true)) as [Ha|Ha].
  { exists s. split_and!; [done|done|]. unfold inactive. congruence. }
  destruct (serve_at s) as [| |B|l] eqn:Es.
  - destruct Hw as [Hw|Hw]; [by apply idle_serves|by rewrite Es in Hw].
  - by apply nudged_serves.
  - destruct (finish_serve s) as (s' & H1 & H2 & H3 & H4 & H5 & H6 & H7); [done..|by rewrite Es|]. rewrite Es in H7.
    destruct (decide (active (get_or_new k (processing_queues (man s'))) = false)) as [Hi|Hi]; [|by exists s'].
    destruct (H7 k Hi) as [_ Hin]. destruct Hw as [Hw|Hw]; [|by rewrite Es in Hw].
    destruct (idle_serves s' k) as (s2 & K1 & K2); [done..|by rewrite H5|unfold busy; by rewrite H6|]. exists s2. split; [by etrans|done].
  - destruct (finish_serve s) as (s' & H1 & H2 & H3 & H4 & H5 & H6 & H7); [done..|by rewrite Es|]. rewrite Es in H7.
    destruct (decide (active (get_or_new k (processing_queues (man s'))) = false)) as [Hi|Hi]; [|by exists s'].
    destruct (H7 k Hi) as [_ Hin]. destruct Hw as [Hw|Hw]; [|by rewrite Es in Hw].
    destruct (idle_serves s' k) as (s2 & K1 & K2); [done..|by rewrite H5|unfold busy; by rewrite H6|]. exists s2. split; [by etrans|done].
Qed.

Lemma reachable_serves fd s s' : sys_reachable fd s → serve_steps s s' → sys_reachable fd s'.
Proof. intros Hs H. induction H as [|s1 s2 s3 Hstep _ IH]; [done|]. apply IH. eapply sys_next; [exact Hs|by apply step_serve]. Qed.

(** ** Properties *)

(** C10: back-pressure is released.  However the threads of processing, indexing and
    searching and the main loop have interleaved, as long as the processing queues are
    not closed, and at a moment when no thread is between its push to the indexing queue
    and what it does with the answer: once the indexing queue is below its limit, rounds
    of the main loop alone make the queue of processing active again that was made
    inactive because the indexing queue behind it was full, and wake every thread waiting
    to put a document there.  (After the queues are closed this fails: see
    [shutdown_strands_waiters].) *)
Theorem backpressure_released fd s k (Hfd : fd ≠ (-1)%Z) (Hs : sys_reachable fd s) (Hm : marking s = None)
    (Hc : closed (processing_queues (man s)) = false) (Hb : ¬ busy k s) :
  ∃ s', serve_steps s s' ∧ ¬ inactive k s' ∧ ∀ b, (k, b) ∈ waiters s' → b < broadcasts (processing_queues (man s')).
Proof.
  assert (Hw : ∃ s', serve_steps s s' ∧ closed (processing_queues (man s')) = false ∧ ¬ inactive k s').
  { destruct (decide (active (get_or_new k (processing_queues (man s))) = false)) as [Hi|Hi]; [|by exists s].
    destruct (flow_wakes s (reachable_flow_ok fd s Hfd Hs) Hc k) as [?|Hw]; [by left|done|]. by apply will_wake_serves. }
  destruct Hw as (s' & H1 & H2 & H3). exists s'. split_and!; [done..|]. intros b Hkb.
  destruct (flow_waits s' (reachable_flow_ok fd s' Hfd (reachable_serves fd s s' Hs H1)) k b Hkb) as [_ [?|[?|?]]]; [done|congruence|done].
Qed.

(** *** Stopping *)

Definition drained (g : TaskQueueGroup) : Prop := ∀ k, queue (get_or_new k g) = [].

Lemma drained_empty g : drained g → closed g = true → wait_for_empty g = Done ().
Proof.
  intros Hd Hc. unfold wait_for_empty. rewrite Hc. replace (forallb _ _) with true; [done|]. symmetry. apply forallb_forall.
  intros [k q] Hin%list_elem_of_In%elem_of_sorted_items. apply bool_decide_eq_true. specialize (Hd k). unfold get_or_new in Hd. by rewrite Hin in Hd.
Qed.

Lemma close_eq g : close g = (mkGroup (set_active_flag true <$> queues g) (erased g) (last_pop_from g) true (nudge_fd g) (nudge_byte g) (S (broadcasts g)) (sent g), Ok ()).
Proof. done. Qed.

Lemma close_queue g k : queue (get_or_new k (close g).1) = queue (get_or_new k g).
Proof.
  unfold get_or_new. change (queues (close g).1) with (set_active_flag true <$> queues g). rewrite lookup_fmap. by destruct (queues g !! k).
Qed.

(** A fault.  [join] waits until no document is queued for processing, then closes the
    indexing queues; a document that is being processed at that moment is not in a queue
    any more, and is dropped when its thread hands it on.  The comment in
    [queue_indexing_from_processing] says that this should not happen. *)
Theorem shutdown_drops_documents join_result t k clone : drained (processing_queues t) →
  let t1 := (TaskManager_stop t).1 in
  let t2 := (run_join_step join_result (CloseQueues Indexing) t1).1 in
  run_join_step join_result (WaitEmpty Processing) t1 = (t1, Ok (Done ())) ∧
  ∃ t3, queue_indexing_from_processing k clone t2 = (t3, Ok (Done ())) ∧
    ∀ j, queue (get_or_new j (indexing_queues t3)) = queue (get_or_new j (indexing_queues t)).
Proof.
  intros Hd t1 t2.
  assert (Hp : processing_queues t1 = (close (processing_queues t)).1 ∧ indexing_queues t1 = indexing_queues t) by done.
  destruct Hp as [Hp Hi]. split.
  - cbn [run_join_step queues_of]. rewrite drained_empty; [done| |by rewrite Hp]. intros j. by rewrite Hp, close_queue.
  - assert (Hi2 : indexing_queues t2 = (close (indexing_queues t)).1) by (by rewrite <-Hi).
    unfold queue_indexing_from_processing, push_clone. unfold mbind at 1, M_bind at 1. rewrite push_is_event. unfold on_queues. cbn [queues_of].
    destruct (run_event_spec allow_parallel (throttle_of Indexing) (max_of Indexing) (EPush k clone false) (indexing_queues t2))
      as [(? & ? & _)|(g & r & E & Hq & Hr & _)]; [done|]. rewrite E. cbn [reply_ok] in Hr.
    assert (Hcl : closed (indexing_queues t2) = true) by by rewrite Hi2. rewrite Hcl in Hr. cbv zeta iota in Hr. subst r.
    cbn. eexists. split; [done|]. cbn. intros j. rewrite Hq, Hi2. apply close_queue.
Qed.

(** What goes on after [stop]: everything but another [close] of the processing queues,
    which only the destructor does, after [join]. *)
Inductive stopped_step : system → system → Prop :=
| stopped_event st e s : event_allowed st e → (st = Processing → marking s = None ∧
    match e with EPush _ _ _ | EPushTimed _ _ _ | EPushWake _ _ _ | EPopAny _ _ | ECompleted _ _ | ESetActive _ _ => True | _ => False end) →
    stopped_step s (manager_event st e s)
| stopped_push queue clone s t state : marking s = None → push_clone queue clone (man s) = (t, Ok state) →
    stopped_step s (mkSystem t (Some (queue, state)) (serve_at s) (waiters s))
| stopped_mark queue state s : marking s = Some (queue, state) → stopped_step s (after_mark queue state s)
| stopped_woken w1 w w2 s : waiters s = w1 ++ w :: w2 → w.2 < broadcasts (processing_queues (man s)) →
    stopped_step s (mkSystem (man s) (marking s) (serve_at s) (w1 ++ w2))
| stopped_serve s s' : serve_step s s' → stopped_step s s'.

(** No more broadcasts come. *)
Record silent (n : nat) (g : TaskQueueGroup) : Prop := {
  silent_closed : closed g = true;
  silent_drained : drained g;
  silent_count : broadcasts g = n;
}.

Lemma silent_event n e g : silent n g →
  match e with EPush _ _ _ | EPushTimed _ _ _ | EPushWake _ _ _ | EPopAny _ _ | ECompleted _ _ | ESetActive _ _ => True | _ => False end →
  silent n (ev Processing e g).1.
Proof.
  intros [Hc Hd Hb] He. destruct (run_event_spec allow_parallel (throttle_of Processing) (max_of Processing) e g) as [(? & _ & ->)|(g' & r & -> & Hq & Hr & Hcl & Hbr)]; [done|].
  cbn [fst]. assert (Hreply : match r with RTask _ _ => False | RState HAS_SPACE | RState LOW_SPACE => False | _ => True end).
  { destruct e as [| |[? ?]| | | | | | | | |]; try done; cbn in Hr; rewrite ?Hc in Hr; subst; try done. destruct r as [| |[]| | |]; try done.
    destruct Hr as [_ Hh]. rewrite queue_finish, Hd in Hh. done. }
  split.
  - by rewrite Hcl, Hc, orb_true_r.
  - intros k. rewrite Hq. specialize (Hd k). destruct e as [| |[? ?]| | | | | | | | |]; try done; cbn [spec_queue]; rewrite ?Hc; try done.
    1,2,3: by destruct r as [| |[]| | |].
    + destruct r as [| |[]| | |]; try done; cbn [hand_out]; by rewrite queue_finish.
    + by rewrite queue_finish.
  - rewrite Hbr, Hc, <-Hb. destruct e as [| |[? ?]| | | | | | | | |]; try done; destruct r as [| |[]| | |]; done.
Qed.

Lemma silent_step n s s' : stopped_step s s' → silent n (processing_queues (man s)) →
  silent n (processing_queues (man s')) ∧ ∀ k, (k, n) ∈ waiters s → (k, n) ∈ waiters s'.
Proof.
  intros Hstep Hs.
  assert (Hgroup : ∀ A st (m : M TaskQueueGroup A) t, st ≠ Processing → processing_queues (on_queues st m t).1 = processing_queues t).
  { intros A st m t Hst. pose proof (on_queues_group st Processing m t) as E. by rewrite decide_False in E. }
  destruct Hstep as [st e s He Hp|q c s t st Hm Hpush|q st s Hm|w1 w w2 s Hw Hlt|s s' Hserve].
  - split; [|done]. cbn. destruct (decide (st = Processing)) as [->|Hst]; [|by rewrite Hgroup].
    pose proof (on_queues_group Processing Processing (ev Processing e) (man s)) as E. rewrite decide_True in E by done. cbn [queues_of] in E. rewrite E.
    apply silent_event; [done|]. by destruct Hp.
  - split; [|done]. cbn. unfold push_clone, push_to in Hpush. specialize (Hgroup _ Indexing (push (throttle_of Indexing) (max_of Indexing) q c false) (man s)).
    rewrite Hpush in Hgroup. cbn in Hgroup. by rewrite Hgroup.
  - assert (E : processing_queues (after_push q st (man s)).1 = processing_queues (man s)).
    { destruct st; try done; unfold after_push, mbind, M_bind, on_queues, set_inactive_internal; cbn [queues_of]; by rewrite (silent_closed _ _ Hs). }
    split; cbn; [by rewrite E|]. intros k Hk. destruct st; set_solver.
  - split; [done|]. cbn. intros k. rewrite Hw. rewrite !elem_of_app, elem_of_cons. intros [?|[<-|?]]; [by left| |by right].
    cbn in Hlt. rewrite (silent_count _ _ Hs) in Hlt. lia.
  - destruct Hserve as [s Hs' Hne|s Hs'|B s Hs' Hm|k0 l s Hs' Hm|s Hs']; try done. cbn. split; [|done].
    unfold serve_active, on_queues, set_active. cbn [queues_of]. by rewrite (silent_closed _ _ Hs).
Qed.

(** A fault.  A thread that waits for space when the server is stopped is never woken:
    once the processing queues are closed and empty, reactivating a queue does nothing,
    and no step of any thread or of the main loop broadcasts to the thread, so that
    joining it never ends. *)
Theorem shutdown_strands_waiters s s' k : closed (processing_queues (man s)) = true → drained (processing_queues (man s)) →
  (k, broadcasts (processing_queues (man s))) ∈ waiters s → rtc stopped_step s s' →
  (k, broadcasts (processing_queues (man s))) ∈ waiters s' ∧
  broadcasts (processing_queues (man s')) = broadcasts (processing_queues (man s)).
Proof.
  intros Hc Hd Hk H. assert (Hs : silent (broadcasts (processing_queues (man s))) (processing_queues (man s))) by done.
  revert Hs Hk. generalize (broadcasts (processing_queues (man s))). clear Hc Hd. intros n. induction H as [s|s1 s2 s3 Hstep _ IH].
  - intros [_ _ ->]. done.
  - intros Hs Hk. destruct (silent_step n s1 s2 Hstep Hs) as [Hs2 Hw]. auto.
Qed.

End flow.

(** ** Concrete runs *)

Definition parallel : task → bool := λ _, true.
Abbreviation step_of st e s := (manager_event parallel st e s).

(** An indexing queue with a number of tasks, which no thread has taken. *)
Record filled (n : nat) (s : system) : Prop := {
  filled_reachable : sys_reachable parallel 3 s;
  filled_rest : marking s = None ∧ serve_at s = Idle ∧ closed (processing_queues (man s)) = false ∧ closed (indexing_queues (man s)) = false;
  filled_queue : length (queue (get_or_new "c" (indexing_queues (man s)))) = n ∧
    active (get_or_new "c" (indexing_queues (man s))) = true ∧ in_progress (get_or_new "c" (indexing_queues (man s))) = ∅;
}.

Lemma indexing_step e s g r : run_event parallel (throttle_of Indexing) (max_of Indexing) e (indexing_queues (man s)) = (g, r) →
  indexing_queues (man (step_of Indexing e s)) = g ∧ processing_queues (man (step_of Indexing e s)) = processing_queues (man s).
Proof. intros E. unfold manager_event, on_queues. cbn [queues_of]. by rewrite E. Qed.

Lemma fill n : (N.of_nat n < 100000)%N → ∃ s, filled n s.
Proof.
  induction n as [|n IH]; intros Hn.
  - exists (mkSystem (new_TaskManager 3) None Idle []). split; [apply sys_start|done|done].
  - destruct IH as (s & [H1 (H2 & H3 & H4 & H5) (H6 & H7 & H8)]); [lia|]. exists (step_of Indexing (EPush "c" 7 false) s).
    destruct (run_event_spec parallel (throttle_of Indexing) (max_of Indexing) (EPush "c" 7 false) (indexing_queues (man s)))
      as [(? & ? & _)|(g & r & E & Hq & Hr & Hc & _)]; [done|]. destruct (indexing_step _ _ _ _ E) as [E1 E2].
    assert (Hst : r = RState HAS_SPACE ∨ r = RState LOW_SPACE).
    { unfold reply_ok in Hr. rewrite H5 in Hr. cbv beta zeta iota in Hr.
      rewrite (proj2 (N.leb_gt _ _)) in Hr by (unfold size_of; rewrite H6; change (max_of Indexing) with 101000%N; lia).
      subst r. destruct (_ <? _)%N; auto. }
    split; [eapply sys_next; [exact H1|apply step_event; [done|done|cbn [queues_of]; by rewrite E]]|split_and!; [done|done|by rewrite E2|by rewrite E1, Hc, H5]|]. rewrite E1, Hq.
    destruct Hst as [-> | ->]; cbn [spec_queue]; unfold on; rewrite decide_True by done; cbn; rewrite length_app; cbn; split_and!; try done; lia.
Qed.

(** The queue fills up, processing of the collection stops, a task is taken: the
    collection sleeps, and its queue is not busy any more. *)
Lemma slept : ∃ s, sys_reachable parallel 3 s ∧ marking s = None ∧ closed (processing_queues (man s)) = false ∧ ¬ busy "c" s ∧ inactive "c" s.
Proof.
  destruct (fill (N.to_nat 99999)) as (s & [H1 (H2 & H3 & H4 & H5) (H6 & H7 & H8)]); [by rewrite N2Nat.id|].
  assert (Hsz : size_of (get_or_new "c" (indexing_queues (man s))) = 99999%N) by (unfold size_of; by rewrite H6, N2Nat.id).
  (* the push that fills it *)
  destruct (run_event_spec parallel (throttle_of Indexing) (max_of Indexing) (EPush "c" 7 false) (indexing_queues (man s)))
    as [(? & ? & _)|(g & r & E & Hq & Hr & Hc & _)]; [done|]. destruct (indexing_step _ _ _ _ E) as [E1 E2].
  unfold reply_ok in Hr. rewrite H5, Hsz in Hr.
  assert (Hst : r = RState LOW_SPACE) by (rewrite Hr; vm_compute; reflexivity). clear Hr. subst r.
  set (t1 := man (step_of Indexing (EPush "c" 7 false) s)) in *.
  assert (Hpush : push_clone "c" 7 (man s) = (t1, Ok LOW_SPACE)).
  { unfold push_clone. rewrite push_is_event with (allow_parallel := parallel). unfold t1, manager_event, on_queues. cbn [queues_of]. by rewrite E. }
  set (s1 := mkSystem t1 (Some ("c", LOW_SPACE)) (serve_at s) (waiters s)).
  assert (R1 : sys_reachable parallel 3 s1) by (eapply sys_next; [exact H1|by eapply step_push]).
  set (s2 := after_mark "c" LOW_SPACE s1).
  assert (R2 : sys_reachable parallel 3 s2) by (eapply sys_next; [exact R1|by apply step_mark]).
  assert (M2 : man s2 = (on_queues Processing (set_inactive_internal "c") t1).1).
  { unfold s2, after_mark, after_push, mbind, M_bind. cbn [man]. by destruct (on_queues Processing _ t1) as [t' [[]| |]] eqn:Ex; unfold s1 in *; cbn [man] in *; rewrite Ex. }
  assert (P2 : processing_queues (man s2) = (set_inactive_internal "c" (processing_queues (man s))).1).
  { rewrite M2. pose proof (on_queues_group Processing Processing (set_inactive_internal "c") t1) as Eg. rewrite decide_True in Eg by done.
    cbn [queues_of] in Eg. by rewrite Eg, E2. }
  assert (I2 : indexing_queues (man s2) = g).
  { rewrite M2. pose proof (on_queues_group Processing Indexing (set_inactive_internal "c") t1) as Eg. rewrite decide_False in Eg by done.
    cbn [queues_of] in Eg. by rewrite Eg, E1. }
  (* and the pop that makes space *)
  destruct (run_event_spec parallel (throttle_of Indexing) (max_of Indexing) (EPopFrom "c" None "") (indexing_queues (man s2)))
    as [(? & ? & _)|(g3 & r3 & E3 & Hq3 & Hr3 & Hc3 & _)]; [done|]. destruct (indexing_step _ _ _ _ E3) as [E4 E5].
  exists (step_of Indexing (EPopFrom "c" None "") s2). split; [eapply sys_next; [exact R2|apply step_event; [done|done|cbn [queues_of]; by rewrite E3]]|].
  assert (Hclosed : closed (processing_queues (man s2)) = false) by (rewrite P2; unfold set_inactive_internal; by rewrite H4).
  split_and!; [done|by rewrite E5| |].
  - unfold busy. rewrite E4, Hq3, I2. rewrite I2 in Hr3. unfold reply_ok in Hr3. cbn [finish] in Hr3. rewrite Hq in Hr3 |- *. cbn [spec_queue] in Hr3 |- *.
    unfold on in Hr3 |- *. rewrite decide_True in Hr3 |- * by done. cbn [finish].
    destruct r3 as [| | | |k3 t3|]; try done.
    + destruct Hr3 as [_ [Ha|[Hb|Hp]]]; [cbn [enqueue active] in Ha; congruence|cbn in Hb; by apply app_nil in Hb as [_ ?]|].
      unfold check_parallel_allowed in Hp. cbn [enqueue in_progress] in Hp. rewrite H8 in Hp. by rewrite (proj2 (set_begin_empty ∅)) in Hp.
    + destruct Hr3 as (-> & Hh & _). cbn [hand_out]. unfold on. rewrite decide_True by done. unfold size_of in *. cbn [queue dequeue enqueue]. rewrite length_tl, length_app. cbn [length].
      change (throttle_of Indexing) with 100000%N. lia.
    + destruct Hr3 as [Hc0 _]. rewrite Hc in Hc0. cbn in Hc0. congruence.
  - unfold inactive. rewrite E5, P2. unfold set_inactive_internal. rewrite H4. cbn [fst]. rewrite get_or_new_insert, decide_True by done. done.
Qed.

Lemma backpressure_released_witness : ∃ s s', inactive "c" s ∧ rtc (serve_step) s s' ∧ ¬ inactive "c" s'.
Proof.
  destruct slept as (s & H1 & H2 & H3 & H4 & H5).
  destruct (backpressure_released parallel 3 s "c") as (s' & H6 & H7 & _); [done..|]. by exists s, s'.
Defined.

(** One document is being processed. *)
Definition one_in_progress : TaskManager :=
  (on_queues Processing (run_event parallel 100000 101000 (EPopAny "" None))
    (queue_processing "c" 1 false (new_TaskManager 3)).1).1.

Lemma shutdown_drops_documents_witness :
  in_progress (get_or_new "c" (processing_queues one_in_progress)) = {[1%N]} ∧
  ∃ t3, queue_indexing_from_processing "c" 2 (run_join_step (λ _, 0%Z) (CloseQueues Indexing) (TaskManager_stop one_in_progress).1).1 = (t3, Ok (Done ())) ∧
    queue (get_or_new "c" (indexing_queues t3)) = [].
Proof.
  split; [by vm_compute|].
  destruct (shutdown_drops_documents parallel (λ _, 0%Z) one_in_progress "c" 2) as (_ & t3 & E & H).
  - intros k. assert (Hq : queues (processing_queues one_in_progress) = {["c" := mkQueueInfo [] {[1%N]} true false]}) by (vm_compute; reflexivity).
    unfold get_or_new. rewrite Hq. destruct (decide (k = "c")) as [->|]; [by rewrite lookup_singleton_eq|by rewrite lookup_singleton_ne].
  - exists t3. split; [exact E|]. rewrite (H "c"). reflexivity.
Defined.

Definition stopped_with_waiter : system := mkSystem (TaskManager_stop (new_TaskManager 3)).1 None Idle [("c", 1)].

Lemma shutdown_strands_waiters_witness :
  ("c", 1) ∈ waiters (manager_event parallel Processing (EPush "d" 5 false) stopped_with_waiter).
Proof.
  apply (shutdown_strands_waiters parallel stopped_with_waiter _ "c"); [done| |apply list_elem_of_here|apply rtc_once; by apply stopped_event].
  intros k. reflexivity.
Defined.
