(* ===== verification/Checkpoints.v ===== *)
(** * Checkpoints and the errors they report

    src/server/checkpoints.h and checkpoints.cc: for every collection, the errors
    met since the last checkpoint and the checkpoints known, which expire when
    they have not been touched for a while.

    The clock [RealTime::now()] is a function from the number of the reading to a
    time, so that each call in the code is one reading.  A pointer that the code
    sets in the statement after it creates the map entry is modelled as the entry;
    an absent [CheckPoints] or [IndexingErrorLog] is an absent entry. *)

From S2P Require Import Prelude Json.

(** ** Error logs *)

Record IndexingError := mkError {
  msg : string;
  doc_type : string;
  doc_id : string;
}.

Record IndexingErrorLog := mkLog {
  errors : list IndexingError;
  total_errors : N;
  max_errors : N;
}.

Definition IndexingError_to_json (e : IndexingError) : json :=
  let result := json_set (JObj []) "msg" (jstr (msg e)) in
  let result := if (str_size (doc_type e) =? 0)%N then result
                else json_set result "doc_type" (jstr (doc_type e)) in
  if (str_size (doc_id e) =? 0)%N then result else json_set result "doc_id" (jstr (doc_id e)).

Definition new_IndexingErrorLog (max : N) : IndexingErrorLog := mkLog [] 0 max.

Definition IndexingErrorLog_append_error (m t i : string) (l : IndexingErrorLog) : IndexingErrorLog :=
  mkLog (if (N.of_nat (length (errors l)) <? max_errors l)%N then errors l ++ [mkError m t i] else errors l)
    (wrap32 (total_errors l + 1)) (max_errors l).

Definition IndexingErrorLog_to_json (l : IndexingErrorLog) (result : json) : json :=
  let result := json_set result "total_errors" (JUInt (total_errors l)) in
  json_set result "errors"
    (foldl (λ a e, json_append a (IndexingError_to_json e)) (JArr []) (errors l)).

(** ** Checkpoints of a collection *)

Record CheckPoint := mkCheckPoint {
  cp_errors : option IndexingErrorLog;
  last_touched : Z;
  reached : bool;
}.

(** The points of a [CheckPoints] and the number of clock readings so far. *)
Record CheckPoints := mkCheckPoints {
  points : gmap string CheckPoint;
  ticks : nat;
}.

Section clock.
Context (clock : nat → Z).

Definition now : M CheckPoints Z := λ s,
  (mkCheckPoints (points s) (S (ticks s)), Ok (clock (ticks s))).
Definition set_point (k : string) (cp : CheckPoint) : M CheckPoints () :=
  modifyM (λ s, mkCheckPoints (<[k := cp]> (points s)) (ticks s)).

Definition new_CheckPoint : M CheckPoints CheckPoint :=
  t ← now; mret (mkCheckPoint None t false).

Definition CheckPoint_set_reached (e : option IndexingErrorLog) : M CheckPoints CheckPoint :=
  t ← now; mret (mkCheckPoint e t true).

(** The description of a checkpoint, and the checkpoint touched. *)
Definition CheckPoint_json (cp : CheckPoint) : json :=
  if reached cp then
    let result := json_set (JObj []) "reached" (JBool true) in
    match cp_errors cp with
    | Some l => IndexingErrorLog_to_json l result
    | None => json_set (json_set result "total_errors" (JInt 0)) "errors" (JArr [])
    end
  else json_set (JObj []) "reached" (JBool false).

Definition CheckPoint_get_state (cp : CheckPoint) : M CheckPoints (json * CheckPoint) :=
  t ← now; mret (CheckPoint_json cp, mkCheckPoint (cp_errors cp) t (reached cp)).

(** The body of the loop of [expire], for one checkpoint. *)
Definition expire_point (max_age : Z) (k : string) : M CheckPoints () :=
  s ← getM;
  match points s !! k with
  | None => mret ()
  | Some cp =>
      t ← now;
      if (max_age <=? t - last_touched cp)%Z
      then modifyM (λ s, mkCheckPoints (delete k (points s)) (ticks s))
      else mret ()
  end.

Definition CheckPoints_expire (max_age : Z) : M CheckPoints () :=
  s ← getM; for_each (sorted_keys (points s)) (expire_point max_age).

Definition CheckPoints_publish_checkpoint (checkid : string) : M CheckPoints () :=
  s ← getM;
  match points s !! checkid with
  | Some _ => mret ()
  | None => cp ← new_CheckPoint; set_point checkid cp
  end.

Definition CheckPoints_ids_to_json (s : CheckPoints) : json :=
  foldl (λ result k, json_append result (jstr k)) (JArr []) (sorted_keys (points s)).

Definition CheckPoints_set_reached (checkid : string) (e : option IndexingErrorLog) : M CheckPoints () :=
  s ← getM;
  (match points s !! checkid with
   | Some _ => mret ()
   | None => cp ← new_CheckPoint; set_point checkid cp
   end) ;;
  cp ← CheckPoint_set_reached e; set_point checkid cp.

Definition CheckPoints_get_state (checkid : string) : M CheckPoints json :=
  s ← getM;
  match points s !! checkid with
  | None => mret JNull
  | Some cp => '(v, cp) ← CheckPoint_get_state cp; set_point checkid cp ;; mret v
  end.

(** ** The manager *)

Record CheckPointManager := mkManager {
  recent_errors : gmap string IndexingErrorLog;
  checkpoints : gmap string (gmap string CheckPoint);
  clock_reads : nat;
}.

Definition new_Manager : CheckPointManager := mkManager ∅ ∅ 0.

Context (max_recent_errors : N) (expiry_time : Z).

(** Running an operation on the checkpoints of a collection, which are created
    (empty) when there are none, and expired first otherwise. *)
Definition on_points {A} (coll_name : string) (m : M CheckPoints A) : M CheckPointManager A := λ g,
  let '(pts, m) := match checkpoints g !! coll_name with
                   | None => (∅, m)
                   | Some pts => (pts, CheckPoints_expire expiry_time ;; m)
                   end in
  let '(s, r) := m (mkCheckPoints pts (clock_reads g)) in
  (mkManager (recent_errors g) (<[coll_name := points s]> (checkpoints g)) (ticks s), r).

Definition CheckPointManager_append_error (coll_name m t i : string) : M CheckPointManager () :=
  modifyM (λ g,
    let log := default (new_IndexingErrorLog max_recent_errors) (recent_errors g !! coll_name) in
    mkManager (<[coll_name := IndexingErrorLog_append_error m t i log]> (recent_errors g))
      (checkpoints g) (clock_reads g)).

Definition CheckPointManager_publish_checkpoint (coll_name checkid : string) : M CheckPointManager () :=
  on_points coll_name (CheckPoints_publish_checkpoint checkid).

Definition CheckPointManager_ids_to_json (coll_name : string) : M CheckPointManager json := λ g,
  match checkpoints g !! coll_name with
  | None => (g, Ok (JArr []))
  | Some _ => on_points coll_name (s ← getM; mret (CheckPoints_ids_to_json s)) g
  end.

Definition CheckPointManager_set_reached (coll_name checkid : string) : M CheckPointManager () := λ g,
  let e := recent_errors g !! coll_name in
  (on_points coll_name (CheckPoints_set_reached checkid e) ;;
   modifyM (λ g, mkManager (delete coll_name (recent_errors g)) (checkpoints g) (clock_reads g))) g.

Definition CheckPointManager_get_state (coll_name checkid : string) : M CheckPointManager json := λ g,
  match checkpoints g !! coll_name with
  | None => (g, Ok JNull)
  | Some _ => on_points coll_name (CheckPoints_get_state checkid) g
  end.

(** ** Sequences of operations *)

Inductive cp_op : Type :=
| OpError (coll m t i : string)
| OpPublish (coll checkid : string)
| OpIds (coll : string)
| OpReached (coll checkid : string)
| OpState (coll checkid : string).

Definition run_cp_op (g : CheckPointManager) (o : cp_op) : CheckPointManager :=
  match o with
  | OpError c m t i => (CheckPointManager_append_error c m t i g).1
  | OpPublish c k => (CheckPointManager_publish_checkpoint c k g).1
  | OpIds c => (CheckPointManager_ids_to_json c g).1
  | OpReached c k => (CheckPointManager_set_reached c k g).1
  | OpState c k => (CheckPointManager_get_state c k g).1
  end.

(** ** Expiry *)

Definition monotone : Prop := ∀ i j, i ≤ j → (clock i <= clock j)%Z.

(** [expire] reads the clock once for each point and removes exactly those whose
    age at that reading has reached the limit. *)
Lemma expire_spec max_age s : monotone →
  wp (CheckPoints_expire max_age) (λ s' _,
    ticks s ≤ ticks s' ∧
    ∀ k, match points s !! k with
         | None => points s' !! k = None
         | Some cp =>
             ((clock (ticks s') - last_touched cp < max_age)%Z → points s' !! k = Some cp) ∧
             ((max_age <= clock (ticks s) - last_touched cp)%Z → points s' !! k = None) ∧
             (points s' !! k = Some cp ∨ points s' !! k = None)
         end) s.
Proof.
  intros Hmono. unfold CheckPoints_expire. apply wp_bind. unfold wp at 1, getM.
  destruct (for_each_inv_at (λ pre s', ticks s ≤ ticks s' ∧
    ∀ k, (k ∉ pre → points s' !! k = points s !! k) ∧
      match points s !! k with
      | None => points s' !! k = None
      | Some cp => k ∈ pre →
          ((clock (ticks s') - last_touched cp < max_age)%Z → points s' !! k = Some cp) ∧
          ((max_age <= clock (ticks s) - last_touched cp)%Z → points s' !! k = None) ∧
          (points s' !! k = Some cp ∨ points s' !! k = None)
      end) (expire_point max_age) (sorted_keys (points s)) s) as (s' & Hok & Ht & Hs').
  - intros pre k post s1 Hl (Ht1 & H1).
    assert (Hnew : k ∉ pre).
    { pose proof (sorted_keys_nodup (points s)) as Hnd. rewrite Hl in Hnd.
      apply NoDup_app in Hnd as (_ & Hd & _). intros Hk. apply (Hd k Hk). set_solver. }
    assert (Hk : is_Some (points s !! k)) by (apply elem_of_sorted_keys; rewrite Hl; set_solver).
    destruct Hk as [cp Hcp]. destruct (H1 k) as [Hk1 _]. specialize (Hk1 Hnew).
    set (dead := (max_age <=? clock (ticks s1) - last_touched cp)%Z).
    exists (mkCheckPoints (if dead then delete k (points s1) else points s1) (S (ticks s1))). split.
    { unfold expire_point, mbind, M_bind, getM. rewrite Hk1, Hcp. cbn. fold dead. by destruct dead. }
    cbn [points ticks]. split; [lia|]. intros j.
    pose proof (Hmono (ticks s) (ticks s1) Ht1) as Hm1.
    pose proof (Hmono (ticks s1) (S (ticks s1)) ltac:(lia)) as Hm2.
    destruct (decide (j = k)) as [->|Hne].
    + split; [set_solver|]. rewrite Hcp. intros _. unfold dead.
      destruct (Z.leb_spec max_age (clock (ticks s1) - last_touched cp)).
      * rewrite lookup_delete_eq. split_and!; [lia|done|auto].
      * rewrite Hk1, Hcp. split_and!; [done|lia|auto].
    + assert (Hj : (if dead then delete k (points s1) else points s1) !! j = points s1 !! j)
        by (destruct dead; [by rewrite lookup_delete_ne|done]).
      rewrite Hj. destruct (H1 j) as [Hj1 Hj2]. split; [intros; apply Hj1; set_solver|].
      destruct (points s !! j) as [cj|]; [|done]. intros Hin. destruct Hj2 as (Ha & Hb & Hc); [set_solver|].
      split_and!; [intros; apply Ha; lia|done..].
  - split; [done|]. intros k. split; [done|]. destruct (points s !! k); [|done]. by intros ?%elem_of_nil.
  - unfold wp. rewrite Hok. split; [done|]. intros k. destruct (Hs' k) as [_ H].
    destruct (points s !! k) eqn:E; [|done]. apply H, elem_of_sorted_keys. eauto.
Qed.

Lemma expire_total max_age s : ∃ s', CheckPoints_expire max_age s = (s', Ok ()).
Proof.
  unfold CheckPoints_expire. unfold mbind, M_bind, getM.
  destruct (for_each_inv (λ _ _, True) (expire_point max_age) (sorted_keys (points s)))
    with (pre := @nil string) (s := s) as (s' & Hok & _); [|done|eauto].
  intros pre k s1 _ _. unfold expire_point, mbind, M_bind, getM.
  destruct (points s1 !! k); [|eauto]. cbn. destruct (_ <=? _)%Z; eauto.
Qed.

(** [on_points] runs the operation on the points left by [expire]. *)
Lemma on_points_eq {A} coll (m : M CheckPoints A) g :
  ∃ s, on_points coll m g =
    (let '(s', r) := m s in
     (mkManager (recent_errors g) (<[coll := points s']> (checkpoints g)) (ticks s'), r)) ∧
    match checkpoints g !! coll with
    | None => s = mkCheckPoints ∅ (clock_reads g)
    | Some pts => CheckPoints_expire expiry_time (mkCheckPoints pts (clock_reads g)) = (s, Ok ())
    end.
Proof.
  unfold on_points. destruct (checkpoints g !! coll) as [pts|]; [|eauto].
  destruct (expire_total expiry_time (mkCheckPoints pts (clock_reads g))) as [s Hs].
  exists s. split; [|done]. unfold mbind, M_bind. by rewrite Hs.
Qed.

(** ** What a checkpoint reports *)

(** The errors of a collection since its last checkpoint, all of them. *)
Definition errors_since (coll : string) (ops : list cp_op) : list IndexingError :=
  foldl (λ acc o, match o with
    | OpError c m t i => if decide (c = coll) then acc ++ [mkError m t i] else acc
    | OpReached c _ => if decide (c = coll) then [] else acc
    | _ => acc
    end) [] ops.

(** What is kept of them. *)
Definition log_of (l : list IndexingError) : option IndexingErrorLog :=
  match l with
  | [] => None
  | _ => Some (mkLog (take (N.to_nat max_recent_errors) l) (wrap32 (N.of_nat (length l))) max_recent_errors)
  end.

Lemma log_of_app l m t i :
  Some (IndexingErrorLog_append_error m t i
    (default (new_IndexingErrorLog max_recent_errors) (log_of l))) = log_of (l ++ [mkError m t i]).
Proof.
  assert (Hl : log_of (l ++ [mkError m t i]) = Some (mkLog
    (take (N.to_nat max_recent_errors) (l ++ [mkError m t i]))
    (wrap32 (N.of_nat (length (l ++ [mkError m t i])))) max_recent_errors)) by (by destruct l).
  assert (Hd : default (new_IndexingErrorLog max_recent_errors) (log_of l) =
    mkLog (take (N.to_nat max_recent_errors) l) (wrap32 (N.of_nat (length l))) max_recent_errors).
  { destruct l; [|done]. cbn. by rewrite take_nil. }
  rewrite Hl, Hd. f_equal. unfold IndexingErrorLog_append_error. cbn. f_equal.
  - rewrite length_take. destruct (N.ltb_spec (N.of_nat (N.to_nat max_recent_errors `min` length l)) max_recent_errors).
    + rewrite !take_ge by (rewrite ?length_app; cbn; lia). done.
    + rewrite take_app_le by lia. done.
  - rewrite length_app, Nat2N.inj_add. unfold wrap32. cbn [length].
    by rewrite N.Div0.add_mod_idemp_l.
Qed.

Lemma set_reached_ok k e s :
  ∃ s' t, CheckPoints_set_reached k e s = (s', Ok ()) ∧
          points s' !! k = Some (mkCheckPoint e t true) ∧
          (∀ j, j ≠ k → points s' !! j = points s !! j).
Proof.
  unfold CheckPoints_set_reached, mbind, M_bind, getM. destruct (points s !! k) eqn:E; cbn.
  - eexists _, _. split_and!; [done|apply lookup_insert_eq|intros; by apply lookup_insert_ne].
  - eexists _, _. split_and!; [done|apply lookup_insert_eq|]. intros. cbn. rewrite insert_insert_eq.
    by apply lookup_insert_ne.
Qed.

Lemma recent_errors_run o g :
  recent_errors (run_cp_op g o) =
    match o with
    | OpError c m t i => <[c := IndexingErrorLog_append_error m t i
        (default (new_IndexingErrorLog max_recent_errors) (recent_errors g !! c))]> (recent_errors g)
    | OpReached c _ => delete c (recent_errors g)
    | _ => recent_errors g
    end.
Proof.
  destruct o as [c m t i|c k|c|c k|c k]; cbn [run_cp_op]; [done|..].
  - unfold CheckPointManager_publish_checkpoint.
    destruct (on_points_eq c (CheckPoints_publish_checkpoint k) g) as (s & -> & _).
    by destruct (CheckPoints_publish_checkpoint k s).
  - unfold CheckPointManager_ids_to_json. destruct (checkpoints g !! c); [|done].
    destruct (on_points_eq c (s ← getM; mret (CheckPoints_ids_to_json s)) g) as (s & -> & _). done.
  - unfold CheckPointManager_set_reached, mbind, M_bind.
    destruct (on_points_eq c (CheckPoints_set_reached k (recent_errors g !! c)) g) as (s & -> & _).
    destruct (set_reached_ok k (recent_errors g !! c) s) as (s' & t & -> & _). done.
  - unfold CheckPointManager_get_state. destruct (checkpoints g !! c); [|done].
    destruct (on_points_eq c (CheckPoints_get_state k) g) as (s & -> & _).
    by destruct (CheckPoints_get_state k s).
Qed.

Lemma recent_errors_ops ops coll :
  recent_errors (foldl run_cp_op new_Manager ops) !! coll = log_of (errors_since coll ops).
Proof.
  induction ops as [|o ops IH] using rev_ind; [done|].
  unfold errors_since in *. rewrite !foldl_snoc. set (acc := foldl _ [] ops) in *.
  rewrite recent_errors_run. destruct o as [c m t i|c k|c|c k|c k]; try done.
  - case_decide as Hc; [subst; rewrite lookup_insert_eq|by rewrite lookup_insert_ne].
    by rewrite IH, log_of_app.
  - case_decide as Hc; [subst; by rewrite lookup_delete_eq|by rewrite lookup_delete_ne].
Qed.

(** The errors a checkpoint reports.  After any operations, reaching a
    checkpoint marks it reached and gives it exactly the errors of its collection
    since the last checkpoint reached there -- the first [max_recent_errors] in
    detail and the count of all, modulo 2^32 -- and the next checkpoint starts
    with none. *)
Theorem checkpoint_errors ops coll checkid :
  let g := run_cp_op (foldl run_cp_op new_Manager ops) (OpReached coll checkid) in
  (∃ pts t, checkpoints g !! coll = Some pts ∧
     pts !! checkid = Some (mkCheckPoint (log_of (errors_since coll ops)) t true)) ∧
  recent_errors g !! coll = None.
Proof.
  intros g. split.
  - unfold g. cbn [run_cp_op]. set (g0 := foldl _ _ ops).
    unfold CheckPointManager_set_reached, mbind, M_bind.
    destruct (on_points_eq coll (CheckPoints_set_reached checkid (recent_errors g0 !! coll)) g0)
      as (s & -> & _).
    destruct (set_reached_ok checkid (recent_errors g0 !! coll) s) as (s' & t & -> & Hp & _).
    cbn. rewrite lookup_insert_eq. exists (points s'), t. split; [done|].
    by rewrite Hp, <-recent_errors_ops.
  - unfold g. rewrite recent_errors_run. apply lookup_delete_eq.
Qed.

(** Looking a checkpoint up.  With a clock that does not go back, a checkpoint
    last touched less than [expiry_time] ago is described and touched; one
    untouched for [expiry_time] is gone and described as null, like one that
    never existed. *)
Theorem checkpoint_state g coll checkid : monotone →
  let '(g', r) := CheckPointManager_get_state coll checkid g in
  match checkpoints g !! coll ≫= (.!! checkid) with
  | None => r = Ok JNull
  | Some cp =>
      ((clock (clock_reads g') - last_touched cp < expiry_time)%Z →
         r = Ok (CheckPoint_json cp) ∧
         ∃ t, (clock (clock_reads g) <= t <= clock (clock_reads g'))%Z ∧
              checkpoints g' !! coll ≫= (.!! checkid)
              = Some (mkCheckPoint (cp_errors cp) t (reached cp))) ∧
      ((expiry_time <= clock (clock_reads g) - last_touched cp)%Z →
         r = Ok JNull ∧ checkpoints g' !! coll ≫= (.!! checkid) = None)
  end.
Proof.
  intros Hmono. unfold CheckPointManager_get_state.
  destruct (checkpoints g !! coll) as [pts|] eqn:E; [|done]. cbn.
  destruct (on_points_eq coll (CheckPoints_get_state checkid) g) as (s & -> & Hs). rewrite E in Hs.
  pose proof (expire_spec expiry_time (mkCheckPoints pts (clock_reads g)) Hmono) as Hexp.
  unfold wp in Hexp. rewrite Hs in Hexp. destruct Hexp as [Ht Hk]. specialize (Hk checkid). cbn in Ht, Hk.
  assert (Hget : CheckPoints_get_state checkid s = match points s !! checkid with
    | None => (s, Ok JNull)
    | Some cp => (mkCheckPoints (<[checkid := mkCheckPoint (cp_errors cp) (clock (ticks s)) (reached cp)]> (points s))
                    (S (ticks s)), Ok (CheckPoint_json cp))
    end).
  { unfold CheckPoints_get_state, mbind, M_bind, getM. by destruct (points s !! checkid). }
  rewrite Hget. pose proof (Hmono (ticks s) (S (ticks s)) ltac:(lia)) as Hm.
  pose proof (Hmono (clock_reads g) (ticks s) Ht) as Hm'.
  destruct (pts !! checkid) as [cp|] eqn:Ecp; [|by rewrite Hk].
  destruct Hk as (Hkeep & Hgone & [Hcase|Hcase]); rewrite Hcase; cbn.
  - rewrite !lookup_insert_eq. cbn. rewrite lookup_insert_eq. split.
    + intros _. split; [done|]. exists (clock (ticks s)). split; [lia|done].
    + intros Hold. specialize (Hgone Hold). congruence.
  - rewrite lookup_insert_eq. cbn. split; [|done]. intros Hyoung.
    rewrite (Hkeep Hyoung) in Hcase. congruence.
Qed.

End clock.

Definition example_ops : list cp_op := [OpError "coll" "bad" "doc" "1"; OpReached "coll" "check"].
Definition example_clock (i : nat) : Z := Z.of_nat i.
Definition example_manager : CheckPointManager :=
  foldl (run_cp_op example_clock 100 10) new_Manager example_ops.

Lemma checkpoint_state_witness :
  monotone example_clock ∧
  ∃ cp, checkpoints example_manager !! "coll" ≫= (.!! "check") = Some cp ∧
  (CheckPointManager_get_state example_clock 10 "coll" "check" example_manager).2 = Ok (CheckPoint_json cp).
Proof.
  assert (Hm : monotone example_clock) by (intros i j Hij; unfold example_clock; lia).
  split; [exact Hm|].
  pose proof (checkpoint_state example_clock 10 example_manager "coll" "check" Hm) as H.
  destruct (CheckPointManager_get_state example_clock 10 "coll" "check" example_manager) as [g' r] eqn:E.
  vm_compute in E. injection E as <- <-.
  destruct (checkpoints example_manager !! "coll" ≫= (.!! "check")) as [cp|] eqn:Ecp;
    [|vm_compute in Ecp; discriminate Ecp].
  exists cp. split; [reflexivity|]. apply H. vm_compute in Ecp. injection Ecp as <-. reflexivity.
Defined.
