(* ===== verification/CollectionPool.v ===== *)
(** * The pool of collection handles

    src/jsonxapian/collection_pool.h and collection_pool.cc: handles on collections
    are lent to threads and taken back.  Objects live in a store, so that who owns
    each of them, and when it is deleted, can be stated.

    Opening a database may fail: its outcome is an argument of the operations that
    open one ([None] for success).  The file system is the argument [dir_exists];
    the directories removed are recorded. *)

From S2P Require Import Prelude.

(** ** State *)

(** A [Collection] object as the pool sees it: [get_name] and [is_writable]. *)
Record Collection := mkCollection {
  get_name : string;
  is_writable : bool;
}.

Abbreviation ptr := N.

Record CollectionPool := mkPool {
  readonly : gmap string (list ptr);
  readonly_in_use : gmap string (list ptr);
  writable : gmap string (option ptr);
  heap : gmap ptr Collection;
  next_ptr : ptr;
  removed_dirs : list string;
}.

Definition max_cached_readers_per_collection : nat := 5.

Definition new_pool : CollectionPool := mkPool ∅ ∅ ∅ ∅ 0 [].

(** [new Collection], [delete], and what opening a collection does to it. *)
Definition alloc (c : Collection) : M CollectionPool ptr := λ p,
  (mkPool (readonly p) (readonly_in_use p) (writable p) (<[next_ptr p := c]> (heap p))
     (next_ptr p + 1) (removed_dirs p), Ok (next_ptr p)).
Definition dealloc (c : ptr) : M CollectionPool () := modifyM (λ p,
  mkPool (readonly p) (readonly_in_use p) (writable p) (delete c (heap p)) (next_ptr p) (removed_dirs p)).
Definition set_heap (c : ptr) (v : Collection) : M CollectionPool () := modifyM (λ p,
  mkPool (readonly p) (readonly_in_use p) (writable p) (<[c := v]> (heap p)) (next_ptr p) (removed_dirs p)).

Definition set_readonly (f : gmap string (list ptr) → gmap string (list ptr)) : M CollectionPool () :=
  modifyM (λ p, mkPool (f (readonly p)) (readonly_in_use p) (writable p) (heap p) (next_ptr p) (removed_dirs p)).
Definition set_in_use (f : gmap string (list ptr) → gmap string (list ptr)) : M CollectionPool () :=
  modifyM (λ p, mkPool (readonly p) (f (readonly_in_use p)) (writable p) (heap p) (next_ptr p) (removed_dirs p)).
Definition set_writable (f : gmap string (option ptr) → gmap string (option ptr)) : M CollectionPool () :=
  modifyM (λ p, mkPool (readonly p) (readonly_in_use p) (f (writable p)) (heap p) (next_ptr p) (removed_dirs p)).

(** [open_readonly] and [open_writable]: on failure the exception destroys the
    object, which the [auto_ptr] owns. *)
Definition open_as (w : bool) (collection : string) (failure : option error) (c : ptr)
    : M CollectionPool () :=
  match failure with
  | Some e => dealloc c ;; throwM e
  | None => set_heap c (mkCollection collection w)
  end.

(** ** Operations *)

Definition CollectionPool_exists (dir_exists : string → bool) (collection : string)
    (p : CollectionPool) : bool :=
  if bool_decide (is_Some (readonly p !! collection)) then true
  else if bool_decide (is_Some (writable p !! collection)) then true
  else dir_exists collection.

Definition CollectionPool_del (dir_exists : string → bool) (coll_name : string) : M CollectionPool () :=
  p ← getM;
  (match readonly p !! coll_name with
   | None => mret ()
   | Some l => for_each l dealloc ;; set_readonly (delete coll_name)
   end) ;;
  set_in_use (delete coll_name) ;;
  (match writable p !! coll_name with
   | None => mret ()
   | Some w => (match w with Some c => dealloc c | None => mret () end) ;;
               set_writable (delete coll_name)
   end) ;;
  if dir_exists coll_name
  then modifyM (λ p, mkPool (readonly p) (readonly_in_use p) (writable p) (heap p) (next_ptr p)
                       (removed_dirs p ++ [coll_name]))
  else mret ().

Definition CollectionPool_get_readonly (failure : option error) (collection : string)
    : M CollectionPool ptr :=
  p ← getM;
  c ← match last (default [] (readonly p !! collection)) with
      | None => alloc (mkCollection collection false)
      | Some c => set_readonly (alter (λ l, removelast l) collection) ;; mret c
      end;
  open_as false collection failure c ;;
  set_in_use (λ m, <[collection := default [] (m !! collection) ++ [c]]> m) ;;
  mret c.

Definition CollectionPool_get_writable (failure : option error) (collection : string)
    : M CollectionPool ptr :=
  p ← getM;
  c ← match writable p !! collection with
      | Some (Some c) => set_writable (<[collection := None]>) ;; mret c
      | _ => alloc (mkCollection collection false)
      end;
  open_as true collection failure c ;;
  mret c.

(** [vector::erase(find(...))]. *)
Fixpoint remove_first (c : ptr) (l : list ptr) : option (list ptr) :=
  match l with
  | [] => None
  | x :: l => if decide (x = c) then Some l else cons x <$> remove_first c l
  end.

(** [release]: the object is deleted unless the pool takes it back. *)
Definition CollectionPool_release (collection : ptr) : M CollectionPool () := λ p,
  match heap p !! collection with
  | None => (p, throw UndefinedBehaviour)
  | Some obj =>
      if is_writable obj then
        match writable p !! get_name obj with
        | Some (Some _) => dealloc collection p
        | _ => set_writable (<[get_name obj := Some collection]>) p
        end
      else
        match remove_first collection (default [] (readonly_in_use p !! get_name obj)) with
        | None => dealloc collection p
        | Some l =>
            (set_in_use (<[get_name obj := l]>) ;;
             set_readonly (λ m, <[get_name obj := default [] (m !! get_name obj)]> m) ;;
             p ← getM;
             let cached := default [] (readonly p !! get_name obj) in
             if decide (length cached < max_cached_readers_per_collection)
             then set_readonly (<[get_name obj := cached ++ [collection]]>)
             else dealloc collection) p
        end
  end.

(** ** Sequences of operations

    [held] are the objects lent out: a caller releases one it holds, or deletes it
    itself ([TaskThread::~TaskThread], src/server/task_threads.cc). *)

Inductive pool_op : Type :=
| PGetReadonly (failure : option error) (collection : string)
| PGetWritable (failure : option error) (collection : string)
| PRelease (c : ptr)
| PDel (dir_exists : string → bool) (coll_name : string)
| PDelete (c : ptr).

Definition pool_state : Type := CollectionPool * gset ptr.

Inductive pool_step : pool_state → pool_op → pool_state → Prop :=
| step_get_readonly p held f n p' c :
    CollectionPool_get_readonly f n p = (p', Ok c) →
    pool_step (p, held) (PGetReadonly f n) (p', {[c]} ∪ held)
| step_get_readonly_fail p held f n p' e :
    CollectionPool_get_readonly f n p = (p', Throw e) →
    pool_step (p, held) (PGetReadonly f n) (p', held)
| step_get_writable p held f n p' c :
    CollectionPool_get_writable f n p = (p', Ok c) →
    pool_step (p, held) (PGetWritable f n) (p', {[c]} ∪ held)
| step_get_writable_fail p held f n p' e :
    CollectionPool_get_writable f n p = (p', Throw e) →
    pool_step (p, held) (PGetWritable f n) (p', held)
| step_release p held c p' r :
    c ∈ held → CollectionPool_release c p = (p', r) →
    pool_step (p, held) (PRelease c) (p', held ∖ {[c]})
| step_del p held d n p' r :
    CollectionPool_del d n p = (p', r) →
    pool_step (p, held) (PDel d n) (p', held)
| step_delete p held c p' r :
    c ∈ held → dealloc c p = (p', r) →
    pool_step (p, held) (PDelete c) (p', held ∖ {[c]}).

Inductive pool_reachable : pool_state → Prop :=
| pool_start : pool_reachable (new_pool, ∅)
| pool_next s o s' : pool_reachable s → pool_step s o s' → pool_reachable s'.
