(* ===== verification/CollectionPoolThms.v ===== *)
(** * Ownership of collection handles

    The properties of src/jsonxapian/collection_pool.cc: every handle is owned by
    the pool or by one caller, none leaks or is freed twice, few readers are
    cached, and handles on a deleted collection do not return to the pool. *)

From S2P Require Import Prelude CollectionPool.

(** ** The invariant *)

Definition ro (p : CollectionPool) (n : string) : list ptr := default [] (readonly p !! n).
Definition iu (p : CollectionPool) (n : string) : list ptr := default [] (readonly_in_use p !! n).
Definition wr (p : CollectionPool) (n : string) : option ptr := mjoin (writable p !! n).

Record pool_wf (p : CollectionPool) (held : gset ptr) : Prop := {
  pw_readonly n c : c ∈ ro p n → heap p !! c = Some (mkCollection n false) ∧ c ∉ held;
  pw_cached n : NoDup (ro p n) ∧ length (ro p n) ≤ max_cached_readers_per_collection;
  pw_writable n c : wr p n = Some c → heap p !! c = Some (mkCollection n true) ∧ c ∉ held;
  pw_held c : c ∈ held → is_Some (heap p !! c);
  pw_owned c obj : heap p !! c = Some obj →
    c ∈ held ∨ c ∈ ro p (get_name obj) ∨ wr p (get_name obj) = Some c;
  pw_fresh c : (next_ptr p <= c)%N → heap p !! c = None ∧ ∀ n, c ∉ iu p n;
  pw_in_use n c : c ∈ iu p n → is_Some (heap p !! c) →
    c ∈ held ∧ heap p !! c = Some (mkCollection n false);
  pw_in_use_nodup n : NoDup (iu p n);
}.

Lemma lookup_upd {A} (d : A) n k (m : gmap string A) x :
  default d (<[n := x]> m !! k) = if decide (n = k) then x else default d (m !! k).
Proof. case_decide; [subst; by rewrite lookup_insert_eq|by rewrite lookup_insert_ne]. Qed.

Lemma lookup_del {A} (d : A) n k (m : gmap string A) :
  default d (delete n m !! k) = if decide (n = k) then d else default d (m !! k).
Proof. case_decide; [subst; by rewrite lookup_delete_eq|by rewrite lookup_delete_ne]. Qed.

(** ** Transfers of ownership *)

Section transfers.
Context (p : CollectionPool) (held : gset ptr) (Hwf : pool_wf p held).

Lemma wf_alloc c0 n :
  pool_wf (mkPool (readonly p) (readonly_in_use p) (writable p)
             (<[next_ptr p := mkCollection n c0]> (heap p)) (next_ptr p + 1) (removed_dirs p))
    ({[next_ptr p]} ∪ held).
Proof.
  assert (Hnew : heap p !! next_ptr p = None ∧ ∀ n, next_ptr p ∉ iu p n) by (apply (pw_fresh _ _ Hwf); lia).
  destruct Hnew as [Hnew Hiu].
  assert (Hne : ∀ c, is_Some (heap p !! c) → c ≠ next_ptr p) by (intros c [? ?] ->; congruence).
  split; cbn.
  - intros k c Hc. destruct (pw_readonly _ _ Hwf k c Hc) as [Hh Hn].
    pose proof (Hne c ltac:(eauto)). rewrite lookup_insert_ne by done. set_solver.
  - apply (pw_cached _ _ Hwf).
  - intros k c Hc. destruct (pw_writable _ _ Hwf k c Hc) as [Hh Hn].
    pose proof (Hne c ltac:(eauto)). rewrite lookup_insert_ne by done. set_solver.
  - intros c Hc. destruct (decide (c = next_ptr p)) as [->|]; [rewrite lookup_insert_eq; eauto|].
    rewrite lookup_insert_ne by done. apply (pw_held _ _ Hwf). set_solver.
  - intros c obj. destruct (decide (c = next_ptr p)) as [->|]; [set_solver|].
    rewrite lookup_insert_ne by done. intros Hc. destruct (pw_owned _ _ Hwf c obj Hc) as [?|?]; [set_solver|auto].
  - intros c Hc. rewrite lookup_insert_ne by lia. apply (pw_fresh _ _ Hwf). lia.
  - intros k c Hc. destruct (decide (c = next_ptr p)) as [->|]; [by apply Hiu in Hc|].
    rewrite lookup_insert_ne by done. intros Hs. destruct (pw_in_use _ _ Hwf k c Hc Hs). set_solver.
  - apply (pw_in_use_nodup _ _ Hwf).
Qed.

(** An object of the cache of readers passes to a caller. *)
Lemma wf_take_readonly n l c m :
  ro p n = l ++ [c] → (∀ k, default [] (m !! k) = if decide (n = k) then l else ro p k) →
  pool_wf (mkPool m (readonly_in_use p) (writable p) (heap p) (next_ptr p) (removed_dirs p))
    ({[c]} ∪ held).
Proof.
  intros Hl Hm. destruct (pw_cached _ _ Hwf n) as [Hnd Hlen]. rewrite Hl in Hnd, Hlen.
  apply NoDup_app in Hnd as (Hnd & Hcl & _).
  assert (Hc : heap p !! c = Some (mkCollection n false) ∧ c ∉ held)
    by (apply (pw_readonly _ _ Hwf); rewrite Hl; set_solver).
  destruct Hc as [Hc Hch].
  split; unfold ro, iu, wr; cbn.
  - intros k d. rewrite Hm. intros Hd. assert (Hd' : d ∈ ro p k).
    { case_decide; [subst; rewrite Hl; set_solver|done]. }
    destruct (pw_readonly _ _ Hwf k d Hd') as [Hh Hn]. split; [done|].
    rewrite not_elem_of_union, not_elem_of_singleton. split; [|done]. intros ->.
    rewrite Hc in Hh. injection Hh as <-. rewrite decide_True in Hd by done. set_solver.
  - intros k. rewrite Hm. case_decide; [subst|apply (pw_cached _ _ Hwf)].
    split; [done|]. rewrite length_app in Hlen. cbn in Hlen. lia.
  - intros k d Hd. destruct (pw_writable _ _ Hwf k d Hd) as [Hh Hn]. split; [done|].
    rewrite not_elem_of_union, not_elem_of_singleton. split; [|done]. intros ->. congruence.
  - intros d [->%elem_of_singleton|Hd]%elem_of_union; [eauto|by apply (pw_held _ _ Hwf)].
  - intros d obj Hd. destruct (decide (d = c)) as [->|Hne]; [set_solver|].
    destruct (pw_owned _ _ Hwf d obj Hd) as [?|[Hin|?]]; [set_solver| |auto]. right; left.
    rewrite Hm. case_decide; [subst; rewrite Hl in Hin; set_solver|done].
  - apply (pw_fresh _ _ Hwf).
  - intros k d Hd Hs. destruct (pw_in_use _ _ Hwf k d Hd Hs). set_solver.
  - apply (pw_in_use_nodup _ _ Hwf).
Qed.

(** The cached writer passes to a caller. *)
Lemma wf_take_writable n c m :
  wr p n = Some c → (∀ k, mjoin (m !! k) = if decide (n = k) then None else wr p k) →
  pool_wf (mkPool (readonly p) (readonly_in_use p) m (heap p) (next_ptr p) (removed_dirs p))
    ({[c]} ∪ held).
Proof.
  intros Hw Hm. destruct (pw_writable _ _ Hwf n c Hw) as [Hc Hch].
  split; unfold ro, iu, wr; cbn.
  - intros k d Hd. destruct (pw_readonly _ _ Hwf k d Hd) as [Hh Hn]. split; [done|].
    rewrite not_elem_of_union, not_elem_of_singleton. split; [|done]. intros ->. congruence.
  - apply (pw_cached _ _ Hwf).
  - intros k d. rewrite Hm. case_decide as Hk; [done|]. intros Hd.
    destruct (pw_writable _ _ Hwf k d Hd) as [Hh Hn]. split; [done|].
    rewrite not_elem_of_union, not_elem_of_singleton. split; [|done]. intros ->. congruence.
  - intros d [->%elem_of_singleton|Hd]%elem_of_union; [eauto|by apply (pw_held _ _ Hwf)].
  - intros d obj Hd. destruct (decide (d = c)) as [->|Hne]; [set_solver|].
    destruct (pw_owned _ _ Hwf d obj Hd) as [?|[Hin|Hin]]; [set_solver|auto|]. right; right.
    rewrite Hm. case_decide; [subst; congruence|done].
  - apply (pw_fresh _ _ Hwf).
  - intros k d Hd Hs. destruct (pw_in_use _ _ Hwf k d Hd Hs). set_solver.
  - apply (pw_in_use_nodup _ _ Hwf).
Qed.

(** A caller's object is deleted. *)
Lemma wf_dealloc c : c ∈ held →
  pool_wf (mkPool (readonly p) (readonly_in_use p) (writable p) (delete c (heap p)) (next_ptr p)
             (removed_dirs p)) (held ∖ {[c]}).
Proof.
  intros Hheld. split; cbn.
  - intros k d Hd. destruct (pw_readonly _ _ Hwf k d Hd) as [Hh Hn].
    rewrite lookup_delete_ne by set_solver. set_solver.
  - apply (pw_cached _ _ Hwf).
  - intros k d Hd. destruct (pw_writable _ _ Hwf k d Hd) as [Hh Hn].
    rewrite lookup_delete_ne by set_solver. set_solver.
  - intros d [Hd Hne%not_elem_of_singleton]%elem_of_difference.
    rewrite lookup_delete_ne by done. by apply (pw_held _ _ Hwf).
  - intros d obj [Hne Hd]%lookup_delete_Some.
    destruct (pw_owned _ _ Hwf d obj Hd) as [?|?]; [set_solver|auto].
  - intros d Hd. destruct (pw_fresh _ _ Hwf d Hd) as [Hn ?]. split; [|done].
    by apply lookup_delete_None; right.
  - intros k d Hd [obj [Hne Hs]%lookup_delete_Some].
    destruct (pw_in_use _ _ Hwf k d Hd ltac:(eauto)). rewrite lookup_delete_ne by done. set_solver.
  - apply (pw_in_use_nodup _ _ Hwf).
Qed.

(** A caller's object is opened. *)
Lemma wf_set_heap c v : c ∈ held → (∀ n, c ∈ iu p n → v = mkCollection n false) →
  pool_wf (mkPool (readonly p) (readonly_in_use p) (writable p) (<[c := v]> (heap p)) (next_ptr p)
             (removed_dirs p)) held.
Proof.
  intros Hheld Hv. split; cbn.
  - intros k d Hd. destruct (pw_readonly _ _ Hwf k d Hd) as [Hh Hn].
    rewrite lookup_insert_ne by set_solver. done.
  - apply (pw_cached _ _ Hwf).
  - intros k d Hd. destruct (pw_writable _ _ Hwf k d Hd) as [Hh Hn].
    rewrite lookup_insert_ne by set_solver. done.
  - intros d Hd. destruct (decide (d = c)) as [->|]; [rewrite lookup_insert_eq; eauto|].
    rewrite lookup_insert_ne by done. by apply (pw_held _ _ Hwf).
  - intros d obj. destruct (decide (d = c)) as [->|]; [auto|].
    rewrite lookup_insert_ne by done. apply (pw_owned _ _ Hwf).
  - intros d Hd. destruct (pw_fresh _ _ Hwf d Hd) as [Hn ?]. split; [|done].
    destruct (pw_held _ _ Hwf c Hheld) as [? Hc]. rewrite lookup_insert_ne; [done|congruence].
  - intros k d Hd. destruct (decide (d = c)) as [->|].
    + rewrite lookup_insert_eq. by rewrite <-(Hv k Hd).
    + rewrite lookup_insert_ne by done. by apply (pw_in_use _ _ Hwf).
  - apply (pw_in_use_nodup _ _ Hwf).
Qed.

(** The list of readers in use of one collection changes. *)
Lemma wf_in_use n l m :
  NoDup l → (∀ c, c ∈ l → c ∈ iu p n ∨ c ∈ held ∧ heap p !! c = Some (mkCollection n false)) →
  (∀ k, default [] (m !! k) = if decide (n = k) then l else iu p k) →
  pool_wf (mkPool (readonly p) m (writable p) (heap p) (next_ptr p) (removed_dirs p)) held.
Proof.
  intros Hnd Hl Hm. split; unfold ro, iu, wr; cbn; try apply Hwf.
  - intros d Hd. destruct (pw_fresh _ _ Hwf d Hd) as [Hn Hi]. split; [done|]. intros k. rewrite Hm.
    case_decide; [|apply Hi]. intros Hdl. destruct (Hl d Hdl) as [Hin|[_ Hin]]; [by apply (Hi n)|congruence].
  - intros k d. rewrite Hm. case_decide; [subst|apply (pw_in_use _ _ Hwf)].
    intros Hd Hs. destruct (Hl d Hd) as [Hin|?]; [by apply (pw_in_use _ _ Hwf)|done].
  - intros k. rewrite Hm. case_decide; [done|apply (pw_in_use_nodup _ _ Hwf)].
Qed.

(** A caller's reader goes to the cache. *)
Lemma wf_give_readonly n c m :
  c ∈ held → heap p !! c = Some (mkCollection n false) → (∀ k, c ∉ iu p k) →
  length (ro p n) < max_cached_readers_per_collection →
  (∀ k, default [] (m !! k) = if decide (n = k) then ro p n ++ [c] else ro p k) →
  pool_wf (mkPool m (readonly_in_use p) (writable p) (heap p) (next_ptr p) (removed_dirs p))
    (held ∖ {[c]}).
Proof.
  intros Hheld Hc Hiu Hlen Hm.
  assert (Hnot : ∀ k, c ∉ ro p k) by (intros k Hk; by destruct (pw_readonly _ _ Hwf k c Hk)).
  split; unfold ro, iu, wr; cbn.
  - intros k d. rewrite Hm. intros Hd. assert (Hd' : d ∈ ro p k ∨ d = c ∧ k = n).
    { case_decide; [subst|auto]. rewrite elem_of_app, list_elem_of_singleton in Hd. naive_solver. }
    destruct Hd' as [Hd'|[-> ->]]; [|split; [done|set_solver]].
    destruct (pw_readonly _ _ Hwf k d Hd'). set_solver.
  - intros k. rewrite Hm. destruct (pw_cached _ _ Hwf k) as [Hnd Hl]. case_decide; [subst|done]. split.
    + apply NoDup_app. split_and!; [done| |apply NoDup_singleton]. intros d Hd ->%list_elem_of_singleton.
      by apply (Hnot k).
    + rewrite length_app. cbn. lia.
  - intros k d Hd. destruct (pw_writable _ _ Hwf k d Hd). set_solver.
  - intros d Hd. apply (pw_held _ _ Hwf). set_solver.
  - intros d obj Hd. destruct (decide (d = c)) as [->|].
    + right; left. rewrite Hc in Hd. injection Hd as <-. cbn. rewrite Hm, decide_True by done. set_solver.
    + destruct (pw_owned _ _ Hwf d obj Hd) as [?|[?|?]]; [set_solver| |auto]. right; left.
      rewrite Hm. case_decide; [subst; set_solver|done].
  - apply (pw_fresh _ _ Hwf).
  - intros k d Hd Hs. destruct (pw_in_use _ _ Hwf k d Hd Hs) as [Hh ?]. split; [|done].
    apply elem_of_difference. split; [done|]. intros ->%elem_of_singleton. by apply (Hiu k).
  - apply (pw_in_use_nodup _ _ Hwf).
Qed.

(** A caller's writer goes to the pool, which has none. *)
Lemma wf_give_writable n c m :
  c ∈ held → heap p !! c = Some (mkCollection n true) → wr p n = None →
  (∀ k, mjoin (m !! k) = if decide (n = k) then Some c else wr p k) →
  pool_wf (mkPool (readonly p) (readonly_in_use p) m (heap p) (next_ptr p) (removed_dirs p))
    (held ∖ {[c]}).
Proof.
  intros Hheld Hc Hw Hm. split; unfold ro, iu, wr; cbn.
  - intros k d Hd. destruct (pw_readonly _ _ Hwf k d Hd). set_solver.
  - apply (pw_cached _ _ Hwf).
  - intros k d. rewrite Hm. case_decide; [subst|].
    + intros [= <-]. split; [done|set_solver].
    + intros Hd. destruct (pw_writable _ _ Hwf k d Hd). set_solver.
  - intros d Hd. apply (pw_held _ _ Hwf). set_solver.
  - intros d obj Hd. destruct (decide (d = c)) as [->|].
    + right; right. rewrite Hc in Hd. injection Hd as <-. cbn. by rewrite Hm, decide_True.
    + destruct (pw_owned _ _ Hwf d obj Hd) as [?|[?|Hx]]; [set_solver|auto|]. right; right.
      rewrite Hm. case_decide; [subst; congruence|done].
  - apply (pw_fresh _ _ Hwf).
  - intros k d Hd Hs. destruct (pw_in_use _ _ Hwf k d Hd Hs) as [Hh Hx]. split; [|done].
    apply elem_of_difference. split; [done|]. intros ->%elem_of_singleton. congruence.
  - apply (pw_in_use_nodup _ _ Hwf).
Qed.

End transfers.

(** ** The operations keep the invariant *)

Lemma pool_wf_ext p held r i w d :
  pool_wf p held → (∀ k, default [] (r !! k) = ro p k) → (∀ k, default [] (i !! k) = iu p k) →
  (∀ k, mjoin (w !! k) = wr p k) → pool_wf (mkPool r i w (heap p) (next_ptr p) d) held.
Proof.
  intros Hwf Hr Hi Hw.
  split; unfold ro, iu, wr; cbn; intros *; rewrite ?Hr, ?Hi, ?Hw; try apply Hwf.
  intros Hc. split; [by apply Hwf|]. intros k. rewrite Hi. by apply Hwf.
Qed.

Lemma pool_in_use_not_held p held c k : pool_wf p held → is_Some (heap p !! c) → c ∉ held → c ∉ iu p k.
Proof. intros Hwf Hs Hn Hc. by destruct (pw_in_use _ _ Hwf k c Hc Hs). Qed.

(** Opening an object a caller holds. *)
Lemma wf_open w n f c p held p' r :
  pool_wf p held → c ∈ held → (∀ k, c ∉ iu p k) → open_as w n f c p = (p', r) →
  match r with
  | Ok _ => pool_wf p' held ∧ heap p' !! c = Some (mkCollection n w) ∧ (∀ k, iu p' k = iu p k)
  | Throw _ => pool_wf p' (held ∖ {[c]}) ∧ (∀ k, iu p' k = iu p k)
  | OutOfFuel => False
  end ∧ ∀ d, d ≠ c → heap p' !! d = heap p !! d.
Proof.
  intros Hwf Hc Hiu. unfold open_as. destruct f as [e|]; intros [= <- <-].
  - split; [split; [by apply wf_dealloc|done]|]. intros d Hd. cbn. by rewrite lookup_delete_ne.
  - split; [|intros d Hd; cbn; by rewrite lookup_insert_ne].
    split; [|split; [by cbn; rewrite lookup_insert_eq|done]].
    apply wf_set_heap; [done..|]. intros k Hk. by destruct (Hiu k).
Qed.

Lemma alloc_spec n p held : pool_wf p held →
  let p' := (alloc (mkCollection n false) p).1 in
  Ok (next_ptr p) = Ok (next_ptr p) ∧ next_ptr p ∉ held ∧ pool_wf p' ({[next_ptr p]} ∪ held) ∧
  (∀ k, iu p' k = iu p k) ∧ (∀ k, next_ptr p ∉ iu p k) ∧ ∀ d, d ∈ held → heap p' !! d = heap p !! d.
Proof.
  intros Hwf. destruct (pw_fresh _ _ Hwf (next_ptr p)) as [Hn Hi]; [lia|].
  split_and!; [done| |by apply wf_alloc|done|done|].
  - intros [? Hh]%(pw_held _ _ Hwf). congruence.
  - intros d [? Hh]%(pw_held _ _ Hwf). cbn. rewrite lookup_insert_ne; [done|congruence].
Qed.

(** Where [get_readonly] and [get_writable] take their object from. *)
Lemma readonly_source p held n p' r :
  pool_wf p held →
  (match last (default [] (readonly p !! n)) with
   | None => alloc (mkCollection n false)
   | Some c => set_readonly (alter (λ l, removelast l) n) ;; mret c
   end) p = (p', r) →
  ∃ c, r = Ok c ∧ c ∉ held ∧ pool_wf p' ({[c]} ∪ held) ∧ (∀ k, iu p' k = iu p k) ∧
    (∀ k, c ∉ iu p k) ∧ ∀ d, d ∈ held → heap p' !! d = heap p !! d.
Proof.
  intros Hwf. fold (ro p n). destruct (last (ro p n)) as [c|] eqn:El; intros [= <- <-].
  - apply last_Some in El as [l El]. exists c. split_and!; [done| | |done| |done].
    + apply (pw_readonly _ _ Hwf n). rewrite El. set_solver.
    + apply wf_take_readonly with (n := n) (l := l); [done..|]. intros k. cbn.
      case_decide; [subst|by rewrite lookup_alter_ne].
      rewrite lookup_alter_eq. unfold ro in El. destruct (readonly p !! k); cbn in *; [subst|].
      * by apply removelast_last.
      * by destruct l.
    + intros k. destruct (pw_readonly _ _ Hwf n c) as [Hh Hn]; [rewrite El; set_solver|].
      by eapply pool_in_use_not_held.
  - exists (next_ptr p). by apply alloc_spec.
Qed.

Lemma writable_source p held n p' r :
  pool_wf p held →
  (match writable p !! n with
   | Some (Some c) => set_writable (<[n := None]>) ;; mret c
   | _ => alloc (mkCollection n false)
   end) p = (p', r) →
  ∃ c, r = Ok c ∧ c ∉ held ∧ pool_wf p' ({[c]} ∪ held) ∧ (∀ k, iu p' k = iu p k) ∧
    (∀ k, c ∉ iu p k) ∧ ∀ d, d ∈ held → heap p' !! d = heap p !! d.
Proof.
  intros Hwf.
  assert (Hnew : ∃ c, Ok (next_ptr p) = Ok c ∧ c ∉ held ∧
    pool_wf (alloc (mkCollection n false) p).1 ({[c]} ∪ held) ∧
    (∀ k, iu (alloc (mkCollection n false) p).1 k = iu p k) ∧ (∀ k, c ∉ iu p k) ∧
    ∀ d, d ∈ held → heap (alloc (mkCollection n false) p).1 !! d = heap p !! d).
  { exists (next_ptr p). by apply alloc_spec. }
  destruct (writable p !! n) as [[c|]|] eqn:Ew; intros [= <- <-]; [|exact Hnew..].
  assert (Hw : wr p n = Some c) by (unfold wr; by rewrite Ew).
  destruct (pw_writable _ _ Hwf n c Hw) as [Hh Hc].
  exists c. split_and!; [done..| |done| |done].
  - apply wf_take_writable with (n := n); [done..|]. intros k. cbn.
    case_decide; [subst; by rewrite lookup_insert_eq|by rewrite lookup_insert_ne].
  - intros k. eapply pool_in_use_not_held; eauto.
Qed.

Lemma get_readonly_wf f n p held p' r :
  pool_wf p held → CollectionPool_get_readonly f n p = (p', r) →
  match r with
  | Ok c => c ∉ held ∧ pool_wf p' ({[c]} ∪ held) ∧ heap p' !! c = Some (mkCollection n false) ∧
            ∀ k, iu p' k = if decide (n = k) then iu p n ++ [c] else iu p k
  | Throw _ => pool_wf p' held ∧ ∀ k, iu p' k = iu p k
  | OutOfFuel => False
  end ∧ ∀ d, d ∈ held → heap p' !! d = heap p !! d.
Proof.
  intros Hwf. unfold CollectionPool_get_readonly. unfold mbind at 1, M_bind at 1. cbn [getM].
  unfold mbind at 1, M_bind at 1.
  destruct (_ p) as [p1 r1] eqn:E1. apply (readonly_source _ held) in E1 as (c & -> & Hc & Hwf1 & Hi1 & Hci & Hf1); [|done].
  unfold mbind at 1, M_bind at 1. destruct (open_as _ _ _ _ _) as [p2 r2] eqn:E2.
  apply wf_open with (held := {[c]} ∪ held) in E2; [|done|set_solver|intros k; by rewrite Hi1].
  destruct E2 as [E2 Hf2].
  assert (Hf : ∀ d, d ∈ held → heap p2 !! d = heap p !! d).
  { intros d Hd. rewrite Hf2 by set_solver. by apply Hf1. }
  destruct r2 as [[]|e|]; [|intros [= <- <-]|done].
  - destruct E2 as (Hwf2 & Hh & Hi2). intros [= <- <-]. split; [|done]. split_and!; [done| |done|].
    + apply wf_in_use with (n := n) (l := iu p2 n ++ [c]); [done|..].
      * rewrite Hi2, Hi1. apply NoDup_app. split_and!; [by apply pw_in_use_nodup with held| |apply NoDup_singleton].
        intros d Hd ->%list_elem_of_singleton. by apply (Hci n).
      * intros d. rewrite elem_of_app, list_elem_of_singleton. intros [?| ->]; [auto|]. right. set_solver.
      * intros k. cbn. apply lookup_upd.
    + intros k. unfold iu at 1. cbn. rewrite lookup_upd. fold (iu p2 n) (iu p2 k). by rewrite !Hi2, !Hi1.
  - destruct E2 as [Hwf2 Hi2]. split; [|done]. split; [|intros k; by rewrite Hi2].
    by replace held with (({[c]} ∪ held) ∖ {[c]}) by set_solver.
Qed.

Lemma get_writable_wf f n p held p' r :
  pool_wf p held → CollectionPool_get_writable f n p = (p', r) →
  match r with
  | Ok c => c ∉ held ∧ pool_wf p' ({[c]} ∪ held) ∧ heap p' !! c = Some (mkCollection n true) ∧
            ∀ k, iu p' k = iu p k
  | Throw _ => pool_wf p' held ∧ ∀ k, iu p' k = iu p k
  | OutOfFuel => False
  end ∧ ∀ d, d ∈ held → heap p' !! d = heap p !! d.
Proof.
  intros Hwf. unfold CollectionPool_get_writable. unfold mbind at 1, M_bind at 1. cbn [getM].
  unfold mbind at 1, M_bind at 1.
  destruct (_ p) as [p1 r1] eqn:E1. apply (writable_source _ held) in E1 as (c & -> & Hc & Hwf1 & Hi1 & Hci & Hf1); [|done].
  unfold mbind at 1, M_bind at 1. destruct (open_as _ _ _ _ _) as [p2 r2] eqn:E2.
  apply wf_open with (held := {[c]} ∪ held) in E2; [|done|set_solver|intros k; by rewrite Hi1].
  destruct E2 as [E2 Hf2].
  assert (Hf : ∀ d, d ∈ held → heap p2 !! d = heap p !! d).
  { intros d Hd. rewrite Hf2 by set_solver. by apply Hf1. }
  destruct r2 as [[]|e|]; [|intros [= <- <-]|done].
  - destruct E2 as (Hwf2 & Hh & Hi2). intros [= <- <-]. split; [|done]. split_and!; [done..|]. intros k. by rewrite Hi2.
  - destruct E2 as [Hwf2 Hi2]. split; [|done]. split; [|intros k; by rewrite Hi2].
    by replace held with (({[c]} ∪ held) ∖ {[c]}) by set_solver.
Qed.

(** *** Release *)

Lemma remove_first_spec c l : NoDup l →
  match remove_first c l with
  | Some l' => c ∈ l ∧ NoDup l' ∧ ∀ d, d ∈ l' ↔ d ∈ l ∧ d ≠ c
  | None => c ∉ l
  end.
Proof.
  induction l as [|x l IH]; intros Hnd; cbn; [set_solver|].
  apply NoDup_cons in Hnd as [Hx Hnd]. specialize (IH Hnd).
  case_decide; [subst; set_solver|]. destruct (remove_first c l) as [l'|]; cbn; [|set_solver].
  destruct IH as (Hc & Hl & Hd). split_and!; [set_solver| |].
  - apply NoDup_cons. split; [|done]. rewrite Hd. tauto.
  - intros d. rewrite !elem_of_cons, Hd. split; [|tauto]. intros [->|?]; tauto.
Qed.

(** A released object is taken back by the pool or deleted; a reader the pool does
    not expect is always deleted. *)
Lemma release_wf p held c p' r :
  pool_wf p held → c ∈ held → CollectionPool_release c p = (p', r) →
  r = Ok () ∧ pool_wf p' (held ∖ {[c]}) ∧
  (∀ k d, d ∈ iu p' k ↔ d ∈ iu p k ∧ d ≠ c) ∧
  (∀ n, heap p !! c = Some (mkCollection n false) → c ∉ iu p n → heap p' !! c = None) ∧
  (∀ d, d ≠ c → heap p' !! d = heap p !! d).
Proof.
  intros Hwf Hc. unfold CollectionPool_release. destruct (pw_held _ _ Hwf c Hc) as [[n w] Hobj].
  rewrite Hobj. cbn [is_writable get_name].
  assert (Hk : ∀ k, c ∈ iu p k → n = k ∧ w = false).
  { intros k Hi. destruct (pw_in_use _ _ Hwf k c Hi) as [_ He]; [eauto|]. rewrite Hobj in He. by injection He. }
  destruct w.
  - assert (Hni : ∀ k, c ∉ iu p k) by (intros k Hi; by destruct (Hk k Hi)).
    assert (Hsame : ∀ k d, d ∈ iu p k ↔ d ∈ iu p k ∧ d ≠ c).
    { intros k d. split; [|tauto]. intros Hd. split; [done|]. intros ->. by apply (Hni k). }
    assert (Hgive : wr p n = None → pool_wf (set_writable (<[n := Some c]>) p).1 (held ∖ {[c]})).
    { intros Hw. apply wf_give_writable with (n := n) (c := c); [done..|]. intros k.
      case_decide; [subst; by rewrite lookup_insert_eq|by rewrite lookup_insert_ne]. }
    destruct (writable p !! n) as [[d|]|] eqn:Ew; intros [= <- <-].
    + split_and!; [done|by apply wf_dealloc|done|done|]. intros d' ?. cbn. by rewrite lookup_delete_ne.
    + split_and!; [done|apply Hgive; unfold wr; by rewrite Ew|done..].
    + split_and!; [done|apply Hgive; unfold wr; by rewrite Ew|done..].
  - fold (iu p n). pose proof (remove_first_spec c (iu p n) (pw_in_use_nodup _ _ Hwf n)) as Hrf.
    destruct (remove_first c (iu p n)) as [l|].
    + destruct Hrf as (Hin & Hnd & Hl). unfold mbind, M_bind. cbn. rewrite !lookup_insert_eq. cbn.
      fold (ro p n).
      set (i' := <[n := l]> (readonly_in_use p)). set (r' := <[n := ro p n]> (readonly p)).
      assert (Hi' : ∀ k, default [] (i' !! k) = if decide (n = k) then l else iu p k) by (intros; apply lookup_upd).
      assert (Hr' : ∀ k, default [] (r' !! k) = ro p k).
      { intros k. unfold r'. rewrite lookup_upd. case_decide; [by subst|done]. }
      assert (Hwf1 : pool_wf (mkPool r' i' (writable p) (heap p) (next_ptr p) (removed_dirs p)) held).
      { apply (pool_wf_ext (mkPool (readonly p) i' (writable p) (heap p) (next_ptr p) (removed_dirs p))); [|done..].
        apply wf_in_use with (n := n) (l := l); [done..| |done].
        intros d Hd%Hl. left. by destruct Hd. }
      assert (Hout : ∀ k, c ∉ default [] (i' !! k)).
      { intros k. rewrite Hi'. case_decide; [rewrite Hl; tauto|]. intros Hx. by destruct (Hk k Hx). }
      assert (Hiu : ∀ k d, d ∈ default [] (i' !! k) ↔ d ∈ iu p k ∧ d ≠ c).
      { intros k d. rewrite Hi'. case_decide; [subst; apply Hl|]. split; [|tauto].
        intros Hd. split; [done|]. intros ->. by destruct (Hk k Hd). }
      case_decide as Hlen; cbn; intros [= <- <-].
      * split_and!; [done| |done|intros m Hm Hno; congruence|done].
        refine (wf_give_readonly _ held Hwf1 n c _ Hc _ _ _ _); [done|apply Hout| |].
        -- unfold ro. cbn. by rewrite Hr'.
        -- intros k. cbn. unfold ro. cbn. rewrite lookup_upd. by rewrite !Hr'.
      * split_and!; [done| |done|intros m _ _; cbn; by rewrite lookup_delete_eq
          |intros d ?; cbn; by rewrite lookup_delete_ne].
        apply (wf_dealloc _ _ Hwf1). done.
    + intros [= <- <-].
      split_and!; [done|by apply wf_dealloc| |intros m _ _; cbn; by rewrite lookup_delete_eq
        |intros d ?; cbn; by rewrite lookup_delete_ne].
      intros k d. split; [|tauto]. intros Hd. split; [done|]. intros ->. by destruct (Hk k Hd); subst.
Qed.

(** *** Deletion of a collection *)

Lemma for_each_dealloc l p : ∃ h,
  for_each l dealloc p =
    (mkPool (readonly p) (readonly_in_use p) (writable p) h (next_ptr p) (removed_dirs p), Ok ()) ∧
  ∀ c, h !! c = if decide (c ∈ l) then None else heap p !! c.
Proof.
  revert p. induction l as [|x l IH]; intros p.
  - exists (heap p). by destruct p.
  - cbn. unfold mbind, M_bind. cbn. destruct (IH (dealloc x p).1) as (h & Hf & Hh). cbn in Hf.
    rewrite Hf. exists h. split; [done|]. intros c. rewrite Hh. cbn.
    destruct (decide (c = x)) as [->|Hne].
    + rewrite lookup_delete_eq. repeat case_decide; set_solver.
    + rewrite lookup_delete_ne by done. repeat case_decide; set_solver.
Qed.

Lemma del_readers n p : ∃ r h,
  (match readonly p !! n with
   | None => mret ()
   | Some l => for_each l dealloc ;; set_readonly (delete n)
   end) p = (mkPool r (readonly_in_use p) (writable p) h (next_ptr p) (removed_dirs p), Ok ()) ∧
  (∀ k, default [] (r !! k) = if decide (n = k) then [] else ro p k) ∧
  (∀ c, h !! c = if decide (c ∈ ro p n) then None else heap p !! c).
Proof.
  unfold ro. destruct (readonly p !! n) as [l|] eqn:El.
  - destruct (for_each_dealloc l p) as (h & Hf & Hh). exists (delete n (readonly p)), h.
    unfold mbind, M_bind. rewrite Hf. split_and!; [done| |done]. intros k. apply lookup_del.
  - exists (readonly p), (heap p). split_and!; [by destruct p| |].
    + intros k. case_decide; [subst; by rewrite El|done].
    + intros c. by rewrite decide_False by (cbn; set_solver).
Qed.

Lemma del_writer n w q : writable q = w → ∃ m h,
  (match w !! n with
   | None => mret ()
   | Some w => (match w with Some c => dealloc c | None => mret () end) ;; set_writable (delete n)
   end) q = (mkPool (readonly q) (readonly_in_use q) m h (next_ptr q) (removed_dirs q), Ok ()) ∧
  (∀ k, mjoin (m !! k) = if decide (n = k) then None else wr q k) ∧
  (∀ c, h !! c = if decide (wr q n = Some c) then None else heap q !! c).
Proof.
  intros <-. unfold wr.
  assert (Hm : ∀ k, mjoin (delete n (writable q) !! k) = if decide (n = k) then None else mjoin (writable q !! k)).
  { intros k. case_decide; [subst; by rewrite lookup_delete_eq|by rewrite lookup_delete_ne]. }
  destruct (writable q !! n) as [[c|]|] eqn:Ew.
  - exists (delete n (writable q)), (delete c (heap q)). split_and!; [done..|]. intros d. cbn.
    case_decide; [simplify_eq; by rewrite lookup_delete_eq|rewrite lookup_delete_ne by congruence; done].
  - exists (delete n (writable q)), (heap q). split_and!; done.
  - exists (writable q), (heap q). split_and!; [by destruct q| |done].
    intros k. case_decide; [subst; by rewrite Ew|done].
Qed.

Lemma del_effect d n p p' r : CollectionPool_del d n p = (p', r) →
  r = Ok () ∧ (∀ k, ro p' k = if decide (n = k) then [] else ro p k) ∧
  (∀ k, iu p' k = if decide (n = k) then [] else iu p k) ∧
  (∀ k, wr p' k = if decide (n = k) then None else wr p k) ∧
  (∀ c, heap p' !! c = if decide (c ∈ ro p n ∨ wr p n = Some c) then None else heap p !! c) ∧
  next_ptr p' = next_ptr p.
Proof.
  unfold CollectionPool_del. unfold mbind at 1, M_bind at 1. cbn [getM].
  destruct (del_readers n p) as (r0 & h0 & Hr & Hr0 & Hh0).
  unfold mbind at 1, M_bind at 1. rewrite Hr. unfold mbind at 1, M_bind at 1. cbn -[decide].
  unfold mbind at 1, M_bind at 1.
  destruct (del_writer n (writable p)
    (mkPool r0 (delete n (readonly_in_use p)) (writable p) h0 (next_ptr p) (removed_dirs p)) eq_refl)
    as (m & h & -> & Hm & Hh). cbn -[decide]. intros Hres.
  assert (He : ∃ ds, p' = mkPool r0 (delete n (readonly_in_use p)) m h (next_ptr p) ds ∧ r = Ok ()).
  { destruct (d n); injection Hres as <- <-; eauto. }
  destruct He as (ds & -> & ->). split_and!; try done.
  - intros k. apply lookup_del.
  - intros c. cbn -[decide]. rewrite Hh. change (wr (mkPool _ _ (writable p) _ _ _) n) with (wr p n).
    cbn -[decide]. rewrite Hh0. repeat case_decide; tauto.
Qed.

Lemma del_wf d n p held p' r : pool_wf p held → CollectionPool_del d n p = (p', r) →
  pool_wf p' held ∧ ∀ c, c ∈ held → heap p' !! c = heap p !! c.
Proof.
  intros Hwf (_ & Hr & Hi & Hw & Hh & Hn)%del_effect.
  assert (Hlive : ∀ c obj, heap p !! c = Some obj → get_name obj ≠ n ∨ c ∈ held → heap p' !! c = Some obj).
  { intros c obj Hc Ho. rewrite Hh, decide_False; [done|]. intros [Hx|Hx].
    - destruct (pw_readonly _ _ Hwf n c Hx) as [He ?]. rewrite Hc in He. injection He as ->. cbn in *. tauto.
    - destruct (pw_writable _ _ Hwf n c Hx) as [He ?]. rewrite Hc in He. injection He as ->. cbn in *. tauto. }
  assert (Hback : ∀ c obj, heap p' !! c = Some obj → heap p !! c = Some obj ∧ c ∉ ro p n ∧ wr p n ≠ Some c).
  { intros c obj. rewrite Hh. case_decide; [done|tauto]. }
  split; [|intros c Hc; destruct (pw_held _ _ Hwf c Hc) as [obj Ho]; rewrite Ho; auto].
  split.
  - intros k c. rewrite Hr. case_decide; [set_solver|]. intros Hc.
    destruct (pw_readonly _ _ Hwf k c Hc). split; [|done]. apply Hlive; [done|]. cbn. auto.
  - intros k. rewrite Hr. case_decide; [|apply (pw_cached _ _ Hwf)]. split; [apply NoDup_nil_2|cbn; lia].
  - intros k c. rewrite Hw. case_decide; [done|]. intros Hc.
    destruct (pw_writable _ _ Hwf k c Hc). split; [|done]. apply Hlive; [done|]. cbn. auto.
  - intros c Hc. destruct (pw_held _ _ Hwf c Hc) as [obj Ho]. exists obj. auto.
  - intros c obj (Hc & H1 & H2)%Hback. rewrite Hr, Hw.
    destruct (pw_owned _ _ Hwf c obj Hc) as [?|Ho]; [auto|]. case_decide; [subst; tauto|auto].
  - intros c. rewrite Hn. intros Hc. destruct (pw_fresh _ _ Hwf c Hc) as [Hx Hy]. split.
    + destruct (heap p' !! c) eqn:E; [|done]. apply Hback in E. naive_solver.
    + intros k. rewrite Hi. case_decide; [set_solver|auto].
  - intros k c. rewrite Hi. case_decide; [set_solver|]. intros Hc [obj [Ho _]%Hback].
    destruct (pw_in_use _ _ Hwf k c Hc ltac:(eauto)). auto.
  - intros k. rewrite Hi. case_decide; [apply NoDup_nil_2|apply (pw_in_use_nodup _ _ Hwf)].
Qed.

Lemma step_wf s o s' : pool_wf s.1 s.2 → pool_step s o s' → pool_wf s'.1 s'.2.
Proof.
  intros Hwf Hst. destruct Hst as [p held f n p' c H|p held f n p' e H|p held f n p' c H|p held f n p' e H
    |p held c p' r Hc H|p held d n p' r H|p held c p' r Hc H]; cbn in *.
  - by destruct (get_readonly_wf _ _ _ _ _ _ Hwf H) as [(_ & ? & _) _].
  - by destruct (get_readonly_wf _ _ _ _ _ _ Hwf H) as [[? _] _].
  - by destruct (get_writable_wf _ _ _ _ _ _ Hwf H) as [(_ & ? & _) _].
  - by destruct (get_writable_wf _ _ _ _ _ _ Hwf H) as [[? _] _].
  - by destruct (release_wf _ _ _ _ _ Hwf Hc H) as (_ & ? & _).
  - by destruct (del_wf _ _ _ _ _ _ Hwf H).
  - injection H as <- _. by apply wf_dealloc.
Qed.

Lemma new_pool_wf : pool_wf new_pool ∅.
Proof.
  assert (Hnil : ∀ (A : Type) n, default [] ((∅ : gmap string (list A)) !! n) = []) by done.
  split; unfold ro, iu, wr; cbn; intros n; try done; try set_solver.
  - split; [apply NoDup_nil_2|exact (Nat.le_0_l _)].
  - apply NoDup_nil_2.
Qed.

Lemma reachable_wf s : pool_reachable s → pool_wf s.1 s.2.
Proof. induction 1; [apply new_pool_wf|by eapply step_wf]. Qed.

(** ** Properties *)

(** A handle the pool does not expect back stays so until it is released. *)
Definition stale (n : string) (c : ptr) (s : pool_state) : Prop :=
  c ∈ s.2 ∧ heap s.1 !! c = Some (mkCollection n false) ∧ c ∉ iu s.1 n.

Lemma step_stale s o s' n c :
  pool_wf s.1 s.2 → pool_step s o s' → o ≠ PRelease c → o ≠ PDelete c → stale n c s → stale n c s'.
Proof.
  unfold stale. intros Hwf Hst Hr Hd (Hc & Hh & Hi).
  destruct Hst as [p held f k p' e H|p held f k p' e H|p held f k p' e H|p held f k p' e H
    |p held e p' r He H|p held d k p' r H|p held e p' r He H]; cbn in *.
  - destruct (get_readonly_wf _ _ _ _ _ _ Hwf H) as [(Hn & _ & _ & Hiu) Hf]. rewrite Hf, Hiu by done.
    split_and!; [set_solver|done|]. case_decide; [subst|done].
    rewrite elem_of_app, list_elem_of_singleton. naive_solver.
  - destruct (get_readonly_wf _ _ _ _ _ _ Hwf H) as [[_ Hiu] Hf]. by rewrite Hf, Hiu.
  - destruct (get_writable_wf _ _ _ _ _ _ Hwf H) as [(Hn & _ & _ & Hiu) Hf]. rewrite Hf, Hiu by done.
    split_and!; [set_solver|done..].
  - destruct (get_writable_wf _ _ _ _ _ _ Hwf H) as [[_ Hiu] Hf]. by rewrite Hf, Hiu.
  - assert (c ≠ e) by congruence. destruct (release_wf _ _ _ _ _ Hwf He H) as (_ & _ & Hiu & _ & Hf).
    rewrite Hf, Hiu by done. split_and!; [set_solver|done|tauto].
  - destruct (del_wf _ _ _ _ _ _ Hwf H) as [_ Hf]. rewrite Hf by done. apply del_effect in H as (_ & _ & Hiu & _).
    rewrite Hiu. split_and!; [done..|]. case_decide; [set_solver|done].
  - assert (c ≠ e) by congruence. injection H as <- _. cbn. rewrite lookup_delete_ne by done. set_solver.
Qed.

Inductive pool_steps : pool_state → list pool_op → pool_state → Prop :=
| steps_nil s : pool_steps s [] s
| steps_cons s o s1 os s2 : pool_step s o s1 → pool_steps s1 os s2 → pool_steps s (o :: os) s2.

Lemma steps_stale s os s' n c :
  pool_steps s os s' → pool_wf s.1 s.2 → Forall (λ o, o ≠ PRelease c ∧ o ≠ PDelete c) os →
  stale n c s → pool_wf s'.1 s'.2 ∧ stale n c s'.
Proof.
  induction 1 as [|s o s1 os s2 Hst _ IH]; intros Hwf Hos Hs; [done|].
  apply Forall_cons in Hos as [[??] Hos]. apply IH; [by eapply step_wf|done|by eapply step_stale].
Qed.

(** C25: whatever sequence of operations callers run on the pool, every handle alive
    is owned once, either by the caller it was lent to or by the pool under its own
    name and mode; at most five readers of a collection are kept; the pool never
    lends a handle that somebody holds, and releasing a held handle succeeds. *)
Theorem pool_ownership p held : pool_reachable (p, held) →
  (∀ c, is_Some (heap p !! c) ↔ c ∈ held ∨ ∃ n, c ∈ ro p n ∨ wr p n = Some c) ∧
  (∀ n c, c ∈ ro p n → c ∉ held ∧ heap p !! c = Some (mkCollection n false)) ∧
  (∀ n c, wr p n = Some c → c ∉ held ∧ heap p !! c = Some (mkCollection n true)) ∧
  (∀ n, NoDup (ro p n) ∧ length (ro p n) ≤ 5) ∧
  (∀ f n p' c, CollectionPool_get_readonly f n p = (p', Ok c) ∨ CollectionPool_get_writable f n p = (p', Ok c) →
     c ∉ held) ∧
  (∀ c, c ∈ held → ∃ p', CollectionPool_release c p = (p', Ok ())).
Proof.
  intros Hwf%reachable_wf. cbn in Hwf. split_and!.
  - intros c. split.
    + intros [obj Ho]. destruct (pw_owned _ _ Hwf c obj Ho); eauto.
    + intros [?|(n & [Hc|Hc])]; [by apply (pw_held _ _ Hwf)| |].
      * destruct (pw_readonly _ _ Hwf n c Hc); eauto.
      * destruct (pw_writable _ _ Hwf n c Hc); eauto.
  - intros n c Hc. by destruct (pw_readonly _ _ Hwf n c Hc).
  - intros n c Hc. by destruct (pw_writable _ _ Hwf n c Hc).
  - apply (pw_cached _ _ Hwf).
  - intros f n p' c [H|H]; [by destruct (get_readonly_wf _ _ _ _ _ _ Hwf H) as [[? _] _]|
      by destruct (get_writable_wf _ _ _ _ _ _ Hwf H) as [[? _] _]].
  - intros c Hc. destruct (CollectionPool_release c p) as [p' r] eqn:E.
    destruct (release_wf _ _ _ _ _ Hwf Hc E) as [-> _]. eauto.
Qed.

(** Once a collection is deleted, a reader of it that was lent out before never
    enters the pool again: whatever other operations run in between, releasing it
    deletes it. *)
Theorem stale_handle_dropped p held n c d s1 os s2 s3 :
  pool_reachable (p, held) → c ∈ held → heap p !! c = Some (mkCollection n false) →
  pool_step (p, held) (PDel d n) s1 →
  pool_steps s1 os s2 → Forall (λ o, o ≠ PRelease c ∧ o ≠ PDelete c) os →
  pool_step s2 (PRelease c) s3 →
  heap s3.1 !! c = None ∧ ∀ k, c ∉ ro s3.1 k ∧ wr s3.1 k ≠ Some c.
Proof.
  intros Hwf%reachable_wf Hc Hh Hdel Hos Hno Hrel.
  assert (Hwf1 : pool_wf s1.1 s1.2) by (eapply step_wf; [|exact Hdel]; done).
  assert (Hs1 : stale n c s1).
  { inversion Hdel as [| | | | |? ? ? ? p' r H|]; subst. destruct (del_wf _ _ _ _ _ _ Hwf H) as [_ Hf].
    unfold stale. cbn in *. rewrite Hf by done. apply del_effect in H as (_ & _ & Hiu & _).
    rewrite Hiu, decide_True by done. set_solver. }
  destruct (steps_stale _ _ _ _ _ Hos Hwf1 Hno Hs1) as [Hwf2 (Hc2 & Hh2 & Hi2)].
  assert (Hwf3 : pool_wf s3.1 s3.2) by (by eapply step_wf).
  assert (Hgone : heap s3.1 !! c = None).
  { inversion Hrel as [| | | |? ? ? p' r Hin H| |]; subst.
    destruct (release_wf _ _ _ _ _ Hwf2 Hin H) as (_ & _ & _ & Hx & _). by apply (Hx n). }
  split; [done|]. intros k. split; intros Hx.
  - destruct (pw_readonly _ _ Hwf3 k c Hx). congruence.
  - destruct (pw_writable _ _ Hwf3 k c Hx). congruence.
Qed.

(** A run: a reader of [a] is lent twice, the collection is deleted meanwhile. *)
Definition run_get : pool_state := ((CollectionPool_get_readonly None "a" new_pool).1, {[0%N]} ∪ ∅).
Definition run_del : pool_state := ((CollectionPool_del (λ _, true) "a" run_get.1).1, run_get.2).
Definition run_get2 : pool_state :=
  ((CollectionPool_get_readonly None "a" run_del.1).1, {[1%N]} ∪ run_del.2).
Definition run_release : pool_state := ((CollectionPool_release 0 run_get2.1).1, run_get2.2 ∖ {[0%N]}).

Lemma run_get_reachable : pool_reachable run_get.
Proof. eapply pool_next; [apply pool_start|]. by apply step_get_readonly with (f := None) (n := "a"). Qed.

Lemma pool_ownership_witness :
  pool_reachable run_get ∧ ∃ p', CollectionPool_release 0 run_get.1 = (p', Ok ()).
Proof.
  split; [apply run_get_reachable|].
  destruct (pool_ownership run_get.1 run_get.2 run_get_reachable) as (_ & _ & _ & _ & _ & H).
  apply H. vm_compute. reflexivity.
Defined.

Lemma stale_handle_dropped_witness :
  heap run_get2.1 !! 0%N = Some (mkCollection "a" false) ∧ heap run_release.1 !! 0%N = None.
Proof.
  split; [vm_compute; reflexivity|].
  assert (Hdel : pool_step run_get (PDel (λ _, true) "a") run_del) by (by eapply step_del).
  assert (Hget : pool_step run_del (PGetReadonly None "a") run_get2) by (by apply step_get_readonly).
  assert (Hrel : pool_step run_get2 (PRelease 0) run_release)
    by (eapply step_release; [vm_compute; reflexivity|reflexivity]).
  assert (H0 : 0%N ∈ run_get.2) by (vm_compute; reflexivity).
  assert (Hh : heap run_get.1 !! 0%N = Some (mkCollection "a" false)) by (vm_compute; reflexivity).
  assert (Hos : Forall (λ o, o ≠ PRelease 0 ∧ o ≠ PDelete 0) [PGetReadonly None "a"])
    by (repeat constructor; discriminate).
  pose proof (stale_handle_dropped run_get.1 run_get.2 "a" 0%N (λ _, true) run_del [PGetReadonly None "a"]
    run_get2 run_release run_get_reachable H0 Hh Hdel (steps_cons _ _ _ _ _ Hget (steps_nil _)) Hos Hrel) as H.
  exact (proj1 H).
Defined.
