(* ===== verification/KeyMaker.v ===== *)
(** * Sort keys from slot values

    src/postingsources/multivalue_keymaker.cc: the key a document is sorted by,
    built from the first value of each of several slots so that comparing keys as
    byte strings compares the columns in turn. *)

From S2P Require Import Prelude Serialise DocValues.

(** ** Definitions *)

(** A decoder and whether its column is sorted in reverse. *)
Definition MultiValueKeyMaker : Type := list (SlotDecoder * bool).

Definition MultiValueKeyMaker_add_decoder (d : SlotDecoder) (reverse : bool) (k : MultiValueKeyMaker) :=
  k ++ [(d, reverse)].

(** The loop of the reverse branch. *)
Fixpoint reverse_loop (s : string) : string :=
  match s with
  | EmptyString => EmptyString
  | String c s =>
      String (chr (255 - ord c)) (if (ord c =? 0)%N then String (chr 0) (reverse_loop s) else reverse_loop s)
  end.

(** [memchr(begin, 0, len)] as an offset from [begin]. *)
Fixpoint memchr0 (len : nat) (p : string) : option nat :=
  match len, p with
  | S len, String c p => if (ord c =? 0)%N then Some 0 else S <$> memchr0 len p
  | _, _ => None
  end.

(** The loop of the forward branch.  The state is [begin] (the buffer from there
    on) and [len]; [len -= (zero - begin)] comes after [begin = zero] and
    subtracts zero. *)
Fixpoint forward_loop (fuel : nat) (p : string) (len : nat) (result : string) : res string :=
  match fuel with
  | O => OutOfFuel
  | S fuel =>
      if decide (0 < len) then
        match memchr0 len p with
        | None => Ok (result +:+ str_take len p)
        | Some O => forward_loop fuel p len (result +:+ sing (chr 0))
        | Some zero =>
            forward_loop fuel (str_drop zero p) len (result +:+ str_take zero p +:+ sing (chr 0))
        end
      else Ok result
  end.

(** The part of the key of one column. *)
Definition column_key (fuel : nat) (reverse : bool) (value : option string) : res string :=
  match value with
  | None => Ok (sing (chr 1))
  | Some v =>
      if reverse
      then Ok (sing (chr 0) +:+ reverse_loop v +:+ String (chr 255) (sing (chr 255)))
      else k ← forward_loop fuel v (String.length v) (sing (chr 0));
           Ok (k +:+ String (chr 0) (sing (chr 0)))
  end.

(** [operator()]. *)
Fixpoint MultiValueKeyMaker_key `{DocStore Doc} (fuel : nat) (k : MultiValueKeyMaker) (doc : Doc)
    : res string :=
  match k with
  | [] => Ok ""
  | (d, reverse) :: k =>
      '(v, _) ← SlotDecoder_next (SlotDecoder_newdoc doc d);
      s ← column_key fuel reverse v;
      r ← MultiValueKeyMaker_key fuel k doc;
      Ok (s +:+ r)
  end.

(** ** The intended order *)

(** Order of two values of a column: a missing value comes last. *)
Definition column_lt (reverse : bool) (a b : option string) : Prop :=
  match a, b with
  | Some a, Some b => if reverse then str_lt b a else str_lt a b
  | Some _, None => True
  | None, _ => False
  end.

(** Lexicographic order of rows. *)
Fixpoint row_lt (revs : list bool) (a b : list (option string)) : Prop :=
  match revs, a, b with
  | r :: revs, x :: a, y :: b => column_lt r x y ∨ x = y ∧ row_lt revs a b
  | _, _, _ => False
  end.

Definition no_nul (s : string) : Prop := ∀ c, c ∈ bytes s → ord c ≠ 0%N.

(** ** Single columns *)

Lemma no_nul_cons c s : no_nul (String c s) → ord c ≠ 0%N ∧ no_nul s.
Proof. intros H. split; [apply H; cbn; set_solver|]. intros d Hd. apply H. cbn. set_solver. Qed.

Lemma memchr0_no_nul n s : no_nul s → memchr0 n s = None.
Proof.
  revert n. induction s as [|c s IH]; intros [|n] Hs; cbn; try done.
  apply no_nul_cons in Hs as [Hc Hs]. destruct (N.eqb_spec (ord c) 0); [done|]. by rewrite IH.
Qed.

Lemma str_take_all s : str_take (String.length s) s = s.
Proof. by rewrite <-(str_app_nil_r s) at 2; rewrite str_take_app. Qed.

Lemma forward_no_nul fuel v : no_nul v →
  column_key (S fuel) false (Some v) = Ok (sing (chr 0) +:+ v +:+ String (chr 0) (sing (chr 0))).
Proof.
  intros Hv. cbn [column_key forward_loop]. rewrite memchr0_no_nul by done. case_decide as Hl; cbn.
  - by rewrite str_take_all, str_app_assoc.
  - assert (v = "") as -> by (destruct v; [done|cbn in Hl; lia]). by rewrite str_app_nil_l.
Qed.

(** The key of a column, when there is one. *)
Definition column_bytes (reverse : bool) (value : option string) : string :=
  match value with
  | None => sing (chr 1)
  | Some v => sing (chr 0) +:+ (if reverse then reverse_loop v +:+ String (chr 255) (sing (chr 255))
                               else v +:+ String (chr 0) (sing (chr 0)))
  end.

Lemma column_key_ok fuel r v :
  (r = false → ∀ x, v = Some x → no_nul x) → column_key (S fuel) r v = Ok (column_bytes r v).
Proof.
  intros Hv. destruct v as [v|]; [|done]. destruct r; [done|]. apply forward_no_nul. auto.
Qed.

(** A byte that differs decides, whatever follows. *)
Lemma forward_lt a b x y : no_nul a → no_nul b → str_lt a b →
  str_lt (a +:+ String (chr 0) (String (chr 0) x)) (b +:+ String (chr 0) (String (chr 0) y)).
Proof.
  revert b. induction a as [|c a IH]; intros [|d b] Ha Hb Hlt; autorewrite with rpstr.
  - by apply str_lt_nil_r in Hlt.
  - apply no_nul_cons in Hb as [Hd _]. apply str_lt_cons. left. change (ord (chr 0)) with 0%N. lia.
  - by apply str_lt_nil_r in Hlt.
  - apply no_nul_cons in Ha as [_ Ha]. apply no_nul_cons in Hb as [_ Hb].
    apply str_lt_cons in Hlt as [?|[-> ?]]; apply str_lt_cons; [by left|right]. auto.
Qed.

Lemma ord_compl c : ord (chr (255 - ord c)) = (255 - ord c)%N.
Proof. pose proof (ord_bound c). apply ord_chr. lia. Qed.

Lemma reverse_lt a b x y : str_lt b a →
  str_lt (reverse_loop a +:+ String (chr 255) (String (chr 255) x))
         (reverse_loop b +:+ String (chr 255) (String (chr 255) y)).
Proof.
  revert b. induction a as [|c a IH]; intros [|d b] Hlt; cbn [reverse_loop]; autorewrite with rpstr.
  - by apply str_lt_nil_r in Hlt.
  - by apply str_lt_nil_r in Hlt.
  - apply str_lt_cons. rewrite ord_compl. change (ord (chr 255)) with 255%N. pose proof (ord_bound c).
    destruct (N.eqb_spec (ord c) 0) as [E|]; [right|left; lia]. rewrite E. split; [done|].
    rewrite str_app_cons. apply str_lt_cons. left. done.
  - apply str_lt_cons in Hlt as [Hlt|[-> Hlt]]; apply str_lt_cons; rewrite !ord_compl.
    + left. pose proof (ord_bound c). lia.
    + right. split; [done|]. destruct (ord c =? 0)%N; autorewrite with rpstr; [|by apply IH].
      apply str_lt_cons. right. auto.
Qed.

Lemma column_bytes_lt r v w x y :
  (r = false → ∀ s, v = Some s ∨ w = Some s → no_nul s) → column_lt r v w →
  str_lt (column_bytes r v +:+ x) (column_bytes r w +:+ y).
Proof.
  intros Hn Hlt. destruct v as [v|], w as [w|]; try done; cbn [column_bytes]; autorewrite with rpstr.
  apply str_lt_cons. right. split; [done|]. destruct r; autorewrite with rpstr.
  - by apply reverse_lt.
  - apply forward_lt; [..|done]; apply Hn; auto.
Qed.

Lemma column_trichotomy r v w : column_lt r v w ∨ v = w ∨ column_lt r w v.
Proof.
  destruct v as [v|], w as [w|]; cbn; auto.
  destruct (str_lt_trichotomy v w) as [?|[->|?]]; destruct r; auto.
Qed.

Lemma column_bytes_spec r v w x y :
  (r = false → ∀ s, v = Some s ∨ w = Some s → no_nul s) →
  str_lt (column_bytes r v +:+ x) (column_bytes r w +:+ y) ↔ column_lt r v w ∨ v = w ∧ str_lt x y.
Proof.
  intros Hn. split; [|intros [?|[-> ?]]; [by apply column_bytes_lt|by apply str_lt_app]].
  intros Hlt. destruct (column_trichotomy r v w) as [?|[->|Hgt]]; [auto| |].
  - right. split; [done|]. by apply str_lt_app in Hlt.
  - exfalso. assert (Hback : str_lt (column_bytes r w +:+ y) (column_bytes r v +:+ x)).
    { apply column_bytes_lt; [|done]. intros Hr s [?|?]; apply Hn; auto. }
    apply (irreflexivity str_lt (column_bytes r v +:+ x)). by etrans.
Qed.

(** ** Rows *)

(** [row] is what the decoders read from a document, forward columns without zero
    bytes. *)
Definition reads `{DocStore Doc} (k : MultiValueKeyMaker) (doc : Doc) (row : list (option string)) : Prop :=
  Forall2 (λ dr v, (∃ d', SlotDecoder_next (SlotDecoder_newdoc doc dr.1) = Ok (v, d')) ∧
    (dr.2 = false → ∀ s, v = Some s → no_nul s)) k row.

Definition row_bytes (k : MultiValueKeyMaker) (row : list (option string)) : string :=
  str_concat (zip_with (λ dr v, column_bytes dr.2 v) k row).

Lemma key_of_row `{DocStore Doc} fuel k (doc : Doc) row :
  reads k doc row → MultiValueKeyMaker_key (S fuel) k doc = Ok (row_bytes k row).
Proof.
  induction 1 as [|[d r] v k row [[d' Hd] Hn] _ IH]; [done|]. cbn [MultiValueKeyMaker_key].
  cbn in Hd, Hn. rewrite Hd. cbn [mbind res_bind]. rewrite column_key_ok by done.
  cbn [mbind res_bind]. by rewrite IH.
Qed.

Lemma row_bytes_lt `{DocStore Doc} k (doc1 doc2 : Doc) row1 row2 :
  reads k doc1 row1 → reads k doc2 row2 →
  str_lt (row_bytes k row1) (row_bytes k row2) ↔ row_lt k.*2 row1 row2.
Proof.
  intros H1. revert row2. induction H1 as [|[d r] v k row1 H1 _ IH]; intros row2 H2;
    inversion H2 as [|? w ? row2' Hw H2']; subst.
  - cbn. split; [by intros ?%str_lt_nil_r|done].
  - destruct H1 as [_ Hn1], Hw as [_ Hn2]. cbn in Hn1, Hn2.
    change (row_bytes ((d, r) :: k) (v :: row1)) with (column_bytes r v +:+ row_bytes k row1).
    change (row_bytes ((d, r) :: k) (w :: row2')) with (column_bytes r w +:+ row_bytes k row2').
    rewrite column_bytes_spec by (intros ? ? [?|?]; eauto). rewrite IH by done. done.
Qed.

Lemma row_trichotomy revs a b : length revs = length a → length revs = length b →
  row_lt revs a b ∨ a = b ∨ row_lt revs b a.
Proof.
  revert a b. induction revs as [|r revs IH]; intros [|x a] [|y b]; cbn; try done; [auto|].
  intros [= Ha] [= Hb]. destruct (column_trichotomy r x y) as [?|[->|?]]; [auto| |auto].
  destruct (IH a b Ha Hb) as [?|[->|?]]; auto.
Qed.

(** A zero byte found stays at the front of what remains. *)
Lemma memchr0_drop len n p z : 0 < len → memchr0 n p = Some z → memchr0 len (str_drop z p) = Some 0.
Proof.
  intros Hl. revert p z. induction n as [|n IH]; intros [|c p] z; cbn; try done.
  destruct (N.eqb_spec (ord c) 0) as [E|].
  - cbn. intros [= <-]. destruct len; [lia|]. cbn. by rewrite E.
  - destruct (memchr0 n p) as [k|] eqn:Em; [|done]. cbn. intros [= <-]. exact (IH p k Em).
Qed.

(** ** Properties *)

(** C28: comparing keys compares rows.  For documents whose slots can be read and
    whose forward columns hold no zero byte, both keys are produced, and the
    first is smaller exactly when its row comes before in the lexicographic order
    of the columns -- in reverse for a column so marked, with missing values last
    either way; equal keys mean equal rows. *)
Theorem keymaker_order `{DocStore Doc} fuel k (doc1 doc2 : Doc) row1 row2 :
  reads k doc1 row1 → reads k doc2 row2 →
  ∃ k1 k2, MultiValueKeyMaker_key (S fuel) k doc1 = Ok k1 ∧ MultiValueKeyMaker_key (S fuel) k doc2 = Ok k2 ∧
    (str_lt k1 k2 ↔ row_lt k.*2 row1 row2) ∧ (k1 = k2 ↔ row1 = row2).
Proof.
  intros H1 H2. exists (row_bytes k row1), (row_bytes k row2).
  split_and!; [by apply key_of_row..|by eapply row_bytes_lt|].
  split; [|by intros ->]. intros He.
  destruct (row_trichotomy k.*2 row1 row2) as [Hlt|[?|Hlt]].
  - rewrite <-(Forall2_length _ _ _ H1). by rewrite length_fmap.
  - rewrite <-(Forall2_length _ _ _ H2). by rewrite length_fmap.
  - eapply (row_bytes_lt k doc1 doc2) in Hlt; [|done..]. rewrite He in Hlt. destruct (irreflexivity str_lt _ Hlt).
  - done.
  - eapply (row_bytes_lt k doc2 doc1) in Hlt; [|done..]. rewrite He in Hlt. destruct (irreflexivity str_lt _ Hlt).
Qed.

(** A forward column whose value holds a zero byte never ends: no amount of
    iterations lets the loop return. *)
Theorem keymaker_forward_diverges fuel v : ¬ no_nul v → column_key fuel false (Some v) = OutOfFuel.
Proof.
  intros Hv. cbn [column_key]. assert (Hm : ∃ z, memchr0 (String.length v) v = Some z ∧ z < String.length v).
  { revert Hv. clear fuel. induction v as [|c v IH]; intros Hv; [destruct Hv; intros ? ?; set_solver|]. cbn.
    destruct (N.eqb_spec (ord c) 0); [exists 0; split; [done|lia]|].
    destruct IH as (z & -> & ?); [|exists (S z); split; [done|lia]].
    intros Hs. apply Hv. intros d. cbn. rewrite elem_of_cons. intros [->|?]; auto. }
  destruct Hm as (z & Hm & Hz).
  enough (H : ∀ fuel p len r, len ≠ 0 → memchr0 len p = Some 0 → forward_loop fuel p len r = OutOfFuel).
  { destruct fuel as [|fuel]; [done|]. cbn [forward_loop]. rewrite decide_True by lia. rewrite Hm.
    destruct z as [|z]; [by rewrite H by (done || lia)|]. rewrite H; [done|lia|].
    apply (memchr0_drop _ (String.length v)); [lia|done]. }
  clear. induction fuel as [|fuel IH]; intros p len r Hl Hp; [done|]. cbn [forward_loop].
  rewrite decide_True by lia. rewrite Hp. by apply IH.
Qed.

(** Where the loop ends, its first round is the only one. *)
Lemma column_key_fuel fuel r v s : column_key fuel r v = Ok s → column_key 1 r v = Ok s.
Proof.
  intros H. destruct v as [v|]; [|done]. destruct r; [done|]. destruct (decide (Forall (λ c, ord c ≠ 0%N) (bytes v))) as [Hn|Hn].
  - assert (Hv : no_nul v) by (intros c Hc; by eapply Forall_forall in Hn). destruct fuel as [|fuel]; [done|].
    rewrite (column_key_ok fuel) in H by (intros _ ? [= <-]; done). rewrite (column_key_ok 0) by (intros _ ? [= <-]; done). done.
  - rewrite keymaker_forward_diverges in H; [done|]. intros Hv. apply Hn, Forall_forall. auto.
Qed.

Lemma key_fuel `{DocStore Doc} fuel k (doc : Doc) s : MultiValueKeyMaker_key fuel k doc = Ok s → MultiValueKeyMaker_key 1 k doc = Ok s.
Proof.
  revert s. induction k as [|[d r] k IH]; intros s; [done|]. cbn [MultiValueKeyMaker_key].
  destruct (SlotDecoder_next _) as [[v d']| |]; [|done..]. cbn [mbind res_bind]. intros (c & Hc & H')%res_bind_ok.
  apply res_bind_ok in H' as (t & Ht & [= <-]). rewrite (column_key_fuel _ _ _ _ Hc). cbn [mbind res_bind]. by rewrite (IH t Ht).
Qed.

(** Two documents of one forward and one reverse column. *)
Definition example_keymaker : MultiValueKeyMaker :=
  [(mkSlotDecoder 0 ENC_SINGLY_VALUED "" true "", false); (mkSlotDecoder 1 ENC_SINGLY_VALUED "" true "", true)].
Definition example_doc (a b : string) : gmap N string := {[0%N := a; 1%N := b]}.

Lemma keymaker_order_witness :
  reads example_keymaker (example_doc "a" "x") [Some "a"; Some "x"] ∧
  reads example_keymaker (example_doc "a" "b") [Some "a"; Some "b"] ∧
  ∃ k1 k2, MultiValueKeyMaker_key 1 example_keymaker (example_doc "a" "x") = Ok k1 ∧
    MultiValueKeyMaker_key 1 example_keymaker (example_doc "a" "b") = Ok k2 ∧ str_lt k1 k2.
Proof.
  assert (Hr : ∀ b, reads example_keymaker (example_doc "a" b) [Some "a"; Some b]).
  { intros b. repeat constructor; cbn; try (eexists; vm_compute; reflexivity); try discriminate.
    intros _ s [= <-] c Hc. cbn in Hc. apply list_elem_of_singleton in Hc as ->. discriminate. }
  split; [apply Hr|split; [apply Hr|]].
  destruct (keymaker_order 0 example_keymaker _ _ _ _ (Hr "x") (Hr "b")) as (k1 & k2 & H1 & H2 & H & _).
  exists k1, k2. split; [exact H1|split; [exact H2|]]. apply H. cbn. right. split; [reflexivity|].
  left. reflexivity.
Defined.

Lemma keymaker_forward_diverges_witness :
  ¬ no_nul (sing (chr 0)) ∧ column_key 1000 false (Some (sing (chr 0))) = OutOfFuel.
Proof.
  assert (H : ¬ no_nul (sing (chr 0))) by (intros H; apply (H (chr 0)); [cbn; left|reflexivity]).
  split; [exact H|]. apply (keymaker_forward_diverges 1000 _ H).
Defined.
