(* ===== verification/RangeSource.v ===== *)
(** * The source of documents with a value in a range

    src/postingsources/multivaluerange_source.cc: a posting source that walks the
    values of a slot and keeps the documents one of whose values lies between two
    bounds, and its serialised form.

    The weight type, its order and its serialised form are Xapian's, and so are the
    value stream of a slot (here the list of its remaining entries, by increasing
    document id) and the choice [ValueIterator::check] makes. *)

From S2P Require Import Prelude Serialise.

Section source.

Context {W : Type}.
Variable weight_gt : W → W → bool.

Abbreviation stream := (list (N * string)).

Record MultiValueRangeSource := mkSource {
  slot : N;
  wt : W;
  start_val : string;
  end_val : string;
  db : N → stream;
  started : bool;
  it : stream;
  maxweight : option W;
  termfreq_max : N;
  termfreq_min : N;
}.

Definition new_source (slot : N) (wt : W) (start_val end_val : string) : MultiValueRangeSource :=
  mkSource slot wt start_val end_val (λ _, []) false [] None 0 0.

Definition set_it (i : stream) : M MultiValueRangeSource () := modifyM (λ s,
  mkSource (slot s) (wt s) (start_val s) (end_val s) (db s) true i (maxweight s) (termfreq_max s) (termfreq_min s)).

(** ** Definitions *)

Fixpoint check_range_loop (fuel : nat) (start_val end_val : string) (pos : string) : res bool :=
  match fuel with
  | O => OutOfFuel
  | S fuel =>
      if (str_size pos =? 0)%N then Ok false
      else
        '(val, pos) ← decode_string pos;
        if bool_decide (String.le start_val val) && bool_decide (String.le val end_val) then Ok true
        else check_range_loop fuel start_val end_val pos
  end.

Definition MultiValueRangeSource_check_range (s : MultiValueRangeSource) (value : string) : res bool :=
  check_range_loop (S (String.length value)) (start_val s) (end_val s) value.

(** [init]; the estimate [termfreq_est], a floating-point half, is left out. *)
Definition MultiValueRangeSource_init (d : N → stream) : M MultiValueRangeSource () := modifyM (λ s,
  mkSource (slot s) (wt s) (start_val s) (end_val s) d false (it s) (Some (wt s))
    (N.of_nat (length (d (slot s)))) 0).

Definition MultiValueRangeSource_at_end (s : MultiValueRangeSource) : bool :=
  started s && match it s with [] => true | _ => false end.

Definition MultiValueRangeSource_get_docid (s : MultiValueRangeSource) : res N :=
  match it s with [] => throw UndefinedBehaviour | (d, _) :: _ => Ok d end.

(** [while (it != db.valuestream_end(slot)) ...], in [next] and [skip_to]. *)
Fixpoint scan (i : stream) : M MultiValueRangeSource () :=
  match i with
  | [] => set_it []
  | (d, v) :: rest =>
      set_it i ;;
      s ← getM;
      b ← liftM (MultiValueRangeSource_check_range s v);
      if b : bool then mret () else scan rest
  end.

Definition MultiValueRangeSource_next (min_wt : W) : M MultiValueRangeSource () :=
  s ← getM;
  (if started s
   then match it s with [] => throwM UndefinedBehaviour | _ :: rest => set_it rest end
   else set_it (db s (slot s))) ;;
  if weight_gt min_wt (wt s) then set_it []
  else s ← getM; scan (it s).

(** [it.skip_to(did)]. *)
Fixpoint it_skip_to (did : N) (i : stream) : stream :=
  match i with
  | [] => []
  | (d, v) :: rest => if (d <? did)%N then it_skip_to did rest else i
  end.

Definition start_if_needed (s : MultiValueRangeSource) : stream :=
  if started s then it s else db s (slot s).

Definition MultiValueRangeSource_skip_to (did : N) (min_wt : W) : M MultiValueRangeSource () :=
  s ← getM;
  let first := negb (started s) in
  set_it (start_if_needed s) ;;
  if first && match start_if_needed s with [] => true | _ => false end then mret ()
  else if weight_gt min_wt (wt s) then set_it []
  else scan (it_skip_to did (start_if_needed s)).

(** [it_check] is [it.check(did)]: whether the iterator was positioned, and where
    it is then. *)
Definition MultiValueRangeSource_check (it_check : N → stream → bool * stream) (did : N) (min_wt : W) : M MultiValueRangeSource bool :=
  s ← getM;
  let first := negb (started s) in
  set_it (start_if_needed s) ;;
  if first && match start_if_needed s with [] => true | _ => false end then mret true
  else if weight_gt min_wt (wt s) then set_it [] ;; mret true
  else
    let '(positioned, i) := it_check did (start_if_needed s) in
    set_it i ;;
    if negb positioned then mret false
    else match i with
         | [] => throwM UndefinedBehaviour
         | (_, v) :: _ => s ← getM; liftM (MultiValueRangeSource_check_range s v)
         end.

Definition MultiValueRangeSource_clone (s : MultiValueRangeSource) : MultiValueRangeSource :=
  new_source (slot s) (wt s) (start_val s) (end_val s).

Definition MultiValueRangeSource_serialise (sortable_serialise : W → string) (s : MultiValueRangeSource) : string :=
  encode_length (slot s) +:+
  encode_length (str_size (start_val s)) +:+ start_val s +:+
  encode_length (str_size (end_val s)) +:+ end_val s +:+
  sortable_serialise (wt s).

(** The slot is a 32-bit [Xapian::valueno]. *)
Definition MultiValueRangeSource_unserialise (sortable_unserialise : string → W) (s : string) : res MultiValueRangeSource :=
  '(new_slot, p) ← rsp_decode_length s false;
  '(new_start_val, p) ← decode_string p;
  '(new_end_val, p) ← decode_string p;
  let new_wt := sortable_unserialise p in
  if negb (str_size p =? 0)%N
  then throw (NetworkError "Bad serialised MultiValueRangeSource")
  else Ok (new_source (wrap32 new_slot) new_wt new_start_val new_end_val).

(** ** Lemmas *)

(** A value is in range when one of the strings it holds is. *)
Definition in_range (a b : string) (l : list string) : Prop := ∃ x, x ∈ l ∧ String.le a x ∧ String.le x b.
Definition in_range_b (a b : string) (l : list string) : bool :=
  existsb (λ x, bool_decide (String.le a x) && bool_decide (String.le x b)) l.

Lemma in_range_b_spec a b l : in_range_b a b l = true ↔ in_range a b l.
Proof.
  unfold in_range_b, in_range. rewrite existsb_exists. split.
  - intros (x & Hx & [H1 H2]%andb_true_iff). exists x. rewrite list_elem_of_In.
    by apply bool_decide_eq_true in H1, H2.
  - intros (x & Hx%list_elem_of_In & H1 & H2). exists x. split; [done|].
    by rewrite !bool_decide_true by done.
Qed.

Lemma check_range_ok s l : Forall encodable l →
  MultiValueRangeSource_check_range s (str_concat (encode_string <$> l)) = Ok (in_range_b (start_val s) (end_val s) l).
Proof.
  unfold MultiValueRangeSource_check_range. intros Hl.
  assert (Hf : length l < S (String.length (str_concat (encode_string <$> l)))).
  { enough (length l ≤ String.length (str_concat (encode_string <$> l))) by lia. apply concat_length_ge.
    intros x. destruct (encode_string_cons x) as (c & p & ->). cbn. lia. }
  revert Hf. generalize (S (String.length (str_concat (encode_string <$> l)))).
  induction Hl as [|x l Hx Hl IH]; intros [|fuel] Hf; cbn in Hf; try lia; [done|].
  cbn [check_range_loop]. change (str_concat (encode_string <$> x :: l)) with
    (encode_string x +:+ str_concat (encode_string <$> l)).
  destruct (encode_string_cons x) as (c & p & Hc).
  replace (str_size (encode_string x +:+ str_concat (encode_string <$> l)) =? 0)%N with false
    by (rewrite Hc, str_app_cons; symmetry; apply N.eqb_neq; unfold str_size; cbn; lia).
  rewrite decode_string_app by done. cbn [mbind res_bind]. cbn [in_range_b existsb].
  destruct (_ && _); cbn; [done|]. apply IH. lia.
Qed.

#[local] Instance in_range_dec a b l : Decision (in_range a b l).
Proof. refine (cast_if (decide (in_range_b a b l = true))); by rewrite <-in_range_b_spec. Defined.

(** The entries of a stream whose values are the given lists of strings. *)
Definition entries (vs : list (N * list string)) : stream :=
  (λ dl, (dl.1, str_concat (encode_string <$> dl.2))) <$> vs.

Definition well_formed (vs : list (N * list string)) : Prop := Forall (λ dl, Forall encodable dl.2) vs.

(** The part of the entries that starts at the first one in range. *)
Fixpoint from_match (a b : string) (vs : list (N * list string)) : list (N * list string) :=
  match vs with
  | [] => []
  | dl :: rest => if in_range_b a b dl.2 then vs else from_match a b rest
  end.

(** Two states of the same source but for the iterator. *)
Definition at_iter (s : MultiValueRangeSource) (i : stream) : MultiValueRangeSource :=
  mkSource (slot s) (wt s) (start_val s) (end_val s) (db s) true i (maxweight s) (termfreq_max s) (termfreq_min s).

Lemma scan_spec vs s : well_formed vs →
  scan (entries vs) s = (at_iter s (entries (from_match (start_val s) (end_val s) vs)), Ok ()).
Proof.
  intros Hvs. revert s. induction Hvs as [|[d l] vs Hl Hvs IH]; intros s; [done|].
  unfold entries. rewrite fmap_cons. fold (entries vs). cbn [scan fst snd].
  unfold mbind at 1, M_bind at 1. cbn [set_it modifyM]. unfold mbind at 1, M_bind at 1. cbn [getM].
  unfold mbind at 1, M_bind at 1. cbn [liftM]. rewrite check_range_ok by done. cbn [start_val end_val from_match snd].
  destruct (in_range_b _ _ l); [done|]. by rewrite IH.
Qed.

(** The matcher's loop: [next] until [at_end]. *)
Fixpoint drain (fuel : nat) (min_wt : W) : M MultiValueRangeSource (list N) :=
  match fuel with
  | O => liftM OutOfFuel
  | S fuel =>
      MultiValueRangeSource_next min_wt ;;
      s ← getM;
      if MultiValueRangeSource_at_end s then mret []
      else d ← liftM (MultiValueRangeSource_get_docid s); l ← drain fuel min_wt; mret (d :: l)
  end.

Definition matches (s : MultiValueRangeSource) (vs : list (N * list string)) : list N :=
  (filter (λ dl, in_range (start_val s) (end_val s) dl.2) vs).*1.

Lemma matches_cons s dl vs :
  matches s (dl :: vs) = if in_range_b (start_val s) (end_val s) dl.2 then dl.1 :: matches s vs else matches s vs.
Proof.
  unfold matches. rewrite filter_cons. case_decide as H; rewrite <-in_range_b_spec in H.
  - by rewrite H.
  - by destruct (in_range_b _ _ _).
Qed.

Lemma from_match_spec s vs : well_formed vs →
  matches s vs = matches s (from_match (start_val s) (end_val s) vs) ∧
  well_formed (from_match (start_val s) (end_val s) vs) ∧
  length (from_match (start_val s) (end_val s) vs) ≤ length vs ∧
  ∀ dl rest, from_match (start_val s) (end_val s) vs = dl :: rest →
    in_range_b (start_val s) (end_val s) dl.2 = true.
Proof.
  intros Hvs. induction Hvs as [|dl vs Hl Hvs IH]; cbn [from_match length]; [split_and!; [done|constructor|done|done]|].
  destruct (in_range_b _ _ dl.2) eqn:E.
  - split_and!; [done|by constructor|done|]. by intros ? ? [= <- <-].
  - rewrite matches_cons, E. destruct IH as (? & ? & ? & ?). split_and!; [done..|lia|done].
Qed.

(** Skipping keeps the entries from a document on. *)
Lemma skip_entries did vs : StronglySorted N.lt vs.*1 →
  it_skip_to did (entries vs) = entries (filter (λ dl, (did <= dl.1)%N) vs).
Proof.
  induction vs as [|[d l] vs IH]; intros Hs; [done|]. apply StronglySorted_inv in Hs as [Hs Hd].
  rewrite filter_cons. cbn. destruct (N.ltb_spec d did) as [Hlt|Hge].
  - rewrite decide_False by lia. by apply IH.
  - rewrite decide_True by done. cbn. f_equal. symmetry. f_equal. fold (entries vs).
    clear -Hge Hd. induction vs as [|e vs IH]; [done|]. cbn in Hd. apply Forall_cons in Hd as [He Hd].
    rewrite filter_cons, decide_True by lia. by rewrite IH.
Qed.

Lemma drain_spec vs min_wt fuel s e :
  well_formed vs → weight_gt min_wt (wt s) = false → length vs < fuel →
  it s = e :: entries vs → started s = true →
  ∃ s', drain fuel min_wt s = (s', Ok (matches s vs)).
Proof.
  intros Hvs Hw. revert fuel s e Hw. remember (length vs) as n eqn:Hn. revert vs Hvs Hn.
  induction n as [n IH] using lt_wf_ind. intros vs Hvs -> [|fuel] s e Hw Hf Hi Hst; [lia|].
  cbn [drain]. unfold mbind at 1, M_bind at 1.
  assert (Hnext : MultiValueRangeSource_next min_wt s =
    (at_iter s (entries (from_match (start_val s) (end_val s) vs)), Ok ())).
  { unfold MultiValueRangeSource_next, mbind, M_bind. cbn. rewrite Hst, Hi. cbn. rewrite Hw.
    cbn [it]. by rewrite scan_spec. }
  rewrite Hnext. unfold mbind at 1, M_bind at 1. cbn [getM].
  destruct (from_match_spec s vs Hvs) as (Hm & Hwf & Hlen & Hhd). rewrite Hm.
  destruct (from_match _ _ vs) as [|dl rest] eqn:Efm; [eauto|].
  unfold MultiValueRangeSource_at_end. cbn -[matches]. rewrite matches_cons, (Hhd _ _ eq_refl).
  apply Forall_cons in Hwf as [_ Hwf]. cbn in Hlen.
  unfold mbind, M_bind. cbn -[matches].
  destruct (IH (length rest) ltac:(lia) rest Hwf eq_refl fuel
    (at_iter s (entries (dl :: rest))) (dl.1, str_concat (encode_string <$> dl.2))) as (s' & Hs');
    [done|lia|done..|].
  cbn -[matches] in Hs'. rewrite Hs'. eauto.
Qed.

(** ** Properties *)

(** C38: walking the source yields exactly the documents with a value in the range,
    by increasing document id, and then is at its end: for a stream whose values
    are lists of encoded strings, and a minimum weight that is not above the weight of
    the source. *)
Theorem range_source_enumerates s d vs min_wt :
  well_formed vs → d (slot s) = entries vs → weight_gt min_wt (wt s) = false →
  ∃ s', (MultiValueRangeSource_init d ;; drain (S (length vs)) min_wt) s =
    (s', Ok (filter (λ dl, in_range (start_val s) (end_val s) dl.2) vs).*1).
Proof.
  intros Hvs Hd Hw. fold (matches s vs). unfold mbind at 1, M_bind at 1. cbn [MultiValueRangeSource_init modifyM].
  set (s0 := mkSource _ _ _ _ _ _ _ _ _ _).
  destruct (drain_spec vs min_wt (S (length vs)) (at_iter s0 ((0%N, "") :: entries vs)) (0%N, ""))
    as (s' & Hs'); [done..|lia|done|done|].
  exists s'. change (matches s vs) with (matches (at_iter s0 ((0%N, "") :: entries vs)) vs).
  rewrite <-Hs'. cbn [drain].
  assert (Hn : MultiValueRangeSource_next min_wt s0
    = MultiValueRangeSource_next min_wt (at_iter s0 ((0%N, "") :: entries vs))).
  { unfold MultiValueRangeSource_next, mbind, M_bind. cbn -[scan]. by rewrite Hd. }
  unfold mbind at 1, M_bind at 1. rewrite Hn. done.
Qed.

(** [skip_to] goes to the first document not before the one asked for that
    has a value in the range, wherever the iterator was before. *)
Theorem range_source_skip_to s vs did min_wt :
  well_formed vs → weight_gt min_wt (wt s) = false → StronglySorted N.lt vs.*1 →
  (if started s then it s else db s (slot s)) = entries vs →
  ∃ s', MultiValueRangeSource_skip_to did min_wt s = (s', Ok ()) ∧
    match (filter (λ dl, (did <= dl.1)%N ∧ in_range (start_val s) (end_val s) dl.2) vs).*1 with
    | [] => MultiValueRangeSource_at_end s' = true
    | d :: rest =>
        MultiValueRangeSource_at_end s' = false ∧ MultiValueRangeSource_get_docid s' = Ok d ∧
        ∃ s'', drain (S (length vs)) min_wt s' = (s'', Ok rest)
    end.
Proof.
  intros Hvs Hw Hsort Hit. set (vs' := filter (λ dl, (did <= dl.1)%N) vs).
  assert (Hskip : it_skip_to did (entries vs) = entries vs') by by apply skip_entries.
  assert (Hvs' : well_formed vs').
  { unfold well_formed, vs' in *. rewrite Forall_forall in Hvs |- *. intros dl [_ Hdl]%list_elem_of_filter. auto. }
  assert (Hf : (filter (λ dl, (did <= dl.1)%N ∧ in_range (start_val s) (end_val s) dl.2) vs).*1 = matches s vs').
  { unfold matches, vs'. f_equal. rewrite list_filter_filter. apply list_filter_iff. tauto. }
  assert (Hlen : length vs' ≤ length vs) by apply length_filter.
  rewrite Hf. exists (at_iter s (entries (from_match (start_val s) (end_val s) vs'))). split.
  - unfold MultiValueRangeSource_skip_to, start_if_needed, mbind, M_bind. cbn. rewrite Hit, Hw.
    destruct (negb (started s) && _) eqn:E.
    + apply andb_true_iff in E as [_ E]. by destruct vs.
    + rewrite Hskip. by rewrite scan_spec.
  - destruct (from_match_spec s vs' Hvs') as (-> & Hwf & Hl & Hhd).
    destruct (from_match _ _ vs') as [|dl rest] eqn:Efm; [done|]. rewrite matches_cons, (Hhd _ _ eq_refl).
    split_and!; [done..|]. cbn in Hl. apply Forall_cons in Hwf as [_ Hwf].
    destruct (drain_spec rest min_wt (S (length vs)) (at_iter s (entries (dl :: rest)))
      (dl.1, str_concat (encode_string <$> dl.2))) as (s'' & Hs''); [done..|lia|done|done|].
    exists s''. exact Hs''.
Qed.

(** A serialised source cannot be unserialised: the position is not moved past
    the weight before it is compared with the end, so every source whose weight
    serialises to at least one byte is refused, and only the others come back. *)
Theorem range_source_serialise_refused sortable_serialise sortable_unserialise s :
  (slot s < 2 ^ 32)%N → encodable (start_val s) → encodable (end_val s) →
  MultiValueRangeSource_unserialise sortable_unserialise (MultiValueRangeSource_serialise sortable_serialise s) =
    if decide (sortable_serialise (wt s) = "")
    then Ok (new_source (slot s) (sortable_unserialise "") (start_val s) (end_val s))
    else throw (NetworkError "Bad serialised MultiValueRangeSource").
Proof.
  intros Hs H1 H2. unfold MultiValueRangeSource_unserialise, MultiValueRangeSource_serialise.
  rewrite decode_encode_ok by (done || (unfold max_length; lia)). cbn [mbind res_bind].
  rewrite <-(str_app_assoc (encode_length (str_size (start_val s)))). fold (encode_string (start_val s)).
  rewrite decode_string_app by done. cbn [mbind res_bind].
  rewrite <-(str_app_assoc (encode_length (str_size (end_val s)))). fold (encode_string (end_val s)).
  rewrite decode_string_app by done. cbn [mbind res_bind].
  destruct (sortable_serialise (wt s)) as [|c w]; cbn.
  - unfold wrap32. by rewrite N.mod_small.
  - rewrite decide_False by done. done.
Qed.

End source.

(** Weights as numbers, serialised in one byte. *)
Definition example_source : MultiValueRangeSource := new_source (W:=N) 3 5%N "b" "d".
Definition example_entries : list (N * list string) := [(1%N, ["a"]); (2%N, ["a"; "c"]); (7%N, ["d"])].
Definition example_db (slot : N) : list (N * string) := entries example_entries.

Lemma example_well_formed : well_formed example_entries.
Proof. repeat constructor. Qed.

Lemma range_source_enumerates_witness :
  ∃ s', (MultiValueRangeSource_init example_db ;; drain (W:=N) (λ a b, (b <? a)%N) 4 0%N) example_source =
    (s', Ok [2%N; 7%N]).
Proof.
  exact (range_source_enumerates (λ a b, (b <? a)%N) example_source example_db example_entries 0%N
    example_well_formed eq_refl eq_refl).
Defined.

Lemma range_source_skip_to_witness :
  ∃ s', MultiValueRangeSource_skip_to (W:=N) (λ a b, (b <? a)%N) 2 0%N
    (MultiValueRangeSource_init example_db example_source).1 = (s', Ok ()) ∧
    MultiValueRangeSource_get_docid s' = Ok 2%N.
Proof.
  destruct (range_source_skip_to (λ a b, (b <? a)%N) (MultiValueRangeSource_init example_db example_source).1
    example_entries 2 0%N example_well_formed eq_refl ltac:(repeat constructor) eq_refl) as (s' & H1 & H2).
  exists s'. split; [exact H1|]. exact (proj1 (proj2 H2)).
Defined.

Lemma range_source_serialise_refused_witness :
  (3 < 2 ^ 32)%N ∧ MultiValueRangeSource_unserialise (λ s, str_size s)
    (MultiValueRangeSource_serialise (λ w, sing (chr w)) example_source)
    = throw (NetworkError "Bad serialised MultiValueRangeSource").
Proof.
  split; [reflexivity|].
  exact (range_source_serialise_refused (λ w, sing (chr w)) (λ s, str_size s) example_source
    ltac:(reflexivity) ltac:(reflexivity) ltac:(reflexivity)).
Defined.
