(* ===== verification/Http.v ===== *)
(** * Requests and responses

    src/httpserver/response.h, httpserver.h and httpserver.cc: the response under
    construction, the state of one connection, the decoding of its URL, method and
    arguments, and the refusal of methods.

    libmicrohttpd accepts or refuses a header and a queued response: the predicate
    [header_ok] and the field [mhd_accepts] are its answers. *)

From S2P Require Import Prelude TextUtils.

(** ** Definitions *)

(** [enum HTTPMethod]. *)
Definition HTTP_UNKNOWN : N := 0.
Definition HTTP_HEAD : N := 1.
Definition HTTP_GET : N := 2.
Definition HTTP_GETHEAD : N := 3.
Definition HTTP_POST : N := 4.
Definition HTTP_PUT : N := 8.
Definition HTTP_DELETE : N := 16.
Definition HTTP_METHODMASK_MAX : N := 31.

(** [mhd] is the libmicrohttpd response: none before [set_data], then its headers. *)
Record Response := mkResponse {
  mhd : option (list (string * string));
  status_code : Z;
  outbuf : string;
}.

Definition new_Response : Response := mkResponse None 200 "".
Definition Response_set_status (st : Z) (r : Response) : Response := mkResponse (mhd r) st (outbuf r).
Definition Response_set_data (data : string) (r : Response) : Response := mkResponse (Some []) (status_code r) data.

Record ConnectionInfo := mkConn {
  resulthandle : Response;
  method : N;
  host : string;
  url : string;
  first_call : bool;
  responded : bool;
  components : list string;
  uri_args : gmap string (list string);
  mhd_accepts : bool;
}.

(** [switch (method_[0])]; a C string ends with a zero byte. *)
Definition parse_method (m : string) : N :=
  match m with
  | String c rest =>
      if decide (c = "H"%char) then HTTP_HEAD
      else if decide (c = "G"%char) then HTTP_GET
      else if decide (c = "D"%char) then HTTP_DELETE
      else if decide (c = "P"%char) then
        match rest with
        | String c _ => if decide (c = "O"%char) then HTTP_POST
                        else if decide (c = "U"%char) then HTTP_PUT
                        else HTTP_UNKNOWN
        | EmptyString => HTTP_UNKNOWN
        end
      else HTTP_UNKNOWN
  | EmptyString => HTTP_UNKNOWN
  end.

Definition new_ConnectionInfo (m u : string) (accepts : bool) : ConnectionInfo :=
  mkConn new_Response (parse_method m) "" u true false [] ∅ accepts.

Definition set_response (f : Response → Response) : M ConnectionInfo () := modifyM (λ c,
  mkConn (f (resulthandle c)) (method c) (host c) (url c) (first_call c) (responded c) (components c)
    (uri_args c) (mhd_accepts c)).
Definition set_components (l : list string) : M ConnectionInfo () := modifyM (λ c,
  mkConn (resulthandle c) (method c) (host c) (url c) (first_call c) (responded c) l (uri_args c) (mhd_accepts c)).
Definition set_responded : M ConnectionInfo () := modifyM (λ c,
  mkConn (resulthandle c) (method c) (host c) (url c) (first_call c) true (components c) (uri_args c)
    (mhd_accepts c)).

Section http.
Variable header_ok : string → string → bool.

Definition Response_add_header (header value : string) : M ConnectionInfo () :=
  c ← getM;
  match mhd (resulthandle c) with
  | None => throwM (HTTPServerError "Need to set response body before setting headers")
  | Some hs =>
      if header_ok header value
      then set_response (λ r, mkResponse (Some (hs ++ [(header, value)])) (status_code r) (outbuf r))
      else throwM (HTTPServerError ("Can't set header '" +:+ header +:+ "' to '" +:+ value +:+ "'"))
  end.

Definition Response_set_content_type (content_type : string) : M ConnectionInfo () :=
  Response_add_header "Content-Type" content_type.

(** [respond()]: hands the response over to libmicrohttpd. *)
Definition ConnectionInfo_respond0 : M ConnectionInfo () :=
  c ← getM;
  match mhd (resulthandle c) with
  | None => throwM (HTTPServerError "No response to send")
  | Some _ =>
      if mhd_accepts c then set_responded
      else throwM (HTTPServerError "Couldn't queue response")
  end.

Definition ConnectionInfo_respond (status : Z) (data content_type : string) : M ConnectionInfo () :=
  set_response (Response_set_status status) ;;
  set_response (Response_set_data data) ;;
  Response_set_content_type content_type ;;
  ConnectionInfo_respond0.

(** [respond(resulthandle_)]: the handle shared with a task. *)
Definition ConnectionInfo_respond_handle (r : Response) : M ConnectionInfo () :=
  set_response (λ _, r) ;; ConnectionInfo_respond0.

(** The value of the [Allow] header: what is left of [allowed] before the zero
    byte written over its last comma. *)
Definition allowed_header (allowed_methods : N) : string :=
  let add m s allowed := if (N.land allowed_methods m =? 0)%N then allowed else allowed +:+ s in
  let allowed := add HTTP_DELETE "DELETE," (add HTTP_PUT "PUT," (add HTTP_POST "POST,"
                   (add HTTP_GET "GET," (add HTTP_HEAD "HEAD," "")))) in
  str_take (String.length allowed - 1) allowed.

Definition ConnectionInfo_require_method (allowed_methods : N) : M ConnectionInfo bool :=
  c ← getM;
  if negb (N.land (method c) allowed_methods =? 0)%N then mret true
  else
    set_response (Response_set_status 405) ;;
    set_response (Response_set_data "Invalid HTTP method") ;;
    Response_set_content_type "text/plain" ;;
    Response_add_header "Allow" (allowed_header allowed_methods) ;;
    ConnectionInfo_respond0 ;;
    mret false.

End http.

Definition ConnectionInfo_get_uri_arg_vals (key : string) (c : ConnectionInfo) : option (list string) :=
  uri_args c !! key.

(** [vals->front()]. *)
Definition ConnectionInfo_get_uri_arg_val (key : string) (c : ConnectionInfo) : res (option string) :=
  match ConnectionInfo_get_uri_arg_vals key c with
  | None => Ok None
  | Some (v :: _) => Ok (Some v)
  | Some [] => throw UndefinedBehaviour
  end.

Definition tolower (c : ascii) : ascii := if in_span "A" "Z" c then chr (ord c + 32) else c.
Definition lower (s : string) : string := String.string_of_list_ascii (tolower <$> bytes s).

Definition ConnectionInfo_get_uri_arg_bool (key : string) (defval : bool) (c : ConnectionInfo) : res bool :=
  v ← ConnectionInfo_get_uri_arg_val key c;
  match v with
  | None => Ok defval
  | Some v =>
      let val := lower v in
      if bool_decide (val ∈ ["1"; "true"; "yes"; "on"]) then Ok true
      else if bool_decide (val ∈ ["0"; "false"; "no"; "off"]) then Ok false
      else Ok defval
  end.

(** [receive_argument], called by libmicrohttpd for each argument. *)
Definition receive_argument (key value : string) : M ConnectionInfo () := modifyM (λ c,
  mkConn (resulthandle c) (method c) (host c) (url c) (first_call c) (responded c) (components c)
    (<[key := default [] (uri_args c !! key) ++ [value]]> (uri_args c)) (mhd_accepts c)).

(** The bytes before the first slash, and the rest from it on ([strchr]). *)
Fixpoint span_slash (s : string) : string * string :=
  match s with
  | EmptyString => ("", "")
  | String c r => if decide (c = "/"%char) then ("", s)
                  else let '(a, b) := span_slash r in (String c a, b)
  end.

(** The loop of [parse_url_components], from [pos]: the search for a slash starts
    after the first byte of a component. *)
Fixpoint url_components (fuel : nat) (pos : string) : res (list string) :=
  match fuel with
  | O => OutOfFuel
  | S fuel =>
      match pos with
      | EmptyString => Ok [""]
      | String c r =>
          match span_slash r with
          | (a, EmptyString) => Ok [String c a]
          | (a, String _ next) => l ← url_components fuel next; Ok (String c a :: l)
          end
      end
  end.

Definition ConnectionInfo_parse_url_components : M ConnectionInfo () :=
  set_components [] ;;
  c ← getM;
  match url c with
  | EmptyString => throwM UndefinedBehaviour
  | String _ pos => l ← liftM (url_components (S (String.length pos)) pos); set_components l
  end.

Definition ConnectionInfo_method_str (c : ConnectionInfo) : string :=
  if (method c =? HTTP_HEAD)%N then "HEAD"
  else if (method c =? HTTP_GET)%N then "GET"
  else if (method c =? HTTP_POST)%N then "POST"
  else if (method c =? HTTP_PUT)%N then "PUT"
  else if (method c =? HTTP_DELETE)%N then "DELETE"
  else "UNKNOWN".

(** ** Lemmas *)

Lemma span_slash_spec s : let '(a, b) := span_slash s in
  s = a +:+ b ∧ "/"%char ∉ bytes a ∧ (b = "" ∨ ∃ r, b = String "/" r).
Proof.
  induction s as [|c s IH]; cbn; [split_and!; [done|set_solver|auto]|].
  case_decide as Hc; [subst; split_and!; [done|set_solver|eauto]|].
  destruct (span_slash s) as [a b]. destruct IH as (-> & Ha & Hb). split_and!; [done| |done].
  cbn. set_solver.
Qed.

Lemma span_slash_app a b : "/"%char ∉ bytes a → (b = "" ∨ ∃ r, b = String "/" r) → span_slash (a +:+ b) = (a, b).
Proof.
  intros Ha Hb. induction a as [|c a IH]; autorewrite with rpstr.
  - destruct Hb as [->|[r ->]]; [done|]. cbn. done.
  - cbn in Ha. cbn. rewrite decide_False by set_solver. rewrite IH by set_solver. done.
Qed.

Lemma string_join_cons sep x l :
  string_join sep (x :: l) = match l with [] => x | _ => x +:+ sep +:+ string_join sep l end.
Proof.
  unfold string_join. cbn [foldl]. rewrite str_app_nil_l.
  set (f := λ (st : string * bool) x, _).
  assert (H : ∀ l s, (foldl f (s, true) l).1 = s +:+ match l with [] => "" | _ => sep +:+ (foldl f ("", false) l).1 end).
  { clear. induction l as [|y l IH]; intros s; cbn; [by rewrite str_app_nil_r|].
    rewrite IH. rewrite str_app_nil_l, (IH y). autorewrite with rpstr. done. }
  rewrite H. destruct l; [by rewrite str_app_nil_r|done].
Qed.

(** The outcomes of [require_method]. *)
Lemma require_method_cases header_ok a c c' r :
  ConnectionInfo_require_method header_ok a c = (c', r) →
  match r with
  | Ok true => c' = c ∧ N.land (method c) a ≠ 0%N
  | Ok false => N.land (method c) a = 0%N ∧ responded c' = true
  | Throw _ => N.land (method c) a = 0%N
  | OutOfFuel => False
  end.
Proof.
  unfold ConnectionInfo_require_method, Response_set_content_type, Response_add_header, ConnectionInfo_respond0,
    mbind, M_bind. cbn -[allowed_header].
  destruct (N.eqb_spec (N.land (method c) a) 0) as [E|E]; cbn -[allowed_header]; [|by intros [= <- <-]].
  destruct (header_ok "Content-Type" "text/plain"); cbn -[allowed_header]; [|by intros [= <- <-]].
  destruct (header_ok "Allow" (allowed_header a)); cbn -[allowed_header]; [|by intros [= <- <-]].
  destruct (mhd_accepts c); by intros [= <- <-].
Qed.

(** A component: no slash but perhaps at its front. *)
Definition component_ok (s : string) : Prop :=
  match s with EmptyString => True | String _ r => "/"%char ∉ bytes r end.

Lemma url_components_nonempty fuel pos l : url_components fuel pos = Ok l → l ≠ [].
Proof.
  destruct fuel as [|fuel]; cbn; [done|]. destruct pos as [|c r]; [by intros [= <-]|].
  destruct (span_slash r) as [a [|d next]]; [by intros [= <-]|].
  destruct (url_components fuel next); cbn; [by intros [= <-]|done..].
Qed.

Lemma url_components_mono fuel fuel' pos l :
  url_components fuel pos = Ok l → fuel ≤ fuel' → url_components fuel' pos = Ok l.
Proof.
  revert fuel' pos l. induction fuel as [|fuel IH]; intros [|fuel'] pos l; cbn [url_components]; [done..|lia|].
  intros H Hle. destruct pos as [|c r]; [done|]. destruct (span_slash r) as [a [|d next]]; [done|].
  destruct (url_components fuel next) as [l'|e|] eqn:E; [|done..]. by rewrite (IH fuel' _ _ E) by lia.
Qed.

Lemma url_components_cons fuel c a next l : "/"%char ∉ bytes a →
  url_components fuel next = Ok l →
  url_components (S fuel) (String c a +:+ String "/" next) = Ok (String c a :: l).
Proof.
  intros Ha Hl. rewrite str_app_cons. cbn [url_components]. rewrite span_slash_app by eauto. by rewrite Hl.
Qed.

(** The loop ends, every round consuming at least one byte, and the components make
    the path up. *)
Lemma url_components_ok pos : ∃ l, url_components (S (String.length pos)) pos = Ok l ∧ string_join "/" l = pos ∧
  Forall component_ok l ∧ ∀ i, S i < length l → l !! i ≠ Some "".
Proof.
  assert (H : ∀ fuel pos, String.length pos < fuel →
    ∃ l, url_components fuel pos = Ok l ∧ string_join "/" l = pos ∧
      Forall component_ok l ∧ ∀ i, S i < length l → l !! i ≠ Some ""); [|apply H; lia].
  clear. induction fuel as [|fuel IH]; intros pos Hf; [lia|]. cbn [url_components].
  destruct pos as [|c r].
  { exists [""]. split_and!; [done..|by repeat constructor|]. cbn. intros. lia. }
  pose proof (span_slash_spec r) as Hs. destruct (span_slash r) as [a b]. destruct Hs as (-> & Ha & Hb).
  destruct b as [|d next].
  + rewrite str_app_nil_r. exists [String c a]. split_and!; [done..|by repeat constructor|]. cbn. intros. lia.
  + destruct Hb as [?|[r [= -> ->]]]; [done|]. cbn in Hf. rewrite str_app_length in Hf. cbn in Hf.
    destruct (IH r) as (l & Hl & Hj & Hok & Hne); [lia|]. rewrite Hl. cbn [mbind res_bind].
    exists (String c a :: l). split_and!; [done| |by constructor|].
    * rewrite string_join_cons. pose proof (url_components_nonempty _ _ _ Hl) as Hnil.
      destruct l as [|x l]; [done|]. rewrite Hj. by autorewrite with rpstr.
    * intros [|i]; cbn; [done|]. intros Hi. apply Hne. lia.
Qed.

(** ** Properties *)

(** Decoding a URL path.  It always ends; the components joined by slashes are
    the path, none is empty but perhaps the last, and none holds a slash except
    as its first byte; and the components that come from joining plain nonempty
    names, perhaps with an empty last one, are those names. *)
Theorem url_components_spec pos names final :
  (∃ l, url_components (S (String.length pos)) pos = Ok l ∧ string_join "/" l = pos ∧
     Forall component_ok l ∧ ∀ i, S i < length l → l !! i ≠ Some "") ∧
  (Forall (λ s, s ≠ "" ∧ "/"%char ∉ bytes s) names ∧ "/"%char ∉ bytes final →
     let path := string_join "/" (names ++ [final]) in
     url_components (S (String.length path)) path = Ok (names ++ [final])).
Proof.
  split.
  - apply url_components_ok.
  - intros [Hn Hf] path.
    assert (H : ∀ fuel, length names < fuel → url_components fuel path = Ok (names ++ [final])).
    { unfold path. clear path pos. induction Hn as [|x names [Hx1 Hx2] Hn IH]; intros [|fuel] Hlt; cbn in Hlt; try lia.
      - cbn [app]. rewrite string_join_cons. destruct final as [|c r]; [done|]. cbn [url_components].
        cbn in Hf. pose proof (span_slash_app r "" ltac:(set_solver) ltac:(auto)) as Hs.
        rewrite str_app_nil_r in Hs. by rewrite Hs.
      - rewrite <-app_comm_cons, string_join_cons. destruct x as [|c r]; [done|].
        assert (names ++ [final] ≠ []) by (by destruct names).
        destruct (names ++ [final]) as [|y l]; [done|].
        autorewrite with rpstr. cbn in Hx2. cbn [url_components]. rewrite span_slash_app; [|set_solver|eauto].
        by rewrite IH by lia. }
    apply H. unfold path. clear -Hn. induction Hn as [|x names [Hx _] _ IH]; cbn [length]; [lia|].
    rewrite <-app_comm_cons, string_join_cons. destruct (names ++ [final]) as [|y l] eqn:E; [by destruct names|].
    rewrite <-E in *. destruct x; [done|]. rewrite !str_app_length. cbn in *. lia.
Qed.

(** [require_method] lets an allowed method through and leaves the connection
    alone; any other is answered at once with status 405 and the list of the
    allowed methods, provided libmicrohttpd takes the headers and the response. *)
Theorem require_method_spec header_ok allowed c :
  ConnectionInfo_require_method header_ok allowed c =
  if negb (N.land (method c) allowed =? 0)%N then (c, Ok true)
  else
    let hs1 := [("Content-Type", "text/plain")] in
    let hs2 := hs1 ++ [("Allow", allowed_header allowed)] in
    let answered hs done := mkConn (mkResponse (Some hs) 405 "Invalid HTTP method") (method c) (host c) (url c)
      (first_call c) done (components c) (uri_args c) (mhd_accepts c) in
    if negb (header_ok "Content-Type" "text/plain")
    then (answered [] (responded c), throw (HTTPServerError "Can't set header 'Content-Type' to 'text/plain'"))
    else if negb (header_ok "Allow" (allowed_header allowed))
    then (answered hs1 (responded c),
          throw (HTTPServerError ("Can't set header 'Allow' to '" +:+ allowed_header allowed +:+ "'")))
    else if negb (mhd_accepts c)
    then (answered hs2 (responded c), throw (HTTPServerError "Couldn't queue response"))
    else (answered hs2 true, Ok false).
Proof.
  unfold ConnectionInfo_require_method, Response_set_content_type, Response_add_header, ConnectionInfo_respond0,
    mbind, M_bind. cbn -[allowed_header].
  destruct (negb (N.land (method c) allowed =? 0)%N); [done|].
  destruct (header_ok "Content-Type" "text/plain"); cbn -[allowed_header]; [|done].
  destruct (header_ok "Allow" (allowed_header allowed)); cbn -[allowed_header]; [|by autorewrite with rpstr].
  destruct (mhd_accepts c); done.
Qed.
