(* ===== verification/Router.v ===== *)
(** * Routing of requests

    src/rest/router.h and router.cc: the tree of routes by path component, its
    construction from path patterns, and the search for the handler of a request. *)

From S2P Require Import Prelude TextUtils Http.

Section router.
Context {F : Type}.

(** ** Definitions *)

(** A [RouteLevel]: its depth, its sub-levels, its handlers by method and the mask
    of the methods it allows. *)
Inductive RouteLevel : Type :=
| mkLevel (level : N) (routes : gmap string RouteLevel) (handlers : gmap N F) (allowed_methods : N).

Definition level (n : RouteLevel) : N := let '(mkLevel l _ _ _) := n in l.
Definition routes (n : RouteLevel) : gmap string RouteLevel := let '(mkLevel _ r _ _) := n in r.
Definition handlers (n : RouteLevel) : gmap N F := let '(mkLevel _ _ h _) := n in h.
Definition allowed_methods (n : RouteLevel) : N := let '(mkLevel _ _ _ a) := n in a.

Definition new_RouteLevel (l : N) : RouteLevel := mkLevel l ∅ ∅ 0.

Section get.
Variable header_ok : string → string → bool.

Definition RouteLevel_get_method (n : RouteLevel) : M ConnectionInfo (option F) :=
  if (allowed_methods n =? 0)%N then mret None
  else
    ok ← ConnectionInfo_require_method header_ok (allowed_methods n);
    if negb ok then mret None
    else c ← getM; mret (handlers n !! method c).

(** The level a component leads to, with the key it was found under. *)
Definition find_route (c : string) (n : RouteLevel) : option (string * RouteLevel) :=
  match routes n !! c with
  | Some ch => Some (c, ch)
  | None => match routes n !! "?" with Some ch => Some ("?", ch) | None => None end
  end.

(** [get]: [rest] are the components of the URL from [level] on; the parameters
    collected so far come in and go out. *)
Fixpoint RouteLevel_get (rest : list string) (path_params : list string) (n : RouteLevel)
    : M ConnectionInfo (option F * list string) :=
  match rest with
  | [] => r ← RouteLevel_get_method n; mret (r, path_params)
  | c :: rest' =>
      '(found, path_params) ←
        match find_route c n with
        | Some (key, child) =>
            '(result, path_params) ←
              RouteLevel_get rest' (if bool_decide (key = "?") then path_params ++ [c] else path_params) child;
            conn ← getM;
            mret (if bool_decide (is_Some result) || responded conn then Some result else None, path_params)
        | None => mret (None, path_params)
        end;
      match found with
      | Some result => mret (result, path_params)
      | None =>
          match routes n !! "*" with
          | Some child =>
              let path_params := path_params ++ rest in
              r ← RouteLevel_get_method child; mret (r, path_params)
          | None => mret (None, path_params)
          end
      end
  end.

End get.

(** The components of a pattern, as [add] finds them from [pattern_offset] on: the
    byte there is skipped and the component runs to the next slash. *)
Fixpoint pattern_components (fuel : nat) (p : string) : res (list string) :=
  match fuel with
  | O => OutOfFuel
  | S fuel =>
      match p with
      | EmptyString => Ok []
      | String _ rest =>
          let '(component, next) := span_slash rest in
          l ← pattern_components fuel next; Ok (component :: l)
      end
  end.

(** [for (int i = 1; i <= HTTP_METHODMASK_MAX; i *= 2)]. *)
Definition all_methods : list N := [1; 2; 4; 8; 16]%N.
Definition method_bits (methods : N) : list N := filter (λ i, N.land methods i ≠ 0%N) all_methods.

Fixpoint add_handlers (bits : list N) (h : F) (hs : gmap N F) : gmap N F * res () :=
  match bits with
  | [] => (hs, Ok ())
  | i :: bits =>
      match hs !! i with
      | Some _ => (hs, throw (InvalidValueError "Duplicate handlers specified for path"))
      | None => add_handlers bits h (<[i := h]> hs)
      end
  end.

Fixpoint RouteLevel_add (components : list string) (methods : N) (h : F) (n : RouteLevel)
    : RouteLevel * res () :=
  match components with
  | component :: components =>
      let child := default (new_RouteLevel (level n + 1)) (routes n !! component) in
      let '(child, r) := RouteLevel_add components methods h child in
      (mkLevel (level n) (<[component := child]> (routes n)) (handlers n) (allowed_methods n), r)
  | [] =>
      let '(hs, r) := add_handlers (method_bits methods) h (handlers n) in
      (mkLevel (level n) (routes n) hs
         (match r with Ok _ => N.lor (allowed_methods n) methods | _ => allowed_methods n end), r)
  end.

Record Router := mkRouter {
  router_routes : RouteLevel;
  default_handler : option F;
}.

Definition new_Router : Router := mkRouter (new_RouteLevel 0) None.

Definition Router_add (path_pattern : string) (methods : N) (h : F) : M Router () :=
  components ← liftM (pattern_components (S (String.length path_pattern)) path_pattern);
  r ← getM;
  let '(n, res) := RouteLevel_add components methods h (router_routes r) in
  putM (mkRouter n (default_handler r)) ;; liftM res.

Definition Router_set_default (h : F) : M Router () :=
  modifyM (λ r, mkRouter (router_routes r) (Some h)).

(** The factory a request goes to, with the parameters [create] is given. *)
Definition Router_route_find (header_ok : string → string → bool) (r : Router)
    : M ConnectionInfo (option (F * list string)) :=
  ConnectionInfo_parse_url_components ;;
  conn ← getM;
  '(factory, path_params) ← RouteLevel_get header_ok (components conn) [] (router_routes r);
  conn ← getM;
  if responded conn then mret None
  else match factory with
       | Some f => mret (Some (f, path_params))
       | None => mret ((λ f, (f, [])) <$> default_handler r)
       end.

(** ** The table a tree stands for *)

Fixpoint node_at (p : list string) (n : RouteLevel) : option RouteLevel :=
  match p with
  | [] => Some n
  | c :: p => routes n !! c ≫= node_at p
  end.

Definition handler_at (p : list string) (i : N) (n : RouteLevel) : option F :=
  node_at p n ≫= λ m, handlers m !! i.
Definition allowed_at (p : list string) (n : RouteLevel) : N :=
  match node_at p n with Some m => allowed_methods m | None => 0 end.

Lemma handler_at_cons c p i n : handler_at (c :: p) i n = routes n !! c ≫= handler_at p i.
Proof. unfold handler_at. cbn. by destruct (routes n !! c). Qed.

Lemma allowed_at_cons c p n :
  allowed_at (c :: p) n = match routes n !! c with Some m => allowed_at p m | None => 0%N end.
Proof. unfold allowed_at. cbn. by destruct (routes n !! c). Qed.

Lemma handler_at_new p i l : handler_at p i (new_RouteLevel l) = None.
Proof. by destruct p. Qed.

Lemma allowed_at_new p l : allowed_at p (new_RouteLevel l) = 0%N.
Proof. by destruct p. Qed.

Lemma add_handlers_spec bits h hs : NoDup bits →
  let '(hs', r) := add_handlers bits h hs in
  match r with
  | Ok _ => (∀ i, i ∈ bits → hs !! i = None) ∧ ∀ i, hs' !! i = if decide (i ∈ bits) then Some h else hs !! i
  | Throw e => e = InvalidValueError "Duplicate handlers specified for path" ∧ ∃ i, i ∈ bits ∧ is_Some (hs !! i)
  | OutOfFuel => False
  end.
Proof.
  revert hs. induction bits as [|j bits IH]; intros hs Hnd; cbn; [set_solver|].
  apply NoDup_cons in Hnd as [Hj Hnd]. destruct (hs !! j) as [x|] eqn:Ej; [set_solver|].
  specialize (IH (<[j := h]> hs) Hnd). destruct (add_handlers bits h _) as [hs' [[]|e|]]; [|..|done].
  - destruct IH as [H1 H2]. split.
    + intros i [->|Hi]%elem_of_cons; [done|]. specialize (H1 i Hi). by apply lookup_insert_None in H1 as [? _].
    + intros i. rewrite H2. destruct (decide (i = j)) as [->|Hne].
      * rewrite decide_False by done. rewrite lookup_insert_eq, decide_True by set_solver. done.
      * rewrite lookup_insert_ne by done. repeat case_decide; set_solver.
  - destruct IH as [-> (i & Hi & Hs)]. split; [done|]. exists i. split; [set_solver|].
    rewrite lookup_insert_ne in Hs; [done|set_solver].
Qed.


Lemma method_bits_nodup m : NoDup (method_bits m).
Proof. apply NoDup_filter. repeat constructor; set_solver. Qed.

(** ** Matching *)

(** [pmatch p rest params star]: the pattern [p] matches the components [rest], its
    wildcards standing for [params]; [star] tells whether the last of them is the
    one that takes all that remains. *)
Inductive pmatch : list string → list string → list string → bool → Prop :=
| pm_nil : pmatch [] [] [] false
| pm_lit c p rest w b : c ≠ "?" → pmatch p rest w b → pmatch (c :: p) (c :: rest) w b
| pm_any c p rest w b : pmatch p rest w b → pmatch ("?" :: p) (c :: rest) (c :: w) b
| pm_star rest : rest ≠ [] → pmatch ["*"] rest rest true.

(** [follows n p rest params]: the search in [n] for the components [rest] takes the
    route [p], never a sibling: a wildcard stands only for components that have no
    level of their own. *)
Inductive follows : RouteLevel → list string → list string → list string → Prop :=
| fo_nil n : follows n [] [] []
| fo_lit n m c p rest w : c ≠ "?" → routes n !! c = Some m → follows m p rest w →
    follows n (c :: p) (c :: rest) w
| fo_any n m c p rest w : (c = "?" ∨ routes n !! c = None) → routes n !! "?" = Some m → follows m p rest w →
    follows n ("?" :: p) (c :: rest) (c :: w).

(** ** Lemmas *)

Lemma route_add_spec comps methods h n :
  let '(n', r) := RouteLevel_add comps methods h n in
  match r with
  | Ok _ => (∀ i, i ∈ method_bits methods → handler_at comps i n = None) ∧
      (∀ p i, handler_at p i n' =
         if decide (p = comps ∧ i ∈ method_bits methods) then Some h else handler_at p i n) ∧
      (∀ p, allowed_at p n' = if decide (p = comps) then N.lor (allowed_at p n) methods else allowed_at p n)
  | Throw e => e = InvalidValueError "Duplicate handlers specified for path" ∧
      ∃ i, i ∈ method_bits methods ∧ is_Some (handler_at comps i n)
  | OutOfFuel => False
  end.
Proof.
  revert n. induction comps as [|c comps IH]; intros n; cbn [RouteLevel_add].
  - pose proof (add_handlers_spec (method_bits methods) h (handlers n) (method_bits_nodup methods)) as Ha.
    destruct (add_handlers _ _ _) as [hs [[]|e|]]; [|exact Ha|done]. destruct Ha as [H1 H2].
    split_and!; [exact H1| |].
    + intros [|k p] i; [|case_decide as Hd; [by destruct Hd|done]].
      change (hs !! i = if decide (@nil string = [] ∧ i ∈ method_bits methods) then Some h else handlers n !! i).
      rewrite H2. apply decide_ext. tauto.
    + intros [|k p]; case_decide; done.
  - set (child := default _ (routes n !! c)). specialize (IH child).
    destruct (RouteLevel_add comps methods h child) as [child' r].
    assert (Hh : ∀ p i, handler_at (c :: p) i n = handler_at p i child).
    { intros p i. rewrite handler_at_cons. unfold child. destruct (routes n !! c); [done|].
      cbn. by rewrite handler_at_new. }
    assert (Ha : ∀ p, allowed_at (c :: p) n = allowed_at p child).
    { intros p. rewrite allowed_at_cons. unfold child. destruct (routes n !! c); [done|].
      cbn. by rewrite allowed_at_new. }
    destruct r as [[]|e|]; [|by setoid_rewrite Hh|done]. destruct IH as (H1 & H2 & H3). split_and!.
    + intros i. rewrite Hh. apply H1.
    + intros [|k p] i; [done|]. destruct (decide (k = c)) as [->|Hne].
      * rewrite Hh. rewrite handler_at_cons. cbn. rewrite lookup_insert_eq. cbn. rewrite H2.
        apply decide_ext. split; [by intros [-> ?]|by intros [[= ->] ?]].
      * rewrite decide_False by (intros [[= ->] _]; done). rewrite !handler_at_cons. cbn. by rewrite lookup_insert_ne.
    + intros [|k p]; [done|]. destruct (decide (k = c)) as [->|Hne].
      * rewrite Ha. rewrite allowed_at_cons. cbn. rewrite lookup_insert_eq, H3.
        apply decide_ext. split; [by intros ->|by intros [= ->]].
      * rewrite decide_False by (by intros [= ->]). rewrite !allowed_at_cons. cbn. by rewrite lookup_insert_ne.
Qed.

Lemma get_method_cases header_ok n c c' r :
  RouteLevel_get_method header_ok n c = (c', Ok r) →
  match r with Some f => c' = c ∧ handlers n !! method c = Some f | None => responded c' = false → c' = c end.
Proof.
  unfold RouteLevel_get_method. destruct (allowed_methods n =? 0)%N; [by intros [= <- <-]|]. unfold mbind, M_bind.
  destruct (ConnectionInfo_require_method _ _ c) as [c1 r1] eqn:E. apply require_method_cases in E.
  destruct r1 as [[]|e|]; cbn; [| |done..]; intros [= <- <-].
  - destruct E as [-> _]. by destruct (handlers n !! method c).
  - destruct E as [_ E]. congruence.
Qed.

(** One step of the search, the attempt below the level of a component first. *)
Lemma route_get_cons header_ok x rest params n c c' h ps :
  RouteLevel_get header_ok (x :: rest) params n c = (c', Ok (h, ps)) →
  (∃ key child, find_route x n = Some (key, child) ∧
     RouteLevel_get header_ok rest (if bool_decide (key = "?") then params ++ [x] else params) child c
     = (c', Ok (h, ps)) ∧ (is_Some h ∨ responded c' = true)) ∨
  (∃ c1 ps1, (find_route x n = None ∧ c1 = c ∧ ps1 = params ∨
      ∃ key child, find_route x n = Some (key, child) ∧
        RouteLevel_get header_ok rest (if bool_decide (key = "?") then params ++ [x] else params) child c
        = (c1, Ok (None, ps1)) ∧ responded c1 = false) ∧
     match routes n !! "*" with
     | Some child => RouteLevel_get_method header_ok child c1 = (c', Ok h) ∧ ps = ps1 ++ x :: rest
     | None => c' = c1 ∧ h = None ∧ ps = ps1
     end).
Proof.
  cbn [RouteLevel_get]. unfold mbind, M_bind.
  destruct (find_route x n) as [[key child]|].
  - destruct (RouteLevel_get header_ok rest _ child c) as [c1 [[h1 ps1]|e|]] eqn:E; [|done..]. cbn.
    destruct (bool_decide (is_Some h1) || responded c1) eqn:Eb; cbn.
    + intros [= <- <- <-]. left. exists key, child. split_and!; [done..|].
      apply orb_true_iff in Eb as [?%bool_decide_eq_true|?]; auto.
    + apply orb_false_iff in Eb as [Hn%bool_decide_eq_false Hr]. intros H. right. exists c1, ps1.
      assert (h1 = None) as -> by (destruct h1; [by destruct Hn|done]). split; [right; eauto|].
      destruct (routes n !! "*") as [ch|]; [|by injection H as <- <- <-].
      destruct (RouteLevel_get_method header_ok ch c1) as [c2 [h2|e|]]; [by injection H as <- <- <-|done..].
  - cbn. intros H. right. exists c, params. split; [auto|].
    destruct (routes n !! "*") as [ch|]; [|by injection H as <- <- <-].
    destruct (RouteLevel_get_method header_ok ch c) as [c2 [h2|e|]]; [by injection H as <- <- <-|done..].
Qed.

Lemma route_get_nil header_ok params n c c' h ps :
  RouteLevel_get header_ok [] params n c = (c', Ok (h, ps)) →
  RouteLevel_get_method header_ok n c = (c', Ok h) ∧ ps = params.
Proof.
  cbn. unfold mbind, M_bind. destruct (RouteLevel_get_method header_ok n c) as [c1 [h1|e|]]; [|done..].
  by intros [= <- <- <-].
Qed.

(** A search that finds nothing and does not answer leaves the connection alone and
    at most adds parameters. *)
Lemma route_get_silent header_ok rest : ∀ params n c c' ps,
  RouteLevel_get header_ok rest params n c = (c', Ok (None, ps)) → responded c' = false →
  c' = c ∧ ∃ extra, ps = params ++ extra.
Proof.
  induction rest as [|x rest IH]; intros params n c c' ps.
  - intros [H ->]%route_get_nil Hr. apply get_method_cases in H. split; [auto|]. exists []. by rewrite app_nil_r.
  - intros [(key & child & _ & _ & [[? ?]|Hb])|(c1 & ps1 & Hfirst & Hstar)]%route_get_cons Hr; [done|congruence|].
    assert (Hc1 : c1 = c ∧ ∃ extra, ps1 = params ++ extra).
    { destruct Hfirst as [(_ & -> & ->)|(key & child & _ & H & Hr1)].
      - split; [done|]. exists []. by rewrite app_nil_r.
      - destruct (IH _ _ _ _ _ H Hr1) as [-> [extra ->]]. split; [done|].
        destruct (bool_decide (key = "?")); [|eauto]. rewrite <-app_assoc. eauto. }
    destruct Hc1 as [-> [extra ->]]. destruct (routes n !! "*") as [ch|].
    + destruct Hstar as [H ->]. apply get_method_cases in H. split; [auto|]. rewrite <-app_assoc. eauto.
    + destruct Hstar as (-> & _ & ->). eauto.
Qed.

Lemma find_route_some x n key child : find_route x n = Some (key, child) →
  routes n !! key = Some child ∧ (key = x ∨ key = "?").
Proof.
  unfold find_route. destruct (routes n !! x) eqn:E; [by intros [= <- <-]; auto|].
  destruct (routes n !! "?") eqn:E'; [|done]. intros [= <- <-]. auto.
Qed.

Lemma route_get_found header_ok rest : ∀ params n c c' f params',
  RouteLevel_get header_ok rest params n c = (c', Ok (Some f, params')) →
  c' = c ∧ ∃ p w1 extra w2 star, handler_at p (method c) n = Some f ∧ pmatch p rest (w1 ++ w2) star ∧
    params' = params ++ w1 ++ extra ++ w2 ∧ (star = false → extra = []).
Proof.
  induction rest as [|x rest IH]; intros params n c c' f params'.
  - intros [H ->]%route_get_nil. apply get_method_cases in H as [-> H]. split; [done|].
    exists [], [], [], [], false. split_and!; [done|constructor|by rewrite app_nil_r|done].
  - intros [(key & child & Hf & H & _)|(c1 & ps1 & Hfirst & Hstar)]%route_get_cons.
    + apply IH in H as [-> (p & w1 & extra & w2 & star & Hh & Hm & -> & He)]. split; [done|].
      apply find_route_some in Hf as [Hr Hkey].
      assert (Hat : handler_at (key :: p) (method c) n = Some f) by (by rewrite handler_at_cons, Hr).
      case_bool_decide as Hq.
      * subst. exists ("?" :: p), (x :: w1), extra, w2, star.
        split_and!; [done|by constructor| |done]. by rewrite <-!app_assoc.
      * destruct Hkey as [->| ->]; [|done]. exists (x :: p), w1, extra, w2, star.
        split_and!; [done|by constructor|done..].
    + assert (Hc1 : c1 = c ∧ ∃ extra, ps1 = params ++ extra).
      { destruct Hfirst as [(_ & -> & ->)|(key & child & _ & H & Hr1)].
        - split; [done|]. exists []. by rewrite app_nil_r.
        - destruct (route_get_silent _ _ _ _ _ _ _ H Hr1) as [-> [extra ->]]. split; [done|].
          destruct (bool_decide (key = "?")); [|eauto]. rewrite <-app_assoc. eauto. }
      destruct Hc1 as [-> [extra ->]]. destruct (routes n !! "*") as [ch|] eqn:Es; [|by destruct Hstar as (_ & ? & _)].
      destruct Hstar as [H ->]. apply get_method_cases in H as [-> H]. split; [done|].
      exists ["*"], [], extra, (x :: rest), true. split_and!; [|by constructor|by rewrite <-app_assoc|done].
      rewrite handler_at_cons, Es. done.
Qed.

Lemma get_method_ok header_ok n c f :
  N.land (method c) (allowed_methods n) ≠ 0%N → handlers n !! method c = Some f →
  RouteLevel_get_method header_ok n c = (c, Ok (Some f)).
Proof.
  intros Ha Hf. unfold RouteLevel_get_method. destruct (N.eqb_spec (allowed_methods n) 0) as [E|_].
  { by rewrite E, N.land_0_r in Ha. }
  assert (Hm : ConnectionInfo_require_method header_ok (allowed_methods n) c = (c, Ok true)).
  { unfold ConnectionInfo_require_method, mbind, M_bind. cbn -[allowed_methods].
    by destruct (N.eqb_spec (N.land (method c) (allowed_methods n)) 0). }
  unfold mbind, M_bind. rewrite Hm. cbn -[handlers]. by rewrite Hf.
Qed.

Lemma route_get_follows header_ok n p rest w params c f :
  follows n p rest w → handler_at p (method c) n = Some f → N.land (method c) (allowed_at p n) ≠ 0%N →
  RouteLevel_get header_ok rest params n c = (c, Ok (Some f, params ++ w)).
Proof.
  intros Hfo. revert params. induction Hfo as [n|n m x p rest w Hx Hm Hfo IH|n m x p rest w Hx Hm Hfo IH];
    intros params Hh Ha.
  - cbn. unfold mbind, M_bind. rewrite (get_method_ok _ _ _ f) by done. by rewrite app_nil_r.
  - rewrite handler_at_cons, Hm in Hh. rewrite allowed_at_cons, Hm in Ha. cbn [RouteLevel_get].
    unfold find_route. rewrite Hm. unfold mbind, M_bind. rewrite bool_decide_false by done. by rewrite IH.
  - rewrite handler_at_cons, Hm in Hh. rewrite allowed_at_cons, Hm in Ha. cbn [RouteLevel_get].
    assert (find_route x n = Some ("?", m)) as ->.
    { unfold find_route. destruct Hx as [->|Hx]; [by rewrite Hm|by rewrite Hx, Hm]. }
    unfold mbind, M_bind. rewrite bool_decide_true by done. rewrite IH by done. by rewrite <-app_assoc.
Qed.

(** ** Properties *)

(** Adding a route.  It is refused exactly when the pattern already has a
    handler for one of the methods; otherwise it registers its handler for exactly
    the given pattern and methods, widens the mask of that pattern, and changes
    no other pattern. *)
Theorem route_add_effect comps methods h n :
  let '(n', r) := RouteLevel_add comps methods h n in
  match r with
  | Ok _ => (∀ i, i ∈ method_bits methods → handler_at comps i n = None) ∧
      (∀ p i, handler_at p i n' =
         if decide (p = comps ∧ i ∈ method_bits methods) then Some h else handler_at p i n) ∧
      (∀ p, allowed_at p n' = if decide (p = comps) then N.lor (allowed_at p n) methods else allowed_at p n)
  | Throw e => e = InvalidValueError "Duplicate handlers specified for path" ∧
      ∃ i, i ∈ method_bits methods ∧ is_Some (handler_at comps i n)
  | OutOfFuel => False
  end.
Proof. apply route_add_spec. Qed.

(** A handler found is one registered, for the method of the request, under a
    pattern that matches the URL; its parameters are the components the wildcards
    stand for, in order -- with, for a pattern that ends in a star, those that a
    route tried first had already collected in between.  The connection is left
    alone. *)
Theorem route_get_sound header_ok rest params n c c' f params' :
  RouteLevel_get header_ok rest params n c = (c', Ok (Some f, params')) →
  c' = c ∧ ∃ p w1 extra w2 star, handler_at p (method c) n = Some f ∧ pmatch p rest (w1 ++ w2) star ∧
    params' = params ++ w1 ++ extra ++ w2 ∧ (star = false → extra = []).
Proof. apply route_get_found. Qed.

(** A registered route is found: when the search follows the pattern and the
    pattern has a handler for a method it allows, the search returns it with the
    components of the wildcards. *)
Theorem route_get_complete header_ok n p rest w params c f :
  follows n p rest w → handler_at p (method c) n = Some f → N.land (method c) (allowed_at p n) ≠ 0%N →
  RouteLevel_get header_ok rest params n c = (c, Ok (Some f, params ++ w)).
Proof. apply route_get_follows. Qed.
End router.

Arguments RouteLevel : clear implicits.
Arguments Router : clear implicits.

(** A tree with the routes [/a] and [/?/b]. *)
Definition example_tree : RouteLevel N :=
  (RouteLevel_add ["?"; "b"] HTTP_GETHEAD 2%N (RouteLevel_add ["a"] HTTP_GETHEAD 1%N (new_RouteLevel 0)).1).1.
Definition example_conn : ConnectionInfo := new_ConnectionInfo "GET" "/x/b" true.

Lemma route_get_sound_witness :
  RouteLevel_get (λ _ _, true) ["x"; "b"] [] example_tree example_conn = (example_conn, Ok (Some 2%N, ["x"])) ∧
  ∃ p w1 extra w2 star, handler_at p (method example_conn) example_tree = Some 2%N ∧
    pmatch p ["x"; "b"] (w1 ++ w2) star ∧ ["x"] = [] ++ w1 ++ extra ++ w2 ∧ (star = false → extra = []).
Proof.
  assert (H : RouteLevel_get (λ _ _, true) ["x"; "b"] [] example_tree example_conn = (example_conn, Ok (Some 2%N, ["x"])))
    by (vm_compute; reflexivity).
  split; [exact H|]. exact (proj2 (route_get_sound _ _ _ _ _ _ _ _ H)).
Defined.

Lemma route_get_complete_witness :
  follows example_tree ["?"; "b"] ["x"; "b"] ["x"] ∧
  RouteLevel_get (λ _ _, true) ["x"; "b"] [] example_tree example_conn = (example_conn, Ok (Some 2%N, ["x"])).
Proof.
  assert (H : follows example_tree ["?"; "b"] ["x"; "b"] ["x"]).
  { eapply fo_any; [right; vm_compute; reflexivity|vm_compute; reflexivity|].
    eapply fo_lit; [discriminate|vm_compute; reflexivity|apply fo_nil]. }
  split; [exact H|].
  exact (route_get_complete (λ _ _, true) example_tree ["?"; "b"] ["x"; "b"] ["x"] [] example_conn 2%N H
    ltac:(vm_compute; reflexivity) ltac:(vm_compute; discriminate)).
Defined.
