(* ===== verification/Handlers.v ===== *)
(** * The REST interface

    src/rest/routes.cc (the table of routes), and the handler factories and handlers
    of src/rest/handlers.cc, src/features/coll_handlers.cc, checkpoint_handlers.cc
    and category_handlers.cc: from a request to the task that is put on a queue.

    A handler stands for its constructor arguments; a task for its class and fields
    (the result handle and the pointers to the server's parts are left out). *)

From S2P Require Import Prelude Json TextUtils Http Router TaskQueue.

(** ** Tasks *)

Inductive readonly_task : Type :=
| StaticFileTask (path : string)
| ServerStatusTask
| PerformSearchTask (coll_name : string) (search : json) (doc_type : string)
| GetDocumentTask (coll_name doc_type doc_id : string)
| CollListTask
| CollInfoTask (coll_name : string)
| CollGetConfigTask (coll_name : string)
| CollGetCheckpointsTask (coll_name : string)
| CollGetCheckpointTask (coll_name checkid : string)
| CollGetTaxonomiesTask (coll_name : string)
| CollGetTaxonomyTask (coll_name taxonomy_name : string)
| CollGetCategoryTask (coll_name taxonomy_name cat_id : string)
| CollGetCategoryParentTask (coll_name taxonomy_name cat_id parent_id : string)
| CollGetTopCategoriesTask (coll_name taxonomy_name : string).

Inductive indexing_task : Type :=
| DeleteDocumentTask (doc_type doc_id : string)
| IndexingCheckpointTask (checkid : string) (do_commit : bool).

Inductive processing_task : Type :=
| ProcessorProcessDocumentTask (doc_type doc_id : string) (doc : json)
| DelayedIndexingTask (task : indexing_task)
| DeleteCollectionProcessingTask
| ProcessingCollSetConfigTask (config : json)
| ProcessingCollPutCategoryTask (taxonomy_name cat_id : string)
| ProcessingCollPutCategoryParentTask (taxonomy_name cat_id parent_id : string)
| ProcessingCollDeleteTaxonomyTask (taxonomy_name : string)
| ProcessingCollDeleteCategoryTask (taxonomy_name cat_id : string)
| ProcessingCollDeleteCategoryParentTask (taxonomy_name cat_id parent_id : string).

(** What is handed to [queue_readonly] or [queue_processing]. *)
Inductive submission : Type :=
| queue_readonly (queue : string) (task : readonly_task)
| queue_processing (queue : string) (task : processing_task) (allow_throttle : bool).

(** ** Factories and handlers *)

Inductive factory : Type :=
| RootHandlerFactory | FileHandlerFactory | ServerStatusHandlerFactory | ServerShutdownHandlerFactory
| CollListHandlerFactory | CollInfoHandlerFactory | CollDeleteHandlerFactory
| CollGetConfigHandlerFactory | CollSetConfigHandlerFactory
| CollGetCheckpointsHandlerFactory | CollCreateCheckpointHandlerFactory | CollGetCheckpointHandlerFactory
| CollGetCategoryHandlerFactory | CollGetTopCategoriesHandlerFactory | CollPutCategoryHandlerFactory
| CollDeleteCategoryHandlerFactory
| IndexDocumentHandlerFactory | DeleteDocumentHandlerFactory | GetDocumentHandlerFactory
| IndexDocumentTypeHandlerFactory | IndexDocumentIdHandlerFactory | IndexDocumentNoTypeIdHandlerFactory
| SearchHandlerFactory | NotFoundHandlerFactory.

Inductive handler : Type :=
| FileHandler (path : string)
| ServerStatusHandler
| ServerShutdownHandler
| IndexDocumentHandler (coll_name doc_type doc_id : string)
| DeleteDocumentHandler (coll_name doc_type doc_id : string)
| CollDeleteHandler (coll_name : string)
| SearchHandler (coll_name doc_type : string)
| GetDocumentHandler (coll_name doc_type doc_id : string)
| NotFoundHandler
| CollListHandler
| CollInfoHandler (coll_name : string)
| CollGetConfigHandler (coll_name : string)
| CollSetConfigHandler (coll_name : string)
| CollCreateCheckpointHandler (coll_name : string)
| CollGetCheckpointsHandler (coll_name : string)
| CollGetCheckpointHandler (coll_name checkid : string)
| CollGetCategoryHandler (coll_name taxonomy_name cat_id parent_id : string)
| CollGetTopCategoriesHandler (coll_name taxonomy_name : string)
| CollPutCategoryHandler (coll_name taxonomy_name cat_id parent_id : string)
| CollDeleteCategoryHandler (coll_name taxonomy_name cat_id parent_id : string).

#[export] Instance factory_eq_dec : EqDecision factory.
Proof. solve_decision. Defined.

(** [path_params[i]]: no check of the bounds. *)
Definition param (path_params : list string) (i : nat) : res string :=
  match path_params !! i with Some s => Ok s | None => throw UndefinedBehaviour end.

(** A parameter used when there are at least [i + 1], validated as a category
    identifier; empty otherwise. *)
Definition optional_catid (path_params : list string) (i : nat) : res string :=
  if decide (i < length path_params)
  then s ← param path_params i; validate_catid_throw s ;; Ok s
  else Ok "".

Definition valid_coll (path_params : list string) : res string :=
  coll_name ← param path_params 0; validate_collname_throw coll_name ;; Ok coll_name.

Definition FileHandlerFactory_create (path_params : list string) : res handler :=
  Ok (FileHandler (foldl (λ filepath i, filepath +:+ "/" +:+ i) "static/static" path_params)).

Definition IndexDocumentHandlerFactory_create (ps : list string) : res handler :=
  coll_name ← valid_coll ps; doc_type ← param ps 1; doc_id ← param ps 2;
  Ok (IndexDocumentHandler coll_name doc_type doc_id).
Definition IndexDocumentTypeHandlerFactory_create (ps : list string) : res handler :=
  coll_name ← valid_coll ps; doc_type ← param ps 1;
  Ok (IndexDocumentHandler coll_name doc_type "").
Definition IndexDocumentIdHandlerFactory_create (ps : list string) : res handler :=
  coll_name ← valid_coll ps; doc_id ← param ps 1;
  Ok (IndexDocumentHandler coll_name "" doc_id).
Definition IndexDocumentNoTypeIdHandlerFactory_create (ps : list string) : res handler :=
  coll_name ← valid_coll ps; Ok (IndexDocumentHandler coll_name "" "").
Definition DeleteDocumentHandlerFactory_create (ps : list string) : res handler :=
  coll_name ← valid_coll ps; doc_type ← param ps 1; doc_id ← param ps 2;
  Ok (DeleteDocumentHandler coll_name doc_type doc_id).
Definition CollDeleteHandlerFactory_create (ps : list string) : res handler :=
  coll_name ← valid_coll ps; Ok (CollDeleteHandler coll_name).
Definition SearchHandlerFactory_create (ps : list string) : res handler :=
  coll_name ← valid_coll ps;
  if decide (length ps = 1) then Ok (SearchHandler coll_name "")
  else doc_type ← param ps 1; Ok (SearchHandler coll_name doc_type).
Definition GetDocumentHandlerFactory_create (ps : list string) : res handler :=
  coll_name ← valid_coll ps; doc_type ← param ps 1; doc_id ← param ps 2;
  Ok (GetDocumentHandler coll_name doc_type doc_id).

Definition CollInfoHandlerFactory_create (ps : list string) : res handler :=
  coll_name ← valid_coll ps; Ok (CollInfoHandler coll_name).
Definition CollGetConfigHandlerFactory_create (ps : list string) : res handler :=
  coll_name ← valid_coll ps; Ok (CollGetConfigHandler coll_name).
Definition CollSetConfigHandlerFactory_create (ps : list string) : res handler :=
  coll_name ← valid_coll ps; Ok (CollSetConfigHandler coll_name).

Definition CollCreateCheckpointHandlerFactory_create (ps : list string) : res handler :=
  coll_name ← valid_coll ps; Ok (CollCreateCheckpointHandler coll_name).
Definition CollGetCheckpointsHandlerFactory_create (ps : list string) : res handler :=
  coll_name ← valid_coll ps; Ok (CollGetCheckpointsHandler coll_name).
Definition CollGetCheckpointHandlerFactory_create (ps : list string) : res handler :=
  coll_name ← valid_coll ps; checkid ← param ps 1; Ok (CollGetCheckpointHandler coll_name checkid).

Definition CollGetCategoryHandlerFactory_create (ps : list string) : res handler :=
  coll_name ← valid_coll ps;
  taxonomy_name ← optional_catid ps 1; cat_id ← optional_catid ps 2; parent_id ← optional_catid ps 3;
  Ok (CollGetCategoryHandler coll_name taxonomy_name cat_id parent_id).
Definition CollGetTopCategoriesHandlerFactory_create (ps : list string) : res handler :=
  coll_name ← param ps 0; taxonomy_name ← param ps 1;
  validate_collname_throw coll_name ;; validate_catid_throw taxonomy_name ;;
  Ok (CollGetTopCategoriesHandler coll_name taxonomy_name).
Definition CollPutCategoryHandlerFactory_create (ps : list string) : res handler :=
  coll_name ← param ps 0; taxonomy_name ← param ps 1; cat_id ← param ps 2;
  validate_collname_throw coll_name ;; validate_catid_throw taxonomy_name ;; validate_catid_throw cat_id ;;
  parent_id ← optional_catid ps 3;
  Ok (CollPutCategoryHandler coll_name taxonomy_name cat_id parent_id).
Definition CollDeleteCategoryHandlerFactory_create (ps : list string) : res handler :=
  coll_name ← param ps 0; taxonomy_name ← param ps 1;
  validate_collname_throw coll_name ;; validate_catid_throw taxonomy_name ;;
  cat_id ← optional_catid ps 2; parent_id ← optional_catid ps 3;
  Ok (CollDeleteCategoryHandler coll_name taxonomy_name cat_id parent_id).

Definition create (f : factory) : list string → res handler :=
  match f with
  | RootHandlerFactory => λ _, Ok (FileHandler "static/index.html")
  | FileHandlerFactory => FileHandlerFactory_create
  | ServerStatusHandlerFactory => λ _, Ok ServerStatusHandler
  | ServerShutdownHandlerFactory => λ _, Ok ServerShutdownHandler
  | CollListHandlerFactory => λ _, Ok CollListHandler
  | CollInfoHandlerFactory => CollInfoHandlerFactory_create
  | CollDeleteHandlerFactory => CollDeleteHandlerFactory_create
  | CollGetConfigHandlerFactory => CollGetConfigHandlerFactory_create
  | CollSetConfigHandlerFactory => CollSetConfigHandlerFactory_create
  | CollGetCheckpointsHandlerFactory => CollGetCheckpointsHandlerFactory_create
  | CollCreateCheckpointHandlerFactory => CollCreateCheckpointHandlerFactory_create
  | CollGetCheckpointHandlerFactory => CollGetCheckpointHandlerFactory_create
  | CollGetCategoryHandlerFactory => CollGetCategoryHandlerFactory_create
  | CollGetTopCategoriesHandlerFactory => CollGetTopCategoriesHandlerFactory_create
  | CollPutCategoryHandlerFactory => CollPutCategoryHandlerFactory_create
  | CollDeleteCategoryHandlerFactory => CollDeleteCategoryHandlerFactory_create
  | IndexDocumentHandlerFactory => IndexDocumentHandlerFactory_create
  | DeleteDocumentHandlerFactory => DeleteDocumentHandlerFactory_create
  | GetDocumentHandlerFactory => GetDocumentHandlerFactory_create
  | IndexDocumentTypeHandlerFactory => IndexDocumentTypeHandlerFactory_create
  | IndexDocumentIdHandlerFactory => IndexDocumentIdHandlerFactory_create
  | IndexDocumentNoTypeIdHandlerFactory => IndexDocumentNoTypeIdHandlerFactory_create
  | SearchHandlerFactory => SearchHandlerFactory_create
  | NotFoundHandlerFactory => λ _, Ok NotFoundHandler
  end.

(** ** Routes *)

Definition routes_table : list (string * N * factory) := [
  ("/", HTTP_GETHEAD, RootHandlerFactory);
  ("/static/*", HTTP_GETHEAD, FileHandlerFactory);
  ("/status", HTTP_GETHEAD, ServerStatusHandlerFactory);
  ("/shutdown", HTTP_POST, ServerShutdownHandlerFactory);
  ("/coll", HTTP_GETHEAD, CollListHandlerFactory);
  ("/coll/?", HTTP_GETHEAD, CollInfoHandlerFactory);
  ("/coll/?", HTTP_DELETE, CollDeleteHandlerFactory);
  ("/coll/?/config", HTTP_GETHEAD, CollGetConfigHandlerFactory);
  ("/coll/?/config", HTTP_PUT, CollSetConfigHandlerFactory);
  ("/coll/?/checkpoint", HTTP_GETHEAD, CollGetCheckpointsHandlerFactory);
  ("/coll/?/checkpoint", HTTP_POST, CollCreateCheckpointHandlerFactory);
  ("/coll/?/checkpoint/?", HTTP_GETHEAD, CollGetCheckpointHandlerFactory);
  ("/coll/?/taxonomy", HTTP_GETHEAD, CollGetCategoryHandlerFactory);
  ("/coll/?/taxonomy/?", HTTP_GETHEAD, CollGetCategoryHandlerFactory);
  ("/coll/?/taxonomy/?/id/?", HTTP_GETHEAD, CollGetCategoryHandlerFactory);
  ("/coll/?/taxonomy/?/id/?/parent/?", HTTP_GETHEAD, CollGetCategoryHandlerFactory);
  ("/coll/?/taxonomy/?/top", HTTP_GETHEAD, CollGetTopCategoriesHandlerFactory);
  ("/coll/?/taxonomy/?/id/?", HTTP_PUT, CollPutCategoryHandlerFactory);
  ("/coll/?/taxonomy/?/id/?/parent/?", HTTP_PUT, CollPutCategoryHandlerFactory);
  ("/coll/?/taxonomy/?", HTTP_DELETE, CollDeleteCategoryHandlerFactory);
  ("/coll/?/taxonomy/?/id/?", HTTP_DELETE, CollDeleteCategoryHandlerFactory);
  ("/coll/?/taxonomy/?/id/?/parent/?", HTTP_DELETE, CollDeleteCategoryHandlerFactory);
  ("/coll/?/type/?/id/?", HTTP_PUT, IndexDocumentHandlerFactory);
  ("/coll/?/type/?/id/?", HTTP_DELETE, DeleteDocumentHandlerFactory);
  ("/coll/?/type/?/id/?", HTTP_GETHEAD, GetDocumentHandlerFactory);
  ("/coll/?/type/?", HTTP_POST, IndexDocumentTypeHandlerFactory);
  ("/coll/?/id/?", HTTP_POST, IndexDocumentIdHandlerFactory);
  ("/coll/?", HTTP_POST, IndexDocumentNoTypeIdHandlerFactory);
  ("/coll/?/type/?/search", (N.lor HTTP_GETHEAD HTTP_POST), SearchHandlerFactory);
  ("/coll/?/search", (N.lor HTTP_GETHEAD HTTP_POST), SearchHandlerFactory)].

Definition setup_routes : M (Router factory) () :=
  for_each routes_table (λ '(path_pattern, methods, f), Router_add path_pattern methods f) ;;
  Router_set_default NotFoundHandlerFactory.

Definition server_router : Router factory := (setup_routes new_Router).1.

(** [Router::route] up to the new handler. *)
Definition route (header_ok : string → string → bool) : M ConnectionInfo (option handler) :=
  o ← Router_route_find header_ok server_router;
  match o with
  | None => mret None
  | Some (f, path_params) => h ← liftM (create f path_params); mret (Some h)
  end.

(** ** Queueing *)

(** What a request has caused: tasks handed to the task manager, checkpoints made
    known, and the response of the result handle when it is ready. *)
Record request := mkRequest {
  submitted : list submission;
  published : list (string * string);
  ready : option (Z * json * list (string * string));
}.

Section enqueue.
(** The task manager's answer to a submission; a fresh checkpoint identifier. *)
Variable push_state : submission → QueueState.
Variable alloc_checkpoint : string → string.

Definition submit (s : submission) : M request QueueState := λ r,
  (mkRequest (submitted r ++ [s]) (published r) (ready r), Ok (push_state s)).

Definition FileHandler_enqueue (path : string) := submit (queue_readonly "static" (StaticFileTask path)).
Definition ServerStatusHandler_enqueue := submit (queue_readonly "status" ServerStatusTask).
Definition IndexDocumentHandler_enqueue (coll_name doc_type doc_id : string) (body : json) :=
  submit (queue_processing coll_name (ProcessorProcessDocumentTask doc_type doc_id body) false).
Definition DeleteDocumentHandler_enqueue (coll_name doc_type doc_id : string) :=
  submit (queue_processing coll_name (DelayedIndexingTask (DeleteDocumentTask doc_type doc_id)) false).
Definition CollDeleteHandler_enqueue (coll_name : string) :=
  submit (queue_processing coll_name DeleteCollectionProcessingTask false).
Definition SearchHandler_enqueue (coll_name doc_type : string) (body : json) :=
  submit (queue_readonly "search" (PerformSearchTask coll_name body doc_type)).
Definition GetDocumentHandler_enqueue (coll_name doc_type doc_id : string) :=
  submit (queue_readonly "search" (GetDocumentTask coll_name doc_type doc_id)).

Definition CollListHandler_enqueue := submit (queue_readonly "info" CollListTask).
Definition CollInfoHandler_enqueue (coll_name : string) := submit (queue_readonly "info" (CollInfoTask coll_name)).
Definition CollGetConfigHandler_enqueue (coll_name : string) :=
  submit (queue_readonly "info" (CollGetConfigTask coll_name)).
Definition CollSetConfigHandler_enqueue (coll_name : string) (body : json) :=
  submit (queue_processing coll_name (ProcessingCollSetConfigTask body) false).

Definition create_checkpoint (new_coll_name : string) (do_commit allow_throttle : bool)
    : M request (string * QueueState) :=
  let checkid := alloc_checkpoint new_coll_name in
  state ← submit (queue_processing new_coll_name (DelayedIndexingTask (IndexingCheckpointTask checkid do_commit))
                    allow_throttle);
  (match state with
   | CLOSED | FULL => mret ()
   | _ => modifyM (λ r, mkRequest (submitted r) (published r ++ [(new_coll_name, checkid)]) (ready r))
   end) ;;
  mret (checkid, state).

Definition CollCreateCheckpointHandler_enqueue (coll_name : string) (conn : ConnectionInfo)
    : M request QueueState :=
  do_commit ← liftM (ConnectionInfo_get_uri_arg_bool "commit" true conn);
  '(checkid, state) ← create_checkpoint coll_name do_commit false;
  modifyM (λ r, mkRequest (submitted r) (published r)
    (Some (201%Z, JObj [("checkid", jstr checkid)],
           [("Location", "http://" +:+ host conn +:+ "/coll/" +:+ coll_name +:+ "/checkpoint/" +:+ checkid)]))) ;;
  mret state.

Definition CollGetCheckpointsHandler_enqueue (coll_name : string) :=
  submit (queue_readonly "checkpoints" (CollGetCheckpointsTask coll_name)).
Definition CollGetCheckpointHandler_enqueue (coll_name checkid : string) :=
  submit (queue_readonly "checkpoints" (CollGetCheckpointTask coll_name checkid)).

Definition is_empty (s : string) : bool := match s with EmptyString => true | _ => false end.

Definition CollGetCategoryHandler_enqueue (coll_name taxonomy_name cat_id parent_id : string) :=
  submit (queue_readonly "categories"
    (if is_empty taxonomy_name then CollGetTaxonomiesTask coll_name
     else if is_empty cat_id then CollGetTaxonomyTask coll_name taxonomy_name
     else if is_empty parent_id then CollGetCategoryTask coll_name taxonomy_name cat_id
     else CollGetCategoryParentTask coll_name taxonomy_name cat_id parent_id)).
Definition CollGetTopCategoriesHandler_enqueue (coll_name taxonomy_name : string) :=
  submit (queue_readonly "categories" (CollGetTopCategoriesTask coll_name taxonomy_name)).
Definition CollPutCategoryHandler_enqueue (coll_name taxonomy_name cat_id parent_id : string) :=
  submit (queue_processing coll_name
    (if is_empty parent_id then ProcessingCollPutCategoryTask taxonomy_name cat_id
     else ProcessingCollPutCategoryParentTask taxonomy_name cat_id parent_id) true).
Definition CollDeleteCategoryHandler_enqueue (coll_name taxonomy_name cat_id parent_id : string) :=
  submit (queue_processing coll_name
    (if is_empty cat_id then ProcessingCollDeleteTaxonomyTask taxonomy_name
     else if is_empty parent_id then ProcessingCollDeleteCategoryTask taxonomy_name cat_id
     else ProcessingCollDeleteCategoryParentTask taxonomy_name cat_id parent_id) true).

(** The virtual call; the two handlers that answer at once queue nothing. *)
Definition enqueue (h : handler) (conn : ConnectionInfo) (body : json) : option (M request QueueState) :=
  match h with
  | FileHandler path => Some (FileHandler_enqueue path)
  | ServerStatusHandler => Some ServerStatusHandler_enqueue
  | ServerShutdownHandler | NotFoundHandler => None
  | IndexDocumentHandler c t i => Some (IndexDocumentHandler_enqueue c t i body)
  | DeleteDocumentHandler c t i => Some (DeleteDocumentHandler_enqueue c t i)
  | CollDeleteHandler c => Some (CollDeleteHandler_enqueue c)
  | SearchHandler c t => Some (SearchHandler_enqueue c t body)
  | GetDocumentHandler c t i => Some (GetDocumentHandler_enqueue c t i)
  | CollListHandler => Some CollListHandler_enqueue
  | CollInfoHandler c => Some (CollInfoHandler_enqueue c)
  | CollGetConfigHandler c => Some (CollGetConfigHandler_enqueue c)
  | CollSetConfigHandler c => Some (CollSetConfigHandler_enqueue c body)
  | CollCreateCheckpointHandler c => Some (CollCreateCheckpointHandler_enqueue c conn)
  | CollGetCheckpointsHandler c => Some (CollGetCheckpointsHandler_enqueue c)
  | CollGetCheckpointHandler c i => Some (CollGetCheckpointHandler_enqueue c i)
  | CollGetCategoryHandler c t i p => Some (CollGetCategoryHandler_enqueue c t i p)
  | CollGetTopCategoriesHandler c t => Some (CollGetTopCategoriesHandler_enqueue c t)
  | CollPutCategoryHandler c t i p => Some (CollPutCategoryHandler_enqueue c t i p)
  | CollDeleteCategoryHandler c t i p => Some (CollDeleteCategoryHandler_enqueue c t i p)
  end.

End enqueue.

(** ** Lemmas *)

(** A step of an error monad that does not go wrong. *)
Definition safe {A} (r : res A) : Prop := r ≠ throw UndefinedBehaviour.

Lemma safe_bind {A B} (r : res A) (f : A → res B) :
  safe r → (∀ a, r = Ok a → safe (f a)) → safe (r ≫= f).
Proof. unfold safe. destruct r; cbn; auto. by intros ? _ [= ->]. Qed.

Lemma safe_param ps i : i < length ps → safe (param ps i).
Proof. intros Hi. unfold safe, param. apply lookup_lt_is_Some in Hi as [x ->]. done. Qed.

Lemma safe_throw_if_error e : safe (throw_if_error e).
Proof. unfold safe, throw_if_error. by destruct e. Qed.

Lemma safe_ok {A} (a : A) : safe (Ok a).
Proof. done. Qed.

Lemma safe_optional ps i : safe (optional_catid ps i).
Proof.
  unfold optional_catid. case_decide; [|done]. apply safe_bind; [by apply safe_param|]. intros s _.
  apply safe_bind; [apply safe_throw_if_error|done].
Qed.

Lemma safe_coll ps : 0 < length ps → safe (valid_coll ps).
Proof.
  intros Hi. apply safe_bind; [by apply safe_param|]. intros s _.
  apply safe_bind; [apply safe_throw_if_error|done].
Qed.

#[local] Hint Resolve safe_param safe_throw_if_error safe_ok safe_optional safe_coll : rp.

(** The number of parameters a factory reads without looking. *)
Definition needs (f : factory) : nat :=
  match f with
  | RootHandlerFactory | FileHandlerFactory | ServerStatusHandlerFactory | ServerShutdownHandlerFactory
  | CollListHandlerFactory | NotFoundHandlerFactory => 0
  | IndexDocumentHandlerFactory | DeleteDocumentHandlerFactory | GetDocumentHandlerFactory
  | CollPutCategoryHandlerFactory => 3
  | CollGetCheckpointHandlerFactory | IndexDocumentTypeHandlerFactory | IndexDocumentIdHandlerFactory
  | CollGetTopCategoriesHandlerFactory | CollDeleteCategoryHandlerFactory => 2
  | _ => 1
  end.

Lemma create_safe f ps : needs f ≤ length ps → safe (create f ps).
Proof.
  intros Hn. destruct f; cbn in Hn; cbn [create]; try apply safe_ok;
    unfold IndexDocumentHandlerFactory_create, IndexDocumentTypeHandlerFactory_create, IndexDocumentIdHandlerFactory_create,
      IndexDocumentNoTypeIdHandlerFactory_create, DeleteDocumentHandlerFactory_create, CollDeleteHandlerFactory_create,
      SearchHandlerFactory_create, GetDocumentHandlerFactory_create, CollInfoHandlerFactory_create,
      CollGetConfigHandlerFactory_create, CollSetConfigHandlerFactory_create, CollCreateCheckpointHandlerFactory_create,
      CollGetCheckpointsHandlerFactory_create, CollGetCheckpointHandlerFactory_create, CollGetCategoryHandlerFactory_create,
      CollGetTopCategoriesHandlerFactory_create, CollPutCategoryHandlerFactory_create, CollDeleteCategoryHandlerFactory_create;
    repeat first
      [ apply safe_ok
      | apply safe_bind;
        [first [apply safe_coll; lia|apply safe_param; lia|apply safe_optional|apply safe_throw_if_error]
        |intros ? _]
      | case_decide ].
Qed.

Lemma create_ends f ps : create f ps ≠ OutOfFuel.
Proof.
  assert (Hb : ∀ A B (r : res A) (k : A → res B), r ≠ OutOfFuel → (∀ a, k a ≠ OutOfFuel) → r ≫= k ≠ OutOfFuel).
  { intros A B r k Hr Hk. by destruct r; cbn. }
  assert (Hp : ∀ i, param ps i ≠ OutOfFuel) by (intros i; unfold param; by destruct (ps !! i)).
  assert (He : ∀ e, throw_if_error e ≠ OutOfFuel) by (by intros []).
  assert (Ho : ∀ i, optional_catid ps i ≠ OutOfFuel).
  { intros i. unfold optional_catid. case_decide; [|done]. apply Hb; [auto|]. intros s. apply Hb; [apply He|done]. }
  assert (Hc : valid_coll ps ≠ OutOfFuel) by (apply Hb; [auto|]; intros s; apply Hb; [apply He|done]).
  destruct f; cbn [create]; try done; repeat first [discriminate|case_decide|apply Hb; [first [apply Hc|apply Hp|apply Ho|apply He]|intros ?]].
Qed.

(** The names a handler carries. *)
Definition valid_or_empty (s : string) : Prop := s = "" ∨ valid_name s.
Definition handler_valid (h : handler) : Prop :=
  match h with
  | FileHandler _ | ServerStatusHandler | ServerShutdownHandler | NotFoundHandler | CollListHandler => True
  | IndexDocumentHandler c _ _ | DeleteDocumentHandler c _ _ | CollDeleteHandler c | SearchHandler c _
  | GetDocumentHandler c _ _ | CollInfoHandler c | CollGetConfigHandler c | CollSetConfigHandler c
  | CollCreateCheckpointHandler c | CollGetCheckpointsHandler c | CollGetCheckpointHandler c _ => valid_name c
  | CollGetCategoryHandler c t i p => valid_name c ∧ valid_or_empty t ∧ valid_or_empty i ∧ valid_or_empty p
  | CollGetTopCategoriesHandler c t => valid_name c ∧ valid_name t
  | CollPutCategoryHandler c t i p => valid_name c ∧ valid_name t ∧ valid_name i ∧ valid_or_empty p
  | CollDeleteCategoryHandler c t i p => valid_name c ∧ valid_name t ∧ valid_or_empty i ∧ valid_or_empty p
  end.

Lemma param_ok ps i s : param ps i = Ok s → ps !! i = Some s.
Proof. unfold param. destruct (ps !! i); [by intros [= ->]|done]. Qed.

Lemma valid_coll_ok ps s : valid_coll ps = Ok s → valid_name s.
Proof.
  unfold valid_coll. intros H. simplify_res. by apply validate_collname_throw_ok; destruct a0.
Qed.

Lemma optional_ok ps i s : optional_catid ps i = Ok s → valid_or_empty s.
Proof.
  unfold optional_catid, valid_or_empty. case_decide; [|intros [= <-]; auto]. intros Hs. simplify_res. right.
  by apply validate_catid_throw_ok; destruct a0.
Qed.

Lemma catid_ok s u : validate_catid_throw s = Ok u → valid_name s.
Proof. destruct u. apply validate_catid_throw_ok. Qed.
Lemma collname_ok s u : validate_collname_throw s = Ok u → valid_name s.
Proof. destruct u. apply validate_collname_throw_ok. Qed.

#[local] Hint Resolve valid_coll_ok optional_ok catid_ok collname_ok : rp.

Lemma create_valid f ps h : create f ps = Ok h → handler_valid h.
Proof.
  destruct f; cbn [create]; intros H; try (by simplify_res);
    unfold FileHandlerFactory_create, IndexDocumentHandlerFactory_create, IndexDocumentTypeHandlerFactory_create, IndexDocumentIdHandlerFactory_create,
      IndexDocumentNoTypeIdHandlerFactory_create, DeleteDocumentHandlerFactory_create, CollDeleteHandlerFactory_create,
      SearchHandlerFactory_create, GetDocumentHandlerFactory_create, CollInfoHandlerFactory_create,
      CollGetConfigHandlerFactory_create, CollSetConfigHandlerFactory_create, CollCreateCheckpointHandlerFactory_create,
      CollGetCheckpointsHandlerFactory_create, CollGetCheckpointHandlerFactory_create, CollGetCategoryHandlerFactory_create,
      CollGetTopCategoriesHandlerFactory_create, CollPutCategoryHandlerFactory_create, CollDeleteCategoryHandlerFactory_create in H;
    repeat case_decide; simplify_res; cbn; eauto 10 with rp.
Qed.

(** *** The table *)

(** Every handler in the tree comes from a row of the table. *)
Lemma adds_registered (l : list (string * N * factory)) : ∀ r r',
  for_each l (λ '(pat, methods, f), Router_add pat methods f) r = (r', Ok ()) →
  ∀ p i (f : factory), handler_at p i (router_routes r') = Some f →
    handler_at p i (router_routes r) = Some f ∨
    ∃ pat methods, (pat, methods, f) ∈ l ∧ pattern_components (S (String.length pat)) pat = Ok p.
Proof.
  induction l as [|[[pat methods] g] l IH]; intros r r'; cbn [for_each].
  { intros [= <-]. auto. }
  unfold mbind at 1, M_bind at 1.
  destruct (Router_add pat methods g r) as [r1 [[]|e|]] eqn:E; [|done..].
  intros H p i f Hp. destruct (IH _ _ H p i f Hp) as [Hr1|(pat' & m' & Hin & Hc)]; [|right; exists pat', m'; set_solver].
  unfold Router_add, mbind, M_bind in E. cbn -[pattern_components] in E.
  destruct (pattern_components (S (String.length pat)) pat) as [comps|e|] eqn:Ec; [|done..].
  pose proof (route_add_spec comps methods g (router_routes r)) as Ha.
  destruct (RouteLevel_add comps methods g (router_routes r)) as [n' res]. cbn -[method_bits] in E. injection E as <- ->.
  cbn -[method_bits] in Ha, Hr1. destruct Ha as (_ & Hh & _). rewrite Hh in Hr1. case_decide as Hd; [|auto].
  destruct Hd as [-> _]. injection Hr1 as ->. right. exists pat, methods. set_solver.
Qed.

(** The rows: a pattern with a star is the one of the files, and the others have as
    many wildcards as their factory reads. *)
Definition row_ok (row : string * N * factory) : bool :=
  let '(pat, _, f) := row in
  match pattern_components (S (String.length pat)) pat with
  | Ok p => if bool_decide ("*" ∈ p) then needs f =? 0 else needs f <=? length (filter (λ c, c = "?") p)
  | _ => false
  end.

Lemma table_ok : forallb row_ok routes_table = true.
Proof. by vm_compute. Qed.

Lemma pmatch_length p rest w star : pmatch p rest w star → "*" ∉ p →
  star = false ∧ length w = length (filter (λ c, c = "?") p).
Proof.
  induction 1 as [|c p rest w b Hc Hm IH|c p rest w b Hm IH|rest Hr]; intros Hs; [done| | |set_solver].
  - rewrite filter_cons_False by done. apply IH. set_solver.
  - rewrite filter_cons_True by done. cbn. destruct IH as [-> ->]; [set_solver|done].
Qed.

Definition setup_done : Router factory :=
  (for_each routes_table (λ '(pat, methods, f), Router_add pat methods f) new_Router).1.

Lemma setup_ok : for_each routes_table (λ '(pat, methods, f), Router_add pat methods f) new_Router
  = (setup_done, Ok ()).
Proof. unfold setup_done. vm_compute. reflexivity. Qed.

Lemma server_router_eq : server_router = mkRouter (router_routes setup_done) (Some NotFoundHandlerFactory).
Proof. unfold server_router, setup_routes, mbind, M_bind. by rewrite setup_ok. Qed.

Lemma route_params header_ok rest c c' f ps :
  RouteLevel_get header_ok rest [] (router_routes server_router) c = (c', Ok (Some f, ps)) →
  needs f ≤ length ps.
Proof.
  rewrite server_router_eq. cbn [router_routes].
  intros [_ (p & w1 & extra & w2 & star & Hh & Hm & -> & He)]%route_get_found.
  destruct (adds_registered _ _ _ setup_ok _ _ _ Hh) as [Hn|(pat & m & Hin & Hc)].
  { cbn in Hn. by rewrite handler_at_new in Hn. }
  pose proof table_ok as Ht. rewrite forallb_forall in Ht. specialize (Ht _ (proj1 (list_elem_of_In _ _) Hin)).
  unfold row_ok in Ht. rewrite Hc in Ht.
  case_bool_decide as Hs; [apply Nat.eqb_eq in Ht; lia|]. apply Nat.leb_le in Ht. destruct (pmatch_length _ _ _ _ Hm Hs) as [_ Hlen].
  rewrite !length_app in *. cbn. lia.
Qed.

(** *** Outcomes of routing *)

(** Only libmicrohttpd's refusals end a search. *)
Definition http_outcome {A} (r : res A) : Prop :=
  match r with Ok _ | Throw (HTTPServerError _) => True | _ => False end.

Lemma M_bind_outcome {S A B} (m : M S A) (f : A → M S B) s :
  http_outcome (m s).2 → (∀ a s', http_outcome (f a s').2) → http_outcome ((m ≫= f) s).2.
Proof. intros Hm Hf. unfold mbind, M_bind. destruct (m s) as [s' [a|e|]]; cbn in *; auto. Qed.

Lemma require_method_outcome header_ok a c : http_outcome (ConnectionInfo_require_method header_ok a c).2.
Proof.
  unfold ConnectionInfo_require_method, Response_set_content_type, Response_add_header, ConnectionInfo_respond0,
    mbind, M_bind. cbn -[allowed_header].
  destruct (negb _); [done|]. destruct (header_ok _ _); cbn -[allowed_header]; [|done].
  destruct (header_ok _ _); cbn -[allowed_header]; [|done]. by destruct (mhd_accepts c).
Qed.

Lemma get_method_outcome header_ok (n : RouteLevel factory) c :
  http_outcome (RouteLevel_get_method header_ok n c).2.
Proof.
  unfold RouteLevel_get_method. destruct (_ =? 0)%N; [done|].
  apply M_bind_outcome; [apply require_method_outcome|]. by intros [] s'.
Qed.

Lemma route_get_outcome header_ok rest : ∀ ps (n : RouteLevel factory) c,
  http_outcome (RouteLevel_get header_ok rest ps n c).2.
Proof.
  induction rest as [|x rest IH]; intros ps n c; cbn [RouteLevel_get].
  - apply M_bind_outcome; [apply get_method_outcome|done].
  - apply M_bind_outcome.
    + destruct (find_route x n) as [[key child]|]; [|done].
      apply M_bind_outcome; [apply IH|]. by intros [h ps'] s'.
    + intros [[h|] ps'] s'; [done|]. destruct (routes n !! "*"); [|done].
      apply M_bind_outcome; [apply get_method_outcome|done].
Qed.

Lemma parse_url_ok c u x : url c = String u x → ∃ c' l,
  ConnectionInfo_parse_url_components c = (c', Ok ()) ∧ components c' = l ∧ method c' = method c ∧
  responded c' = responded c ∧ url_components (S (String.length x)) x = Ok l.
Proof.
  intros Hu. unfold ConnectionInfo_parse_url_components, mbind, M_bind. cbn -[url_components]. rewrite Hu.
  destruct (url_components_ok x) as (l & Hl & _). rewrite Hl. eauto 10.
Qed.

(** A handler made for a request. *)
Lemma route_handler header_ok c u x :
  url c = String u x →
  match route header_ok c with
  | (_, Ok (Some h)) => handler_valid h
  | (_, Ok None) => True
  | (_, Throw e) => e ≠ UndefinedBehaviour
  | (_, OutOfFuel) => False
  end.
Proof.
  intros Hu. unfold route, Router_route_find.
  destruct (parse_url_ok c u x Hu) as (c1 & l & Hp & Hl & _). unfold mbind, M_bind. rewrite Hp. cbn [getM].
  pose proof (route_get_outcome header_ok (components c1) [] (router_routes server_router) c1) as Ho.
  destruct (RouteLevel_get header_ok (components c1) [] (router_routes server_router) c1) as [c2 [[o ps]|e|]] eqn:E;
    [|by destruct e|done].
  destruct (responded c2); [done|]. destruct o as [f|].
  - apply route_params in E. pose proof (create_safe f ps E) as Hs. pose proof (create_valid f ps) as Hv.
    cbn [mret M_ret]. unfold liftM. destruct (create f ps) as [h|e|] eqn:Ec; [by apply Hv|by intros ->|].
    by apply create_ends in Ec.
  - rewrite server_router_eq. cbn. done.
Qed.

(** The collection a read-only task is about. *)
Definition task_collection (t : readonly_task) : option string :=
  match t with
  | StaticFileTask _ | ServerStatusTask | CollListTask => None
  | PerformSearchTask c _ _ | GetDocumentTask c _ _ | CollInfoTask c | CollGetConfigTask c
  | CollGetCheckpointsTask c | CollGetCheckpointTask c _ | CollGetTaxonomiesTask c | CollGetTaxonomyTask c _
  | CollGetCategoryTask c _ _ | CollGetCategoryParentTask c _ _ _ | CollGetTopCategoriesTask c _ => Some c
  end.

(** The names of taxonomies and categories a read-only task is about. *)
Definition readonly_names (t : readonly_task) : list string :=
  match t with
  | CollGetTaxonomyTask _ t | CollGetTopCategoriesTask _ t => [t]
  | CollGetCategoryTask _ t i => [t; i]
  | CollGetCategoryParentTask _ t i p => [t; i; p]
  | _ => []
  end.

(** The names of taxonomies and categories a change is about. *)
Definition task_names (t : processing_task) : list string :=
  match t with
  | ProcessorProcessDocumentTask _ _ _ | DelayedIndexingTask _ | DeleteCollectionProcessingTask
  | ProcessingCollSetConfigTask _ => []
  | ProcessingCollPutCategoryTask t i | ProcessingCollDeleteCategoryTask t i => [t; i]
  | ProcessingCollPutCategoryParentTask t i p | ProcessingCollDeleteCategoryParentTask t i p => [t; i; p]
  | ProcessingCollDeleteTaxonomyTask t => [t]
  end.

(** Every name in the task that a rule applies to obeys it. *)
Definition submission_valid (s : submission) : Prop :=
  match s with
  | queue_readonly _ t => Forall valid_name (option_list (task_collection t) ++ readonly_names t)
  | queue_processing queue t _ => valid_name queue ∧ Forall valid_name (task_names t)
  end.

Lemma valid_or_empty_name s : valid_or_empty s → is_empty s = false → valid_name s.
Proof. by intros [->|?]. Qed.

#[local] Hint Resolve valid_or_empty_name : rp.

Lemma enqueue_valid push_state alloc h conn body m r r' st :
  handler_valid h → enqueue push_state alloc h conn body = Some m → m r = (r', Ok st) →
  ∃ s, submitted r' = submitted r ++ [s] ∧ st = push_state s ∧ submission_valid s.
Proof.
  intros Hv. destruct h; cbn in Hv; intros [= <-];
    try (intros [= <- <-]; eexists; split_and!; [done..|]; cbn;
      repeat match goal with |- context [is_empty ?x] => destruct (is_empty x) eqn:? end;
      destruct_and?; cbn; rewrite ?Forall_cons, ?Forall_nil; split_and?; by eauto with rp).
  unfold CollCreateCheckpointHandler_enqueue, create_checkpoint, mbind, M_bind. cbn.
  destruct (ConnectionInfo_get_uri_arg_bool "commit" true conn) as [b|e|]; [|done..]. cbn.
  destruct (push_state _) eqn:E; cbn; intros [= <- <-]; (eexists; split_and!; [done|by rewrite E|];
    cbn; split; [done|apply Forall_nil_2]).
Qed.

(** ** Properties *)

(** The table of routes is consistent, and no request goes wrong in routing:
    setting the routes up succeeds, and for every request whose URL is not empty
    the search ends, and the factory found is given at least as many parameters
    as it reads. *)
Theorem routing_safe header_ok c :
  (setup_routes new_Router).2 = Ok () ∧
  (url c ≠ "" → (route header_ok c).2 ≠ throw UndefinedBehaviour ∧ (route header_ok c).2 ≠ OutOfFuel).
Proof.
  split; [unfold setup_routes, mbind, M_bind; by rewrite setup_ok|]. intros Hu.
  destruct (url c) as [|u x] eqn:E; [done|]. pose proof (route_handler header_ok c u x E) as H.
  destruct (route header_ok c) as [c' [[h|]|e|]]; cbn; [done..| |done]. split; [|done]. by intros [= ->].
Qed.

(** C32: a request that reaches a queue causes exactly one task, and the answer is what
    the queue says of it.  The collection of the task -- every task but the three that are
    about none, of a static file, the status of the server and the list of the collections
    -- has a valid name, hence one that is a single path component below the data
    directory; and so have the taxonomy and the categories of every task that names any,
    be it a change or a query. *)
Theorem request_submission header_ok push_state alloc c c' h body m r r' st :
  route header_ok c = (c', Ok (Some h)) → enqueue push_state alloc h c' body = Some m → m r = (r', Ok st) →
  ∃ s, submitted r' = submitted r ++ [s] ∧ st = push_state s ∧ submission_valid s.
Proof.
  intros Hr. apply enqueue_valid. destruct (url c) as [|u x] eqn:E.
  - unfold route, Router_route_find, ConnectionInfo_parse_url_components, mbind, M_bind in Hr. cbn in Hr.
    by rewrite E in Hr.
  - pose proof (route_handler header_ok c u x E) as H. by rewrite Hr in H.
Qed.

Definition get_request (u : string) : ConnectionInfo := new_ConnectionInfo "GET" u true.

Definition file_level : RouteLevel factory :=
  mkLevel 1 {["*" := mkLevel 2 ∅ {[1%N := FileHandlerFactory; 2%N := FileHandlerFactory]} 3]} ∅ 0.

Lemma static_level : routes (router_routes server_router) !! "static" = Some file_level.
Proof. vm_compute. reflexivity. Qed.

Lemma file_path l : foldl (λ filepath i, filepath +:+ "/" +:+ i) "static/static" l =
  match l with [] => "static/static" | _ => "static/static/" +:+ string_join "/" l end.
Proof.
  assert (H : ∀ l x s, foldl (λ filepath i, filepath +:+ "/" +:+ i) s (x :: l) = s +:+ "/" +:+ string_join "/" (x :: l)).
  { clear. induction l as [|y l IH]; intros x s; [done|]. cbn [foldl] in *. rewrite IH.
    rewrite (string_join_cons "/" x). by rewrite !str_app_assoc. }
  destruct l as [|x l]; [done|]. by rewrite H.
Qed.

(** The file served for a URL below [/static/] is named by the rest of the URL
    as it stands, after [static/static/]: nothing removes the components ".."
    that leave the directory. *)
Theorem static_path_verbatim header_ok x rest l :
  url_components (S (String.length rest)) rest = Ok (x :: l) → x ≠ "*" →
  (route header_ok (get_request ("/static/" +:+ rest))).2 = Ok (Some (FileHandler ("static/static/" +:+ rest))).
Proof.
  intros Hc Hx. unfold route, Router_route_find.
  assert (Hj : string_join "/" (x :: l) = rest).
  { destruct (url_components_ok rest) as (l' & Hl & Hj & _). congruence. }
  assert (Hurl : url_components (S (String.length ("static/" +:+ rest))) ("static/" +:+ rest) = Ok ("static" :: x :: l)).
  { change ("static/" +:+ rest) with ("static" +:+ String "/" rest). apply url_components_cons; [by vm_compute; set_solver|].
    apply url_components_mono with (fuel := S (String.length rest)); [done|]. rewrite str_app_length. cbn. lia. }
  destruct (parse_url_ok (get_request ("/static/" +:+ rest)) "/" ("static/" +:+ rest) eq_refl)
    as (c1 & l' & Hp & Hl & Hm & Hr & Hu). rewrite Hurl in Hu. injection Hu as <-.
  unfold mbind, M_bind. rewrite Hp. cbn [getM]. rewrite Hl.
  assert (Hget : RouteLevel_get header_ok ("static" :: x :: l) [] (router_routes server_router) c1
    = (c1, Ok (Some FileHandlerFactory, x :: l))).
  { cbn [RouteLevel_get]. unfold find_route at 1. rewrite static_level. unfold mbind, M_bind.
    cbn -[RouteLevel_get_method file_level find_route].
    assert (Hf : find_route x file_level = None).
    { unfold find_route, file_level. cbn [routes]. rewrite lookup_singleton_ne by done. by rewrite lookup_singleton_ne. }
    assert (Hs : routes file_level !! "*" =
      Some (mkLevel 2 ∅ {[1%N := FileHandlerFactory; 2%N := FileHandlerFactory]} 3)) by done.
    rewrite Hf. cbn -[RouteLevel_get_method file_level]. rewrite Hs.
    by rewrite (get_method_ok _ _ _ FileHandlerFactory) by (by rewrite Hm). }
  rewrite Hget, Hr. cbn -[String.app foldl string_join]. unfold FileHandlerFactory_create, liftM. cbn -[String.app foldl string_join].
  rewrite file_path, Hj. done.
Qed.

Lemma request_submission_witness :
  ∃ c' m r', route (λ _ _, true) (get_request "/coll/books/type/book/search") = (c', Ok (Some (SearchHandler "books" "book"))) ∧
    enqueue (λ _, HAS_SPACE) (λ _, "id") (SearchHandler "books" "book") c' JNull = Some m ∧
    m (mkRequest [] [] None) = (r', Ok HAS_SPACE) ∧
    ∃ s, submitted r' = [] ++ [s] ∧ HAS_SPACE = HAS_SPACE ∧ submission_valid s.
Proof.
  destruct (route (λ _ _, true) (get_request "/coll/books/type/book/search")) as [c' r] eqn:E.
  assert (Hr : r = Ok (Some (SearchHandler "books" "book"))) by (vm_compute in E; injection E as _ <-; reflexivity).
  subst r. exists c', (submit (λ _, HAS_SPACE) (queue_readonly "search" (PerformSearchTask "books" JNull "book"))).
  eexists. split; [reflexivity|split; [reflexivity|split; [reflexivity|]]].
  exact (request_submission (λ _ _, true) (λ _, HAS_SPACE) (λ _, "id") _ c' _ JNull _ (mkRequest [] [] None) _ _
    E eq_refl eq_refl).
Defined.

Lemma static_path_verbatim_witness :
  (route (λ _ _, true) (get_request "/static/../../etc/passwd")).2 = Ok (Some (FileHandler "static/static/../../etc/passwd")).
Proof.
  exact (static_path_verbatim (λ _ _, true) ".." "../../etc/passwd" [".."; "etc"; "passwd"] eq_refl ltac:(discriminate)).
Defined.
