(* ===== verification/CategoryTasks.v ===== *)
(** * Reading taxonomies over the REST interface

    The read-only tasks of src/features/category_tasks.cc: what is answered for a
    list of taxonomies, a taxonomy, a category, a parent of a category and the top
    categories of a taxonomy.

    The taxonomies of the open collection are a map by name ([get_taxonomy] returns a
    null pointer for a name it does not have); a response is the body and status of
    the last [set], and whether the result was marked ready. *)

From S2P Require Import Prelude Json TextUtils Taxonomy TaxonomyClosure TaxonomyFacts TaxonomyThms.

(** ** Definitions *)

Record result := mkResult { response : option (json * Z); is_ready : bool }.

Definition new_result : result := mkResult None false.

(** [resulthandle.response().set(body, status); resulthandle.set_ready();] *)
Definition respond_ready (body : json) (status : Z) : M result () := putM (mkResult (Some (body, status)) true).

Definition error_body (msg : string) : json := json_set (JObj []) "err" (jstr msg).

Abbreviation taxonomies := (gmap string (gmap string Category)).

Definition quoted (s : string) : string := sing (chr 34) +:+ s +:+ sing (chr 34).

Definition taxonomy_not_found (taxonomy_name : string) : M result () :=
  respond_ready (error_body ("Taxonomy " +:+ quoted (hexesc taxonomy_name) +:+ " not found")) 404.
Definition category_not_found (cat_id : string) : M result () :=
  respond_ready (error_body ("Category " +:+ quoted (hexesc cat_id) +:+ " not found")) 404.

(** [for (...) array.append( *i)]. *)
Definition append_all (X : Categories) : json :=
  foldl (λ ps p, json_append ps (jstr p)) (JArr []) (sorted_elems X).

Definition CollGetTaxonomiesTask_perform (coll : taxonomies) : M result () :=
  respond_ready (foldl (λ ps p, json_append ps (jstr p)) (JArr []) (sorted_keys coll)) 200.

Definition CollGetTaxonomyTask_perform (taxonomy_name : string) (coll : taxonomies) : M result () :=
  match coll !! taxonomy_name with
  | None => taxonomy_not_found taxonomy_name
  | Some hier => respond_ready (Taxonomy_to_json hier) 200
  end.

Definition CollGetCategoryTask_perform (taxonomy_name cat_id : string) (coll : taxonomies) : M result () :=
  match coll !! taxonomy_name with
  | None => taxonomy_not_found taxonomy_name
  | Some hier =>
      match Taxonomy_find hier cat_id with
      | None => category_not_found cat_id
      | Some cat =>
          let result := json_set (JObj []) "parents" (append_all (parents cat)) in
          let result := json_set result "children" (append_all (children cat)) in
          let result := json_set result "ancestors" (append_all (ancestors cat)) in
          let result := json_set result "descendants" (append_all (descendants cat)) in
          respond_ready result 200
      end
  end.

(** After the answer for a missing taxonomy there is no [return]: the null pointer is
    used. *)
Definition CollGetCategoryParentTask_perform (taxonomy_name cat_id parent_id : string) (coll : taxonomies)
    : M result () :=
  (match coll !! taxonomy_name with None => taxonomy_not_found taxonomy_name | Some _ => mret () end) ;;
  match coll !! taxonomy_name with
  | None => throwM UndefinedBehaviour
  | Some hier =>
      match Taxonomy_find hier cat_id with
      | None => category_not_found cat_id
      | Some cat =>
          if decide (parent_id ∈ parents cat) then respond_ready (JObj []) 200
          else respond_ready (error_body ("Category " +:+ quoted (hexesc parent_id) +:+ " not a parent of " +:+
                                          quoted (hexesc parent_id))) 404
      end
  end.

(** What is reported of a category without parents. *)
Definition top_json (cat : Category) : json :=
  json_set (json_set (JObj []) "child_count" (JUInt (N.of_nat (size (children cat)))))
    "descendant_count" (JUInt (N.of_nat (size (descendants cat)))).

Definition CollGetTopCategoriesTask_perform (taxonomy_name : string) (coll : taxonomies) : M result () :=
  (match coll !! taxonomy_name with None => taxonomy_not_found taxonomy_name | Some _ => mret () end) ;;
  match coll !! taxonomy_name with
  | None => throwM UndefinedBehaviour
  | Some hier =>
      respond_ready (foldl (λ result '(_, cat),
        if decide (parents cat = ∅) then json_set result (name cat) (top_json cat) else result) (JObj []) (sorted_items hier)) 200
  end.

(** ** Lemmas *)

Lemma sorted_elems_strict X : StronglySorted str_lt (sorted_elems X).
Proof.
  pose proof (sorted_elems_nodup X) as Hnd. pose proof (sorted_elems_sorted X) as Hs.
  induction Hs as [|k l Hs IH Hall]; constructor; apply NoDup_cons in Hnd as [Hk Hnd]; [auto|].
  rewrite Forall_forall in Hall |- *. intros j Hj. apply str_lt_spec. split; [auto|]. by intros ->.
Qed.

(** [body] lists, in increasing order under [key], exactly the names satisfying [S]. *)
Definition lists (body : json) (key : string) (S : string → Prop) : Prop :=
  ∃ l, json_index body key = Ok (JArr (JStr <$> l)) ∧ StronglySorted str_lt l ∧ ∀ x, x ∈ l ↔ S x.

Lemma append_all_eq X : (∀ x, x ∈ X → c_str x = x) → append_all X = JArr (JStr <$> sorted_elems X).
Proof.
  intros HX. unfold append_all. rewrite append_strings; [done|]. apply Forall_forall.
  intros x Hx%elem_of_sorted_elems. auto.
Qed.

Lemma lists_set body key X S :
  json_index body key = Ok (append_all X) → (∀ x, x ∈ X → c_str x = x) → (∀ x, x ∈ X ↔ S x) → lists body key S.
Proof.
  intros Hb HX HS. exists (sorted_elems X). rewrite Hb, append_all_eq by done. split_and!; [done|apply sorted_elems_strict|].
  intros x. by rewrite elem_of_sorted_elems.
Qed.

Lemma top_fold l : ∀ m,
  (∀ n c, (n, c) ∈ l → name c = n ∧ c_str n = n) → NoDup l.*1 →
  ∃ m', foldl (λ result '(_, cat), if decide (parents cat = ∅) then json_set result (name cat) (top_json cat) else result)
          (JObj m) l = JObj m' ∧
    ∀ k v, obj_find k m' = Some v ↔
      (∃ c, (k, c) ∈ l ∧ parents c = ∅ ∧ v = top_json c) ∨
      (¬ (∃ c, (k, c) ∈ l ∧ parents c = ∅) ∧ obj_find k m = Some v).
Proof.
  induction l as [|[n c] l IH]; intros m Hl Hnd.
  - exists m. split; [done|]. intros k v. split; [intros Hv; right; split; [|done]; by intros (? & ?%not_elem_of_nil & _)|].
    intros [(? & ?%not_elem_of_nil & _)|[_ ?]]; done.
  - cbn [foldl]. destruct (Hl n c ltac:(set_solver)) as [Hn Hc]. cbn in Hnd. apply NoDup_cons in Hnd as [Hnl Hnd].
    assert (Hnot : ∀ c', (n, c') ∉ l) by (intros c' Hin; apply Hnl, list_elem_of_fmap; by exists (n, c')).
    destruct (decide (parents c = ∅)) as [Hp|Hp].
    + destruct (IH (obj_set n (top_json c) m) ltac:(set_solver) Hnd) as (m' & Hm' & Hf).
      exists m'. split; [rewrite <-Hm'; cbn; by rewrite Hn, Hc|]. intros k v. rewrite Hf, obj_find_set.
      destruct (decide (n = k)) as [<-|Hne]; split.
      * intros [(c' & Hin & _)|[_ [= <-]]]; [by destruct (Hnot c')|]. left. exists c. set_solver.
      * intros [(c' & [[= ->]|Hin]%elem_of_cons & _ & ->)|[Hno _]].
        -- right. split; [|done]. intros (c'' & Hin & _). by destruct (Hnot c'').
        -- by destruct (Hnot c').
        -- destruct Hno. exists c. set_solver.
      * intros [(c' & Hin & Hp' & ->)|[Hno Hv]]; [left; exists c'; set_solver|right]. split; [|done].
        intros (c' & [[= <- _]|Hin]%elem_of_cons & Hp'); [done|]. destruct Hno. eauto.
      * intros [(c' & [[= <- _]|Hin]%elem_of_cons & Hp' & ->)|[Hno Hv]]; [done|left; eauto|right].
        split; [|done]. intros (c' & Hin & Hp'). destruct Hno. exists c'. set_solver.
    + destruct (IH m ltac:(set_solver) Hnd) as (m' & Hm' & Hf). exists m'. split; [done|]. intros k v. rewrite Hf.
      assert (Hex : ∀ c', (k, c') ∈ (n, c) :: l ∧ parents c' = ∅ ↔ (k, c') ∈ l ∧ parents c' = ∅).
      { intros c'. rewrite elem_of_cons. split; [|tauto]. intros [[[= -> ->]|?] ?]; done. }
      setoid_rewrite Hex. split.
      * intros [(c' & Hin & Hp' & ->)|Hno]; [|auto]. left. exists c'. set_solver.
      * intros [(c' & Hin & Hp' & ->)|Hno]; [|auto]. left. exists c'. split_and!; [|done..]. by apply Hex.
Qed.

(** ** Properties *)

(** The answer for a category: its direct and transitive relatives, each in
    increasing order, as the hierarchy defines them. *)
Theorem get_category_response coll taxonomy_name hier cat_id cat r :
  coll !! taxonomy_name = Some hier → wf hier → names_c hier → hier !! cat_id = Some cat →
  ∃ body, CollGetCategoryTask_perform taxonomy_name cat_id coll r = (mkResult (Some (body, 200%Z)) true, Ok ()) ∧
    lists body "parents" (P hier cat_id) ∧ lists body "children" (C hier cat_id) ∧
    lists body "ancestors" (tc (P hier) cat_id) ∧ lists body "descendants" (tc (C hier) cat_id).
Proof.
  intros Hcoll Hwf Hnames Hcat. unfold CollGetCategoryTask_perform, Taxonomy_find. rewrite Hcoll, Hcat.
  eexists. split; [reflexivity|].
  assert (Hedge : ∀ next x, edge next hier cat_id x ↔ x ∈ next cat).
  { intros next x. unfold edge. rewrite Hcat. naive_solver. }
  split_and!; (eapply lists_set; [reflexivity|intros x Hx|intros x]).
  - apply Hnames, (wf_parent_dom hier Hwf cat_id). by apply Hedge.
  - symmetry. apply Hedge.
  - apply Hnames, (wf_child_dom hier Hwf cat_id). by apply Hedge.
  - symmetry. apply Hedge.
  - apply Hnames, (wf_anc_dom hier Hwf cat_id). by apply (wf_ancestors hier Hwf cat_id cat).
  - by apply (wf_ancestors hier Hwf).
  - apply Hnames, (wf_desc_dom hier Hwf cat_id). by apply (wf_descendants hier Hwf cat_id cat).
  - by apply (wf_descendants hier Hwf).
Qed.

(** The top categories of a taxonomy are those without parents, with the
    numbers of their children and descendants. *)
Theorem top_categories_response coll taxonomy_name hier r :
  coll !! taxonomy_name = Some hier → wf hier → names_c hier →
  ∃ m, CollGetTopCategoriesTask_perform taxonomy_name coll r = (mkResult (Some (JObj m, 200%Z)) true, Ok ()) ∧
    ∀ n v, obj_find n m = Some v ↔ ∃ cat, hier !! n = Some cat ∧ parents cat = ∅ ∧
      v = JObj [("child_count", JUInt (N.of_nat (size (children cat))));
                ("descendant_count", JUInt (N.of_nat (size (descendants cat))))].
Proof.
  intros Hcoll Hwf Hnames. unfold CollGetTopCategoriesTask_perform, mbind, M_bind. rewrite Hcoll.
  destruct (top_fold (sorted_items hier) []) as (m & Hm & Hf).
  - intros n c Hc%elem_of_sorted_items. split; [by apply (wf_name hier Hwf)|apply Hnames; eauto].
  - apply sorted_items_nodup.
  - exists m. split; [by rewrite Hm|]. intros n v. rewrite Hf.
    setoid_rewrite elem_of_sorted_items. split; [intros [?|[_ ?]]; done|]. auto.
Qed.

(** A taxonomy that does not exist.  Two of the tasks answer 404 and are done;
    the two others answer 404 and then use the null pointer they were given. *)
Theorem missing_taxonomy coll taxonomy_name cat_id parent_id r :
  coll !! taxonomy_name = None →
  let answered := mkResult (Some (JObj [("err", jstr ("Taxonomy " +:+ quoted (hexesc taxonomy_name) +:+ " not found"))], 404%Z)) true in
  CollGetTaxonomyTask_perform taxonomy_name coll r = (answered, Ok ()) ∧
  CollGetCategoryTask_perform taxonomy_name cat_id coll r = (answered, Ok ()) ∧
  CollGetCategoryParentTask_perform taxonomy_name cat_id parent_id coll r = (answered, throw UndefinedBehaviour) ∧
  CollGetTopCategoriesTask_perform taxonomy_name coll r = (answered, throw UndefinedBehaviour).
Proof.
  intros H. unfold CollGetTaxonomyTask_perform, CollGetCategoryTask_perform, CollGetCategoryParentTask_perform,
    CollGetTopCategoriesTask_perform, mbind, M_bind. by rewrite H.
Qed.

(** The taxonomy [abc], in which [a] is a parent of [b] and [b] of [c]. *)
Definition example_coll : taxonomies := {["t" := cats abc]}.

Lemma abc_names : names_c (cats abc).
Proof.
  intros n. rewrite <-elem_of_dom. intros Hn. apply elem_of_elements in Hn. revert n Hn.
  apply Forall_forall. vm_compute. repeat constructor.
Qed.

Lemma get_category_response_witness :
  ∃ body, CollGetCategoryTask_perform "t" "c" example_coll new_result = (mkResult (Some (body, 200%Z)) true, Ok ()) ∧
    lists body "ancestors" (tc (P (cats abc)) "c").
Proof.
  destruct (get_category_response example_coll "t" (cats abc) "c"
    (mkCategory "c" {["b"]} ∅ ({["a"]} ∪ {["b"]}) ∅) new_result ltac:(reflexivity) abc_wf abc_names
    ltac:(vm_compute; reflexivity)) as (body & H & _ & _ & Ha & _).
  exists body. split; [exact H|exact Ha].
Defined.

Lemma top_categories_response_witness :
  ∃ m, CollGetTopCategoriesTask_perform "t" example_coll new_result = (mkResult (Some (JObj m, 200%Z)) true, Ok ()) ∧
    obj_find "a" m = Some (JObj [("child_count", JUInt 1); ("descendant_count", JUInt 2)]).
Proof.
  destruct (top_categories_response example_coll "t" (cats abc) new_result ltac:(reflexivity) abc_wf abc_names)
    as (m & H & Hf).
  exists m. split; [exact H|]. apply Hf.
  exists (mkCategory "a" ∅ {["b"]} ∅ ({["b"]} ∪ {["c"]})). split; [vm_compute; reflexivity|split; reflexivity].
Defined.

Lemma missing_taxonomy_witness :
  (CollGetTopCategoriesTask_perform "none" example_coll new_result).2 = throw UndefinedBehaviour.
Proof.
  rewrite (proj2 (proj2 (proj2 (missing_taxonomy example_coll "none" "c" "b" new_result ltac:(reflexivity))))).
  reflexivity.
Defined.
