(* ===== verification/RefJson.v ===== *)
(** * A text form of JSON values

    A concrete pair of functions that satisfies what is relied on of the JSON writer and
    parser together: every value is read back from its text.  It serves in the examples;
    the text is the value's code in binary. *)

From Stdlib Require Import SpecFloat.
From stdpp Require Import countable.
From S2P Require Import Prelude Json.

(** ** Codes of JSON values *)

#[local] Instance spec_float_eq_dec : EqDecision spec_float.
Proof. solve_decision. Defined.

#[local] Instance spec_float_countable : Countable spec_float.
Proof.
  refine (inj_countable'
    (λ d, match d with
          | S754_zero s => inl (inl s) | S754_infinity s => inl (inr s)
          | S754_nan => inr (inl ()) | S754_finite s m e => inr (inr (s, m, e)) end)
    (λ c, match c with
          | inl (inl s) => S754_zero s | inl (inr s) => S754_infinity s
          | inr (inl _) => S754_nan | inr (inr (s, m, e)) => S754_finite s m e end) _).
  by intros [].
Defined.

(** The values without parts. *)
Inductive leaf := LNull | LInt (z : Z) | LUInt (n : N) | LReal (d : spec_float) | LStr (s : string) | LBool (b : bool) | LKey (s : string).

#[local] Instance leaf_eq_dec : EqDecision leaf.
Proof. solve_decision. Defined.

#[local] Instance leaf_countable : Countable leaf.
Proof.
  refine (inj_countable'
    (λ x, match x with
          | LNull => inl (inl ()) | LInt z => inl (inr (inl z)) | LUInt n => inl (inr (inr (inl n)))
          | LReal d => inl (inr (inr (inr d))) | LStr s => inr (inl s) | LBool b => inr (inr (inl b)) | LKey s => inr (inr (inr s)) end)
    (λ c, match c with
          | inl (inl _) => LNull | inl (inr (inl z)) => LInt z | inl (inr (inr (inl n))) => LUInt n
          | inl (inr (inr (inr d))) => LReal d | inr (inl s) => LStr s | inr (inr (inl b)) => LBool b | inr (inr (inr s)) => LKey s end) _).
  by intros [].
Defined.

Fixpoint json_tree (v : json) : gen_tree leaf :=
  match v with
  | JNull => GenLeaf LNull
  | JInt z => GenLeaf (LInt z)
  | JUInt n => GenLeaf (LUInt n)
  | JReal d => GenLeaf (LReal d)
  | JStr s => GenLeaf (LStr s)
  | JBool b => GenLeaf (LBool b)
  | JArr l => GenNode 0 (json_tree <$> l)
  | JObj m => GenNode 1 ((λ '(k, x), GenNode 2 [GenLeaf (LKey k); json_tree x]) <$> m)
  end.

Fixpoint tree_json (t : gen_tree leaf) : json :=
  match t with
  | GenLeaf LNull => JNull
  | GenLeaf (LInt z) => JInt z
  | GenLeaf (LUInt n) => JUInt n
  | GenLeaf (LReal d) => JReal d
  | GenLeaf (LStr s) => JStr s
  | GenLeaf (LBool b) => JBool b
  | GenLeaf (LKey s) => JNull
  | GenNode 0 l => JArr (tree_json <$> l)
  | GenNode _ l =>
      JObj ((λ t, match t with GenNode _ [GenLeaf (LKey k); x] => (k, tree_json x) | _ => ("", JNull) end) <$> l)
  end.

Lemma tree_json_tree v : tree_json (json_tree v) = v.
Proof.
  induction v as [| | | | | |l IH|m IH] using json_nested_ind; try done; cbn; f_equal.
  - rewrite <-list_fmap_compose. rewrite <-(list_fmap_id l) at 2. apply list_fmap_ext. intros i x Hx. rewrite Forall_lookup in IH. by eapply IH.
  - rewrite <-list_fmap_compose. rewrite <-(list_fmap_id m) at 2. apply list_fmap_ext. intros i [k x] Hx. rewrite Forall_lookup in IH.
    pose proof (IH _ _ Hx) as E. cbn in *. by rewrite E.
Qed.

(** ** Texts *)

(** The binary digits of a number, lowest first. *)
Fixpoint bits (p : positive) : string :=
  match p with xH => "" | xO p => String "0" (bits p) | xI p => String "1" (bits p) end.

Fixpoint of_bits (s : string) : positive :=
  match s with
  | EmptyString => 1
  | String c s => if decide (c = "0"%char) then xO (of_bits s) else xI (of_bits s)
  end.

Lemma of_bits_bits p : of_bits (bits p) = p.
Proof. induction p as [p IH|p IH|]; cbn; by rewrite ?IH. Qed.

Definition ref_serialise (v : json) : string := "#" +:+ bits (encode (json_tree v)).

Definition ref_unserialise (s : string) : res json :=
  match s with
  | String _ s => match decode (of_bits s) with Some t => Ok (tree_json t) | None => throw (InvalidValueError "not a value") end
  | EmptyString => throw (InvalidValueError "not a value")
  end.

Lemma ref_unserialise_serialise v : ref_unserialise (ref_serialise v) = Ok v.
Proof. unfold ref_serialise. change (ref_unserialise _) with (match decode (of_bits (bits (encode (json_tree v)))) with Some t => Ok (tree_json t) | None => throw (InvalidValueError "not a value") end).
  by rewrite of_bits_bits, decode_encode, tree_json_tree. Qed.

Lemma ref_serialise_nonempty v : ref_serialise v ≠ "".
Proof. done. Qed.
