(* ===== verification/XapianDb.v ===== *)
(** * Xapian documents and databases

    What the code of src/dbgroup and src/jsonxapian relies on of the Xapian library:
    a document is a set of terms with data and values in slots (its payload); a
    database holds documents under positive numbers, finds them by their terms and
    stores metadata; several databases are read as one.

    The operations are the class [Xapian], what the library's documentation says of
    them is [XapianLaws]; [refdb] is a concrete database that satisfies the laws. *)

From S2P Require Import Prelude.

(** ** The interface *)

Class Xapian (document database : Type) := {
  (** [Document]: [termlist_begin()], [add_term(t, 0)], [remove_term(t)]. *)
  terms : document → gset string;
  payload : document → string * gmap N string;
  add_term : string → document → document;
  remove_term : string → document → document;
  (** [Database]: [get_document], [postlist_begin], [get_doccount], [get_metadata], and
      [add_database] for each of a list of databases. *)
  empty_db : database;
  get_document : database → N → option document;
  postlist : database → string → list N;
  get_doccount : database → N;
  get_metadata : database → string → string;
  combine : list database → database;
  (** [WritableDatabase]. *)
  add_document : document → database → database;
  replace_document : string → document → database → database;
  delete_document : string → database → database;
  set_metadata : string → string → database → database;
  (** [XAPIAN_FLUSH_THRESHOLD]: the library commits of itself when this many documents
      have been added, replaced or deleted since the last commit. *)
  flush_threshold : N;
  (** Whether committing succeeds, given what is stored and what is to be; and what is
      left when it does not: "the database will be left in a state in which each separate
      addition, replacement or deletion operation has either been fully performed or not
      performed at all". *)
  commit_ok : database → database → bool;
  partial_commit : database → database → database;
}.

(** No commit fails: there is space on the disk, and no error of it. *)
Class CommitsSucceed (document database : Type) `{!Xapian document database} : Prop :=
  commits_succeed : ∀ old new : database, commit_ok old new = true.

(** The database and number a number of a combined database of [n] stands for. *)
Definition sub_index (n : nat) (d : N) : nat := N.to_nat ((d - 1) mod N.of_nat n).
Definition sub_docid (n : nat) (d : N) : N := ((d - 1) / N.of_nat n + 1)%N.

Class XapianLaws (document database : Type) `{!Xapian document database} : Prop := {
  terms_add t (x : document) : terms (add_term t x) = {[t]} ∪ terms x;
  payload_add t (x : document) : payload (add_term t x) = payload x;
  terms_remove t (x : document) : t ∈ terms x → terms (remove_term t x) = terms x ∖ {[t]};
  payload_remove t (x : document) : payload (remove_term t x) = payload x;
  empty_docs d : get_document (empty_db : database) d = None;
  empty_metadata k : get_metadata (empty_db : database) k = "";
  docid_positive (db : database) d : get_document db d ≠ None → (0 < d)%N;
  postlist_sorted (db : database) t : StronglySorted N.lt (postlist db t);
  elem_of_postlist (db : database) t d :
    d ∈ postlist db t ↔ ∃ x, get_document db d = Some x ∧ t ∈ terms x;
  combine_docs (dbs : list database) d : (0 < d)%N →
    get_document (combine dbs) d =
      dbs !! sub_index (length dbs) d ≫= λ db, get_document db (sub_docid (length dbs) d);
  (** "If any documents are indexed by the term, the first is replaced and the others
      are removed; otherwise a new document is added." *)
  replace_present t (x : document) (db : database) d ds d' :
    postlist db t = d :: ds →
    get_document (replace_document t x db) d' =
      if decide (d' = d) then Some x else if decide (d' ∈ ds) then None else get_document db d';
  replace_absent t (x : document) (db : database) :
    postlist db t = [] → replace_document t x db = add_document x db;
  add_fresh (x : document) (db : database) :
    ∃ d, get_document db d = None ∧ (0 < d)%N ∧
      ∀ d', get_document (add_document x db) d' = if decide (d' = d) then Some x else get_document db d';
  delete_docs t (db : database) d :
    get_document (delete_document t db) d =
      if decide (d ∈ postlist db t) then None else get_document db d;
  set_metadata_docs k v (db : database) d : get_document (set_metadata k v db) d = get_document db d;
  get_set_metadata k v (db : database) k' :
    get_metadata (set_metadata k v db) k' = if decide (k' = k) then v else get_metadata db k';
}.

(** [db.term_exists(t)]. *)
Definition term_exists `{Xapian document database} (db : database) (t : string) : bool :=
  match postlist db t with [] => false | _ => true end.

(** ** Facts for every implementation *)

Section facts.
Context {document database : Type} `{!Xapian document database} `{!XapianLaws document database}.
Implicit Types db : database.
Implicit Types x : document.

Lemma term_exists_spec db t :
  term_exists db t = true ↔ ∃ d x, get_document db d = Some x ∧ t ∈ terms x.
Proof.
  unfold term_exists. setoid_rewrite <-elem_of_postlist. destruct (postlist db t) as [|d ds].
  - split; [done|]. by intros (d & Hd%elem_of_nil).
  - split; [|done]. exists d. apply list_elem_of_here.
Qed.

Lemma term_exists_false db t :
  term_exists db t = false ↔ ∀ d x, get_document db d = Some x → t ∉ terms x.
Proof.
  rewrite <-not_true_iff_false, term_exists_spec. naive_solver.
Qed.

(** A term of a single document. *)
Lemma postlist_unique db t d x :
  get_document db d = Some x → t ∈ terms x →
  (∀ d' x', get_document db d' = Some x' → t ∈ terms x' → d' = d) →
  postlist db t = [d].
Proof.
  intros Hd Ht Hu. assert (Hin : d ∈ postlist db t) by (apply elem_of_postlist; eauto).
  assert (Hall : ∀ d', d' ∈ postlist db t → d' = d).
  { intros d' (x' & ? & ?)%elem_of_postlist. eauto. }
  pose proof (postlist_sorted db t) as Hs. destruct (postlist db t) as [|a [|b l]]; [set_solver| |].
  - f_equal. apply Hall. set_solver.
  - exfalso. apply StronglySorted_inv in Hs as [_ Hs]. rewrite Forall_forall in Hs.
    specialize (Hs b ltac:(set_solver)). rewrite (Hall a), (Hall b) in Hs by set_solver. lia.
Qed.

(** Replacing the only document of a term. *)
Lemma replace_unique db t d x y :
  get_document db d = Some x → t ∈ terms x →
  (∀ d' x', get_document db d' = Some x' → t ∈ terms x' → d' = d) →
  ∀ d', get_document (replace_document t y db) d' = if decide (d' = d) then Some y else get_document db d'.
Proof.
  intros Hd Ht Hu d'. rewrite (replace_present t y db d []) by by apply (postlist_unique db t d x).
  case_decide; [done|]. rewrite decide_False by apply not_elem_of_nil. done.
Qed.

End facts.

(** ** Numbers in a combined database *)

(** The number of document [d] of the [i]-th of [n] databases. *)
Definition group_docid (n i : nat) (d : N) : N := ((d - 1) * N.of_nat n + N.of_nat i + 1)%N.

Lemma group_docid_positive n i d : (0 < group_docid n i d)%N.
Proof. unfold group_docid. rewrite N.add_1_r. apply N.lt_0_succ. Qed.

Lemma sub_index_group n i d : i < n → sub_index n (group_docid n i d) = i.
Proof.
  intros Hi. unfold sub_index, group_docid. rewrite N.add_sub.
  rewrite (N.add_comm _ (N.of_nat i)), N.Div0.mod_add, N.mod_small by lia. apply Nat2N.id.
Qed.

Lemma sub_docid_group n i d : i < n → (0 < d)%N → sub_docid n (group_docid n i d) = d.
Proof.
  intros Hi Hd. unfold sub_docid, group_docid. rewrite N.add_sub.
  rewrite N.div_add_l, N.div_small by lia. lia.
Qed.

Lemma group_docid_sub n d : n ≠ 0 → (0 < d)%N → group_docid n (sub_index n d) (sub_docid n d) = d.
Proof.
  intros Hn Hd. unfold group_docid, sub_index, sub_docid. rewrite N.add_sub, N2Nat.id.
  pose proof (N.div_mod (d - 1) (N.of_nat n) ltac:(lia)). lia.
Qed.

Lemma sub_index_lt n d : n ≠ 0 → sub_index n d < n.
Proof. intros Hn. unfold sub_index. pose proof (N.mod_lt (d - 1) (N.of_nat n) ltac:(lia)). lia. Qed.

Lemma sub_docid_positive n d : (0 < sub_docid n d)%N.
Proof. unfold sub_docid. rewrite N.add_1_r. apply N.lt_0_succ. Qed.

#[export] Hint Resolve group_docid_positive sub_docid_positive sub_index_lt : rp.

(** ** A reference implementation *)

(** [rpayload] is the data and the values. *)
Record refdoc := Refdoc { rterms : gset string; rpayload : string * gmap N string }.
Definition mkRefdoc (X : gset string) (data : string) : refdoc := Refdoc X (data, ∅).
Record refdb := mkRefdb { rdocs : gmap N refdoc; rmeta : gmap string string }.

Definition ref_get (db : refdb) (d : N) : option refdoc :=
  if decide (d = 0)%N then None else rdocs db !! d.

Definition ref_postlist (db : refdb) (t : string) : list N :=
  merge_sort N.le (elements (dom (filter (λ '(d, x), d ≠ 0%N ∧ t ∈ rterms x) (rdocs db)))).

Definition ref_add (x : refdoc) (db : refdb) : refdb :=
  mkRefdb (<[N.succ (foldr N.max 0%N (elements (dom (rdocs db)))) := x]> (rdocs db)) (rmeta db).

Definition ref_replace (t : string) (x : refdoc) (db : refdb) : refdb :=
  match ref_postlist db t with
  | [] => ref_add x db
  | d :: ds => mkRefdb (<[d := x]> (foldr delete (rdocs db) ds)) (rmeta db)
  end.

(** Reading document [d] through the database that holds it. *)
Definition ref_through (dbs : list refdb) (d : N) : option refdoc :=
  dbs !! sub_index (length dbs) d ≫= λ db, ref_get db (sub_docid (length dbs) d).

Definition ref_docids (dbs : list refdb) : gset N :=
  list_to_set (mjoin (imap (λ i db, group_docid (length dbs) i <$> elements (dom (rdocs db))) dbs)).

Definition ref_combine (dbs : list refdb) : refdb :=
  mkRefdb (list_to_map (omap (λ d, pair d <$> ref_through dbs d) (elements (ref_docids dbs)))) ∅.

#[export] Instance refdb_Xapian : Xapian refdoc refdb := {
  terms := rterms;
  payload := rpayload;
  add_term t x := Refdoc ({[t]} ∪ rterms x) (rpayload x);
  remove_term t x := Refdoc (rterms x ∖ {[t]}) (rpayload x);
  empty_db := mkRefdb ∅ ∅;
  get_document := ref_get;
  postlist := ref_postlist;
  get_doccount db := N.of_nat (size (rdocs db));
  get_metadata db k := default "" (rmeta db !! k);
  combine := ref_combine;
  add_document := ref_add;
  replace_document := ref_replace;
  delete_document t db := mkRefdb (foldr delete (rdocs db) (ref_postlist db t)) (rmeta db);
  set_metadata k v db := mkRefdb (rdocs db) (<[k := v]> (rmeta db));
  flush_threshold := 10000;
  commit_ok _ _ := true;
  partial_commit old _ := old;
}.

Lemma elem_of_ref_postlist db t d :
  d ∈ ref_postlist db t ↔ ∃ x, ref_get db d = Some x ∧ t ∈ rterms x.
Proof.
  unfold ref_postlist, ref_get. rewrite merge_sort_Permutation, elem_of_elements, elem_of_dom.
  unfold is_Some. setoid_rewrite map_lookup_filter_Some. case_decide; naive_solver.
Qed.

Lemma ref_postlist_sorted db t : StronglySorted N.lt (ref_postlist db t).
Proof.
  unfold ref_postlist. set (l := elements _).
  assert (Hnd : NoDup (merge_sort N.le l)).
  { rewrite merge_sort_Permutation. apply NoDup_elements. }
  assert (Hs : StronglySorted N.le (merge_sort N.le l)).
  { apply StronglySorted_merge_sort; apply _. }
  induction Hs as [|a k Hs IH Hall]; constructor; apply NoDup_cons in Hnd as [Ha Hnd]; [auto|].
  rewrite Forall_forall in Hall |- *. intros b Hb. specialize (Hall b Hb).
  assert (a ≠ b) by (by intros ->). lia.
Qed.

Lemma ref_fresh (l : list N) d : d ∈ l → (d ≤ foldr N.max 0 l)%N.
Proof. induction l as [|a l IH]; [by intros ?%elem_of_nil|]. rewrite elem_of_cons. cbn. intros [->|?%IH]; lia. Qed.

Lemma foldr_delete_lookup {A} (m : gmap N A) l d :
  foldr delete m l !! d = if decide (d ∈ l) then None else m !! d.
Proof.
  case_decide as Hd; [by apply lookup_foldr_delete|by apply lookup_foldr_delete_not_elem_of].
Qed.

Lemma elem_of_ref_docids dbs d x : (0 < d)%N → ref_through dbs d = Some x → d ∈ ref_docids dbs.
Proof.
  unfold ref_through, ref_docids, ref_get. intros Hd H. apply bind_Some in H as (db & Hdb & Hx). case_decide; [done|].
  rewrite elem_of_list_to_set. rewrite list_elem_of_join.
  assert (Hn : length dbs ≠ 0) by (apply lookup_lt_Some in Hdb; lia).
  eexists. split; [|apply list_elem_of_lookup; exists (sub_index (length dbs) d); by rewrite list_lookup_imap, Hdb].
  apply list_elem_of_fmap. exists (sub_docid (length dbs) d). rewrite group_docid_sub by done.
  split; [done|]. rewrite elem_of_elements, elem_of_dom. by rewrite Hx.
Qed.

Lemma ref_combine_docs dbs d : (0 < d)%N → ref_get (ref_combine dbs) d = ref_through dbs d.
Proof.
  intros Hd. unfold ref_get. rewrite decide_False by lia. cbn. apply option_eq. intros x.
  rewrite <-elem_of_list_to_map.
  - rewrite list_elem_of_omap. split.
    + intros (d' & _ & Hx). destruct (ref_through dbs d') eqn:E; by simplify_eq/=.
    + intros Hx. exists d. rewrite elem_of_elements, Hx. split; [by eapply elem_of_ref_docids|done].
  - pose proof (NoDup_elements (ref_docids dbs)) as Hnd. induction Hnd as [|a l Ha Hnd IH]; [constructor|].
    csimpl. destruct (ref_through dbs a); csimpl; [|done]. constructor; [|done].
    rewrite list_elem_of_fmap. setoid_rewrite list_elem_of_omap. intros ([??] & -> & y & Hy & E).
    destruct (ref_through dbs y); simplify_eq/=. done.
Qed.

#[export] Instance refdb_CommitsSucceed : CommitsSucceed refdoc refdb.
Proof. done. Qed.

#[export] Instance refdb_XapianLaws : XapianLaws refdoc refdb.
Proof.
  split; cbn; try done.
  - intros d. unfold ref_get. cbn. by case_decide.
  - intros db d. unfold ref_get. case_decide; [done|lia].
  - apply ref_postlist_sorted.
  - apply elem_of_ref_postlist.
  - apply ref_combine_docs.
  - intros t x db d ds d' Hp. unfold ref_replace. rewrite Hp. unfold ref_get. cbn.
    assert (Hd : d ≠ 0%N).
    { intros ->. assert (H0 : (0 ∈ ref_postlist db t)%N) by (rewrite Hp; set_solver).
      apply elem_of_ref_postlist in H0 as (? & ? & _). done. }
    destruct (decide (d' = d)) as [->|Hne]; [by rewrite decide_False, lookup_insert_eq|].
    rewrite lookup_insert_ne, foldr_delete_lookup by done. by repeat case_decide.
  - intros t x db Hp. unfold ref_replace. by rewrite Hp.
  - intros x db. set (d := N.succ (foldr N.max 0%N (elements (dom (rdocs db))))). exists d.
    assert (Hd : rdocs db !! d = None).
    { apply not_elem_of_dom. intros Hin%elem_of_elements%ref_fresh. unfold d in Hin. lia. }
    unfold ref_get, ref_add. fold d. cbn. rewrite decide_False, Hd by lia. split_and!; [done|lia|].
    intros d'. destruct (decide (d' = d)) as [->|]; [by rewrite decide_False, lookup_insert_eq by lia|].
    by rewrite lookup_insert_ne.
  - intros t db d. unfold ref_get. cbn. rewrite foldr_delete_lookup. by repeat case_decide.
  - intros k v db k'. destruct (decide (k' = k)) as [->|]; [by rewrite lookup_insert_eq|by rewrite lookup_insert_ne].
Qed.
