(* ===== verification/RefLib.v ===== *)
(** * A concrete library for indexing

    An implementation of what indexing uses of libraries ([IndexLib], [DocStore]) over the
    documents of the reference database of [XapianDb]: it satisfies the laws and can be
    run on concrete documents.  A text is a single word, and numbers are written as their
    integer part. *)

From Stdlib Require Import SpecFloat.
From S2P Require Import Prelude Json TextUtils DocValues Indexing XapianDb.

(** ASCII letters in lower case. *)
Definition ascii_lower (c : ascii) : ascii := if in_span "A" "Z" c then chr (ord c + 32) else c.
Definition ref_tolower (s : string) : string := String.string_of_list_ascii (ascii_lower <$> bytes s).

(** The decimal digits at the start of a text, with an optional sign. *)
Fixpoint ref_digits (s : string) (acc : Z) : Z * string :=
  match s with
  | String c r => if is_digit c then ref_digits r (acc * 10 + Z.of_N (ord c - 48)) else (acc, s)
  | EmptyString => (acc, s)
  end.
Definition ref_strtod (s : string) : spec_float * string :=
  match s with
  | String c r =>
      if decide (c = "-"%char) then let '(z, r) := ref_digits r 0 in (Z_to_double (- z), r)
      else let '(z, r) := ref_digits s 0 in (Z_to_double z, r)
  | EmptyString => (Z_to_double 0, s)
  end.

Definition ref_sortable (d : spec_float) : string := str_int (real_trunc d).

(** A text for a JSON value. *)
Fixpoint ref_write (v : json) : string :=
  match v with
  | JNull => "null"
  | JInt z => str_int z
  | JUInt n => str_unsigned n
  | JReal d => str_int (real_trunc d)
  | JStr s => quoted s
  | JBool b => if b then "true" else "false"
  | JArr l => "[" +:+ str_concat ((λ x, ref_write x +:+ ",") <$> l) +:+ "]"
  | JObj m => "{" +:+ str_concat ((λ '(k, x), quoted k +:+ ":" +:+ ref_write x +:+ ",") <$> m) +:+ "}"
  end.

Definition ref_set_value (slot : N) (v : string) (x : refdoc) : refdoc :=
  Refdoc (rterms x) ((rpayload x).1,
    if decide (v = "") then delete slot (rpayload x).2 else <[slot := v]> (rpayload x).2).

#[export] Instance refdoc_DocStore : DocStore refdoc := {
  add_value := ref_set_value;
  get_value slot x := default "" ((rpayload x).2 !! slot);
}.

#[export] Instance refdoc_DocStoreLaws : DocStoreLaws refdoc.
Proof.
  split. intros slot slot' v d. cbn. destruct (decide (slot' = slot)) as [->|Hne], (decide (v = "")) as [->|Hv]; cbn.
  - by rewrite lookup_delete_eq.
  - by rewrite lookup_insert_eq.
  - by rewrite lookup_delete_ne.
  - by rewrite lookup_insert_ne.
Qed.

Definition ref_add_term (t : string) (x : refdoc) : refdoc := Refdoc ({[t]} ∪ rterms x) (rpayload x).

#[export] Instance refdoc_IndexLib : IndexLib refdoc := {
  new_document := mkRefdoc ∅ "";
  add_term_wdf t _ := ref_add_term t;
  add_posting t _ := ref_add_term t;
  set_data d x := Refdoc (rterms x) (d, (rpayload x).2);
  known_language lang := bool_decide (lang ∈ [""; "en"]);
  index_text _ text prefix := ref_add_term (prefix +:+ ref_tolower text);
  tokenize s := [(s, 0%N)];
  tolower := ref_tolower;
  sortable_serialise := ref_sortable;
  serialise_coord lat _ := if real_le_Z lat 90 && real_ge_Z lat (-90) then Ok "coords" else throw (XapianError "InvalidArgumentError");
  strtod := ref_strtod;
  json_serialise := ref_write;
  styled := ref_write;
}.
