(* ===== verification/ProcessDoc.v ===== *)
(** * From a JSON document to a Xapian document

    [Schema::process] of src/jsonxapian/schema.cc, which sends each member of a document
    to the indexer of its field and configures unknown fields by the patterns, and
    [CollectionConfig::process_doc] of collconfig.cc, which finds the type and the
    identifier of the document first; the display of stored fields (schema.cc). *)

From S2P Require Import Prelude Json TextUtils DocData DocValues Hashing Schema CollConfig Indexing XapianDb.

(** The references both functions are given. *)
Record refs := mkRefs { ref_idterm : string; ref_errors : IndexingErrors; ref_new_fields : bool }.

Section process.
Context {document : Type} `{!DocStore document} `{!IndexLib document}.
Context (w : N) (assertions : bool).

Record process_state := mkProc {
  proc_schema : Schema;
  proc_state : IndexingState document;
  new_fields : bool;
}.

Abbreviation processM := (M process_state).

Definition on_schema {A} (op : M Schema A) : processM A := λ p,
  let '(s, r) := op (proc_schema p) in (mkProc s (proc_state p) (new_fields p), r).
Definition on_state {A} (op : M (IndexingState document) A) : processM A := λ p,
  let '(s, r) := op (proc_state p) in (mkProc (proc_schema p) s (new_fields p), r).

(** ** [Schema::process] *)

Section with_config.
Context (collconfig : CollectionConfig).

(** The indexer of a field, configured by the patterns if there is none. *)
Definition find_indexer (fieldname : string) : processM (option FieldIndexer) :=
  indexer ← on_schema (Schema_get_indexer fieldname);
  match indexer with
  | Some i => mret (Some i)
  | None =>
      p ← getM;
      f ← liftM (FieldConfigPatterns_get w (patterns (proc_schema p)) fieldname (doc_type (proc_schema p)));
      on_schema (modifyM (Schema_set fieldname f)) ;;
      modifyM (λ p, mkProc (proc_schema p) (proc_state p) true) ;;
      on_schema (Schema_get_indexer fieldname)
  end.

Definition process_member (m : string * json) : processM () :=
  let '(fieldname, v) := m in
  if decide (fieldname = meta_field collconfig)
  then on_state (append_error fieldname "Value provided in metadata field - should be empty")
  else
    indexer ← find_indexer fieldname;
    match indexer with
    | None => mret ()
    | Some i =>
        if isNull v then on_state (field_empty fieldname)
        else on_state (FieldIndexer_index w collconfig i fieldname (if isArray v then v else JArr [v]))
    end.

Definition process_meta : processM () :=
  if decide (meta_field collconfig = "") then mret ()
  else
    indexer ← find_indexer (meta_field collconfig);
    match indexer with
    | None => mret ()
    | Some i => on_state (FieldIndexer_index w collconfig i (meta_field collconfig) JNull)
    end.

(** The data and the values are put into the document. *)
Definition finish_doc : M (IndexingState document) document := λ s,
  let s := upd_doc (set_data (DocumentData_serialise (docdata s))) s in
  let '(d, r) := DocumentValues_apply assertions (docvals s) (doc s) in
  (upd_doc (λ _, d) s, _ ← r; Ok d).

Definition process_members (value : json) : processM document :=
  for_each (json_members value) process_member ;;
  process_meta ;;
  on_state finish_doc.

Definition Schema_process (value : json) : M (Schema * refs) document := λ '(s, r),
  match json_check_object value "input document" with
  | Ok _ =>
      let '(p, d) := process_members value (mkProc s (new_IndexingState (ref_errors r)) (ref_new_fields r)) in
      (proc_schema p, mkRefs (idterm (proc_state p)) (state_errors (proc_state p)) (new_fields p), d)
  | Throw e => (s, r, Throw e)
  | OutOfFuel => (s, r, OutOfFuel)
  end.

End with_config.

(** ** [CollectionConfig::process_doc] *)

(** What a member that is not null holds: one value (with its error), none or several. *)
Inductive single := One (val error : string) | Zero | Many.

Definition single_value (v : json) : res single :=
  if isArray v then
    match json_elems v with
    | [] => Ok Zero
    | [x] => '(val, error) ← json_get_idstyle_value styled x; Ok (One val error)
    | _ => Ok Many
    end
  else '(val, error) ← json_get_idstyle_value styled v; Ok (One val error).

(** The field and the message of a failure, or what was found. *)
Abbreviation outcome := ((string * string) + string)%type.

(** No value in the URL: it has to be in the document. *)
Definition from_document (field none empty_list many : string) : M json outcome :=
  obj ← json_index_insert field;
  if isNull obj then mret (inl (field, none))
  else
    v ← liftM (single_value obj);
    mret match v with
         | Zero => inl (field, empty_list)
         | Many => inl (field, many)
         | One val error => if decide (error = "") then inr val else inl (field, error)
         end.

(** A value in the URL: the document may hold the same one, and is given it if it holds
    null. *)
Definition from_url (field supplied many : string) (differs : string → string) : M json outcome :=
  obj ← json_index_insert field;
  if isNull obj then
    modifyM (λ v, json_set v field (JArr [jstr supplied])) ;; mret (inr supplied)
  else
    v ← liftM (single_value obj);
    mret match v with
         | Many => inl (field, many)
         | Zero => inr supplied
         | One stored error =>
             if negb (bool_decide (error = "")) then inl (field, error)
             else if negb (bool_decide (stored = "")) && negb (bool_decide (supplied = stored))
             then inl (field, differs stored) else inr supplied
         end.

Definition type_stage (collconfig : CollectionConfig) (doc_type : string) : M json outcome :=
  if decide (doc_type = "")
  then from_document (type_field collconfig) "No document type supplied or stored in document."
         "No document type stored in document." "Multiple document types stored in document."
  else from_url (type_field collconfig) doc_type "Multiple document types stored in document."
         (λ _, "Document type supplied differs from that inside document.").

Definition id_stage (collconfig : CollectionConfig) (doc_id : string) : M json outcome :=
  let multiple := "Multiple ID values provided - must have only one" in
  r ← (if decide (doc_id = "")
       then from_document (id_field collconfig) "No document ID supplied or stored in document."
              "No document ID stored in document." multiple
       else from_url (id_field collconfig) doc_id multiple (λ stored,
              "Document id supplied ('" +:+ doc_id +:+ "') differs from that inside document ('" +:+ stored +:+ "')."));
  mret match r with
       | inl e => inl e
       | inr id =>
           let error := validate_doc_id id in
           if decide (error = "") then inr id else inl (id_field collconfig, error)
       end.

Record doc_state := mkDocState {
  ds_config : CollectionConfig;
  ds_obj : json;
  ds_refs : refs;
}.

Definition on_obj {A} (op : M json A) : M doc_state A := λ s,
  let '(v, r) := op (ds_obj s) in (mkDocState (ds_config s) v (ds_refs s), r).
Definition on_cfg {A} (op : M CollectionConfig A) : M doc_state A := λ s,
  let '(c, r) := op (ds_config s) in (mkDocState c (ds_obj s) (ds_refs s), r).

(** [errors.append(...)], [errors.total_failure = true], [return doc] (still empty). *)
Definition fail_doc (e : string * string) : M doc_state document :=
  modifyM (λ s, let r := ds_refs s in
    mkDocState (ds_config s) (ds_obj s)
      (mkRefs (ref_idterm r) (fail_totally e.1 e.2 (ref_errors r)) (ref_new_fields r))) ;;
  mret new_document.

(** The schema of the type, made of the default configuration if there is none. *)
Definition ensure_schema (type : string) : M CollectionConfig () :=
  c ← getM;
  match get_schema type c with
  | Some _ => mret ()
  | None =>
      let '(newschema, r) := Schema_from_json w (default_type_config c) (new_Schema type) in
      liftM r ;;
      set_schema w json_serialise type newschema ;;
      mret ()
  end.

(** [schema->process(doc_obj, *this, ...)] on the schema of the type, in its place. *)
Definition process_with (type : string) : M doc_state document := λ s,
  match get_schema type (ds_config s) with
  | None => (s, throw UndefinedBehaviour)
  | Some schema =>
      let '((schema', r'), d) := Schema_process (ds_config s) (ds_obj s) (schema, ds_refs s) in
      let c := ds_config s in
      (mkDocState (set_types (<[type := Some schema']> (types c)) (changed c) c) (ds_obj s) r', d)
  end.

Definition process_doc (doc_type doc_id : string) : M doc_state document :=
  s ← getM;
  liftM (json_check_object (ds_obj s) "input document") ;;
  let collconfig := ds_config s in
  t ← on_obj (type_stage collconfig doc_type);
  match t with
  | inl e => fail_doc e
  | inr type =>
      i ← on_obj (id_stage collconfig doc_id);
      match i with
      | inl e => fail_doc e
      | inr _ =>
          let error := validate_doc_type type in
          if decide (error = "") then on_cfg (ensure_schema type) ;; process_with type
          else fail_doc (type_field collconfig, error)
      end
  end.

(** ** Displaying stored fields *)

Context {database : Type} `{!Xapian document database}.
Context (json_unserialise : string → res json).

Definition Schema_get_fieldlist (s : Schema) (search : json) : res json :=
  result ← json_index search "display";
  if isNull result
  then Ok (foldl (λ result name, json_append result (jstr name)) (JArr []) (sorted_keys (fields s)))
  else json_check_array result "list of fields to display" ;; Ok result.

(** [display_doc(doc, fieldlist, result)]. *)
Definition display_item (docdata : DocumentData) (result : json) (item : json) : res json :=
  if negb (isString item) then throw (InvalidValueError "Item in display field list was not a string")
  else
    fieldname ← asString item;
    let val := DocumentData_get fieldname docdata in
    if decide (val = "") then Ok result
    else v ← json_unserialise val; Ok (json_set result fieldname v).

Definition Schema_display_doc (d : document) (fieldlist : json) : res json :=
  json_check_array fieldlist "display field list" ;;
  let '(docdata, r) := DocumentData_unserialise (payload d).1 ∅ in
  r ;;
  foldl (λ result item, result ← result; display_item docdata result item) (Ok (JObj [])) (json_elems fieldlist).

(** [display_doc(doc, result)]: all stored fields. *)
Definition Schema_display_all (s : Schema) (d : document) : res json :=
  Schema_display_doc d
    (foldl (λ fieldlist '(_, f),
       let stored_field := FieldConfig_stored_field f in
       if decide (stored_field = "") then fieldlist else json_append fieldlist (jstr stored_field))
       (JArr []) (sorted_items (fields s))).

End process.
