(* ===== verification/Termination.v ===== *)
(** * Processing a document always ends

    The loops of the indexing code are bounded: here it is shown, from the primitives
    upwards, that no step of turning a JSON document into a Xapian one runs out of fuel,
    so that [CollectionConfig::process_doc] returns or throws for every document, schema
    and configuration. *)

From S2P Require Import Prelude Json TextUtils Taxonomy DocData DocValues Hashing Schema CollConfig Indexing XapianDb RefLib ProcessDoc.

(** ** Computations that end *)

(** A result that was computed: a value or an exception. *)
Definition finishes {A} (r : res A) : Prop := r ≠ OutOfFuel.
Definition ends {S A} (m : M S A) : Prop := ∀ s, finishes (m s).2.

Lemma finishes_ok {A} (a : A) : finishes (Ok a).
Proof. done. Qed.
Lemma finishes_throw {A} e : finishes (Throw e : res A).
Proof. done. Qed.
Lemma finishes_bind {A B} (r : res A) (f : A → res B) : finishes r → (∀ a, finishes (f a)) → finishes (r ≫= f).
Proof. intros Hr Hf. by destruct r; [apply Hf|..]. Qed.

Lemma finishes_fmap {A B} (f : A → B) (r : res A) : finishes r → finishes (f <$> r).
Proof. by destruct r. Qed.

(** Loops that carry a result along. *)
Lemma finishes_foldl {A B} (f : res B → A → res B) l r :
  finishes r → (∀ r x, finishes r → finishes (f r x)) → finishes (foldl f r l).
Proof. intros Hr Hf. revert r Hr. induction l as [|x l IH]; intros r Hr; cbn; auto. Qed.

Lemma ends_ret {S A} (a : A) : ends (mret a : M S A).
Proof. done. Qed.
Lemma ends_lift {S A} (r : res A) : finishes r → ends (liftM r : M S A).
Proof. by intros H s. Qed.
Lemma ends_get {S} : ends (getM : M S S).
Proof. done. Qed.
Lemma ends_modify {S} (f : S → S) : ends (modifyM f).
Proof. done. Qed.
Lemma ends_throw {S A} e : ends (throwM e : M S A).
Proof. done. Qed.

Lemma ends_bind {S A B} (m : M S A) (f : A → M S B) : ends m → (∀ a, ends (f a)) → ends (m ≫= f).
Proof.
  intros Hm Hf s. specialize (Hm s). unfold mbind, M_bind. destruct (m s) as [s' [a|e|]]; [|done..]. apply Hf.
Qed.

Lemma ends_for_each {S A} (l : list A) (f : A → M S ()) : (∀ x, ends (f x)) → ends (for_each l f).
Proof. intros Hf. induction l as [|x l IH]; cbn; [done|]. by apply ends_bind. Qed.

(** An operation on a part of the state. *)
Lemma ends_run {S T A} (op : M S A) (get : T → S) (put : T → S → T) :
  ends op → ends (λ t, let '(s, r) := op (get t) in (put t s, r)).
Proof. intros H t. specialize (H (get t)). by destruct (op (get t)). Qed.

Create HintDb ends.
#[export] Hint Resolve finishes_ok finishes_throw ends_ret ends_get ends_modify ends_throw : ends.

Ltac ends :=
  repeat first
    [ by eauto 2 with ends
    | lazymatch goal with
      | |- ∀ _, _ => intros
      | |- finishes (_ ≫= _) => apply finishes_bind
      | |- finishes (foldl _ _ _) => apply finishes_foldl
      | |- finishes (_ ;; _) => apply finishes_bind
      | |- ends (liftM _) => apply ends_lift
      | |- ends (_ ≫= _) => apply ends_bind
      | |- ends (for_each _ _) => apply ends_for_each
      | |- finishes (let '(_, _) := ?x in _) => destruct x
      | |- finishes (match ?x with _ => _ end) => destruct x
      | |- finishes (_ <$> ?x) => apply finishes_fmap
      | |- ends (let '(_, _) := ?x in _) => destruct x
      | |- ends (match ?x with _ => _ end) => destruct x
      end ].

(** ** JSON accessors *)

Lemma json_member_ends v key : finishes (json_member v key).
Proof. unfold json_member. ends. Qed.
#[export] Hint Resolve json_member_ends : ends.
Lemma json_get_ends v key def : finishes (json_get v key def).
Proof. unfold json_get. ends. Qed.
#[export] Hint Resolve json_get_ends : ends.
Lemma asString_ends v : finishes (asString v).
Proof. unfold asString. ends. Qed.
Lemma asDouble_ends v : finishes (asDouble v).
Proof. unfold asDouble. ends. Qed.
Lemma asUInt_ends v : finishes (asUInt v).
Proof. unfold asUInt. ends. Qed.
Lemma asUInt64_ends v : finishes (asUInt64 v).
Proof. unfold asUInt64. ends. Qed.
#[export] Hint Resolve asString_ends asDouble_ends asUInt_ends asUInt64_ends : ends.

Lemma check_object_ends v what : finishes (json_check_object v what).
Proof. unfold json_check_object. ends. Qed.
Lemma check_array_ends v what : finishes (json_check_array v what).
Proof. unfold json_check_array. ends. Qed.
Lemma check_string_ends v what : finishes (json_check_string v what).
Proof. unfold json_check_string. ends. Qed.
#[export] Hint Resolve check_object_ends check_array_ends check_string_ends : ends.

Lemma index_insert_ends key : ends (json_index_insert key).
Proof. intros v. unfold json_index_insert. pose proof (json_member_ends v key). by destruct (json_member v key) as [[]| |]. Qed.
Lemma json_index_ends v key : finishes (json_index v key).
Proof. apply json_get_ends. Qed.
#[export] Hint Resolve json_index_ends : ends.
Lemma uint64_member_def_ends v key max def : finishes (json_get_uint64_member_def v key max def).
Proof. unfold json_get_uint64_member_def, check_uint64_member. ends. Qed.
Lemma uint64_member_ends v key max : finishes (json_get_uint64_member v key max).
Proof. unfold json_get_uint64_member, check_uint64_member. ends. Qed.
Lemma string_member_ends v key def : finishes (json_get_string_member v key def).
Proof. unfold json_get_string_member. ends. Qed.
Lemma get_bool_ends v key def : finishes (json_get_bool v key def).
Proof. unfold json_get_bool, json_check_bool. ends. Qed.
Lemma idstyle_ends styled v : finishes (json_get_idstyle_value styled v).
Proof. unfold json_get_idstyle_value. ends. Qed.
Lemma lonlat_ends v : finishes (json_get_lonlat v).
Proof. unfold json_get_lonlat. ends. Qed.
#[export] Hint Resolve index_insert_ends uint64_member_def_ends uint64_member_ends string_member_ends get_bool_ends
  idstyle_ends lonlat_ends : ends.

(** ** Hashes and slot names *)

Lemma hash_string_loop_ends k : ∀ h j r, (h < 2 ^ (6 * N.of_nat k))%N → finishes (hash_string_loop k h j r).
Proof.
  induction k as [|k IH]; intros h j r Hh; cbn [hash_string_loop].
  - destruct (N.eqb_spec h 0); [done|]. cbn in Hh. lia.
  - destruct (N.eqb_spec h 0); [done|]. destruct (str_set _ _ _); [|done]. apply IH.
    rewrite N.shiftr_div_pow2. apply N.Div0.div_lt_upper_bound. rewrite <-N.pow_add_r. eapply N.lt_le_trans; [exact Hh|]. apply N.pow_le_mono_r; lia.
Qed.

Lemma hash_long_term_ends w term n : finishes (hash_long_term w term n).
Proof.
  unfold hash_long_term, hash_string. ends. apply hash_string_loop_ends. eapply N.le_lt_trans; [apply land_le|done].
Qed.

Lemma SlotName_ends w v : finishes (SlotName_of_json w v).
Proof. unfold SlotName_of_json. ends. Qed.
#[export] Hint Resolve hash_long_term_ends SlotName_ends : ends.

(** ** Schemas *)

Section schemas.
Context (w : N) (write : json → string).

Lemma json_slot_ends v : finishes (json_slot w v).
Proof. unfold json_slot. ends. Qed.
Lemma group_prefix_ends v : finishes (json_group_prefix v).
Proof. unfold json_group_prefix, json_name_member. ends. Qed.
Lemma name_member_ends v key : finishes (json_name_member v key).
Proof. unfold json_name_member. ends. Qed.
Lemma store_field_ends v : finishes (json_store_field v).
Proof. unfold json_store_field. ends. Qed.
Lemma too_long_ends s : finishes (TooLongAction_of_string s).
Proof. unfold TooLongAction_of_string. ends. Qed.
#[local] Hint Resolve json_slot_ends group_prefix_ends name_member_ends store_field_ends too_long_ends : ends.

Lemma max_len_ends v : finishes (MaxLenFieldConfig_new w v).
Proof. unfold MaxLenFieldConfig_new. ends. Qed.
#[local] Hint Resolve max_len_ends : ends.

Lemma field_from_json_ends v dt : finishes (FieldConfig_from_json w v dt).
Proof.
  unfold FieldConfig_from_json, MetaFieldConfig_new, IDFieldConfig_new, ExactFieldConfig_new, TextFieldConfig_new,
    DoubleFieldConfig_new, TimestampFieldConfig_new, DateFieldConfig_new, LonLatFieldConfig_new, SlotFieldConfig_new,
    CategoryFieldConfig_new, StoredFieldConfig_new.
  ends.
Qed.

Lemma field_to_json_ends f v : finishes (FieldConfig_to_json f v).
Proof. unfold_to_json. unfold MaxLenFieldConfig_to_json. ends. Qed.
#[local] Hint Resolve field_from_json_ends field_to_json_ends : ends.

Lemma pattern_test_ends p name dt : finishes (FieldConfigPattern_test w p name dt).
Proof. unfold FieldConfigPattern_test. ends. Qed.
#[local] Hint Resolve pattern_test_ends : ends.
Lemma patterns_get_ends ps name dt : finishes (FieldConfigPatterns_get w ps name dt).
Proof. induction ps as [|p ps IH]; cbn [FieldConfigPatterns_get]; ends. Qed.

Lemma on_patterns_ends op : ends op → ends (on_patterns op).
Proof. apply (ends_run op patterns (λ s l, mkSchema (doc_type s) (fields s) (indexers s) l)). Qed.

Lemma pattern_from_json_ends v : ends (FieldConfigPattern_from_json v).
Proof. unfold FieldConfigPattern_from_json. ends. Qed.
#[local] Hint Resolve pattern_from_json_ends : ends.

Lemma Schema_from_json_ends v : ends (Schema_from_json w v).
Proof.
  unfold Schema_from_json. ends. apply on_patterns_ends. unfold FieldConfigPatterns_from_json. ends.
  apply (ends_run _ (λ _, new_FieldConfigPattern) (λ l p, l ++ [p])). auto with ends.
Qed.

Lemma Schema_merge_from_ends s : ends (Schema_merge_from w write s).
Proof. unfold Schema_merge_from, merge_field. ends. Qed.
End schemas.
#[export] Hint Resolve patterns_get_ends Schema_from_json_ends Schema_merge_from_ends : ends.

(** ** Indexing *)

(** What is relied on of the library: serialising coordinates returns or throws. *)
Definition coords_finish (document : Type) `{!IndexLib document} : Prop :=
  ∀ lat lon, finishes (serialise_coord (document := document) lat lon).

Section indexing.
Context {document : Type} `{!DocStore document} `{!IndexLib document}.
Context (w : N) (assertions : bool) (Hcoords : coords_finish document).

Lemma field_empty_ends name : ends (S := IndexingState document) (field_empty name).
Proof. done. Qed.
Lemma field_nonempty_ends name : ends (S := IndexingState document) (field_nonempty name).
Proof. done. Qed.
Lemma append_error_ends name e : ends (S := IndexingState document) (append_error name e).
Proof. done. Qed.
Lemma store_values_ends f v : ends (S := IndexingState document) (store_values f v).
Proof. unfold store_values. ends. Qed.
Lemma add_value_if_ends slot v : ends (S := IndexingState document) (add_value_if slot v).
Proof. unfold add_value_if. ends. Qed.
#[local] Hint Resolve field_empty_ends field_nonempty_ends append_error_ends store_values_ends add_value_if_ends : ends.

Lemma set_idterm_ends f t : ends (S := IndexingState document) (set_idterm f t).
Proof. unfold set_idterm. ends. Qed.
Lemma shorten_ends f n a v : ends (S := IndexingState document) (shorten w f n a v).
Proof. unfold shorten. ends. Qed.
#[local] Hint Resolve set_idterm_ends shorten_ends : ends.

Lemma exact_values_ends (f : json → M (IndexingState document) bool) vs : (∀ v, ends (f v)) → ends (exact_values f vs).
Proof. intros Hf. induction vs as [|v vs IH]; cbn [exact_values]; ends. Qed.

Lemma exact_value_ends prefix wdf n a isid slot lower name v :
  ends (S := IndexingState document) (exact_value w prefix wdf n a isid slot lower name v).
Proof. unfold exact_value. ends. Qed.

Lemma text_value_ends slot name (index : string → M (IndexingState document) ()) v :
  (∀ t, ends (index t)) → ends (text_value slot name index v).
Proof. intros Hi. unfold text_value. ends. Qed.

Lemma floor_ends d : finishes (floor_to_int d).
Proof. unfold floor_to_int. ends. Qed.
#[local] Hint Resolve floor_ends exact_value_ends : ends.
Lemma parse_date_ends v : finishes (parse_date (document := document) v).
Proof. unfold parse_date. ends. Qed.
#[local] Hint Resolve parse_date_ends : ends.

Lemma FieldIndexer_index_ends c i name vs : ends (S := IndexingState document) (FieldIndexer_index w c i name vs).
Proof.
  destruct i; cbn [FieldIndexer_index].
  - unfold MetaIndexer_index, meta_field_entries, add_entry_if, add_entry. ends.
  - unfold ExactStringIndexer_index. ends. apply exact_values_ends. ends.
  - unfold StoredIndexer_index, stored_value. ends.
  - unfold DoubleIndexer_index, number_value. ends.
  - unfold TimeStampIndexer_index, number_value. ends.
  - unfold DateIndexer_index, date_value. ends.
  - unfold CategoryIndexer_index, category_value. ends.
  - unfold LonLatIndexer_index, lonlat_value. ends.
  - unfold TermGeneratorIndexer_index, stemmed_text. ends. apply text_value_ends. ends.
  - unfold CJKIndexer_index, cjk_text. ends. apply text_value_ends. ends.
Qed.
#[local] Hint Resolve FieldIndexer_index_ends : ends.

(** ** Processing *)

Lemma on_schema_ends {A} (op : M Schema A) : ends op → ends (on_schema (document := document) op).
Proof. apply (ends_run op proc_schema (λ p s, mkProc s (proc_state p) (new_fields p))). Qed.
Lemma on_state_ends {A} (op : M (IndexingState document) A) : ends op → ends (on_state op).
Proof. apply (ends_run op proc_state (λ p s, mkProc (proc_schema p) s (new_fields p))). Qed.
Lemma get_indexer_ends name : ends (Schema_get_indexer name).
Proof. intros s. unfold Schema_get_indexer. by destruct (indexers s !! name), (fields s !! name). Qed.
#[local] Hint Resolve on_schema_ends on_state_ends get_indexer_ends : ends.

Lemma find_indexer_ends name : ends (find_indexer (document := document) w name).
Proof. unfold find_indexer. ends. Qed.
#[local] Hint Resolve find_indexer_ends : ends.

Lemma finish_doc_ends : ends (finish_doc (document := document) assertions).
Proof.
  intros s. unfold finish_doc.
  assert (H : ends (DocumentValues_apply (Doc := document) assertions (docvals s))).
  { unfold DocumentValues_apply, DocumentValue_serialise, Geo_serialise. ends. }
  set (s1 := upd_doc _ s). specialize (H (doc s1)). fold (docvals s1) in H.
  change (docvals s) with (docvals s1) in H. destruct (DocumentValues_apply _ _ _) as [d [[]|e|]]; done.
Qed.
#[local] Hint Resolve finish_doc_ends : ends.

Lemma Schema_process_ends c v : ends (Schema_process (document := document) w assertions c v).
Proof.
  intros [s r]. unfold Schema_process. unfold json_check_object. destruct (isObject v); [|done].
  assert (H : ends (process_members (document := document) w assertions c v)).
  { unfold process_members, process_member, process_meta. ends. }
  set (p := mkProc _ _ _). specialize (H p). by destruct (process_members _ _ _ _ p).
Qed.

Lemma on_obj_ends {A} (op : M json A) : ends op → ends (on_obj op).
Proof. apply (ends_run op ds_obj (λ s v, mkDocState (ds_config s) v (ds_refs s))). Qed.
Lemma on_cfg_ends {A} (op : M CollectionConfig A) : ends op → ends (on_cfg op).
Proof. apply (ends_run op ds_config (λ s c, mkDocState c (ds_obj s) (ds_refs s))). Qed.

Lemma set_schema_ends t s : ends (set_schema w (json_serialise (document := document)) t s).
Proof.
  intros c. unfold set_schema. destruct (match types c !! t with None => _ | Some s => s end) as [s'|]; [|done].
  pose proof (Schema_merge_from_ends w (json_serialise (document := document)) s s') as H. by destruct (Schema_merge_from _ _ _ _) as [s2 [[]|e|]].
Qed.
#[local] Hint Resolve on_obj_ends on_cfg_ends set_schema_ends : ends.

Lemma single_value_ends v : finishes (single_value (document := document) v).
Proof. unfold single_value. ends. Qed.
#[local] Hint Resolve single_value_ends : ends.

Lemma from_document_ends f a b c : ends (from_document (document := document) f a b c).
Proof. unfold from_document. ends. Qed.
Lemma from_url_ends f a b c : ends (from_url (document := document) f a b c).
Proof. unfold from_url. ends. Qed.
#[local] Hint Resolve from_document_ends from_url_ends : ends.
Lemma type_stage_ends c t : ends (type_stage (document := document) c t).
Proof. unfold type_stage. ends. Qed.
Lemma id_stage_ends c i : ends (id_stage (document := document) c i).
Proof. unfold id_stage. ends. Qed.
Lemma ensure_schema_ends t : ends (ensure_schema (document := document) w t).
Proof.
  unfold ensure_schema. apply ends_bind; [ends|]. intros c. destruct (get_schema t c); [ends|].
  pose proof (Schema_from_json_ends w (default_type_config c) (new_Schema t)) as H.
  destruct (Schema_from_json w (default_type_config c) (new_Schema t)). ends.
Qed.
Lemma process_with_ends t : ends (process_with (document := document) w assertions t).
Proof.
  intros s. unfold process_with. destruct (get_schema t (ds_config s)) as [schema|]; [|done].
  pose proof (Schema_process_ends (ds_config s) (ds_obj s) (schema, ds_refs s)) as H.
  by destruct (Schema_process _ _ _ _ _) as [[? ?] ?].
Qed.
Lemma fail_doc_ends e : ends (fail_doc (document := document) e).
Proof. done. Qed.
#[local] Hint Resolve type_stage_ends id_stage_ends ensure_schema_ends process_with_ends fail_doc_ends : ends.

Lemma process_doc_ends_ok t i : ends (process_doc (document := document) w assertions t i).
Proof. unfold process_doc. ends. Qed.

End indexing.

(** ** Property *)

(** [process_doc] ends for every document, type and identifier, on every configuration:
    it returns a document or throws, the hashing loop being the only one the input does
    not bound. *)
Theorem process_doc_ends document (store : DocStore document) (lib : IndexLib document) w assertions doc_type doc_id s
    (Hcoords : coords_finish document) :
  (process_doc (document := document) w assertions doc_type doc_id s).2 ≠ OutOfFuel.
Proof. apply (process_doc_ends_ok w assertions Hcoords). Qed.

Definition no_config : doc_state :=
  mkDocState (mkConfig "c" ∅ ∅ ∅ "id" "type" "_meta" JNull ∅ false) (JObj [("id", JStr "1")]) (mkRefs "" new_IndexingErrors false).

Lemma process_doc_ends_witness : coords_finish refdoc ∧
  (process_doc (document := refdoc) 64 false "t" "" no_config).2 ≠ OutOfFuel.
Proof.
  assert (H : coords_finish refdoc) by (intros lat lon; cbn; ends).
  exact (conj H (process_doc_ends refdoc _ _ 64 false "t" "" no_config H)).
Defined.
