(* ===== verification/SendToPipe.v ===== *)
(** * Sending a document to a pipe

    [CollectionConfig::send_to_pipe] of src/jsonxapian/collconfig.cc: the mappings of a
    pipe are applied to the document, and what they give is sent to the target of the
    pipe, until a document reaches the empty name, where it is processed and its update
    handed to the indexing queue.  The recursion follows the targets, so that it ends
    exactly when they do; the hand-off ([TaskManager::queue_indexing_from_processing] of
    src/server/task_manager.cc) waits while the indexing queue is full. *)

From S2P Require Import Prelude TaskQueue Json JsonPath Mapping MappingThms Pipe NGram NGramThms Schema CollConfig Indexing DocValues XapianDb RefLib ProcessDoc Termination.

(** ** What the recursion needs *)

Lemma append_field_ends o k x : finishes (append_field o k x).
Proof.
  unfold append_field. pose proof (index_insert_ends k o) as Hi. by destruct (json_index_insert k o) as [o' [j|e|]].
Qed.

Lemma apply_target_ends cat v out i : (∀ a b, finishes (cat a b)) → finishes (apply_target cat v out i).
Proof.
  intros Hc. pose proof append_field_ends. unfold apply_target, category_text. ends.
Qed.

Lemma map_value_ends cat v : (∀ a b, finishes (cat a b)) → ∀ node out, finishes (map_value cat node v out).
Proof.
  intros Hc.
  assert (Ht : ∀ node v out, finishes (map_targets cat node v out)).
  { intros node v' out. unfold map_targets, apply_targets. ends. by apply apply_target_ends. }
  induction v as [v Hv|v Hv IH] using items_ind; intros node out.
  - by rewrite map_value_leaf.
  - rewrite map_value_container by done. ends. clear Hv. revert IH j. generalize (level_items v). intros l.
    induction l as [|[c x] l IHl]; intros Hf o; cbn [map_items]; [done|]. inversion_clear Hf. ends.
Qed.
Lemma Mapping_apply_ends cat m v : (∀ a b, finishes (cat a b)) → finishes (Mapping_apply cat m v).
Proof.
  intros Hc. rewrite mapping_apply_recursive_ok. unfold Conditional_test. ends.
  generalize (JObj []). induction (json_members v) as [|[k x] l IH]; intros out; cbn [map_members]; [done|].
  pose proof (map_value_ends cat x Hc) as Hx. pose proof append_field_ends. ends.
Qed.

Lemma categorise_ends `{!UnicodeLib} c name text : finishes (CollConfig.categorise c name text).
Proof.
  unfold CollConfig.categorise, get_categoriser. ends. by destruct (categorise_text_total_ok a text) as [labels ->].
Qed.

Section send.
Context {document : Type} `{!DocStore document} `{!IndexLib document} `{!UnicodeLib}.
Context (w : N) (assertions : bool).

(** What the indexing queue answers to the pushes of the thread, one after another; the
    queue itself, with the other threads, is in [TaskManager]. *)
Context (answer : nat → QueueState).

(** The configuration, the updates that the indexing queue took (the term of the
    identifier and the document), the pushes made to it, whether they left the processing
    queue inactive, and the reference [new_fields]. *)
Record pipe_state := mkPipeState {
  ps_config : CollectionConfig;
  ps_queued : list (string * document);
  ps_pushes : nat;
  ps_inactive : bool;
  ps_new_fields : bool;
}.

(** [indexing_queues.push(queue, taskptr->clone(), false)]. *)
Definition push_update (u : string * document) : M pipe_state QueueState := λ s,
  let state := answer (ps_pushes s) in
  let queued := match state with HAS_SPACE | LOW_SPACE => [u] | FULL | CLOSED => [] end in
  (mkPipeState (ps_config s) (ps_queued s ++ queued) (S (ps_pushes s)) (ps_inactive s) (ps_new_fields s), Ok state).

Definition set_processing_inactive : M pipe_state () := modifyM (λ s,
  mkPipeState (ps_config s) (ps_queued s) (ps_pushes s) true (ps_new_fields s)).

(** [while (true)]; the fuel is the number of rounds, between which the thread waits to be
    woken.  An update that finds the queue closed is dropped. *)
Fixpoint queue_update (rounds : nat) (u : string * document) : M pipe_state () :=
  match rounds with
  | O => liftM OutOfFuel
  | S rounds =>
      state ← push_update u;
      match state with
      | HAS_SPACE => mret ()
      | LOW_SPACE => set_processing_inactive
      | FULL => set_processing_inactive ;; queue_update rounds u
      | CLOSED => mret ()
      end
  end.

(** [process_doc] with the references of the caller. *)
Definition process_output (obj : json) : M pipe_state (string * document * list (string * string)) := λ s,
  let '(d, r) := process_doc w assertions "default" "" (mkDocState (ps_config s) obj (mkRefs "" new_IndexingErrors (ps_new_fields s))) in
  (mkPipeState (ds_config d) (ps_queued s) (ps_pushes s) (ps_inactive s) (ref_new_fields (ds_refs d)),
   xdoc ← r; Ok (ref_idterm (ds_refs d), xdoc, errors (ref_errors (ds_refs d)))).

(** The empty name: the document is indexed as one of type "default". *)
Definition send_to_index (rounds : nat) (obj : json) : M pipe_state () :=
  '(idterm, xdoc, errors) ← process_output obj;
  match errors with
  | (field, error) :: _ => throwM (InvalidValueError (field +:+ ": " +:+ error))
  | [] => queue_update rounds (idterm, xdoc)
  end.

(** The loop over the mappings of a pipe. *)
Fixpoint send_mappings (send : json → M pipe_state ()) (apply_all : bool) (obj : json) (l : list Mapping) : M pipe_state () :=
  match l with
  | [] => mret ()
  | m :: l =>
      s ← getM;
      '(applied, output) ← liftM (Mapping_apply (categorise (ps_config s)) m obj);
      if negb applied then send_mappings send apply_all obj l
      else send output ;; if negb apply_all then mret () else send_mappings send apply_all obj l
  end.

(** The fuel is the depth of the recursion; each hand-off has so many rounds. *)
Fixpoint send_to_pipe (rounds fuel : nat) (pipe_name : string) (obj : json) : M pipe_state () :=
  match fuel with
  | O => liftM OutOfFuel
  | S fuel =>
      if decide (pipe_name = "") then send_to_index rounds obj
      else
        s ← getM;
        pipe ← liftM (get_pipe pipe_name (ps_config s));
        send_mappings (send_to_pipe rounds fuel (target pipe)) (apply_all pipe) obj (pipe_mappings pipe)
  end.

(** ** Following the targets *)

(** The targets from a pipe lead to the empty name or to no pipe in so many steps. *)
Inductive leads_out (m : gmap string Pipe) : string → nat → Prop :=
| leads_empty : leads_out m "" 0
| leads_nowhere name : name ≠ "" → m !! name = None → leads_out m name 0
| leads_on name p k : name ≠ "" → m !! name = Some p → leads_out m (target p) k → leads_out m name (S k).

Lemma leads_out_unique m name j k : leads_out m name j → leads_out m name k → j = k.
Proof.
  intros Hj. revert k. induction Hj; intros k' Hk; inversion Hk; simplify_eq; try done. f_equal. auto.
Qed.

(** The names on the way are different pipes. *)
Lemma leads_out_names m name k : leads_out m name k →
  ∃ l : list string, length l = k ∧ NoDup l ∧ ∀ n, n ∈ l → n ∈ dom m ∧ ∃ j, j ≤ k ∧ j ≠ 0 ∧ leads_out m n j.
Proof.
  induction 1 as [| |name p k Hne Hp Hk0 (l & Hlen & Hnd & Hl)]; [exists []; split_and!; [done|constructor|set_solver]..|].
  exists (name :: l). split_and!; [by cbn; rewrite Hlen| |].
  - constructor; [|done]. intros Hin. destruct (Hl _ Hin) as (_ & j & Hj & _ & Hj').
    assert (Hk : leads_out m name (S k)) by (by econstructor). pose proof (leads_out_unique _ _ _ _ Hk Hj'). lia.
  - intros n [->|Hin]%elem_of_cons.
    + split; [by eapply elem_of_dom_2|]. exists (S k). split_and!; [lia|done|by econstructor].
    + destruct (Hl _ Hin) as (Hd & j & Hj & Hz & Hj'). split; [done|]. exists j. split_and!; [lia|done..].
Qed.

Lemma leads_out_bound m name k : leads_out m name k → k ≤ size m.
Proof.
  intros (l & <- & Hnd & Hl)%leads_out_names. rewrite <-(size_list_to_set (C := gset string) l), <-size_dom by done.
  apply subseteq_size. intros n Hn%elem_of_list_to_set. by apply Hl.
Qed.

(** Processing changes the types of a configuration only. *)
Lemma set_schema_pipes t s c : pipes (set_schema w (json_serialise (document := document)) t s c).1 = pipes c.
Proof.
  unfold set_schema. destruct (match types c !! t with None => _ | Some s => s end); [|done].
  by destruct (Schema_merge_from _ _ _ _) as [? []].
Qed.

Lemma ensure_schema_pipes t (ps : gmap string Pipe) :
  maintains (λ c, pipes c = ps) (ensure_schema (document := document) w t) (λ _, True).
Proof.
  unfold ensure_schema. eapply maintains_bind_any; [by eapply maintains_mono; [apply maintains_get|]|]. intros c.
  destruct (get_schema t c); [by apply maintains_ret|]. destruct (Schema_from_json w _ _).
  maintain ltac:(intros c' <-; split; [apply set_schema_pipes|done]).
Qed.

Lemma process_doc_pipes t i s :
  pipes (ds_config (process_doc (document := document) w assertions t i s).1) = pipes (ds_config s).
Proof.
  apply (maintains_run (λ d : doc_state, pipes (ds_config d) = pipes (ds_config s)) _ (λ _, True)); [|done].
  assert (Hobj : ∀ A (op : M json A), maintains (λ d : doc_state, pipes (ds_config d) = pipes (ds_config s)) (on_obj op) (λ _, True)).
  { intros A op d Hd. unfold on_obj. by destruct (op (ds_obj d)). }
  assert (Hfail : ∀ e, maintains (λ d : doc_state, pipes (ds_config d) = pipes (ds_config s)) (fail_doc (document := document) e) (λ _, True))
    by (intros e d Hd; by split).
  assert (Hens : ∀ t, maintains (λ d : doc_state, pipes (ds_config d) = pipes (ds_config s)) (on_cfg (ensure_schema (document := document) w t)) (λ _, True)).
  { intros t' d Hd. unfold on_cfg. pose proof (maintains_run _ _ _ _ (ensure_schema_pipes t' _) Hd) as Hp. by destruct (ensure_schema w t' (ds_config d)). }
  assert (Hproc : ∀ t, maintains (λ d : doc_state, pipes (ds_config d) = pipes (ds_config s)) (process_with (document := document) w assertions t) (λ _, True)).
  { intros t' d Hd. unfold process_with. destruct (get_schema _ _); [|done]. by destruct (Schema_process _ _ _ _ _) as [[] ?]. }
  unfold process_doc. maintain ltac:(first [apply Hobj | apply Hfail | apply Hens | apply Hproc]).
Qed.

(** *** Sending keeps the pipes and ends where the targets do *)

Definition keeps_pipes {A} (m : M pipe_state A) : Prop :=
  ∀ s, pipes (ps_config (m s).1) = pipes (ps_config s).

Lemma queue_update_pipes rounds u : keeps_pipes (queue_update rounds u).
Proof.
  induction rounds as [|rounds IH]; intros s; [done|]. cbn [queue_update]. unfold mbind, M_bind, push_update.
  destruct (answer (ps_pushes s)); [done|done| |done]. unfold set_processing_inactive, modifyM. by rewrite IH.
Qed.

Lemma process_output_pipes obj : keeps_pipes (process_output obj).
Proof.
  intros s. unfold process_output. set (d0 := mkDocState _ _ _). pose proof (process_doc_pipes "default" "" d0) as Hp.
  by destruct (process_doc w assertions "default" "" d0) as [d r].
Qed.

Lemma send_to_index_pipes rounds obj : keeps_pipes (send_to_index rounds obj).
Proof.
  intros s. unfold send_to_index, mbind, M_bind. pose proof (process_output_pipes obj s) as Hp.
  destruct (process_output obj s) as [s1 [[[idterm xdoc] errors]|e|]]; cbn in *; [|done..].
  destruct errors as [|[]]; [|done]. by rewrite queue_update_pipes.
Qed.

Lemma send_mappings_pipes send all obj l : (∀ o, keeps_pipes (send o)) → keeps_pipes (send_mappings send all obj l).
Proof.
  intros Hs. induction l as [|m l IH]; intros s; [done|]. cbn [send_mappings].
  unfold mbind, M_bind, getM, liftM. destruct (Mapping_apply _ m obj) as [[applied output]|e|]; [|done..].
  destruct applied; cbn [negb]; [|apply IH]. pose proof (Hs output s) as Ho.
  destruct (send output s) as [s1 [[]|e|]]; cbn in *; [|done..]. destruct all; cbn; [by rewrite IH|done].
Qed.

Lemma send_to_pipe_pipes rounds fuel : ∀ name obj, keeps_pipes (send_to_pipe rounds fuel name obj).
Proof.
  induction fuel as [|fuel IH]; intros name obj s; [done|]. cbn [send_to_pipe]. case_decide; [apply send_to_index_pipes|].
  unfold mbind, M_bind, getM, liftM. destruct (get_pipe name (ps_config s)) as [p|e|]; [|done..].
  apply send_mappings_pipes. auto.
Qed.

(** With enough rounds, the same outcome for any more of them, and not for want of them. *)
Definition settles {A} (m : nat → M pipe_state A) (s : pipe_state) : Prop :=
  ∃ enough s' r, r ≠ OutOfFuel ∧ ∀ rounds, enough ≤ rounds → m rounds s = (s', r).

Lemma settles_const {A} (m : M pipe_state A) s : finishes (m s).2 → settles (λ _, m) s.
Proof. intros Hm. exists 0, (m s).1, (m s).2. split; [by destruct (m s).2|]. intros ? _. by destruct (m s). Qed.

Lemma settles_bind {A B} (m : nat → M pipe_state A) (f : nat → A → M pipe_state B) s :
  settles m s → (∀ rounds a s', m rounds s = (s', Ok a) → settles (λ rounds, f rounds a) s') → settles (λ rounds, m rounds ≫= f rounds) s.
Proof.
  intros (n1 & s1 & r1 & Hr1 & H1) Hf. destruct r1 as [a|e|]; [| |done].
  - destruct (Hf n1 a s1 (H1 n1 ltac:(lia))) as (n2 & s2 & r2 & Hr2 & H2). exists (n1 `max` n2), s2, r2. split; [done|].
    intros rounds Hn. unfold mbind, M_bind. rewrite H1 by lia. apply H2. lia.
  - exists n1, s1, (Throw e). split; [done|]. intros rounds Hn. unfold mbind, M_bind. by rewrite H1 by lia.
Qed.

Section ending.
Context (Hcoords : coords_finish document) (Hreturns : ∀ n, ∃ k, answer (n + k) ≠ FULL).

(** A hand-off ends with the first push that does not find the queue full. *)
Lemma queue_update_settles u k : ∀ s, answer (ps_pushes s + k) ≠ FULL → settles (λ rounds, queue_update rounds u) s.
Proof using.
  clear. induction k as [k IH] using lt_wf_ind. intros s Hk.
  assert (Hnow : answer (ps_pushes s) ≠ FULL → settles (λ rounds, queue_update rounds u) s).
  { intros Hn. exists 1, (queue_update 1 u s).1, (queue_update 1 u s).2. cbn [queue_update]. unfold mbind, M_bind, push_update.
    destruct (answer (ps_pushes s)) eqn:E; try done; (split; [done|]); intros [|rounds] Hr; try lia; cbn [queue_update];
      unfold mbind, M_bind, push_update; by rewrite E. }
  assert (Hc : answer (ps_pushes s) = FULL ∨ answer (ps_pushes s) ≠ FULL) by (destruct (answer (ps_pushes s)); auto).
  destruct Hc as [Hf|Hf]; [|by apply Hnow].
  destruct k as [|k]; [by rewrite Nat.add_0_r in Hk|].
  destruct (push_update u s) as [s1 r] eqn:E. unfold push_update in E. rewrite Hf in E. injection E as E <-.
  destruct (IH k ltac:(lia) (set_processing_inactive s1).1) as (n & s' & r & Hr & H).
  { rewrite <-E. cbn. by rewrite Nat.add_succ_r in Hk. }
  exists (S n), s', r. split; [done|]. intros [|rounds] Hn; [lia|]. cbn [queue_update]. unfold mbind, M_bind, push_update. rewrite Hf, E.
  unfold set_processing_inactive at 1, modifyM. apply H. lia.
Qed.

Lemma send_to_index_settles obj s : settles (λ rounds, send_to_index rounds obj) s.
Proof using Hcoords Hreturns.
  apply (settles_bind (λ _, process_output obj)).
  - apply settles_const. unfold process_output. set (d0 := mkDocState _ _ _).
    pose proof (process_doc_ends_ok w assertions Hcoords "default" "" d0) as Hp.
    by destruct (process_doc w assertions "default" "" d0) as [d [x|e|]].
  - intros _ [[idterm xdoc] errors] s1 _. destruct errors as [|[field error]]; [|by apply settles_const].
    destruct (Hreturns (ps_pushes s1)) as [k Hk]. by eapply queue_update_settles.
Qed.

Lemma send_mappings_settles ps send all obj l :
  (∀ rounds o, keeps_pipes (send rounds o)) → (∀ o s, pipes (ps_config s) = ps → settles (λ rounds, send rounds o) s) →
  ∀ s, pipes (ps_config s) = ps → settles (λ rounds, send_mappings (send rounds) all obj l) s.
Proof using.
  clear. intros Hk Hs. induction l as [|m l IH]; intros s Hps; [by apply settles_const|]. cbn [send_mappings].
  apply (settles_bind (λ _, getM)); [by apply settles_const|]. intros _ c s1 [= <- <-].
  apply (settles_bind (λ _, liftM _)).
  { apply settles_const. apply (Mapping_apply_ends (CollConfig.categorise (ps_config s)) m obj (categorise_ends (ps_config s))). }
  intros _ [applied output] s1 E. unfold liftM in E. injection E as <- _.
  destruct applied; cbn [negb]; [|by apply IH].
  apply (settles_bind (λ rounds, send rounds output)); [by apply Hs|]. intros rounds [] s1 E.
  destruct all; cbn [negb]; [|by apply settles_const]. apply IH. pose proof (Hk rounds output s) as Hp. rewrite E in Hp. cbn in Hp. congruence.
Qed.

Lemma send_to_pipe_settles ps name k : leads_out ps name k →
  ∀ fuel obj s, k < fuel → pipes (ps_config s) = ps → settles (λ rounds, send_to_pipe rounds fuel name obj) s.
Proof using Hcoords Hreturns.
  induction 1 as [|name Hne Hn|name p k Hne Hp Hk IH]; intros [|fuel] obj s Hf Hps; try lia; cbn [send_to_pipe].
  - destruct (decide _) as [_|?]; [|done]. apply send_to_index_settles.
  - destruct (decide (name = "")) as [?|_]; [done|]. apply (settles_bind (λ _, getM)); [by apply settles_const|]. intros _ c s1 [= <- <-].
    apply (settles_bind (λ _, liftM _)); [apply settles_const; unfold liftM, get_pipe; by rewrite Hps, Hn|].
    intros _ p' s1 E. unfold liftM, get_pipe in E. by rewrite Hps, Hn in E.
  - destruct (decide (name = "")) as [?|_]; [done|]. apply (settles_bind (λ _, getM)); [by apply settles_const|]. intros _ c s1 [= <- <-].
    apply (settles_bind (λ _, liftM _)); [apply settles_const; unfold liftM, get_pipe; by rewrite Hps, Hp|].
    intros _ p' s1 E. unfold liftM, get_pipe in E. rewrite Hps, Hp in E. injection E as <- <-.
    apply (send_mappings_settles ps (λ rounds, send_to_pipe rounds fuel (target p))); [intros; apply send_to_pipe_pipes| |done].
    intros. apply IH; [lia|done].
Qed.
End ending.

(** *** A pipe that sends to itself *)

Lemma new_Mapping_keeps cat o : ∃ o', Mapping_apply cat new_Mapping (JObj o) = Ok (true, JObj o').
Proof.
  rewrite mapping_apply_recursive_ok. cbn [json_check_object isObject mbind res_bind when new_Mapping negb json_members].
  enough (Hm : ∀ l out, ∃ out', map_members cat new_Mapping l (JObj out) = Ok (JObj out')).
  { destruct (Hm o []) as [o' ->]. by exists o'. }
  intros l. induction l as [|[k x] l IH]; intros out; [by exists out|]. cbn [map_members].
  assert (Hx : ∀ x node, node = None → ∀ out, map_value cat node x out = Ok (false, out)).
  { clear. intros x. induction x as [v Hv|v Hv IH] using items_ind; intros node -> out; [by rewrite map_value_leaf|].
    rewrite map_value_container by done. cbn [map_targets mbind res_bind].
    enough (Hi : ∀ l out, Forall (λ x, ∀ node, node = None → ∀ out, map_value cat node x.2 out = Ok (false, out)) l →
      map_items cat None l out = Ok (false, out)) by (by rewrite Hi).
    clear. intros l. induction l as [|[c x] l IH]; intros out Hf; [done|]. inversion_clear Hf as [|? ? Hx Hl].
    cbn [map_items]. rewrite (Hx _ eq_refl). cbn [mbind res_bind]. by rewrite IH. }
  rewrite Hx by done. cbn [mbind res_bind default_action new_Mapping].
  assert (Ha : ∃ out', append_field (JObj out) k x = Ok (JObj out')).
  { unfold append_field, json_index_insert. cbn [json_member]. destruct (obj_find (c_str k) out); cbn; eauto. }
  destruct Ha as [out' ->]. apply IH.
Qed.

Lemma self_pipe_loops rounds fuel : ∀ name all o s, name ≠ "" → pipes (ps_config s) !! name = Some (mkPipe [new_Mapping] all name) →
  (send_to_pipe rounds fuel name (JObj o) s).2 = OutOfFuel.
Proof.
  induction fuel as [|fuel IH]; intros name all o s Hne Hp; [done|]. cbn [send_to_pipe]. rewrite decide_False by done.
  unfold mbind, M_bind, getM, liftM, get_pipe. rewrite Hp. cbn [pipe_mappings target apply_all send_mappings].
  unfold mbind, M_bind, getM, liftM. destruct (new_Mapping_keeps (CollConfig.categorise (ps_config s)) o) as [o' ->]. cbn [negb].
  specialize (IH name all o' s Hne Hp). by destruct (send_to_pipe rounds fuel name (JObj o') s) as [s1 [[]|e|]].
Qed.

End send.

(** ** Properties *)

(** C34: sending a document to a pipe ends, with a result or an exception, whenever the
    targets from that pipe lead to the empty name (or to a pipe that does not exist) and
    each hand-off to the indexing queue returns, that is, no push is followed by nothing but
    pushes that find the queue full: there is an outcome that so many rounds of waiting, or
    more, come to, with calls at most one deeper than there are pipes.  The queue is emptied
    only while threads take from it: [TaskManagerThms.shutdown_strands_waiters] is a state
    in which a hand-off does not return. *)
Theorem send_to_pipe_ends document (store : DocStore document) (lib : IndexLib document) (unicode : UnicodeLib) w assertions
    answer pipe_name obj s k (Hcoords : coords_finish document) (Hreturns : ∀ n, ∃ k, answer (n + k) ≠ FULL)
    (Hout : leads_out (pipes (ps_config s)) pipe_name k) :
  ∃ enough s' r, r ≠ OutOfFuel ∧ ∀ rounds, enough ≤ rounds →
    send_to_pipe (document := document) w assertions answer rounds (S (size (pipes (ps_config s)))) pipe_name obj s = (s', r).
Proof.
  apply (send_to_pipe_settles w assertions answer Hcoords Hreturns _ _ _ Hout); [|done]. pose proof (leads_out_bound _ _ _ Hout). lia.
Qed.

(** Without that, a document that is processed without errors is never handed on. *)
Theorem full_queue_waits document (store : DocStore document) (lib : IndexLib document) (unicode : UnicodeLib) w assertions
    rounds obj (s s' : pipe_state (document := document)) idterm xdoc :
  process_output w assertions obj s = (s', Ok (idterm, xdoc, [])) →
  (send_to_index w assertions (λ _, FULL) rounds obj s).2 = OutOfFuel.
Proof.
  intros H. unfold send_to_index, mbind at 1, M_bind at 1. rewrite H. clear H. revert s'. induction rounds as [|rounds IH]; intros s'; [done|].
  cbn [queue_update]. unfold mbind, M_bind. cbn. apply IH.
Qed.

(** A pipe with a mapping of everything, and one that goes on to it. *)
Definition two_pipes : CollectionConfig :=
  set_pipe "first" (mkPipe [new_Mapping] false "second")
    (set_pipe "second" (mkPipe [] false "") (mkConfig "c" ∅ ∅ ∅ "id" "type" "_meta" JNull ∅ false)).

Definition ascii_lib : UnicodeLib := {|
  utf8_decode s := ord <$> bytes s; append_utf8 c := sing (chr c); is_wordchar c := (97 <=? c)%N;
  unicode_tolower c := c; is_decimal_digit _ := false |}.

(** The queue is full twice, then it has space. *)
Definition full_twice (n : nat) : QueueState := if decide (n < 2) then FULL else HAS_SPACE.

Lemma send_to_pipe_ends_witness : coords_finish refdoc ∧ leads_out (pipes two_pipes) "first" 2 ∧
  ∃ enough s' r, r ≠ OutOfFuel ∧ ∀ rounds, enough ≤ rounds →
    send_to_pipe (document := refdoc) (H := ascii_lib) 64 false full_twice rounds (S (size (pipes two_pipes))) "first" (JObj [])
      (mkPipeState two_pipes [] 0 false false) = (s', r).
Proof.
  assert (Hc : coords_finish refdoc) by (intros lat lon; cbn; ends).
  assert (Hl : leads_out (pipes two_pipes) "first" 2).
  { eapply leads_on; [done|reflexivity|]. eapply leads_on; [done|reflexivity|]. apply leads_empty. }
  assert (Hr : ∀ n, ∃ k, full_twice (n + k) ≠ FULL) by (intros n; exists 2; unfold full_twice; rewrite decide_False; [done|lia]).
  exact (conj Hc (conj Hl (send_to_pipe_ends refdoc _ _ ascii_lib 64 false full_twice "first" (JObj []) (mkPipeState two_pipes [] 0 false false) 2 Hc Hr Hl))).
Defined.

(** A pipe that is its own target never ends: with a mapping that keeps everything, no
    depth of the recursion is enough for any document (the code overflows its stack, as
    the comment of the method says). *)
Theorem self_pipe_diverges document (store : DocStore document) (lib : IndexLib document) (unicode : UnicodeLib) w assertions
    answer rounds fuel pipe_name all o s (Hne : pipe_name ≠ "")
    (Hself : pipes (ps_config s) !! pipe_name = Some (mkPipe [new_Mapping] all pipe_name)) :
  (send_to_pipe (document := document) w assertions answer rounds fuel pipe_name (JObj o) s).2 = OutOfFuel.
Proof. by eapply self_pipe_loops. Qed.

Lemma self_pipe_diverges_witness :
  (send_to_pipe (document := refdoc) (H := ascii_lib) 64 false full_twice 9 1000 "again" (JObj [])
    (mkPipeState (set_pipe "again" (mkPipe [new_Mapping] false "again") two_pipes) [] 0 false false)).2 = OutOfFuel.
Proof. apply (self_pipe_diverges refdoc _ _ ascii_lib 64 false full_twice 9 1000 "again" false []); [done|reflexivity]. Defined.
