(* ===== verification/ConfigThms.v ===== *)
(** * Configurations survive their JSON form

    A collection configuration is stored, sent to clients and cloned through its JSON form
    ([CollectionConfig::to_json], [from_json] and [clone] of
    src/jsonxapian/collconfig.cc); here the round trips of its parts are put together. *)

From S2P Require Import Prelude Json TextUtils JsonPath Mapping MappingJson Pipe NGram NGramThms Taxonomy TaxonomyClosure TaxonomyFacts TaxonomyThms Hashing DocValues Schema SchemaThms CollConfig.

(** ** Maps as objects *)

Definition written {A} (f : A → res json) (x : A) : json := match f x with Ok j => j | _ => JNull end.

Lemma map_to_json_eq {A} (f : A → res json) (m : gmap string A) :
  (∀ n x, m !! n = Some x → clean n ∧ ∃ j, f x = Ok j) →
  map_to_json f m = Ok (JObj (prod_map id (written f) <$> sorted_items m)).
Proof.
  intros Hm. unfold map_to_json.
  assert (H : ∀ l v, (∀ n x, (n, x) ∈ l → ∃ j, f x = Ok j) →
    foldl (λ obj '(n, x), obj ← obj; v ← f x; Ok (json_set obj n v)) (Ok v) l = Ok (foldl (λ v '(n, x), json_set v n (written f x)) v l)).
  { induction l as [|[n x] l IH]; intros v Hl; cbn; [done|]. destruct (Hl n x) as [j Hj]; [by left|].
    unfold written at 2. rewrite Hj. cbn. apply IH. set_solver. }
  rewrite H by (intros n x Hx%elem_of_sorted_items; by eapply Hm).
  rewrite (json_set_members (written f)); [done| |]; rewrite sorted_items_fst; [|apply sorted_keys_strict].
  apply Forall_forall. intros n [x Hx]%elem_of_sorted_keys. by eapply Hm.
Qed.

(** Reading the members one by one, each of which updates the state. *)
Lemma for_each_members {A S} (g : A → json) (body : string * json → M S ()) (upd : string → A → S → S) l s :
  (∀ n x s, (n, x) ∈ l → body (n, g x) s = (upd n x s, Ok ())) →
  for_each (prod_map id g <$> l) body s = (foldl (λ s '(n, x), upd n x s) s l, Ok ()).
Proof.
  revert s. induction l as [|[n x] l IH]; intros s Hl; [done|]. cbn [fmap list_fmap for_each foldl prod_map fst snd id].
  rewrite (bind_ok _ _ s (upd n x s) ()) by (apply Hl; by left). apply IH. intros; apply Hl; by right.
Qed.

(** ** Well-formed configurations *)

(** A schema without its cache of indexers, which is how one is read. *)
Definition uncached (s : Schema) : Schema := mkSchema (doc_type s) (fields s) ∅ (patterns s).

Definition uncached_entry (o : option Schema) : option Schema := uncached <$> o.

Record config_ok (w : N) (c : CollectionConfig) : Prop := {
  ok_collname : validate_collname_throw (coll_name c) = Ok ();
  ok_types : ∀ name o, types c !! name = Some o → clean name ∧
    ∃ s, o = Some s ∧ doc_type s = name ∧ schema_ok w 240 s ∧ ∀ f, is_Some (fields s !! f) → clean f;
  ok_pipes : ∀ name p, pipes c !! name = Some p → clean name ∧ pipe_ok p;
  ok_categorisers : ∀ name cat, categorisers c !! name = Some cat → clean name ∧ categoriser_ok cat;
  ok_special : clean (id_field c) ∧ clean (type_field c) ∧ clean (meta_field c);
  ok_default : default_type_config c = JNull ∨ (Schema_from_json w (default_type_config c) (new_Schema "")).2 = Ok ();
  ok_taxonomies : ∀ name t, taxonomies c !! name = Some t → clean name ∧ wf t ∧ names_c t;
}.

(** ** Types *)

Section types.
Context (w : N) (json_serialise : json → string).

(** Merging a schema into an empty one copies it. *)
Lemma merge_new s : schema_ok w 240 s → (∀ f, is_Some (fields s !! f) → clean f) →
  Schema_merge_from w json_serialise s (new_Schema (doc_type s)) = (uncached s, Ok ()).
Proof.
  intros Hs Hn. unfold Schema_merge_from.
  assert (H : ∀ l s0, doc_type s0 = doc_type s → NoDup l.*1 → (∀ n f, (n, f) ∈ l → fields s0 !! n = None ∧ field_ok w 240 (doc_type s) f) →
    for_each l (λ '(name, f), merge_field w json_serialise name f) s0 = (set_fields (foldl (λ m '(k, v), <[k := v]> m) (fields s0) l) s0, Ok ())).
  { induction l as [|[n f] l IH]; intros s0 Hdt Hnd Hl; cbn [for_each foldl]; [by destruct s0|].
    destruct (Hl n f) as [Hnone Hf]; [by left|]. inversion_clear Hnd as [|? ? Hn1 Hnd1].
    destruct (field_config_roundtrip w f (doc_type s) JNull Hf ltac:(by left)) as (j & H1 & H2).
    rewrite (bind_ok _ _ _ (Schema_set n (Some f) s0) ()).
    - rewrite IH; [by destruct s0|done|done|]. intros n' f' Hin. destruct (Hl n' f') as [Hnone' Hf']; [by right|]. split; [|done].
      cbn. rewrite lookup_insert_ne; [done|]. intros <-. apply Hn1, list_elem_of_fmap. by exists (n, f').
    - unfold merge_field, mbind, M_bind, getM, liftM. rewrite H1, Hnone, Hdt. by rewrite H2. }
  rewrite (bind_ok _ _ _ (set_fields (fields s) (new_Schema (doc_type s))) ()).
  - unfold on_patterns, modifyM, uncached, set_fields. cbn. by destruct (patterns s).
  - rewrite H; [cbn; by rewrite foldl_insert_sorted_items|done|apply sorted_items_nodup|].
    intros n f Hf%elem_of_sorted_items. split; [done|]. by eapply (ok_fields w 240).
Qed.

(** The JSON form of the schema of a type. *)
Definition type_json (o : option Schema) : res json :=
  match o with None => throw UndefinedBehaviour | Some s => Schema_to_json s end.

Definition set_type (name : string) (o : option Schema) (c : CollectionConfig) : CollectionConfig :=
  set_types (<[name := uncached_entry o]> (types c)) true c.

Lemma types_read l c : NoDup l.*1 →
  (∀ n o, (n, o) ∈ l → types c !! n = None ∧
    ∃ s, o = Some s ∧ doc_type s = n ∧ schema_ok w 240 s ∧ ∀ f, is_Some (fields s !! f) → clean f) →
  for_each (prod_map id (written type_json) <$> l) (λ '(name, i),
      let '(schema, r) := Schema_from_json w i (new_Schema name) in
      liftM r ;; set_schema w json_serialise name schema ;; mret ()) c
  = (foldl (λ c '(n, o), set_type n o c) c l, Ok ()).
Proof.
  revert c. induction l as [|[n o] l IH]; intros c Hnd Hl; [done|]. cbn [fmap list_fmap for_each foldl prod_map fst snd id].
  inversion_clear Hnd as [|? ? Hn1 Hnd1]. destruct (Hl n o) as (Hnone & s & -> & Hdt & Hs & Hf); [by left|].
  destruct (schema_json_roundtrip_ok w s (new_Schema n) Hs Hf (eq_sym Hdt)) as (j & H1 & H2).
  rewrite (bind_ok _ _ c (set_type n (Some s) c) ()).
  - apply IH; [done|]. intros n' o' Hin. destruct (Hl n' o') as [Hnone' Ho']; [by right|]. split; [|done].
    cbn. rewrite lookup_insert_ne; [done|]. intros <-. apply Hn1, list_elem_of_fmap. by exists (n, o').
  - unfold written at 1, type_json. rewrite H1, H2. unfold mbind, M_bind, liftM, set_schema. rewrite Hnone, <-Hdt.
    pose proof (merge_new (uncached s)) as Hm. cbn [doc_type uncached] in Hm. fold (uncached s).
    rewrite Hm; [done| |exact Hf]. split; [apply Hs| |apply Hs]. cbn. by intros ? ?; rewrite lookup_empty.
Qed.
End types.

(** ** The other maps *)

(** How a categoriser is read back: the profiles may be in another order. *)
Definition reread (cat : Categoriser) : Categoriser := (Categoriser_from_json (written Categoriser_to_json cat) new_Categoriser).1.

(** The same limits, and the same labels for every profile. *)
Definition same_categoriser (cat cat' : Categoriser) : Prop :=
  profiles cat' ≡ₚ profiles cat ∧
  (max_ngram_length cat', cat_max_ngrams cat') = (max_ngram_length cat, cat_max_ngrams cat) ∧
  ∀ profile, categorise_profile cat' profile = categorise_profile cat profile.

Lemma reread_ok cat : categoriser_ok cat → same_categoriser cat (reread cat) ∧
  (∃ j, Categoriser_to_json cat = Ok j) ∧
  Categoriser_from_json (written Categoriser_to_json cat) new_Categoriser = (reread cat, Ok ()).
Proof.
  intros Hc. destruct (categoriser_json_same_ok cat Hc) as (j & c' & H1 & H2 & H3 & H4 & H5).
  unfold reread, written. rewrite H1, H2. split_and!; [by split_and!|eauto|done].
Qed.

(** Where the loops that read the maps leave the configuration. *)
Lemma set_types_read l c : ∃ ch, foldl (λ c '(n, o), set_type n o c) c l =
  set_types (foldl (λ m '(k, v), <[k := v]> m) (types c) (prod_map id uncached_entry <$> l)) ch c.
Proof.
  revert c. induction l as [|[n o] l IH]; intros c; [exists (changed c); by destruct c|].
  cbn [foldl]. destruct (IH (set_type n o c)) as [ch ->]. by exists ch.
Qed.
Lemma set_pipes_read l c : ∃ ch, foldl (λ c '(n, p), set_pipe n p c) c l =
  set_pipes (foldl (λ m '(k, v), <[k := v]> m) (pipes c) l) ch c.
Proof.
  revert c. induction l as [|[n p] l IH]; intros c; [exists (changed c); by destruct c|].
  cbn [foldl]. destruct (IH (set_pipe n p c)) as [ch ->]. by exists ch.
Qed.
Lemma set_categorisers_read l c : ∃ ch, foldl (λ c '(n, x), set_categoriser n (reread x) c) c l =
  set_categorisers (foldl (λ m '(k, v), <[k := v]> m) (categorisers c) (prod_map id reread <$> l)) ch c.
Proof.
  revert c. induction l as [|[n x] l IH]; intros c; [exists (changed c); by destruct c|].
  cbn [foldl]. destruct (IH (set_categoriser n (reread x) c)) as [ch ->]. by exists ch.
Qed.
Lemma set_taxonomies_read l c : ∃ ch, foldl (λ c '(n, t), set_taxonomy n t c) c l =
  set_taxonomies (foldl (λ m '(k, v), <[k := v]> m) (taxonomies c) l) ch c.
Proof.
  revert c. induction l as [|[n t] l IH]; intros c; [exists (changed c); by destruct c|].
  cbn [foldl]. destruct (IH (set_taxonomy n t c)) as [ch ->]. by exists ch.
Qed.

(** The items of a map with each entry changed. *)
Lemma foldl_insert_fmap {A B} (f : A → B) (m : gmap string A) :
  foldl (λ m '(k, v), <[k := v]> m) ∅ (prod_map id f <$> sorted_items m) = f <$> m.
Proof.
  assert (H : ∀ (l : list (string * A)) (m0 : gmap string A),
    foldl (λ m '(k, v), <[k := v]> m) (f <$> m0) (prod_map id f <$> l) = f <$> foldl (λ m '(k, v), <[k := v]> m) m0 l).
  { intros l. induction l as [|[k v] l IH]; intros m0; [done|]. cbn. by rewrite <-IH, fmap_insert. }
  rewrite <-(fmap_empty f), H. by rewrite foldl_insert_sorted_items.
Qed.

(** ** The whole configuration *)

Definition or_null {A} (m : gmap string A) (v : json) : json := if decide (m = ∅) then JNull else v.

Definition special_json (c : CollectionConfig) : json :=
  json_set (json_set (json_set JNull "id_field" (jstr (id_field c))) "type_field" (jstr (type_field c))) "meta_field" (jstr (meta_field c)).

Definition members_json {A} (f : A → json) (m : gmap string A) : json := JObj (prod_map id f <$> sorted_items m).

(** What the reader finds in the JSON form. *)
Record config_json (c : CollectionConfig) (j : json) : Prop := {
  cj_object : isObject j = true;
  cj_format : json_get_uint64_member j "format" (Z.to_N maxInt) = Ok 3%N;
  cj_types : json_index j "types" = Ok (members_json (written type_json) (types c));
  cj_default : json_index j "default_type" = Ok (default_type_config c);
  cj_special : json_index j "special_fields" = Ok (special_json c);
  cj_pipes : json_index j "pipes" = Ok (or_null (pipes c) (members_json (written Pipe_to_json) (pipes c)));
  cj_categorisers : json_index j "categorisers" =
    Ok (or_null (categorisers c) (members_json (written Categoriser_to_json) (categorisers c)));
  cj_taxonomies : json_index j "taxonomies" = Ok (or_null (taxonomies c) (members_json Taxonomy_to_json (taxonomies c)));
}.

Lemma types_obj_eq (m : gmap string (option Schema)) :
  foldl (λ types_obj '(name, s),
      types_obj ← types_obj;
      match s with
      | None => throw UndefinedBehaviour
      | Some s => type_obj ← Schema_to_json s; Ok (json_set types_obj name type_obj)
      end) (Ok (JObj [])) (sorted_items m) = map_to_json type_json m.
Proof.
  unfold map_to_json. generalize (Ok (JObj [])). induction (sorted_items m) as [|[n o] l IH]; intros r; [done|].
  cbn [foldl]. rewrite IH. f_equal. by destruct r, o.
Qed.

Lemma taxonomies_obj_eq (m : gmap string taxonomy) : (∀ n, is_Some (m !! n) → clean n) →
  foldl (λ v '(n, t), json_set v n (Taxonomy_to_json t)) (JObj []) (sorted_items m) = members_json Taxonomy_to_json m.
Proof.
  intros Hm. rewrite (json_set_members Taxonomy_to_json); [done| |]; rewrite sorted_items_fst; [|apply sorted_keys_strict].
  apply Forall_forall. intros n Hn%elem_of_sorted_keys. by apply Hm.
Qed.

Section whole.
Context (w : N) (json_serialise : json → string).

Lemma type_json_ok c name o : config_ok w c → types c !! name = Some o → ∃ j, type_json o = Ok j.
Proof.
  intros Hc Ho. destruct (ok_types w c Hc name o Ho) as (_ & s & -> & Hd & Hs & Hf).
  destruct (schema_json_roundtrip_ok w s (new_Schema name) Hs Hf (eq_sym Hd)) as (j & Hj & _). by exists j.
Qed.

Lemma config_written c : config_ok w c → ∃ j, CollectionConfig_to_json c = Ok j ∧ config_json c j.
Proof.
  intros Hc.
  assert (Ht : map_to_json type_json (types c) = Ok (members_json (written type_json) (types c))).
  { apply map_to_json_eq. intros n o Ho. split; [by eapply ok_types|by eapply type_json_ok]. }
  assert (Hp : map_to_json Pipe_to_json (pipes c) = Ok (members_json (written Pipe_to_json) (pipes c))).
  { apply map_to_json_eq. intros n p H. destruct (ok_pipes w c Hc n p H) as [Hn Hok].
    destruct (pipe_json_roundtrip p p Hok) as (j & Hj & _). eauto. }
  assert (Hk : map_to_json Categoriser_to_json (categorisers c) = Ok (members_json (written Categoriser_to_json) (categorisers c))).
  { apply map_to_json_eq. intros n x H. destruct (ok_categorisers w c Hc n x H) as [Hn Hok].
    destruct (reread_ok x Hok) as (_ & Hj & _). eauto. }
  unfold CollectionConfig_to_json, schemas_config_to_json. rewrite types_obj_eq, Ht. cbn [mbind res_bind].
  unfold pipes_config_to_json, categorisers_config_to_json, categories_config_to_json. rewrite Hp, Hk. cbn [mbind res_bind].
  rewrite taxonomies_obj_eq by (intros n [t Hn]; by destruct (ok_taxonomies w c Hc n t Hn)).
  unfold or_null.
  destruct (decide (pipes c = ∅)) as [E1|E1], (decide (categorisers c = ∅)) as [E2|E2], (decide (taxonomies c = ∅)) as [E3|E3];
    cbn [mbind res_bind]; (eexists; split; [reflexivity|]); split; unfold or_null; rewrite ?decide_True, ?decide_False by done; reflexivity.
Qed.
(** *** Reading, stage by stage *)

Definition empty_config (c : CollectionConfig) : Prop :=
  types c = ∅ ∧ pipes c = ∅ ∧ categorisers c = ∅ ∧ taxonomies c = ∅.

Lemma types_stage c j c0 : config_ok w c → config_json c j → types c0 = ∅ →
  ∃ ch, types_from_json w json_serialise (members_json (written type_json) (types c)) c0
    = (set_types (uncached_entry <$> types c) ch c0, Ok ()).
Proof.
  intros Hc Hj H0. unfold types_from_json. rewrite (bind_ok _ _ c0 c0 ()) by done. unfold members_json. cbn [json_members].
  rewrite types_read.
  - destruct (set_types_read (sorted_items (types c)) c0) as [ch ->]. exists ch. by rewrite H0, foldl_insert_fmap.
  - apply sorted_items_nodup.
  - intros n o Ho%elem_of_sorted_items. rewrite H0. split; [done|]. by destruct (ok_types w c Hc n o Ho).
Qed.

Lemma special_stage c c0 : config_ok w c →
  special_fields_from_json (special_json c) c0 = (set_special (id_field c) (type_field c) (meta_field c) c0, Ok ()).
Proof.
  intros Hc. destruct (ok_special w c Hc) as (Hi & Ht & Hm). unfold special_fields_from_json, special_json.
  rewrite !clean_jstr by done. by destruct c0.
Qed.

Lemma schemas_stage c j c0 : config_ok w c → config_json c j → types c0 = ∅ → default_type_config c0 = JNull →
  ∃ ch, schemas_config_from_json w json_serialise j c0 =
    (set_special (id_field c) (type_field c) (meta_field c)
      (set_default_type (default_type_config c) (set_types (uncached_entry <$> types c) ch c0)), Ok ()).
Proof.
  intros Hc Hj H0 Hd0. destruct (types_stage c j c0 Hc Hj H0) as [ch Ht]. exists ch.
  unfold schemas_config_from_json.
  rewrite (bind_ok _ _ c0 c0 (members_json (written type_json) (types c))) by (unfold liftM; by rewrite (cj_types c j Hj)).
  cbn [members_json isNull]. fold (members_json (written type_json) (types c)). rewrite (bind_ok _ _ _ _ () Ht).
  set (c1 := set_types _ _ _). rewrite (bind_ok _ _ c1 c1 (default_type_config c)) by (unfold liftM; by rewrite (cj_default c j Hj)).
  rewrite (bind_ok _ _ c1 (set_default_type (default_type_config c) c1) ()).
  - set (c2 := set_default_type _ _). rewrite (bind_ok _ _ c2 c2 (special_json c)) by (unfold liftM; by rewrite (cj_special c j Hj)).
    by rewrite <-special_stage.
  - destruct (ok_default w c Hc) as [->|Hd].
    + cbn [isNull]. unfold mret, M_ret. f_equal. subst c1. destruct c0. cbn in *. by subst.
    + destruct (isNull (default_type_config c)) eqn:En.
      { destruct (default_type_config c); try done. unfold mret, M_ret. f_equal. subst c1. destruct c0. cbn in *. by subst. }
      unfold default_type_from_json. by rewrite (bind_ok _ _ c1 c1 ()) by (unfold liftM; by rewrite Hd).
Qed.

Lemma or_null_cases {A} (m : gmap string A) (f : A → json) :
  (m = ∅ ∧ or_null m (members_json f m) = JNull) ∨ or_null m (members_json f m) = members_json f m.
Proof. unfold or_null. case_decide; [left|right]; done. Qed.

Lemma pipes_stage c j c0 : config_ok w c → config_json c j → pipes c0 = ∅ →
  ∃ ch, pipes_config_from_json j c0 = (set_pipes (pipes c) ch c0, Ok ()).
Proof.
  intros Hc Hj H0. unfold pipes_config_from_json.
  rewrite (bind_ok _ _ c0 c0 _) by (unfold liftM; by rewrite (cj_pipes c j Hj)).
  destruct (or_null_cases (pipes c) (written Pipe_to_json)) as [[He ->]| ->].
  - exists (changed c0). rewrite He, <-H0. by destruct c0.
  - unfold members_json. cbn [isNull]. rewrite (bind_ok _ _ c0 c0 ()) by done. cbn [json_members].
    rewrite (for_each_members _ _ set_pipe).
    + destruct (set_pipes_read (sorted_items (pipes c)) c0) as [ch ->]. exists ch. by rewrite H0, foldl_insert_sorted_items.
    + intros n p s Hp%elem_of_sorted_items. destruct (ok_pipes w c Hc n p Hp) as [_ Hok].
      destruct (pipe_json_roundtrip p new_Pipe Hok) as (v & Hv & Hr). unfold written. by rewrite Hv, Hr.
Qed.

Lemma categorisers_stage c j c0 : config_ok w c → config_json c j → categorisers c0 = ∅ →
  ∃ ch, categorisers_config_from_json j c0 = (set_categorisers (reread <$> categorisers c) ch c0, Ok ()).
Proof.
  intros Hc Hj H0. unfold categorisers_config_from_json.
  rewrite (bind_ok _ _ c0 c0 _) by (unfold liftM; by rewrite (cj_categorisers c j Hj)).
  destruct (or_null_cases (categorisers c) (written Categoriser_to_json)) as [[He ->]| ->].
  - exists (changed c0). rewrite He, fmap_empty, <-H0. by destruct c0.
  - unfold members_json. cbn [isNull]. rewrite (bind_ok _ _ c0 c0 ()) by done. cbn [json_members].
    rewrite (for_each_members _ _ (λ n x, set_categoriser n (reread x))).
    + destruct (set_categorisers_read (sorted_items (categorisers c)) c0) as [ch ->]. exists ch. by rewrite H0, foldl_insert_fmap.
    + intros n x s Hx%elem_of_sorted_items. destruct (ok_categorisers w c Hc n x Hx) as [_ Hok].
      destruct (reread_ok x Hok) as (_ & _ & Hr). by rewrite Hr.
Qed.

Lemma taxonomies_stage c j c0 : config_ok w c → config_json c j → taxonomies c0 = ∅ →
  ∃ ch, categories_config_from_json j c0 = (set_taxonomies (taxonomies c) ch c0, Ok ()).
Proof.
  intros Hc Hj H0. unfold categories_config_from_json.
  rewrite (bind_ok _ _ c0 c0 _) by (unfold liftM; by rewrite (cj_taxonomies c j Hj)).
  destruct (or_null_cases (taxonomies c) Taxonomy_to_json) as [[He ->]| ->].
  - exists (changed c0). rewrite He, <-H0. by destruct c0.
  - unfold members_json. cbn [isNull]. rewrite (bind_ok _ _ c0 c0 ()) by done. cbn [json_members].
    rewrite (for_each_members _ _ set_taxonomy).
    + destruct (set_taxonomies_read (sorted_items (taxonomies c)) c0) as [ch ->]. exists ch. by rewrite H0, foldl_insert_sorted_items.
    + intros n t s Ht%elem_of_sorted_items. destruct (ok_taxonomies w c Hc n t Ht) as (_ & Hwf & Hn).
      destruct (taxonomy_json_roundtrip_ok t (mkT ∅ ∅) Hwf Hn) as [md Hr]. by rewrite Hr.
Qed.

(** The configuration that is read. *)
Definition cloned (ch : bool) (c : CollectionConfig) : CollectionConfig :=
  mkConfig (coll_name c) (uncached_entry <$> types c) (pipes c) (reread <$> categorisers c)
    (id_field c) (type_field c) (meta_field c) (default_type_config c) (taxonomies c) ch.

Lemma clone_ok c : config_ok w c → ∃ ch, CollectionConfig_clone w json_serialise c = Ok (cloned ch c).
Proof.
  intros Hc. unfold CollectionConfig_clone, new_CollectionConfig. rewrite (ok_collname w c Hc). cbn [mbind res_bind].
  destruct (config_written c Hc) as (j & -> & Hj). cbn [mbind res_bind].
  set (c0 := mkConfig _ _ _ _ _ _ _ _ _ _).
  destruct (schemas_stage c j c0 Hc Hj) as [ch1 H1]; [done..|]. set (c1 := set_special _ _ _ _) in H1.
  destruct (pipes_stage c j c1 Hc Hj) as [ch2 H2]; [done|]. set (c2 := set_pipes _ _ _) in H2.
  destruct (categorisers_stage c j c2 Hc Hj) as [ch3 H3]; [done|]. set (c3 := set_categorisers _ _ _) in H3.
  destruct (taxonomies_stage c j c3 Hc Hj) as [ch4 H4]; [done|]. exists ch4.
  unfold CollectionConfig_from_json, json_check_object. rewrite (cj_object c j Hj).
  rewrite (bind_ok _ _ c0 c0 ()) by done. rewrite (bind_ok _ _ c0 c0 3%N) by (unfold liftM; by rewrite (cj_format c j Hj)).
  rewrite (bind_ok _ _ c0 c0 ()), (bind_ok _ _ c0 c0 ()) by done.
  rewrite (bind_ok _ _ c0 c1 () H1), (bind_ok _ _ c1 c2 () H2), (bind_ok _ _ c2 c3 () H3), H4. done.
Qed.
End whole.

(** ** Properties *)

(** C14: cloning a well-formed configuration, which writes it as JSON and reads that into a
    new one, gives a configuration with the same name, fields and patterns of every type,
    pipes, names of the special fields, configuration of new types and taxonomies; the
    categorisers give every text the labels they gave.  Only the caches of indexers and the
    [changed] flag are not copied. *)
Theorem config_clone_same w json_serialise c (Hc : config_ok w c) :
  ∃ c', CollectionConfig_clone w json_serialise c = Ok c' ∧
    coll_name c' = coll_name c ∧ types c' = uncached_entry <$> types c ∧ pipes c' = pipes c ∧
    (id_field c', type_field c', meta_field c') = (id_field c, type_field c, meta_field c) ∧
    default_type_config c' = default_type_config c ∧ taxonomies c' = taxonomies c ∧
    dom (categorisers c') = dom (categorisers c) ∧
    ∀ name cat, categorisers c !! name = Some cat → ∃ cat', categorisers c' !! name = Some cat' ∧ same_categoriser cat cat'.
Proof.
  destruct (clone_ok w json_serialise c Hc) as [ch H]. exists (cloned ch c). split_and!; [done..|apply dom_fmap_L|].
  intros name cat Hcat. exists (reread cat). cbn. rewrite lookup_fmap, Hcat. split; [done|].
  apply reread_ok. by eapply (ok_categorisers w c Hc).
Qed.

(** A configuration with a type, a pipe, a categoriser and a taxonomy. *)
Definition blog_config : CollectionConfig :=
  mkConfig "blogs" {["blog" := Some blog_schema]} {["main" := mkPipe [] true ""]} {["lang" := two_languages]}
    "id" "type" "_meta" JNull {["topics" := cats abc]} false.

Lemma config_clone_same_witness : config_ok 64 blog_config ∧
  ∃ c', CollectionConfig_clone 64 (λ _, "") blog_config = Ok c' ∧
    coll_name c' = coll_name blog_config ∧ types c' = uncached_entry <$> types blog_config ∧ pipes c' = pipes blog_config ∧
    (id_field c', type_field c', meta_field c') = (id_field blog_config, type_field blog_config, meta_field blog_config) ∧
    default_type_config c' = default_type_config blog_config ∧ taxonomies c' = taxonomies blog_config ∧
    dom (categorisers c') = dom (categorisers blog_config) ∧
    ∀ name cat, categorisers blog_config !! name = Some cat → ∃ cat', categorisers c' !! name = Some cat' ∧ same_categoriser cat cat'.
Proof.
  assert (H : config_ok 64 blog_config).
  { destruct blog_schema_ok as [Hs Hf]. split; [done|..].
    - cbn. intros name o [<- <-]%lookup_singleton_Some. split; [done|]. by exists blog_schema.
    - cbn. intros name p [<- <-]%lookup_singleton_Some. split; [done|]. by repeat constructor.
    - cbn. intros name cat [<- <-]%lookup_singleton_Some. split; [done|apply two_languages_ok].
    - done.
    - by left.
    - cbn. intros name t [<- <-]%lookup_singleton_Some. split_and!; [done|apply abc_wf|apply abc_names_c]. }
  exact (conj H (config_clone_same 64 (λ _, "") blog_config H)).
Defined.
