(* ===== verification/Query.v ===== *)
(** * Building queries

    The [query] methods of the field configurations of src/jsonxapian/schema.cc, and
    src/jsonxapian/query_builder.h and query_builder.cc, which turn a JSON query tree into
    a [Xapian::Query].

    [Query] records the constructor calls a query is made by; which documents it matches
    is Xapian's ([QueryMatch], with what its documentation says as [QueryMatchLaws]). *)

From Stdlib Require Import SpecFloat.
From S2P Require Import Prelude Json TextUtils DocValues Hashing Mapping Schema CollConfig Indexing XapianDb.
From S2P Require RangeSource.

(** ** Queries *)

Inductive query_op := OP_AND | OP_OR | OP_XOR | OP_AND_NOT | OP_AND_MAYBE | OP_FILTER | OP_PHRASE | OP_NEAR.

(** [Query(op, begin, end, window)] over terms and over queries, [Query(op, a, b)],
    [Query(OP_SCALE_WEIGHT, q, factor)] and [Query(&source)] for a [MultiValueRangeSource] and a [LatLongDistancePostingSource]. *)
Inductive Query :=
| MatchNothing
| MatchAll
| QueryTerms (op : query_op) (terms : list string) (window : N)
| QueryList (op : query_op) (queries : list Query)
| QueryPair (op : query_op) (left right : Query)
| QueryScale (query : Query) (factor : spec_float)
| QueryRange (slot : N) (start_val end_val : string)
| QueryDistance (slot : N) (longitude latitude : spec_float) (max_range : spec_float).

(** The settings of a [Xapian::QueryParser]; [None] where nothing was set. *)
Inductive stem_strategy := STEM_NONE | STEM_SOME.
Record QueryParser := mkParser {
  qp_stemmer : option string;
  qp_strategy : option stem_strategy;
  qp_default_op : option query_op;
}.

Class QueryLib := {
  (** [parse_query(text, flags, prefix)], which throws on a text it cannot parse. *)
  parse_query : QueryParser → string → N → string → res Query;
  (** The factors a weight may be scaled by: others are refused by the constructor. *)
  factor_allowed : spec_float → bool;
}.

Definition FLAG_BOOLEAN : N := 1.

(** ** The queries of the fields *)

Section fields.
Context {document : Type} `{!DocStore document} `{!IndexLib document} `{!QueryLib}.
Context (w : N).

(** The parameter as an array. *)
Definition as_array (value : json) : list json := if isArray value then json_elems value else [value].

Definition bad_type (qtype what : string) : error :=
  InvalidValueError ("Invalid query type " +:+ quoted qtype +:+ " for " +:+ what +:+ " field").

Definition meta_code (qtype : string) : option ascii :=
  if decide (qtype = "exists") then Some "F"%char
  else if decide (qtype = "nonempty") then Some "N"%char
  else if decide (qtype = "empty") then Some "M"%char
  else if decide (qtype = "error") then Some "E"%char
  else None.

Definition meta_terms (prefix : string) (code : ascii) (v : json) : res (list string) :=
  if isNull v then
    if decide (code = "F"%char) then Ok [prefix +:+ "N"; prefix +:+ "M"] else Ok [prefix +:+ sing code]
  else if isString v then s ← asString v; Ok [(prefix +:+ sing code) +:+ s]
  else throw (InvalidValueError ("Invalid query value (" +:+ json_serialise v +:+ ") for meta field - must be string or null")).

Definition MetaFieldConfig_query (prefix qtype : string) (value : json) : res Query :=
  match meta_code qtype with
  | None => throw (bad_type qtype "meta")
  | Some code => terms ← mapM (meta_terms prefix code) (as_array value); Ok (QueryTerms OP_OR (concat terms) 0)
  end.

(** The text of a value that is a string or a number, [what] being the message for any
    other one and [name] the word for the value in the others. *)
Definition value_text (what name : string) (v : json) : res string :=
  if isString v then asString v
  else if negb (isConvertibleTo v uintValue) then throw (InvalidValueError what)
  else if lt_Int v 0 then throw (InvalidValueError ("JSON value for " +:+ name +:+ " was negative - wanted unsigned int"))
  else if gt_UInt64 v maxUInt64
  then throw (InvalidValueError ("JSON value " +:+ styled v +:+ " was larger than maximum allowed ("
         +:+ valueToString maxUInt64 +:+ ")"))
  else n ← asUInt64 v; Ok (valueToString n).

(** A value too long for the field. *)
Definition shorten_term (base : MaxLenFieldConfig) (termtext : string) : res string :=
  if (max_length base <? str_size termtext)%N then
    match too_long_action base with
    | TOOLONG_ERROR => Ok termtext
    | TOOLONG_HASH => hash_long_term w termtext (max_length base)
    | TOOLONG_TRUNCATE => Ok (str_take (N.to_nat (max_length base)) termtext)
    end
  else Ok termtext.

Definition id_term (base : MaxLenFieldConfig) (prefix : string) (v : json) : res string :=
  termtext ← value_text "ID value must be an integer or a string" "field" v;
  termtext ← shorten_term base termtext;
  Ok (prefix +:+ termtext).

Definition IDFieldConfig_query (base : MaxLenFieldConfig) (prefix qtype : string) (value : json) : res Query :=
  if negb (bool_decide (qtype = "is")) then throw (bad_type qtype "id")
  else terms ← mapM (id_term base prefix) (as_array value); Ok (QueryTerms OP_OR terms 0).

Definition exact_term (base : MaxLenFieldConfig) (prefix : string) (lowercase : bool) (v : json) : res string :=
  termtext ← value_text "Filter value must be an integer or a string" "field" v;
  let termtext := if lowercase then tolower termtext else termtext in
  termtext ← shorten_term base termtext;
  Ok (prefix +:+ termtext).

Definition ExactFieldConfig_query (base : MaxLenFieldConfig) (prefix : string) (lowercase : bool) (qtype : string)
    (value : json) : res Query :=
  if negb (bool_decide (qtype = "is")) then throw (bad_type qtype "exact")
  else terms ← mapM (exact_term base prefix lowercase) (as_array value); Ok (QueryTerms OP_OR terms 0).

(** *** Text *)

(** The terms of a phrase: a token at the position of the one before replaces it. *)
Definition phrase_step (prefix : string) (st : list string * N) (tok : string * N) : list string * N :=
  let '(phraseterms, lastpos) := st in
  let '(token, pos) := tok in
  let phraseterms := if negb (bool_decide (phraseterms = [])) && (lastpos =? pos)%N
                     then take (length phraseterms - 1) phraseterms else phraseterms in
  (phraseterms ++ [prefix +:+ tolower token], pos).

Definition build_CJK_query (prefix text op : string) (window : N) : Query :=
  let token_list := tokenize text in
  if decide (token_list = []) then MatchNothing
  else
    let phraseterms := (foldl (phrase_step prefix) ([], 0%N) token_list).1 in
    if decide (op = "phrase") then QueryTerms OP_PHRASE phraseterms window
    else if decide (op = "near") then QueryTerms OP_NEAR phraseterms window
    else if decide (op = "and") then QueryTerms OP_AND phraseterms 0
    else if decide (op = "or") then QueryTerms OP_OR phraseterms 0
    else MatchNothing.

(** [qp.set_stemmer(Xapian::Stem(stemmer))], for a stemmer that was named. *)
Definition set_stemmer (stemmer : string) : res QueryParser :=
  if decide (stemmer = "") then Ok (mkParser None None None)
  else if known_language stemmer then Ok (mkParser (Some stemmer) (Some STEM_SOME) None)
  else throw (XapianError "InvalidArgumentError").

Definition set_op (op : string) (qp : QueryParser) : QueryParser :=
  if decide (op = "phrase") then mkParser (qp_stemmer qp) (Some STEM_NONE) (Some OP_PHRASE)
  else if decide (op = "near") then mkParser (qp_stemmer qp) (Some STEM_NONE) (Some OP_NEAR)
  else if decide (op = "and") then mkParser (qp_stemmer qp) (qp_strategy qp) (Some OP_AND)
  else if decide (op = "or") then mkParser (qp_stemmer qp) (qp_strategy qp) (Some OP_OR)
  else qp.

Definition build_stem_query (prefix text op stemmer : string) : res Query :=
  qp ← set_stemmer stemmer; parse_query (set_op op qp) text 0 prefix.

Definition set_op_parsed (op : string) (qp : QueryParser) : QueryParser :=
  if decide (op = "and") then mkParser (qp_stemmer qp) (qp_strategy qp) (Some OP_AND)
  else if decide (op = "or") then mkParser (qp_stemmer qp) (qp_strategy qp) (Some OP_OR)
  else qp.

(** The flags are combined with [||], which makes them 1, that is [FLAG_BOOLEAN]. *)
Definition build_parsed_query (prefix text op stemmer : string) : res Query :=
  qp ← set_stemmer stemmer; parse_query (set_op_parsed op qp) text FLAG_BOOLEAN prefix.

Definition not_text : error := InvalidValueError "Invalid value for text field query - must be string or object".

Definition text_window (qparams : json) : res N :=
  window_json ← json_index qparams "window";
  if isNull window_json then Ok 0%N
  else window ← json_get_uint64_member qparams "window" (Z.to_N maxInt); Ok (wrap32 window).

(** The text, the operator and the window. *)
Definition phrase_params (qparams : json) : res (string * string * N) :=
  if isString qparams then text ← asString qparams; Ok (text, "phrase", 0%N)
  else if negb (isObject qparams) then throw not_text
  else
    text ← json_get_string_member qparams "text" "";
    op ← json_get_string_member qparams "op" "phrase";
    if negb (bool_decide (op ∈ ["and"; "or"; "phrase"; "near"]))
    then throw (InvalidValueError ("Invalid operator " +:+ quoted op +:+ " for text query on text field"))
    else window ← text_window qparams; Ok (text, op, window).

Definition query_phrase (prefix processor : string) (qparams : json) : res Query :=
  '(text, op, window) ← phrase_params qparams;
  if decide (processor = "cjk") then Ok (build_CJK_query prefix text op window)
  else build_stem_query prefix text op (if string_startswith processor "stem_" then str_drop 5 processor else "").

Definition query_parse (prefix processor : string) (qparams : json) : res Query :=
  '(text, op) ← (if isString qparams then text ← asString qparams; Ok (text, "and")
    else if negb (isObject qparams) then throw not_text
    else
      text ← json_get_string_member qparams "text" "";
      op ← json_get_string_member qparams "op" "and";
      if negb (bool_decide (op ∈ ["and"; "or"]))
      then throw (InvalidValueError ("Invalid operator " +:+ quoted op +:+ " for parse query on text field"))
      else Ok (text, op));
  if decide (processor = "cjk") then throw (InvalidValueError "Query parser does not support CJK fields")
  else build_parsed_query prefix text op (if string_startswith processor "stem_" then str_drop 5 processor else "").

Definition TextFieldConfig_query (prefix processor qtype : string) (qparams : json) : res Query :=
  if decide (qtype = "text") then query_phrase prefix processor qparams
  else if decide (qtype = "parse") then query_parse prefix processor qparams
  else throw (bad_type qtype "text").

(** *** Ranges *)

Definition range_check (qtype what points : string) (value : json) : res () :=
  if negb (bool_decide (qtype = "range")) then throw (bad_type qtype what)
  else
    json_check_array value "filter value" ;;
    if negb (json_size value =? 2)%N then throw (InvalidValueError points) else Ok ().

(** [value[i]] of an array: null out of range. *)
Definition json_at (value : json) (i : nat) : json := default JNull (json_elems value !! i).

Definition not_double (v : json) : error :=
  InvalidValueError ("JSON value for double field query (" +:+ json_serialise v +:+ ") was not convertible to a double").

Definition DoubleFieldConfig_query (slot : SlotName) (qtype : string) (value : json) : res Query :=
  range_check qtype "date" "Numeric field range must have exactly two points" value ;;
  if negb (isConvertibleTo (json_at value 0) realValue) then throw (not_double (json_at value 0))
  else if negb (isConvertibleTo (json_at value 1) realValue) then throw (not_double (json_at value 1))
  else
    start ← asDouble (json_at value 0);
    end_ ← asDouble (json_at value 1);
    Ok (QueryRange (slot_num slot) (sortable_serialise start) (sortable_serialise end_)).

(** The bounds are read as unsigned integers and converted to doubles. *)
Definition TimestampFieldConfig_query (slot : SlotName) (qtype : string) (value : json) : res Query :=
  range_check qtype "timestamp" "Timestamp field range must have exactly two points" value ;;
  start ← json_get_uint64 styled (json_at value 0);
  end_ ← json_get_uint64 styled (json_at value 1);
  Ok (QueryRange (slot_num slot) (sortable_serialise (Z_to_double (Z.of_N start))) (sortable_serialise (Z_to_double (Z.of_N end_)))).

Definition date_bound (v : json) : res string :=
  '(date, error) ← parse_date v;
  if negb (bool_decide (error = "")) then throw (InvalidValueError error) else Ok date.

Definition DateFieldConfig_query (slot : SlotName) (qtype : string) (value : json) : res Query :=
  range_check qtype "date" "Date field range must have exactly two points" value ;;
  start ← date_bound (json_at value 0);
  end_ ← date_bound (json_at value 1);
  Ok (QueryRange (slot_num slot) start end_).

(** *** Categories *)

Definition category_prefixes (prefix qtype : string) : option (list string) :=
  if decide (qtype = "is") then Some [prefix +:+ "C"]
  else if decide (qtype = "is_descendant") then Some [prefix +:+ "A"]
  else if decide (qtype = "is_or_is_descendant") then Some [prefix +:+ "C"; prefix +:+ "A"]
  else None.

Definition category_terms (term_prefixes : list string) (v : json) : res (list string) :=
  text ← value_text "Category value must be an integer or a string" "category" v;
  Ok ((λ i, i +:+ text) <$> term_prefixes).

Definition CategoryFieldConfig_query (prefix qtype : string) (value : json) : res Query :=
  match category_prefixes prefix qtype with
  | None => throw (bad_type qtype "category")
  | Some ps => terms ← mapM (category_terms ps) (as_array value); Ok (QueryTerms OP_OR (concat terms) 0)
  end.

(** *** Coordinates *)

Definition max_range (value : json) : res spec_float :=
  o ← json_member value "max_range";
  match o with
  | None => Ok (Z_to_double 0)
  | Some v =>
      if negb (isDouble v)
      then throw (InvalidValueError (quoted "max_range" +:+ " for " +:+ quoted "distscore" +:+ " search must be a double"))
      else asDouble v
  end.

Definition LonLatFieldConfig_query (slot : SlotName) (qtype : string) (value : json) : res Query :=
  if negb (bool_decide (qtype = "distscore")) then throw (bad_type qtype "lonlat")
  else
    json_check_object value "distscore filter value" ;;
    o ← json_member value "center";
    match o with
    | None => throw (InvalidValueError "distscore query must specify center parameter")
    | Some center =>
        r ← json_get_lonlat center;
        match r with
        | inr error => throw (InvalidValueError error)
        | inl (longitude, latitude) => range ← max_range value; Ok (QueryDistance (slot_num slot) longitude latitude range)
        end
    end.

(** *** The virtual method *)

Definition StoredFieldConfig_query : res Query := throw (InvalidValueError "Cannot filter on stored-only field").
Definition IgnoredFieldConfig_query : res Query := throw (InvalidValueError "Cannot search on ignored field").

Definition FieldConfig_query (f : FieldConfig) (qtype : string) (value : json) : res Query :=
  match f with
  | MetaFieldConfig prefix _ => MetaFieldConfig_query prefix qtype value
  | IDFieldConfig base _ prefix => IDFieldConfig_query base prefix qtype value
  | ExactFieldConfig base prefix _ _ lowercase => ExactFieldConfig_query base prefix lowercase qtype value
  | TextFieldConfig prefix _ _ processor => TextFieldConfig_query prefix processor qtype value
  | DoubleFieldConfig slot _ => DoubleFieldConfig_query slot qtype value
  | TimestampFieldConfig slot _ => TimestampFieldConfig_query slot qtype value
  | DateFieldConfig slot _ => DateFieldConfig_query slot qtype value
  | CategoryFieldConfig _ prefix _ _ _ => CategoryFieldConfig_query prefix qtype value
  | LonLatFieldConfig slot _ => LonLatFieldConfig_query slot qtype value
  | StoredFieldConfig _ => StoredFieldConfig_query
  | IgnoredFieldConfig => IgnoredFieldConfig_query
  end.

End fields.

(** ** Query trees *)

Section tree.
Context `{!QueryLib} (json_serialise : json → string).

(** The virtual [field_query] of the builder, and the name of the metadata field. *)
Context (field_query : string → string → json → res Query) (meta_field : string).

(** [jsonquery.size() != 1] after the member was found. *)
Definition only_member (name what : string) (jsonquery : json) : res json :=
  if negb (json_size jsonquery =? 1)%N
  then throw (InvalidValueError (what +:+ " query must contain exactly one member"))
  else json_index jsonquery name.

Definition expect_true (what : string) (queryparams : json) (q : Query) : res Query :=
  if negb (isBool queryparams) || negb (json_eqb queryparams (JBool true))
  then throw (InvalidValueError (what +:+ " query expects a value of true"))
  else Ok q.

Definition build_field (queryparams : json) : res Query :=
  json_check_array queryparams "field search parameters" ;;
  if isNull queryparams then throw (InvalidValueError "Invalid parameters for field search - null")
  else if negb (json_size queryparams =? 3)%N then throw (InvalidValueError "Invalid parameters for field search - length != 3")
  else if negb (isString (json_at queryparams 0)) then throw (InvalidValueError "Invalid fieldname for field search - not a string")
  else if negb (isString (json_at queryparams 1)) then throw (InvalidValueError "Invalid type in field search - not a string")
  else
    fieldname ← asString (json_at queryparams 0);
    querytype ← asString (json_at queryparams 1);
    field_query fieldname querytype (json_at queryparams 2).

Definition build_meta (queryparams : json) : res Query :=
  json_check_array queryparams "Meta search parameters" ;;
  if isNull queryparams then throw (InvalidValueError "Invalid parameters for meta search - null")
  else if negb (json_size queryparams =? 2)%N then throw (InvalidValueError "Invalid parameters for meta search - length != 2")
  else if negb (isString (json_at queryparams 0)) then throw (InvalidValueError "Invalid type in meta search - not a string")
  else
    querytype ← asString (json_at queryparams 0);
    field_query meta_field querytype (json_at queryparams 1).

Section operators.
(** Building the subqueries. *)
Context (build : json → res Query).

Definition build_list (op : query_op) (what : string) (queryparams : json) : res Query :=
  json_check_array queryparams (what +:+ " search parameters") ;;
  queries ← mapM build (json_elems queryparams);
  Ok (QueryList op queries).

(** A first subquery with a combination of the others. *)
Definition build_pair (op op2 : query_op) (what few : string) (queryparams : json) : res Query :=
  json_check_array queryparams (what +:+ " search parameters") ;;
  if (json_size queryparams <? 2)%N
  then throw (InvalidValueError (few +:+ " query must contain at least two subqueries"))
  else
    match json_elems queryparams with
    | [] => throw UndefinedBehaviour
    | first :: others =>
        mainquery ← build first;
        queries ← mapM build others;
        Ok (QueryPair op mainquery (QueryList op2 queries))
    end.

Definition build_scale (queryparams : json) : res Query :=
  o ← json_member queryparams "query";
  match o with
  | None => throw (InvalidValueError "Scale query must contain a query member")
  | Some q =>
      subquery ← build q;
      factor ← json_get_double_member queryparams "factor" (Z_to_double 0);
      if factor_allowed factor then Ok (QueryScale subquery factor) else throw (XapianError "InvalidArgumentError")
  end.
End operators.

(** The operators, in the order they are looked for: what messages call them. *)
Inductive query_kind := Matchall | Matchnothing | Field | Meta | And | Or | Xor | AndNot | AndMaybe | Filter | Scale.

Definition query_kinds : list (string * query_kind * string) :=
  [("matchall", Matchall, "MatchAll"); ("matchnothing", Matchnothing, "MatchNothing"); ("field", Field, "Field");
   ("meta", Meta, "Meta"); ("and", And, "AND"); ("or", Or, "OR"); ("xor", Xor, "XOR"); ("and_not", AndNot, "NOT");
   ("and_maybe", AndMaybe, "AND_MAYBE"); ("filter", Filter, "FILTER"); ("scale", Scale, "Scale")].

(** [isMember] of an object. *)
Definition isMember (v : json) (key : string) : bool :=
  match json_member v key with Ok (Some _) => true | _ => false end.

Definition find_kind (jsonquery : json) : option (string * query_kind * string) :=
  find (λ '(name, _, _), isMember jsonquery name) query_kinds.

Definition build_kind (build : json → res Query) (kind : query_kind) (queryparams : json) : res Query :=
  match kind with
  | Matchall => expect_true "MatchAll" queryparams MatchAll
  | Matchnothing => expect_true "MatchNothing" queryparams MatchNothing
  | Field => build_field queryparams
  | Meta => build_meta queryparams
  | And => build_list build OP_AND "AND" queryparams
  | Or => build_list build OP_OR "OR" queryparams
  | Xor => build_list build OP_XOR "XOR" queryparams
  | AndNot => build_pair build OP_AND_NOT OP_OR "NOT" "Not" queryparams
  | AndMaybe => build_pair build OP_AND_MAYBE OP_OR "AND_MAYBE" "AND_MAYBE" queryparams
  | Filter => build_pair build OP_FILTER OP_AND "FILTER" "FILTER" queryparams
  | Scale => build_scale build queryparams
  end.

(** The fuel is the depth of the tree. *)
Fixpoint build_query_at (fuel : nat) (jsonquery : json) : res Query :=
  match fuel with
  | O => OutOfFuel
  | S fuel =>
      if isNull jsonquery then Ok MatchNothing
      else
        json_check_object jsonquery "query tree" ;;
        if (json_size jsonquery =? 0)%N then Ok MatchNothing
        else
          match find_kind jsonquery with
          | None => throw (InvalidValueError ("Invalid query specification - no known members in query object ("
                      +:+ json_serialise jsonquery +:+ ")"))
          | Some (name, kind, what) =>
              queryparams ← only_member name what jsonquery;
              build_kind (build_query_at fuel) kind queryparams
          end
  end.

Definition build_query (jsonquery : json) : res Query := build_query_at (walk_size jsonquery) jsonquery.

End tree.

(** ** The builders *)

Section builders.
Context {document : Type} `{!DocStore document} `{!IndexLib document} `{!QueryLib}.
Context (w : N) (collconfig : CollectionConfig).

(** *** Searches of a whole collection *)

(** The configurations of a field, type by type, with what is done for each; an entry may
    be a null pointer. *)
Definition over_types {A} (fieldname : string) (step : FieldConfig → A → res A) (a : A) : res A :=
  foldl (λ r '(_, s),
    a ← r;
    match s with
    | None => throw UndefinedBehaviour
    | Some s => match Schema_get fieldname s with Some config => step config a | None => Ok a end
    end) (Ok a) (sorted_items (types collconfig)).

Definition CollectionQueryBuilder_field_query (fieldname querytype : string) (queryparams : json) : res Query :=
  queries ← over_types fieldname (λ config queries,
    q ← FieldConfig_query w config querytype queryparams; Ok (queries ++ [q])) [];
  Ok (QueryList OP_OR queries).

Definition CollectionQueryBuilder_build (jsonquery : json) : res Query :=
  build_query json_serialise CollectionQueryBuilder_field_query (meta_field collconfig) jsonquery.

Definition CollectionQueryBuilder_get_field_config (fieldname : string) : res (option FieldConfig) :=
  foldr (λ '(_, s) config,
    match s with
    | None => throw UndefinedBehaviour
    | Some s => match Schema_get fieldname s with Some f => Ok (Some f) | None => config end
    end) (Ok None) (sorted_items (types collconfig)).

Definition inconsistent_slot (fieldname : string) : error :=
  InvalidValueError ("Field '" +:+ fieldname +:+ "' has inconsistent configuration for its slot in "
    +:+ "the types being searched - support for handling this is not yet implemented").

(** The slot and the encoding found so far, and one more configuration; [get_slot] leaves
    the encoding unset for a field without values. *)
Definition merge_slot (fieldname : string) (f : FieldConfig) (found : N * ValueEncoding) : res (N * ValueEncoding) :=
  let '(slot, encoding) := found in
  match FieldConfig_get_slot f with
  | (field_slot, o) =>
      if (field_slot =? BAD_VALUENO)%N then Ok found
      else
        match o with
        | None => throw UndefinedBehaviour
        | Some field_encoding =>
            if (slot =? BAD_VALUENO)%N then Ok (field_slot, field_encoding)
            else if negb (slot =? field_slot)%N || negb (bool_decide (encoding = field_encoding))
            then throw (inconsistent_slot fieldname)
            else Ok found
        end
  end.

Definition CollectionQueryBuilder_get_slot_decoder (fieldname : string) : res (option SlotDecoder) :=
  '(slot, encoding) ← over_types fieldname (merge_slot fieldname) (BAD_VALUENO, ENC_VINT_LENGTHS);
  Ok (SlotDecoder_create slot encoding).

(** *** Searches of one type *)

(** [schema] is that of the type, a null pointer if there is none. *)
Context (schema : option Schema).

Definition DocumentTypeQueryBuilder_field_query (fieldname querytype : string) (queryparams : json) : res Query :=
  match schema with
  | None => throw UndefinedBehaviour
  | Some s => match Schema_get fieldname s with
              | None => Ok MatchNothing
              | Some config => FieldConfig_query w config querytype queryparams
              end
  end.

Definition type_query (s : Schema) (typeconfig : FieldConfig) : res Query :=
  FieldConfig_query w typeconfig "is" (jstr (doc_type s)).

(** The type is queried before the tree is built. *)
Definition DocumentTypeQueryBuilder_build (jsonquery : json) : res Query :=
  match schema with
  | None => Ok MatchNothing
  | Some s =>
      match Schema_get (type_field collconfig) s with
      | None => Ok MatchNothing
      | Some typeconfig =>
          tq ← type_query s typeconfig;
          q ← build_query json_serialise DocumentTypeQueryBuilder_field_query (meta_field collconfig) jsonquery;
          Ok (QueryPair OP_FILTER q tq)
      end
  end.

Definition DocumentTypeQueryBuilder_get_field_config (fieldname : string) : option FieldConfig :=
  schema ≫= Schema_get fieldname.

Definition DocumentTypeQueryBuilder_get_slot_decoder (fieldname : string) : res (option SlotDecoder) :=
  match schema ≫= Schema_get fieldname with
  | None => Ok None
  | Some f =>
      match FieldConfig_get_slot f with
      | (slot, Some encoding) => Ok (SlotDecoder_create slot encoding)
      | (slot, None) => if (slot =? BAD_VALUENO)%N then Ok None else throw UndefinedBehaviour
      end
  end.

(** *** The number of documents searched *)

(** [matches_upper_bound]: what [Enquire] answers for a query when no results are asked
    for. *)
Context {database : Type} `{!Xapian document database} (matches_upper_bound : database → Query → N).

Definition CollectionQueryBuilder_total_docs (db : database) : N := get_doccount db.

Definition DocumentTypeQueryBuilder_total_docs (db : database) : res N :=
  match schema with
  | None => Ok 0%N
  | Some s =>
      match Schema_get (type_field collconfig) s with
      | None => Ok 0%N
      | Some typeconfig => tq ← type_query s typeconfig; Ok (matches_upper_bound db tq)
      end
  end.

End builders.
