(* ===== verification/DbGroup.v ===== *)
(** * Groups of databases

    src/dbgroup/dbgroup.h and dbgroup.cc: a collection's documents are spread over
    numbered fragments, each a Xapian database; a control database stores the list of
    fragments and the collection's metadata, and the fragments are read as one database.

    The committed databases are the map [disk] from paths.  A [WritableDatabase] is the
    value [wrdb] its pending changes lead to: it is what is read through it, and what
    committing or closing it stores; [pending] counts the documents changed since, and
    the library commits of itself when it reaches its threshold.  A commit can fail, and
    then leaves what the library leaves.  A [Database] is the value stored when it was
    opened.  [group_db] is a list of the databases it was built from: [HWr i] the
    writable database of fragment [i], seen as it is when read, and [HRo db] what a
    read-only one held.  File operations succeed or fail as the argument [io] says. *)

From Stdlib Require Import ZArith.
From S2P Require Import Prelude Json TextUtils XapianDb.

(** ** Definitions *)

Inductive frag_state := CLOSED | OPEN_FOR_READING | OPEN_FOR_WRITING.

#[export] Instance frag_state_eq_dec : EqDecision frag_state.
Proof. solve_decision. Defined.

(** The operations on files [store_fraglist] and [open_writable] depend on. *)
Inductive io_step := IoCreate | IoWrite | IoClose | IoRename | IoMkdir.

Section dbgroup.
Context {document database : Type} `{!Xapian document database}.

Record DbFragment := mkFragment {
  fstate : frag_state;
  wrdb : database;
  pending : N;
  rodb : database;
  fname : string;
  fpath : string;
}.

Definition new_DbFragment (name path : string) : DbFragment :=
  mkFragment CLOSED empty_db 0 empty_db name path.

(** *** One fragment: the state is the fragment and what is on disk *)

Definition fragM : Type → Type := M (DbFragment * gmap string database).

Definition is_writable (f : DbFragment) : bool := bool_decide (fstate f = OPEN_FOR_WRITING).
Definition is_open (f : DbFragment) : bool := bool_decide (fstate f ≠ CLOSED).

Definition set_fstate (s : frag_state) (f : DbFragment) : DbFragment :=
  mkFragment s (wrdb f) (pending f) (rodb f) (fname f) (fpath f).
Definition set_wrdb (db : database) (n : N) (f : DbFragment) : DbFragment :=
  mkFragment (fstate f) db n (rodb f) (fname f) (fpath f).
Definition set_rodb (db : database) (f : DbFragment) : DbFragment :=
  mkFragment (fstate f) (wrdb f) (pending f) db (fname f) (fpath f).

(** [wrdb.commit()]. *)
Definition wrdb_commit : fragM () := λ '(f, disk),
  let stored := default empty_db (disk !! fpath f) in
  if commit_ok stored (wrdb f)
  then ((set_wrdb (wrdb f) 0 f, <[fpath f := wrdb f]> disk), Ok ())
  else
    let left := partial_commit stored (wrdb f) in
    ((set_wrdb left 0 f, <[fpath f := left]> disk), throw (XapianError "DatabaseError")).

(** A change of [n] documents that makes [wrdb] into [db]; the library may commit. *)
Definition wrdb_change (n : N) (db : database) : fragM () := λ '(f, disk),
  let f := set_wrdb db (pending f + n) f in
  if (flush_threshold <=? pending f)%N then wrdb_commit (f, disk) else ((f, disk), Ok ()).

(** [wrdb.close()]: commits the pending changes; nothing when it is not open. *)
Definition wrdb_close : fragM () := λ '(f, disk),
  if is_writable f then wrdb_commit (f, disk) else ((f, disk), Ok ()).

Definition DbFragment_close : fragM () := λ '(f, disk),
  match fstate f with
  | OPEN_FOR_WRITING => (wrdb_close ;; modifyM (λ s, (set_fstate CLOSED s.1, s.2))) (f, disk)
  | OPEN_FOR_READING => ((set_fstate CLOSED f, disk), Ok ())
  | CLOSED => ((f, disk), Ok ())
  end.

(** Opening with [DB_CREATE_OR_OPEN] creates the database if there is none.  The
    [wrdb.close()] before it has nothing to close. *)
Definition DbFragment_open_writable : fragM () := λ '(f, disk),
  if is_writable f then ((f, disk), Ok ())
  else
    let db := default empty_db (disk !! fpath f) in
    ((set_fstate OPEN_FOR_WRITING (set_wrdb db 0 f), <[fpath f := db]> disk), Ok ()).

Definition DbFragment_open_readonly : fragM () := λ '(f, disk),
  match fstate f with
  | OPEN_FOR_READING => ((set_rodb (default (rodb f) (disk !! fpath f)) f, disk), Ok ())
  | _ =>
      let '((f, disk), r) := wrdb_close (f, disk) in
      let f := set_fstate CLOSED f in
      match r with
      | Ok _ =>
          match disk !! fpath f with
          | None => ((f, disk), throw (XapianError "DatabaseOpeningError"))
          | Some db => ((set_fstate OPEN_FOR_READING (set_rodb db f), disk), Ok ())
          end
      | _ => ((f, disk), r)
      end
  end.

(** The database to read: the writable one, or the read-only one, opened if needed. *)
Definition DbFragment_get_db : fragM database :=
  s ← getM;
  match fstate s.1 with
  | OPEN_FOR_WRITING => mret (wrdb s.1)
  | OPEN_FOR_READING => mret (rodb s.1)
  | CLOSED => DbFragment_open_readonly ;; s ← getM; mret (rodb s.1)
  end.

(** How many documents a term stands for. *)
Definition documents_of (idterm : string) (f : DbFragment) : N := N.of_nat (length (postlist (wrdb f) idterm)).

Definition DbFragment_add_doc (doc : document) (idterm : string) : fragM () := λ '(f, disk),
  if negb (is_writable f)
  then ((f, disk), throw (InvalidStateError "Database must be open for writing to add document"))
  else if decide (idterm = "")
  then wrdb_change 1 (add_document doc (wrdb f)) (f, disk)
  else wrdb_change (N.max 1 (documents_of idterm f)) (replace_document idterm doc (wrdb f)) (f, disk).

Definition DbFragment_delete_doc (idterm : string) : fragM () := λ '(f, disk),
  if negb (is_writable f)
  then ((f, disk), throw (InvalidStateError "Database must be open for writing to delete document"))
  else wrdb_change (documents_of idterm f) (delete_document idterm (wrdb f)) (f, disk).

Definition DbFragment_set_metadata (key value : string) : fragM () := λ '(f, disk),
  if negb (is_writable f)
  then ((f, disk), throw (InvalidStateError "Database must be open for writing to add document"))
  else ((set_wrdb (set_metadata key value (wrdb f)) (pending f) f, disk), Ok ()).

Definition DbFragment_commit : fragM () := λ '(f, disk),
  if is_writable f then wrdb_commit (f, disk) else ((f, disk), Ok ()).

(** *** The group *)

Inductive handle := HWr (i : nat) | HRo (db : database).

Record DbGroup := mkGroup {
  max_newdb_docs : N;
  groupdir : string;
  control : DbFragment;
  frags : list DbFragment;
  next_fragnum : N;
  last_fraglist_str : string;
  group_db : list handle;
  group_db_valid : bool;
  disk : gmap string database;
  files : gmap string string;
  dirs : gset string;
}.

Definition new_DbGroup (groupdir : string) (disk : gmap string database) (files : gmap string string)
    (dirs : gset string) : DbGroup :=
  mkGroup 100000000 groupdir (new_DbFragment "control" (groupdir +:+ "/control")) [] 0 "" [] false
    disk files dirs.

Definition set_control (f : DbFragment) (d : gmap string database) (g : DbGroup) : DbGroup :=
  mkGroup (max_newdb_docs g) (groupdir g) f (frags g) (next_fragnum g) (last_fraglist_str g)
    (group_db g) (group_db_valid g) d (files g) (dirs g).
Definition set_frags (l : list DbFragment) (d : gmap string database) (g : DbGroup) : DbGroup :=
  mkGroup (max_newdb_docs g) (groupdir g) (control g) l (next_fragnum g) (last_fraglist_str g)
    (group_db g) (group_db_valid g) d (files g) (dirs g).
Definition set_next_fragnum (n : N) (g : DbGroup) : DbGroup :=
  mkGroup (max_newdb_docs g) (groupdir g) (control g) (frags g) n (last_fraglist_str g)
    (group_db g) (group_db_valid g) (disk g) (files g) (dirs g).
Definition set_last_fraglist (s : string) (g : DbGroup) : DbGroup :=
  mkGroup (max_newdb_docs g) (groupdir g) (control g) (frags g) (next_fragnum g) s
    (group_db g) (group_db_valid g) (disk g) (files g) (dirs g).
Definition set_group_db (l : list handle) (valid : bool) (g : DbGroup) : DbGroup :=
  mkGroup (max_newdb_docs g) (groupdir g) (control g) (frags g) (next_fragnum g) (last_fraglist_str g)
    l valid (disk g) (files g) (dirs g).
Definition set_files (m : gmap string string) (X : gset string) (g : DbGroup) : DbGroup :=
  mkGroup (max_newdb_docs g) (groupdir g) (control g) (frags g) (next_fragnum g) (last_fraglist_str g)
    (group_db g) (group_db_valid g) (disk g) m X.

(** [control.op(...)] and [frags[i]->op(...)]. *)
Definition on_control {A} (op : fragM A) : M DbGroup A := λ g,
  let '((f, d), r) := op (control g, disk g) in (set_control f d g, r).
Definition on_frag {A} (i : nat) (op : fragM A) : M DbGroup A := λ g,
  match frags g !! i with
  | None => (g, throw UndefinedBehaviour)
  | Some f => let '((f, d), r) := op (f, disk g) in (set_frags (<[i := f]> (frags g)) d g, r)
  end.

(** What a handle of [group_db] shows, and the combined database. *)
Definition handle_db (g : DbGroup) (h : handle) : database :=
  match h with
  | HRo db => db
  | HWr i => match frags g !! i with Some f => wrdb f | None => empty_db end
  end.
Definition group_view (g : DbGroup) : database := combine (handle_db g <$> group_db g).

Definition invalidate_group_db : M DbGroup () := λ g,
  if group_db_valid g then (set_group_db [] false g, Ok ()) else (g, Ok ()).

(** [frags[i]->get_db()], as the reference to one of the two databases it is. *)
Definition get_handle (i : nat) : M DbGroup handle :=
  db ← on_frag i DbFragment_get_db;
  g ← getM;
  match frags g !! i with
  | Some f => mret (if is_writable f then HWr i else HRo db)
  | None => throwM UndefinedBehaviour
  end.

(** The loop of [add_database] over the [n] fragments from [i] on. *)
Fixpoint add_databases (n i : nat) : M DbGroup () :=
  match n with
  | O => mret ()
  | S n =>
      h ← get_handle i;
      modifyM (λ g, set_group_db (group_db g ++ [h]) (group_db_valid g) g) ;;
      add_databases n (S i)
  end.

Definition init_group_db : M DbGroup () := λ g,
  if negb (is_open (control g))
  then (g, throw (InvalidStateError "Database must be open to access groupdb"))
  else if group_db_valid g then (g, Ok ())
  else
    (modifyM (set_group_db [] false) ;;
     add_databases (length (frags g)) 0 ;;
     modifyM (λ g, set_group_db (group_db g) true g)) g.

Definition DbGroup_get_db : M DbGroup database :=
  init_group_db ;; g ← getM; mret (group_view g).

Definition DbGroup_get_document (idterm : string) : M DbGroup (option document) :=
  init_group_db ;;
  g ← getM;
  match postlist (group_view g) idterm with
  | [] => mret None
  | d :: _ =>
      match get_document (group_view g) d with
      | None => throwM (XapianError "DocNotFoundError")
      | Some doc => mret (Some doc)
      end
  end.

Definition DbGroup_doc_exists (idterm : string) : M DbGroup bool :=
  init_group_db ;; g ← getM; mret (term_exists (group_view g) idterm).

Definition DbGroup_get_doccount : M DbGroup N :=
  init_group_db ;; g ← getM; mret (get_doccount (group_view g)).

Definition DbGroup_close : M DbGroup () :=
  invalidate_group_db ;;
  modifyM (set_last_fraglist "") ;;
  on_control DbFragment_close ;;
  g ← getM;
  for_each (seq 0 (length (frags g))) (λ i, on_frag i DbFragment_close).

Definition DbGroup_set_metadata (key value : string) : M DbGroup () :=
  on_control (DbFragment_set_metadata key value).

Definition DbGroup_get_metadata (key : string) : M DbGroup string :=
  db ← on_control DbFragment_get_db; mret (get_metadata db key).

(** [sync]. *)
Definition DbGroup_sync : M DbGroup () :=
  g ← getM;
  for_each (seq 0 (length (frags g))) (λ i, on_frag i DbFragment_commit) ;;
  on_control DbFragment_commit.

(** *** The stored list of fragments *)

Context (json_serialise : json → string) (json_unserialise : string → res json)
  (styled : json → string).
Context (io : io_step → bool).

Definition fraglist_json (l : list DbFragment) : json :=
  foldl (λ fraglist f, json_append fraglist (json_set (JObj []) "name" (jstr (fname f)))) (JArr []) l.

Definition xapiandb_contents (l : list DbFragment) : string :=
  foldl (λ s f, s +:+ ("auto " +:+ fname f +:+ sing (chr 10))) "" l.

(** A file operation, and what is thrown when it fails. *)
Definition io_do (step : io_step) (msg : string) (done : DbGroup → DbGroup) : M DbGroup () := λ g,
  if io step then (done g, Ok ()) else (g, throw (SysError msg)).

Definition store_fraglist : M DbGroup () :=
  g ← getM;
  on_control (DbFragment_set_metadata "_frags" (json_serialise (fraglist_json (frags g)))) ;;
  on_control (DbFragment_set_metadata "_next_fragnum" (json_serialise (JUInt (next_fragnum g)))) ;;
  let file := groupdir g +:+ "/XAPIANDB" in
  let tmp := file +:+ ".tmp" in
  io_do IoCreate ("Couldn't create file '" +:+ tmp +:+ "'")
    (λ g, set_files (<[tmp := ""]> (files g)) (dirs g) g) ;;
  io_do IoWrite ("Couldn't write to file '" +:+ tmp +:+ "'")
    (λ g', set_files (<[tmp := xapiandb_contents (frags g)]> (files g')) (dirs g') g') ;;
  io_do IoClose ("Couldn't close file '" +:+ tmp +:+ "'") (λ g, g) ;;
  io_do IoRename ("Couldn't rename temporary file to '" +:+ file +:+ "'")
    (λ g', set_files (<[file := xapiandb_contents (frags g)]> (delete tmp (files g'))) (dirs g') g').

Definition add_frag : M DbGroup () :=
  invalidate_group_db ;;
  g ← getM;
  let fragname := "frag" +:+ str_unsigned (next_fragnum g) in
  modifyM (λ g, set_next_fragnum (wrap32 (next_fragnum g + 1)) g) ;;
  modifyM (λ g, set_frags (frags g ++ [new_DbFragment fragname (groupdir g +:+ "/" +:+ fragname)]) (disk g) g) ;;
  on_frag (length (frags g)) DbFragment_open_writable ;;
  store_fraglist ;;
  on_control DbFragment_commit.

(** [frags.push_back(new DbFragment(fragname, ...))] for one item of the stored list. *)
Definition init_frag (fraginfo : json) : M DbGroup () :=
  liftM (json_check_object fraginfo "stored fragment information") ;;
  fragname ← liftM (json_get_string_member fraginfo "name" "");
  modifyM (λ g, set_frags (frags g ++ [new_DbFragment fragname (groupdir g +:+ "/" +:+ fragname)]) (disk g) g).

Definition init_frags : M DbGroup () :=
  db ← on_control DbFragment_get_db;
  let fraglist_str := get_metadata db "_frags" in
  g ← getM;
  if decide (fraglist_str = last_fraglist_str g) then mret ()
  else if decide (fraglist_str = "")
  then modifyM (λ g, set_next_fragnum 0 (set_last_fraglist "" (set_frags [] (disk g) g)))
  else
    fraglist ← liftM (json_unserialise fraglist_str);
    liftM (json_check_array fraglist "stored list of fragments") ;;
    modifyM (λ g, set_frags [] (disk g) g) ;;
    for_each (json_elems fraglist) init_frag ;;
    modifyM (set_last_fraglist fraglist_str) ;;
    let next_fragnum_str := get_metadata db "_next_fragnum" in
    if decide (next_fragnum_str = "") then modifyM (set_next_fragnum 0)
    else
      tmp ← liftM (json_unserialise next_fragnum_str);
      n ← liftM (json_get_uint64 styled tmp);
      modifyM (set_next_fragnum (wrap32 n)).

(** [try { m } catch(...) { control.close(); throw; }]. *)
Definition closing_control (m : M DbGroup ()) : M DbGroup () := λ g,
  match m g with
  | (g, Throw e) => (on_control DbFragment_close ;; throwM e) g
  | r => r
  end.

Definition DbGroup_open_writable : M DbGroup () := λ g,
  if is_writable (control g) then (g, Ok ())
  else
    ((if decide (groupdir g ∈ dirs g) then mret ()
      else io_do IoMkdir ("Couldn't create directory '" +:+ groupdir g +:+ "'")
             (λ g, set_files (files g) ({[groupdir g]} ∪ dirs g) g)) ;;
     invalidate_group_db ;;
     on_control DbFragment_open_writable ;;
     closing_control init_frags) g.

Definition DbGroup_open_readonly : M DbGroup () :=
  invalidate_group_db ;;
  on_control DbFragment_open_readonly ;;
  closing_control
    (init_frags ;;
     g ← getM;
     for_each (seq 0 (length (frags g))) (λ i, on_frag i DbFragment_open_readonly)).

(** *** Documents *)

(** The last fragment with the term, looked for from the back. *)
Fixpoint find_frag (idterm : string) (n : nat) : M DbGroup (option nat) :=
  match n with
  | O => mret None
  | S i =>
      db ← on_frag i DbFragment_get_db;
      if term_exists db idterm then mret (Some i) else find_frag idterm i
  end.

(** Adding to the last fragment, or to a new one when it is full. *)
Definition add_to_last (doc : document) (idterm : string) : M DbGroup () :=
  g ← getM;
  db ← on_frag (length (frags g) - 1) DbFragment_get_db;
  (if decide (max_newdb_docs g ≤ get_doccount db)%N then add_frag else mret ()) ;;
  g ← getM;
  on_frag (length (frags g) - 1) DbFragment_open_writable ;;
  on_frag (length (frags g) - 1) (DbFragment_add_doc doc idterm).

Definition DbGroup_add_doc (doc : document) (idterm : string) : M DbGroup () := λ g,
  if negb (is_writable (control g))
  then (g, throw (InvalidStateError "Database group must be open to add document "))
  else
    ((if decide (frags g = []) then add_frag else mret ()) ;;
     g ← getM;
     found ← (if decide (idterm = "") then mret None else find_frag idterm (length (frags g)));
     match found with
     | Some i => on_frag i DbFragment_open_writable ;; on_frag i (DbFragment_add_doc doc idterm)
     | None => add_to_last doc idterm
     end) g.

Definition DbGroup_delete_doc (idterm : string) : M DbGroup () := λ g,
  if negb (is_writable (control g))
  then (g, throw (InvalidStateError "Database group must be open to add document "))
  else if decide (idterm = "")
  then (g, throw (InvalidValueError "Empty term id must not be passed to delete document"))
  else
    (found ← find_frag idterm (length (frags g));
     match found with
     | Some i => on_frag i DbFragment_open_writable ;; on_frag i (DbFragment_delete_doc idterm)
     | None => mret ()
     end) g.

End dbgroup.
