(* ===== verification/DbGroupThms.v ===== *)
(** * Groups of databases: a map from identifiers to documents

    The documents of a group are found by their identifier, the only term of a
    document that starts with a tab.  Whatever fragments the documents are spread over
    and however these are open, the group behaves as one map from identifiers to
    documents ([represents]). *)

From S2P Require Import Prelude Json TextUtils XapianDb DbGroup.

Section group.
Context {document database : Type} `{!Xapian document database} `{!XapianLaws document database}.
Context `{!CommitsSucceed document database}.
Abbreviation DbFragment := (@DbFragment database).
Abbreviation DbGroup := (@DbGroup database).
Implicit Types f : DbFragment.
Implicit Types g : DbGroup.
Implicit Types db : database.
Implicit Types x doc : document.

(** ** The documents of a group *)

(** What reading fragment [f] now gives, and that it can be read at all. *)
Definition content (d : gmap string database) f : database :=
  match fstate f with
  | OPEN_FOR_WRITING => wrdb f
  | OPEN_FOR_READING => rodb f
  | CLOSED => default empty_db (d !! fpath f)
  end.
Definition frag_ok (d : gmap string database) f : Prop :=
  match fstate f with
  | OPEN_FOR_WRITING => True
  | OPEN_FOR_READING => d !! fpath f = Some (rodb f)
  | CLOSED => is_Some (d !! fpath f)
  end.

Definition contents g : list database := content (disk g) <$> frags g.

(** A handle on a writable database is one on the fragment of its position. *)
Definition handles_ok g : Prop :=
  group_db_valid g = true →
  length (group_db g) = length (frags g) ∧
  ∀ i j, group_db g !! i = Some (HWr j) → j = i ∧ ∃ f, frags g !! i = Some f ∧ fstate f = OPEN_FOR_WRITING.

(** The path of the fragment with a number. *)
Definition frag_path (dir : string) (k : N) : string := dir +:+ ("/" +:+ ("frag" +:+ str_unsigned k)).

Lemma frag_path_inj dir k k' : frag_path dir k = frag_path dir k' → k = k'.
Proof. unfold frag_path. intros H%(inj (String.app _))%(inj (String.app _))%(inj (String.app _)). by apply (inj str_unsigned). Qed.

Record group_ok g : Prop := {
  ok_frags : Forall (frag_ok (disk g)) (frags g);
  ok_paths : NoDup (fpath <$> frags g);
  ok_handles : handles_ok g;
  ok_numbers : ∀ f, f ∈ frags g → ∃ k, (k < next_fragnum g)%N ∧ fpath f = frag_path (groupdir g) k;
  ok_unused : ∀ k, (next_fragnum g ≤ k)%N → disk g !! frag_path (groupdir g) k = None;
  ok_control : fpath (control g) = groupdir g +:+ "/control";
}.

(** [g'] holds the documents of [g]; only the way fragments are open differs, and a
    fragment open for writing stays so. *)
Record keeps g g' : Prop := {
  keeps_ok : group_ok g → group_ok g';
  keeps_contents : group_ok g → contents g' = contents g;
  keeps_control : control g' = control g;
  keeps_handles : group_db g' = group_db g;
  keeps_valid : group_db_valid g' = group_db_valid g;
  keeps_max : max_newdb_docs g' = max_newdb_docs g;
  keeps_next : next_fragnum g' = next_fragnum g;
  keeps_length : length (frags g') = length (frags g);
  keeps_writable : ∀ i f, frags g !! i = Some f → fstate f = OPEN_FOR_WRITING → frags g' !! i = Some f;
}.

#[global] Instance keeps_preorder : PreOrder keeps.
Proof.
  split.
  - intros g. by split.
  - intros g1 g2 g3 [] []. split; try congruence; auto.
    intros Hg. rewrite keeps_contents1, keeps_contents0; auto.
Qed.

(** ** Changing one fragment *)

(** An operation on one fragment that keeps its document, its path and its being
    writable, and what other fragments read from disk. *)
Lemma on_frag_keeps {A} (op : fragM A) g i f f' d' r :
  frags g !! i = Some f →
  op (f, disk g) = ((f', d'), r) →
  (fstate f = OPEN_FOR_WRITING → f' = f) →
  fpath f' = fpath f →
  (frag_ok (disk g) f → frag_ok d' f' ∧ content d' f' = content (disk g) f) →
  (∀ p, p ≠ fpath f → d' !! p = disk g !! p) →
  ∃ g', on_frag i op g = (g', r) ∧ keeps g g' ∧ frags g' !! i = Some f' ∧ disk g' = d'.
Proof.
  intros Hi Hop Hw Hp Hok Hd. exists (set_frags (<[i:=f']> (frags g)) d' g).
  assert (Hlt : i < length (frags g)) by by eapply lookup_lt_Some.
  unfold on_frag. rewrite Hi, Hop. split_and!; [done| |by apply list_lookup_insert_eq|done].
  assert (Hpaths : fpath <$> <[i:=f']> (frags g) = fpath <$> frags g).
  { rewrite list_fmap_insert, Hp. apply list_insert_id. by rewrite list_lookup_fmap, Hi. }
  assert (Hother : group_ok g → ∀ j f2, j ≠ i → frags g !! j = Some f2 → fpath f2 ≠ fpath f).
  { intros Hg j f2 Hji Hj E. apply Hji. eapply NoDup_lookup; [apply (ok_paths _ Hg)| |];
      rewrite list_lookup_fmap; [by rewrite Hj|rewrite Hi; cbn; congruence]. }
  assert (Hsame : ∀ j f2, j ≠ i → frags g !! j = Some f2 → <[i:=f']> (frags g) !! j = Some f2).
  { intros. by rewrite list_lookup_insert_ne. }
  split; cbn; try done.
  - intros Hg. pose proof (ok_frags _ Hg) as Hf. rewrite Forall_lookup in Hf. split; cbn.
    + apply Forall_lookup. intros j f2 [(<- & <- & _)|[Hji Hj]]%list_lookup_insert_Some; [by apply Hok, (Hf i)|].
      specialize (Hf j f2 Hj). unfold frag_ok in *. by rewrite Hd by by eapply Hother.
    + rewrite Hpaths. apply Hg.
    + intros Hv. cbn. rewrite length_insert. destruct (ok_handles _ Hg Hv) as [Hl Hh]. split; [done|].
      intros j k Hj. destruct (Hh j k Hj) as (-> & f2 & Hf2 & Hs). split; [done|].
      destruct (decide (j = i)) as [->|]; [|exists f2; auto].
      exists f'. rewrite list_lookup_insert_eq by done. split; [done|]. simplify_eq. by rewrite Hw.
    + intros f2 [j Hj]%list_elem_of_lookup.
      apply list_lookup_insert_Some in Hj as [(<- & <- & _)|[? Hj]]; [rewrite Hp|];
        apply (ok_numbers _ Hg); by eapply list_elem_of_lookup_2.
    + intros k Hk. rewrite Hd; [by apply Hg|]. intros E.
      destruct (ok_numbers _ Hg f ltac:(by eapply list_elem_of_lookup_2)) as (k' & Hk' & E').
      rewrite E' in E. apply frag_path_inj in E. lia.
    + apply Hg.
  - intros Hg. unfold contents. cbn. apply list_eq. intros j. rewrite !list_lookup_fmap.
    pose proof (ok_frags _ Hg) as Hf. rewrite Forall_lookup in Hf.
    destruct (decide (j = i)) as [->|Hji].
    + rewrite list_lookup_insert_eq, Hi by done. cbn. f_equal. by apply Hok, (Hf i).
    + rewrite list_lookup_insert_ne by done. destruct (frags g !! j) as [f2|] eqn:Hj; [|done]. cbn. f_equal.
      unfold content. by rewrite Hd by by eapply Hother.
  - by rewrite length_insert.
  - intros j f2 Hj Hs. destruct (decide (j = i)) as [->|]; [|by rewrite list_lookup_insert_ne].
    simplify_eq. by rewrite list_lookup_insert_eq, Hw.
Qed.
Lemma get_db_ok g i f :
  group_ok g → frags g !! i = Some f →
  ∃ g' f', on_frag i DbFragment_get_db g = (g', Ok (content (disk g) f)) ∧ keeps g g' ∧
    frags g' !! i = Some f' ∧ fpath f' = fpath f ∧ fstate f' ≠ CLOSED ∧
    (fstate f ≠ CLOSED → f' = f) ∧ (fstate f' = OPEN_FOR_WRITING → f' = f).
Proof.
  intros Hg Hi. pose proof (ok_frags _ Hg) as Hf. rewrite Forall_lookup in Hf. specialize (Hf i f Hi).
  destruct (fstate f) eqn:Es.
  - destruct (disk g !! fpath f) as [db|] eqn:Ed; [|unfold frag_ok in Hf; rewrite Es, Ed in Hf; by destruct Hf].
    destruct (on_frag_keeps DbFragment_get_db g i f (set_fstate OPEN_FOR_READING (set_rodb db f)) (disk g)
      (Ok (content (disk g) f))) as (g' & H1 & H2 & H3 & _); [done| |congruence|done| |done|].
    + unfold DbFragment_get_db, DbFragment_open_readonly, wrdb_close, is_writable, content, getM, mbind, M_bind, mret, M_ret.
      cbn. rewrite Es. cbn. rewrite !(bool_decide_false (fstate f = _)) by congruence. by rewrite Es, Ed.
    + intros _. unfold frag_ok, content. cbn. by rewrite Es, Ed.
    + exists g', (set_fstate OPEN_FOR_READING (set_rodb db f)). by split_and!.
  - destruct (on_frag_keeps DbFragment_get_db g i f f (disk g) (Ok (content (disk g) f))) as (g' & H1 & H2 & H3 & _); try done.
    + unfold DbFragment_get_db, content, getM, mbind, M_bind. cbn. by rewrite Es.
    + exists g', f. split_and!; congruence.
  - destruct (on_frag_keeps DbFragment_get_db g i f f (disk g) (Ok (content (disk g) f))) as (g' & H1 & H2 & H3 & _); try done.
    + unfold DbFragment_get_db, content, getM, mbind, M_bind. cbn. by rewrite Es.
    + exists g', f. split_and!; congruence.
Qed.

Lemma open_writable_ok g i f :
  group_ok g → frags g !! i = Some f →
  ∃ g' f', on_frag i DbFragment_open_writable g = (g', Ok ()) ∧ keeps g g' ∧
    frags g' !! i = Some f' ∧ fpath f' = fpath f ∧ fstate f' = OPEN_FOR_WRITING ∧ wrdb f' = content (disk g) f.
Proof.
  intros Hg Hi. pose proof (ok_frags _ Hg) as Hf. rewrite Forall_lookup in Hf. specialize (Hf i f Hi).
  destruct (decide (fstate f = OPEN_FOR_WRITING)) as [Es|Es].
  - destruct (on_frag_keeps DbFragment_open_writable g i f f (disk g) (Ok ())) as (g' & H1 & H2 & H3 & _); try done.
    + unfold DbFragment_open_writable, is_writable. by rewrite bool_decide_true.
    + exists g', f. unfold content. rewrite Es. by split_and!.
  - set (db := default empty_db (disk g !! fpath f)).
    destruct (on_frag_keeps DbFragment_open_writable g i f (set_fstate OPEN_FOR_WRITING (set_wrdb db 0 f))
      (<[fpath f := db]> (disk g)) (Ok ())) as (g' & H1 & H2 & H3 & _); [done| |done|done| | |].
    + unfold DbFragment_open_writable, is_writable. by rewrite bool_decide_false.
    + intros _. split; [done|]. unfold content, frag_ok in *. cbn. unfold db.
      destruct (fstate f); [done|by rewrite Hf|done].
    + intros p Hp. by rewrite lookup_insert_ne.
    + exists g', (set_fstate OPEN_FOR_WRITING (set_wrdb db 0 f)). split_and!; try done.
      cbn. unfold content, frag_ok in *. unfold db. destruct (fstate f); [done|by rewrite Hf|done].
Qed.

(** The last fragment with a term is found, without changing any document. *)
Lemma find_frag_ok t n : ∀ g, group_ok g → n ≤ length (frags g) →
  wp (find_frag t n) (λ g' r, keeps g g' ∧
    match r with
    | Some i => i < n ∧ ∃ db, contents g !! i = Some db ∧ term_exists db t = true
    | None => ∀ i db, i < n → contents g !! i = Some db → term_exists db t = false
    end) g.
Proof.
  induction n as [|i IH]; intros g Hg Hn; cbn [find_frag]; [split; [done|lia]|]. apply wp_bind.
  destruct (lookup_lt_is_Some_2 (frags g) i) as [f Hf]; [lia|].
  destruct (get_db_ok g i f) as (g1 & f1 & H1 & Hk & _); [done..|]. unfold wp at 1. rewrite H1.
  assert (Hc : contents g !! i = Some (content (disk g) f)) by (unfold contents; by rewrite list_lookup_fmap, Hf).
  destruct (term_exists (content (disk g) f) t) eqn:Et; [unfold wp; cbn; eauto 6|].
  eapply wp_mono; [apply IH; [by apply Hk|rewrite (keeps_length _ _ Hk); lia]|].
  intros g2 r [Hk2 Hr]. rewrite (keeps_contents _ _ Hk) in Hr by done. split; [by etrans|].
  destruct r as [j|]; [naive_solver lia|]. intros j db Hj Hdb.
  destruct (decide (j = i)) as [->|]; [congruence|]. apply (Hr j); [lia|done].
Qed.

(** ** Changing the documents of one fragment *)

(** From [g] to [g'] the documents of fragment [i] change by [F]; the fragment is open
    for writing, and no other document changes. *)
Record changes (i : nat) (F : database → database) g g' : Prop := {
  ch_ok : group_ok g → group_ok g';
  ch_contents : group_ok g → contents g' = alter F i (contents g);
  ch_control : control g' = control g;
  ch_handles : group_db g' = group_db g;
  ch_valid : group_db_valid g' = group_db_valid g;
  ch_max : max_newdb_docs g' = max_newdb_docs g;
  ch_next : next_fragnum g' = next_fragnum g;
  ch_length : length (frags g') = length (frags g);
  ch_live : ∃ f, frags g' !! i = Some f ∧ fstate f = OPEN_FOR_WRITING;
  ch_writable : ∀ j f, frags g !! j = Some f → fstate f = OPEN_FOR_WRITING →
    ∃ f', frags g' !! j = Some f' ∧ fstate f' = OPEN_FOR_WRITING;
}.

Lemma keeps_changes i F g1 g2 g3 : keeps g1 g2 → changes i F g2 g3 → changes i F g1 g3.
Proof.
  intros [] []. split; try congruence; auto.
  - intros Hg. rewrite ch_contents0 by auto. by rewrite keeps_contents0.
  - intros j f Hj Hw. eauto.
Qed.

(** An operation on a fragment open for writing that changes its documents by [F], and
    may store them. *)
Definition writes (op : fragM ()) (F : database → database) : Prop :=
  ∀ f d, fstate f = OPEN_FOR_WRITING →
  ∃ n d', op (f, d) = ((set_wrdb (F (wrdb f)) n f, d'), Ok ()) ∧ ∀ p, p ≠ fpath f → d' !! p = d !! p.

Lemma on_frag_changes (op : fragM ()) g i f F :
  frags g !! i = Some f → fstate f = OPEN_FOR_WRITING → writes op F →
  ∃ g', on_frag i op g = (g', Ok ()) ∧ changes i F g g'.
Proof.
  intros Hi Hw Hop. destruct (Hop f (disk g) Hw) as (n & d' & Hrun & Hd).
  set (f' := set_wrdb (F (wrdb f)) n f) in *. exists (set_frags (<[i:=f']> (frags g)) d' g).
  assert (Hlt : i < length (frags g)) by by eapply lookup_lt_Some.
  assert (Hpaths : fpath <$> <[i:=f']> (frags g) = fpath <$> frags g).
  { rewrite list_fmap_insert. apply list_insert_id. by rewrite list_lookup_fmap, Hi. }
  assert (Hwr : ∀ j f2, frags g !! j = Some f2 → fstate f2 = OPEN_FOR_WRITING →
    ∃ f3, <[i:=f']> (frags g) !! j = Some f3 ∧ fstate f3 = OPEN_FOR_WRITING).
  { intros j f2 Hj Hs. destruct (decide (j = i)) as [->|]; [exists f'; by rewrite list_lookup_insert_eq|].
    exists f2. by rewrite list_lookup_insert_ne. }
  assert (Hother : group_ok g → ∀ j f2, j ≠ i → frags g !! j = Some f2 → d' !! fpath f2 = disk g !! fpath f2).
  { intros Hg j f2 Hji Hj. apply Hd. intros E. apply Hji. eapply NoDup_lookup; [apply (ok_paths _ Hg)| |];
      rewrite list_lookup_fmap; [by rewrite Hj|rewrite Hi; cbn; congruence]. }
  split; [unfold on_frag; by rewrite Hi, Hrun|]. split; cbn; try done.
  - intros Hg. pose proof (ok_frags _ Hg) as Hf. rewrite Forall_lookup in Hf. split; cbn; try apply Hg.
    + apply Forall_lookup. intros j f2 [(<- & <- & _)|[Hji Hj]]%list_lookup_insert_Some; [unfold frag_ok; cbn; by rewrite Hw|].
      specialize (Hf j f2 Hj). unfold frag_ok in *. by rewrite (Hother Hg j).
    + rewrite Hpaths. apply Hg.
    + intros Hv. cbn. rewrite length_insert. destruct (ok_handles _ Hg Hv) as [Hl Hh]. split; [done|].
      intros j k Hj. destruct (Hh j k Hj) as (-> & f2 & Hf2 & Hs). eauto.
    + intros f2 [j Hj]%list_elem_of_lookup.
      apply list_lookup_insert_Some in Hj as [(<- & <- & _)|[? Hj]]; [change (fpath f') with (fpath f)|];
        apply (ok_numbers _ Hg); by eapply list_elem_of_lookup_2.
    + intros k Hk. rewrite Hd; [by apply (ok_unused _ Hg)|]. intros E.
      destruct (ok_numbers _ Hg f ltac:(by eapply list_elem_of_lookup_2)) as (k' & Hk' & E').
      rewrite E' in E. apply frag_path_inj in E. lia.
  - intros Hg. unfold contents. cbn. apply list_eq. intros j. rewrite list_lookup_fmap.
    destruct (decide (j = i)) as [->|Hji].
    + rewrite list_lookup_insert_eq, list_lookup_alter_eq, list_lookup_fmap, Hi by done.
      unfold content. cbn. by rewrite Hw.
    + rewrite list_lookup_insert_ne, list_lookup_alter_ne, list_lookup_fmap by done.
      destruct (frags g !! j) as [f2|] eqn:Hj; [|done]. cbn. f_equal. unfold content. by rewrite (Hother Hg j).
  - by rewrite length_insert.
  - exists f'. by rewrite list_lookup_insert_eq.
Qed.

(** Opening a fragment for writing and changing it. *)
Lemma write_frag_ok (op : fragM ()) g i F :
  group_ok g → i < length (frags g) → writes op F →
  ∃ g', (on_frag i DbFragment_open_writable ;; on_frag i op) g = (g', Ok ()) ∧ changes i F g g'.
Proof.
  intros Hg Hi Hop. apply lookup_lt_is_Some_2 in Hi as [f Hf].
  destruct (open_writable_ok g i f) as (g1 & f1 & H1 & Hk & Hf1 & _ & Hw & _); [done..|].
  destruct (on_frag_changes op g1 i f1 F) as (g2 & H2 & Hc); [done..|].
  exists g2. split; [|by eapply keeps_changes]. unfold mbind, M_bind. by rewrite H1.
Qed.

(** Committing stores the documents and changes none. *)
Lemma wrdb_commit_eq f d : wrdb_commit (f, d) = ((set_wrdb (wrdb f) 0 f, <[fpath f := wrdb f]> d), Ok ()).
Proof. unfold wrdb_commit. by rewrite commits_succeed. Qed.

Lemma wrdb_change_eq n db f d :
  wrdb_change n db (f, d) =
    if (flush_threshold <=? pending f + n)%N then ((set_wrdb db 0 f, <[fpath f := db]> d), Ok ())
    else ((set_wrdb db (pending f + n) f, d), Ok ()).
Proof. unfold wrdb_change. cbn [pending set_wrdb]. destruct (_ <=? _)%N; [|done]. by rewrite wrdb_commit_eq. Qed.

Lemma change_writes n F f d : ∃ k d', wrdb_change n (F (wrdb f)) (f, d) = ((set_wrdb (F (wrdb f)) k f, d'), Ok ()) ∧
  ∀ p, p ≠ fpath f → d' !! p = d !! p.
Proof.
  rewrite wrdb_change_eq. destruct (_ <=? _)%N; eexists _, _; (split; [reflexivity|]); [|done].
  intros p Hp. by rewrite lookup_insert_ne.
Qed.

Lemma add_doc_writes doc t : t ≠ "" → writes (DbFragment_add_doc doc t) (replace_document t doc).
Proof.
  intros Ht f d Hw. unfold DbFragment_add_doc, is_writable. rewrite bool_decide_true by done. cbn [negb].
  rewrite decide_False by done. apply (change_writes _ (replace_document t doc)).
Qed.

Lemma delete_doc_writes t : writes (DbFragment_delete_doc t) (delete_document t).
Proof.
  intros f d Hw. unfold DbFragment_delete_doc, is_writable. rewrite bool_decide_true by done. cbn [negb].
  apply (change_writes _ (delete_document t)).
Qed.

(** ** Deleting documents *)

(** [control] is open for writing. *)
Definition writable g : Prop := fstate (control g) = OPEN_FOR_WRITING.

Lemma contents_length g : length (contents g) = length (frags g).
Proof. apply length_fmap. Qed.

Lemma alter_last (F : database → database) (l : list database) db :
  alter F (length l) (l ++ [db]) = l ++ [F db].
Proof.
  apply list_eq. intros j. destruct (decide (j = length l)) as [->|Hj].
  - rewrite list_lookup_alter_eq, !lookup_app_r, Nat.sub_diag by done. done.
  - rewrite list_lookup_alter_ne by done. destruct (decide (j < length l)); [by rewrite !lookup_app_l by lia|].
    rewrite !lookup_app_r by lia. by destruct (j - length l) eqn:E; [lia|].
Qed.

(** The outcomes of adding to the last fragment. *)
Definition appended (F : database → database) g g' : Prop :=
  (frags g ≠ [] ∧ changes (length (frags g) - 1) F g g') ∨
  (group_db_valid g' = false ∧ ∃ k, contents g' = contents g ++ replicate k empty_db ++ [F empty_db]).

(** No document of the group has the term. *)
Definition absent (t : string) g : Prop := ∀ i db, contents g !! i = Some db → term_exists db t = false.

Lemma find_frag_absent g t : group_ok g →
  ∃ g', keeps g g' ∧
   ((∃ i db, find_frag t (length (frags g)) g = (g', Ok (Some i)) ∧ contents g !! i = Some db ∧ term_exists db t = true) ∨
    (find_frag t (length (frags g)) g = (g', Ok None) ∧ absent t g)).
Proof.
  intros Hg. pose proof (find_frag_ok t (length (frags g)) g Hg (le_n _)) as H.
  apply wp_ok in H as (g' & r & E & Hk & Hr). exists g'. split; [done|]. destruct r as [i|]; [left|right].
  - destruct Hr as (_ & db & ? & ?). eauto.
  - split; [done|]. intros i db Hi. apply (Hr i); [|done]. rewrite <-contents_length. by eapply lookup_lt_Some.
Qed.

Lemma delete_doc_ok g t :
  group_ok g → writable g → t ≠ "" →
  ∃ g', DbGroup_delete_doc t g = (g', Ok ()) ∧ group_ok g' ∧ writable g' ∧
    ((∃ i db, contents g !! i = Some db ∧ term_exists db t = true ∧ changes i (delete_document t) g g') ∨
     (absent t g ∧ keeps g g')).
Proof.
  intros Hg Hw Ht. unfold DbGroup_delete_doc, is_writable. rewrite bool_decide_true, decide_False by done. cbn [negb].
  destruct (find_frag_absent g t Hg) as (g1 & Hk & [(i & db & H1 & Hdb & Ht1)|[H1 Hab]]);
    unfold mbind at 1, M_bind at 1; rewrite H1.
  - destruct (write_frag_ok (DbFragment_delete_doc t) g1 i (delete_document t)) as (g2 & H2 & Hch);
      [by apply Hk| |apply delete_doc_writes|].
    { rewrite (keeps_length _ _ Hk), <-contents_length. by eapply lookup_lt_Some. }
    exists g2. split_and!; [done|by apply Hch, Hk| |].
    + unfold writable. by rewrite (ch_control _ _ _ _ Hch), (keeps_control _ _ Hk).
    + left. exists i, db. split_and!; [done..|by eapply keeps_changes].
  - exists g1. split_and!; [done|by apply Hk|unfold writable; by rewrite (keeps_control _ _ Hk)|by right].
Qed.

(** ** The combined database *)

Definition views g : list database := handle_db g <$> group_db g.

(** The combined database, where it is kept, shows the documents as they are. *)
Definition fresh g : Prop := group_db_valid g = true → views g = contents g.

(** [g'] differs from [g] in the combined database and the way fragments are open. *)
Record reopened g g' : Prop := {
  ro_ok : group_ok g → group_ok g';
  ro_contents : group_ok g → contents g' = contents g;
  ro_control : control g' = control g;
  ro_max : max_newdb_docs g' = max_newdb_docs g;
  ro_next : next_fragnum g' = next_fragnum g;
  ro_length : length (frags g') = length (frags g);
  ro_writable : ∀ i f, frags g !! i = Some f → fstate f = OPEN_FOR_WRITING → frags g' !! i = Some f;
}.

#[global] Instance reopened_preorder : PreOrder reopened.
Proof.
  split; [by split|]. intros g1 g2 g3 [] []. split; try congruence; auto.
  intros Hg. rewrite ro_contents1, ro_contents0; auto.
Qed.

Lemma keeps_reopened g g' : keeps g g' → reopened g g'.
Proof. intros []. by split. Qed.

(** A handle on the fragment at its position, showing its documents. *)
Definition handle_good g (i : nat) (h : handle) : Prop :=
  contents g !! i = Some (handle_db g h) ∧
  match h with HWr j => j = i ∧ ∃ f, frags g !! i = Some f ∧ fstate f = OPEN_FOR_WRITING | HRo _ => True end.

Lemma handle_good_reopened g g' i h :
  group_ok g → reopened g g' → handle_good g i h → handle_good g' i h.
Proof.
  intros Hg Hr [Hc Hh]. unfold handle_good. rewrite (ro_contents _ _ Hr), Hc by done.
  destruct h as [j|db]; [|done]. destruct Hh as [-> (f & Hf & Hs)]. cbn.
  pose proof (ro_writable _ _ Hr i f Hf Hs) as Hf'. rewrite Hf, Hf'. eauto.
Qed.

Lemma get_handle_ok g i : group_ok g → i < length (frags g) →
  ∃ g' h, get_handle i g = (g', Ok h) ∧ keeps g g' ∧ handle_good g' i h.
Proof.
  intros Hg [f Hf]%lookup_lt_is_Some_2.
  destruct (get_db_ok g i f) as (g' & f' & H1 & Hk & Hf' & Hp & Hs & Hsame & Hw); [done..|].
  exists g'. unfold get_handle, mbind, M_bind, getM. rewrite H1, Hf'. eexists. split; [reflexivity|]. split; [done|].
  unfold handle_good. rewrite (keeps_contents _ _ Hk) by done.
  assert (Hc : contents g !! i = Some (content (disk g) f)) by (unfold contents; by rewrite list_lookup_fmap, Hf).
  rewrite Hc. unfold is_writable. case_bool_decide as E; [|done]. cbn. rewrite Hf'. split; [|eauto].
  f_equal. unfold content. rewrite <-(Hw E). by rewrite E.
Qed.

Lemma reopened_handles g l : group_db_valid g = false → reopened g (set_group_db l false g).
Proof.
  intros Hv. split; try done. intros [H1 H2 _ H4 H5 H6]. by split.
Qed.

Lemma add_databases_ok n : ∀ i g,
  group_ok g → group_db_valid g = false → length (group_db g) = i → i + n = length (frags g) →
  (∀ j h, group_db g !! j = Some h → handle_good g j h) →
  ∃ g', add_databases n i g = (g', Ok ()) ∧ reopened g g' ∧ group_db_valid g' = false ∧
    length (group_db g') = length (frags g) ∧ ∀ j h, group_db g' !! j = Some h → handle_good g' j h.
Proof.
  induction n as [|n IH]; intros i g Hg Hv Hl Hi Hh; cbn [add_databases].
  - exists g. split_and!; [done..|lia|done].
  - destruct (get_handle_ok g i) as (g1 & h & H1 & Hk & Hgood); [done|lia|].
    set (g2 := set_group_db (group_db g1 ++ [h]) false g1).
    assert (Hv1 : group_db_valid g1 = false) by (by rewrite (keeps_valid _ _ Hk)).
    assert (Hr : reopened g g2) by (etrans; [by apply keeps_reopened|by apply reopened_handles]).
    destruct (IH (S i) g2) as (g3 & H3 & Hr3 & Hv3 & Hl3 & Hh3).
    + by apply Hr.
    + done.
    + cbn. rewrite length_app, (keeps_handles _ _ Hk), Hl. cbn. lia.
    + rewrite (ro_length _ _ Hr). lia.
    + cbn. rewrite (keeps_handles _ _ Hk). intros j h' [Hj|[Hj1 Hj2]]%lookup_app_Some.
      * apply (handle_good_reopened g); [done..|]. by apply Hh.
      * apply list_lookup_singleton_Some in Hj2 as [Hj0 <-]. replace j with i by lia.
        apply (handle_good_reopened g1); [by apply Hk|by apply reopened_handles|done].
    + exists g3. split_and!; [|by etrans|done|rewrite Hl3; apply (ro_length _ _ Hr)|done].
      unfold mbind at 1, M_bind at 1. rewrite H1. unfold mbind, M_bind, modifyM. by rewrite Hv1.
Qed.

(** Building the combined database leaves the documents alone; it is rebuilt only when
    it is not valid, and shows all documents then. *)
Lemma init_group_db_ok g : group_ok g → is_open (control g) = true → fresh g →
  ∃ g', init_group_db g = (g', Ok ()) ∧ reopened g g' ∧ group_db_valid g' = true ∧ views g' = contents g'.
Proof.
  intros Hg Ho Hfr. unfold init_group_db. rewrite Ho. cbn [negb].
  destruct (group_db_valid g) eqn:Ev; [exists g; split_and!; auto; done|].
  set (g1 := set_group_db [] false g). assert (Hr1 : reopened g g1) by by apply reopened_handles.
  destruct (add_databases_ok (length (frags g)) 0 g1) as (g2 & H2 & Hr2 & Hv2 & Hl2 & Hh2);
    [by apply Hr1|done..|].
  exists (set_group_db (group_db g2) true g2). split_and!.
  - unfold mbind, M_bind, modifyM. fold g1. by rewrite H2.
  - etrans; [exact Hr1|]. etrans; [exact Hr2|]. split; try done. intros [F1 F2 _ F4 F5 F6]. split; try done.
    intros _. cbn. split; [rewrite Hl2; symmetry; apply (ro_length _ _ Hr2)|]. intros i j Hij. by destruct (Hh2 i _ Hij).
  - done.
  - unfold views. change (handle_db (set_group_db (group_db g2) true g2)) with (handle_db g2). cbn.
    apply list_eq_same_length with (length (frags g)).
    + change (length (contents g2) = length (frags g)). rewrite contents_length. apply (ro_length _ _ Hr2).
    + by rewrite length_fmap.
    + intros j a b _ Ha Hb. apply list_lookup_fmap_Some in Ha as (h & -> & Hj).
      destruct (Hh2 j h Hj) as [Hc _]. change (contents g2 !! j = Some b) in Hb. congruence.
Qed.

(** The combined database reads, or will read, all fragments through the databases they
    are written by. *)
Definition live g : Prop :=
  if group_db_valid g then ∀ h, h ∈ group_db g → ∃ j, h = HWr j
  else ∀ f, f ∈ frags g → fstate f = OPEN_FOR_WRITING.

Lemma live_fresh g : group_ok g → live g → fresh g.
Proof.
  intros Hg Hl Hv. unfold live in Hl. rewrite Hv in Hl. destruct (ok_handles _ Hg Hv) as [Hlen Hh].
  apply list_eq_same_length with (length (frags g)); [apply contents_length|by unfold views; rewrite length_fmap|].
  intros i a b _ Ha Hb. unfold views in Ha. apply list_lookup_fmap_Some in Ha as (h & -> & Hi).
  destruct (Hl h) as [j ->]; [by eapply list_elem_of_lookup_2|]. destruct (Hh i j Hi) as (-> & f & Hf & Hs).
  unfold contents in Hb. rewrite list_lookup_fmap, Hf in Hb. cbn in *. rewrite Hf. unfold content in Hb. rewrite Hs in Hb.
  congruence.
Qed.

Lemma get_handle_live g i f : frags g !! i = Some f → fstate f = OPEN_FOR_WRITING → get_handle i g = (g, Ok (HWr i)).
Proof.
  intros Hf Hs. unfold get_handle, on_frag, DbFragment_get_db, is_writable, mbind, M_bind, getM. rewrite Hf. cbn. rewrite Hs. cbn.
  rewrite list_insert_id by done. rewrite Hf, bool_decide_true by done. unfold mret, M_ret. f_equal. by destruct g.
Qed.

Lemma add_databases_live n : ∀ i g, group_db_valid g = false → (∀ f, f ∈ frags g → fstate f = OPEN_FOR_WRITING) →
  i + n ≤ length (frags g) → (∀ h, h ∈ group_db g → ∃ j, h = HWr j) →
  ∀ h, h ∈ group_db (add_databases n i g).1 → ∃ j, h = HWr j.
Proof.
  induction n as [|n IH]; intros i g Hv Hw Hi Hh; cbn [add_databases]; [done|].
  destruct (lookup_lt_is_Some_2 (frags g) i) as [f Hf]; [lia|]. unfold mbind at 1, M_bind at 1.
  rewrite (get_handle_live g i f) by eauto using list_elem_of_lookup_2. unfold mbind, M_bind, modifyM.
  rewrite Hv. apply IH; cbn; [done..|lia|]. intros h [Hin|Hin]%elem_of_app; [auto|]. apply list_elem_of_singleton in Hin. eauto.
Qed.

Lemma init_group_db_live g g' : live g → init_group_db g = (g', Ok ()) → ∀ h, h ∈ group_db g' → ∃ j, h = HWr j.
Proof.
  unfold init_group_db, live. intros Hl. destruct (negb (is_open (control g))); [done|].
  destruct (group_db_valid g); [by intros [= <-]|].
  unfold mbind, M_bind, modifyM. pose proof (add_databases_live (length (frags g)) 0 (set_group_db [] false g)) as H.
  destruct (add_databases _ _ _) as [g1 [[]| |]]; [|done..]. intros [= <-]. cbn in *. apply H; [done|done|done|].
  by intros h ?%elem_of_nil.
Qed.

(** ** Refinement: a map from identifiers to documents *)

(** Identifiers: the terms that start with a tab. *)
Definition is_id (t : string) : Prop := match t with String c _ => c = chr 9 | EmptyString => False end.
#[global] Instance is_id_dec t : Decision (is_id t).
Proof. destruct t; cbn; apply _. Defined.

Definition ids x : gset string := filter is_id (terms x).

(** Document [x] is the [d]-th of fragment [i]. *)
Definition at_pos g (i : nat) (d : N) x : Prop := ∃ db, contents g !! i = Some db ∧ get_document db d = Some x.

Record represents g (m : gmap string document) : Prop := {
  rep_ids : ∀ i d x, at_pos g i d x → ∃ t, ids x = {[t]} ∧ m !! t = Some x;
  rep_docs : ∀ t x, m !! t = Some x → ids x = {[t]} ∧ ∃ i d, at_pos g i d x;
  rep_once : ∀ i d x i' d' x' t, at_pos g i d x → at_pos g i' d' x' → t ∈ ids x → t ∈ ids x' → i = i' ∧ d = d';
}.

Lemma represents_same g g' m : contents g' = contents g → represents g m → represents g' m.
Proof.
  intros Hc. assert (Hp : ∀ i d x, at_pos g' i d x ↔ at_pos g i d x) by (intros; unfold at_pos; by rewrite Hc).
  intros [H1 H2 H3]. split; setoid_rewrite Hp; auto.
Qed.

(** Writing a document where the one with its identifier is, or at a free position
    when there is none. *)
Lemma represents_write g g' m t x i0 d0 :
  represents g m → ids x = {[t]} →
  (∀ i d y, at_pos g' i d y ↔ (i = i0 ∧ d = d0 ∧ y = x) ∨ (¬ (i = i0 ∧ d = d0) ∧ at_pos g i d y)) →
  (∀ i d y, at_pos g i d y → t ∈ ids y → i = i0 ∧ d = d0) →
  (∀ y, at_pos g i0 d0 y → t ∈ ids y) →
  represents g' (<[t := x]> m).
Proof.
  intros [R1 R2 R3] Hx Hp Hu Ho. split.
  - intros i d y [(-> & -> & ->)|[Hne Hy]]%Hp; [exists t; by rewrite lookup_insert_eq|].
    destruct (R1 i d y Hy) as (t' & Hi & Hm). exists t'. split; [done|].
    rewrite lookup_insert_ne; [done|]. intros <-. apply Hne. apply (Hu i d y); [done|]. rewrite Hi. set_solver.
  - intros t' y [[-> ->]|[Hne Hm]]%lookup_insert_Some.
    + split; [done|]. exists i0, d0. apply Hp. auto.
    + destruct (R2 t' y Hm) as (Hi & i & d & Hy). split; [done|]. exists i, d. apply Hp. right. split; [|done].
      intros [-> ->]. specialize (Ho y Hy). rewrite Hi in Ho. set_solver.
  - intros i d y i' d' y' u [(-> & -> & ->)|[Hn Hy]]%Hp [(-> & -> & ->)|[Hn' Hy']]%Hp Hu1 Hu2; [done| | |by eapply R3].
    + rewrite Hx in Hu1. assert (u = t) as -> by set_solver. destruct (Hu i' d' y' Hy' Hu2) as [-> ->]. naive_solver.
    + rewrite Hx in Hu2. assert (u = t) as -> by set_solver. destruct (Hu i d y Hy Hu1) as [-> ->]. naive_solver.
Qed.

Lemma represents_delete g g' m t :
  represents g m → (∀ i d y, at_pos g' i d y ↔ at_pos g i d y ∧ t ∉ ids y) → represents g' (delete t m).
Proof.
  intros [R1 R2 R3] Hp. split.
  - intros i d y [Hy Ht]%Hp. destruct (R1 i d y Hy) as (t' & Hi & Hm). exists t'. split; [done|].
    rewrite lookup_delete_ne; [done|]. intros <-. set_solver.
  - intros t' y [Hne Hm]%lookup_delete_Some. destruct (R2 t' y Hm) as (Hi & i & d & Hy). split; [done|].
    exists i, d. apply Hp. split; [done|]. rewrite Hi. set_solver.
  - intros i d y i' d' y' u [Hy _]%Hp [Hy' _]%Hp. by apply R3.
Qed.

(** Positions after a change of one fragment. *)
Lemma at_pos_changes i F g g' j d y : group_ok g → changes i F g g' →
  at_pos g' j d y ↔
    if decide (j = i) then ∃ db, contents g !! i = Some db ∧ get_document (F db) d = Some y else at_pos g j d y.
Proof.
  intros Hg Hc. unfold at_pos. rewrite (ch_contents _ _ _ _ Hc) by done. case_decide; subst.
  - rewrite list_lookup_alter_eq. destruct (contents g !! i) as [db|]; cbn; naive_solver.
  - by rewrite list_lookup_alter_ne.
Qed.

Lemma absent_no_doc g t i d y : absent t g → at_pos g i d y → t ∉ terms y.
Proof. intros Ha (db & Hdb & Hy). specialize (Ha i db Hdb). rewrite term_exists_false in Ha. eauto. Qed.

Lemma elem_of_ids t y : t ∈ ids y ↔ is_id t ∧ t ∈ terms y.
Proof using Type. unfold ids. by rewrite elem_of_filter. Qed.

Lemma ids_singleton t x : ids x = {[t]} → is_id t ∧ t ∈ terms x ∧ t ≠ "".
Proof using Type.
  intros H. assert (Ht : t ∈ ids x) by (rewrite H; by apply elem_of_singleton). apply elem_of_ids in Ht as [Hid Ht].
  split_and!; [exact Hid|exact Ht|]. intros ->. exact Hid.
Qed.

(** Replacing the only document with a term, where it is. *)
Lemma at_pos_replace i d0 y0 g g' t x :
  group_ok g → at_pos g i d0 y0 → t ∈ terms y0 →
  (∀ j d y, at_pos g j d y → t ∈ terms y → j = i ∧ d = d0) →
  changes i (replace_document t x) g g' →
  ∀ j d y, at_pos g' j d y ↔ (j = i ∧ d = d0 ∧ y = x) ∨ (¬ (j = i ∧ d = d0) ∧ at_pos g j d y).
Proof.
  intros Hg (db & Hdb & Hd0) Ht0 Hu Hc j d y. rewrite (at_pos_changes i _ g g' j d y Hg Hc).
  case_decide as Hj; subst; [|naive_solver]. setoid_rewrite Hdb.
  assert (Hrep : ∀ d', get_document (replace_document t x db) d' = if decide (d' = d0) then Some x else get_document db d').
  { apply (replace_unique db t d0 y0); [done..|]. intros d' x' ??. apply (Hu i d' x'); [by exists db|done]. }
  split.
  - intros (? & [= <-] & Hy). rewrite Hrep in Hy. case_decide; [naive_solver|]. right. split; [naive_solver|]. by exists db.
  - intros H. exists db. split; [done|]. rewrite Hrep.
    destruct H as [(_ & -> & ->)|[Hne (? & ? & ?)]]; [by rewrite decide_True|]. rewrite decide_False by naive_solver. congruence.
Qed.

Lemma represents_replace i db g g' m t x :
  group_ok g → represents g m → ids x = {[t]} → contents g !! i = Some db → term_exists db t = true →
  changes i (replace_document t x) g g' → represents g' (<[t := x]> m).
Proof.
  intros Hg Hr Hx Hdb Ht Hc. destruct (ids_singleton t x Hx) as (Hid & _ & _).
  apply term_exists_spec in Ht as (d0 & y0 & Hd0 & Ht0).
  assert (Hu : ∀ j d y, at_pos g j d y → t ∈ terms y → j = i ∧ d = d0).
  { intros j d y Hy Hty. destruct (rep_once _ _ Hr j d y i d0 y0 t); [done|by exists db|by apply elem_of_ids..|done]. }
  apply (represents_write g g' m t x i d0); [done..| | |].
  - apply (at_pos_replace i d0 y0 g g' t); [done|by exists db|done..].
  - intros j d y Hy [_ ?]%elem_of_ids. by eapply Hu.
  - intros y (? & ? & ?). simplify_eq. by apply elem_of_ids.
Qed.

Lemma represents_add i db g g' m t x :
  group_ok g → represents g m → ids x = {[t]} → absent t g → contents g !! i = Some db →
  changes i (replace_document t x) g g' → represents g' (<[t := x]> m).
Proof.
  intros Hg Hr Hx Ha Hdb Hc. destruct (add_fresh x db) as (d0 & Hd0 & _ & Hadd).
  rewrite <-(replace_absent t) in Hadd.
  2: { specialize (Ha i db Hdb). unfold term_exists in Ha. by destruct (postlist db t). }
  apply (represents_write g g' m t x i d0); [done..| | |].
  - intros j d y. rewrite (at_pos_changes i _ g g' j d y Hg Hc). case_decide as Hj; subst; [|naive_solver].
    setoid_rewrite Hdb. split.
    + intros (? & [= <-] & Hy). rewrite Hadd in Hy. case_decide; [naive_solver|]. right. split; [naive_solver|]. by exists db.
    + intros H. exists db. split; [done|]. rewrite Hadd.
      destruct H as [(_ & -> & ->)|[Hne (? & ? & ?)]]; [by rewrite decide_True|]. rewrite decide_False by naive_solver. congruence.
  - intros j d y Hy [_ ?]%elem_of_ids. by destruct (absent_no_doc g t j d y Ha Hy).
  - intros y (? & ? & ?). simplify_eq.
Qed.

Lemma represents_append k g g' m t x :
  represents g m → ids x = {[t]} → absent t g →
  contents g' = contents g ++ replicate k empty_db ++ [replace_document t x empty_db] → represents g' (<[t := x]> m).
Proof.
  intros Hr Hx Ha Hc. destruct (add_fresh x (empty_db : database)) as (d0 & _ & _ & Hadd).
  rewrite <-(replace_absent t) in Hadd.
  2: { destruct (postlist empty_db t) as [|d l] eqn:E; [done|]. assert (Hd : d ∈ postlist empty_db t) by (rewrite E; set_solver).
       apply elem_of_postlist in Hd as (? & Hd & _). by rewrite empty_docs in Hd. }
  set (n := length (contents g)). apply (represents_write g g' m t x (n + k) d0); [done..| | |].
  - intros j d y. unfold at_pos. rewrite Hc. split.
    + intros (db & Hj & Hy). apply lookup_app_Some in Hj as [Hj|[Hge Hj]].
      { right. split; [|by exists db]. apply lookup_lt_Some in Hj. unfold n. lia. }
      apply lookup_app_Some in Hj as [[-> _]%lookup_replicate|[Hge2 Hj]]; [by rewrite empty_docs in Hy|].
      apply list_lookup_singleton_Some in Hj as [Hj <-]. rewrite length_replicate in *. rewrite Hadd in Hy.
      case_decide; [|by rewrite empty_docs in Hy]. left. split_and!; [unfold n; lia|naive_solver..].
    + intros [(-> & -> & ->)|[Hne (db & Hj & Hy)]].
      * exists (replace_document t x empty_db). rewrite !lookup_app_r by (rewrite ?length_replicate; unfold n; lia).
        rewrite length_replicate. replace (n + k - length (contents g) - k) with 0 by (unfold n; lia). split; [done|].
        rewrite Hadd. by rewrite decide_True.
      * exists db. by rewrite lookup_app_l by by eapply lookup_lt_Some.
  - intros j d y Hy [_ ?]%elem_of_ids. by destruct (absent_no_doc g t j d y Ha Hy).
  - intros y (db & Hdb & _). apply lookup_lt_Some in Hdb. unfold n in Hdb. lia.
Qed.

Lemma delete_doc_represents g m t :
  group_ok g → writable g → represents g m → is_id t →
  ∃ g', DbGroup_delete_doc t g = (g', Ok ()) ∧ group_ok g' ∧ writable g' ∧ represents g' (delete t m).
Proof.
  intros Hg Hw Hr Ht. destruct (delete_doc_ok g t) as (g' & H & Hg' & Hw' & Hcase); [done..|by intros ->|].
  exists g'. split_and!; [done..|]. destruct Hcase as [(i & db & Hdb & Hte & Hc)|[Ha Hk]].
  - apply (represents_delete g); [done|]. intros j d y. rewrite (at_pos_changes i _ g g' j d y Hg Hc).
    apply term_exists_spec in Hte as (d0 & y0 & Hd0 & Ht0). rewrite elem_of_ids. case_decide as Hj; subst.
    + setoid_rewrite delete_docs. unfold at_pos. setoid_rewrite Hdb. split.
      * intros (? & [= <-] & Hy). case_decide as Hin; [done|]. split; [by exists db|]. intros [_ Hty]. apply Hin, elem_of_postlist. eauto.
      * intros [(? & [= <-] & Hy) Hty]. exists db. split; [done|]. rewrite decide_False; [done|]. intros (? & ? & ?)%elem_of_postlist. naive_solver.
    + split; [|naive_solver]. intros Hy. split; [done|]. intros [_ Hty]. destruct (rep_once _ _ Hr j d y i d0 y0 t); [done|by exists db|by apply elem_of_ids..|done].
  - apply (represents_delete g); [done|]. intros i d y. unfold at_pos. rewrite (keeps_contents _ _ Hk) by done. split; [|naive_solver].
    intros Hy. split; [done|]. intros [_ ?]%elem_of_ids. by eapply (absent_no_doc g t i d y).
Qed.

(** Document [d] of fragment [i] in the combined database. *)
Lemma view_docs g d x : views g = contents g →
  get_document (group_view g) d = Some x ↔
    ∃ i d', d = group_docid (length (contents g)) i d' ∧ (0 < d')%N ∧ at_pos g i d' x.
Proof using XapianLaws0.
  intros Hv. unfold group_view, at_pos. change (handle_db g <$> group_db g) with (views g). rewrite Hv. split.
  - intros Hd. assert (Hpos : (0 < d)%N) by (by apply (docid_positive (combine (contents g))); rewrite Hd).
    rewrite combine_docs in Hd by done. apply bind_Some in Hd as (db & Hdb & Hx).
    exists (sub_index (length (contents g)) d), (sub_docid (length (contents g)) d). rewrite group_docid_sub; [|..|done].
    + split_and!; [done|auto with rp|by exists db].
    + apply lookup_lt_Some in Hdb. lia.
  - intros (i & d' & -> & Hd' & db & Hdb & Hx). assert (Hi := lookup_lt_Some _ _ _ Hdb).
    rewrite combine_docs by auto with rp. by rewrite sub_index_group, sub_docid_group, Hdb by done.
Qed.

Lemma get_document_represents g m t :
  group_ok g → is_open (control g) = true → fresh g → represents g m → is_id t →
  ∃ g', DbGroup_get_document t g = (g', Ok (m !! t)) ∧ group_ok g' ∧ represents g' m.
Proof.
  intros Hg Ho Hf Hr Ht. destruct (init_group_db_ok g) as (g' & H & Hro & _ & Hv); [done..|].
  assert (Hr' : represents g' m) by (eapply represents_same; [by apply Hro|done]).
  exists g'. split; [|split; [by apply Hro|done]].
  unfold DbGroup_get_document, mbind, M_bind, getM. rewrite H.
  destruct (postlist (group_view g') t) as [|d l] eqn:Ep.
  - destruct (m !! t) as [x|] eqn:Em; [exfalso|done].
    destruct (rep_docs _ _ Hr' t x Em) as (Hi & i & d & Hx). apply ids_singleton in Hi as (_ & Hi & _).
    assert (Hin : group_docid (length (contents g')) i d ∈ postlist (group_view g') t); [|rewrite Ep in Hin; set_solver].
    apply elem_of_postlist. exists x. split; [|done]. apply view_docs; [done|]. exists i, d. split_and!; [done| |done].
    destruct Hx as (db & _ & Hx). apply (docid_positive db). by rewrite Hx.
  - assert (Hin : d ∈ postlist (group_view g') t) by (rewrite Ep; set_solver).
    apply elem_of_postlist in Hin as (x & Hx & Htx). rewrite Hx.
    apply view_docs in Hx as (i & d' & _ & _ & Hx); [|done].
    destruct (rep_ids _ _ Hr' i d' x Hx) as (t' & Hi & Hm).
    assert (t ∈ ids x) as Hti by by apply elem_of_ids. rewrite Hi in Hti. assert (t = t') as -> by set_solver. by rewrite Hm.
Qed.

End group.

(** ** Adding documents, when no file operation fails *)

Section adding.
Context {document database : Type} `{!Xapian document database} `{!XapianLaws document database}.
Context `{!CommitsSucceed document database}.
Abbreviation DbFragment := (@DbFragment database).
Abbreviation DbGroup := (@DbGroup database).
Implicit Types f : DbFragment.
Implicit Types g : DbGroup.
Implicit Types db : database.
Implicit Types x doc : document.
Context (json_serialise : json → string) (io : io_step → bool).
Context (Hio : ∀ step, io step = true).

Lemma on_control_set_metadata g k v : writable g →
  on_control (DbFragment_set_metadata k v) g =
    (set_control (set_wrdb (set_metadata k v (wrdb (control g))) (pending (control g)) (control g)) (disk g) g, Ok ()).
Proof.
  intros Hw. unfold on_control, DbFragment_set_metadata, is_writable. by rewrite bool_decide_true.
Qed.

(** Storing the list changes the control database and the file that lists the
    fragments only. *)
Lemma store_fraglist_ok g : writable g →
  ∃ c m, store_fraglist json_serialise io g = (set_files m (dirs g) (set_control c (disk g) g), Ok ()) ∧
    fstate c = OPEN_FOR_WRITING ∧ fpath c = fpath (control g) ∧
    wrdb c = set_metadata "_next_fragnum" (json_serialise (JUInt (next_fragnum g)))
      (set_metadata "_frags" (json_serialise (fraglist_json (frags g))) (wrdb (control g))).
Proof.
  intros Hw. unfold store_fraglist. unfold mbind at 1, M_bind at 1, getM.
  do 2 (unfold mbind at 1, M_bind at 1; rewrite on_control_set_metadata by done).
  unfold io_do, mbind, M_bind. rewrite !Hio. eexists _, _. split; [reflexivity|done].
Qed.

Lemma control_path_ne g k : groupdir g +:+ "/control" ≠ frag_path (groupdir g) k.
Proof. unfold frag_path. by intros H%(inj (String.app _)). Qed.

(** A fragment appended with the next number. *)
Lemma group_ok_push g g' f db :
  group_ok g →
  frags g' = frags g ++ [f] → fstate f = OPEN_FOR_WRITING → wrdb f = empty_db →
  fpath f = frag_path (groupdir g) (next_fragnum g) →
  next_fragnum g' = (next_fragnum g + 1)%N → groupdir g' = groupdir g → group_db_valid g' = false →
  fpath (control g') = fpath (control g) →
  disk g' = <[fpath (control g) := db]> (<[fpath f := empty_db]> (disk g)) →
  group_ok g' ∧ contents g' = contents g ++ [empty_db].
Proof.
  intros Hg Hf Hs Hwr Hp Hn Hd Hv Hc Hdisk.
  assert (Hne : ∀ k, fpath (control g) ≠ frag_path (groupdir g) k).
  { intros k. rewrite (ok_control _ Hg). apply control_path_ne. }
  assert (Hlook : ∀ f2, f2 ∈ frags g → disk g' !! fpath f2 = disk g !! fpath f2).
  { intros f2 Hf2. destruct (ok_numbers _ Hg f2 Hf2) as (k & Hk & E). rewrite Hdisk, E.
    rewrite !lookup_insert_ne; [done| |apply Hne]. rewrite Hp. intros ?%frag_path_inj. lia. }
  split; [split|].
  - rewrite Hf. apply Forall_app. split; [|constructor; [unfold frag_ok; by rewrite Hs|done]].
    pose proof (ok_frags _ Hg) as Hall. rewrite Forall_forall in Hall |- *. intros f2 Hf2. specialize (Hall f2 Hf2).
    unfold frag_ok in *. by rewrite Hlook.
  - rewrite Hf, fmap_app. apply NoDup_app. split_and!; [apply Hg| |apply NoDup_singleton].
    intros p (f2 & -> & Hf2)%list_elem_of_fmap Hin. apply list_elem_of_singleton in Hin.
    destruct (ok_numbers _ Hg f2 Hf2) as (k & Hk & E). rewrite E, Hp in Hin. apply frag_path_inj in Hin. lia.
  - intros ?. congruence.
  - rewrite Hf, Hn, Hd. intros f2 [Hf2|Hf2%list_elem_of_singleton]%elem_of_app.
    + destruct (ok_numbers _ Hg f2 Hf2) as (k & Hk & E). exists k. split; [lia|done].
    + subst. exists (next_fragnum g). split; [lia|done].
  - rewrite Hn, Hd, Hdisk. intros k Hk. rewrite !lookup_insert_ne; [apply (ok_unused _ Hg); lia| |apply Hne].
    rewrite Hp. intros ?%frag_path_inj. lia.
  - rewrite Hc, Hd. apply Hg.
  - unfold contents. rewrite Hf, fmap_app. f_equal.
    + apply list_fmap_ext. intros j f2 Hj. unfold content. by rewrite Hlook by by eapply list_elem_of_lookup_2.
    + cbn. unfold content. by rewrite Hs, Hwr.
Qed.

(** The fragment just pushed is opened, which creates its database. *)
Lemma open_pushed g name path :
  disk g !! path = None →
  on_frag (length (frags g)) DbFragment_open_writable
    (set_frags (frags g ++ [new_DbFragment name path]) (disk g) g) =
  (set_frags (frags g ++ [set_fstate OPEN_FOR_WRITING (new_DbFragment name path)])
     (<[path := empty_db]> (disk g)) g, Ok ()).
Proof.
  intros Hp. unfold on_frag. cbn [frags set_frags]. rewrite list_lookup_middle by done.
  unfold DbFragment_open_writable, is_writable, new_DbFragment. cbn [fstate fpath disk set_frags].
  rewrite bool_decide_false, Hp by done. cbn.
  by rewrite insert_app_r_alt, Nat.sub_diag by done.
Qed.

(** What is stored about the fragments, and where the new one is. *)
Record frag_added g g' : Prop := {
  fa_frags : ∃ f, frags g' = frags g ++ [f] ∧ fname f = "frag" +:+ str_unsigned (next_fragnum g) ∧
    fpath f = groupdir g +:+ ("/" +:+ fname f) ∧ fstate f = OPEN_FOR_WRITING ∧ pending f = 0%N;
  fa_dir : groupdir g' = groupdir g;
  fa_path : fpath (control g') = fpath (control g);
  fa_control : wrdb (control g') = set_metadata "_next_fragnum" (json_serialise (JUInt (next_fragnum g + 1)))
    (set_metadata "_frags" (json_serialise (fraglist_json (frags g'))) (wrdb (control g)));
  fa_disk : disk g' = <[fpath (control g) := wrdb (control g')]> (<[frag_path (groupdir g) (next_fragnum g) := empty_db]> (disk g));
}.

Lemma add_frag_ok g :
  group_ok g → writable g → (next_fragnum g + 1 < 2 ^ 32)%N →
  ∃ g', add_frag json_serialise io g = (g', Ok ()) ∧ group_ok g' ∧ writable g' ∧
    contents g' = contents g ++ [empty_db] ∧ group_db_valid g' = false ∧ next_fragnum g' = (next_fragnum g + 1)%N ∧
    frag_added g g'.
Proof.
  intros Hg Hw Hn. set (name := "frag" +:+ str_unsigned (next_fragnum g)).
  set (path := groupdir g +:+ ("/" +:+ name)).
  assert (∃ l, invalidate_group_db g = (set_group_db l false g, Ok ())) as [l Ei].
  { unfold invalidate_group_db. destruct (group_db_valid g) eqn:E; [eauto|]. exists (group_db g). by destruct g; cbn in *; subst. }
  set (gn := set_next_fragnum (wrap32 (next_fragnum g + 1)) (set_group_db l false g)).
  set (f := set_fstate OPEN_FOR_WRITING (new_DbFragment name path)).
  set (go := set_frags (frags g ++ [f]) (<[path := empty_db]> (disk g)) gn).
  assert (Hopen : on_frag (length (frags gn)) DbFragment_open_writable
    (set_frags (frags gn ++ [new_DbFragment name path]) (disk gn) gn) = (go, Ok ())).
  { apply open_pushed, (ok_unused _ Hg). lia. }
  destruct (store_fraglist_ok go) as (c & m & Hst & Hcs & Hcp & Hcw); [exact Hw|].
  exists (set_control (set_wrdb (wrdb c) 0 c) (<[fpath c := wrdb c]> (disk go)) (set_files m (dirs go) (set_control c (disk go) go))). split.
  - unfold add_frag, mbind, M_bind. rewrite Ei. unfold getM, modifyM. cbn [next_fragnum set_group_db groupdir].
    fold name gn path. change (length (frags (set_group_db l false g))) with (length (frags gn)).
    change (groupdir gn +:+ ("/" +:+ name)) with path. rewrite Hopen, Hst.
    unfold on_control, DbFragment_commit, is_writable. cbn -[go wrdb_commit]. by rewrite bool_decide_true, wrdb_commit_eq.
  - match goal with |- group_ok ?g' ∧ _ => destruct (group_ok_push g g' f (wrdb c)) as [H1 H2] end; try done; cbn.
    + unfold wrap32. by rewrite N.mod_small.
    + by rewrite Hcp.
    + assert (Hwrap : wrap32 (next_fragnum g + 1) = (next_fragnum g + 1)%N).
      { unfold wrap32. by rewrite N.mod_small. }
      do 5 (split; [done|]). split; [by exists f|done..| |].
      * etrans; [exact Hcw|]. change (next_fragnum go) with (wrap32 (next_fragnum g + 1)). by rewrite Hwrap.
      * change (<[fpath c := wrdb c]> (<[path := empty_db]> (disk g)) = <[fpath (control g) := wrdb c]> (<[path := empty_db]> (disk g))).
        by rewrite Hcp.
Qed.

Lemma add_to_last_ok g doc t :
  group_ok g → writable g → (next_fragnum g + 1 < 2 ^ 32)%N → frags g ≠ [] → t ≠ "" →
  ∃ g', add_to_last json_serialise io doc t g = (g', Ok ()) ∧ group_ok g' ∧ writable g' ∧
    appended (replace_document t doc) g g'.
Proof.
  intros Hg Hw Hn Hne Ht. assert (Hlen : length (frags g) ≠ 0) by by destruct (frags g).
  destruct (lookup_lt_is_Some_2 (frags g) (length (frags g) - 1)) as [f Hf]; [lia|].
  destruct (get_db_ok g (length (frags g) - 1) f) as (g1 & f1 & H1 & Hk & _); [done..|].
  assert (Hw1 : writable g1) by (unfold writable; by rewrite (keeps_control _ _ Hk)).
  unfold add_to_last. unfold mbind at 1, M_bind at 1, getM. unfold mbind at 1, M_bind at 1. rewrite H1.
  unfold mbind at 1, M_bind at 1. case_decide.
  - destruct (add_frag_ok g1) as (g2 & H2 & Hg2 & Hw2 & Hc2 & Hv2 & _); [by apply Hk|done|by rewrite (keeps_next _ _ Hk)|].
    rewrite H2. unfold mbind at 1, M_bind at 1.
    assert (Hl2 : length (frags g2) = S (length (contents g1))).
    { rewrite <-contents_length, Hc2, length_app. cbn. lia. }
    destruct (write_frag_ok (DbFragment_add_doc doc t) g2 (length (frags g2) - 1) (replace_document t doc)) as (g3 & H3 & Hch);
      [done|lia|by apply add_doc_writes|]. exists g3. rewrite H3. split_and!; [done|by apply Hch|unfold writable; by rewrite (ch_control _ _ _ _ Hch)|].
    right. rewrite (ch_valid _ _ _ _ Hch). split; [done|]. exists 0. cbn.
    rewrite (ch_contents _ _ _ _ Hch), Hc2, Hl2 by done. replace (S _ - 1) with (length (contents g1)) by lia.
    rewrite alter_last. by rewrite (keeps_contents _ _ Hk).
  - unfold mret, M_ret. unfold mbind at 1, M_bind at 1.
    destruct (write_frag_ok (DbFragment_add_doc doc t) g1 (length (frags g1) - 1) (replace_document t doc)) as (g3 & H3 & Hch);
      [by apply Hk|rewrite (keeps_length _ _ Hk); lia|by apply add_doc_writes|].
    exists g3. rewrite H3. split_and!; [done|apply Hch; by apply Hk|unfold writable; by rewrite (ch_control _ _ _ _ Hch)|].
    left. split; [done|]. eapply keeps_changes; [done|]. by rewrite <-(keeps_length _ _ Hk).
Qed.

(** The part of [add_doc] after the first fragment exists. *)
Lemma place_doc_ok g doc t :
  group_ok g → writable g → (next_fragnum g + 1 < 2 ^ 32)%N → frags g ≠ [] → t ≠ "" →
  ∃ g', (found ← (if decide (t = "") then mret None else find_frag t (length (frags g)));
         match found with
         | Some i => on_frag i DbFragment_open_writable ;; on_frag i (DbFragment_add_doc doc t)
         | None => add_to_last json_serialise io doc t
         end) g = (g', Ok ()) ∧ group_ok g' ∧ writable g' ∧
    ((∃ i db, contents g !! i = Some db ∧ term_exists db t = true ∧ changes i (replace_document t doc) g g') ∨
     (absent t g ∧ appended (replace_document t doc) g g')).
Proof.
  intros Hg Hw Hn Hf Ht. rewrite decide_False by done.
  destruct (find_frag_absent g t Hg) as (g1 & Hk & [(i & db & H1 & Hdb & Ht1)|[H1 Hab]]);
    unfold mbind at 1, M_bind at 1; rewrite H1.
  - destruct (write_frag_ok (DbFragment_add_doc doc t) g1 i (replace_document t doc)) as (g2 & H2 & Hch);
      [by apply Hk| |by apply add_doc_writes|].
    { rewrite (keeps_length _ _ Hk), <-contents_length. by eapply lookup_lt_Some. }
    exists g2. split_and!; [done|by apply Hch, Hk| |].
    + unfold writable. by rewrite (ch_control _ _ _ _ Hch), (keeps_control _ _ Hk).
    + left. exists i, db. split_and!; [done..|by eapply keeps_changes].
  - destruct (add_to_last_ok g1 doc t) as (g2 & H2 & Hg2 & Hw2 & Hap); [by apply Hk| | | |done|].
    + unfold writable. by rewrite (keeps_control _ _ Hk).
    + by rewrite (keeps_next _ _ Hk).
    + intros E. apply Hf, nil_length_inv. by rewrite <-(keeps_length _ _ Hk), E.
    + exists g2. split_and!; [done..|]. right. split; [done|]. unfold appended in *.
      rewrite <-(keeps_length _ _ Hk), <-(keeps_contents _ _ Hk) by done.
      destruct Hap as [[_ Hch]|]; [left|by right]. split; [done|by eapply keeps_changes].
Qed.

Lemma add_doc_ok g doc t :
  group_ok g → writable g → (next_fragnum g + 2 < 2 ^ 32)%N → t ≠ "" →
  ∃ g', DbGroup_add_doc json_serialise io doc t g = (g', Ok ()) ∧ group_ok g' ∧ writable g' ∧
    ((∃ i db, contents g !! i = Some db ∧ term_exists db t = true ∧ changes i (replace_document t doc) g g') ∨
     (absent t g ∧ appended (replace_document t doc) g g')).
Proof.
  intros Hg Hw Hn Ht. unfold DbGroup_add_doc, is_writable. rewrite bool_decide_true by done. cbn [negb].
  unfold mbind at 1, M_bind at 1. case_decide as Hf.
  2: { apply place_doc_ok; try done. lia. }
  destruct (add_frag_ok g) as (g1 & H1 & Hg1 & Hw1 & Hc1 & Hv1 & Hn1 & _); [done..|lia|]. rewrite H1.
  assert (Hc : contents g = []) by (unfold contents; by rewrite Hf). rewrite Hc in Hc1. cbn in Hc1.
  assert (Hl1 : length (frags g1) = 1) by by rewrite <-contents_length, Hc1.
  assert (Hab : absent t g1).
  { intros i db Hi. rewrite Hc1 in Hi. apply list_lookup_singleton_Some in Hi as [_ <-].
    apply term_exists_false. intros d x Hx. by rewrite empty_docs in Hx. }
  destruct (place_doc_ok g1 doc t) as (g2 & H2 & Hg2 & Hw2 & Hcase); [done|done|rewrite Hn1; lia|by intros E; rewrite E in Hl1|done|].
  exists g2. split_and!; [exact H2|done..|]. right. split; [intros i db; by rewrite Hc|]. right. rewrite Hc. cbn.
  destruct Hcase as [(i & db & Hi & Ht1 & _)|[_ [[_ Hch]|[Hv2 [k Hk]]]]].
  - by rewrite (Hab i db Hi) in Ht1.
  - split; [by rewrite (ch_valid _ _ _ _ Hch)|]. exists 0. rewrite (ch_contents _ _ _ _ Hch), Hc1, Hl1 by done. done.
  - split; [done|]. exists (S k). by rewrite Hk, Hc1.
Qed.

Lemma add_doc_represents g m t x :
  group_ok g → writable g → (next_fragnum g + 2 < 2 ^ 32)%N → represents g m → ids x = {[t]} →
  ∃ g', DbGroup_add_doc json_serialise io x t g = (g', Ok ()) ∧ group_ok g' ∧ writable g' ∧ represents g' (<[t := x]> m).
Proof.
  intros Hg Hw Hn Hr Hx. destruct (ids_singleton t x Hx) as (_ & _ & Ht).
  destruct (add_doc_ok g x t) as (g' & H & Hg' & Hw' & Hcase); [done..|]. exists g'. split_and!; [done..|].
  destruct Hcase as [(i & db & Hdb & Hte & Hc)|[Ha [[Hne Hc]|[_ [k Hk]]]]].
  - by apply (represents_replace i db g).
  - destruct (lookup_lt_is_Some_2 (contents g) (length (frags g) - 1)) as [db Hdb].
    { rewrite contents_length. destruct (frags g); [done|cbn; lia]. }
    by apply (represents_add (length (frags g) - 1) db g).
  - by apply (represents_append k g).
Qed.

End adding.

(** ** Properties *)

(** C8: a group of databases open for writing, of documents with one identifier each,
    behaves as one map from the identifiers to the documents, however the documents are spread over fragments and the
    fragments are open: adding a document replaces the one with its identifier or adds it
    (files can be written, and fewer than 2^32 fragments have been made), deleting removes
    it; and as long as the combined database is fresh - it is not yet built, or shows all
    the documents - looking up finds it.  Fragments are created as needed and no other
    document changes.  Commits, which the library also makes of itself, are taken to
    succeed.  (A combined database built before a fragment was opened for writing is not
    fresh any more: [second_group_undoes_first] shows what comes of it.) *)
Theorem group_refines_map {document database} `{!Xapian document database} `{!XapianLaws document database}
    `{!CommitsSucceed document database}
    json_serialise io (g : DbGroup) (m : gmap string document) t x
    (Hg : group_ok g) (Hw : writable g) (Hm : represents g m) (Hx : ids x = {[t]}) :
  ((∀ step, io step = true) → (next_fragnum g + 2 < 2 ^ 32)%N →
   ∃ g', DbGroup_add_doc json_serialise io x t g = (g', Ok ()) ∧
     group_ok g' ∧ writable g' ∧ represents g' (<[t := x]> m)) ∧
  (∃ g', DbGroup_delete_doc t g = (g', Ok ()) ∧ group_ok g' ∧ writable g' ∧ represents g' (delete t m)) ∧
  (fresh g → ∃ g', DbGroup_get_document t g = (g', Ok (m !! t)) ∧ group_ok g' ∧ represents g' m).
Proof.
  destruct (ids_singleton t x Hx) as (Ht & _ & _). split_and!.
  - intros. by apply add_doc_represents.
  - by apply delete_doc_represents.
  - intros. apply get_document_represents; try done. unfold is_open. by rewrite Hw.
Qed.

(** A new group, opened for writing. *)
Definition empty_group : @DbGroup refdb :=
  (DbGroup_open_writable (λ _, Ok JNull) (λ _, "") (λ _, true) (new_DbGroup "g" ∅ ∅ ∅)).1.

Lemma empty_group_ok : group_ok empty_group ∧ writable empty_group ∧ represents empty_group ∅ ∧ frags empty_group = [].
Proof.
  assert (Hf : frags empty_group = []) by reflexivity.
  assert (Hd : disk empty_group = {["g/control" := mkRefdb ∅ ∅]}) by (vm_compute; reflexivity).
  split_and!; [split|reflexivity|split|done].
  - by rewrite Hf.
  - rewrite Hf. constructor.
  - done.
  - rewrite Hf. by intros f ?%elem_of_nil.
  - intros k _. rewrite Hd. apply lookup_singleton_ne. apply (control_path_ne empty_group k).
  - reflexivity.
  - intros i d x (db & Hdb & _). unfold contents in Hdb. by rewrite Hf in Hdb.
  - done.
  - intros i d x i' d' x' t (db & Hdb & _). unfold contents in Hdb. by rewrite Hf in Hdb.
Qed.

Definition doc1 : refdoc := mkRefdoc {[sing (chr 9) +:+ "a"; "Xb"]} "data".

Lemma group_refines_map_witness :
  let t := sing (chr 9) +:+ "a" in
  (∃ g', DbGroup_add_doc (λ _, "") (λ _, true) doc1 t empty_group = (g', Ok ()) ∧
     group_ok g' ∧ writable g' ∧ represents g' {[t := doc1]}) ∧
  (∃ g', DbGroup_get_document t empty_group = (g', Ok None) ∧ group_ok g' ∧ represents g' ∅).
Proof.
  intros t. destruct empty_group_ok as (H1 & H2 & H3 & _).
  destruct (group_refines_map (λ _, "") (λ _, true) empty_group ∅ t doc1 H1 H2 H3) as (Ha & _ & Hg).
  - vm_compute. reflexivity.
  - split; [apply Ha; [reflexivity|vm_compute; reflexivity]|]. apply Hg. intros ?. reflexivity.
Defined.
