(* ===== verification/Restart.v ===== *)
(** * Restarts

    src/dbgroup/dbgroup.cc: what a group of databases holds after its process ended, at
    any moment, and the group was opened again.  Only what was committed is on the disk,
    by a commit of the program or by one that the library makes of itself once enough
    documents have changed; the list of fragments is committed as soon as a fragment is
    added. *)

From stdpp Require Import pretty.
From S2P Require Import Prelude Json TextUtils XapianDb RefJson DbGroup DbGroupThms.

Section restart.
Context {document database : Type} `{XD : !Xapian document database} `{XL : !XapianLaws document database}.
Context `{CSu : !CommitsSucceed document database}.
Context (json_serialise : json → string) (json_unserialise : string → res json) (styled : json → string).
Context (io : io_step → bool).
Implicit Types g : @DbGroup database.

(** ** Sequences of operations *)

Inductive group_op := AddDoc (t : string) (x : document) | DeleteDoc (t : string) | Sync | Restart.

(** A new object for the group, on the same disk. *)
Definition restarted (g : @DbGroup database) : @DbGroup database := new_DbGroup (groupdir g) (disk g) (files g) (dirs g).

Definition run_op (o : group_op) : M DbGroup () :=
  match o with
  | AddDoc t x => DbGroup_add_doc json_serialise io x t
  | DeleteDoc t => DbGroup_delete_doc t
  | Sync => DbGroup_sync
  | Restart => modifyM restarted ;; DbGroup_open_writable json_unserialise styled io
  end.

(** The documents that are there, and those that were there when [sync] was last called. *)
Definition group_spec (o : group_op) (s : gmap string document * gmap string document) :=
  match o with
  | AddDoc t x => (<[t := x]> s.1, s.2)
  | DeleteDoc t => (delete t s.1, s.2)
  | Sync => (s.1, s.1)
  | Restart => (s.2, s.2)
  end.

Definition op_ok (o : group_op) : Prop :=
  match o with AddDoc t x => ids x = {[t]} | DeleteDoc t => is_id t | _ => True end.

(** ** What is on the disk *)

(** The database at a path. *)
Definition at_path (g : @DbGroup database) (p : string) : database := default empty_db (disk g !! p).

(** No fragment has more than [n] changed documents since its last commit. *)
Definition calm (g : @DbGroup database) (n : N) : Prop :=
  ∀ f, f ∈ frags g → fstate f = OPEN_FOR_WRITING → (pending f ≤ n)%N.

(** Operations that leave the list of fragments alone, change at most [a] documents, and
    so, as long as the library need not commit of itself, nothing that is on the disk. *)
Record moves (a : N) g g' : Prop := {
  mv_names : (λ f, (fname f, fpath f)) <$> frags g' = (λ f, (fname f, fpath f)) <$> frags g;
  mv_control : control g' = control g;
  mv_next : next_fragnum g' = next_fragnum g;
  mv_dir : groupdir g' = groupdir g;
  mv_there : ∀ p, is_Some (disk g !! p) → is_Some (disk g' !! p);
  mv_other : ∀ p, p ∉ fpath <$> frags g → at_path g' p = at_path g p;
  mv_calm n : calm g n → calm g' (n + a);
  mv_disk n : calm g n → (n + a < flush_threshold)%N → ∀ p, at_path g' p = at_path g p;
}.

Lemma moves_refl g : moves 0 g g.
Proof. split; try done. intros n. by rewrite N.add_0_r. Qed.

Lemma moves_paths a g g' : moves a g g' → fname <$> frags g' = fname <$> frags g ∧ fpath <$> frags g' = fpath <$> frags g.
Proof.
  intros [H _ _ _ _ _ _ _].
  assert (H1 : ∀ g : @DbGroup database, fname <$> frags g = fst <$> ((λ f, (fname f, fpath f)) <$> frags g)) by (intros; by rewrite <-list_fmap_compose).
  assert (H2 : ∀ g : @DbGroup database, fpath <$> frags g = snd <$> ((λ f, (fname f, fpath f)) <$> frags g)) by (intros; by rewrite <-list_fmap_compose).
  by rewrite !H1, !H2, H.
Qed.

Lemma moves_trans a b g1 g2 g3 : moves a g1 g2 → moves b g2 g3 → moves (a + b) g1 g3.
Proof.
  intros H1 H2. pose proof (moves_paths _ _ _ H1) as [_ Hp]. destruct H1, H2. split; try congruence; auto.
  - intros p Hin. rewrite mv_other1, mv_other0; [done..|by rewrite Hp].
  - intros n Hn. rewrite N.add_assoc. auto.
  - intros n Hn Ht p. rewrite (mv_disk1 (n + a)%N), (mv_disk0 n); auto; lia.
Qed.

Definition stays {A} (m : M DbGroup A) : Prop := ∀ g, moves 0 g (m g).1.

Lemma stays_bind {A B} (m : M DbGroup A) (f : A → M DbGroup B) : stays m → (∀ a, stays (f a)) → stays (m ≫= f).
Proof.
  intros Hm Hf g. unfold mbind, M_bind. specialize (Hm g). destruct (m g) as [g1 [a| |]]; cbn in *; [|done..].
  apply (moves_trans 0 0 _ g1); [exact Hm|]. apply Hf.
Qed.
Lemma stays_ret {A} (a : A) : stays (mret a).
Proof. intros g. apply moves_refl. Qed.

(** An operation on one fragment. *)
Lemma moves_on_frag {A} (op : fragM A) a i g :
  (∀ f, frags g !! i = Some f → let '((f', d'), _) := op (f, disk g) in
     fname f' = fname f ∧ fpath f' = fpath f ∧ (∀ p, is_Some (disk g !! p) → is_Some (d' !! p)) ∧
     (∀ p, p ≠ fpath f → d' !! p = disk g !! p) ∧
     ∀ n, (fstate f = OPEN_FOR_WRITING → (pending f ≤ n)%N) → (fstate f' = OPEN_FOR_WRITING → (pending f' ≤ n + a)%N) ∧
       ((n + a < flush_threshold)%N → default empty_db (d' !! fpath f) = default empty_db (disk g !! fpath f))) →
  moves a g (on_frag i op g).1.
Proof.
  intros Hop. unfold on_frag. destruct (frags g !! i) as [f|] eqn:Hf.
  2: { pose proof (moves_refl g) as []. split; try done. intros n Hn f Hin Hw. specialize (Hn f Hin Hw). lia. }
  assert (Hin : f ∈ frags g) by by eapply list_elem_of_lookup_2. specialize (Hop f eq_refl).
  destruct (op (f, disk g)) as [[f' d'] r]. destruct Hop as (Hn & Hp & Hs & Ho & Hc). cbn. split; try done; cbn.
  - rewrite list_fmap_insert. apply list_insert_id. by rewrite list_lookup_fmap, Hf, Hn, Hp.
  - intros p Hpp. unfold at_path. cbn. rewrite Ho; [done|]. intros ->. apply Hpp. by apply list_elem_of_fmap_2.
  - intros n Hcalm f2 [j [(_ & <- & _)|[_ Hj]]%list_lookup_insert_Some]%list_elem_of_lookup Hw.
    + by apply (Hc n (Hcalm f Hin)).
    + specialize (Hcalm f2 (list_elem_of_lookup_2 _ _ _ Hj) Hw). lia.
  - intros n Hcalm Ht p. unfold at_path. cbn. destruct (decide (p = fpath f)) as [->|Hne]; [|by rewrite Ho].
    by apply (Hc n (Hcalm f Hin)).
Qed.

Lemma stays_get_db i : stays (on_frag i DbFragment_get_db).
Proof.
  intros g. apply moves_on_frag. intros f _. unfold DbFragment_get_db, mbind, M_bind, getM, mret, M_ret. cbn.
  destruct (fstate f) eqn:Es; cbn.
  2,3: split_and!; [done..|]; intros n Hn; rewrite N.add_0_r; split; [by rewrite ?Es|done].
  unfold DbFragment_open_readonly. rewrite Es. unfold wrdb_close, is_writable. rewrite Es, bool_decide_false by done.
  destruct (disk g !! fpath f) eqn:Ed; cbn; (split_and!; [done..|]); intros n _; by rewrite Ed.
Qed.

Lemma stays_find_frag t n : stays (find_frag t n).
Proof.
  induction n as [|n IH]; cbn; [apply stays_ret|]. apply stays_bind; [apply stays_get_db|]. intros db.
  destruct (term_exists db t); [apply stays_ret|done].
Qed.

(** *** Changing a document *)

(** At most one document of each fragment has the term. *)
Definition single (t : string) (g : @DbGroup database) : Prop := ∀ db, db ∈ contents g → length (postlist db t) ≤ 1.

(** An operation of a fragment that changes the documents of a term. *)
Definition changes_docs (t : string) (op : fragM ()) : Prop :=
  ∀ f d, fstate f = OPEN_FOR_WRITING → ∃ n db, op (f, d) = wrdb_change n db (f, d) ∧ (n ≤ N.max 1 (documents_of t f))%N.

Lemma change_one i op t g : group_ok g → single t g → changes_docs t op →
  moves 1 g ((on_frag i DbFragment_open_writable ;; on_frag i op) g).1.
Proof.
  intros Hg Ht Hop.
  assert (Hopen : moves 0 g (on_frag i DbFragment_open_writable g).1).
  { apply moves_on_frag. intros f _. unfold DbFragment_open_writable. destruct (is_writable f).
    - split_and!; [done..|]. intros n Hn. by rewrite N.add_0_r.
    - split_and!; [done..| | |].
      + intros p. destruct (decide (p = fpath f)) as [->|]; [by rewrite lookup_insert_eq|by rewrite lookup_insert_ne].
      + intros p Hp. by rewrite lookup_insert_ne.
      + intros n _. split; [cbn; lia|]. intros _. by rewrite lookup_insert_eq. }
  destruct (frags g !! i) as [f|] eqn:Hf.
  2: { unfold mbind, M_bind, on_frag. rewrite Hf. pose proof (moves_refl g) as []. split; try done.
    intros n Hn f Hin Hw. specialize (Hn f Hin Hw). lia. }
  destruct (open_writable_ok g i f Hg Hf) as (g1 & f1 & E1 & Hk & Hf1 & Hp1 & Hw1 & Hd1).
  unfold mbind, M_bind. rewrite E1 in Hopen |- *. cbn [fst] in Hopen. apply (moves_trans 0 1 _ g1); [done|].
  unfold on_frag. rewrite Hf1. destruct (Hop f1 (disk g1) Hw1) as (n & db & -> & Hn).
  assert (Hone : (n ≤ 1)%N).
  { etrans; [exact Hn|]. unfold documents_of. rewrite Hd1. 
    assert (length (postlist (content (disk g) f) t) ≤ 1) by (apply Ht, list_elem_of_fmap_2; by eapply list_elem_of_lookup_2). lia. }
  pose proof (moves_on_frag (λ s, wrdb_change n db s) 1 i g1) as Hm. unfold on_frag in Hm. rewrite Hf1 in Hm. apply Hm.
  intros f2 Hf2. assert (f2 = f1) as -> by congruence. rewrite wrdb_change_eq.
  destruct (N.leb_spec flush_threshold (pending f1 + n)) as [Hle|Hlt].
  - split_and!; [done..| | |].
    + intros p. destruct (decide (p = fpath f1)) as [->|]; [by rewrite lookup_insert_eq|by rewrite lookup_insert_ne].
    + intros p Hp. by rewrite lookup_insert_ne.
    + intros k Hk2. specialize (Hk2 Hw1). split; [cbn; lia|]. intros Hlt. lia.
  - split_and!; [done..|]. intros k Hk2. specialize (Hk2 Hw1). split; [cbn; lia|done].
Qed.

Lemma add_changes t x : t ≠ "" → changes_docs t (DbFragment_add_doc x t).
Proof.
  intros Ht f d Hw. unfold DbFragment_add_doc, is_writable. rewrite bool_decide_true by done. cbn [negb].
  rewrite decide_False by done. eexists _, _. by split.
Qed.

Lemma delete_changes t : changes_docs t (DbFragment_delete_doc t).
Proof.
  intros f d Hw. unfold DbFragment_delete_doc, is_writable. rewrite bool_decide_true by done. cbn [negb].
  eexists _, _. split; [done|]. lia.
Qed.

Lemma represents_single g m t : represents g m → is_id t → single t g.
Proof.
  intros [H1 H2 H3] Ht db [i Hi]%list_elem_of_lookup.
  destruct (postlist db t) as [|d1 [|d2 l]] eqn:E; cbn; [lia..|]. exfalso.
  assert (Hin : ∀ d, d ∈ postlist db t → ∃ x, at_pos g i d x ∧ t ∈ ids x).
  { intros d (x & Hx & Htx)%elem_of_postlist. exists x. split; [by exists db|]. by apply elem_of_ids. }
  pose proof (postlist_sorted db t) as Hs. rewrite E in Hs, Hin.
  destruct (Hin d1) as (x1 & Hx1 & Ht1); [set_solver|]. destruct (Hin d2) as (x2 & Hx2 & Ht2); [set_solver|].
  assert (d1 = d2) as -> by (by destruct (H3 i d1 x1 i d2 x2 t Hx1 Hx2 Ht1 Ht2)).
  apply StronglySorted_inv in Hs as [_ Hs]. apply Forall_cons in Hs as [Hs _]. lia.
Qed.

(** ** What a restart finds *)

Lemma clean_str_unsigned n : clean (str_unsigned n).
Proof.
  unfold str_unsigned, pretty, pretty_N. case_decide as Hz; [done|]. clear Hz.
  assert (H0 : clean "") by done. revert H0. generalize "". induction (N.lt_wf_0 n) as [n _ IH]. intros s Hs.
  destruct (decide (n = 0)%N) as [->|Hn]; [by rewrite pretty_N_go_0|]. rewrite pretty_N_go_step by lia.
  apply IH; [by apply N.div_lt; lia|]. unfold clean. cbn [c_str].
  assert (Hc : (ord (pretty_N_char (n `mod` 10)) =? 0)%N = false) by (unfold pretty_N_char; by repeat case_match).
  rewrite Hc. by rewrite Hs.
Qed.

(** The group as it is on the disk. *)
Definition disk_group (g : @DbGroup database) : @DbGroup database := set_frags (set_fstate CLOSED <$> frags g) (disk g) g.

(** What is stored about the fragments. *)
Definition lists (c : database) (g : @DbGroup database) : Prop :=
  get_metadata c "_frags" = (if decide (frags g = []) then "" else json_serialise (fraglist_json (frags g))) ∧
  get_metadata c "_next_fragnum" = (if decide (frags g = []) then "" else json_serialise (JUInt (next_fragnum g))).

(** The stored list of fragments is that of the group.  Since the last commit [n] documents
    have changed at most; as long as these are too few for the library to commit of itself,
    the stored fragments hold [m]. *)
Record restartable g (m : gmap string document) (n : N) : Prop := {
  rs_names : Forall (λ p, p.2 = groupdir g +:+ ("/" +:+ p.1) ∧ clean p.1 ∧ is_Some (disk g !! p.2)) ((λ f, (fname f, fpath f)) <$> frags g);
  rs_there : is_Some (disk g !! fpath (control g));
  rs_stored : lists (at_path g (fpath (control g))) g;
  rs_control : lists (wrdb (control g)) g;
  rs_zero : frags g = [] → next_fragnum g = 0%N;
  rs_calm : calm g n;
  rs_docs : (n < flush_threshold)%N → represents (disk_group g) m;
}.

Lemma represents_at g g' m : (∀ i d x, at_pos g' i d x ↔ at_pos g i d x) → represents g m → represents g' m.
Proof. intros Hp [H1 H2 H3]. split; setoid_rewrite Hp; auto. Qed.

Lemma disk_contents g : contents (disk_group g) = at_path g <$> (fpath <$> frags g).
Proof. unfold contents, disk_group. cbn. by rewrite <-!list_fmap_compose. Qed.

Lemma fraglist_names (l l' : list (@DbFragment database)) : fname <$> l = fname <$> l' → fraglist_json l = fraglist_json l'.
Proof.
  intros H. unfold fraglist_json. rewrite !(foldl_json_append (λ f, json_set (JObj []) "name" (jstr (fname f)))).
  change (λ f, json_set (JObj []) "name" (jstr (fname f))) with ((λ n, json_set (JObj []) "name" (jstr n)) ∘ @fname database).
  by rewrite !list_fmap_compose, H.
Qed.

(** Operations that keep the group restartable, with at most [a] more changed documents and
    [b] more fragments. *)
Definition keeps_stored (a b : N) g g' : Prop :=
  (∀ m n, restartable g m n → restartable g' m (n + a)) ∧ (next_fragnum g' ≤ next_fragnum g + b)%N.

Lemma keeps_stored_trans a b a' b' g1 g2 g3 : keeps_stored a b g1 g2 → keeps_stored a' b' g2 g3 → keeps_stored (a + a') (b + b') g1 g3.
Proof. intros [H1 H2] [H3 H4]. split; [|lia]. intros m n Hr. rewrite N.add_assoc. auto. Qed.

Lemma control_not_frag g : group_ok g → fpath (control g) ∉ fpath <$> frags g.
Proof.
  intros Hg (f & E & Hf)%list_elem_of_fmap. destruct (ok_numbers _ Hg f Hf) as (k & _ & Ek). rewrite (ok_control _ Hg), Ek in E.
  by apply control_path_ne in E.
Qed.

Lemma moves_lists c a g g' : moves a g g' → lists c g → lists c g'.
Proof.
  intros Hs [H1 H2]. destruct (moves_paths _ _ _ Hs) as [Hn _]. unfold lists. rewrite (fraglist_names _ _ Hn), (mv_next _ _ _ Hs).
  assert (He : frags g' = [] ↔ frags g = []).
  { apply (f_equal length) in Hn. rewrite !length_fmap in Hn. by rewrite <-!length_zero_iff_nil, Hn. }
  by rewrite (decide_ext _ _ _ _ He), (decide_ext _ _ _ _ He).
Qed.

Lemma moves_stored a g g' : group_ok g → moves a g g' → keeps_stored a 0 g g'.
Proof.
  intros Hg Hs. pose proof Hs as [S1 S2 S3 S4 S5 S6 S7 S8]. split; [|rewrite S3; lia]. intros m n [H1 H2 H3 H4 H5 H6 H7]. split.
  - rewrite S1, S4. eapply Forall_impl; [exact H1|]. intros p (? & ? & ?). auto.
  - rewrite S2. auto.
  - rewrite S2, S6 by by apply control_not_frag. by apply (moves_lists _ a g).
  - rewrite S2. by apply (moves_lists _ a g).
  - intros E. rewrite S3. apply H5. destruct (moves_paths _ _ _ Hs) as [Hn _]. rewrite E in Hn. by destruct (frags g).
  - by apply S7.
  - intros Ht. eapply represents_same; [|apply H7; lia]. rewrite !disk_contents. destruct (moves_paths _ _ _ Hs) as [_ ->].
    apply list_fmap_ext. intros. by apply (S8 n).
Qed.

(** A new fragment is empty. *)
Lemma added_stored g g' : group_ok g → frag_added json_serialise g g' → next_fragnum g' = (next_fragnum g + 1)%N →
  keeps_stored 0 1 g g'.
Proof.
  intros Hg [(f & Hf & Hfn & Hfp & _ & Hpend) Hd Hc Hw Hdisk] Hn. split; [|lia]. intros m n [H1 H2 H3 H4 H5 Hcalm H6].
  assert (Hpath : fpath f = frag_path (groupdir g) (next_fragnum g)) by by rewrite Hfp, Hfn.
  assert (Hcne : ∀ k, fpath (control g) ≠ frag_path (groupdir g) k) by (intros k; rewrite (ok_control _ Hg); apply control_path_ne).
  assert (Hold : ∀ p, p ∈ fpath <$> frags g → disk g' !! p = disk g !! p).
  { intros p (f2 & -> & Hf2)%list_elem_of_fmap. destruct (ok_numbers _ Hg f2 Hf2) as (k & Hk & E). rewrite Hdisk, E.
    rewrite !lookup_insert_ne; [done| |apply Hcne]. intros ?%frag_path_inj. lia. }
  assert (Hnew : disk g' !! fpath f = Some empty_db).
  { rewrite Hdisk, Hpath. rewrite lookup_insert_ne by apply Hcne. by rewrite lookup_insert_eq. }
  assert (Hctl : disk g' !! fpath (control g') = Some (wrdb (control g'))) by by rewrite Hdisk, Hc, lookup_insert_eq.
  assert (Hne : frags g' ≠ []) by (rewrite Hf; by destruct (frags g)).
  assert (Hlist : lists (wrdb (control g')) g').
  { unfold lists. rewrite !decide_False, Hw, !get_set_metadata, Hn by done. by rewrite decide_False, !decide_True. }
  split; try done.
  - rewrite Hf, fmap_app, Hd. apply Forall_app. split.
    + rewrite Forall_forall in H1 |- *. intros p Hp. destruct (H1 p Hp) as (Hpp & Hpc & Hps). split_and!; [done..|].
      rewrite Hold; [done|]. apply list_elem_of_fmap in Hp as (f2 & -> & Hf2). cbn. by apply list_elem_of_fmap_2.
    + constructor; [|done]. cbn. split_and!; [done| |by rewrite Hnew]. rewrite Hfn. apply clean_app; [done|apply clean_str_unsigned].
  - unfold at_path. by rewrite Hctl.
  - intros f2 Hin Hw2. rewrite N.add_0_r. rewrite Hf in Hin. apply elem_of_app in Hin as [Hin|Hin%list_elem_of_singleton].
    + by apply Hcalm.
    + subst. rewrite Hpend. lia.
  - intros Ht. eapply represents_at; [|apply H6; lia]. intros i d x. unfold at_pos. rewrite !disk_contents, Hf, fmap_app, fmap_app.
    assert (E : at_path g' <$> (fpath <$> frags g) = at_path g <$> (fpath <$> frags g)).
    { apply list_fmap_ext. intros j p Hp. unfold at_path. rewrite Hold; [done|by eapply list_elem_of_lookup_2]. }
    rewrite E. cbn. split.
    + intros (db & [Hdb|[_ Hdb]]%lookup_app_Some & Hx); [by exists db|]. apply list_lookup_singleton_Some in Hdb as [_ <-].
      unfold at_path in Hx. rewrite Hnew in Hx. cbn in Hx. by rewrite empty_docs in Hx.
    + intros (db & Hdb & Hx). exists db. split; [by apply lookup_app_l_Some|done].
Qed.

(** ** Adding documents *)

Context (Hio : ∀ step, io step = true).

Lemma moves_run {A} (m : M DbGroup A) g g' r : stays m → m g = (g', r) → moves 0 g g'.
Proof. intros Hm E. specialize (Hm g). by rewrite E in Hm. Qed.

Lemma single_keeps t g g' : group_ok g → keeps g g' → single t g → single t g'.
Proof. intros Hg Hk Ht. unfold single. by rewrite (keeps_contents _ _ Hk). Qed.

Lemma single_empty t g g' : contents g' = contents g ++ [empty_db] → single t g → single t g'.
Proof.
  intros Hc Ht db. rewrite Hc. intros [Hin|Hin%list_elem_of_singleton]%elem_of_app; [by apply Ht|]. subst.
  destruct (postlist (empty_db : database) t) as [|d l] eqn:E; cbn; [lia|].
  assert (Hd : d ∈ postlist (empty_db : database) t) by (rewrite E; apply list_elem_of_here).
  apply elem_of_postlist in Hd as (x & Hx & _). by rewrite empty_docs in Hx.
Qed.

Lemma change_stored i op t g : group_ok g → single t g → changes_docs t op →
  keeps_stored 1 0 g ((on_frag i DbFragment_open_writable ;; on_frag i op) g).1.
Proof. intros. apply moves_stored; [done|]. by apply (change_one i op t). Qed.

Lemma add_to_last_stored g x t : group_ok g → writable g → (next_fragnum g + 1 < 2 ^ 32)%N → frags g ≠ [] → t ≠ "" → single t g →
  keeps_stored 1 1 g (add_to_last json_serialise io x t g).1.
Proof.
  intros Hg Hw Hn Hne Ht Hs. assert (Hlen : length (frags g) ≠ 0) by by destruct (frags g).
  destruct (lookup_lt_is_Some_2 (frags g) (length (frags g) - 1)) as [f Hf]; [lia|].
  destruct (get_db_ok g (length (frags g) - 1) f) as (g1 & f1 & H1 & Hk & _); [done..|].
  assert (Hw1 : writable g1) by (unfold writable; by rewrite (keeps_control _ _ Hk)).
  pose proof (moves_stored 0 g g1 Hg (moves_run _ _ _ _ (stays_get_db _) H1)) as Hm1.
  assert (Hg1 : group_ok g1) by by apply Hk. assert (Hs1 : single t g1) by by apply (single_keeps t g).
  unfold add_to_last. unfold mbind at 1, M_bind at 1, getM. unfold mbind at 1, M_bind at 1. rewrite H1.
  apply (keeps_stored_trans 0 0 1 1 _ g1); [done|].
  unfold mbind at 1, M_bind at 1. case_decide.
  - destruct (add_frag_ok json_serialise io Hio g1) as (g2 & H2 & Hg2 & Hw2 & Hc2 & Hv2 & Hn2 & Hadd); [done|done|by rewrite (keeps_next _ _ Hk)|].
    rewrite H2. apply (keeps_stored_trans 0 1 1 0 _ g2); [by apply added_stored|].
    apply (change_stored _ _ t); [done|by eapply single_empty|by apply add_changes].
  - unfold mret, M_ret. apply (keeps_stored_trans 0 1 1 0 _ g1); [split; [intros m n; by rewrite N.add_0_r|lia]|].
    apply (change_stored _ _ t); [done|done|by apply add_changes].
Qed.

Lemma place_stored g x t : group_ok g → writable g → (next_fragnum g + 1 < 2 ^ 32)%N → frags g ≠ [] → t ≠ "" → single t g →
  let place := found ← (if decide (t = "") then mret None else find_frag t (length (frags g)));
      match found with
      | Some i => on_frag i DbFragment_open_writable ;; on_frag i (DbFragment_add_doc x t)
      | None => add_to_last json_serialise io x t
      end in
  keeps_stored 1 1 g (place g).1.
Proof.
  intros Hg Hw Hn Hne Ht Hs place. subst place. rewrite decide_False by done. unfold mbind at 1, M_bind at 1.
  pose proof (find_frag_ok t (length (frags g)) g Hg ltac:(done)) as Hfind. unfold wp in Hfind.
  destruct (find_frag t (length (frags g)) g) as [g1 [o| |]] eqn:H1; try done. destruct Hfind as [Hk _].
  assert (Hg1 : group_ok g1) by by apply Hk. assert (Hs1 : single t g1) by by apply (single_keeps t g).
  apply (keeps_stored_trans 0 0 1 1 _ g1); [apply moves_stored; [done|exact (moves_run _ _ _ _ (stays_find_frag _ _) H1)]|].
  destruct o as [i|].
  - destruct (change_stored i (DbFragment_add_doc x t) t g1) as [H2 H3]; [done|done|by apply add_changes|]. split; [done|lia].
  - apply add_to_last_stored; [done|by unfold writable; rewrite (keeps_control _ _ Hk)|by rewrite (keeps_next _ _ Hk)| |done..].
    intros E. apply Hne, nil_length_inv. by rewrite <-(keeps_length _ _ Hk), E.
Qed.

Lemma add_doc_stored g x t : group_ok g → writable g → (next_fragnum g + 2 < 2 ^ 32)%N → t ≠ "" → single t g →
  keeps_stored 1 2 g (DbGroup_add_doc json_serialise io x t g).1.
Proof.
  intros Hg Hw Hn Ht Hs. unfold DbGroup_add_doc, is_writable. rewrite bool_decide_true by done. cbn [negb].
  destruct (decide (frags g = [])) as [Hf|Hf].
  - unfold mbind at 1, M_bind at 1.
    destruct (add_frag_ok json_serialise io Hio g) as (g1 & H1 & Hg1 & Hw1 & Hc1 & _ & Hn1 & Hadd); [done..|lia|]. rewrite H1.
    apply (keeps_stored_trans 0 1 1 1 _ g1); [by apply added_stored|].
    apply place_stored; [done|done|rewrite Hn1; lia| |done|by eapply single_empty].
    destruct Hadd as [(f & -> & _) _ _ _ _]. by destruct (frags g).
  - destruct (place_stored g x t) as [H1 H2]; [done..|lia|done|done|done|]. split; [exact H1|]. etrans; [exact H2|]. lia.
Qed.

Lemma delete_doc_stored g t : group_ok g → single t g → keeps_stored 1 0 g (DbGroup_delete_doc t g).1.
Proof.
  intros Hg Hs. assert (Hrefl : keeps_stored 1 0 g g).
  { split; [|lia]. intros m n [H1 H2 H3 H4 H5 H6 H7]. split; try done; [intros f Hf Hw; specialize (H6 f Hf Hw); lia|intros; apply H7; lia]. }
  unfold DbGroup_delete_doc. destruct (is_writable (control g)); [|done]. cbn [negb]. case_decide; [done|].
  unfold mbind at 1, M_bind at 1. pose proof (find_frag_ok t (length (frags g)) g Hg ltac:(done)) as Hfind. unfold wp in Hfind.
  destruct (find_frag t (length (frags g)) g) as [g1 [o| |]] eqn:H1; try done. destruct Hfind as [Hk _].
  assert (Hg1 : group_ok g1) by by apply Hk.
  assert (Hm1 : keeps_stored 0 0 g g1) by (apply moves_stored; [done|exact (moves_run _ _ _ _ (stays_find_frag _ _) H1)]).
  apply (keeps_stored_trans 0 0 1 0 _ g1); [done|]. destruct o as [i|].
  - apply (change_stored i _ t); [done|by apply (single_keeps t g)|apply delete_changes].
  - split; [|cbn; lia]. intros m n [A1 A2 A3 A4 A5 A6 A7]. cbn. split; try done; [intros f Hf Hw; specialize (A6 f Hf Hw); lia|intros; apply A7; lia].
Qed.

(** ** Committing *)

(** The disk after the fragments were committed. *)
Definition commit_disk (l : list (@DbFragment database)) (d : gmap string database) : gmap string database :=
  foldl (λ d f, if is_writable f then <[fpath f := wrdb f]> d else d) d l.

Lemma commit_disk_cons f l d : commit_disk (f :: l) d = commit_disk l (if is_writable f then <[fpath f := wrdb f]> d else d).
Proof. done. Qed.

Lemma commit_disk_other l : ∀ d p, p ∉ fpath <$> l → commit_disk l d !! p = d !! p.
Proof.
  induction l as [|f l IH]; intros d p Hp; [done|]. cbn in Hp. apply not_elem_of_cons in Hp as [Hne Hp]. rewrite commit_disk_cons, IH by done.
  destruct (is_writable f); [by rewrite lookup_insert_ne|done].
Qed.

Lemma commit_disk_frag l : ∀ d f, NoDup (fpath <$> l) → f ∈ l →
  commit_disk l d !! fpath f = if is_writable f then Some (wrdb f) else d !! fpath f.
Proof.
  induction l as [|f0 l IH]; intros d f Hnd Hf; [set_solver|]. cbn in Hnd. apply NoDup_cons in Hnd as [Hf0 Hnd]. rewrite commit_disk_cons.
  apply elem_of_cons in Hf as [->|Hl].
  2: { rewrite IH by done. destruct (is_writable f0); [|done]. rewrite lookup_insert_ne; [done|]. intros E. apply Hf0. rewrite E.
    by apply list_elem_of_fmap_2. }
  rewrite commit_disk_other by done. destruct (is_writable f0); [by rewrite lookup_insert_eq|done].
Qed.

(** A fragment just committed. *)
Definition flushed f : @DbFragment database := if is_writable f then set_wrdb (wrdb f) 0 f else f.

Lemma flushed_same f : fstate (flushed f) = fstate f ∧ fname (flushed f) = fname f ∧ fpath (flushed f) = fpath f ∧
  ∀ d, content d (flushed f) = content d f ∧ (frag_ok d (flushed f) ↔ frag_ok d f).
Proof. unfold flushed. by destruct (is_writable f). Qed.

Lemma commit_frags n : ∀ i g, i + n = length (frags g) →
  for_each (seq i n) (λ i, on_frag i DbFragment_commit) g =
    (set_frags (take i (frags g) ++ (flushed <$> drop i (frags g))) (commit_disk (drop i (frags g)) (disk g)) g, Ok ()).
Proof.
  induction n as [|n IH]; intros i g Hl; cbn [seq for_each].
  - rewrite drop_ge, take_ge by lia. cbn. rewrite app_nil_r. by destruct g.
  - destruct (lookup_lt_is_Some_2 (frags g) i) as [f Hf]; [lia|]. unfold mbind, M_bind. unfold on_frag at 1. rewrite Hf.
    rewrite (drop_S _ f), commit_disk_cons by done.
    assert (E : DbFragment_commit (f, disk g) = ((flushed f, if is_writable f then <[fpath f := wrdb f]> (disk g) else disk g), Ok ())).
    { unfold DbFragment_commit, flushed. destruct (is_writable f); [by rewrite wrdb_commit_eq|done]. }
    rewrite E, IH by (cbn; rewrite length_insert; lia). cbn [frags set_frags disk].
    rewrite (take_S_r _ _ (flushed f)) by (apply list_lookup_insert_eq; by eapply lookup_lt_Some).
    rewrite take_insert_ge, drop_insert_lt by lia. by rewrite <-app_assoc.
Qed.

Lemma sync_eq g : writable g → DbGroup_sync g =
  (set_control (set_wrdb (wrdb (control g)) 0 (control g)) (<[fpath (control g) := wrdb (control g)]> (commit_disk (frags g) (disk g)))
    (set_frags (flushed <$> frags g) (commit_disk (frags g) (disk g)) g), Ok ()).
Proof.
  intros Hw. unfold DbGroup_sync, mbind, M_bind, getM. rewrite commit_frags by lia. rewrite drop_0. cbn [take app].
  unfold on_control, DbFragment_commit. cbn -[wrdb_commit]. unfold is_writable. by rewrite Hw, bool_decide_true, wrdb_commit_eq.
Qed.

(** Committing changes no document, and puts them all on the disk. *)
Lemma sync_restartable g m m0 n : group_ok g → writable g → represents g m → restartable g m0 n →
  ∃ g', DbGroup_sync g = (g', Ok ()) ∧ group_ok g' ∧ writable g' ∧ represents g' m ∧ restartable g' m 0 ∧ next_fragnum g' = next_fragnum g.
Proof.
  intros Hg Hw Hm Hr. rewrite sync_eq by done. eexists. split; [done|]. set (d := <[fpath (control g) := wrdb (control g)]> _).
  set (g' := set_control _ d _). pose proof (ok_frags _ Hg) as Hf. rewrite Forall_forall in Hf.
  assert (Hcne : ∀ k, fpath (control g) ≠ frag_path (groupdir g) k) by (intros k; rewrite (ok_control _ Hg); apply control_path_ne).
  assert (Hd : ∀ f, f ∈ frags g → d !! fpath f = if is_writable f then Some (wrdb f) else disk g !! fpath f).
  { intros f Hin. destruct (ok_numbers _ Hg f Hin) as (k & _ & E). unfold d. rewrite lookup_insert_ne by (rewrite E; apply Hcne).
    apply commit_disk_frag; [apply Hg|done]. }
  assert (Hcont : ∀ f, f ∈ frags g → content d f = content (disk g) f ∧ default empty_db (d !! fpath f) = content (disk g) f ∧
    is_Some (d !! fpath f) ∧ frag_ok d f).
  { intros f Hin. specialize (Hf f Hin). specialize (Hd f Hin). unfold content, frag_ok, is_writable in *. destruct (fstate f) eqn:Es.
    - rewrite Hd, bool_decide_false by done. split_and!; [done..| |]; destruct Hf as [db ->]; done.
    - rewrite Hd, bool_decide_false, Hf by done. done.
    - rewrite Hd, bool_decide_true by done. done. }
  assert (Hpaths : fpath <$> frags g' = fpath <$> frags g).
  { cbn. rewrite <-list_fmap_compose. apply list_fmap_ext. intros i f _. apply flushed_same. }
  assert (Hnames : (λ f, (fname f, fpath f)) <$> frags g' = (λ f, (fname f, fpath f)) <$> frags g).
  { cbn. rewrite <-list_fmap_compose. apply list_fmap_ext. intros i f _. cbn. destruct (flushed_same f) as (_ & -> & -> & _). done. }
  assert (Hc : contents g' = contents g).
  { unfold contents. cbn. rewrite <-list_fmap_compose. apply list_fmap_ext. intros i f Hi. cbn.
    destruct (flushed_same f) as (_ & _ & _ & Hs). rewrite (proj1 (Hs d)). apply Hcont. by eapply list_elem_of_lookup_2. }
  assert (Hg' : group_ok g').
  { split; try apply Hg.
    - apply Forall_forall. intros f2 (f & -> & Hin)%list_elem_of_fmap. destruct (flushed_same f) as (_ & _ & _ & Hs).
      apply (Hs d). by apply Hcont.
    - by rewrite Hpaths; apply Hg.
    - intros Hv. destruct (ok_handles _ Hg Hv) as [Hl Hh]. cbn. split; [by rewrite length_fmap|]. intros i j Hij.
      destruct (Hh i j Hij) as (-> & f & Hfi & Hs). split; [done|]. exists (flushed f). rewrite list_lookup_fmap, Hfi. split; [done|].
      by destruct (flushed_same f) as (-> & _).
    - cbn. intros f2 (f & -> & Hin)%list_elem_of_fmap. destruct (flushed_same f) as (_ & _ & -> & _). by apply Hg.
    - cbn. intros k Hk. unfold d. rewrite lookup_insert_ne by apply Hcne. rewrite commit_disk_other; [by apply (ok_unused _ Hg)|].
      intros (f & E & Hin)%list_elem_of_fmap. destruct (ok_numbers _ Hg f Hin) as (k' & Hk' & E'). rewrite E' in E. apply frag_path_inj in E. lia. }
  assert (Hctl : d !! fpath (control g) = Some (wrdb (control g))) by apply lookup_insert_eq.
  assert (Hlist : ∀ c, lists c g → lists c g').
  { intros c [L1 L2]. assert (Hfn : fname <$> frags g' = fname <$> frags g).
    { cbn. rewrite <-list_fmap_compose. apply list_fmap_ext. intros i f _. apply flushed_same. }
    assert (He : frags g' = [] ↔ frags g = []) by (cbn; destruct (frags g); naive_solver).
    unfold lists. rewrite (fraglist_names _ _ Hfn), !(decide_ext _ _ _ _ He). done. }
  split_and!; [done|done|by eapply represents_same| |done]. destruct Hr as [H1 H2 H3 H4 H5 _ _]. split.
  - rewrite Hnames. rewrite Forall_forall in H1 |- *. intros p Hp. destruct (H1 p Hp) as (? & ? & _). split_and!; [done..|].
    apply list_elem_of_fmap in Hp as (f & -> & Hin). by apply Hcont.
  - cbn. by rewrite Hctl.
  - unfold at_path. cbn. rewrite Hctl. by apply Hlist.
  - by apply Hlist.
  - intros E. apply H5. cbn in E. by destruct (frags g).
  - intros f2 (f & -> & Hin)%list_elem_of_fmap Hs. unfold flushed in *. destruct (is_writable f) eqn:Ew; [cbn; lia|].
    unfold is_writable in Ew. by rewrite bool_decide_true in Ew.
  - intros _. eapply represents_same; [|exact Hm]. rewrite disk_contents, Hpaths. unfold contents. rewrite <-list_fmap_compose. cbn.
    apply list_fmap_ext. intros i f Hi. apply Hcont. by eapply list_elem_of_lookup_2.
Qed.

(** ** Opening again *)

(** What is relied on of the JSON text: the list of fragments is read back, and a number
    as a signed or an unsigned one. *)
Record text_laws : Prop := {
  text_nonempty v : json_serialise v ≠ "";
  text_list names : Forall clean names →
    let v := JArr ((λ n, JObj [("name", JStr n)]) <$> names) in json_unserialise (json_serialise v) = Ok v;
  text_number n : (n < 2 ^ 32)%N → ∃ v, json_unserialise (json_serialise (JUInt n)) = Ok v ∧ (v = JUInt n ∨ v = JInt (Z.of_N n));
}.
Context (Htext : text_laws).

Lemma init_frag_list names : ∀ g : @DbGroup database, Forall clean names →
  for_each ((λ n, JObj [("name", JStr n)]) <$> names) init_frag g =
    (set_frags (frags g ++ ((λ n, new_DbFragment n (groupdir g +:+ ("/" +:+ n))) <$> names)) (disk g) g, Ok ()).
Proof.
  induction names as [|n names IH]; intros g Hc; [cbn; rewrite app_nil_r; by destruct g|]. apply Forall_cons in Hc as [_ Hc].
  rewrite !fmap_cons. cbn [for_each]. unfold mbind at 1, M_bind at 1.
  change (init_frag (JObj [("name", JStr n)]) g) with (set_frags (frags g ++ [new_DbFragment n (groupdir g +:+ ("/" +:+ n))]) (disk g) g, Ok ()).
  cbn beta iota. rewrite IH by done. cbn. by rewrite <-app_assoc.
Qed.

Lemma json_get_uint64_number v n : (n < 2 ^ 32)%N → v = JUInt n ∨ v = JInt (Z.of_N n) → json_get_uint64 styled v = Ok n.
Proof.
  intros Hn [-> | ->]; unfold json_get_uint64; cbn.
  - by rewrite (proj2 (N.ltb_ge _ _)) by (unfold maxUInt64; lia).
  - rewrite (proj2 (Z.leb_le _ _)), (proj2 (Z.ltb_ge _ _)) by lia. cbn. by rewrite N2Z.id.
Qed.

Lemma fraglist_of_names (l : list (@DbFragment database)) : Forall clean (fname <$> l) →
  fraglist_json l = JArr ((λ n, JObj [("name", JStr n)]) <$> (fname <$> l)).
Proof.
  intros Hc. unfold fraglist_json. rewrite (foldl_json_append (λ f, json_set (JObj []) "name" (jstr (fname f)))). cbn [app]. f_equal.
  rewrite <-list_fmap_compose. apply list_fmap_ext. intros i f Hf. rewrite Forall_fmap, Forall_lookup in Hc. specialize (Hc i f Hf).
  cbn in *. by rewrite clean_jstr.
Qed.

(** The group just opened: every fragment closed, with the documents that are on the
    disk. *)
Definition stored_control (g : @DbGroup database) : database := at_path g (fpath (control g)).
Definition opened_control (g : @DbGroup database) : @DbFragment database :=
  mkFragment OPEN_FOR_WRITING (stored_control g) 0 empty_db "control" (groupdir g +:+ "/control").
Definition reopening (g : @DbGroup database) (X : gset string) : @DbGroup database :=
  mkGroup 100000000 (groupdir g) (opened_control g) [] 0 "" [] false (disk g) (files g) X.
Definition reopened_frags (g : @DbGroup database) : list (@DbFragment database) := (λ f, new_DbFragment (fname f) (fpath f)) <$> frags g.
Definition opened (g : @DbGroup database) (X : gset string) (str : string) : @DbGroup database :=
  mkGroup 100000000 (groupdir g) (opened_control g) (reopened_frags g) (next_fragnum g) str [] false (disk g) (files g) X.

Lemma reopened_frags_names g m n : restartable g m n →
  (λ n, new_DbFragment n (groupdir g +:+ ("/" +:+ n))) <$> (fname <$> frags g) = reopened_frags g ∧ Forall clean (fname <$> frags g).
Proof.
  intros [H1 _ _ _ _ _ _]. rewrite Forall_fmap, Forall_lookup in H1. split.
  - unfold reopened_frags. rewrite <-list_fmap_compose. apply list_fmap_ext. intros i f Hf. cbn. destruct (H1 i f Hf) as (E & _).
    cbn in E. by rewrite E.
  - apply Forall_fmap, Forall_lookup. intros i f Hf. cbn. by destruct (H1 i f Hf) as (_ & ? & _).
Qed.

Lemma init_frags_restarted g m n X : restartable g m n → (next_fragnum g < 2 ^ 32)%N →
  ∃ str, init_frags json_unserialise styled (reopening g X) = (opened g X str, Ok ()).
Proof.
  intros Hm Hn. destruct (reopened_frags_names _ _ _ Hm) as [Hfr Hcl]. destruct Hm as [_ _ [H3 H3'] _ H5 _ _].
  fold (stored_control g) in H3, H3'. unfold init_frags.
  unfold mbind at 1, M_bind at 1. change (on_control DbFragment_get_db (reopening g X)) with (reopening g X, Ok (stored_control g)).
  unfold mbind at 1, M_bind at 1, getM. change (last_fraglist_str (reopening g X)) with "". cbv zeta. rewrite H3, H3'.
  destruct (decide (frags g = [])) as [E|E].
  - exists "". rewrite decide_True by done. unfold opened, reopened_frags, reopening. by rewrite E, H5.
  - rewrite !(decide_False (P := json_serialise _ = "")) by apply text_nonempty, Htext.
    exists (json_serialise (fraglist_json (frags g))). rewrite (fraglist_of_names _ Hcl).
    unfold mbind, M_bind, liftM, modifyM. rewrite (text_list Htext) by done. cbn beta iota.
    change (json_check_array (JArr ?l) _) with (Ok (A := ()) ()). cbn beta iota.
    change (json_elems (JArr ?l)) with l. rewrite init_frag_list by done. cbn beta iota.
    destruct (text_number Htext (next_fragnum g) Hn) as (v & Hv & Hvn). rewrite Hv, (json_get_uint64_number v (next_fragnum g) Hn Hvn).
    replace (wrap32 (next_fragnum g)) with (next_fragnum g) by (unfold wrap32; by rewrite N.mod_small).
    unfold opened. by rewrite <-Hfr.
Qed.

Lemma open_restarted g m n : group_ok g → restartable g m n → (next_fragnum g < 2 ^ 32)%N →
  ∃ X str, DbGroup_open_writable json_unserialise styled io (restarted g) = (opened g X str, Ok ()).
Proof.
  intros Hg Hm Hn. pose proof (ok_control _ Hg) as Hc.
  assert (Hdb : disk g !! (groupdir g +:+ "/control") = Some (stored_control g)).
  { unfold stored_control, at_path. destruct (rs_there _ _ _ Hm) as [x E]. rewrite Hc in E |- *. by rewrite E. }
  set (X := if decide (groupdir g ∈ dirs g) then dirs g else {[groupdir g]} ∪ dirs g). exists X.
  destruct (init_frags_restarted g m n X Hm Hn) as [str Hs]. exists str. unfold DbGroup_open_writable.
  change (is_writable (control (restarted g))) with false. cbn iota. set (g1 := mkGroup 100000000 (groupdir g)
    (new_DbFragment "control" (groupdir g +:+ "/control")) [] 0 "" [] false (disk g) (files g) X : @DbGroup database).
  assert (H1 : (if decide (groupdir g ∈ dirs g) then mret ()
      else io_do io IoMkdir ("Couldn't create directory '" +:+ groupdir g +:+ "'")
             (λ g, set_files (files g) ({[groupdir g]} ∪ dirs g) g)) (restarted g) = (g1, Ok ())).
  { unfold g1, X. case_decide; [done|]. unfold io_do. by rewrite Hio. }
  unfold mbind at 1, M_bind at 1. change (groupdir (restarted g)) with (groupdir g). change (dirs (restarted g)) with (dirs g).
  rewrite H1. unfold mbind at 1, M_bind at 1. change (invalidate_group_db g1) with (g1, Ok (A := ()) ()). cbn beta iota.
  unfold mbind at 1, M_bind at 1.
  assert (H2 : on_control DbFragment_open_writable g1 = (reopening g X, Ok ())).
  { unfold on_control, DbFragment_open_writable, g1, is_writable. cbn. rewrite !bool_decide_false by done. rewrite Hdb. cbn.
    by rewrite insert_id. }
  rewrite H2. unfold closing_control. by rewrite Hs.
Qed.

Lemma opened_ok g m n X str : group_ok g → restartable g m n → (n < flush_threshold)%N →
  group_ok (opened g X str) ∧ writable (opened g X str) ∧ represents (opened g X str) m ∧ restartable (opened g X str) m 0.
Proof.
  intros Hg Hm Hn. pose proof Hm as [H1 H2 H3 H4 H5 _ H6]. specialize (H6 Hn). set (g' := opened g X str).
  assert (Hnames : (λ f, (fname f, fpath f)) <$> frags g' = (λ f, (fname f, fpath f)) <$> frags g).
  { cbn. unfold reopened_frags. by rewrite <-list_fmap_compose. }
  assert (Hfrags : frags g' = [] ↔ frags g = []).
  { cbn. unfold reopened_frags. destruct (frags g); naive_solver. }
  assert (Hpaths : fpath <$> frags g' = fpath <$> frags g) by (cbn; unfold reopened_frags; by rewrite <-list_fmap_compose).
  assert (Hj : fraglist_json (frags g') = fraglist_json (frags g)).
  { apply fraglist_names. cbn. unfold reopened_frags. by rewrite <-list_fmap_compose. }
  assert (Hl : ∀ c, lists c g → lists c g').
  { intros c [L1 L2]. unfold lists. rewrite Hj, (decide_ext _ _ _ _ Hfrags), (decide_ext _ _ _ _ Hfrags). done. }
  assert (Hrep : represents g' m ∧ represents (disk_group g') m).
  { split; (eapply represents_same; [|exact H6]); rewrite !disk_contents.
    - unfold contents. rewrite <-Hpaths, <-list_fmap_compose. cbn. unfold reopened_frags. by rewrite <-!list_fmap_compose.
    - by rewrite Hpaths. }
  split_and!; [|done|apply Hrep|].
  - split.
    + apply Forall_forall. intros f (f0 & -> & Hf)%list_elem_of_fmap. cbn. rewrite Forall_fmap, Forall_forall in H1. by apply (H1 f0).
    + rewrite Hpaths. apply Hg.
    + done.
    + intros f (f0 & -> & Hf)%list_elem_of_fmap. exact (ok_numbers _ Hg f0 Hf).
    + apply (ok_unused _ Hg).
    + done.
  - pose proof (ok_control _ Hg) as Hc. split; try done.
    + by rewrite Hnames.
    + cbn. by rewrite <-Hc.
    + apply Hl. change (at_path g' (fpath (control g'))) with (at_path g (groupdir g +:+ "/control")). by rewrite <-Hc.
    + apply Hl. exact H3.
    + intros E. by apply H5, Hfrags.
    + intros f (f0 & -> & _)%list_elem_of_fmap. done.
    + intros _. apply Hrep.
Qed.

(** One operation, and how many documents have changed since the last commit. *)
Definition uncommitted (n : N) (o : group_op) : N := match o with AddDoc _ _ | DeleteDoc _ => n + 1 | Sync | Restart => 0 end.

Lemma run_op_ok o g m m0 n : group_ok g → writable g → represents g m → restartable g m0 n → op_ok o → (next_fragnum g + 2 < 2 ^ 32)%N →
  (o = Restart → (n < flush_threshold)%N) →
  ∃ g', run_op o g = (g', Ok ()) ∧ group_ok g' ∧ writable g' ∧ represents g' (group_spec o (m, m0)).1 ∧
    restartable g' (group_spec o (m, m0)).2 (uncommitted n o) ∧ (next_fragnum g' ≤ next_fragnum g + 2)%N.
Proof.
  intros Hg Hw Hm Hr Ho Hn Hfl. destruct o as [t x|t| |]; cbn in Ho |- *.
  - destruct (ids_singleton t x Ho) as (Hid & _ & Ht).
    destruct (add_doc_represents json_serialise io Hio g m t x) as (g' & E & H1 & H2 & H3); [done..|]. exists g'.
    destruct (add_doc_stored g x t) as [H4 H5]; [done..|by apply (represents_single g m)|]. rewrite E in H4, H5. split_and!; auto.
  - destruct (delete_doc_represents g m t) as (g' & E & H1 & H2 & H3); [done..|]. exists g'.
    destruct (delete_doc_stored g t) as [H4 H5]; [done|by apply (represents_single g m)|]. rewrite E in H4, H5. cbn in H5. split_and!; auto. lia.
  - destruct (sync_restartable g m m0 n) as (g' & E & H1 & H2 & H3 & H4 & H5); [done..|]. exists g'. split_and!; [done..|]. rewrite H5. lia.
  - destruct (open_restarted g m0 n) as (X & str & E); [done..|lia|]. exists (opened g X str). unfold mbind, M_bind, modifyM. rewrite E.
    destruct (opened_ok g m0 n X str) as (H1 & H2 & H3 & H4); [by auto..|]. split_and!; [done..|]. cbn. lia.
Qed.

(** Whenever the process ends, fewer documents have changed since the last commit than
    make the library commit of itself. *)
Fixpoint commits_in_time (n : N) (ops : list group_op) : bool :=
  match ops with
  | [] => (n <? flush_threshold)%N
  | Restart :: ops => (n <? flush_threshold)%N && commits_in_time 0 ops
  | o :: ops => commits_in_time (uncommitted n o) ops
  end.

Lemma commits_in_time_cons n o ops : commits_in_time n (o :: ops) = true →
  (o = Restart → (n < flush_threshold)%N) ∧ commits_in_time (uncommitted n o) ops = true.
Proof. destruct o; cbn; [done..|]. rewrite andb_true_iff, N.ltb_lt. tauto. Qed.

Lemma run_ops_ok ops : ∀ g m m0 n, Forall op_ok ops → group_ok g → writable g → represents g m → restartable g m0 n →
  commits_in_time n ops = true → (next_fragnum g + 2 * N.of_nat (length ops) < 2 ^ 32)%N →
  let s := foldl (λ s o, group_spec o s) (m, m0) ops in
  ∃ g' n', for_each ops run_op g = (g', Ok ()) ∧ group_ok g' ∧ writable g' ∧ represents g' s.1 ∧ restartable g' s.2 n' ∧
    (n' < flush_threshold)%N ∧ (next_fragnum g' ≤ next_fragnum g + 2 * N.of_nat (length ops))%N.
Proof.
  induction ops as [|o ops IH]; intros g m m0 n Hops Hg Hw Hm Hr Ht Hn s.
  { exists g, n. apply N.ltb_lt in Ht. split_and!; try done; lia. }
  apply Forall_cons in Hops as [Ho Hops]. cbn [length] in Hn. subst s. cbn [foldl for_each length].
  apply commits_in_time_cons in Ht as [Hfl Ht].
  destruct (run_op_ok o g m m0 n) as (g1 & E1 & H1 & H2 & H3 & H4 & H5); [done..|lia|done|]. unfold mbind, M_bind. rewrite E1.
  destruct (group_spec o (m, m0)) as [m1 m2]. cbn [fst snd] in H3, H4.
  destruct (IH g1 m1 m2 _ Hops H1 H2 H3 H4 Ht) as (g2 & n2 & E2 & H6 & H7 & H8 & H9 & H10 & H11); [lia|].
  exists g2, n2. split_and!; [done..|]. lia.
Qed.

(** A group in a new directory. *)
Lemma new_group_opens dir fs ds : ∃ g, run_op Restart (new_DbGroup dir ∅ fs ds) = (g, Ok ()) ∧
  group_ok g ∧ writable g ∧ represents g ∅ ∧ restartable g ∅ 0 ∧ next_fragnum g = 0%N.
Proof.
  set (ctl := mkFragment OPEN_FOR_WRITING empty_db 0 empty_db "control" (dir +:+ "/control") : @DbFragment database).
  set (X := if decide (dir ∈ ds) then ds else {[dir]} ∪ ds).
  exists (mkGroup 100000000 dir ctl [] 0 "" [] false {[dir +:+ "/control" := empty_db]} fs X).
  assert (Hrep : ∀ g : @DbGroup database, frags g = [] → represents g ∅).
  { intros g Hf. assert (Hno : ∀ i d x, ¬ at_pos g i d x) by (intros i d x (db & Hdb & _); unfold contents in Hdb; by rewrite Hf in Hdb).
    split; [intros ? ? ? Hp; by destruct (Hno _ _ _ Hp)|done|]. intros ? ? ? ? ? ? ? Hp. by destruct (Hno _ _ _ Hp). }
  split_and!; [| |done|by apply Hrep| |done].
  - cbn [run_op]. unfold mbind at 1, M_bind at 1, modifyM. cbn beta iota. unfold DbGroup_open_writable.
    change (is_writable (control (restarted (new_DbGroup dir ∅ fs ds)))) with false. cbn iota.
    change (groupdir (restarted (new_DbGroup dir ∅ fs ds))) with dir. change (dirs (restarted (new_DbGroup dir ∅ fs ds))) with ds.
    set (g1 := mkGroup 100000000 dir (new_DbFragment "control" (dir +:+ "/control")) [] 0 "" [] false ∅ fs X : @DbGroup database).
    assert (H1 : (if decide (dir ∈ ds) then mret ()
      else io_do io IoMkdir ("Couldn't create directory '" +:+ dir +:+ "'")
             (λ g, set_files (files g) ({[groupdir g]} ∪ dirs g) g)) (restarted (new_DbGroup dir ∅ fs ds)) = (g1, Ok ())).
    { unfold g1, X. case_decide; [done|]. unfold io_do. by rewrite Hio. }
    unfold mbind at 1, M_bind at 1. rewrite H1. unfold mbind at 1, M_bind at 1.
    change (invalidate_group_db g1) with (g1, Ok (A := ()) ()). cbn beta iota. unfold mbind at 1, M_bind at 1.
    unfold on_control, DbFragment_open_writable, g1, is_writable. cbn. rewrite !bool_decide_false by done. cbn.
    rewrite lookup_empty. cbn. unfold closing_control, init_frags, mbind, M_bind, getM. cbn.
    change (on_control DbFragment_get_db ?g) with (g, Ok empty_db : res database). cbn. by rewrite empty_metadata.
  - split; try done; [constructor|by intros f ?%elem_of_nil|]. intros k _. cbn. apply lookup_singleton_ne.
    apply (control_path_ne (mkGroup 0 dir ctl [] 0 "" [] false ∅ ∅ ∅)).
  - assert (Hl : ∀ c, c = empty_db → lists c (mkGroup 100000000 dir ctl [] 0 "" [] false {[dir +:+ "/control" := empty_db]} fs X)).
    { intros c ->. unfold lists. cbn. by rewrite !empty_metadata. }
    split; try done; [cbn; by rewrite lookup_singleton_eq| |by apply Hl|by intros f ?%elem_of_nil|intros _; by apply Hrep].
    apply Hl. unfold at_path. cbn. by rewrite lookup_singleton_eq.
Qed.

End restart.

(** ** Properties *)

(** C22: restarts lose only what was not committed.  Start with a new group in a new
    directory and take any sequence of additions of documents under their own and only
    identifier, deletions by identifier, commits and restarts of the process, which drop whatever was not committed and open the group again.  Given that
    file operations and commits succeed, that fewer than 2^32 fragments are made, and that
    whenever the process ends fewer documents have changed since the last commit than make
    the library commit of itself ([flush_threshold], 10000 by default), the sequence
    succeeds and leaves a group that holds the documents of the specification; and after
    one more restart it holds exactly those of the last commit, whichever fragments were
    made in between. *)
Theorem restarts_lose_only_uncommitted {document database} `{!Xapian document database} `{!XapianLaws document database}
    `{!CommitsSucceed document database}
    (json_serialise : json → string) (json_unserialise : string → res json) (styled : json → string) (io : io_step → bool)
    (dir : string) (fs : gmap string string) (ds : gset string) (ops : list group_op)
    (Htext : text_laws json_serialise json_unserialise) (Hio : ∀ step, io step = true)
    (Hops : Forall op_ok ops) (Htime : commits_in_time 0 ops = true) (Hn : (2 * N.of_nat (length ops) < 2 ^ 32)%N) :
  let run := run_op json_serialise json_unserialise styled io in
  let s := foldl (λ s o, group_spec o s) (∅, ∅) ops in
  ∃ g, for_each (Restart :: ops) run (new_DbGroup dir ∅ fs ds) = (g, Ok ()) ∧ group_ok g ∧ writable g ∧ represents g s.1 ∧
    ∃ g', run Restart g = (g', Ok ()) ∧ group_ok g' ∧ writable g' ∧ represents g' s.2.
Proof.
  intros run s. cbn [for_each]. unfold mbind, M_bind.
  destruct (new_group_opens json_serialise json_unserialise styled io Hio dir fs ds) as (g0 & E0 & H1 & H2 & H3 & H4 & H5).
  unfold run at 1. rewrite E0.
  destruct (run_ops_ok json_serialise json_unserialise styled io Hio Htext ops g0 ∅ ∅ 0) as (g & n & E & H6 & H7 & H8 & H9 & Hf & H10); [done..|lia|].
  rewrite H5 in H10. exists g. split_and!; [done..|].
  destruct (open_restarted json_serialise json_unserialise styled io Hio Htext g _ n H6 H9) as (X & str & E'); [lia|].
  destruct (opened_ok json_serialise g _ n X str H6 H9 Hf) as (H11 & H12 & H13 & _).
  exists (opened g X str). by split_and!.
Qed.

Lemma ref_text_laws : text_laws ref_serialise ref_unserialise.
Proof.
  split; intros; [apply ref_serialise_nonempty|apply ref_unserialise_serialise|]. rewrite ref_unserialise_serialise. eauto.
Qed.

Definition doc2 : refdoc := mkRefdoc {[sing (chr 9) +:+ "b"]} "other".
Definition day : list (@group_op refdoc) :=
  [AddDoc (sing (chr 9) +:+ "a") doc1; Sync; AddDoc (sing (chr 9) +:+ "b") doc2; DeleteDoc (sing (chr 9) +:+ "a")].

Lemma restarts_lose_only_uncommitted_witness :
  ∃ g, for_each (Restart :: day) (run_op ref_serialise ref_unserialise (λ _, "") (λ _, true)) (new_DbGroup "g" ∅ ∅ ∅ : @DbGroup refdb) = (g, Ok ()) ∧
    represents g {[sing (chr 9) +:+ "b" := doc2]} ∧
    ∃ g', run_op ref_serialise ref_unserialise (λ _, "") (λ _, true) Restart g = (g', Ok ()) ∧ represents g' {[sing (chr 9) +:+ "a" := doc1]}.
Proof.
  destruct (restarts_lose_only_uncommitted ref_serialise ref_unserialise (λ _, "") (λ _, true) "g" ∅ ∅ day) as (g & E & _ & _ & Hm & g' & E' & _ & _ & Hm').
  - apply ref_text_laws.
  - done.
  - repeat constructor.
  - reflexivity.
  - done.
  - exists g. split_and!; [exact E|exact Hm|]. exists g'. split; [exact E'|exact Hm'].
Defined.

(** A library that commits after each document: what it stores is found again although
    the program did not commit. *)
Definition eager_Xapian : Xapian refdoc refdb := {|
  terms := terms; payload := payload; add_term := add_term; remove_term := remove_term;
  empty_db := empty_db; get_document := get_document; postlist := postlist; get_doccount := get_doccount;
  get_metadata := get_metadata; combine := combine; add_document := add_document; replace_document := replace_document;
  delete_document := delete_document; set_metadata := set_metadata;
  flush_threshold := 1; commit_ok _ _ := true; partial_commit old _ := old;
|}.

Example library_commits :
  let stored (X : Xapian refdoc refdb) := size ∘ rdocs <$>
    disk (for_each [Restart; AddDoc (sing (chr 9) +:+ "a") doc1]
      (run_op (XD := X) ref_serialise ref_unserialise (λ _, "") (λ _, true)) (new_DbGroup (Xapian0 := X) "g" ∅ ∅ ∅)).1 !! "g/frag0" in
  stored refdb_Xapian = Some 0 ∧ stored eager_Xapian = Some 1.
Proof. vm_compute. done. Qed.
