(* ===== verification/IndexingThms.v ===== *)
(** * Indexing: properties of the documents made

    The laws of the libraries indexing uses ([IndexLibLaws]) with an implementation, and
    what the indexers put into a document: which terms identify it, which belong to the
    groups of its fields, and what is stored. *)

From Stdlib Require Import SpecFloat.
From S2P Require Import Prelude Json TextUtils Taxonomy DocData DocValues Hashing Schema SchemaThms CollConfig Indexing.
From S2P Require Import XapianDb RefLib DbGroup DbGroupThms ProcessDoc.

(** ** Laws *)

Class IndexLibLaws (document database : Type) `{!Xapian document database} `{!DocStore document}
    `{!IndexLib document} : Prop := {
  terms_new : terms (new_document : document) = ∅;
  terms_add_wdf t n (x : document) : terms (add_term_wdf t n x) = {[t]} ∪ terms x;
  terms_add_posting t n (x : document) : terms (add_posting t n x) = {[t]} ∪ terms x;
  terms_set_data d (x : document) : terms (set_data d x) = terms x;
  terms_add_value slot v (x : document) : terms (add_value slot v x) = terms x;
  (** Words are indexed under the prefix, and their stems under [Z] and the prefix. *)
  index_text_keeps lang text prefix (x : document) : terms x ⊆ terms (index_text lang text prefix x);
  index_text_adds lang text prefix (x : document) t : t ∈ terms (index_text lang text prefix x) →
    t ∈ terms x ∨ (∃ r, t = prefix +:+ r) ∨ (∃ r, t = "Z" +:+ prefix +:+ r);
  data_set_data d (x : document) : (payload (set_data d x)).1 = d;
  data_add_value slot v (x : document) : (payload (add_value slot v x)).1 = (payload x).1;
}.

#[export] Instance refdoc_IndexLibLaws : IndexLibLaws refdoc refdb.
Proof.
  split; cbn; try done.
  - intros _ text prefix x. set_solver.
  - intros _ text prefix x t. rewrite elem_of_union, elem_of_singleton. naive_solver.
Qed.

(** ** Identifying terms *)

(** A document of type [dt] while it is built: its terms that identify documents are of
    that type; the identifier is one of them, and unless an error was recorded the only
    one. *)
Section identify.
Context {document database : Type} `{!Xapian document database} `{!XapianLaws document database}
  `{!DocStore document} `{!IndexLib document} `{!IndexLibLaws document database}.
Context (w : N).

Record identified (dt : string) (d : document) (idterm : string) (e : IndexingErrors) : Prop := {
  id_type : ∀ t, t ∈ ids d → ∃ r, t = id_prefix dt +:+ r;
  id_none : idterm = "" → ids d = ∅;
  id_some : idterm ≠ "" → idterm ∈ ids d;
  id_only : errors e = [] → ∀ t, t ∈ ids d → t = idterm;
}.

Definition id_inv (dt : string) (s : IndexingState document) : Prop := identified dt (doc s) (idterm s) (state_errors s).

Lemma ids_add_other t n (x : document) : ¬ is_id t → ids (add_term_wdf t n x) = ids x.
Proof.
  intros Ht. apply set_eq. intros y. unfold ids. rewrite !elem_of_filter, terms_add_wdf. set_solver.
Qed.

Lemma ids_terms_eq (x y : document) : terms x = terms y → ids x = ids y.
Proof. unfold ids. by intros ->. Qed.

Lemma ids_posting_other t n (x : document) : ¬ is_id t → ids (add_posting t n x) = ids x.
Proof.
  intros Ht. apply set_eq. intros y. unfold ids. rewrite !elem_of_filter, terms_add_posting. set_solver.
Qed.

Lemma has_tab_head c s : has_tab (String c s) = false → c ≠ chr 9.
Proof. intros H ->. done. Qed.

Lemma prefix_not_id p r : prefix_ok p → ¬ is_id (p +:+ r).
Proof.
  intros (g & -> & Hne & Ht & _). destruct g as [|c g]; [done|]. apply has_tab_head in Ht. exact Ht.
Qed.

Lemma ids_index_text lang text p (x : document) : prefix_ok p → ids (index_text lang text p x) = ids x.
Proof.
  intros Hp. apply set_eq. intros y. unfold ids. rewrite !elem_of_filter.
  pose proof (index_text_keeps lang text p x) as Hk. pose proof (index_text_adds lang text p x y) as Ha. split; [|set_solver].
  intros [Hy [?|[[r ->]|[r ->]]]%Ha]; [done| |].
  - by destruct (prefix_not_id p r Hp).
  - done.
Qed.

Lemma identified_doc dt (d d' : document) t e : ids d' = ids d → identified dt d t e → identified dt d' t e.
Proof. intros E [H1 H2 H3 H4]. split; rewrite ?E; auto. Qed.

Lemma identified_errors dt (d : document) t e e' :
  (errors e' = [] → errors e = []) → identified dt d t e → identified dt d t e'.
Proof. intros He [H1 H2 H3 H4]. split; auto. Qed.

(** *** Steps that keep the invariant *)

Create HintDb ident.

Lemma id_doc dt f : (∀ d : document, ids (f d) = ids d) → maintains (id_inv dt) (modifyM (upd_doc f)) (λ _, True).
Proof. intros Hf. apply maintains_modify; [|done]. intros s. apply identified_doc, Hf. Qed.

Lemma id_docdata dt f : maintains (id_inv dt) (modifyM (upd_docdata f)) (λ _, True).
Proof. by apply maintains_modify. Qed.

Lemma id_docvals dt f : maintains (id_inv dt) (modifyM (upd_docvals f)) (λ _, True).
Proof. by apply maintains_modify. Qed.

Lemma id_presence dt name f : maintains (id_inv dt) (modifyM (upd_presence name f)) (λ _, True).
Proof. by apply maintains_modify. Qed.

Lemma id_append_error dt name e : maintains (id_inv dt) (append_error name e) (λ _, True).
Proof.
  eapply maintains_bind; [apply id_presence|]. intros _ _. apply maintains_modify; [|done]. intros s.
  apply identified_errors. cbn. by intros [_ ?]%app_eq_nil.
Qed.

#[local] Hint Resolve id_docdata id_docvals id_presence id_append_error : ident.

Lemma id_add_other dt t n : ¬ is_id t → maintains (id_inv dt) (modifyM (upd_doc (add_term_wdf t n))) (λ _, True).
Proof. intros Ht. apply id_doc. intros d. by apply ids_add_other. Qed.

#[local] Hint Resolve id_add_other prefix_not_id : ident.

(** Adding an identifying term and setting it. *)
Lemma id_add_id dt r n name (b : bool) :
  maintains (id_inv dt) (modifyM (upd_doc (add_term_wdf (id_prefix dt +:+ r) n)) ;;
    set_idterm name (id_prefix dt +:+ r) ;; mret b) (λ _, True).
Proof.
  intros s [H1 H2 H3 H4]. set (t := id_prefix dt +:+ r). split; [|done].
  assert (Ht : is_id t) by done. assert (Hne : t ≠ "") by done.
  assert (Hids : ids (add_term_wdf t n (doc s)) = {[t]} ∪ ids (doc s)).
  { apply set_eq. intros y. unfold ids. rewrite !elem_of_filter, terms_add_wdf. set_solver. }
  unfold set_idterm, append_error, mbind, M_bind, getM, modifyM, mret, M_ret. cbn.
  destruct (decide (idterm s = "")) as [E|E]; [|rewrite decide_False by done]; cbn; split; cbn; rewrite Hids.
  - intros y [->%elem_of_singleton|?]%elem_of_union; [by exists r|auto].
  - done.
  - set_solver.
  - rewrite (H2 E). set_solver.
  - intros y [->%elem_of_singleton|?]%elem_of_union; [by exists r|auto].
  - done.
  - set_solver.
  - by intros [_ ?]%app_eq_nil.
Qed.

Ltac id_step := solve [eauto with ident].

Lemma id_shorten dt name m a v : maintains (id_inv dt) (shorten w name m a v) (λ _, True).
Proof. unfold shorten. maintain id_step. Qed.

Lemma id_store dt f v : maintains (id_inv dt) (store_values f v) (λ _, True).
Proof. unfold store_values. maintain id_step. Qed.

Lemma id_add_value dt slot v : maintains (id_inv dt) (add_value_if slot v) (λ _, True).
Proof. unfold add_value_if. maintain id_step. Qed.

Lemma id_empty dt name : maintains (id_inv dt) (field_empty name) (λ _, True).
Proof. unfold field_empty. id_step. Qed.

Lemma id_nonempty dt name : maintains (id_inv dt) (field_nonempty name) (λ _, True).
Proof. unfold field_nonempty. id_step. Qed.

#[local] Hint Resolve id_shorten id_store id_add_value id_empty id_nonempty : ident.

Lemma id_fail dt : maintains (id_inv dt) (modifyM (upd_errors (λ e, mkErrors (errors e) true))) (λ _, True).
Proof. apply maintains_modify; [|done]. intros s. by apply identified_errors. Qed.

#[local] Hint Resolve id_fail : ident.

Lemma id_exact_value dt p wdf m a (isid : bool) slot lower name v :
  (if isid then p = id_prefix dt else prefix_ok p) →
  maintains (id_inv dt) (exact_value w p wdf m a isid slot lower name v) (λ _, True).
Proof.
  intros Hp. unfold exact_value. destruct isid.
  - subst p. maintain ltac:(first [id_step | apply id_add_id]).
  - maintain id_step.
Qed.

#[local] Hint Resolve id_exact_value : ident.

Lemma id_exact_values dt f l :
  (∀ v, maintains (id_inv dt) (f v) (λ _, True)) → maintains (id_inv dt) (exact_values f l) (λ _, True).
Proof.
  intros Hf. induction l as [|v l IH]; cbn [exact_values]; [by apply maintains_ret|].
  apply maintains_bind_any; [apply Hf|]. intros []; [by apply maintains_ret|done].
Qed.

Lemma id_text dt slot name f v :
  (∀ x, maintains (id_inv dt) (f x) (λ _, True)) → maintains (id_inv dt) (text_value slot name f v) (λ _, True).
Proof. intros Hf. unfold text_value. maintain ltac:(first [apply Hf | id_step]). Qed.

Lemma id_stemmed dt lang p x : prefix_ok p → maintains (id_inv dt) (stemmed_text lang p x) (λ _, True).
Proof. intros Hp. unfold stemmed_text. maintain ltac:(apply id_doc; intros; by apply ids_index_text). Qed.

Lemma id_cjk dt p x : prefix_ok p → maintains (id_inv dt) (cjk_text p x) (λ _, True).
Proof.
  intros Hp. unfold cjk_text. maintain ltac:(apply id_doc; intros; apply ids_posting_other; by apply prefix_not_id).
Qed.

#[local] Hint Resolve id_exact_values id_text id_stemmed id_cjk : ident.

Lemma add_entry_id dt p slot e : prefix_ok p → maintains (id_inv dt) (add_entry p slot e) (λ _, True).
Proof. intros Hp. unfold add_entry. maintain id_step. Qed.

Lemma add_entry_if_id dt b p slot e : prefix_ok p → maintains (id_inv dt) (add_entry_if b p slot e) (λ _, True).
Proof. intros Hp. unfold add_entry_if. destruct b; [by apply add_entry_id|by apply maintains_ret]. Qed.

#[local] Hint Resolve add_entry_id add_entry_if_id : ident.

Lemma prefix_app_not_id p k r : prefix_ok p → ¬ is_id ((p +:+ k) +:+ r).
Proof. rewrite str_app_assoc. apply prefix_not_id. Qed.

#[local] Hint Resolve prefix_app_not_id : ident.

(** Every indexer made from a well-formed configuration. *)
Lemma id_index cfg dt i name v :
  indexer_ok w dt i → maintains (id_inv dt) (FieldIndexer_index w cfg i name v) (λ _, True).
Proof.
  intros (f & Hf & Hi). unfold_indexer Hi. destruct f; cbn [field_ok] in Hf.
  - injection Hi as <-. destruct Hf as [Hp _]. cbn [FieldIndexer_index]. unfold MetaIndexer_index, meta_field_entries.
    maintain id_step.
  - injection Hi as <-. destruct Hf as (_ & _ & ->). cbn [FieldIndexer_index]. unfold ExactStringIndexer_index. maintain id_step.
  - injection Hi as <-. destruct Hf as (_ & Hp & _). cbn [FieldIndexer_index]. unfold ExactStringIndexer_index. maintain id_step.
  - destruct Hf as (Hp & _). repeat case_match; injection Hi as <-; cbn [FieldIndexer_index];
      unfold CJKIndexer_index, TermGeneratorIndexer_index; maintain id_step.
  - injection Hi as <-. cbn [FieldIndexer_index]. unfold DoubleIndexer_index, number_value. maintain id_step.
  - injection Hi as <-. cbn [FieldIndexer_index]. unfold TimeStampIndexer_index, number_value. maintain id_step.
  - injection Hi as <-. cbn [FieldIndexer_index]. unfold DateIndexer_index, date_value. maintain id_step.
  - injection Hi as <-. destruct Hf as (_ & Hp & _). cbn [FieldIndexer_index]. unfold CategoryIndexer_index, category_value.
    maintain id_step.
  - injection Hi as <-. cbn [FieldIndexer_index]. unfold LonLatIndexer_index, lonlat_value. maintain id_step.
  - injection Hi as <-. cbn [FieldIndexer_index]. unfold StoredIndexer_index, stored_value. maintain id_step.
  - done.
Qed.

(** ** Processing *)

Definition proc_inv (dt : string) (p : @process_state document) : Prop :=
  ok_for w maxUInt32 dt (proc_schema p) ∧ id_inv dt (proc_state p).

Lemma on_schema_maintains {A} dt (op : M Schema A) Q :
  maintains (ok_for w maxUInt32 dt) op Q → maintains (proc_inv dt) (on_schema op) Q.
Proof.
  intros Hop p [Hs Hi]. destruct (Hop _ Hs) as [H1 H2]. unfold on_schema. by destruct (op (proc_schema p)).
Qed.

Lemma on_state_maintains {A} dt (op : M (IndexingState document) A) Q :
  maintains (id_inv dt) op Q → maintains (proc_inv dt) (on_state op) Q.
Proof.
  intros Hop p [Hs Hi]. destruct (Hop _ Hi) as [H1 H2]. unfold on_state. by destruct (op (proc_state p)).
Qed.

Lemma find_indexer_ok dt name :
  maintains (proc_inv dt) (find_indexer w name) (λ i, ∀ i', i = Some i' → indexer_ok w dt i').
Proof.
  unfold find_indexer. eapply maintains_bind; [by apply on_schema_maintains, get_indexer_ok|]. intros [i|] Hi.
  { by apply maintains_ret. }
  eapply maintains_bind; [apply maintains_get|]. intros p [[Hs <-] _].
  eapply maintains_bind; [apply (maintains_lift _ _ (λ f, ∀ g, f = Some g → field_ok w maxUInt32 (doc_type (proc_schema p)) g))|].
  { intros f Hf g ->. eapply patterns_get_ok, Hf. apply Hs. }
  intros f Hf. apply maintains_bind_any.
  { apply on_schema_maintains, maintains_modify; [|done]. intros s [? E]. split; [|by destruct f]. apply Schema_set_ok; [done|].
    by rewrite E. }
  intros _. apply maintains_bind_any; [by apply maintains_modify|]. intros _. by apply on_schema_maintains, get_indexer_ok.
Qed.

Lemma process_member_ok cfg dt m : maintains (proc_inv dt) (process_member w cfg m) (λ _, True).
Proof.
  destruct m as [name v]. unfold process_member. case_decide; [apply on_state_maintains, id_append_error|].
  eapply maintains_bind; [apply find_indexer_ok|]. intros [i|] Hi; [|by apply maintains_ret].
  destruct (isNull v); apply on_state_maintains; [apply id_empty|]. apply id_index. auto.
Qed.

Lemma process_meta_ok cfg dt : maintains (proc_inv dt) (process_meta w cfg) (λ _, True).
Proof.
  unfold process_meta. case_decide; [by apply maintains_ret|].
  eapply maintains_bind; [apply find_indexer_ok|]. intros [i|] Hi; [|by apply maintains_ret].
  apply on_state_maintains, id_index. auto.
Qed.

Lemma apply_terms assertions v (d : document) : terms (DocumentValues_apply assertions v d).1 = terms d.
Proof.
  unfold DocumentValues_apply.
  assert (H : maintains (λ d' : document, terms d' = terms d) (for_each (sorted_slots (entries v)) (λ slot,
    match entries v !! slot with
    | None => mret ()
    | Some v => s ← liftM (DocumentValue_serialise assertions v); modifyM (add_value slot s)
    end)) (λ _, True)).
  { maintain ltac:(apply maintains_modify; [|done]; intros; by rewrite terms_add_value). }
  by apply (H d eq_refl).
Qed.

(** The finished document has the terms collected; it is what is returned. *)
Lemma finish_doc_spec assertions (s : IndexingState document) :
  terms (doc (finish_doc assertions s).1) = terms (doc s) ∧
  idterm (finish_doc assertions s).1 = idterm s ∧ state_errors (finish_doc assertions s).1 = state_errors s ∧
  ∀ d, (finish_doc assertions s).2 = Ok d → d = doc (finish_doc assertions s).1.
Proof.
  unfold finish_doc. cbn.
  pose proof (apply_terms assertions (docvals s) (set_data (DocumentData_serialise (docdata s)) (doc s))) as H.
  rewrite terms_set_data in H.
  destruct (DocumentValues_apply assertions (docvals s) (set_data (DocumentData_serialise (docdata s)) (doc s))) as [d [[]|e|]];
    cbn in *; (split_and!; [done..|]); [by intros ? [= ->]|done|done].
Qed.

(** ** [process] and [process_doc] *)

Lemma finish_doc_ok assertions dt : maintains (id_inv dt) (finish_doc assertions) (λ _, True).
Proof.
  intros s Hs. split; [|done]. destruct (finish_doc_spec assertions s) as (Ht & Hid & He & _). unfold id_inv.
  rewrite Hid, He. eapply identified_doc, Hs. by apply ids_terms_eq.
Qed.

Lemma process_members_ok cfg assertions v dt : maintains (proc_inv dt) (process_members w assertions cfg v) (λ _, True).
Proof.
  unfold process_members. apply maintains_bind_any; [apply maintains_for_each; intros; apply process_member_ok|]. intros _.
  apply maintains_bind_any; [apply process_meta_ok|]. intros _. apply on_state_maintains, finish_doc_ok.
Qed.

Lemma process_members_doc cfg assertions v p p' d :
  process_members w assertions cfg v p = (p', Ok d) → d = doc (proc_state p').
Proof.
  intros H. unfold process_members in H. run_inv H. unfold on_state in H.
  match type of H with context [finish_doc _ ?s] => pose proof (finish_doc_spec assertions s) as (_ & _ & _ & Hd);
    destruct (finish_doc assertions s) as [s3 r] end.
  injection H as <- ->. by apply Hd.
Qed.

Lemma new_doc_identified dt e : identified dt (new_document : document) "" e.
Proof.
  assert (H : ids (new_document : document) = ∅).
  { apply set_eq. intros t. unfold ids. rewrite elem_of_filter, terms_new. set_solver. }
  split; rewrite H; [set_solver|done|done|set_solver].
Qed.

Lemma Schema_process_ok cfg assertions v s r s' r' x dt :
  ok_for w maxUInt32 dt s → Schema_process w assertions cfg v (s, r) = (s', r', x) →
  ok_for w maxUInt32 dt s' ∧ ∀ d, x = Ok d → identified dt d (ref_idterm r') (ref_errors r').
Proof.
  intros Hs. unfold Schema_process, json_check_object. destruct (isObject v); [|by intros [= <- <- <-]].
  set (p := mkProc s (new_IndexingState (ref_errors r)) (ref_new_fields r)).
  destruct (process_members_ok cfg assertions v dt p (conj Hs (new_doc_identified dt (ref_errors r)))) as [[H1 H2] _].
  pose proof (process_members_doc cfg assertions v p) as Hd.
  destruct (process_members w assertions cfg v p) as [p' x']. intros [= <- <- <-]. split; [done|].
  intros d ->. by rewrite (Hd p' d eq_refl).
Qed.

(** The configuration of a collection: its schemas are well-formed, and the JSON value new
    types are configured by was read from a text. *)
Record config_ok (c : CollectionConfig) : Prop := {
  cfg_types : ∀ type s, types c !! type = Some (Some s) → ok_for w maxUInt32 type s;
  cfg_default : json_clean (default_type_config c) = true;
}.

Lemma get_schema_some type c s : get_schema type c = Some s ↔ types c !! type = Some (Some s).
Proof. unfold get_schema. destruct (types c !! type) as [[]|]; naive_solver. Qed.

Lemma set_types_ok type s ch c : config_ok c → ok_for w maxUInt32 type s →
  config_ok (set_types (<[type := Some s]> (types c)) ch c).
Proof.
  intros [H1 H2] Hs. split; [|done]. cbn. intros ty s' [[<- [= <-]]|[_ ?]]%lookup_insert_Some; auto.
Qed.

Lemma set_schema_ok js type s c :
  Forall pattern_ok (patterns s) → config_ok c → config_ok (set_schema w js type s c).1.
Proof.
  intros Hp Hc. unfold set_schema.
  destruct (match types c !! type with None => Some (new_Schema type) | Some s => s end) as [s0|] eqn:E; [|done].
  assert (H0 : ok_for w maxUInt32 type s0).
  { destruct (types c !! type) as [[s1|]|] eqn:Et; simplify_eq/=; [by eapply cfg_types|]. split; [apply new_Schema_ok|done]. }
  destruct (merge_from_ok w js s type Hp s0 H0) as [H1 _].
  destruct (Schema_merge_from w js s s0) as [s' [[]|e|]]; cbn in *; by apply set_types_ok.
Qed.

Lemma ensure_schema_ok type c : config_ok c → config_ok (ensure_schema w type c).1.
Proof.
  intros Hc. unfold ensure_schema. unfold mbind at 1, M_bind at 1, getM at 1.
  destruct (get_schema type c); [done|].
  destruct (Schema_from_json w (default_type_config c) (new_Schema type)) as [s [[]|e|]] eqn:E; [|done..].
  assert (Hs : ok_for w maxUInt32 type s).
  { eapply Schema_from_json_ok, E; [apply Hc|]. split; [apply new_Schema_ok|done]. }
  pose proof (set_schema_ok json_serialise type s c (ok_patterns _ _ _ (proj1 Hs)) Hc) as H.
  unfold mbind, M_bind, liftM. by destruct (set_schema w json_serialise type s c) as [c' [s'|e|]].
Qed.

(** The stages that look at the document leave everything else. *)
Lemma on_obj_run {A} (op : M json A) (st st' : doc_state) (r : res A) :
  on_obj op st = (st', r) → ds_config st' = ds_config st ∧ ds_refs st' = ds_refs st ∧ (op (ds_obj st)).2 = r.
Proof. unfold on_obj. destruct (op (ds_obj st)). by intros [= <- <-]. Qed.

Lemma type_stage_url cfg dt v v' t : dt ≠ "" → type_stage cfg dt v = (v', Ok (inr t)) → t = dt.
Proof.
  intros Hdt H. unfold type_stage in H. rewrite decide_False in H by done. unfold from_url in H.
  apply M_bind_inv in H as (? & o & _ & H). destruct (isNull o).
  - by apply M_bind_inv in H as (? & ? & _ & [= _ <-]).
  - apply M_bind_inv in H as (? & sv & _ & H). unfold mret, M_ret in H. destruct sv; [|congruence..].
    repeat case_match; congruence.
Qed.

Lemma fail_doc_run e (st st' : doc_state) d : fail_doc e st = (st', Ok d) → d = new_document ∧ ds_config st' = ds_config st ∧
  ref_idterm (ds_refs st') = ref_idterm (ds_refs st).
Proof. unfold fail_doc, mbind, M_bind, modifyM, mret, M_ret. by intros [= <- <-]. Qed.

Lemma process_doc_ok assertions doc_type doc_id st st' d :
  config_ok (ds_config st) → ref_idterm (ds_refs st) = "" →
  process_doc w assertions doc_type doc_id st = (st', Ok d) →
  config_ok (ds_config st') ∧
  ∃ dt, (doc_type ≠ "" → dt = doc_type) ∧ identified dt d (ref_idterm (ds_refs st')) (ref_errors (ds_refs st')).
Proof.
  intros Hc Hid H. unfold process_doc in H.
  apply M_bind_inv in H as (? & ? & [= <- <-] & H). apply M_bind_inv in H as (? & ? & [= <- _] & H).
  apply M_bind_inv in H as (s1 & t & Ht & H). apply on_obj_run in Ht as (Hc1 & Hr1 & Ht).
  assert (Hfail : ∀ s e, ds_config s = ds_config st → ds_refs s = ds_refs st → fail_doc e s = (st', Ok d) →
    config_ok (ds_config st') ∧
    ∃ dt, (doc_type ≠ "" → dt = doc_type) ∧ identified dt d (ref_idterm (ds_refs st')) (ref_errors (ds_refs st'))).
  { intros s e E1 E2 (-> & -> & ->)%fail_doc_run. rewrite E1, E2, Hid. split; [done|]. exists doc_type.
    split; [done|apply new_doc_identified]. }
  destruct t as [e|type]; [by eapply Hfail|].
  apply M_bind_inv in H as (s2 & i & Hi & H). apply on_obj_run in Hi as (Hc2 & Hr2 & Hi).
  destruct i as [e|id]; [by eapply Hfail, H; congruence|].
  case_decide; [|by eapply Hfail, H; congruence].
  apply M_bind_inv in H as (s3 & [] & He & H).
  pose proof (ensure_schema_ok type (ds_config s2)) as Hc3. unfold on_cfg in He.
  destruct (ensure_schema w type (ds_config s2)) as [c3 r3]. injection He as <- ->. cbn [fst ds_config] in *.
  specialize (Hc3 ltac:(by rewrite Hc2, Hc1)).
  unfold process_with in H. cbn [ds_config ds_obj ds_refs] in H.
  destruct (get_schema type c3) as [s|] eqn:Es; [|done]. apply get_schema_some in Es.
  destruct (Schema_process w assertions c3 (ds_obj s2) (s, ds_refs s2)) as [[s' r'] x] eqn:Ep.
  eapply Schema_process_ok in Ep as [Hs' Hd]; [|by eapply cfg_types]. injection H as <- ->. cbn [ds_config ds_refs].
  split; [by apply set_types_ok|]. exists type. split; [|by apply Hd].
  intros Hne. destruct (type_stage (ds_config st) doc_type (ds_obj st)) as [v' o] eqn:Eo. cbn in Ht. subst.
  by eapply type_stage_url.
Qed.

(** ** Terms and errors stay *)

(** What indexing keeps: the terms of the document and the errors only grow. *)
Record growing (P : IndexingState document → Prop) : Prop := {
  grow_doc : ∀ f, (∀ d : document, terms d ⊆ terms (f d)) → ∀ s, P s → P (upd_doc f s);
  grow_other : ∀ f, (∀ s, doc (f s) = doc s ∧ errors (state_errors s) `prefix_of` errors (state_errors (f s))) →
    ∀ s, P s → P (f s);
}.

Definition holds_term (t : string) (s : IndexingState document) : Prop := t ∈ terms (doc s).
Definition failed (s : IndexingState document) : Prop := errors (state_errors s) ≠ [].

Lemma holds_growing t : growing (holds_term t).
Proof. split; unfold holds_term; [intros f Hf s Hs; by apply Hf|]. intros f Hf s. by destruct (Hf s) as [-> _]. Qed.

Lemma failed_growing : growing failed.
Proof.
  split; unfold failed; [done|]. intros f Hf s Hs He. destruct (Hf s) as [_ Hp]. rewrite He in Hp.
  by apply prefix_nil_inv in Hp.
Qed.

Lemma growing_or P Q : growing P → growing Q → growing (λ s, P s ∨ Q s).
Proof. intros [P1 P2] [Q1 Q2]. split; intros f Hf s [?|?]; eauto. Qed.

Lemma terms_add_subseteq t n (d : document) : terms d ⊆ terms (add_term_wdf t n d).
Proof. rewrite terms_add_wdf. set_solver. Qed.

Lemma terms_posting_subseteq t n (d : document) : terms d ⊆ terms (add_posting t n d).
Proof. rewrite terms_add_posting. set_solver. Qed.

Section grow.
Context (P : IndexingState document → Prop) (HP : growing P).

Ltac grow_step :=
  apply maintains_modify; [|done]; first
    [ apply (grow_doc P HP); intros; first [apply terms_add_subseteq | apply terms_posting_subseteq | apply index_text_keeps]
    | apply (grow_other P HP); intros; split; [done|]; first [done | cbn; apply prefix_app_r; done] ].

Lemma grow_exact_values f l :
  (∀ v, maintains P (f v) (λ _, True)) → maintains P (exact_values f l) (λ _, True).
Proof.
  intros Hf. induction l as [|v l IH]; cbn [exact_values]; [by apply maintains_ret|].
  apply maintains_bind_any; [apply Hf|]. intros []; [by apply maintains_ret|done].
Qed.

Lemma grow_exact_value p n m a isid slot lower name v :
  maintains P (exact_value w p n m a isid slot lower name v) (λ _, True).
Proof.
  unfold exact_value, set_idterm, append_error, shorten, add_value_if, append_error, field_empty, field_nonempty.
  maintain grow_step.
Qed.

Lemma grow_category_value p t n a slot name v : maintains P (category_value w p t n a slot name v) (λ _, True).
Proof.
  unfold category_value, append_error, shorten, add_value_if, append_error, field_empty, field_nonempty.
  maintain grow_step.
Qed.

Lemma grow_index cfg i name v : maintains P (FieldIndexer_index w cfg i name v) (λ _, True).
Proof.
  destruct i; cbn [FieldIndexer_index];
    unfold MetaIndexer_index, ExactStringIndexer_index, StoredIndexer_index, DoubleIndexer_index, TimeStampIndexer_index,
      DateIndexer_index, CategoryIndexer_index, LonLatIndexer_index, TermGeneratorIndexer_index, CJKIndexer_index;
    unfold meta_field_entries, add_entry_if, add_entry, stored_value, number_value, date_value, category_value, lonlat_value,
      text_value, stemmed_text, cjk_text, store_values, add_value_if, shorten, append_error, field_empty, field_nonempty;
    maintain ltac:(first [apply grow_exact_values; intros; apply grow_exact_value | grow_step]).
Qed.

Lemma grow_set_idterm name i : maintains P (set_idterm name i) (λ _, True).
Proof. unfold set_idterm, append_error. maintain grow_step. Qed.

Lemma grow_store f v : maintains P (store_values f v) (λ _, True).
Proof. unfold store_values. maintain grow_step. Qed.

Definition proc_holds (p : @process_state document) : Prop := P (proc_state p).

Lemma grow_on_state {A} (op : M (IndexingState document) A) :
  maintains P op (λ _, True) → maintains proc_holds (on_state op) (λ _, True).
Proof.
  intros Hop p Hp. destruct (Hop _ Hp) as [H1 H2]. unfold on_state. by destruct (op (proc_state p)).
Qed.

Lemma grow_on_schema {A} (op : M Schema A) : maintains proc_holds (on_schema op) (λ _, True).
Proof. intros p Hp. unfold on_schema. by destruct (op (proc_schema p)). Qed.

Lemma grow_find name : maintains proc_holds (find_indexer w name) (λ _, True).
Proof.
  unfold find_indexer. maintain ltac:(first [apply grow_on_schema | by apply maintains_modify]).
Qed.

Lemma grow_member cfg m : maintains proc_holds (process_member w cfg m) (λ _, True).
Proof.
  destruct m as [name v]. unfold process_member.
  maintain ltac:(first [apply grow_find | apply grow_on_state;
    first [apply grow_index | unfold append_error, field_empty; maintain grow_step]]).
Qed.

Lemma grow_meta cfg : maintains proc_holds (process_meta w cfg) (λ _, True).
Proof. unfold process_meta. maintain ltac:(first [apply grow_find | apply grow_on_state, grow_index]). Qed.
End grow.

End identify.
