(* ===== verification/ProcessThms.v ===== *)
(** * Processing documents: properties

    A document that is processed without errors is identified by its type and its
    identifier, so that it is found under them once it is stored; what happens when the
    document names its identifier badly. *)

From S2P Require Import Prelude Json TextUtils Taxonomy DocData DocValues Hashing Schema SchemaThms CollConfig Indexing.
From S2P Require Import XapianDb RefLib DbGroup DbGroupThms ProcessDoc IndexingThms.

(** ** The indexer of a field *)

(** The indexer that will be used for a field, now or when it is first met. *)
Definition field_indexer (w : N) (s : Schema) (name : string) : option FieldIndexer :=
  match indexers s !! name with
  | Some i => i
  | None =>
      match fields s !! name with
      | Some f => FieldConfig_indexer f
      | None => match FieldConfigPatterns_get w (patterns s) name (doc_type s) with
                | Ok (Some f) => FieldConfig_indexer f
                | _ => None
                end
      end
  end.

Section indexer.
Context {document database : Type} `{!Xapian document database} `{!XapianLaws document database}
  `{!DocStore document} `{!IndexLib document} `{!IndexLibLaws document database}.
Context (w : N).

Lemma field_indexer_get s n m : field_indexer w (Schema_get_indexer n s).1 m = field_indexer w s m.
Proof.
  unfold Schema_get_indexer, field_indexer. destruct (indexers s !! n) eqn:E1; [done|].
  destruct (fields s !! n) as [f|] eqn:E2; [|done]. cbn.
  destruct (decide (n = m)) as [->|Hne]; [by rewrite lookup_insert_eq, E1, E2|by rewrite lookup_insert_ne].
Qed.

(** What [get_indexer] answers, and when it does not know. *)
Lemma get_indexer_answer s n : ∃ o, (Schema_get_indexer n s).2 = Ok o ∧
  (o = field_indexer w s n ∨ (o = None ∧ indexers s !! n = None ∧ fields s !! n = None)) ∧
  (o = None → is_Some (indexers s !! n ∪ (FieldConfig_indexer <$> fields s !! n)) → field_indexer w s n = None).
Proof.
  unfold Schema_get_indexer, field_indexer. destruct (indexers s !! n) as [i|] eqn:E1; cbn; [by eauto|].
  destruct (fields s !! n) as [f|] eqn:E2; cbn; [by eauto|]. exists None. split_and!; [done|by right|]. by intros _ [? ?].
Qed.

(** Setting a field that has no indexer from the patterns changes no indexer. *)
Lemma field_indexer_set s n g m :
  FieldConfigPatterns_get w (patterns s) n (doc_type s) = Ok g →
  (is_Some (indexers s !! n) ∨ fields s !! n = None) →
  field_indexer w (Schema_set n g s) m = field_indexer w s m.
Proof.
  intros Hg Hn. unfold field_indexer.
  assert (E : indexers (Schema_set n g s) = indexers s ∧ patterns (Schema_set n g s) = patterns s ∧ doc_type (Schema_set n g s) = doc_type s)
    by by destruct g. destruct E as (-> & -> & ->). destruct (indexers s !! m) eqn:Em; [done|].
  destruct (decide (n = m)) as [->|Hne].
  - destruct Hn as [[? ?]|Hn]; [congruence|]. rewrite Hn, Hg. destruct g; cbn; [by rewrite lookup_insert_eq|].
    by rewrite lookup_delete_eq.
  - destruct g; cbn; [by rewrite lookup_insert_ne|by rewrite lookup_delete_ne].
Qed.

(** Finding the indexer of a field gives that indexer, and changes that of no field. *)
Lemma find_indexer_spec n (p : @process_state document) :
  (∀ m, field_indexer w (proc_schema (find_indexer w n p).1) m = field_indexer w (proc_schema p) m) ∧
  proc_state (find_indexer w n p).1 = proc_state p ∧
  ∀ o, (find_indexer w n p).2 = Ok o → o = field_indexer w (proc_schema p) n.
Proof.
  unfold find_indexer, on_schema, mbind, M_bind, getM, liftM, modifyM.
  pose proof (field_indexer_get (proc_schema p) n) as Hget.
  destruct (get_indexer_answer (proc_schema p) n) as (o & Ho & Hans & Hnone).
  assert (Hn : is_Some (indexers (Schema_get_indexer n (proc_schema p)).1 !! n) ∨ fields (Schema_get_indexer n (proc_schema p)).1 !! n = None).
  { unfold Schema_get_indexer. destruct (indexers (proc_schema p) !! n) eqn:E1; cbn; [left; by rewrite E1|].
    destruct (fields (proc_schema p) !! n) eqn:E2; cbn; [left; by rewrite lookup_insert_eq|by right]. }
  destruct (Schema_get_indexer n (proc_schema p)) as [s1 r]. cbn [fst snd] in *. subst r.
  destruct o as [i|].
  { cbn. split_and!; [done|done|]. intros ? [= <-]. destruct Hans as [?|[? _]]; done. }
  cbn [proc_schema]. destruct (FieldConfigPatterns_get w (patterns s1) n (doc_type s1)) as [g|e|] eqn:Eg; [|by cbn; eauto..].
  cbn [proc_schema proc_state new_fields]. pose proof (field_indexer_get (Schema_set n g s1) n) as Hget2.
  destruct (get_indexer_answer (Schema_set n g s1) n) as (o & Ho & Hans2 & _).
  destruct (Schema_get_indexer n (Schema_set n g s1)) as [s2 r]. cbn [fst snd] in *. subst r.
  cbn. split_and!; [|done|].
  - intros m. specialize (Hget2 m). cbn [fst] in Hget2. by rewrite Hget2, (field_indexer_set s1 n g m Eg Hn), Hget.
  - intros ? [= <-]. rewrite <-Hget, <-(field_indexer_set s1 n g n Eg Hn). destruct Hans2 as [?|(-> & E1 & E2)]; [done|].
    unfold field_indexer. rewrite E1, E2. destruct g; cbn in E2; [by rewrite lookup_insert_eq in E2|]. cbn. by rewrite Eg.
Qed.

(** Indexing a member changes the indexer of no field. *)
Lemma on_state_indexer {A} (f : M (IndexingState document) A) n o :
  maintains (λ p : @process_state document, field_indexer w (proc_schema p) n = o) (on_state f) (λ _, True).
Proof. intros p Hp. unfold on_state. split; [|done]. by destruct (f (proc_state p)). Qed.

Lemma process_member_indexer cfg n (o : option FieldIndexer) mem :
  maintains (λ p : @process_state document, field_indexer w (proc_schema p) n = o) (process_member w cfg mem) (λ _, True).
Proof.
  unfold process_member. destruct mem as [m v]. case_decide; [by apply on_state_indexer|].
  eapply maintains_bind_any; [|intros i].
  - intros p Hp. split; [|done]. by rewrite (proj1 (find_indexer_spec m p)).
  - destruct i; [|by apply maintains_ret]. destruct (isNull v); by apply on_state_indexer.
Qed.

End indexer.

(** ** The identifier of the document *)

Lemma valid_id_clean id : validate_doc_id id = "" → id ≠ "" ∧ clean id.
Proof.
  intros H. assert (Hf : id ≠ "" ∧ Forall (λ c, bad_char c = false) (bytes id)).
  { destruct id as [|c id]; [done|]. split; [done|]. by apply validate_chars_ok in H. }
  destruct Hf as [Hne Hf]. split; [done|]. clear H Hne.
  unfold clean. induction id as [|c id IH]; [done|]. rewrite bytes_cons in Hf. apply Forall_cons in Hf as [Hc Hf]. cbn.
  destruct (N.eqb_spec (ord c) 0) as [E|]; [|by rewrite IH]. unfold bad_char in Hc. by rewrite E in Hc.
Qed.

Section identifier.
Context {document database : Type} `{!Xapian document database} `{!XapianLaws document database}
  `{!DocStore document} `{!IndexLib document} `{!IndexLibLaws document database}.
Context (w : N).

(** The values that name the identifier. *)
Definition names_id (id : string) (v : json) : Prop := v = JStr id ∨ v = JArr [JStr id].

Lemma exact_value_id dt m a slot name id (s s' : IndexingState document) b :
  validate_doc_id id = "" → (str_size id <= m)%N →
  exact_value w (id_prefix dt) 0 m a true slot false name (JStr id) s = (s', Ok b) →
  b = false ∧ id_prefix dt +:+ id ∈ terms (doc s').
Proof.
  intros Hid Hm H. destruct (valid_id_clean id Hid) as [Hne _]. unfold exact_value in H.
  apply M_bind_inv in H as (? & [v e] & [= <- <- <-] & H). cbn [bool_decide] in H.
  rewrite decide_False in H by done. cbn [negb] in H.
  apply M_bind_inv in H as (s1 & _ & _ & H). rewrite Hid in H.
  apply M_bind_inv in H as (s2 & _ & _ & H). apply M_bind_inv in H as (s3 & v & Hv & H).
  unfold shorten in Hv. destruct (N.ltb_spec m (str_size id)); [lia|]. injection Hv as <- <-.
  apply M_bind_inv in H as (s4 & [] & [= <-] & H). apply M_bind_inv in H as (s5 & [] & H5 & [= <- <-]). split; [done|].
  match type of H5 with set_idterm _ _ ?s0 = _ => assert (Hs0 : holds_term (id_prefix dt +:+ id) s0) end.
  { unfold holds_term. cbn. rewrite terms_add_wdf. set_solver. }
  destruct (grow_set_idterm _ (holds_growing (id_prefix dt +:+ id)) name (id_prefix dt +:+ id) _ Hs0) as [H6 _]. by rewrite H5 in H6.
Qed.

Lemma index_id cfg base store dt name id v i (s s' : IndexingState document) :
  validate_doc_id id = "" → (str_size id <= max_length base)%N → names_id id v →
  FieldConfig_indexer (IDFieldConfig base store (id_prefix dt)) = Some i →
  FieldIndexer_index w cfg i name (if isArray v then v else JArr [v]) s = (s', Ok ()) →
  id_prefix dt +:+ id ∈ terms (doc s').
Proof.
  intros Hid Hm Hv [= <-] H. replace (if isArray v then v else JArr [v]) with (JArr [JStr id]) in H by by destruct Hv as [-> | ->].
  cbn [FieldIndexer_index] in H. unfold ExactStringIndexer_index in H. cbn [json_elems exact_values] in H.
  apply M_bind_inv in H as (s1 & stop & H1 & H). apply M_bind_inv in H1 as (s2 & b & H1 & H2).
  apply exact_value_id in H1 as [-> Ht]; [|done..]. injection H2 as <- <-.
  destruct (grow_store _ (holds_growing _) store (JArr [JStr id]) s2 Ht) as [H6 _]. by rewrite H in H6.
Qed.

(** What indexing one member makes true of the document and its errors, if indexing keeps
    it, is true at the end. *)
Lemma process_members_grow (P : IndexingState document → Prop) (HP : growing P) cfg assertions name v obj i p p' d :
  field_indexer w (proc_schema p) name = Some i → name ≠ meta_field cfg → isNull v = false →
  obj_find name (json_members obj) = Some v →
  (∀ s s', FieldIndexer_index w cfg i name (if isArray v then v else JArr [v]) s = (s', Ok ()) → P s') →
  process_members w assertions cfg obj p = (p', Ok d) →
  ∃ s, P s ∧ d = doc (proc_state p') ∧ terms d = terms (doc s) ∧ state_errors (proc_state p') = state_errors s.
Proof.
  intros Hp Hne Hnn Hf Hindex H. pose proof (process_members_doc w cfg assertions obj p p' d H) as Hd. unfold process_members in H.
  apply obj_find_elem, list_elem_of_split in Hf as (l1 & l2 & El).
  apply M_bind_inv in H as (p3 & [] & H1 & H). rewrite El in H1. apply for_each_split in H1 as (p1 & p2 & H1 & H2 & H3).
  assert (Hp1 : field_indexer w (proc_schema p1) name = Some i).
  { assert (Hc : maintains (λ q : @process_state document, field_indexer w (proc_schema q) name = field_indexer w (proc_schema p) name)
      (for_each l1 (process_member w cfg)) (λ _, True)) by (apply maintains_for_each; intros; apply process_member_indexer).
    destruct (Hc p eq_refl) as [Hx _]. rewrite H1 in Hx. cbn in Hx. by rewrite Hx. }
  assert (Ht2 : proc_holds P p2).
  { unfold process_member in H2. rewrite decide_False in H2 by done. apply M_bind_inv in H2 as (p4 & o & H4 & H2).
    destruct (find_indexer_spec w name p1) as (_ & _ & Ho). rewrite H4 in Ho. specialize (Ho o eq_refl). rewrite Hp1 in Ho. subst o.
    rewrite Hnn in H2. unfold on_state in H2. destruct (FieldIndexer_index _ _ _ _ _ _) as [s4 r4] eqn:E4 in H2.
    injection H2 as <- ->. by eapply Hindex. }
  assert (Ht3 : proc_holds P p3).
  { assert (Hc : maintains (proc_holds P) (for_each l2 (process_member (document:=document) w cfg)) (λ _, True))
      by (apply maintains_for_each; intros; apply (grow_member _ _ HP)).
    destruct (Hc p2 Ht2) as [Hx _]. by rewrite H3 in Hx. }
  apply M_bind_inv in H as (p5 & [] & H5 & H). destruct (grow_meta w _ HP cfg p3 Ht3) as [Ht5 _]. rewrite H5 in Ht5.
  exists (proc_state p5). unfold on_state in H. pose proof (finish_doc_spec assertions (proc_state p5)) as (E & E').
  destruct (finish_doc assertions (proc_state p5)) as [s6 r6]. injection H as <- _. subst d. cbn in *. by destruct E' as (? & ? & ?).
Qed.

(** Processing a document that names its identifier in the identifier field. *)
Lemma process_members_id cfg assertions base store dt id v obj p p' d :
  validate_doc_id id = "" → (str_size id <= max_length base)%N → names_id id v →
  field_indexer w (proc_schema p) (id_field cfg) = FieldConfig_indexer (IDFieldConfig base store (id_prefix dt)) → id_field cfg ≠ meta_field cfg →
  obj_find (id_field cfg) (json_members obj) = Some v →
  process_members w assertions cfg obj p = (p', Ok d) →
  id_prefix dt +:+ id ∈ terms d.
Proof.
  intros Hid Hm Hv Hp Hne Hf H.
  eapply (process_members_grow _ (holds_growing (id_prefix dt +:+ id))) in H as (s & Hs & _ & E & _); [|exact Hp|done| |exact Hf|].
  - by rewrite E.
  - by destruct Hv as [-> | ->].
  - intros s s'. by eapply index_id.
Qed.

(** *** The stages *)

Lemma index_insert_get key k v v' x : clean key → clean k →
  json_index_insert key v = (v', Ok x) →
  json_get v key JNull = Ok x ∧ isObject v' = true ∧ json_get v' k JNull = json_get v k JNull.
Proof.
  intros Hkey Hk. unfold json_index_insert. destruct (json_member v key) as [[y|]|e|] eqn:E; [..|done|done].
  - intros [= <- <-]. unfold json_get at 1. rewrite E. split_and!; [done| |done]. by destruct v.
  - intros [= <- <-]. assert (Ho : isObject v = true) by by destruct v.
    split_and!; [by unfold json_get; rewrite E|apply isObject_set|]. rewrite json_get_set by done. case_decide as Hd; [|done].
    subst k. unfold json_get. by rewrite E.
Qed.

Lemma from_url_run field supplied many differs k v v' o : clean field → clean k →
  from_url (document:=document) field supplied many differs v = (v', Ok (inr o)) →
  o = supplied ∧ isObject v' = true ∧ (k ≠ field → json_get v' k JNull = json_get v k JNull) ∧
  (json_get v field JNull = Ok JNull → json_get v' field JNull = Ok (JArr [jstr supplied])) ∧
  (json_get v field JNull ≠ Ok JNull → json_get v' field JNull = json_get v field JNull).
Proof.
  intros Hf Hk H. unfold from_url in H. apply M_bind_inv in H as (v1 & x & H1 & H).
  destruct (index_insert_get _ k _ _ _ Hf Hk H1) as (Hx & Ho & Hg). destruct (index_insert_get _ field _ _ _ Hf Hf H1) as (_ & _ & Hgf).
  destruct (isNull x) eqn:En.
  - apply M_bind_inv in H as (? & ? & [= <- <-] & [= <- <-]). destruct x; try done. rewrite Hx.
    split_and!; [done|apply isObject_set| |intros _; by apply get_set_same|done]. intros. by rewrite get_set_other.
  - apply M_bind_inv in H as (v2 & sv & [= <- _] & H). unfold mret, M_ret in H.
    assert (E : v' = v1 ∧ o = supplied) by (destruct sv; repeat case_match; by simplify_eq). destruct E as [-> ->].
    rewrite Hx, Hgf. split_and!; [done..| |done]. intros [= ->]. done.
Qed.

Lemma members_find v k x : clean k → json_get v k JNull = Ok x → isNull x = false → obj_find k (json_members v) = Some x.
Proof.
  intros Hk. unfold json_get, json_member. destruct v; try done; cbn; rewrite ?Hk; intros [= <-]; [done|].
  by destruct (obj_find k m).
Qed.

(** The document names its identifier, or not at all. *)
Definition id_given (id : string) (obj : json) (field : string) : Prop :=
  json_get obj field JNull = Ok JNull ∨ ∃ v, json_get obj field JNull = Ok v ∧ names_id id v.

Lemma id_stage_run cfg id v v' o : clean (id_field cfg) → id ≠ "" → id_given id v (id_field cfg) →
  id_stage (document:=document) cfg id v = (v', Ok (inr o)) →
  validate_doc_id id = "" ∧ ∃ x, obj_find (id_field cfg) (json_members v') = Some x ∧ names_id id x.
Proof.
  intros Hf Hid Hg H. unfold id_stage in H. rewrite decide_False in H by done.
  apply M_bind_inv in H as (v1 & r & H1 & H). destruct r as [e|s]; [done|]. unfold mret, M_ret in H.
  destruct (from_url_run _ _ _ _ (id_field cfg) _ _ _ Hf Hf H1) as (-> & Ho & _ & Hn & Hs).
  destruct (decide (validate_doc_id id = "")) as [Hv|]; [|congruence]. injection H as <- <-. split; [done|].
  destruct (valid_id_clean id Hv) as [_ Hc]. destruct Hg as [Hg|(x & Hg & Hx)].
  - exists (JArr [jstr id]). split; [by apply members_find; [|apply Hn|]|]. right. by rewrite clean_jstr.
  - exists x. split; [|done]. assert (Hnn : isNull x = false) by by destruct Hx as [-> | ->].
    apply members_find; [done| |done]. rewrite Hs; [done|]. rewrite Hg. by intros [= ->].
Qed.

(** *** The whole of [process_doc] *)

(** What [ensure_schema] leaves alone. *)
Lemma ensure_schema_fields type c :
  id_field (ensure_schema w type c).1 = id_field c ∧ type_field (ensure_schema w type c).1 = type_field c ∧
  meta_field (ensure_schema w type c).1 = meta_field c ∧ taxonomies (ensure_schema w type c).1 = taxonomies c.
Proof.
  unfold ensure_schema, set_schema, mbind, M_bind, getM, liftM. destruct (get_schema type c); [done|].
  destruct (Schema_from_json w (default_type_config c) (new_Schema type)) as [s [[]|e|]]; [|done..]. cbn.
  destruct (match types c !! type with None => Some (new_Schema type) | Some s => s end) as [s0|]; [|done].
  by destruct (Schema_merge_from w json_serialise s s0) as [s' [[]|e|]].
Qed.

(** A run without errors went through every stage. *)
Lemma process_doc_stages assertions type id (st st' : doc_state) d :
  process_doc w assertions type id st = (st', Ok d) → errors (ref_errors (ds_refs st')) = [] → type ≠ "" →
  ∃ obj1 obj2 id' c s s',
    type_stage (ds_config st) type (ds_obj st) = (obj1, Ok (inr type)) ∧
    id_stage (ds_config st) id obj1 = (obj2, Ok (inr id')) ∧
    ensure_schema w type (ds_config st) = (c, Ok ()) ∧ get_schema type c = Some s ∧
    Schema_process w assertions c obj2 (s, ds_refs st) = (s', ds_refs st', Ok d) ∧
    ds_config st' = set_types (<[type := Some s']> (types c)) (changed c) c.
Proof.
  intros H He Htype. unfold process_doc in H.
  apply M_bind_inv in H as (? & ? & [= <- <-] & H). apply M_bind_inv in H as (? & ? & [= <- _] & H).
  apply M_bind_inv in H as (s1 & t & Ht & H).
  assert (Hfail : ∀ s e, fail_doc e s = (st', Ok d) → False).
  { intros s e. unfold fail_doc, mbind, M_bind, modifyM, mret, M_ret. intros [= <- _]. cbn in He. by apply app_eq_nil in He as [_ ?]. }
  destruct t as [e|ty]; [by apply Hfail in H|].
  apply M_bind_inv in H as (s2 & i & Hi & H). destruct i as [e|id']; [by apply Hfail in H|].
  case_decide; [|by apply Hfail in H].
  unfold on_obj in Ht, Hi. destruct (type_stage (ds_config st) type (ds_obj st)) as [obj1 o1] eqn:E1. injection Ht as <- ->.
  pose proof (type_stage_url _ _ _ _ _ Htype E1) as ->. cbn [ds_config ds_obj ds_refs] in *.
  destruct (id_stage (ds_config st) id obj1) as [obj2 o2] eqn:E2. injection Hi as <- ->.
  apply M_bind_inv in H as (s3 & [] & H3 & H). unfold on_cfg in H3. cbn [ds_config ds_obj ds_refs] in *.
  destruct (ensure_schema w type (ds_config st)) as [c r] eqn:E3. injection H3 as <- ->.
  unfold process_with in H. cbn [ds_config ds_obj ds_refs] in *. destruct (get_schema type c) as [s|] eqn:E4; [|done].
  destruct (Schema_process w assertions c obj2 (s, ds_refs st)) as [[s' r'] x] eqn:E5. injection H as <- ->. cbn in *.
  exists obj1, obj2, id', c, s, s'. done.
Qed.

Lemma document_identified assertions type id base store (st st' : doc_state) d :
  config_ok w (ds_config st) → ref_idterm (ds_refs st) = "" → type ≠ "" → id ≠ "" →
  clean (id_field (ds_config st)) → clean (type_field (ds_config st)) →
  id_field (ds_config st) ≠ type_field (ds_config st) → id_field (ds_config st) ≠ meta_field (ds_config st) →
  (∀ s, get_schema type (ensure_schema w type (ds_config st)).1 = Some s →
    field_indexer w s (id_field (ds_config st)) = FieldConfig_indexer (IDFieldConfig base store (id_prefix type))) →
  (str_size id <= max_length base)%N → id_given id (ds_obj st) (id_field (ds_config st)) →
  process_doc w assertions type id st = (st', Ok d) → errors (ref_errors (ds_refs st')) = [] →
  ref_idterm (ds_refs st') = id_prefix type +:+ id ∧ ids d = {[id_prefix type +:+ id]}.
Proof.
  intros Hc Hnil Htype Hid Hci Hct Hit Him Hconf Hlen Hg H He.
  destruct (process_doc_ok w assertions type id st st' d Hc Hnil H) as [_ (dt & Hdt & [_ _ _ Honly])]. specialize (Honly He).
  destruct (process_doc_stages _ _ _ _ _ _ H He Htype) as (obj1 & obj2 & id' & c & s & s' & E1 & E2 & E3 & E4 & E5 & _).
  assert (Hg1 : id_given id obj1 (id_field (ds_config st))).
  { unfold type_stage in E1. rewrite decide_False in E1 by done.
    destruct (from_url_run _ _ _ _ (id_field (ds_config st)) _ _ _ Hct Hci E1) as (_ & _ & Hk & _).
    unfold id_given. by rewrite Hk. }
  destruct (id_stage_run _ _ _ _ _ Hci Hid Hg1 E2) as (Hv & x & Hx & Hnx).
  destruct (ensure_schema_fields type (ds_config st)) as (F1 & _ & F2 & _). rewrite E3 in F1, F2, Hconf. cbn in *.
  assert (Hin : id_prefix type +:+ id ∈ terms d).
  { unfold Schema_process, json_check_object in E5. destruct (isObject obj2); [|done].
    destruct (process_members w assertions c obj2 _) as [p' r] eqn:Ep in E5. injection E5 as _ _ ->.
    eapply (process_members_id c assertions base store type id x); [done|done|done| | | |exact Ep].
    - cbn. rewrite F1. auto.
    - by rewrite F1, F2.
    - by rewrite F1. }
  assert (Hids : id_prefix type +:+ id ∈ ids d) by (unfold ids; rewrite elem_of_filter; split; done).
  rewrite <-(Honly _ Hids). split; [done|]. apply set_eq. intros y. rewrite elem_of_singleton. split; [|by intros ->].
  intros Hy. by rewrite (Honly y Hy), (Honly _ Hids).
Qed.

End identifier.

(** ** Properties *)

(** C9: whatever a document holds, processing keeps all schemas well-formed, and the
    identifying terms (those that start with a tab) of the document made are of its type;
    it has one exactly when an identifier was set, and unless an error was recorded that
    one is the only one. *)
Theorem process_doc_identifies {document database} `{!Xapian document database} `{!XapianLaws document database}
    `{!DocStore document} `{!IndexLib document} `{!IndexLibLaws document database}
    w assertions doc_type doc_id st st' (d : document)
    (Hc : config_ok w (ds_config st)) (Hid : ref_idterm (ds_refs st) = "")
    (H : process_doc w assertions doc_type doc_id st = (st', Ok d)) :
  config_ok w (ds_config st') ∧ ∃ dt, (doc_type ≠ "" → dt = doc_type) ∧
    (∀ t, t ∈ ids d → ∃ r, t = id_prefix dt +:+ r) ∧
    (ref_idterm (ds_refs st') = "" ↔ ids d = ∅) ∧
    (ref_idterm (ds_refs st') ≠ "" → errors (ref_errors (ds_refs st')) = [] → ids d = {[ref_idterm (ds_refs st')]}).
Proof.
  destruct (process_doc_ok w assertions doc_type doc_id st st' d Hc Hid H) as [Hc' (dt & Hdt & [H1 H2 H3 H4])].
  split; [done|]. exists dt. split_and!; [done|done| |].
  - split; [done|]. intros Hn. destruct (decide (ref_idterm (ds_refs st') = "")) as [|Hne]; [done|]. specialize (H3 Hne). set_solver.
  - intros Hne He. apply set_eq. intros y. rewrite elem_of_singleton. split; [by apply H4|]. intros ->. auto.
Qed.

(** A document sent to [/coll/.../type/TYPE/id/ID] is stored where a request for that
    type and identifier finds it.  If the identifier field is configured as such, the
    document holds the same identifier or none, and no errors are reported, then the
    document made is identified by the term of the type and the identifier alone; adding
    it to the databases of the collection replaces the document of that identifier and no
    other, and looking the identifier up returns it. *)
Theorem put_then_get {document database} `{!Xapian document database} `{!XapianLaws document database} `{!CommitsSucceed document database}
    `{!DocStore document} `{!IndexLib document} `{!IndexLibLaws document database}
    w assertions type id base store st st' (d : document) js io (g : @DbGroup database) (m : gmap string document)
    (Hc : config_ok w (ds_config st)) (Hnil : ref_idterm (ds_refs st) = "") (Htype : type ≠ "") (Hid : id ≠ "")
    (Hclean : clean (id_field (ds_config st)) ∧ clean (type_field (ds_config st)))
    (Hfields : id_field (ds_config st) ≠ type_field (ds_config st) ∧ id_field (ds_config st) ≠ meta_field (ds_config st))
    (Hconf : ∀ s, get_schema type (ensure_schema w type (ds_config st)).1 = Some s →
      field_indexer w s (id_field (ds_config st)) = FieldConfig_indexer (IDFieldConfig base store (id_prefix type)))
    (Hlen : (str_size id <= max_length base)%N) (Hobj : id_given id (ds_obj st) (id_field (ds_config st)))
    (Hrun : process_doc w assertions type id st = (st', Ok d)) (He : errors (ref_errors (ds_refs st')) = [])
    (Hio : ∀ step, io step = true) (Hn : (next_fragnum g + 2 < 2 ^ 32)%N)
    (Hg : group_ok g) (Hw : writable g) (Hm : represents g m) :
  let t := id_prefix type +:+ id in
  ref_idterm (ds_refs st') = t ∧ ids d = {[t]} ∧
  ∃ g', DbGroup_add_doc js io d (ref_idterm (ds_refs st')) g = (g', Ok ()) ∧
    group_ok g' ∧ writable g' ∧ represents g' (<[t := d]> m) ∧
    (fresh g' → ∃ g'', DbGroup_get_document t g' = (g'', Ok (Some d))).
Proof.
  intros t. destruct Hclean as [Hci Hct], Hfields as [Hit Him].
  destruct (document_identified w assertions type id base store st st' d) as [E Hids]; [done..|]. fold t in E, Hids.
  split_and!; [done|done|]. rewrite E.
  destruct (add_doc_represents js io Hio g m t d Hg Hw Hn Hm Hids) as (g' & Ha & Hg' & Hw' & Hm').
  exists g'. split_and!; [done..|]. intros Hf.
  destruct (get_document_represents g' (<[t := d]> m) t) as (g'' & Hget & _); [by try (unfold is_open; rewrite Hw')..|].
  exists g''. by rewrite lookup_insert_eq in Hget.
Qed.

(** *** A collection with the default configuration *)

Definition default_config : CollectionConfig :=
  match new_CollectionConfig "coll" with
  | Ok c => (set_default 64 c).1
  | _ => mkConfig "" ∅ ∅ ∅ "" "" "" JNull ∅ false
  end.

Definition start (obj : json) : doc_state := mkDocState default_config obj (mkRefs "" new_IndexingErrors false).

(** What processing a document sent to a type and an identifier leaves and makes. *)
Definition put (type id : string) (obj : json) : doc_state * refdoc :=
  let '(st, r) := process_doc (document:=refdoc) 64 false type id (start obj) in
  (st, match r with Ok d => d | _ => new_document end).

Definition hello : json := JObj [("a_text", JStr "Hello"); ("b_num", JInt 5); ("my_cat", JStr "foo")].

Lemma default_config_ok : config_ok 64 default_config.
Proof.
  split; [|reflexivity]. intros type s. replace (types default_config) with (∅ : gmap string (option Schema)) by (vm_compute; reflexivity).
  by rewrite lookup_empty.
Qed.

Lemma put_hello : process_doc (document:=refdoc) 64 false "blog" "12" (start hello) =
  ((put "blog" "12" hello).1, Ok (put "blog" "12" hello).2).
Proof. vm_compute. reflexivity. Qed.

Lemma process_doc_identifies_witness :
  let '(st', d) := put "blog" "12" hello in
  config_ok 64 default_config ∧ process_doc (document:=refdoc) 64 false "blog" "12" (start hello) = (st', Ok d) ∧
  config_ok 64 (ds_config st') ∧ ∃ dt, ("blog" ≠ "" → dt = "blog") ∧
    (∀ t, t ∈ ids d → ∃ r, t = id_prefix dt +:+ r) ∧
    (ref_idterm (ds_refs st') = "" ↔ ids d = ∅) ∧
    (ref_idterm (ds_refs st') ≠ "" → errors (ref_errors (ds_refs st')) = [] → ids d = {[ref_idterm (ds_refs st')]}).
Proof.
  pose proof put_hello as H. destruct (put "blog" "12" hello) as [st' d] eqn:E. cbn [fst snd] in H.
  exact (conj default_config_ok (conj H (process_doc_identifies 64 false "blog" "12" (start hello) st' d default_config_ok eq_refl H))).
Defined.

Lemma put_then_get_witness :
  let '(st', d) := put "blog" "12" hello in
  let t := id_prefix "blog" +:+ "12" in
  process_doc (document:=refdoc) 64 false "blog" "12" (start hello) = (st', Ok d) ∧ errors (ref_errors (ds_refs st')) = [] ∧
  ref_idterm (ds_refs st') = t ∧ ids d = {[t]} ∧
  ∃ g', DbGroup_add_doc ref_write (λ _, true) d (ref_idterm (ds_refs st')) empty_group = (g', Ok ()) ∧
    group_ok g' ∧ writable g' ∧ represents g' (<[t := d]> ∅) ∧
    (fresh g' → ∃ g'', DbGroup_get_document t g' = (g'', Ok (Some d))).
Proof.
  pose proof put_hello as H. assert (He : errors (ref_errors (ds_refs (put "blog" "12" hello).1)) = []) by (vm_compute; reflexivity).
  destruct (put "blog" "12" hello) as [st' d]. cbn [fst snd] in H, He. cbv zeta.
  destruct empty_group_ok as (Hg & Hw & Hm & _).
  refine (conj H (conj He (put_then_get 64 false "blog" "12" (mkMaxLen SlotName_default 64 TOOLONG_ERROR) "id" (start hello) st' d
    ref_write (λ _, true) empty_group ∅ default_config_ok eq_refl _ _ _ _ _ _ _ H He (λ _, eq_refl) _ Hg Hw Hm)));
    [done|done|by split|by split| |by vm_compute|by left|by vm_compute].
  intros s Hs. vm_compute in Hs. injection Hs as <-. vm_compute. reflexivity.
Defined.

(** A document whose identifier member is an empty array or an empty string is
    accepted without an error although an identifier was given in the URL, and has no
    identifying term: it is stored, but not under its identifier. *)
Theorem empty_id_unaddressable :
  Forall (λ id_value, ∃ st' d,
    process_doc (document:=refdoc) 64 false "blog" "12" (start (JObj [("a_text", JStr "Hello"); ("id", id_value)])) = (st', Ok d) ∧
    errors (ref_errors (ds_refs st')) = [] ∧ ref_idterm (ds_refs st') = "" ∧ ids d = ∅) [JArr []; JStr ""].
Proof.
  repeat apply Forall_cons_2; [..|apply Forall_nil_2].
  - set (obj := JObj _). exists (put "blog" "12" obj).1, (put "blog" "12" obj).2. split_and!; vm_compute; reflexivity.
  - set (obj := JObj _). exists (put "blog" "12" obj).1, (put "blog" "12" obj).2. split_and!; vm_compute; reflexivity.
Qed.

(** *** Ignored fields *)

(** The type [blog] with a field that is to be ignored, and the default patterns. *)
Definition ignoring_config : CollectionConfig :=
  let patterns := match json_get (default_type_config default_config) "patterns" JNull with Ok v => v | _ => JNull end in
  let schema := (Schema_from_json 64 (JObj [("fields", JObj [("secret", JObj [("type", JStr "ignore")])]); ("patterns", patterns)])
    (new_Schema "blog")).1 in
  (set_schema 64 ref_write "blog" schema default_config).1.

(** Storing the schemas of a configuration and reading them again. *)
Definition reload (c : CollectionConfig) : CollectionConfig :=
  match schemas_config_to_json c (JObj []) with
  | Ok v => (schemas_config_from_json 64 ref_write v default_config).1
  | _ => c
  end.

Definition put_secret (c : CollectionConfig) : doc_state * refdoc :=
  let '(st, r) := process_doc (document:=refdoc) 64 false "blog" "12"
    (mkDocState c (JObj [("secret", JStr "word")]) (mkRefs "" new_IndexingErrors false)) in
  (st, match r with Ok d => d | _ => new_document end).

Definition secret_field (c : CollectionConfig) : option FieldConfig := get_schema "blog" c ≫= Schema_get "secret".

(** An ignored field does not stay ignored.  The first document that holds it replaces
    its configuration by that of the first matching pattern; the cached (null) indexer
    hides this until the stored configuration is read again, and from then on the field
    is indexed. *)
Theorem ignored_field_forgotten :
  let st1 := put_secret ignoring_config in
  let st2 := put_secret (reload (ds_config st1.1)) in
  secret_field ignoring_config = Some IgnoredFieldConfig ∧
  "t" +:+ tab +:+ "word" ∉ terms st1.2 ∧ secret_field (ds_config st1.1) ≠ Some IgnoredFieldConfig ∧
  "t" +:+ tab +:+ "word" ∈ terms st2.2.
Proof. cbv zeta. split_and!; apply (bool_decide_unpack _); vm_compute; exact I. Qed.
