(* ===== verification/QueryThms.v ===== *)
(** * Queries: properties

    Which documents the query made of a JSON tree matches, given what Xapian's
    documentation says of its operators ([QueryMatchLaws]); building one always ends; a
    document that was indexed is found by its values. *)

From Stdlib Require Import SpecFloat.
From S2P Require Import Prelude Json TextUtils DocValues Hashing Mapping Schema SchemaThms CollConfig Indexing XapianDb RefLib DbGroup DbGroupThms.
From S2P Require Import ProcessDoc Termination Query IndexingThms ProcessThms.

(** ** What Xapian's queries match *)

Class QueryMatch (document : Type) := matches : Query → document → bool.

(** [OP_XOR] wants an odd number of subqueries to match; a query without subqueries is
    the empty query, which matches nothing; scaling changes weights alone. *)
Class QueryMatchLaws (document database : Type) `{!Xapian document database} `{!QueryMatch document} : Prop := {
  match_nothing (d : document) : matches MatchNothing d = false;
  match_all (d : document) : matches MatchAll d = true;
  match_terms_or ts n (d : document) : matches (QueryTerms OP_OR ts n) d = existsb (λ t, bool_decide (t ∈ terms d)) ts;
  match_or qs (d : document) : matches (QueryList OP_OR qs) d = existsb (λ q, matches q d) qs;
  match_and qs (d : document) : matches (QueryList OP_AND qs) d = negb (bool_decide (qs = [])) && forallb (λ q, matches q d) qs;
  match_xor qs (d : document) : matches (QueryList OP_XOR qs) d = foldr (λ q b, xorb (matches q d) b) false qs;
  match_and_not l r (d : document) : matches (QueryPair OP_AND_NOT l r) d = matches l d && negb (matches r d);
  match_and_maybe l r (d : document) : matches (QueryPair OP_AND_MAYBE l r) d = matches l d;
  match_filter l r (d : document) : matches (QueryPair OP_FILTER l r) d = matches l d && matches r d;
  match_scale q f (d : document) : matches (QueryScale q f) d = matches q d;
}.

(** A concrete matcher. *)
Fixpoint ref_matches (q : Query) (d : refdoc) : bool :=
  match q with
  | MatchNothing | QueryDistance _ _ _ _ => false
  | MatchAll => true
  | QueryTerms OP_OR ts _ => existsb (λ t, bool_decide (t ∈ rterms d)) ts
  | QueryTerms _ ts _ => forallb (λ t, bool_decide (t ∈ rterms d)) ts
  | QueryList OP_AND qs => negb (bool_decide (qs = [])) && forallb (λ q, ref_matches q d) qs
  | QueryList OP_XOR qs => foldr (λ q b, xorb (ref_matches q d) b) false qs
  | QueryList _ qs => existsb (λ q, ref_matches q d) qs
  | QueryPair OP_AND_NOT l r => ref_matches l d && negb (ref_matches r d)
  | QueryPair OP_AND_MAYBE l r => ref_matches l d
  | QueryPair _ l r => ref_matches l d && ref_matches r d
  | QueryScale q _ => ref_matches q d
  | QueryRange slot a b => bool_decide (String.le a (default "" ((rpayload d).2 !! slot)) ∧ String.le (default "" ((rpayload d).2 !! slot)) b)
  end.

#[export] Instance refdoc_QueryMatch : QueryMatch refdoc := ref_matches.
#[export] Instance refdoc_QueryMatchLaws : QueryMatchLaws refdoc refdb.
Proof. by split. Qed.

(** A parser that takes the text for a term; negative factors are refused. *)
Definition ref_QueryLib : QueryLib := {|
  parse_query _ text _ prefix := Ok (QueryTerms OP_OR [prefix +:+ text] 0);
  factor_allowed f := real_ge_Z f 0;
|}.

(** ** The meaning of a query tree *)

Section tree.
Context {document database : Type} `{XD : !Xapian document database} `{QL : !QueryLib} `{QM : !QueryMatch document} `{QML : !QueryMatchLaws document database}.
Context (write : json → string) (field_query : string → string → json → res Query) (meta_field : string).

(** [selects d v b]: [v] is a query tree, and [b] tells whether it selects [d]; the leaves
    ask a field. *)
Inductive selects (d : document) : json → bool → Prop :=
| selects_null : selects d JNull false
| selects_empty : selects d (JObj []) false
| selects_all : selects d (JObj [("matchall", JBool true)]) true
| selects_nothing : selects d (JObj [("matchnothing", JBool true)]) false
| selects_field name qtype params q : field_query name qtype params = Ok q →
    selects d (JObj [("field", JArr [JStr name; JStr qtype; params])]) (matches q d)
| selects_meta qtype params q : field_query meta_field qtype params = Ok q →
    selects d (JObj [("meta", JArr [JStr qtype; params])]) (matches q d)
| selects_and v bs : isArray v = true → Forall2 (selects d) (json_elems v) bs →
    selects d (JObj [("and", v)]) (negb (bool_decide (bs = [])) && forallb id bs)
| selects_or v bs : isArray v = true → Forall2 (selects d) (json_elems v) bs →
    selects d (JObj [("or", v)]) (existsb id bs)
| selects_xor v bs : isArray v = true → Forall2 (selects d) (json_elems v) bs →
    selects d (JObj [("xor", v)]) (foldr xorb false bs)
| selects_and_not x l b bs : l ≠ [] → selects d x b → Forall2 (selects d) l bs →
    selects d (JObj [("and_not", JArr (x :: l))]) (b && negb (existsb id bs))
| selects_and_maybe x l b bs : l ≠ [] → selects d x b → Forall2 (selects d) l bs →
    selects d (JObj [("and_maybe", JArr (x :: l))]) b
| selects_filter x l b bs : l ≠ [] → selects d x b → Forall2 (selects d) l bs →
    selects d (JObj [("filter", JArr (x :: l))]) (b && forallb id bs)
| selects_scale m x factor b : obj_find "query" m = Some x →
    json_get_double_member (JObj m) "factor" (Z_to_double 0) = Ok factor → factor_allowed factor = true →
    selects d x b → selects d (JObj [("scale", JObj m)]) b.

Abbreviation build_at := (build_query_at write field_query meta_field).
Abbreviation kind_query := (build_kind field_query meta_field).

(** A tree is an object with one member, which names the operator. *)
Lemma build_single name kind what n v : (name, kind, what) ∈ query_kinds →
  build_at (S n) (JObj [(name, v)]) = kind_query (build_at n) kind v.
Proof. unfold query_kinds. rewrite !elem_of_cons, elem_of_nil. intros; destruct_or!; simplify_eq; reflexivity. Qed.

Lemma isMember_single k v name : c_str name = name → isMember (JObj [(k, v)]) name = bool_decide (k = name).
Proof. intros Hn. unfold isMember. cbn. rewrite Hn. by case_decide; case_bool_decide. Qed.

Lemma query_names_clean : Forall (λ '(name, _, _), c_str name = name) query_kinds.
Proof. by repeat constructor. Qed.

Lemma find_kind_some m x : find_kind (JObj m) = Some x → x ∈ query_kinds ∧ isMember (JObj m) x.1.1 = true.
Proof.
  unfold find_kind. intros Hf. apply find_some in Hf as [Hin Hf]. destruct x as [[name kind] what]. split; [by apply list_elem_of_In|done].
Qed.

Lemma build_member n m q : build_at (S n) (JObj m) = Ok q →
  (m = [] ∧ q = MatchNothing) ∨
  ∃ name kind what v, m = [(name, v)] ∧ (name, kind, what) ∈ query_kinds ∧ kind_query (build_at n) kind v = Ok q.
Proof.
  destruct m as [|[k v] m]; [intros [= <-]; by left|]. intros H. right. cbn [build_query_at isNull json_check_object isObject mbind res_bind] in H.
  replace (json_size (JObj ((k, v) :: m)) =? 0)%N with false in H by done.
  destruct (find_kind _) as [[[name kind] what]|] eqn:Ek; [|done]. apply find_kind_some in Ek as [Hin Hm]. cbn [fst] in Hm.
  pose proof query_names_clean as Hc. rewrite Forall_forall in Hc. specialize (Hc _ Hin). cbn in Hc.
  unfold only_member in H.
  destruct m as [|y m]; [|by rewrite (proj2 (N.eqb_neq _ 1)) in H by (cbn; lia)].
  rewrite isMember_single in Hm by done. apply bool_decide_eq_true in Hm as ->.
  exists name, kind, what, v. split_and!; [done..|]. cbn in H. by rewrite Hc, decide_True in H.
Qed.

(** *** The operators *)

Lemma expect_true_ok what v q0 q : expect_true what v q0 = Ok q ↔ v = JBool true ∧ q = q0.
Proof.
  unfold expect_true. split; [|by intros [-> ->]]. destruct v as [| | | | |[]| |]; try done. by intros [= <-].
Qed.

(** An array with a given number of elements. *)
Lemma size_is l n : (json_size (JArr l) =? n)%N = true → length l = N.to_nat n.
Proof. intros H%N.eqb_eq. cbn in H. lia. Qed.

Lemma build_field_ok v q :
  build_field field_query v = Ok q ↔ ∃ name qtype params, v = JArr [JStr name; JStr qtype; params] ∧ field_query name qtype params = Ok q.
Proof.
  split; [|by intros (name & qtype & params & -> & H)]. unfold build_field, json_check_array.
  destruct v as [| | | | | |l|]; try done. cbn [isArray isNull mbind res_bind].
  destruct (json_size (JArr l) =? 3)%N eqn:Es; [|done]. apply size_is in Es. destruct l as [|a [|b [|c [|]]]]; try done.
  destruct a; try done. destruct b; try done. intros H. by eexists _, _, _.
Qed.

Lemma build_meta_ok v q :
  build_meta field_query meta_field v = Ok q ↔ ∃ qtype params, v = JArr [JStr qtype; params] ∧ field_query meta_field qtype params = Ok q.
Proof.
  split; [|by intros (qtype & params & -> & H)]. unfold build_meta, json_check_array.
  destruct v as [| | | | | |l|]; try done. cbn [isArray isNull mbind res_bind].
  destruct (json_size (JArr l) =? 2)%N eqn:Es; [|done]. apply size_is in Es. destruct l as [|a [|b [|]]]; try done.
  destruct a; try done. intros H. by eexists _, _.
Qed.

Lemma build_list_ok f op what v q :
  build_list f op what v = Ok q ↔ isArray v = true ∧ ∃ qs, mapM f (json_elems v) = Ok qs ∧ q = QueryList op qs.
Proof.
  unfold build_list, json_check_array. split.
  - destruct (isArray v); [|done]. intros (_ & _ & (qs & Hqs & [= <-])%res_bind_ok)%res_bind_ok. eauto.
  - intros (-> & qs & Hqs & ->). cbn. by rewrite Hqs.
Qed.

Lemma build_pair_ok f op op2 what few v q :
  build_pair f op op2 what few v = Ok q ↔
  ∃ x l q0 qs, v = JArr (x :: l) ∧ l ≠ [] ∧ f x = Ok q0 ∧ mapM f l = Ok qs ∧ q = QueryPair op q0 (QueryList op2 qs).
Proof.
  unfold build_pair, json_check_array. split.
  - destruct v as [| | | | | |l|]; try done. destruct l as [|x [|y l]]; [done..|]. cbn [isArray mbind res_bind json_size json_elems].
    destruct (N.ltb_spec (N.of_nat (length (x :: y :: l))) 2); [done|].
    intros (q0 & H0 & (qs & Hqs & [= <-])%res_bind_ok)%res_bind_ok. by exists x, (y :: l), q0, qs.
  - intros (x & l & q0 & qs & -> & Hl & H0 & Hqs & ->). destruct l as [|y l]; [done|]. cbn [isArray mbind res_bind json_size json_elems].
    destruct (N.ltb_spec (N.of_nat (length (x :: y :: l))) 2) as [H|]; [cbn in H; lia|]. rewrite H0. cbn [mbind res_bind]. by rewrite Hqs.
Qed.

Lemma build_scale_ok f v q :
  build_scale f v = Ok q ↔ ∃ m x q0 factor, v = JObj m ∧ obj_find "query" m = Some x ∧ f x = Ok q0 ∧
    json_get_double_member (JObj m) "factor" (Z_to_double 0) = Ok factor ∧ factor_allowed factor = true ∧ q = QueryScale q0 factor.
Proof.
  unfold build_scale. split.
  - destruct v; try done. intros ([x|] & [= Hx] & H)%res_bind_ok; [|done].
    apply res_bind_ok in H as (q0 & H0 & (factor & Hf & H)%res_bind_ok).
    destruct (factor_allowed factor) eqn:Ha; [|done]. injection H as <-. by exists m, x, q0, factor.
  - intros (m & x & q0 & factor & -> & Hx & H0 & Hf & Ha & ->). unfold json_member. change (c_str "query") with "query". cbn [mbind res_bind].
    rewrite Hx, H0. cbn [mbind res_bind]. rewrite Hf. cbn [mbind res_bind]. by rewrite Ha.
Qed.

(** *** Lists of subqueries *)

Abbreviation answers d f x := (∀ b, selects d x b ↔ ∃ q, f x = Ok q ∧ matches q d = b).
Abbreviation hits d qs := ((λ q, matches q d) <$> qs).

Lemma selects_list (d : document) (f : json → res Query) l : Forall (λ x, answers d f x) l →
  ∀ bs, Forall2 (selects d) l bs ↔ ∃ qs, mapM f l = Ok qs ∧ bs = hits d qs.
Proof.
  intros Hf bs. setoid_rewrite mapM_ok_Forall2. split.
  - intros H. induction H as [|x b l bs Hx H IH]; [by exists []|]. apply Forall_cons in Hf as [Ha Hf].
    apply Ha in Hx as (q & Hq & <-). destruct (IH Hf) as (qs & Hqs & ->). exists (q :: qs). by split; [constructor|].
  - intros (qs & H & ->). induction H as [|x q l qs Hx H IH]; [constructor|]. apply Forall_cons in Hf as [Ha Hf].
    constructor; [|by apply IH]. apply Ha. eauto.
Qed.

Lemma mapM_nonempty {A B} (f : A → res B) l : l ≠ [] → mapM f l ≠ Ok [].
Proof. intros Hl H. apply mapM_ok_Forall2 in H. by inversion H. Qed.

Lemma existsb_hits d qs : existsb (λ q, matches q d) qs = existsb id (hits d qs).
Proof. induction qs as [|q qs IH]; cbn; [done|]. by rewrite IH. Qed.
Lemma forallb_hits d qs : forallb (λ q, matches q d) qs = forallb id (hits d qs).
Proof. induction qs as [|q qs IH]; cbn; [done|]. by rewrite IH. Qed.
Lemma xor_hits d qs : foldr (λ q b, xorb (matches q d) b) false qs = foldr xorb false (hits d qs).
Proof. induction qs as [|q qs IH]; cbn; [done|]. by rewrite IH. Qed.
Lemma nonempty_hits {B} (d : document) (qs : list Query) (f : Query → B) : bool_decide (qs = []) = bool_decide (f <$> qs = []).
Proof. by destruct qs. Qed.

(** *** Both directions *)

Lemma walk_size_pos v : 0 < walk_size v.
Proof. destruct v; cbn; lia. Qed.

Lemma size_elems l n : walk_size (JArr l) <= S n → Forall (λ x, walk_size x <= n) l.
Proof.
  cbn [walk_size]. intros H. assert (Hs : list_sum (map walk_size l) <= n) by lia. clear H.
  induction l as [|x l IH]; constructor; change (walk_size x + list_sum (map walk_size l) <= n) in Hs; [lia|].
  apply IH. lia.
Qed.

Lemma size_array v n : isArray v = true → walk_size v <= S n → Forall (λ x, walk_size x <= n) (json_elems v).
Proof. destruct v; try done. intros _. apply size_elems. Qed.

Lemma size_member k v n : walk_size (JObj [(k, v)]) <= S n → walk_size v <= n.
Proof. cbn. lia. Qed.

Lemma size_find m k x n : obj_find k m = Some x → walk_size (JObj m) <= S n → walk_size x <= n.
Proof.
  cbn [walk_size]. intros Hf H. assert (Hs : list_sum (map (λ x, walk_size x.2) m) <= n) by lia. clear H.
  induction m as [|[j y] m IH]; [done|]. change (walk_size y + list_sum (map (λ x, walk_size x.2) m) <= n) in Hs.
  cbn in Hf. case_decide; [simplify_eq; lia|]. apply IH; [done|lia].
Qed.

(** The operator of a tree of one member. *)
Ltac one_kind := apply list_elem_of_In; cbn; auto 12.

Section meaning.
Context (d : document) (n : nat) (IH : ∀ x, walk_size x <= n → answers d (build_at n) x).

Lemma answers_list l : Forall (λ x, walk_size x <= n) l → ∀ bs,
  Forall2 (selects d) l bs ↔ ∃ qs, mapM (build_at n) l = Ok qs ∧ bs = hits d qs.
Proof. intros Hl. apply selects_list. eapply Forall_impl; [exact Hl|]. exact IH. Qed.

Lemma answers_array k v : isArray v = true → walk_size (JObj [(k, v)]) <= S n → ∀ bs,
  Forall2 (selects d) (json_elems v) bs ↔ ∃ qs, mapM (build_at n) (json_elems v) = Ok qs ∧ bs = hits d qs.
Proof. intros Ha Hn. apply answers_list, size_array; [done|]. apply size_member in Hn. lia. Qed.

(** The first subquery and the others of an array. *)
Lemma answers_pair k x l : walk_size (JObj [(k, JArr (x :: l))]) <= S n →
  answers d (build_at n) x ∧
  ∀ bs, Forall2 (selects d) l bs ↔ ∃ qs, mapM (build_at n) l = Ok qs ∧ bs = hits d qs.
Proof.
  intros Hn%size_member. assert (Hf : Forall (λ x, walk_size x <= n) (x :: l)) by (apply size_elems; lia).
  apply Forall_cons in Hf as [Hx Hl]. split; [by apply IH|by apply answers_list].
Qed.

Lemma selects_build v b : walk_size v <= S n → selects d v b → ∃ q, build_at (S n) v = Ok q ∧ matches q d = b.
Proof.
  intros Hn Hs. inversion Hs as [| | | |name qtype params q Hq|qtype params q Hq|x bs Ha Hl|x bs Ha Hl|x bs Ha Hl|
    x l b0 bs Hne Hx Hl|x l b0 bs Hne Hx Hl|x l b0 bs Hne Hx Hl|m x factor b0 Hm Hf Hok Hx]; subst; clear Hs.
  1, 2: exists MatchNothing; split; [done|apply match_nothing].
  - exists MatchAll. split; [done|apply match_all].
  - exists MatchNothing. split; [done|apply match_nothing].
  - exists q. split; [|done]. erewrite build_single by one_kind. apply build_field_ok. by eexists _, _, _.
  - exists q. split; [|done]. erewrite build_single by one_kind. apply build_meta_ok. by eexists _, _.
  - apply (answers_array _ _ Ha Hn) in Hl as (qs & Hqs & ->).
    exists (QueryList OP_AND qs). split; [erewrite build_single by one_kind; by apply build_list_ok; eauto|].
    by rewrite match_and, forallb_hits, (nonempty_hits d qs (λ q, matches q d)).
  - apply (answers_array _ _ Ha Hn) in Hl as (qs & Hqs & ->).
    exists (QueryList OP_OR qs). split; [erewrite build_single by one_kind; by apply build_list_ok; eauto|].
    by rewrite match_or, existsb_hits.
  - apply (answers_array _ _ Ha Hn) in Hl as (qs & Hqs & ->).
    exists (QueryList OP_XOR qs). split; [erewrite build_single by one_kind; by apply build_list_ok; eauto|].
    by rewrite match_xor, xor_hits.
  - destruct (answers_pair _ _ _ Hn) as [Ax Al]. apply Ax in Hx as (q & Hq & <-). apply Al in Hl as (qs & Hqs & ->).
    exists (QueryPair OP_AND_NOT q (QueryList OP_OR qs)).
    split; [erewrite build_single by one_kind; apply build_pair_ok; by eexists x, l, q, qs|].
    by rewrite match_and_not, match_or, existsb_hits.
  - destruct (answers_pair _ _ _ Hn) as [Ax Al]. apply Ax in Hx as (q & Hq & <-). apply Al in Hl as (qs & Hqs & ->).
    exists (QueryPair OP_AND_MAYBE q (QueryList OP_OR qs)).
    split; [erewrite build_single by one_kind; apply build_pair_ok; by eexists x, l, q, qs|]. apply match_and_maybe.
  - destruct (answers_pair _ _ _ Hn) as [Ax Al]. apply Ax in Hx as (q & Hq & <-). apply Al in Hl as (qs & Hqs & ->).
    exists (QueryPair OP_FILTER q (QueryList OP_AND qs)).
    split; [erewrite build_single by one_kind; apply build_pair_ok; by eexists x, l, q, qs|].
    rewrite match_filter, match_and, (forallb_hits d). destruct qs as [|q' qs]; [|done]. by destruct (mapM_nonempty _ _ Hne Hqs).
  - assert (Hx' := Hx). apply IH in Hx' as (q & Hq & <-); [|eapply size_find; [exact Hm|apply size_member in Hn; lia]].
    exists (QueryScale q factor). split; [erewrite build_single by one_kind; apply build_scale_ok; by eexists m, x, q, factor|].
    apply match_scale.
Qed.

Lemma build_selects v q : walk_size v <= S n → build_at (S n) v = Ok q → selects d v (matches q d).
Proof.
  intros Hn Hb. destruct v as [| | | | | | |m]; try done.
  { injection Hb as <-. rewrite match_nothing. constructor. }
  apply build_member in Hb as [[-> ->]|(name & kind & what & v & -> & Hk & Hb)]; [rewrite match_nothing; constructor|].
  assert (Hv := size_member _ _ _ Hn).
  unfold query_kinds in Hk. rewrite !elem_of_cons, elem_of_nil in Hk. destruct_or! Hk; simplify_eq; cbn [build_kind] in Hb.
  - apply expect_true_ok in Hb as [-> ->]. rewrite match_all. constructor.
  - apply expect_true_ok in Hb as [-> ->]. rewrite match_nothing. constructor.
  - apply build_field_ok in Hb as (? & ? & ? & -> & Hq). by constructor.
  - apply build_meta_ok in Hb as (? & ? & -> & Hq). by constructor.
  - apply build_list_ok in Hb as (Ha & qs & Hqs & ->). rewrite match_and, forallb_hits, (nonempty_hits d qs (λ q, matches q d)).
    constructor; [done|]. apply (answers_array _ _ Ha Hn). eauto.
  - apply build_list_ok in Hb as (Ha & qs & Hqs & ->). rewrite match_or, existsb_hits.
    constructor; [done|]. apply (answers_array _ _ Ha Hn). eauto.
  - apply build_list_ok in Hb as (Ha & qs & Hqs & ->). rewrite match_xor, xor_hits.
    constructor; [done|]. apply (answers_array _ _ Ha Hn). eauto.
  - apply build_pair_ok in Hb as (x & l & q0 & qs & -> & Hne & H0 & Hqs & ->). destruct (answers_pair _ _ _ Hn) as [Ax Al].
    rewrite match_and_not, match_or, existsb_hits. constructor; [done|apply Ax; eauto|apply Al; eauto].
  - apply build_pair_ok in Hb as (x & l & q0 & qs & -> & Hne & H0 & Hqs & ->). destruct (answers_pair _ _ _ Hn) as [Ax Al].
    rewrite match_and_maybe. econstructor; [done|apply Ax; eauto|apply Al; eauto].
  - apply build_pair_ok in Hb as (x & l & q0 & qs & -> & Hne & H0 & Hqs & ->). destruct (answers_pair _ _ _ Hn) as [Ax Al].
    rewrite match_filter, match_and, forallb_hits. assert (Hq : qs ≠ []) by (intros ->; by destruct (mapM_nonempty _ _ Hne Hqs)).
    rewrite bool_decide_false by done. constructor; [done|apply Ax; eauto|apply Al; eauto].
  - apply build_scale_ok in Hb as (m & x & q0 & factor & -> & Hx & H0 & Hf & Ha & ->). rewrite match_scale.
    econstructor; [done..|]. apply IH; [|eauto]. eapply size_find; [done|lia].
Qed.
End meaning.

Lemma build_at_answers d n : ∀ v, walk_size v <= n → answers d (build_at n) v.
Proof.
  induction n as [|n IH]; intros v Hn b; [pose proof (walk_size_pos v); lia|]. split.
  - by apply selects_build.
  - intros (q & Hq & <-). by eapply build_selects.
Qed.

End tree.

(** ** Building a query ends *)

Lemma finishes_mapM {A B} (f : A → res B) l : Forall (λ x, finishes (f x)) l → finishes (mapM f l).
Proof. induction 1 as [|x l Hx _ IH]; [done|]. cbn. apply finishes_bind; [done|]. intros y. by apply finishes_bind. Qed.

Lemma finishes_mapM_all {A B} (f : A → res B) l : (∀ x, finishes (f x)) → finishes (mapM f l).
Proof. intros Hf. apply finishes_mapM, Forall_forall. auto. Qed.

(** What is relied on of the library: the query parser returns or throws. *)
Definition parser_finishes `{!QueryLib} : Prop := ∀ qp text flags prefix, finishes (parse_query qp text flags prefix).

Section ends.
Context {document : Type} `{DS : !DocStore document} `{IL : !IndexLib document} `{QL : !QueryLib}.
Context (w : N) (Hparse : parser_finishes).

Lemma value_text_ends what name v : finishes (value_text (document:=document) what name v).
Proof. unfold value_text. ends. Qed.
#[local] Hint Resolve value_text_ends : ends.

Lemma shorten_term_ends base t : finishes (shorten_term w base t).
Proof. unfold shorten_term. ends. Qed.
#[local] Hint Resolve shorten_term_ends : ends.

Lemma json_get_uint64_ends v : finishes (json_get_uint64 (styled (document:=document)) v).
Proof. unfold json_get_uint64. ends. Qed.
Lemma double_member_ends v key def : finishes (json_get_double_member v key def).
Proof. unfold json_get_double_member. ends. Qed.
Lemma range_check_ends qtype what points v : finishes (range_check qtype what points v).
Proof. unfold range_check. ends. Qed.
Lemma date_bound_ends v : finishes (date_bound (document:=document) v).
Proof. unfold date_bound. apply finishes_bind; [apply parse_date_ends|]. ends. Qed.
#[local] Hint Resolve json_get_uint64_ends double_member_ends range_check_ends date_bound_ends : ends.

Lemma meta_terms_ends p c v : finishes (meta_terms (document:=document) p c v).
Proof. unfold meta_terms. ends. Qed.
Lemma id_term_ends base p v : finishes (id_term (document:=document) w base p v).
Proof. unfold id_term. ends. Qed.
Lemma exact_term_ends base p l v : finishes (exact_term (document:=document) w base p l v).
Proof. unfold exact_term. ends. Qed.
Lemma category_terms_ends ps v : finishes (category_terms (document:=document) ps v).
Proof. unfold category_terms. ends. Qed.
#[local] Hint Resolve meta_terms_ends id_term_ends exact_term_ends category_terms_ends finishes_mapM_all : ends.

Lemma phrase_params_ends v : finishes (phrase_params v).
Proof. unfold phrase_params, text_window. ends. Qed.
Lemma stem_query_ends p t o s : finishes (build_stem_query (document:=document) p t o s).
Proof. unfold build_stem_query, set_stemmer. ends. all: apply Hparse. Qed.
Lemma parsed_query_ends p t o s : finishes (build_parsed_query (document:=document) p t o s).
Proof. unfold build_parsed_query, set_stemmer. ends. all: apply Hparse. Qed.
#[local] Hint Resolve phrase_params_ends stem_query_ends parsed_query_ends : ends.

Lemma FieldConfig_query_ends f qtype v : finishes (FieldConfig_query (document:=document) w f qtype v).
Proof.
  destruct f; cbn [FieldConfig_query].
  - unfold MetaFieldConfig_query. ends.
  - unfold IDFieldConfig_query. ends.
  - unfold ExactFieldConfig_query. ends.
  - unfold TextFieldConfig_query, query_phrase, query_parse. ends.
  - unfold DoubleFieldConfig_query. ends.
  - unfold TimestampFieldConfig_query. ends.
  - unfold DateFieldConfig_query. ends.
  - unfold CategoryFieldConfig_query. ends.
  - unfold LonLatFieldConfig_query, max_range. ends.
  - done.
  - done.
Qed.

Section tree_ends.
Context (write : json → string) (field_query : string → string → json → res Query) (meta_field : string).
Context (Hfield : ∀ name qtype params, finishes (field_query name qtype params)).

Lemma build_kind_ends f kind v n : (∀ x, walk_size x <= n → finishes (f x)) → walk_size v <= n →
  finishes (build_kind field_query meta_field f kind v).
Proof.
  intros Hf Hv.
  assert (Hl : ∀ l, Forall (λ x, walk_size x <= n) l → finishes (mapM f l)).
  { intros l Hl. apply finishes_mapM. eapply Forall_impl; [exact Hl|]. exact Hf. }
  assert (Hlist : ∀ op what, finishes (build_list f op what v)).
  { intros op what. unfold build_list, json_check_array. destruct (isArray v) eqn:Ea; [|done].
    apply finishes_bind; [done|]. intros _. apply finishes_bind; [|done]. apply Hl, size_array; [done|lia]. }
  assert (Hpair : ∀ op op2 what few, finishes (build_pair f op op2 what few v)).
  { intros op op2 what few. unfold build_pair, json_check_array. destruct (isArray v) eqn:Ea; [|done].
    apply finishes_bind; [done|]. intros _. case_match; [done|]. destruct v as [| | | | | |[|x l]|]; try done.
    assert (Hxl : Forall (λ x, walk_size x <= n) (x :: l)) by (apply size_elems; lia). apply Forall_cons in Hxl as [Hx Hls].
    cbn [json_elems]. apply finishes_bind; [auto|]. intros q. by apply finishes_bind; [auto|]. }
  destruct kind; cbn [build_kind]; try done.
  - unfold expect_true. ends.
  - unfold expect_true. ends.
  - unfold build_field. ends.
  - unfold build_meta. ends.
  - unfold build_scale. destruct v as [| | | | | | |m]; try done. unfold json_member. cbn [mbind res_bind].
    destruct (obj_find _ m) as [x|] eqn:Ex; [|done].
    apply finishes_bind; [eapply Hf, size_find; [exact Ex|lia]|]. ends.
Qed.

Lemma build_query_at_ends n : ∀ v, walk_size v <= n → finishes (build_query_at write field_query meta_field n v).
Proof.
  induction n as [|n IH]; intros v Hn; [pose proof (walk_size_pos v); lia|]. cbn [build_query_at].
  destruct v as [| | | | | | |m]; try done. cbn [isNull json_check_object isObject mbind res_bind].
  case_match; [done|]. destruct (find_kind (JObj m)) as [[[name kind] what]|]; [|done]. unfold only_member.
  case_match; [done|]. unfold json_index, json_get, json_member. cbn [mbind res_bind].
  apply (build_kind_ends _ _ _ n); [done|]. destruct (obj_find _ m) as [x|] eqn:Ex; [by eapply size_find|cbn in *; lia].
Qed.
End tree_ends.

Lemma over_types_ends {A} c name (step : FieldConfig → A → res A) a :
  (∀ f a, finishes (step f a)) → finishes (over_types c name step a).
Proof. intros Hs. unfold over_types. ends. Qed.

Lemma collection_build_ends c v : finishes (CollectionQueryBuilder_build (document:=document) w c v).
Proof.
  apply build_query_at_ends; [|done]. intros name qtype params. unfold CollectionQueryBuilder_field_query.
  apply finishes_bind; [|done]. apply over_types_ends. intros f qs. apply finishes_bind; [apply FieldConfig_query_ends|done].
Qed.

Lemma type_build_ends c s v : finishes (DocumentTypeQueryBuilder_build (document:=document) w c s v).
Proof.
  unfold DocumentTypeQueryBuilder_build. destruct s as [s|]; [|done]. destruct (Schema_get _ s) as [f|]; [|done].
  apply finishes_bind; [apply FieldConfig_query_ends|]. intros tq. apply finishes_bind; [|done].
  apply build_query_at_ends; [|done]. intros name qtype params. unfold DocumentTypeQueryBuilder_field_query.
  destruct (Schema_get name s); [apply FieldConfig_query_ends|done].
Qed.

End ends.

(** ** Properties *)

(** C12: a query tree means what it says.  [selects d v b] gives the meaning of a tree by
    rules: conjunction, disjunction, exclusive or, exclusion, optional parts, filters and
    scaled parts over what the queries of fields match.  Building a query accepts exactly
    the trees that have a meaning, and the query matches a document when the tree selects
    it.  The trees are those of the code: it takes a filter as a list of queries, and not
    in the form that the documentation gives it ([documented_filter_refused]), and a scaled
    part without a factor, which the documentation requires ([scale_without_factor]). *)
Theorem query_tree_semantics {document database} `{!Xapian document database} `{!QueryLib} `{!QueryMatch document}
    (laws : QueryMatchLaws document database) write field_query meta_field (d : document) v b :
  selects field_query meta_field d v b ↔ ∃ q, build_query write field_query meta_field v = Ok q ∧ matches q d = b.
Proof. unfold build_query. by apply build_at_answers. Qed.

(** A divergence.  docs/search_json.rst gives a filter as an object with a member "filter",
    which is a query, and optionally a member "query": either is refused. *)
Theorem documented_filter_refused `{!QueryLib} write field_query meta_field filter query :
  (∃ e, build_query write field_query meta_field (JObj [("filter", JObj filter); ("query", query)]) = Throw e) ∧
  (∃ e, build_query write field_query meta_field (JObj [("filter", JObj filter)]) = Throw e).
Proof. split; eexists; reflexivity. Qed.

(** A divergence.  The same document requires the factor of a scaled part; without one,
    the part is scaled by zero. *)
Theorem scale_without_factor {document database} `{!Xapian document database} `{!QueryLib} `{!QueryMatch document}
    (laws : QueryMatchLaws document database) write field_query meta_field (d : document) x b :
  factor_allowed (Z_to_double 0) = true → selects field_query meta_field d x b →
  ∃ q, build_query write field_query meta_field (JObj [("scale", JObj [("query", x)])]) = Ok q ∧ matches q d = b.
Proof. intros Hz Hx. unfold build_query. apply build_at_answers; [reflexivity|]. by eapply selects_scale. Qed.

(** Fields that are matched by terms of their name. *)
Definition name_query (name qtype : string) (params : json) : res Query :=
  s ← asString params; Ok (QueryTerms OP_OR [name +:+ ":" +:+ s] 0).

Definition sample_tree : json :=
  JObj [("and_not", JArr [
    JObj [("or", JArr [JObj [("field", JArr [JStr "a"; JStr "is"; JStr "x"])]; JObj [("matchnothing", JBool true)]])];
    JObj [("and", JArr [JObj [("field", JArr [JStr "b"; JStr "is"; JStr "y"])]; JObj [("matchall", JBool true)]])]])].

Lemma query_tree_semantics_witness :
  let lib := ref_QueryLib in
  (selects name_query "_meta" (mkRefdoc {["a:x"]} "") sample_tree true ↔
    ∃ q, build_query ref_write name_query "_meta" sample_tree = Ok q ∧ matches q (mkRefdoc {["a:x"]} "") = true) ∧
  (∃ q, build_query ref_write name_query "_meta" sample_tree = Ok q ∧ matches q (mkRefdoc {["a:x"]} "") = true) ∧
  ∃ q, build_query ref_write name_query "_meta" sample_tree = Ok q ∧ matches q (mkRefdoc {["a:x"; "b:y"]} "") = false.
Proof.
  intros lib. split; [apply (query_tree_semantics refdoc_QueryMatchLaws)|].
  split; eexists; (split; [vm_compute; reflexivity|vm_compute; reflexivity]).
Defined.

(** C33: building a query ends: for every configuration and every JSON value, whether a
    type or a whole collection is searched, a query is built or an exception thrown, the
    depth of the tree being the only thing the recursion follows. *)
Theorem query_build_ends document (store : DocStore document) (lib : IndexLib document) (qlib : QueryLib) w c v
    (Hparse : parser_finishes) :
  CollectionQueryBuilder_build (document:=document) w c v ≠ OutOfFuel ∧
  ∀ s, DocumentTypeQueryBuilder_build (document:=document) w c s v ≠ OutOfFuel.
Proof. split; [by apply collection_build_ends|]. intros s. by apply type_build_ends. Qed.

Lemma query_build_ends_witness :
  let qlib := ref_QueryLib in
  parser_finishes ∧
  CollectionQueryBuilder_build (document:=refdoc) 64 default_config sample_tree ≠ OutOfFuel ∧
  ∀ s, DocumentTypeQueryBuilder_build (document:=refdoc) 64 default_config s sample_tree ≠ OutOfFuel.
Proof.
  intros qlib. assert (H : parser_finishes) by (intros qp text flags prefix; done).
  exact (conj H (query_build_ends refdoc _ _ qlib 64 default_config sample_tree H)).
Defined.
