(* ===== verification/IndexedFound.v ===== *)
(** * What was indexed is found

    A document that is indexed without errors is matched by the queries for the values of
    its fields and for its type: the terms made by the indexers of schema.cc are those its
    [query] methods ask for. *)

From Stdlib Require Import SpecFloat.
From S2P Require Import Prelude Json TextUtils DocValues Hashing Mapping Schema SchemaThms CollConfig Indexing XapianDb RefLib DbGroup DbGroupThms.
From S2P Require Import ProcessDoc Query IndexingThms ProcessThms QueryThms.

Section found.
Context {document database : Type} `{XD : !Xapian document database} `{XL : !XapianLaws document database}
  `{DS : !DocStore document} `{IL : !IndexLib document} `{ILL : !IndexLibLaws document database} `{QL : !QueryLib}.
Context (w : N).

(** ** The term of a value *)

(** A single value that is not null or empty. *)
Definition simple_value (x : json) : Prop := isArray x = false ∧ x ≠ JStr "".

Lemma valueToString_nonempty n : valueToString n ≠ "".
Proof. unfold valueToString. by destruct (N.to_uint n). Qed.

(** Indexing and querying read a value the same way. *)
Lemma idstyle_text what name x val e : simple_value x →
  json_get_idstyle_value (styled (document:=document)) x = Ok (val, e) →
  e ≠ "" ∨ (e = "" ∧ val ≠ "" ∧ value_text (document:=document) what name x = Ok val).
Proof.
  intros [Ha Hne]. unfold json_get_idstyle_value, value_text. destruct (isString x) eqn:Es.
  { destruct x; try done. intros [= -> <-]. right. split_and!; [done|congruence|done]. }
  replace (isNull x) with false by by destruct x.
  destruct (negb (isConvertibleTo x uintValue)); [intros [= <- <-]; by left|].
  destruct (lt_Int x 0); [intros [= <- <-]; by left|]. destruct (gt_UInt64 x maxUInt64); [intros [= <- <-]; by left|].
  intros (n & -> & [= <- <-])%res_bind_ok. right. split_and!; [done|apply valueToString_nonempty|done].
Qed.

(** The term an [is] query asks for, of the fields that have one. *)
Definition is_term (f : FieldConfig) (x : json) : res string :=
  match f with
  | IDFieldConfig base _ prefix => id_term (document:=document) w base prefix x
  | ExactFieldConfig base prefix _ _ lowercase => exact_term (document:=document) w base prefix lowercase x
  | CategoryFieldConfig _ prefix _ _ _ =>
      text ← value_text (document:=document) "Category value must be an integer or a string" "category" x;
      Ok ((prefix +:+ "C") +:+ text)
  | _ => throw (InvalidValueError "")
  end.

Definition has_is (f : FieldConfig) : bool :=
  match f with IDFieldConfig _ _ _ | ExactFieldConfig _ _ _ _ _ | CategoryFieldConfig _ _ _ _ _ => true | _ => false end.

Lemma is_query f x t : has_is f = true → isArray x = false → is_term f x = Ok t →
  FieldConfig_query (document:=document) w f "is" x = Ok (QueryTerms OP_OR [t] 0).
Proof.
  intros Hf Ha Ht. destruct f; try done; cbn [FieldConfig_query is_term] in *.
  - unfold IDFieldConfig_query, as_array. rewrite Ha. cbn. by rewrite Ht.
  - unfold ExactFieldConfig_query, as_array. rewrite Ha. cbn. by rewrite Ht.
  - apply res_bind_ok in Ht as (text & Ht & [= <-]). unfold CategoryFieldConfig_query, as_array. rewrite Ha.
    cbn. unfold category_terms. rewrite Ht. done.
Qed.

(** A category is queried whole, even if it is too long for the field. *)
Definition within (f : FieldConfig) (x : json) : Prop :=
  match f with
  | CategoryFieldConfig base _ _ _ _ => ∀ text what name, value_text (document:=document) what name x = Ok text → (str_size text <= max_length base)%N
  | _ => True
  end.

(** ** Indexing a value *)

(** The document has the term, or an error was recorded. *)
Definition settled (r : res string) (s : IndexingState document) : Prop :=
  (∃ t, r = Ok t ∧ holds_term t s) ∨ failed s.

Lemma settled_growing r : growing (settled r).
Proof.
  apply growing_or; [|apply failed_growing].
  split; [intros f Hf s (t & E & Ht) | intros f Hf s (t & E & Ht)]; exists t; split; try done.
  - by apply (grow_doc _ (holds_growing t)).
  - by apply (grow_other _ (holds_growing t)).
Qed.

Lemma append_error_failed name e (s s' : IndexingState document) b : append_error name e s = (s', Ok b) → failed s'.
Proof.
  intros H. apply M_bind_inv in H as (s1 & [] & _ & [= <- _]). unfold failed. cbn. by intros [_ ?]%app_eq_nil.
Qed.

Lemma shorten_run name base v (s s' : IndexingState document) o :
  shorten w name (max_length base) (too_long_action base) v s = (s', Ok o) →
  (o = None ∧ failed s') ∨ (s' = s ∧ ∃ t, o = Some t ∧ shorten_term w base v = Ok t).
Proof.
  unfold shorten, shorten_term. destruct (max_length base <? str_size v)%N; [|intros [= <- <-]; eauto].
  destruct (too_long_action base).
  - intros H. apply M_bind_inv in H as (s1 & t & Ht & [= <- <-]). injection Ht as <- Ht. right. eauto.
  - intros [= <- <-]. eauto.
  - intros H. apply M_bind_inv in H as (s1 & [] & H%append_error_failed & [= <- <-]). by left.
Qed.

(** An operation that indexing keeps properties by. *)
Lemma grow_run {A} (P : IndexingState document → Prop) (op : M (IndexingState document) A) s s' r :
  maintains P op (λ _, True) → P s → op s = (s', r) → P s'.
Proof. intros Hop Hs H. destruct (Hop s Hs) as [H1 _]. by rewrite H in H1. Qed.

Lemma holds_added t n (s : IndexingState document) : holds_term t (upd_doc (add_term_wdf t n) s).
Proof. unfold holds_term. cbn. rewrite terms_add_wdf. set_solver. Qed.

Lemma exact_value_settled base prefix wdfinc isid slot lower name what x (s s' : IndexingState document) b : simple_value x →
  exact_value w prefix wdfinc (max_length base) (too_long_action base) isid slot lower name x s = (s', Ok b) →
  settled (termtext ← value_text (document:=document) what "field" x;
           termtext ← shorten_term w base (if lower then tolower (document:=document) termtext else termtext);
           Ok (prefix +:+ termtext)) s'.
Proof.
  intros Hx H. unfold exact_value in H. apply M_bind_inv in H as (s1 & [val e] & [= <- Hv] & H).
  destruct (idstyle_text what "field" x val e Hx Hv) as [He|(-> & Hval & Ht)].
  { rewrite bool_decide_false in H by done. apply M_bind_inv in H as (s1 & [] & H%append_error_failed & [= <- _]). by right. }
  rewrite Ht. rewrite bool_decide_true, decide_False in H by done. cbn [negb] in H.
  apply M_bind_inv in H as (s2 & [] & _ & H). destruct (negb (bool_decide ((if isid then _ else _) = ""))) eqn:Eid in H.
  { apply M_bind_inv in H as (s3 & [] & Hf%append_error_failed & H). apply M_bind_inv in H as (s4 & [] & [= <-] & [= <- _]). by right. }
  apply M_bind_inv in H as (s3 & [] & _ & H). apply M_bind_inv in H as (s4 & o & Ho & H).
  cbn [mbind res_bind]. apply shorten_run in Ho as [[-> Hf]|(-> & t & -> & Hs)]; [injection H as <- _; by right|].
  cbn [mbind res_bind]. rewrite Hs. cbn [mbind res_bind].
  apply M_bind_inv in H as (s5 & [] & [= <-] & H). left. exists (prefix +:+ t). split; [done|].
  apply M_bind_inv in H as (s6 & [] & H & [= <- _]). eapply (grow_run (holds_term (prefix +:+ t))); [|apply holds_added|exact H].
  destruct isid; [apply grow_set_idterm, holds_growing|by apply maintains_ret].
Qed.

Lemma category_value_settled base prefix slot taxonomy_name store taxonomy name x (s s' : IndexingState document) :
  let f := CategoryFieldConfig base prefix slot taxonomy_name store in
  simple_value x → within f x →
  category_value w prefix taxonomy (max_length base) (too_long_action base) (SlotName_get slot) name x s = (s', Ok ()) →
  settled (is_term f x) s'.
Proof.
  intros f Hx Hw H. unfold category_value in H. apply M_bind_inv in H as (s1 & [val e] & [= <- Hv] & H).
  destruct (idstyle_text "Category value must be an integer or a string" "category" x val e Hx Hv) as [He|(-> & Hval & Ht)].
  { rewrite bool_decide_false in H by done. apply M_bind_inv in H as (s1 & [] & _ & H%append_error_failed). by right. }
  cbn [is_term f]. rewrite Ht. rewrite bool_decide_true, decide_False in H by done. cbn [negb] in H.
  apply M_bind_inv in H as (s2 & [] & _ & H). apply M_bind_inv in H as (s3 & [] & _ & H).
  apply M_bind_inv in H as (s4 & o & Ho & H). cbn [mbind res_bind].
  apply shorten_run in Ho as [[-> Hf]|(-> & t & -> & Hs)]; [injection H as <-; by right|].
  unfold shorten_term in Hs. specialize (Hw _ _ _ Ht). destruct (N.ltb_spec (max_length base) (str_size val)); [lia|]. injection Hs as <-.
  apply M_bind_inv in H as (s5 & [] & [= <-] & H). left. exists ((prefix +:+ "C") +:+ val). split; [done|].
  eapply (grow_run (holds_term _)); [|apply holds_added|exact H].
  destruct (taxonomy ≫= _); [|by apply maintains_ret]. apply maintains_for_each. intros a _.
  apply maintains_modify; [|done]. apply (grow_doc _ (holds_growing _)). intros d. rewrite terms_add_wdf. set_solver.
Qed.

(** ** Indexing a field *)

(** The whole method returns only after an error. *)
Lemma exact_value_stop prefix wdfinc m a isid slot lower name x (s s' : IndexingState document) :
  exact_value w prefix wdfinc m a isid slot lower name x s = (s', Ok true) → failed s'.
Proof.
  intros H. unfold exact_value in H. apply M_bind_inv in H as (s1 & [val e] & [= <- Hv] & H).
  destruct (negb (bool_decide (e = ""))); [by apply M_bind_inv in H as (? & ? & _ & [=])|].
  destruct (decide (val = "")); [by apply M_bind_inv in H as (? & ? & _ & [=])|].
  apply M_bind_inv in H as (s2 & [] & _ & H). destruct (negb (bool_decide ((if isid then _ else _) = ""))) eqn:Eid in H.
  { apply M_bind_inv in H as (s3 & [] & Hf%append_error_failed & H). by apply M_bind_inv in H as (s4 & [] & [= <-] & [= <-]). }
  apply M_bind_inv in H as (s3 & [] & _ & H). apply M_bind_inv in H as (s4 & [o|] & _ & H); [|done].
  apply M_bind_inv in H as (s5 & [] & _ & H). by apply M_bind_inv in H as (s6 & [] & _ & [=]).
Qed.

Lemma exact_values_settled (P : IndexingState document → Prop) f l x (s s' : IndexingState document) b :
  (∀ y, maintains P (f y) (λ _, True)) → (∀ s s' y, f y s = (s', Ok true) → P s') →
  (∀ s s' b, f x s = (s', Ok b) → P s') → x ∈ l → exact_values f l s = (s', Ok b) → P s'.
Proof.
  intros Hm Hstop Hx Hin. revert s. induction l as [|y l IH]; intros s H; [by apply elem_of_nil in Hin|]. cbn [exact_values] in H.
  apply M_bind_inv in H as (s1 & [] & H1 & H); [injection H as <- _; by eapply Hstop|].
  apply elem_of_cons in Hin as [->|Hin]; [|by eapply IH]. eapply grow_run; [|by eapply Hx|exact H]. by apply grow_exact_values.
Qed.

Lemma field_settled cfg f i name v x (s s' : IndexingState document) :
  FieldConfig_indexer f = Some i → has_is f = true → simple_value x → within f x → x ∈ json_elems v →
  FieldIndexer_index w cfg i name v s = (s', Ok ()) → settled (is_term f x) s'.
Proof.
  intros Hi Hf Hx Hw Hin H. pose proof (settled_growing (is_term f x)) as HP.
  assert (Hexact : ∀ base prefix store wdfinc isid lower s1 stop,
    (∀ s s' b, exact_value w prefix wdfinc (max_length base) (too_long_action base) isid (SlotName_get (ml_slot base)) lower name x s = (s', Ok b) →
      settled (is_term f x) s') →
    exact_values (exact_value w prefix wdfinc (max_length base) (too_long_action base) isid (SlotName_get (ml_slot base)) lower name)
      (json_elems v) s = (s1, Ok stop) →
    (if (stop : bool) then mret () else store_values store v) s1 = (s', Ok ()) → settled (is_term f x) s').
  { intros base prefix store wdfinc isid lower s1 stop Hv H1 H2.
    eapply (exact_values_settled (settled (is_term f x))) in H1; [| | |exact Hv|exact Hin].
    - destruct stop; [by injection H2 as <-|]. eapply grow_run; [by apply grow_store|exact H1|exact H2].
    - intros y. by apply grow_exact_value.
    - intros s0 s2 y Hy. right. by eapply exact_value_stop. }
  destruct f; try done; injection Hi as <-; cbn [FieldIndexer_index] in H.
  - unfold ExactStringIndexer_index in H. apply M_bind_inv in H as (s1 & stop & H1 & H).
    eapply Hexact; [|exact H1|exact H]. intros s0 s2 b Hv. eapply exact_value_settled in Hv; [exact Hv|done].
  - unfold ExactStringIndexer_index in H. apply M_bind_inv in H as (s1 & stop & H1 & H).
    eapply Hexact; [|exact H1|exact H]. intros s0 s2 b Hv. eapply exact_value_settled in Hv; [exact Hv|done].
  - unfold CategoryIndexer_index in H. apply M_bind_inv in H as (s1 & [] & H1 & H).
    apply list_elem_of_split in Hin as (l1 & l2 & El). rewrite El in H1.
    apply for_each_split in H1 as (s2 & s3 & _ & H2 & H3). eapply category_value_settled in H2; [|done|exact Hw].
    eapply (grow_run (settled _)) in H3; [|apply maintains_for_each; intros y _; by apply grow_category_value|exact H2].
    eapply grow_run; [by apply grow_store|exact H3|exact H].
Qed.

(** ** Processing a document *)

(** Processing changes the indexer of no field. *)
Lemma process_members_indexer cfg assertions obj n o :
  maintains (λ p : @process_state document, field_indexer w (proc_schema p) n = o) (process_members w assertions cfg obj) (λ _, True).
Proof.
  unfold process_members. apply maintains_bind_any; [apply maintains_for_each; intros; apply process_member_indexer|]. intros _.
  apply maintains_bind_any; [|intros _; apply on_state_indexer]. unfold process_meta. case_decide; [by apply maintains_ret|].
  apply maintains_bind_any; [|intros [i|]; [apply on_state_indexer|by apply maintains_ret]].
  intros p Hp. split; [|done]. by rewrite (proj1 (find_indexer_spec w (meta_field cfg) p)).
Qed.

(** The elements of a member are the values that are indexed. *)
Lemma members_found cfg assertions name f v x obj p p' d :
  field_indexer w (proc_schema p) name = FieldConfig_indexer f → has_is f = true → name ≠ meta_field cfg →
  obj_find name (json_members obj) = Some v → x ∈ as_array v → simple_value x → within f x →
  process_members w assertions cfg obj p = (p', Ok d) → errors (state_errors (proc_state p')) = [] →
  ∃ t, is_term f x = Ok t ∧ t ∈ terms d.
Proof.
  intros Hp Hf Hne Hfind Hin Hx Hw H He.
  destruct (FieldConfig_indexer f) as [i|] eqn:Ei; [|by destruct f; cbn in Ei; rewrite ?Ei in *; done].
  eapply (process_members_grow w _ (settled_growing (is_term f x))) in H as (s & [(t & Ht & Hs)|Hs] & _ & E & E'); [..|exact Hp|done| |exact Hfind|].
  - exists t. by rewrite E.
  - by destruct Hs; rewrite <-E'.
  - by destruct v; try done; apply elem_of_nil in Hin.
  - intros s s' Hi. eapply field_settled; [done|done|done|done| |exact Hi]. unfold as_array in Hin. by destruct (isArray v).
Qed.

(** *** The stages before *)

Lemma from_document_run field none zero many k v v' r : clean field → clean k → k ≠ field →
  from_document (document:=document) field none zero many v = (v', Ok r) →
  isObject v' = true ∧ json_get v' k JNull = json_get v k JNull.
Proof.
  intros Hf Hk Hne H. unfold from_document in H. apply M_bind_inv in H as (v1 & y & H1 & H).
  destruct (index_insert_get _ k _ _ _ Hf Hk H1) as (_ & Ho & Hg).
  assert (E : v' = v1).
  { destruct (isNull y); [by injection H as <-|]. apply M_bind_inv in H as (v2 & sv & H2 & H). injection H2 as <- _. by injection H as <-. }
  by subst v'.
Qed.

Lemma id_stage_keeps cfg id k v v' o : clean (id_field cfg) → clean k → k ≠ id_field cfg →
  id_stage (document:=document) cfg id v = (v', Ok (inr o)) →
  isObject v' = true ∧ json_get v' k JNull = json_get v k JNull.
Proof.
  intros Hf Hk Hne H. unfold id_stage in H. apply M_bind_inv in H as (v1 & r & H1 & H).
  assert (E : v1 = v' ∧ ∃ o', r = inr o') by (destruct r; injection H as <- H; eauto; done). destruct E as [-> (o' & ->)].
  destruct (decide (id = "")); [exact (from_document_run _ _ _ _ k _ _ _ Hf Hk Hne H1)|].
  destruct (from_url_run _ _ _ _ k _ _ _ Hf Hk H1) as (_ & Ho & Hg & _). split; [done|by apply Hg].
Qed.

(** The member of the type after both stages. *)
Lemma type_member cfg type v v' : clean (type_field cfg) → type ≠ "" → clean type → id_given type v (type_field cfg) →
  type_stage (document:=document) cfg type v = (v', Ok (inr type)) →
  ∃ x, json_get v' (type_field cfg) JNull = Ok x ∧ isNull x = false ∧ JStr type ∈ as_array x.
Proof.
  intros Hf Hne Hct Hg H. unfold type_stage in H. rewrite decide_False in H by done.
  destruct (from_url_run _ _ _ _ (type_field cfg) _ _ _ Hf Hf H) as (_ & Ho & _ & Hn & Hs).
  destruct Hg as [Hg|(x & Hg & Hx)].
  - exists (JArr [jstr type]). rewrite clean_jstr by done. split_and!; [|done|cbn; set_solver]. rewrite <-(clean_jstr type) by done. by apply Hn.
  - exists x. rewrite Hs; [|rewrite Hg; intros [= ->]; by destruct Hx]. split_and!; [done|by destruct Hx as [-> | ->]|].
    destruct Hx as [-> | ->]; cbn; set_solver.
Qed.

Lemma type_stage_keeps cfg type k v v' : clean (type_field cfg) → clean k → k ≠ type_field cfg → type ≠ "" →
  type_stage (document:=document) cfg type v = (v', Ok (inr type)) → json_get v' k JNull = json_get v k JNull.
Proof.
  intros Hf Hk Hne Ht H. unfold type_stage in H. rewrite decide_False in H by done.
  destruct (from_url_run _ _ _ _ k _ _ _ Hf Hk H) as (_ & _ & Hg & _). auto.
Qed.

(** *** The whole of [process_doc] *)

(** The field is configured, and what indexes it is of that configuration. *)
Definition indexed_as (s : Schema) (name : string) (f : FieldConfig) : Prop :=
  Schema_get name s = Some f ∧ field_indexer w s name = FieldConfig_indexer f ∧ has_is f = true.

(** A document made without errors has the terms of the values of its fields. *)
Lemma process_doc_found assertions type id st st' d s' :
  process_doc w assertions type id st = (st', Ok d) → errors (ref_errors (ds_refs st')) = [] → type ≠ "" →
  get_schema type (ds_config st') = Some s' →
  ∃ obj1 obj2 id', type_stage (ds_config st) type (ds_obj st) = (obj1, Ok (inr type)) ∧
    id_stage (ds_config st) id obj1 = (obj2, Ok (inr id')) ∧
    type_field (ds_config st') = type_field (ds_config st) ∧ meta_field (ds_config st') = meta_field (ds_config st) ∧
    ∀ name f v x, indexed_as s' name f → name ≠ meta_field (ds_config st) →
      clean name → json_get obj2 name JNull = Ok v → isNull v = false → x ∈ as_array v → simple_value x → within f x →
      ∃ t, is_term f x = Ok t ∧ t ∈ terms d.
Proof.
  intros H He Htype Hs'.
  destruct (process_doc_stages w assertions type id st st' d H He Htype) as (obj1 & obj2 & id' & c & s & s1 & E1 & E2 & E3 & E4 & E5 & E6).
  exists obj1, obj2, id'. destruct (ensure_schema_fields w type (ds_config st)) as (_ & F1 & F2 & _). rewrite E3 in F1, F2. cbn in F1, F2.
  rewrite E6 in Hs' |- *. unfold get_schema in Hs'. cbn in Hs'. rewrite lookup_insert_eq in Hs'. injection Hs' as ->.
  split_and!; [done..|]. intros name f v x (_ & Hf & His) Hmeta Hname Hv Hnn Hin Hx Hw.
  unfold Schema_process, json_check_object in E5. destruct (isObject obj2); [|done].
  destruct (process_members w assertions c obj2 _) as [p' r] eqn:Ep in E5. injection E5 as Es Er ->.
  destruct (process_members_indexer c assertions obj2 name (field_indexer w s name)
    (mkProc s (new_IndexingState (ref_errors (ds_refs st))) (ref_new_fields (ds_refs st))) eq_refl) as [Hi _].
  rewrite Ep in Hi. cbn [fst] in Hi. rewrite Es, Hf in Hi.
  eapply members_found in Ep; [exact Ep|by symmetry|done| |by eapply members_find|done..|].
  - by rewrite F2.
  - rewrite <-Er in He. exact He.
Qed.

End found.

(** ** Properties *)

(** C6: a document is found by what it was indexed with.  If a document sent to a type was
    processed without errors by a well-formed configuration, then the search of that type for the document's value [x] of
    a field builds, and matches the document.  The field is an identifier, exact or category
    field, not one of the three special ones, whose values were indexed as it is configured
    ([indexed_as]), and so is the field of the type; [x] is a single value, not an empty
    string ([simple_value]), and if the field is a category no longer than its limit
    ([within]: [long_category_not_found] is one that is longer), and so is the type; the
    names of the field, of the special fields and of the type hold no zero byte; and the
    type is the document's own, if it gives one. *)
Theorem indexed_value_found {document database} `{!Xapian document database} `{!XapianLaws document database}
    `{!DocStore document} `{!IndexLib document} `{!IndexLibLaws document database} `{!QueryLib}
    `{!QueryMatch document} `{!QueryMatchLaws document database}
    w assertions type id st st' (d : document) s' name f tf v x
    (Hc : config_ok w (ds_config st)) (Hnil : ref_idterm (ds_refs st) = "") (Htype : type ≠ "" ∧ clean type)
    (Hrun : process_doc w assertions type id st = (st', Ok d)) (He : errors (ref_errors (ds_refs st')) = [])
    (Hclean : clean (type_field (ds_config st)) ∧ clean (id_field (ds_config st)) ∧ clean name)
    (Hnames : NoDup [name; type_field (ds_config st); id_field (ds_config st); meta_field (ds_config st)])
    (Hs : get_schema type (ds_config st') = Some s')
    (Hf : indexed_as w s' name f) (Htf : indexed_as w s' (type_field (ds_config st)) tf)
    (Hobj : id_given type (ds_obj st) (type_field (ds_config st)))
    (Hv : json_get (ds_obj st) name JNull = Ok v) (Hx : x ∈ as_array v) (Hsimple : simple_value x)
    (Hw : within (document:=document) f x) (Htw : within (document:=document) tf (JStr type)) :
  ∃ q, DocumentTypeQueryBuilder_build (document:=document) w (ds_config st') (Some s')
      (JObj [("field", JArr [JStr name; JStr "is"; x])]) = Ok q ∧
    matches q d = true.
Proof.
  destruct Htype as [Htype Hct], Hclean as (Hc1 & Hc2 & Hc3).
  destruct (process_doc_ok w assertions type id st st' d Hc Hnil Hrun) as [[Htypes _] _].
  destruct (Htypes type s') as [_ Hdt]; [by apply get_schema_some|].
  destruct (process_doc_found w assertions type id st st' d s') as (obj1 & obj2 & id' & E1 & E2 & Et & Em & Hfound); [done..|].
  rewrite !NoDup_cons, !elem_of_cons in Hnames. destruct Hnames as (Hn1 & Hn2 & Hn3 & _).
  destruct (type_member (document:=document) _ _ _ _ Hc1 Htype Hct Hobj E1) as (tv & Htv & Htn & Htin).
  pose proof (type_stage_keeps (document:=document) _ _ name _ _ Hc1 Hc3 ltac:(tauto) Htype E1) as Hk1.
  destruct (id_stage_keeps (document:=document) _ _ name _ _ _ Hc2 Hc3 ltac:(tauto) E2) as [_ Hk2].
  destruct (id_stage_keeps (document:=document) _ _ (type_field (ds_config st)) _ _ _ Hc2 Hc1 ltac:(tauto) E2) as [_ Hk3].
  destruct (Hfound name f v x) as (t & Ht & Hin); [done|tauto|done|by rewrite Hk2, Hk1| |done..|].
  { by destruct v; try done; apply elem_of_nil in Hx. }
  destruct (Hfound (type_field (ds_config st)) tf tv (JStr type)) as (tt & Htt & Htin'); [done|tauto|done|by rewrite Hk3|done|done| |done|].
  { by split; [|congruence]. }
  destruct Hf as (Hf & _ & His), Htf as (Htf & _ & Hist), Hsimple as [Hxa _].
  exists (QueryPair OP_FILTER (QueryTerms OP_OR [t] 0) (QueryTerms OP_OR [tt] 0)).
  split; [|rewrite match_filter, !match_terms_or; cbn; by rewrite !bool_decide_true].
  unfold DocumentTypeQueryBuilder_build. rewrite Et, Htf. unfold type_query. rewrite Hdt, clean_jstr by done.
  rewrite (is_query w tf (JStr type) tt) by done. cbn [mbind res_bind]. unfold build_query.
  destruct (walk_size _) as [|n] eqn:En; [done|]. rewrite (build_single _ _ _ "field" Field "Field") by (apply list_elem_of_In; cbn; auto).
  cbn [build_kind]. rewrite (proj2 (build_field_ok _ _ (QueryTerms OP_OR [t] 0))); [done|].
  exists name, "is", x. split; [done|]. unfold DocumentTypeQueryBuilder_field_query. rewrite Hf. by apply is_query.
Qed.

#[local] Existing Instance ref_QueryLib.

(** The collection after a document was put into it. *)
Definition blog_after : Schema := default (new_Schema "") (get_schema "blog" (ds_config (put "blog" "12" hello).1)).
Definition field_after (name : string) : FieldConfig := default IgnoredFieldConfig (Schema_get name blog_after).

Lemma blog_after_indexed : indexed_as 64 blog_after "my_cat" (field_after "my_cat") ∧ indexed_as 64 blog_after "type" (field_after "type").
Proof. split; split_and!; vm_compute; reflexivity. Qed.

Lemma blog_after_within : within (document:=refdoc) (field_after "my_cat") (JStr "foo") ∧ within (document:=refdoc) (field_after "type") (JStr "blog").
Proof.
  split; [|vm_compute; exact I].
  let f := eval vm_compute in (field_after "my_cat") in replace (field_after "my_cat") with f by (vm_compute; reflexivity).
  intros text what name [= <-]. done.
Qed.

Lemma indexed_value_found_witness :
  let '(st', d) := put "blog" "12" hello in
  errors (ref_errors (ds_refs st')) = [] ∧
  ∃ q, DocumentTypeQueryBuilder_build (document:=refdoc) 64 (ds_config st') (Some blog_after)
      (JObj [("field", JArr [JStr "my_cat"; JStr "is"; JStr "foo"])]) = Ok q ∧
    matches q d = true.
Proof.
  pose proof put_hello as H. assert (He : errors (ref_errors (ds_refs (put "blog" "12" hello).1)) = []) by (vm_compute; reflexivity).
  assert (Hs : get_schema "blog" (ds_config (put "blog" "12" hello).1) = Some blog_after) by (vm_compute; reflexivity).
  destruct blog_after_indexed as [Hf Htf], blog_after_within as [Hw Htw].
  destruct (put "blog" "12" hello) as [st' d]. cbn [fst snd] in H, He, Hs. split; [exact He|].
  refine (indexed_value_found 64 false "blog" "12" (start hello) st' d blog_after "my_cat" _ _ (JStr "foo") (JStr "foo")
    default_config_ok eq_refl _ H He _ _ Hs Hf Htf _ eq_refl _ _ Hw Htw); clear.
  - by split.
  - split_and!; vm_compute; reflexivity.
  - apply (bool_decide_unpack _). vm_compute. exact I.
  - left. vm_compute. reflexivity.
  - apply list_elem_of_here.
  - by split.
Defined.

(** A fault.  A category longer than the limit of a field that truncates is indexed
    under its first bytes, without an error; the query for it asks for the whole name, so
    that it does not match the document. *)
Theorem long_category_not_found {document database} `{!Xapian document database} `{!XapianLaws document database}
    `{!DocStore document} `{!IndexLib document} `{!IndexLibLaws document database} `{!QueryLib}
    `{!QueryMatch document} `{!QueryMatchLaws document database}
    w base prefix slot taxonomy store name text (s s' : IndexingState document)
    (Ha : too_long_action base = TOOLONG_TRUNCATE) (Hlong : (max_length base < str_size text)%N)
    (Hnew : terms (doc s) = ∅)
    (Hrun : category_value w prefix None (max_length base) (too_long_action base) (SlotName_get slot) name (JStr text) s = (s', Ok ())) :
  errors (state_errors s') = errors (state_errors s) ∧
  ∃ q, FieldConfig_query (document:=document) w (CategoryFieldConfig base prefix slot taxonomy store) "is" (JStr text) = Ok q ∧
    matches q (doc s') = false.
Proof.
  unfold category_value in Hrun. apply M_bind_inv in Hrun as (s1 & [val e] & [= <- <- <-] & Hr).
  rewrite bool_decide_true in Hr by done. cbn [negb] in H.
  destruct (decide (text = "")) as [->|Hne]; [unfold str_size in Hlong; cbn in Hlong; lia|].
  apply M_bind_inv in Hr as (s2 & [] & H2 & Hr). apply M_bind_inv in Hr as (s3 & [] & H3 & Hr).
  assert (E2 : doc s2 = doc s ∧ state_errors s2 = state_errors s).
  { unfold add_value_if in H2. destruct (_ =? _)%N; by injection H2 as <-. }
  injection H3 as <-. unfold shorten in Hr. rewrite Ha, (proj2 (N.ltb_lt _ _) Hlong) in Hr.
  apply M_bind_inv in Hr as (s4 & o & [= <- <-] & Hr). apply M_bind_inv in Hr as (s5 & [] & [= <-] & [= <-]). cbn.
  destruct E2 as [-> ->]. split; [done|]. eexists. split; [reflexivity|]. rewrite match_terms_or. cbn. rewrite bool_decide_false; [done|].
  rewrite terms_add_wdf, Hnew, union_empty_r_L, elem_of_singleton. intros E%(f_equal String.length).
  rewrite !str_app_length, str_take_length in E. unfold str_size in *. lia.
Qed.

Lemma long_category_not_found_witness :
  let base := mkMaxLen SlotName_default 3 TOOLONG_TRUNCATE in
  let s := new_IndexingState (document:=refdoc) new_IndexingErrors in
  let s' := (category_value 64 "p" None 3 TOOLONG_TRUNCATE (SlotName_get SlotName_default) "c" (JStr "foobar") s).1 in
  "pCfoo" ∈ terms (doc s') ∧
  errors (state_errors s') = errors (state_errors s) ∧
  ∃ q, FieldConfig_query (document:=refdoc) 64 (CategoryFieldConfig base "p" SlotName_default "t" "") "is" (JStr "foobar") = Ok q ∧
    matches q (doc s') = false.
Proof.
  intros base s s'. split; [apply (bool_decide_unpack _); vm_compute; exact I|].
  by apply (long_category_not_found 64 base "p" SlotName_default "t" "" "c" "foobar" s s').
Defined.
