(* ===== verification/Collection.v ===== *)
(** * Collections: categories of documents

    src/jsonxapian/collection.cc, collconfig.cc and the category fields of schema.cc and
    indexing.cc: a document in category [cat] of a field whose group is [g] has the term
    [g + "\tC" + cat], and the term [g + "\tA" + a] for every ancestor [a] of the
    category in the field's taxonomy.  When a taxonomy changes, the documents of the
    changed categories are rewritten.

    The configuration is that of [CollConfig]; the text it is stored as is the argument
    [config_str]. *)

From S2P Require Import Prelude Json TextUtils Taxonomy Schema CollConfig XapianDb DbGroup.

(** ** Terms *)

(** [skip_to(t)]: the first term from here on that is not less than [t]. *)
Fixpoint skip_to (t : string) (l : list string) : list string :=
  match l with
  | [] => []
  | x :: r => if decide (str_lt x t) then skip_to t r else l
  end.

(** The terms from here on up to the first one without the prefix. *)
Fixpoint while_prefix (prefix : string) (l : list string) : list string :=
  match l with
  | [] => []
  | x :: r => if string_startswith x prefix then x :: while_prefix prefix r else []
  end.

(** The terms a loop from [skip_to(prefix)] while [string_startswith(...)] visits. *)
Definition prefix_terms (prefix : string) (X : gset string) : list string :=
  while_prefix prefix (skip_to prefix (sorted_elems X)).

Section collection.
Context {document database : Type} `{!Xapian document database}.
Context (json_serialise : json → string) (io : io_step → bool) (config_str : CollectionConfig → string).

(** The ancestors of the categories of a document. *)
Definition doc_ancestors (cat_prefix : string) (t : taxonomy) (terms : gset string) : Categories :=
  foldl (λ anc term,
    match Taxonomy_find t (str_drop (String.length cat_prefix) term) with
    | Some cat => anc ∪ ancestors cat
    | None => anc
    end) ∅ (prefix_terms cat_prefix terms).

(** The identifier term of a document. *)
Definition doc_idterm (doc : document) : res string :=
  match skip_to (sing (chr 9)) (sorted_elems (terms doc)) with
  | [] => throw (InvalidValueError "Document has no ID - cannot update category terms")
  | t :: _ =>
      if string_startswith t (sing (chr 9)) then Ok t
      else throw (InvalidValueError "Document has no ID - cannot update category terms")
  end.

(** Makes the terms with [ancestor_prefix] those of the given ancestors. *)
Definition set_ancestor_terms (ancestor_prefix : string) (anc : Categories) (doc : document) : document :=
  let '(doc, anc) :=
    foldl (λ '(doc, anc) term,
      let cat := str_drop (String.length ancestor_prefix) term in
      if decide (cat ∈ anc) then (doc, anc ∖ {[cat]}) else (remove_term term doc, anc))
      (doc, anc) (prefix_terms ancestor_prefix (terms doc)) in
  foldl (λ doc a, add_term (ancestor_prefix +:+ a) doc) doc (sorted_elems anc).

(** ** Updating the documents of modified categories *)

(** One pass over the posting lists: those at their end are dropped, and the smallest
    current document is found (0 when none is left). *)
Definition next_docid (iters : list (list N)) : list (list N) * N :=
  foldl (λ '(kept, nextid) it,
    match it with
    | [] => (kept, nextid)
    | thisid :: _ =>
        (kept ++ [it], if (nextid =? 0)%N || (thisid <? nextid)%N then thisid else nextid)
    end) ([], 0%N) iters.

(** Advances the posting lists that are at the document. *)
Definition advance (nextid : N) (iters : list (list N)) : list (list N) :=
  (λ it, match it with d :: r => if (d =? nextid)%N then r else it | [] => it end) <$> iters.

(** What the copy [db] of the combined database made at the start shows: handles are
    shared with the fragments. *)
Definition db_view (db : list handle) (g : DbGroup) : database := combine (handle_db g <$> db).

(** One document. *)
Definition update_doc (prefix : string) (t : taxonomy) (db : list handle) (nextid : N) : M DbGroup () :=
  g ← getM;
  match get_document (db_view db g) nextid with
  | None => throwM (XapianError "DocNotFoundError")
  | Some doc =>
      let anc := doc_ancestors (prefix +:+ "C") t (terms doc) in
      idterm ← liftM (doc_idterm doc);
      DbGroup_add_doc json_serialise io (set_ancestor_terms (prefix +:+ "A") anc doc) idterm
  end.

(** [while (!iters.empty())]. *)
Fixpoint update_loop (fuel : nat) (prefix : string) (t : taxonomy) (db : list handle)
    (iters : list (list N)) : M DbGroup () :=
  match iters with
  | [] => mret ()
  | _ =>
      let '(iters, nextid) := next_docid iters in
      if (nextid =? 0)%N then mret ()
      else
        match fuel with
        | O => liftM OutOfFuel
        | S fuel =>
            update_doc prefix t db nextid ;;
            update_loop fuel prefix t db (advance nextid iters)
        end
  end.

Definition total_postings (iters : list (list N)) : nat := sum_list_with length iters.

Definition update_modified_categories_group (prefix : string) (t : taxonomy) (mods : Categories) : M DbGroup () :=
  init_group_db ;;
  g ← getM;
  let iters := (λ cat, postlist (group_view g) ((prefix +:+ "C") +:+ cat)) <$> sorted_elems mods in
  update_loop (total_postings iters) prefix t (group_db g) iters.

(** ** Collections *)

Record Collection := mkColl { group : @DbGroup database; config : CollectionConfig }.

Definition on_group {A} (op : M DbGroup A) : M Collection A := λ c,
  let '(g, r) := op (group c) in (mkColl g (config c), r).
Definition on_config {A} (op : M CollectionConfig A) : M Collection A := λ c,
  let '(cfg, r) := op (config c) in (mkColl (group c) cfg, r).

Definition write_config : M Collection () :=
  c ← getM; on_group (DbGroup_set_metadata "_restpose_config" (config_str (config c))).

Definition update_modified_categories (taxonomy_name : string) (t : taxonomy) (mods : Categories) : M Collection () :=
  c ← getM;
  for_each (sorted_elems (get_taxonomy_groups taxonomy_name (config c))) (λ i,
    on_group (update_modified_categories_group (i +:+ sing (chr 9)) t mods)).

Definition Collection_category_add (taxonomy_name cat_name : string) : M Collection () :=
  on_config (category_add taxonomy_name cat_name) ;; write_config.

(** The operations that can change ancestors: the documents are updated, then the
    configuration is stored. *)
Definition category_update (taxonomy_name : string) (op : M CollectionConfig (taxonomy * Categories)) : M Collection () :=
  r ← on_config op;
  update_modified_categories taxonomy_name r.1 r.2 ;;
  write_config.

Definition Collection_category_remove (taxonomy_name cat_name : string) : M Collection () :=
  category_update taxonomy_name (category_remove taxonomy_name cat_name).
Definition Collection_category_add_parent (taxonomy_name child_name parent_name : string) : M Collection () :=
  category_update taxonomy_name (category_add_parent taxonomy_name child_name parent_name).
Definition Collection_category_remove_parent (taxonomy_name child_name parent_name : string) : M Collection () :=
  category_update taxonomy_name (category_remove_parent taxonomy_name child_name parent_name).

Definition Collection_get_taxonomy (name : string) : M Collection (option taxonomy) := λ c,
  if negb (is_open (control (group c)))
  then (c, throw (InvalidStateError "Collection must be open to get taxonomy"))
  else (c, Ok (get_taxonomy name (config c))).

Definition Collection_set_taxonomy (name : string) (t : taxonomy) : M Collection () := λ c,
  if negb (is_writable (control (group c)))
  then (c, throw (InvalidStateError "Collection must be open for writing to set category"))
  else (on_config (modifyM (set_taxonomy name t)) ;; write_config) c.

Definition Collection_get_taxonomy_names : M Collection json := λ c,
  if negb (is_open (control (group c)))
  then (c, throw (InvalidStateError "Collection must be open to get taxonomy"))
  else (c, Ok (get_taxonomy_names (config c))).

Definition raw_update_doc (doc : document) (idterm : string) : M Collection () := λ c,
  if negb (is_writable (control (group c)))
  then (c, throw (InvalidStateError "Collection must be open for writing to add document"))
  else on_group (DbGroup_add_doc json_serialise io doc idterm) c.

Definition raw_delete_doc (idterm : string) : M Collection () := λ c,
  if negb (is_writable (control (group c)))
  then (c, throw (InvalidStateError "Collection must be open for writing to delete document"))
  else on_group (DbGroup_delete_doc idterm) c.

Definition commit : M Collection () := λ c,
  if negb (is_writable (control (group c)))
  then (c, throw (InvalidStateError "Collection must be open for writing to commit"))
  else on_group DbGroup_sync c.

(** *** Removing a taxonomy *)

(** [doc.remove_term(t)], for which the library documents an exception when the document
    does not have the term. *)
Definition doc_remove_term (t : string) (doc : document) : res document :=
  if decide (t ∈ terms doc) then Ok (remove_term t doc) else throw (XapianError "InvalidArgumentError").

(** The loop that removes the ancestor terms of a document, from the terms [ti] of the
    iterator on; the loop does not advance the iterator.  Each round removes a term or
    throws, so one round more than there are terms is enough fuel. *)
Fixpoint strip_loop (fuel : nat) (ancestor_prefix : string) (ti : list string) (doc : document) : res document :=
  match ti with
  | [] => Ok doc
  | t :: _ =>
      if string_startswith t ancestor_prefix
      then match fuel with
           | O => OutOfFuel
           | S fuel => doc ← doc_remove_term t doc; strip_loop fuel ancestor_prefix ti doc
           end
      else Ok doc
  end.

Definition strip_terms (ancestor_prefix : string) (doc : document) : res document :=
  strip_loop (S (size (terms doc))) ancestor_prefix
    (skip_to ancestor_prefix (skip_to (sing (chr 9)) (sorted_elems (terms doc)))) doc.

Definition strip_doc (ancestor_prefix : string) (db : list handle) (d : N) : M DbGroup () :=
  g ← getM;
  match get_document (db_view db g) d with
  | None => throwM (XapianError "DocNotFoundError")
  | Some doc =>
      idterm ← liftM (doc_idterm doc);
      doc ← liftM (strip_terms ancestor_prefix doc);
      DbGroup_add_doc json_serialise io doc idterm
  end.

(** [allterms] lists the terms of the combined database with a prefix. *)
Context (allterms : database → string → list string).

Definition strip_group (prefix : string) (db : list handle) : M DbGroup () :=
  g ← getM;
  for_each (allterms (db_view db g) prefix) (λ term,
    g ← getM;
    for_each (postlist (db_view db g) term) (strip_doc prefix db)).

Definition Collection_remove_taxonomy (taxonomy_name : string) : M Collection () :=
  on_config (modifyM (remove_taxonomy_config taxonomy_name)) ;;
  on_group init_group_db ;;
  c ← getM;
  for_each (sorted_elems (get_taxonomy_groups taxonomy_name (config c))) (λ i,
    on_group (strip_group ((i +:+ sing (chr 9)) +:+ "A") (group_db (group c)))) ;;
  write_config.

End collection.
