(* ===== verification/CollectionThms.v ===== *)
(** * Documents follow their taxonomies

    The terms for the ancestors of a document's categories are those of the taxonomy,
    and stay so when the taxonomy changes. *)

From S2P Require Import Prelude Json TextUtils Taxonomy TaxonomyClosure TaxonomyFacts TaxonomyOps TaxonomyCut.
From S2P Require Import TaxonomyThms Schema CollConfig XapianDb DbGroup DbGroupThms Collection.

(** ** Terms with a prefix *)

Lemma str_not_lt_prefix p r : ¬ str_lt (p +:+ r) p.
Proof.
  induction p as [|c p IH]; [by intros ?%str_lt_nil_r|]. rewrite str_app_cons, str_lt_cons.
  intros [?|[_ ?]]; [lia|done].
Qed.

(** The strings between [p] and one that starts with [p] start with [p]. *)
Lemma prefix_between p y r : ¬ str_lt y p → ¬ str_lt (p +:+ r) y → ∃ r', y = p +:+ r'.
Proof.
  revert y. induction p as [|c p IH]; intros y H1 H2; [by exists y|].
  destruct y as [|d y]; [destruct H1; apply str_lt_nil_cons|]. rewrite str_app_cons, str_lt_cons in *.
  assert (d = c) as ->.
  { apply ord_inj. assert (¬ (ord d < ord c)%N ∧ ¬ (ord c < ord d)%N) as [??] by tauto. lia. }
  destruct (IH y) as [r' ->]; [tauto..|]. by exists r'.
Qed.

Lemma skip_to_spec p l : StronglySorted String.le l → ∀ x, x ∈ skip_to p l ↔ x ∈ l ∧ ¬ str_lt x p.
Proof.
  induction 1 as [|a l Hs IH Hall]; intros x; cbn [skip_to]; [set_solver|]. case_decide as Ha.
  - rewrite IH, elem_of_cons. naive_solver.
  - split; [|tauto]. intros Hx. split; [done|]. apply elem_of_cons in Hx as [->|Hx]; [done|].
    rewrite Forall_forall in Hall. rewrite str_lt_not_le in *. intros Hn. apply Ha. intros Hpa. apply Hn. etrans; [done|auto].
Qed.

Lemma skip_to_suffix p l : ∃ k, l = k ++ skip_to p l.
Proof.
  induction l as [|a l [k Hk]]; [by exists []|]. cbn. case_decide; [|by exists []]. exists (a :: k). cbn. congruence.
Qed.

Lemma sorted_suffix {A} (R : A → A → Prop) k l : StronglySorted R (k ++ l) → StronglySorted R l.
Proof. induction k as [|a k IH]; [done|]. intros H. inversion H; subst. auto. Qed.

Lemma skip_to_sorted p l : StronglySorted String.le l → StronglySorted String.le (skip_to p l).
Proof. intros H. destruct (skip_to_suffix p l) as [k E]. rewrite E in H. by eapply sorted_suffix. Qed.

Lemma while_prefix_spec p l :
  StronglySorted String.le l → (∀ x, x ∈ l → ¬ str_lt x p) →
  ∀ x, x ∈ while_prefix p l ↔ x ∈ l ∧ ∃ r, x = p +:+ r.
Proof.
  induction 1 as [|a l Hs IH Hall]; intros Hp x; cbn [while_prefix]; [set_solver|].
  destruct (string_startswith a p) eqn:E.
  - apply string_startswith_spec in E. rewrite !elem_of_cons, IH by set_solver. naive_solver.
  - split; [by intros ?%elem_of_nil|]. intros [Hx [r ->]]. exfalso.
    assert (Hn : ¬ ∃ r, a = p +:+ r) by (rewrite <-string_startswith_spec; congruence). apply Hn.
    apply elem_of_cons in Hx as [<-|Hx]; [eauto|]. apply (prefix_between p a r); [apply Hp; set_solver|].
    rewrite str_lt_not_le. rewrite Forall_forall in Hall. auto.
Qed.

(** The loop from [skip_to(prefix)] visits exactly the terms with the prefix. *)
Lemma elem_of_prefix_terms p X x : x ∈ prefix_terms p X ↔ x ∈ X ∧ ∃ r, x = p +:+ r.
Proof.
  unfold prefix_terms. rewrite while_prefix_spec.
  - rewrite skip_to_spec by apply sorted_elems_sorted. rewrite elem_of_sorted_elems. split; [naive_solver|].
    intros [Hx [r ->]]. split_and!; [done|apply str_not_lt_prefix|eauto].
  - apply skip_to_sorted, sorted_elems_sorted.
  - intros y [_ ?]%skip_to_spec; [done|apply sorted_elems_sorted].
Qed.

Lemma prefix_terms_nodup p X : NoDup (prefix_terms p X).
Proof.
  unfold prefix_terms. destruct (skip_to_suffix p (sorted_elems X)) as [k E].
  assert (Hnd : NoDup (skip_to p (sorted_elems X))).
  { pose proof (sorted_elems_nodup X) as H. rewrite E in H. by apply NoDup_app in H as (_ & _ & ?). }
  clear E. induction Hnd as [|a l Ha Hnd IH]; cbn; [constructor|]. destruct (string_startswith a p); [|constructor].
  constructor; [|done]. intros Hin. apply Ha. clear -Hin. induction l as [|b l IH]; [set_solver|]. cbn in Hin.
  destruct (string_startswith b p); [|set_solver]. set_solver.
Qed.

#[export] Instance has_prefix_dec y p : Decision (∃ r, y = p +:+ r).
Proof.
  destruct (string_startswith y p) eqn:E; [left|right]; rewrite <-string_startswith_spec; congruence.
Defined.

Section terms.
Context {document database : Type} `{!Xapian document database} `{!XapianLaws document database}.
Context `{!CommitsSucceed document database}.
Implicit Types x doc : document.

(** The ancestors of a document's categories. *)
Lemma elem_of_doc_ancestors cp (t : taxonomy) X a :
  a ∈ doc_ancestors cp t X ↔ ∃ cat c, cp +:+ cat ∈ X ∧ t !! cat = Some c ∧ a ∈ ancestors c.
Proof.
  unfold doc_ancestors.
  assert (H : ∀ l acc, (∀ y, y ∈ l → ∃ r, y = cp +:+ r) →
    a ∈ foldl (λ anc term, match Taxonomy_find t (str_drop (String.length cp) term) with
                           | Some cat => anc ∪ ancestors cat | None => anc end) acc l ↔
    a ∈ acc ∨ ∃ cat c, cp +:+ cat ∈ l ∧ t !! cat = Some c ∧ a ∈ ancestors c).
  { induction l as [|y l IH]; intros acc Hl; cbn [foldl]; [set_solver|]. rewrite IH by set_solver.
    destruct (Hl y ltac:(set_solver)) as [r ->]. rewrite str_drop_app. unfold Taxonomy_find. destruct (t !! r) as [c|] eqn:E.
    - split; [set_solver|]. intros [?|(cat & c' & [Hc|Hc]%elem_of_cons & Ht & Ha)]; [set_solver| |set_solver].
      apply (inj (String.app cp)) in Hc as ->. rewrite E in Ht. simplify_eq. set_solver.
    - split; [set_solver|]. intros [?|(cat & c' & [Hc|Hc]%elem_of_cons & Ht & Ha)]; [set_solver| |set_solver].
      apply (inj (String.app cp)) in Hc as ->. congruence. }
  rewrite H by (intros y [_ ?]%elem_of_prefix_terms; done). setoid_rewrite elem_of_prefix_terms. set_solver.
Qed.

Lemma drop_terms_spec ap l : ∀ doc (anc : Categories), NoDup l → (∀ y, y ∈ l → y ∈ terms doc ∧ ∃ r, y = ap +:+ r) →
  let '(doc', anc') :=
    foldl (λ '(doc, anc) term,
      let cat := str_drop (String.length ap) term in
      if decide (cat ∈ anc) then (doc, anc ∖ {[cat]}) else (remove_term term doc, anc)) (doc, anc) l in
  (∀ y, y ∈ terms doc' ↔ y ∈ terms doc ∧ (y ∈ l → ∃ r, y = ap +:+ r ∧ r ∈ anc)) ∧
  (∀ a, a ∈ anc' ↔ a ∈ anc ∧ ap +:+ a ∉ l) ∧ payload doc' = payload doc.
Proof.
  induction l as [|y l IH]; intros doc anc Hnd Hl; cbn [foldl]; [set_solver|].
  apply NoDup_cons in Hnd as [Hy Hnd]. destruct (Hl y ltac:(set_solver)) as [Hyt [r ->]]. rewrite str_drop_app.
  case_decide as Hr.
  - specialize (IH doc (anc ∖ {[r]}) Hnd ltac:(set_solver)). destruct foldl as [doc' anc'].
    destruct IH as (H1 & H2 & H3). split_and!; [| |done].
    + intros z. rewrite H1. apply and_iff_compat_l. split; [intros H [->|Hz]%elem_of_cons; [eauto|set_solver]|].
      intros H Hz. destruct (H ltac:(set_solver)) as (r' & -> & Hr'). exists r'. split; [done|]. set_solver.
    + intros a. rewrite H2, not_elem_of_cons. split; [|set_solver]. intros [[??]%elem_of_difference ?]. split_and!; [done| |done].
      intros ->%(inj (String.app ap)). set_solver.
  - assert (Ht : terms (remove_term (ap +:+ r) doc) = terms doc ∖ {[ap +:+ r]}) by by apply terms_remove.
    specialize (IH (remove_term (ap +:+ r) doc) anc Hnd ltac:(rewrite Ht; set_solver)). destruct foldl as [doc' anc'].
    destruct IH as (H1 & H2 & H3). split_and!; [| |by rewrite H3, payload_remove].
    + intros z. rewrite H1, Ht, elem_of_difference, not_elem_of_singleton, elem_of_cons. split; [|naive_solver].
      intros [[Hz Hne] Hz2]. split; [done|]. intros [->|?]; [done|auto].
    + intros a. rewrite H2, not_elem_of_cons. split; [|naive_solver]. intros [Ha ?]. split_and!; [done| |done].
      intros ->%(inj (String.app ap)). done.
Qed.

Lemma add_terms_spec ap l : ∀ doc,
  let doc' := foldl (λ doc a, add_term (ap +:+ a) doc) doc l in
  (∀ y, y ∈ terms doc' ↔ y ∈ terms doc ∨ ∃ a, y = ap +:+ a ∧ a ∈ l) ∧ payload doc' = payload doc.
Proof.
  induction l as [|a l IH]; intros doc; cbn [foldl]; [set_solver|].
  destruct (IH (add_term (ap +:+ a) doc)) as [H1 H2]. split; [|by rewrite H2, payload_add].
  intros y. rewrite H1, terms_add. set_solver.
Qed.

(** The new terms of a document, and nothing else changes. *)
Lemma set_ancestor_terms_spec ap (anc : Categories) doc :
  (∀ y, y ∈ terms (set_ancestor_terms ap anc doc) ↔
    (y ∈ terms doc ∧ ¬ ∃ r, y = ap +:+ r) ∨ ∃ a, y = ap +:+ a ∧ a ∈ anc) ∧
  payload (set_ancestor_terms ap anc doc) = payload doc.
Proof.
  unfold set_ancestor_terms.
  pose proof (drop_terms_spec ap (prefix_terms ap (terms doc)) doc anc (prefix_terms_nodup _ _)
    ltac:(intros y; by rewrite elem_of_prefix_terms)) as H.
  destruct foldl as [doc' anc']. destruct H as (H1 & H2 & H3).
  destruct (add_terms_spec ap (sorted_elems anc') doc') as [H4 H5]. split; [|by rewrite H5].
  intros y. rewrite H4, H1. setoid_rewrite elem_of_sorted_elems. setoid_rewrite H2. setoid_rewrite elem_of_prefix_terms. split.
  - intros [[Hy Hr]|(a & -> & Ha & _)]; [|eauto]. destruct (decide (∃ r, y = ap +:+ r)) as [?|?]; naive_solver.
  - intros [[Hy Hr]|(a & -> & Ha)]; [left; naive_solver|].
    destruct (decide (ap +:+ a ∈ terms doc)); [left; split; [done|eauto]|]. right. exists a. naive_solver.
Qed.

(** A document's identifier is found. *)
Lemma doc_idterm_ok doc t : ids doc = {[t]} → doc_idterm doc = Ok t.
Proof using XapianLaws0.
  clear CommitsSucceed0. intros Hi. destruct (ids_singleton t doc Hi) as (Hid & Ht & _). unfold doc_idterm.
  assert (Hs := sorted_elems_sorted (terms doc)).
  assert (Hin : t ∈ skip_to (sing (chr 9)) (sorted_elems (terms doc))).
  { apply skip_to_spec; [done|]. rewrite elem_of_sorted_elems. split; [done|]. destruct t as [|c t]; [done|]. cbn in Hid. subst.
    apply (str_not_lt_prefix (sing (chr 9))). }
  pose proof (skip_to_sorted (sing (chr 9)) _ Hs) as Hsk. pose proof (skip_to_spec (sing (chr 9)) _ Hs) as Hspec.
  destruct (skip_to _ _) as [|u l]; [set_solver|].
  assert (Hu : ∃ r, u = sing (chr 9) +:+ r).
  { destruct t as [|c t]; [done|]. cbn in Hid. subst. apply (prefix_between (sing (chr 9)) u t).
    - apply Hspec. set_solver.
    - rewrite str_lt_not_le. intros Hn. apply Hn. inversion Hsk as [|? ? ? Hall]; subst. rewrite Forall_forall in Hall.
      apply elem_of_cons in Hin as [<-|Hin]; [done|auto]. }
  rewrite (proj2 (string_startswith_spec _ _) Hu). f_equal. destruct Hu as [r ->].
  assert (Hr : sing (chr 9) +:+ r ∈ ids doc); [|rewrite Hi in Hr; set_solver].
  apply elem_of_ids. split; [done|]. apply elem_of_sorted_elems. apply Hspec. set_solver.
Qed.

End terms.

(** ** Posting lists *)

Definition open_iters (iters : list (list N)) : Prop := Forall (StronglySorted N.lt) iters.
Definition pending (iters : list (list N)) (d : N) : Prop := ∃ it, it ∈ iters ∧ d ∈ it.

Lemma next_docid_fold iters : ∀ kept n,
  open_iters iters → (∀ d, pending iters d → (0 < d)%N) →
  let '(kept', n') := foldl (λ '(kept, nextid) it,
    match it with
    | [] => (kept, nextid)
    | thisid :: _ => (kept ++ [it], if (nextid =? 0)%N || (thisid <? nextid)%N then thisid else nextid)
    end) (kept, n) iters in
  kept' = kept ++ filter (λ it, it ≠ []) iters ∧
  (n' = n ∨ pending iters n') ∧ (n ≠ 0%N → (0 < n' ≤ n)%N) ∧ (∀ d, pending iters d → (0 < n' ≤ d)%N).
Proof.
  induction iters as [|it iters IH]; intros kept n Ho Hp; cbn [foldl].
  - rewrite app_nil_r. split_and!; [done|by left|lia|]. by intros d (? & ?%elem_of_nil & _).
  - apply Forall_cons in Ho as [Hs Ho]. destruct it as [|t r].
    + rewrite (filter_cons_False (λ it, it ≠ [])) by (intros Hx; by apply Hx). assert (Hpe : ∀ d, pending ([] :: iters) d ↔ pending iters d).
      { intros d. unfold pending. split; [|intros (it & Hi & Hd); exists it; split; [by right|done]]. intros (it & [->|?]%elem_of_cons & Hd); [by apply elem_of_nil in Hd|eauto]. }
      setoid_rewrite Hpe in Hp. specialize (IH kept n Ho Hp). destruct foldl as [kept' n']. setoid_rewrite Hpe. done.
    + rewrite (filter_cons_True (λ it, it ≠ [])) by done. set (n1 := if _ || _ then t else n).
      assert (Ht : (0 < t)%N) by (apply Hp; exists (t :: r); set_solver).
      assert (Hn1 : (0 < n1 ≤ t)%N ∧ (n1 = n ∨ n1 = t) ∧ (n ≠ 0 → n1 ≤ n)%N).
      { unfold n1. destruct (N.eqb_spec n 0), (N.ltb_spec t n); cbn; lia. }
      specialize (IH (kept ++ [t :: r]) n1 Ho ltac:(intros d (it & ? & ?); apply Hp; exists it; set_solver)).
      destruct foldl as [kept' n']. destruct IH as (-> & H1 & H2 & H3). split_and!.
      * by rewrite <-app_assoc.
      * destruct H1 as [->|(it & ? & ?)]; [|right; exists it; set_solver].
        destruct Hn1 as (_ & [->| ->] & _); [by left|]. right. exists (t :: r). set_solver.
      * lia.
      * intros d (it & [->|Hit]%elem_of_cons & Hd); [|apply H3; by exists it].
        assert (t ≤ d)%N; [|lia]. apply elem_of_cons in Hd as [->|Hd]; [lia|].
        inversion Hs as [|? ? ? Hall]; subst. rewrite Forall_forall in Hall. specialize (Hall d Hd). lia.
Qed.

(** The lists still open and the smallest document in them. *)
Lemma next_docid_spec iters :
  open_iters iters → (∀ d, pending iters d → (0 < d)%N) →
  let '(kept, n) := next_docid iters in
  open_iters kept ∧ (∀ d, pending kept d ↔ pending iters d) ∧ Forall (λ it, it ≠ []) kept ∧
  (n = 0%N → ∀ d, ¬ pending iters d) ∧ (n ≠ 0%N → pending iters n ∧ ∀ d, pending iters d → (n ≤ d)%N).
Proof.
  intros Ho Hp. pose proof (next_docid_fold iters [] 0%N Ho Hp) as H. unfold next_docid.
  destruct foldl as [kept n]. destruct H as (-> & H1 & _ & H3). cbn [app]. split_and!.
  - unfold open_iters in *. rewrite Forall_forall in *. intros it [_ ?]%list_elem_of_filter. auto.
  - intros d. unfold pending. setoid_rewrite list_elem_of_filter. split; [naive_solver|].
    intros (it & ? & Hd). exists it. split_and!; [by intros ->; apply elem_of_nil in Hd|done..].
  - apply Forall_forall. by intros it [? _]%list_elem_of_filter.
  - intros -> d Hd. specialize (H3 d Hd). lia.
  - intros Hn. destruct H1 as [|H1]; [done|]. split; [done|]. intros d Hd. by apply H3.
Qed.

Lemma advance_spec n kept :
  open_iters kept → (∀ d, pending kept d → (n ≤ d)%N) →
  open_iters (advance n kept) ∧ ∀ d, pending (advance n kept) d ↔ pending kept d ∧ d ≠ n.
Proof.
  intros Ho Hmin.
  assert (Hit : ∀ it, it ∈ kept → let it' := match it with d :: r => if (d =? n)%N then r else it | [] => it end in
    StronglySorted N.lt it' ∧ ∀ d, d ∈ it' ↔ d ∈ it ∧ d ≠ n).
  { intros it Hin. unfold open_iters in Ho. rewrite Forall_forall in Ho. specialize (Ho it Hin).
    destruct it as [|d r]; cbn; [set_solver|].
    assert (Hall : Forall (N.lt d) r) by by inversion Ho. rewrite Forall_forall in Hall.
    assert (Hd : (n ≤ d)%N) by (apply Hmin; exists (d :: r); set_solver).
    destruct (N.eqb_spec d n) as [->|Hne].
    - split; [by inversion Ho|]. intros e. rewrite elem_of_cons. split; [|naive_solver]. intros He.
      split; [by right|]. intros ->. specialize (Hall n He). lia.
    - split; [done|]. intros e. split; [|tauto]. intros He. split; [done|]. intros ->.
      apply elem_of_cons in He as [->|He]; [done|]. specialize (Hall n He). lia. }
  unfold open_iters, advance, pending. split.
  - apply Forall_fmap, Forall_forall. intros it Hin. by apply (Hit it).
  - intros d. setoid_rewrite list_elem_of_fmap. split.
    + intros (? & (it & -> & Hin) & Hd). apply (Hit it Hin) in Hd. naive_solver.
    + intros [(it & Hin & Hd) Hne]. eexists. split; [by exists it|]. by apply (Hit it Hin).
Qed.

Lemma advance_length n kept it :
  it ∈ kept → n ∈ it → open_iters kept → (∀ d, pending kept d → (n ≤ d)%N) →
  total_postings (advance n kept) < total_postings kept.
Proof.
  intros Hin Hn Ho Hmin. unfold total_postings, advance.
  assert (Hle : ∀ l, sum_list_with length ((λ it, match it with d :: r => if (d =? n)%N then r else it | [] => it end) <$> l)
    ≤ sum_list_with length l).
  { induction l as [|[|d r] l IH]; [done|done|]. csimpl. destruct (d =? n)%N; cbn; lia. }
  apply list_elem_of_split in Hin as (k1 & k2 & ->). rewrite fmap_app. csimpl. rewrite !sum_list_with_app. cbn.
  pose proof (Hle k1). pose proof (Hle k2). destruct it as [|d r]; [set_solver|]. destruct (N.eqb_spec d n) as [|Hne]; cbn; [lia|].
  exfalso. assert (n ≤ d)%N by (apply Hmin; exists (d :: r); set_solver).
  apply elem_of_cons in Hn as [|Hn]; [done|].
  assert (Hs : StronglySorted N.lt (d :: r)) by (unfold open_iters in Ho; rewrite Forall_forall in Ho; apply Ho; set_solver).
  inversion Hs as [|? ? ? Hall]; subst. rewrite Forall_forall in Hall. specialize (Hall n Hn). lia.
Qed.

Lemma pending_kept_total iters : total_postings (next_docid iters).1 = total_postings iters.
Proof.
  unfold next_docid. assert (H : ∀ l kept n, total_postings (foldl (λ '(kept, nextid) it,
    match it with
    | [] => (kept, nextid)
    | thisid :: _ => (kept ++ [it], if (nextid =? 0)%N || (thisid <? nextid)%N then thisid else nextid)
    end) (kept, n) l).1 = total_postings kept + total_postings l); [|apply (H iters [] 0%N)].
  unfold total_postings. induction l as [|[|d r] l IH]; intros kept n; cbn [foldl sum_list_with length]; [done| |].
  - rewrite IH. done.
  - rewrite IH, sum_list_with_app. cbn. lia.
Qed.

(** ** Updating the documents of one group *)

Section update.
Context {document database : Type} `{!Xapian document database} `{!XapianLaws document database}.
Context `{!CommitsSucceed document database}.
Abbreviation DbGroup := (@DbGroup database).
Implicit Types g : DbGroup.
Implicit Types x : document.
Context (json_serialise : json → string) (io : io_step → bool) (Hio : ∀ step, io step = true).
Context (p : string) (t : taxonomy).

(** A document with its ancestor terms brought up to date. *)
Definition refresh x : document :=
  set_ancestor_terms (p +:+ "A") (doc_ancestors (p +:+ "C") t (terms x)) x.

Context (Hids : ∀ x, ids (refresh x) = ids x).
Context (g0 : DbGroup) (m : gmap string document).
Context (Hm : represents g0 m) (Hv0 : views g0 = contents g0) (Hn0 : (next_fragnum g0 + 2 < 2 ^ 32)%N).

(** The state after the documents in [D] have been updated, numbered as in the combined
    database [g0] had. *)
Record progress (D : gset N) g : Prop := {
  pr_ok : group_ok g;
  pr_writable : writable g;
  pr_next : next_fragnum g = next_fragnum g0;
  pr_length : length (contents g) = length (contents g0);
  pr_handles : group_db g = group_db g0;
  pr_valid : group_db_valid g = true;
  pr_docs : ∀ i d y, at_pos g i d y ↔
    ∃ x, at_pos g0 i d x ∧ y = if decide (group_docid (length (contents g0)) i d ∈ D) then refresh x else x;
}.

Lemma at_pos_bounds g i d x : at_pos g i d x → i < length (contents g) ∧ (0 < d)%N.
Proof using XapianLaws0.
  intros (db & Hdb & Hx). split; [by eapply lookup_lt_Some|]. apply (docid_positive db). by rewrite Hx.
Qed.

Lemma group_docid_inj n i d j e :
  i < n → j < n → (0 < d)%N → (0 < e)%N → group_docid n i d = group_docid n j e → i = j ∧ d = e.
Proof.
  intros Hi Hj Hd He E. split.
  - by rewrite <-(sub_index_group n i d), E, sub_index_group.
  - by rewrite <-(sub_docid_group n i d), E, sub_docid_group.
Qed.

(** The combined database made at the start still shows the documents not updated, as
    snapshot or through the writable fragments. *)
Lemma progress_view D g i d x :
  progress D g → at_pos g0 i d x → group_docid (length (contents g0)) i d ∉ D →
  get_document (db_view (group_db g0) g) (group_docid (length (contents g0)) i d) = Some x.
Proof.
  intros Hpr Hx Hd. destruct (at_pos_bounds g0 i d x Hx) as [Hi Hpos].
  assert (Hl : length (group_db g0) = length (contents g0)) by (rewrite <-Hv0; unfold views; by rewrite length_fmap).
  unfold db_view. rewrite combine_docs by auto with rp. rewrite length_fmap, Hl, sub_index_group, sub_docid_group by done.
  rewrite list_lookup_fmap. destruct (lookup_lt_is_Some_2 (group_db g0) i) as [h Hh]; [lia|]. rewrite Hh. cbn.
  destruct h as [j|db].
  - assert (Hh' : group_db g !! i = Some (HWr j)) by (by rewrite (pr_handles _ _ Hpr)).
    destruct (ok_handles _ (pr_ok _ _ Hpr) (pr_valid _ _ Hpr)) as [_ Hw].
    destruct (Hw i j Hh') as (-> & f & Hf & Hs). cbn. rewrite Hf.
    assert (Hg : at_pos g i d x) by (apply (pr_docs _ _ Hpr); exists x; by rewrite decide_False).
    destruct Hg as (db & Hdb & Hx'). unfold contents in Hdb. rewrite list_lookup_fmap, Hf in Hdb. cbn in Hdb.
    unfold content in Hdb. rewrite Hs in Hdb. by simplify_eq.
  - cbn. destruct Hx as (db' & Hdb & Hx). rewrite <-Hv0 in Hdb. unfold views in Hdb.
    rewrite list_lookup_fmap, Hh in Hdb. by simplify_eq/=.
Qed.

Lemma progress_once D g i d y i' d' y' u :
  progress D g → at_pos g i d y → at_pos g i' d' y' → u ∈ ids y → u ∈ ids y' → i = i' ∧ d = d'.
Proof.
  intros Hpr (x & Hx & ->)%(pr_docs _ _ Hpr) (x' & Hx' & ->)%(pr_docs _ _ Hpr) Hu Hu'.
  revert Hu Hu'. do 2 case_decide; rewrite ?Hids; intros Hu Hu'; by apply (rep_once _ _ Hm i d x i' d' x' u).
Qed.

Lemma update_doc_ok D g i d x :
  progress D g → at_pos g0 i d x → group_docid (length (contents g0)) i d ∉ D →
  ∃ g', update_doc json_serialise io p t (group_db g0) (group_docid (length (contents g0)) i d) g = (g', Ok ()) ∧
    progress (D ∪ {[group_docid (length (contents g0)) i d]}) g'.
Proof.
  intros Hpr Hx Hd. destruct (at_pos_bounds g0 i d x Hx) as [Hi Hpos].
  destruct (rep_ids _ _ Hm i d x Hx) as (u & Hu & _). destruct (ids_singleton u x Hu) as (Hid & Hut & Hne).
  unfold update_doc, mbind, M_bind, getM. rewrite (progress_view D g i d x), (doc_idterm_ok x u) by done. cbn.
  fold (refresh x).
  assert (Hxg : at_pos g i d x) by (apply (pr_docs _ _ Hpr); exists x; by rewrite decide_False).
  destruct (add_doc_ok json_serialise io Hio g (refresh x) u) as (g' & H & Hg' & Hw' & Hcase);
    [apply Hpr..|by rewrite (pr_next _ _ Hpr)|done|].
  exists g'. split; [done|].
  destruct Hcase as [(i2 & db & Hdb & Hte & Hc)|[Ha _]]; [|by destruct (absent_no_doc g u i d x Ha Hxg)].
  apply term_exists_spec in Hte as (d2 & y2 & Hd2 & Hy2).
  destruct (progress_once D g i2 d2 y2 i d x u) as [-> ->]; [done|by exists db|done|by apply elem_of_ids|by rewrite Hu; set_solver|].
  assert (y2 = x) as ->. { destruct Hxg as (? & ? & ?). by simplify_eq. }
  split; [done..| | | | |].
  - rewrite (ch_next _ _ _ _ Hc). apply (pr_next _ _ Hpr).
  - rewrite contents_length, (ch_length _ _ _ _ Hc), <-contents_length. apply (pr_length _ _ Hpr).
  - rewrite (ch_handles _ _ _ _ Hc). apply (pr_handles _ _ Hpr).
  - rewrite (ch_valid _ _ _ _ Hc). apply (pr_valid _ _ Hpr).
  - assert (Hpos' := at_pos_replace i d x g g' u (refresh x) (pr_ok _ _ Hpr) Hxg Hut).
    intros j e y. rewrite Hpos'; [|intros j' e' y' ??; apply (progress_once D g j' e' y' i d x u); try done;
      [by apply elem_of_ids|by rewrite Hu; set_solver]|done].
    rewrite (pr_docs _ _ Hpr). split.
    + intros [(-> & -> & ->)|[Hne' (z & Hz & ->)]]; [exists x; by rewrite decide_True by set_solver|].
      exists z. split; [done|]. apply decide_ext. rewrite elem_of_union, elem_of_singleton. split; [tauto|].
      intros [?|E]; [done|]. destruct Hne'. destruct (at_pos_bounds g0 j e z Hz). by apply group_docid_inj in E.
    + intros (z & Hz & ->). destruct (decide (j = i ∧ e = d)) as [[-> ->]|Hne'].
      * left. rewrite decide_True by set_solver. assert (z = x) as ->; [|done]. destruct Hz as (? & ? & ?), Hx as (? & ? & ?). by simplify_eq.
      * right. split; [done|]. exists z. split; [done|]. apply decide_ext. rewrite elem_of_union, elem_of_singleton. split; [|tauto].
        intros [?|E]; [done|]. destruct Hne'. destruct (at_pos_bounds g0 j e z Hz). by apply group_docid_inj in E.
Qed.

Lemma update_loop_unfold fuel db iters :
  update_loop json_serialise io fuel p t db iters =
    let '(iters, nextid) := next_docid iters in
    if (nextid =? 0)%N then mret ()
    else match fuel with
         | O => liftM OutOfFuel
         | S fuel => update_doc json_serialise io p t db nextid ;;
                     update_loop json_serialise io fuel p t db (advance nextid iters)
         end.
Proof. by destruct fuel, iters. Qed.

Lemma update_loop_ok fuel : ∀ iters D g,
  progress D g → open_iters iters →
  (∀ e, pending iters e → e ∉ D ∧ ∃ i d x, e = group_docid (length (contents g0)) i d ∧ at_pos g0 i d x) →
  total_postings iters ≤ fuel →
  ∃ g' D', update_loop json_serialise io fuel p t (group_db g0) iters g = (g', Ok ()) ∧ progress D' g' ∧
    ∀ e, e ∈ D' ↔ e ∈ D ∨ pending iters e.
Proof.
  induction fuel as [fuel IH] using lt_wf_ind. intros iters D g Hpr Ho Hpe Hfuel. rewrite update_loop_unfold.
  assert (Hpos : ∀ e, pending iters e → (0 < e)%N) by (intros e (_ & i & d & x & -> & _)%Hpe; auto with rp).
  pose proof (next_docid_spec iters Ho Hpos) as Hnext. pose proof (pending_kept_total iters) as Htot.
  destruct (next_docid iters) as [kept n]. destruct Hnext as (Hok & Hkp & _ & Hz & Hmin). cbn [fst] in Htot.
  destruct (N.eqb_spec n 0) as [->|Hn].
  { exists g, D. split_and!; [done..|]. intros e. specialize (Hz eq_refl e). tauto. }
  destruct (Hmin Hn) as [Hin Hle]. destruct (Hpe n Hin) as (HnD & i & d & x & -> & Hx).
  apply Hkp in Hin as Hin'. destruct Hin' as (it & Hit & Hnit).
  pose proof (advance_length _ kept it Hit Hnit Hok ltac:(intros e ?%Hkp; auto)) as Hlt.
  destruct (advance_spec _ kept Hok ltac:(intros e ?%Hkp; auto)) as [Hok' Hpend].
  destruct fuel as [|fuel]; [lia|]. destruct (update_doc_ok D g i d x Hpr Hx HnD) as (g1 & H1 & Hpr1).
  destruct (IH fuel ltac:(lia) (advance (group_docid (length (contents g0)) i d) kept) _ g1 Hpr1 Hok') as (g2 & D' & H2 & Hpr2 & HD').
  - intros e [He%Hkp Hne]%Hpend. destruct (Hpe e He) as [HeD ?]. split; [set_solver|done].
  - lia.
  - exists g2, D'. split_and!; [|done|].
    + unfold mbind, M_bind. by rewrite H1.
    + intros e. rewrite HD', Hpend, Hkp. set_unfold. destruct (decide (e = group_docid (length (contents g0)) i d)) as [->|]; tauto.
Qed.

End update.

Section group_update.
Context {document database : Type} `{!Xapian document database} `{!XapianLaws document database}.
Context `{!CommitsSucceed document database}.
Abbreviation DbGroup := (@DbGroup database).
Implicit Types g : DbGroup.
Implicit Types x : document.

(** Whether a document is in one of the modified categories of a group, and the documents
    after the update. *)
Definition touched (p : string) (mods : Categories) x : Prop := set_Exists (λ cat, (p +:+ "C") +:+ cat ∈ terms x) mods.
#[global] Instance touched_dec p mods x : Decision (touched p mods x) := set_Exists_dec _ _.
Definition updated (p : string) (t : taxonomy) (mods : Categories) x : document :=
  if decide (touched p mods x) then refresh p t x else x.

Lemma represents_fmap g g' m (F : document → document) :
  (∀ i d y, at_pos g' i d y ↔ ∃ x, at_pos g i d x ∧ y = F x) → (∀ x, ids (F x) = ids x) →
  represents g m → represents g' (F <$> m).
Proof.
  intros Hp Hi [R1 R2 R3]. split.
  - intros i d y (x & Hx & ->)%Hp. destruct (R1 i d x Hx) as (u & Hu & Hm). exists u. by rewrite Hi, lookup_fmap, Hm.
  - intros u y [x [<- Hx]]%lookup_fmap_Some. destruct (R2 u x Hx) as (Hu & i & d & Hxp). rewrite Hi. split; [done|].
    exists i, d. apply Hp. eauto.
  - intros i d y i' d' y' u (x & Hx & ->)%Hp (x' & Hx' & ->)%Hp. rewrite !Hi. by apply R3.
Qed.

(** A prefix that is not the start of an identifier. *)
Definition plain_prefix (p : string) : Prop := match p with String c _ => c ≠ chr 9 | EmptyString => False end.

Lemma ids_refresh p t x : plain_prefix p → ids (refresh p t x) = ids x.
Proof.
  intros Hp. apply set_eq. intros u. rewrite !elem_of_ids. unfold refresh. rewrite (proj1 (set_ancestor_terms_spec _ _ _)).
  assert (Hn : is_id u → ∀ r, u ≠ (p +:+ "A") +:+ r); [|naive_solver].
  intros Hu r ->. by destruct p as [|c p].
Qed.

(** One group: every document in a modified category has its ancestors brought up to
    date; no other document changes. *)
Lemma update_group_ok json_serialise io p t mods g m :
  (∀ step, io step = true) → plain_prefix p →
  group_ok g → writable g → fresh g → (next_fragnum g + 2 < 2 ^ 32)%N → represents g m →
  ∃ g1 g', init_group_db g = (g1, Ok ()) ∧ reopened g g1 ∧
    update_modified_categories_group json_serialise io p t mods g = (g', Ok ()) ∧
    group_ok g' ∧ writable g' ∧ next_fragnum g' = next_fragnum g ∧ represents g' (updated p t mods <$> m) ∧
    group_db g' = group_db g1 ∧ group_db_valid g' = true.
Proof.
  intros Hio Hp Hg Hw Hf Hn Hm.
  destruct (init_group_db_ok g) as (g1 & H1 & Hr & Hv & Hviews); [done|by unfold is_open; rewrite Hw|done|].
  exists g1. assert (Hg1 : group_ok g1) by by apply Hr.
  assert (Hm1 : represents g1 m) by (eapply represents_same; [by apply Hr|done]).
  set (iters := (λ cat, postlist (group_view g1) ((p +:+ "C") +:+ cat)) <$> sorted_elems mods).
  assert (Hpend : ∀ e, pending iters e ↔ ∃ i d x, e = group_docid (length (contents g1)) i d ∧ at_pos g1 i d x ∧ touched p mods x).
  { intros e. unfold pending, iters. setoid_rewrite list_elem_of_fmap. split.
    - intros (? & (cat & -> & Hcat) & He). apply elem_of_postlist in He as (x & Hx & Hxt).
      apply view_docs in Hx as (i & d & -> & _ & Hx); [|done]. exists i, d, x. split_and!; [done..|].
      exists cat. by rewrite <-elem_of_sorted_elems.
    - intros (i & d & x & -> & Hx & cat & Hcat & Hxt). eexists. split; [exists cat; split; [done|by apply elem_of_sorted_elems]|].
      apply elem_of_postlist. exists x. split; [|done]. apply view_docs; [done|]. exists i, d. split_and!; [done| |done].
      by eapply at_pos_bounds. }
  destruct (update_loop_ok json_serialise io Hio p t (λ x, ids_refresh p t x Hp) g1 m Hm1 Hviews
    ltac:(by rewrite (ro_next _ _ Hr)) (total_postings iters) iters ∅ g1) as (g' & D & H2 & Hpr & HD).
  - split; try done; [unfold writable; by rewrite (ro_control _ _ Hr)|].
    intros i d y. split; [intros Hy; by exists y|]. by intros (x & Hx & ->).
  - apply Forall_fmap, Forall_forall. intros cat _. apply postlist_sorted.
  - intros e (i & d & x & -> & Hx & _)%Hpend. split; [set_solver|eauto].
  - done.
  - exists g'. split_and!; try done; try apply Hpr.
    + unfold update_modified_categories_group, mbind, M_bind, getM. rewrite H1. exact H2.
    + etrans; [eapply pr_next; exact Hpr|apply (ro_next _ _ Hr)].
    + apply (represents_fmap g1); [|intros x; unfold updated; case_decide; [by apply ids_refresh|done]|done].
      assert (HDt : ∀ i d x, at_pos g1 i d x → group_docid (length (contents g1)) i d ∈ D ↔ touched p mods x).
      { intros i d x Hx. rewrite HD, Hpend. split; [|intros ?; right; by exists i, d, x]. intros [?|(j & e & y & E & Hy & Ht)]; [set_solver|].
        destruct (at_pos_bounds _ _ _ _ Hx), (at_pos_bounds _ _ _ _ Hy). apply group_docid_inj in E as [-> ->]; [|done..].
        destruct Hx as (? & ? & ?), Hy as (? & ? & ?). by simplify_eq. }
      intros i d y. etrans; [eapply pr_docs; exact Hpr|]. unfold updated.
      split; intros (x & Hx & ->); exists x; (split; [done|]); apply decide_ext; [|symmetry]; by apply HDt.
Qed.

(** ** Documents in step with a taxonomy *)

(** The ancestor terms of a document are exactly those of its categories. *)
Definition indexed (p : string) (t : taxonomy) x : Prop :=
  ∀ a, (p +:+ "A") +:+ a ∈ terms x ↔
    ∃ cat c, (p +:+ "C") +:+ cat ∈ terms x ∧ t !! cat = Some c ∧ a ∈ ancestors c.

Lemma cat_term_refresh p t x cat : (p +:+ "C") +:+ cat ∈ terms (refresh p t x) ↔ (p +:+ "C") +:+ cat ∈ terms x.
Proof.
  unfold refresh. rewrite (proj1 (set_ancestor_terms_spec _ _ _)).
  assert (Hn : ∀ r, (p +:+ "C") +:+ cat ≠ (p +:+ "A") +:+ r); [|naive_solver].
  intros r. rewrite !str_app_assoc. by intros H%(inj (String.app p)).
Qed.

Lemma refresh_indexed p t x : indexed p t (refresh p t x).
Proof.
  intros a. setoid_rewrite cat_term_refresh. unfold refresh. rewrite (proj1 (set_ancestor_terms_spec _ _ _)).
  setoid_rewrite elem_of_doc_ancestors. split.
  - intros [[_ Hn]|(a' & Ha & H)]; [by destruct Hn; exists a|]. apply (inj (String.app _)) in Ha as ->. done.
  - intros H. right. eauto.
Qed.

(** Terms of another kind are not touched. *)
Lemma refresh_other p t x y : (∀ r, y ≠ (p +:+ "A") +:+ r) → y ∈ terms (refresh p t x) ↔ y ∈ terms x.
Proof.
  intros Hn. unfold refresh. rewrite (proj1 (set_ancestor_terms_spec _ _ _)). naive_solver.
Qed.

(** After a change that reports all categories whose records changed, updating the
    documents of these categories is enough. *)
Lemma updated_indexed p (t t' : taxonomy) mods x :
  (∀ n, t !! n ≠ t' !! n → n ∈ mods) → indexed p t x → indexed p t' (updated p t' mods x).
Proof.
  intros Hmods Hx. unfold updated. case_decide as Ht; [apply refresh_indexed|]. intros a. rewrite (Hx a).
  assert (Heq : ∀ cat, (p +:+ "C") +:+ cat ∈ terms x → t !! cat = t' !! cat).
  { intros cat Hc. destruct (decide (t !! cat = t' !! cat)); [done|]. destruct Ht. exists cat. auto. }
  split; intros (cat & c & Hc & Hl & Ha); exists cat, c; by rewrite ?Heq, <-?Heq in *.
Qed.

(** ** Different groups do not interfere *)

(** A group's name is not empty and has no tab. *)
Definition plain_group (grp : string) : Prop := grp ≠ "" ∧ chr 9 ∉ bytes grp.

Definition group_prefix (grp : string) : string := grp +:+ sing (chr 9).

Lemma plain_group_prefix grp : plain_group grp → plain_prefix (group_prefix grp).
Proof. intros [Hne Ht]. destruct grp as [|c grp]; [done|]. unfold bytes in Ht. cbn in Ht. cbn. intros ->. set_solver. Qed.

Lemma group_prefix_inj grp grp' r r' : plain_group grp → plain_group grp' →
  group_prefix grp +:+ r = group_prefix grp' +:+ r' → grp = grp'.
Proof.
  intros [_ H] [_ H']. unfold group_prefix, bytes in *. rewrite !str_app_assoc, !str_app_sing. revert grp' H'.
  induction grp as [|c grp IH]; intros [|c' grp'] H'; [done| | |]; rewrite ?str_app_cons, ?str_app_nil_l; cbn in *.
  - intros [= <- _]. set_solver.
  - intros [= -> _]. set_solver.
  - intros [= <- E]. f_equal. apply (IH ltac:(set_solver) grp'); [set_solver|done].
Qed.

Lemma updated_other grp grp' t mods x r : plain_group grp → plain_group grp' → grp ≠ grp' →
  group_prefix grp +:+ r ∈ terms (updated (group_prefix grp') t mods x) ↔ group_prefix grp +:+ r ∈ terms x.
Proof.
  intros Hg Hg' Hne. unfold updated. case_decide; [|done]. apply refresh_other. intros r'.
  rewrite (str_app_assoc (group_prefix grp')). by intros ?%group_prefix_inj.
Qed.

Lemma indexed_other grp grp' t t' mods x : plain_group grp → plain_group grp' → grp ≠ grp' →
  indexed (group_prefix grp) t (updated (group_prefix grp') t' mods x) ↔ indexed (group_prefix grp) t x.
Proof.
  intros. unfold indexed. setoid_rewrite str_app_assoc. by setoid_rewrite updated_other.
Qed.

(** The update of all groups of a taxonomy, on one document. *)
Definition updated_all (l : list string) (t : taxonomy) (mods : Categories) x : document :=
  foldl (λ x grp, updated (group_prefix grp) t mods x) x l.

Lemma updated_all_other l grp t t' mods x : Forall plain_group l → plain_group grp → grp ∉ l →
  indexed (group_prefix grp) t (updated_all l t' mods x) ↔ indexed (group_prefix grp) t x.
Proof.
  intros Hl Hg Hn. revert x. induction Hl as [|a l Ha Hl IH]; intros x; [done|].
  etrans; [apply (IH ltac:(set_solver) (updated (group_prefix a) t' mods x))|]. apply indexed_other; [done..|set_solver].
Qed.

Lemma updated_all_indexed l grp (t t' : taxonomy) mods x :
  Forall plain_group l → NoDup l → grp ∈ l → (∀ n, t !! n ≠ t' !! n → n ∈ mods) →
  indexed (group_prefix grp) t x → indexed (group_prefix grp) t' (updated_all l t' mods x).
Proof.
  intros Hl Hnd Hin Hm. revert x. induction Hl as [|a l Ha Hl IH]; intros x Hx; [set_solver|].
  apply NoDup_cons in Hnd as [Han Hnd].
  change (updated_all (a :: l) t' mods x) with (updated_all l t' mods (updated (group_prefix a) t' mods x)).
  destruct (decide (grp = a)) as [->|Hne].
  - apply updated_all_other; [done..|]. by apply updated_indexed with t.
  - assert (grp ∈ l) as Hin' by set_solver. apply IH; [done..|].
    apply indexed_other; [|done..]. rewrite Forall_forall in Hl. auto.
Qed.

(** Everything but ancestor terms of the groups is kept. *)
Lemma updated_all_keeps l t mods x :
  payload (updated_all l t mods x) = payload x ∧
  ∀ y, (∀ grp r, grp ∈ l → y ≠ (group_prefix grp +:+ "A") +:+ r) → y ∈ terms (updated_all l t mods x) ↔ y ∈ terms x.
Proof.
  revert x. induction l as [|a l IH]; intros x; [done|].
  destruct (IH (updated (group_prefix a) t mods x)) as [H1 H2].
  split.
  - etrans; [exact H1|]. unfold updated. case_decide; [|done]. apply set_ancestor_terms_spec.
  - intros y Hy. etrans; [apply H2; set_solver|]. unfold updated. case_decide; [|done]. apply refresh_other. set_solver.
Qed.

End group_update.
