(* ===== verification/CollectionOps.v ===== *)
(** * Open collections

    The rest of src/jsonxapian/collection.cc and collection.h: opening a collection and
    reading its stored configuration, the parts of the configuration, documents by their
    identifiers, and src/jsonxapian/doctojson.cc, what is told of a document.  Searching is
    in [Search], the categories of documents in [Collection].

    The configuration is stored as the JSON text of [CollectionConfig_to_json]. *)

From S2P Require Import Prelude Json TextUtils DocData DocValues Taxonomy Pipe NGram Schema CollConfig Indexing XapianDb DbGroup Collection ProcessDoc.

(** What Xapian tells of a term of a document: its frequency and its positions. *)
Class DocTerms (document : Type) := {
  get_wdf : document → string → N;
  positionlist : document → string → list N;
}.

Section ops.
Context {document database : Type} `{XD : !Xapian document database} `{DS : !DocStore document} `{IL : !IndexLib document} `{DT : !DocTerms document}.
Context (w : N) (assertions : bool) (json_unserialise : string → res json) (io : io_step → bool).

(** ** A collection and the text of the configuration it has read *)

Record OpenCollection := mkOpen { coll : @Collection database; last_config : string }.

Definition on_coll {A} (op : M (@Collection database) A) : M OpenCollection A := λ s,
  let '(c, r) := op (coll s) in (mkOpen c (last_config s), r).

Definition new_Collection (name path : string) (disk : gmap string database) (files : gmap string string) (dirs : gset string)
    : res OpenCollection :=
  cfg ← new_CollectionConfig name;
  Ok (mkOpen (mkColl (new_DbGroup path disk files dirs) cfg) "").

Definition read_stored_config : M OpenCollection () :=
  config_str ← on_coll (on_group (DbGroup_get_metadata "_restpose_config"));
  s ← getM;
  if decide (last_config s ≠ "" ∧ config_str = last_config s) then mret ()
  else
    modifyM (λ s, mkOpen (coll s) config_str) ;;
    if decide (config_str = "") then on_coll (on_config (set_default w))
    else
      config_obj ← liftM (json_unserialise config_str);
      on_coll (on_config (CollectionConfig_from_json w json_serialise config_obj)).

(** [try { ... } catch(...) { group.close(); throw; }]. *)
Definition read_config : M OpenCollection () := λ s,
  match read_stored_config s with
  | (s, Throw e) => (on_coll (on_group DbGroup_close) ;; throwM e) s
  | r => r
  end.

Definition Collection_open_writable : M OpenCollection () := λ s,
  if is_writable (control (group (coll s))) then (s, Ok ())
  else (on_coll (on_group (DbGroup_open_writable json_unserialise styled io)) ;; read_config) s.

Definition Collection_open_readonly : M OpenCollection () :=
  on_coll (on_group (DbGroup_open_readonly json_unserialise styled)) ;; read_config.

Definition Collection_close : M OpenCollection () := on_coll (on_group DbGroup_close).

(** ** The configuration *)

(** [write_config], the text made from the JSON form. *)
Definition store_config : M (@Collection database) () :=
  c ← getM;
  config_obj ← liftM (CollectionConfig_to_json (config c));
  on_group (DbGroup_set_metadata "_restpose_config" (json_serialise config_obj)).

Definition when_open {A} (what : string) (op : M (@Collection database) A) : M (@Collection database) A := λ c,
  if negb (is_open (control (group c))) then (c, throw (InvalidStateError ("Collection must be open to " +:+ what))) else op c.
Definition when_writable {A} (what : string) (op : M (@Collection database) A) : M (@Collection database) A := λ c,
  if negb (is_writable (control (group c)))
  then (c, throw (InvalidStateError ("Collection must be open for writing to " +:+ what))) else op c.

Definition Collection_get_schema (type : string) : M (@Collection database) Schema :=
  when_open "get schema"
    (c ← getM; match get_schema type (config c) with None => throwM (InvalidValueError "Schema not found") | Some s => mret s end).
Definition Collection_set_schema (type : string) (schema : Schema) : M (@Collection database) () :=
  when_writable "set schema" (on_config (set_schema w json_serialise type schema) ;; store_config).

Definition Collection_get_pipe (pipe_name : string) : M (@Collection database) Pipe :=
  when_open "get pipe" (c ← getM; liftM (get_pipe pipe_name (config c))).
Definition Collection_set_pipe (pipe_name : string) (p : Pipe) : M (@Collection database) () :=
  when_writable "set pipe" (on_config (modifyM (set_pipe pipe_name p)) ;; store_config).

Definition Collection_get_categoriser (name : string) : M (@Collection database) Categoriser :=
  when_open "get categoriser" (c ← getM; liftM (get_categoriser name (config c))).
Definition Collection_set_categoriser (name : string) (cat : Categoriser) : M (@Collection database) () :=
  when_writable "set categoriser" (on_config (modifyM (set_categoriser name cat)) ;; store_config).

Definition Collection_from_json (value : json) : M (@Collection database) () :=
  when_writable "set config" (on_config (CollectionConfig_from_json w json_serialise value) ;; store_config).
Definition Collection_to_json : M (@Collection database) json := c ← getM; liftM (CollectionConfig_to_json (config c)).

Definition Collection_categorise `{!UnicodeLib} (name text : string) : M (@Collection database) json :=
  c ← getM; liftM (CollConfig.categorise (config c) name text).

(** ** Documents *)

(** [config.process_doc] with fresh errors, the first of which is thrown: the document, the
    term of its identifier and whether new fields were made. *)
Definition process_or_throw (obj : json) (doc_type doc_id : string) (new_fields : bool) : M (@Collection database) (document * string * bool) := λ c,
  let '(d, r) := process_doc w assertions doc_type doc_id (mkDocState (config c) obj (mkRefs "" new_IndexingErrors new_fields)) in
  let c := mkColl (group c) (ds_config d) in
  match r with
  | Throw e => (c, Throw e)
  | OutOfFuel => (c, OutOfFuel)
  | Ok doc =>
      match errors (ref_errors (ds_refs d)) with
      | (field, error) :: _ => (c, throw (InvalidValueError (field +:+ ": " +:+ error)))
      | [] => (c, Ok (doc, ref_idterm (ds_refs d), ref_new_fields (ds_refs d)))
      end
  end.

Definition Collection_process_doc (obj : json) (doc_type doc_id : string) (new_fields : bool) : M (@Collection database) (document * string * bool) :=
  process_or_throw obj doc_type doc_id new_fields.

(** [add_doc]: the identifier passed on is the text "FIXME", and [new_fields] has no
    initial value. *)
Definition Collection_add_doc (obj : json) (doc_type : string) (uninitialised : bool) : M (@Collection database) () :=
  r ← process_or_throw obj doc_type "FIXME" uninitialised;
  raw_update_doc json_serialise io r.1.1 r.1.2.

Definition Collection_doc_count : M (@Collection database) N := on_group DbGroup_get_doccount.

Definition Collection_get_doc_fields (doc : document) (doc_type : string) (fieldlist : json) : M (@Collection database) json :=
  when_open "get document"
    (c ← getM;
     match get_schema doc_type (config c) with
     | None => mret (JObj [])
     | Some _ => liftM (Schema_display_doc json_unserialise doc fieldlist)
     end).

(** *** A document as JSON *)

(** An empty member is removed again. *)
Definition set_nonempty (result : json) (name : string) (v : json) : json :=
  match v with JObj [] => result | _ => json_set result name v end.

Definition data_json (docdata : DocumentData) : res json :=
  foldl (λ r '(field, value), r ← r; v ← json_unserialise value; Ok (json_set r field v)) (Ok (JObj [])) (sorted_items docdata).

Definition term_json (doc : document) (t : string) : json :=
  let termval := if (get_wdf doc t =? 0)%N then JObj [] else json_set (JObj []) "wdf" (JUInt (get_wdf doc t)) in
  match positionlist doc t with
  | [] => termval
  | l => json_set termval "positions" (foldl (λ ps p, json_append ps (JUInt p)) (JArr []) l)
  end.

Definition terms_json (doc : document) : json :=
  foldl (λ r t, json_set r (hexesc t) (term_json doc t)) (JObj []) (sorted_elems (terms doc)).

(** The values in the order of their slots. *)
Definition slot_le (a b : N * string) : Prop := (a.1 <= b.1)%N.
#[local] Instance slot_le_dec a b : Decision (slot_le a b).
Proof. unfold slot_le. apply _. Defined.
Definition values_json (doc : document) : json :=
  foldl (λ r '(slot, v), json_set r (str_unsigned slot) (jstr (hexesc v))) (JObj [])
    (merge_sort slot_le (map_to_list (payload doc).2)).

Definition doc_to_json (doc : document) (result : json) : res json :=
  json_check_object result "target for doc_to_json" ;;
  docdata ← match DocumentData_unserialise (payload doc).1 ∅ with
            | (docdata, Ok _) => Ok docdata
            | (_, Throw e) => Throw e
            | (_, OutOfFuel) => OutOfFuel
            end;
  dataval ← data_json docdata;
  let result := set_nonempty (JObj []) "data" dataval in
  let result := set_nonempty result "terms" (terms_json doc) in
  Ok (set_nonempty result "values" (values_json doc)).

(** [get_document]: null when there is no such document. *)
Definition Collection_get_document (doc_type docid : string) (result : json) : M (@Collection database) json :=
  found ← on_group (DbGroup_get_document (sing (chr 9) +:+ doc_type +:+ sing (chr 9) +:+ docid));
  match found with
  | None => mret JNull
  | Some doc => liftM (doc_to_json doc result)
  end.

End ops.
