(* ===== verification/MatchSpies.v ===== *)
(** * Match spies

    src/matchspies/facetmatchspy.h and facetmatchspy.cc, termoccurmatchspy.h and
    termoccurmatchspy.cc: objects the match shows its documents to, and which count the
    values of a slot, the terms of a group or the pairs of them.

    The order [std::sort] leaves equal elements in is not specified: sorting is the class
    [StdSort], with what the standard says of it as [StdSortLaws]. *)

From Stdlib Require Import SpecFloat.
From S2P Require Import Prelude Json TextUtils DocValues XapianDb DbGroup Collection.

(** ** Sorting *)

(** [std::sort(begin, end)] by an [operator<]. *)
Class StdSort := std_sort : ∀ {A : Type}, (A → A → bool) → list A → list A.

(** The laws, for orders given by a number to which each element is mapped. *)
Class StdSortLaws `{!StdSort} : Prop := {
  sort_perm {A} (lt : A → A → bool) l : std_sort lt l ≡ₚ l;
  sort_sorted {A} (f : A → N) l : StronglySorted (λ a b, (f b <= f a)%N) (std_sort (λ a b, f b <? f a)%N l);
}.

(** ** Counting *)

(** [++counts[key]], for 32-bit counts. *)
Definition count (key : string) (counts : gmap string N) : gmap string N :=
  <[key := wrap32 (default 0%N (counts !! key) + 1)]> counts.

(** [StringAndFreq]: the most frequent come first. *)
Definition more_frequent {A} (a b : A * N) : bool := (b.2 <? a.2)%N.

(** [for (j = 0, ...; j != result_limit && k != sorted.end(); ...)]. *)
Fixpoint first_items {A} (result_limit : N) (l : list A) : list A :=
  match l with
  | [] => []
  | x :: l => if (result_limit =? 0)%N then [] else x :: first_items (result_limit - 1) l
  end.

Section spies.
Context {document database : Type} `{!Xapian document database} `{!DocStore document} `{!StdSort}.

(** ** Facets *)

(** [date] tells a [DateFacetCountMatchSpy]; the decoder is not set in a spy that is not
    shown any document.  What the decoder keeps between documents is reset by [newdoc]. *)
Record FacetCountMatchSpy := mkFacetSpy {
  fs_date : bool;
  fs_decoder : option SlotDecoder;
  fs_fieldname : string;
  fs_docs_seen : N;
  fs_doc_limit : N;
  fs_values_seen : N;
  fs_result_limit : N;
  fs_counts : gmap string N;
}.

Definition new_FacetCountMatchSpy (date : bool) (decoder : option SlotDecoder) (fieldname : string)
    (doc_limit result_limit : N) : FacetCountMatchSpy :=
  mkFacetSpy date decoder fieldname 0 doc_limit 0 result_limit ∅.

Definition facet_seen (s : FacetCountMatchSpy) : FacetCountMatchSpy :=
  mkFacetSpy (fs_date s) (fs_decoder s) (fs_fieldname s) (wrap32 (fs_docs_seen s + 1)) (fs_doc_limit s)
    (fs_values_seen s) (fs_result_limit s) (fs_counts s).
Definition facet_count (value : string) (s : FacetCountMatchSpy) : FacetCountMatchSpy :=
  mkFacetSpy (fs_date s) (fs_decoder s) (fs_fieldname s) (fs_docs_seen s) (fs_doc_limit s)
    (wrap32 (fs_values_seen s + 1)) (fs_result_limit s) (count value (fs_counts s)).

(** [while (decoder->next(&pos, &len)) ...]. *)
Fixpoint facet_loop (fuel : nat) (d : SlotDecoder) : M FacetCountMatchSpy () :=
  match fuel with
  | O => λ s, (s, OutOfFuel)
  | S fuel =>
      '(o, d) ← liftM (SlotDecoder_next d);
      match o with
      | None => mret ()
      | Some x => modifyM (facet_count x) ;; facet_loop fuel d
      end
  end.

Definition FacetCountMatchSpy_call (doc : document) : M FacetCountMatchSpy () :=
  s ← getM;
  if (fs_doc_limit s <=? fs_docs_seen s)%N then mret ()
  else
    modifyM facet_seen ;;
    match fs_decoder s with
    | None => throwM UndefinedBehaviour
    | Some d => facet_loop (2 + String.length (get_value (slot d) doc)) (SlotDecoder_newdoc doc d)
    end.

(** A [char] is signed. *)
Definition char_value (c : ascii) : Z := if (ord c <? 128)%N then Z.of_N (ord c) else (Z.of_N (ord c) - 256)%Z.
Definition char_at (s : string) (n : nat) : Z := from_option char_value 0%Z (bytes s !! n).

(** [int(d)]: no meaning outside the range of [int]. *)
Definition int_of_double (d : spec_float) : res Z :=
  match d with
  | S754_infinity _ | S754_nan => throw UndefinedBehaviour
  | _ => if ((minInt <=? real_trunc d) && (real_trunc d <=? maxInt))%Z then Ok (real_trunc d) else throw UndefinedBehaviour
  end.

Context (sortable_unserialise : string → spec_float).

(** [append_value] of both classes, for an item of the result. *)
Definition FacetCountMatchSpy_append_value (rcounts : json) (str : string) (freq : N) : json :=
  json_append rcounts (JArr [jstr str; JUInt freq]).

Definition DateFacetCountMatchSpy_append_value (rcounts : json) (str : string) (freq : N) : res json :=
  let n := String.length str in
  if n <=? 2 then Ok (json_append rcounts (JArr [jstr (hexesc str); JUInt freq]))
  else
    year ← int_of_double (sortable_unserialise str);
    let day := (char_at str (n - 1) - 32)%Z in
    let month := (char_at str (n - 2) - 32)%Z in
    Ok (json_append rcounts (JArr [JArr [JInt year; JInt month; JInt day]; JUInt freq])).

Definition append_value (s : FacetCountMatchSpy) (rcounts : json) (item : string * N) : res json :=
  if fs_date s then DateFacetCountMatchSpy_append_value rcounts item.1 item.2
  else Ok (FacetCountMatchSpy_append_value rcounts item.1 item.2).

(** The values reported. *)
Definition facet_items (s : FacetCountMatchSpy) : list (string * N) :=
  first_items (fs_result_limit s) (std_sort more_frequent (sorted_items (fs_counts s))).

Definition FacetCountMatchSpy_get_result (s : FacetCountMatchSpy) : res json :=
  let result := json_set (JObj []) "type" (JStr "facet_count") in
  let result := json_set result "fieldname" (jstr (fs_fieldname s)) in
  let result := json_set result "docs_seen" (JUInt (fs_docs_seen s)) in
  let result := json_set result "values_seen" (JUInt (fs_values_seen s)) in
  rcounts ← foldl (λ r item, rcounts ← r; append_value s rcounts item) (Ok (JArr [])) (facet_items s);
  Ok (json_set result "counts" rcounts).

(** ** Terms *)

(** [cooccur] tells a [TermCoOccurMatchSpy]. *)
Record TermOccurMatchSpy := mkTermSpy {
  ts_cooccur : bool;
  ts_docs_seen : N;
  ts_doc_limit : N;
  ts_terms_seen : N;
  ts_result_limit : N;
  ts_group : string;
  ts_prefix : string;
  ts_orig_prefix : string;
  ts_stopwords : gset string;
  ts_counts : gmap string N;
  ts_get_termfreqs : bool;
}.

Definition new_BaseTermOccurMatchSpy (cooccur : bool) (group prefix : string) (doc_limit result_limit : N)
    (get_termfreqs : bool) : TermOccurMatchSpy :=
  mkTermSpy cooccur 0 doc_limit 0 result_limit group
    (if decide (group = "") then prefix else group +:+ sing (chr 9) +:+ prefix) prefix ∅ ∅ get_termfreqs.

Definition add_stopword (word : string) (s : TermOccurMatchSpy) : TermOccurMatchSpy :=
  mkTermSpy (ts_cooccur s) (ts_docs_seen s) (ts_doc_limit s) (ts_terms_seen s) (ts_result_limit s) (ts_group s)
    (ts_prefix s) (ts_orig_prefix s) ({[word]} ∪ ts_stopwords s) (ts_counts s) (ts_get_termfreqs s).
Definition term_doc_seen (s : TermOccurMatchSpy) : TermOccurMatchSpy :=
  mkTermSpy (ts_cooccur s) (wrap32 (ts_docs_seen s + 1)) (ts_doc_limit s) (ts_terms_seen s) (ts_result_limit s) (ts_group s)
    (ts_prefix s) (ts_orig_prefix s) (ts_stopwords s) (ts_counts s) (ts_get_termfreqs s).
Definition term_seen (s : TermOccurMatchSpy) : TermOccurMatchSpy :=
  mkTermSpy (ts_cooccur s) (ts_docs_seen s) (ts_doc_limit s) (wrap32 (ts_terms_seen s + 1)) (ts_result_limit s) (ts_group s)
    (ts_prefix s) (ts_orig_prefix s) (ts_stopwords s) (ts_counts s) (ts_get_termfreqs s).
Definition term_count (key : string) (s : TermOccurMatchSpy) : TermOccurMatchSpy :=
  mkTermSpy (ts_cooccur s) (ts_docs_seen s) (ts_doc_limit s) (ts_terms_seen s) (ts_result_limit s) (ts_group s)
    (ts_prefix s) (ts_orig_prefix s) (ts_stopwords s) (count key (ts_counts s)) (ts_get_termfreqs s).

(** The suffixes of the terms with the prefix that are not stopwords. *)
Definition suffixes (s : TermOccurMatchSpy) (doc : document) : list string :=
  filter (λ x, x ∉ ts_stopwords s)
    (str_drop (String.length (ts_prefix s)) <$> prefix_terms (ts_prefix s) (terms doc)).

Definition TermOccurMatchSpy_call (doc : document) (s : TermOccurMatchSpy) : TermOccurMatchSpy :=
  if (ts_doc_limit s <=? ts_docs_seen s)%N then s
  else foldl (λ s x, term_seen (term_count x s)) (term_doc_seen s) (suffixes s doc).

(** The key of a pair: the terms with a zero byte between them. *)
Definition pair_key (j k : string) : string := (j +:+ sing (chr 0)) +:+ k.

(** [for (j = items.begin(); ...) for (k = j + 1; ...) ++counts[...]]. *)
Fixpoint count_pairs (items : list string) (s : TermOccurMatchSpy) : TermOccurMatchSpy :=
  match items with
  | [] => s
  | j :: items => count_pairs items (foldl (λ s k, term_count (pair_key j k) s) s items)
  end.

Definition TermCoOccurMatchSpy_call (doc : document) (s : TermOccurMatchSpy) : TermOccurMatchSpy :=
  if (ts_doc_limit s <=? ts_docs_seen s)%N then s
  else
    let items := suffixes s doc in
    count_pairs items (foldl (λ s _, term_seen s) (term_doc_seen s) items).

Definition term_spy_call (doc : document) (s : TermOccurMatchSpy) : TermOccurMatchSpy :=
  if ts_cooccur s then TermCoOccurMatchSpy_call doc s else TermOccurMatchSpy_call doc s.

(** *** Results *)

(** [PairAndFreq]: the key at its first zero byte. *)
Fixpoint split_zero (s : string) : string * option string :=
  match s with
  | EmptyString => (EmptyString, None)
  | String c r => if (ord c =? 0)%N then (EmptyString, Some r) else let '(a, b) := split_zero r in (String c a, b)
  end.
(** [substr(npos + 1)] is the whole key. *)
Definition split_key (strs : string) : string * string :=
  let '(str1, rest) := split_zero strs in (str1, default strs rest).

Definition occur_items (s : TermOccurMatchSpy) : list (string * N) :=
  first_items (ts_result_limit s) (std_sort more_frequent (sorted_items (ts_counts s))).

Definition cooccur_items (s : TermOccurMatchSpy) : list ((string * string) * N) :=
  first_items (ts_result_limit s)
    (std_sort more_frequent ((λ '(strs, freq), (split_key strs, freq)) <$> sorted_items (ts_counts s))).

(** [db->allterms_begin()], the terms in order; [get_termfreq] is the number of documents
    a term is in. *)
Context (all_terms : database → list string).

(** The frequencies of the terms asked for, with an iterator that only goes forwards. *)
Fixpoint termfreq_loop (db : database) (prefix : string) (ti keys : list string) (termfreqs : gmap string N) : gmap string N :=
  match keys with
  | [] => termfreqs
  | l :: keys =>
      let ti := skip_to (prefix +:+ l) ti in
      match ti with
      | [] => termfreqs
      | t :: _ =>
          if negb (string_startswith t prefix) then termfreqs
          else termfreq_loop db prefix ti keys
                 (if decide (t = prefix +:+ l) then <[l := wrap32 (N.of_nat (length (postlist db t)))]> termfreqs else termfreqs)
      end
  end.

Definition get_freqs (db : database) (s : TermOccurMatchSpy) (wanted : list string) : gmap string N :=
  let termfreqs := foldl (λ m k, <[k := 0%N]> m) ∅ wanted in
  termfreq_loop db (ts_prefix s) (all_terms db) (sorted_keys termfreqs) termfreqs.

Definition spy_header (type : string) (s : TermOccurMatchSpy) : json :=
  let result := json_set (JObj []) "type" (JStr type) in
  let result := json_set result "group" (jstr (ts_group s)) in
  let result := json_set result "prefix" (jstr (ts_orig_prefix s)) in
  let result := json_set result "docs_seen" (JUInt (ts_docs_seen s)) in
  json_set result "terms_seen" (JUInt (ts_terms_seen s)).

(** [termfreqs[k]]. *)
Definition termfreq (m : gmap string N) (k : string) : json := JUInt (default 0%N (m !! k)).

Definition TermOccurMatchSpy_get_result (db : database) (s : TermOccurMatchSpy) : json :=
  let items := occur_items s in
  let termfreqs := if ts_get_termfreqs s then get_freqs db s items.*1 else ∅ in
  json_set (spy_header "occur" s) "counts"
    (JArr ((λ '(str, freq), JArr ([jstr str; JUInt freq] ++ (if ts_get_termfreqs s then [termfreq termfreqs str] else []))) <$> items)).

Definition TermCoOccurMatchSpy_get_result (db : database) (s : TermOccurMatchSpy) : json :=
  let items := cooccur_items s in
  let termfreqs := if ts_get_termfreqs s then get_freqs db s (mjoin ((λ '((str1, str2), _), [str1; str2]) <$> items)) else ∅ in
  json_set (spy_header "cooccur" s) "counts"
    (JArr ((λ '((str1, str2), freq), JArr ([jstr str1; jstr str2; JUInt freq]
       ++ (if ts_get_termfreqs s then [termfreq termfreqs str1; termfreq termfreqs str2] else []))) <$> items)).

Definition term_spy_get_result (db : database) (s : TermOccurMatchSpy) : json :=
  if ts_cooccur s then TermCoOccurMatchSpy_get_result db s else TermOccurMatchSpy_get_result db s.

End spies.
