(* ===== verification/MatchSpiesThms.v ===== *)
(** * Match spies: properties

    The counts of a spy are the numbers of occurrences in the documents it was shown, up
    to its limit; what it reports are the most frequent items with their counts, and the
    frequencies it looks up are those of the database. *)

From Stdlib Require Import SpecFloat.
From S2P Require Import Prelude Json TextUtils DocValues XapianDb RefLib DbGroup Collection CollectionThms MatchSpies.

(** ** Counting *)

Definition occurrences (v : string) (l : list string) : nat := length (filter (v =.) l).

(** The counts of the elements of a list. *)
Definition counts_of (m : gmap string N) (l : list string) : Prop :=
  ∀ v, m !! v = if decide (v ∈ l) then Some (N.of_nat (occurrences v l)) else None.

Lemma wrap32_small n : (n < 2 ^ 32)%N → wrap32 n = n.
Proof. intros H. unfold wrap32. by apply N.mod_small. Qed.

Lemma occurrences_le v l : occurrences v l <= length l.
Proof. apply length_filter. Qed.

Lemma occurrences_app v l k : occurrences v (l ++ k) = occurrences v l + occurrences v k.
Proof. unfold occurrences. by rewrite filter_app, length_app. Qed.

Lemma occurrences_not_in v l : v ∉ l → occurrences v l = 0.
Proof.
  induction l as [|x l IH]; intros H; [done|]. apply not_elem_of_cons in H as [Hx H]. unfold occurrences in *. cbn.
  rewrite decide_False by done. auto.
Qed.

Lemma occurrences_snoc v x l : occurrences v (l ++ [x]) = occurrences v l + if decide (v = x) then 1 else 0.
Proof. rewrite occurrences_app. f_equal. unfold occurrences. cbn. by repeat case_decide. Qed.

Lemma counts_of_nil : counts_of ∅ [].
Proof. intros v. rewrite lookup_empty. by rewrite decide_False by apply not_elem_of_nil. Qed.

Lemma counts_of_snoc m l x : counts_of m l → (N.of_nat (length l) + 1 < 2 ^ 32)%N → counts_of (count x m) (l ++ [x]).
Proof.
  intros Hm Hl v. unfold count. rewrite occurrences_snoc. pose proof (occurrences_le v l) as Hle.
  assert (Hd : default 0%N (m !! v) = N.of_nat (occurrences v l)).
  { rewrite Hm. case_decide; [done|]. by rewrite occurrences_not_in. }
  destruct (decide (v = x)) as [->|Hne].
  - rewrite lookup_insert_eq, decide_True by set_solver. rewrite Hd, wrap32_small by lia. f_equal. lia.
  - rewrite lookup_insert_ne, Hm by done. rewrite Nat.add_0_r. repeat case_decide; set_solver.
Qed.

(** The different elements with their numbers of occurrences. *)
Definition tally (l : list string) : list (string * N) :=
  (λ v, (v, N.of_nat (occurrences v l))) <$> sorted_elems (list_to_set l).

Lemma counts_of_tally m l : counts_of m l → sorted_items m = tally l.
Proof.
  intros Hm. unfold sorted_items, tally, sorted_keys.
  replace (dom m) with (list_to_set l : gset string).
  2: { apply set_eq. intros v. rewrite elem_of_list_to_set, elem_of_dom, Hm. case_decide; split; try done. }
  assert (H : ∀ k : list string, (∀ v, v ∈ k → v ∈ l) → omap (λ v, (λ a, (v, a)) <$> m !! v) k = (λ v, (v, N.of_nat (occurrences v l))) <$> k).
  { induction k as [|v k IH]; intros Hk; [done|]. cbn. rewrite Hm, decide_True by (apply Hk; set_solver). cbn.
    f_equal. apply IH. intros x Hx. apply Hk. set_solver. }
  apply H. intros v. by rewrite elem_of_sorted_elems, elem_of_list_to_set.
Qed.

(** ** The first items of a sorted list *)

Lemma first_items_take {A} n (l : list A) : first_items n l = take (N.to_nat n) l.
Proof.
  revert n. induction l as [|x l IH]; intros n; cbn; [by rewrite take_nil|]. destruct (N.eqb_spec n 0) as [->|Hn]; [done|].
  rewrite IH. replace (N.to_nat n) with (S (N.to_nat (n - 1))) by lia. done.
Qed.

Section top.
Context `{SS : !StdSort} `{SL : !StdSortLaws}.

(** The items reported: some of all, the most frequent first, and none left out is more
    frequent. *)
Record top {A} (n : N) (l k : list (A * N)) : Prop := {
  top_submseteq : k ⊆+ l;
  top_length : length k = N.to_nat n `min` length l;
  top_sorted : StronglySorted (λ a b, (b.2 <= a.2)%N) k;
  top_most : ∀ a b, a ∈ l → a ∉ k → b ∈ k → (a.2 <= b.2)%N;
}.

Lemma top_items {A} n (l : list (A * N)) : top n l (first_items n (std_sort more_frequent l)).
Proof.
  rewrite first_items_take. set (s := std_sort more_frequent l). assert (Hp : s ≡ₚ l) by apply sort_perm.
  assert (Hs : StronglySorted (λ a b, (b.2 <= a.2)%N) s) by apply (sort_sorted (λ a : A * N, a.2)). clearbody s.
  split.
  - rewrite <-Hp. apply sublist_submseteq, sublist_take.
  - by rewrite length_take, Hp.
  - revert Hs. generalize (N.to_nat n). clear. intros i Hs. revert i. induction Hs as [|a s Hs IH Hall]; intros [|i]; cbn; try constructor; [done|].
    apply Forall_take. done.
  - intros a b Ha Hk Hb. rewrite <-Hp in Ha. rewrite <-(take_drop (N.to_nat n) s) in Ha, Hs. apply elem_of_app in Ha as [Ha|Ha]; [done|].
    by apply (StronglySorted_app_1_elem_of _ _ _ b a Hs).
Qed.
End top.

(** ** Facets *)

Section facets.
Context {document : Type} `{DS : !DocStore document}.

Lemma facet_loop_run fuel : ∀ d l s, decode_all fuel d = Ok l → facet_loop fuel d s = (foldl (λ s x, facet_count x s) s l, Ok ()).
Proof.
  induction fuel as [|fuel IH]; intros d l s H; [done|]. cbn [decode_all] in H.
  apply res_bind_ok in H as ([o d'] & Hn & H). cbn [facet_loop]. unfold mbind at 1, M_bind, liftM. rewrite Hn.
  destruct o as [x|]; [|by injection H as <-]. apply res_bind_ok in H as (l' & Hl & [= <-]). cbn [foldl].
  unfold mbind, M_bind, modifyM. by apply IH.
Qed.

(** A spy that was shown documents with the values [l] in all, [n] of them. *)
Record facet_state (s0 s : FacetCountMatchSpy) (n : nat) (l : list string) : Prop := {
  fst_docs : fs_docs_seen s = N.of_nat n;
  fst_values : fs_values_seen s = N.of_nat (length l);
  fst_counts : counts_of (fs_counts s) l;
  fst_limit : fs_doc_limit s = fs_doc_limit s0;
  fst_result : fs_result_limit s = fs_result_limit s0;
  fst_decoder : fs_decoder s = fs_decoder s0;
  fst_date : fs_date s = fs_date s0;
  fst_name : fs_fieldname s = fs_fieldname s0;
}.

Lemma facet_count_state s0 s n l x : (N.of_nat (length l) + 1 < 2 ^ 32)%N →
  facet_state s0 s n l → facet_state s0 (facet_count x s) n (l ++ [x]).
Proof.
  intros Hl [H1 H2 H3 H4 H5 H6 H7 H8]. split; try done; cbn.
  - rewrite H2, length_app, wrap32_small by lia. cbn. lia.
  - by apply counts_of_snoc.
Qed.

Lemma facet_counts_state s0 s n l k : (N.of_nat (length (l ++ k)) < 2 ^ 32)%N →
  facet_state s0 s n l → facet_state s0 (foldl (λ s x, facet_count x s) s k) n (l ++ k).
Proof.
  revert s l. induction k as [|x k IH]; intros s l Hl Hs; cbn [foldl]; [by rewrite app_nil_r|].
  rewrite cons_middle, app_assoc in Hl |- *. apply IH; [done|]. apply facet_count_state; [|done].
  rewrite !length_app in Hl. cbn in Hl. lia.
Qed.

Lemma facet_calls dec (vals : document → list string) s0 docs : fs_decoder s0 = Some dec →
  (∀ doc, doc ∈ docs → read_slot dec doc = Ok (vals doc)) →
  ∀ s n l, (N.of_nat (n + length docs) < 2 ^ 32)%N → (N.of_nat (length (l ++ concat (vals <$> docs))) < 2 ^ 32)%N →
  facet_state s0 s n l →
  ∃ s', for_each docs FacetCountMatchSpy_call s = (s', Ok ()) ∧
    let seen := take (N.to_nat (fs_doc_limit s0) - n) docs in
    facet_state s0 s' (n + length seen) (l ++ concat (vals <$> seen)).
Proof.
  intros Hdec. induction docs as [|doc docs IH]; intros Hv s n l Hn Hl Hs.
  { exists s. split; [done|]. cbv zeta. rewrite take_nil. cbn. by rewrite Nat.add_0_r, app_nil_r. }
  destruct (decide (fs_doc_limit s0 <= N.of_nat n)%N) as [Hle|Hlt].
  - destruct (IH ltac:(set_solver) s n l) as (s' & H & Hs'); [cbn in *; lia| |done|].
    { cbn in Hl. rewrite !length_app in *. lia. }
    exists s'. split.
    + cbn [for_each]. unfold mbind at 1, M_bind. unfold FacetCountMatchSpy_call at 1.
      unfold mbind at 1, M_bind, getM at 1. rewrite (fst_limit _ _ _ _ Hs), (fst_docs _ _ _ _ Hs).
      rewrite (proj2 (N.leb_le _ _) Hle). exact H.
    + replace (N.to_nat (fs_doc_limit s0) - n) with 0 in * by lia. exact Hs'.
  - assert (Hr : FacetCountMatchSpy_call doc s = (foldl (λ s x, facet_count x s) (facet_seen s) (vals doc), Ok ())).
    { unfold FacetCountMatchSpy_call, mbind, M_bind, getM, modifyM. rewrite (fst_limit _ _ _ _ Hs), (fst_docs _ _ _ _ Hs).
      rewrite (proj2 (N.leb_gt _ _)) by lia. rewrite (fst_decoder _ _ _ _ Hs), Hdec. apply facet_loop_run. apply Hv. set_solver. }
    assert (Hs1 : facet_state s0 (facet_seen s) (S n) l).
    { destruct Hs as [H1 H2 H3 H4 H5 H6 H7 H8]. split; try done. cbn. rewrite H1, wrap32_small by (cbn in Hn; lia). lia. }
    destruct (IH ltac:(set_solver) (foldl (λ s x, facet_count x s) (facet_seen s) (vals doc)) (S n) (l ++ vals doc)) as (s' & H & Hs').
    { cbn in *; lia. }
    { cbn in Hl. by rewrite <-app_assoc. }
    { apply facet_counts_state; [|done]. cbn in Hl. rewrite !length_app in *. lia. }
    exists s'. split.
    + cbn [for_each]. unfold mbind at 1, M_bind. by rewrite Hr.
    + cbv zeta in *. replace (N.to_nat (fs_doc_limit s0) - n) with (S (N.to_nat (fs_doc_limit s0) - S n)) by lia.
      cbn. rewrite Nat.add_succ_r, app_assoc. exact Hs'.
Qed.
End facets.

(** ** Terms *)

Section occur.
Context {document database : Type} `{XD : !Xapian document database}.

(** A spy that was shown [n] documents with [m] terms in all, whose counted items are [l]. *)
Record term_state (s0 s : TermOccurMatchSpy) (n m : nat) (l : list string) : Prop := {
  tst_docs : ts_docs_seen s = N.of_nat n;
  tst_terms : ts_terms_seen s = wrap32 (N.of_nat m);
  tst_counts : counts_of (ts_counts s) l;
  tst_rest : ts_doc_limit s = ts_doc_limit s0 ∧ ts_result_limit s = ts_result_limit s0 ∧ ts_prefix s = ts_prefix s0 ∧
    ts_stopwords s = ts_stopwords s0 ∧ ts_cooccur s = ts_cooccur s0 ∧ ts_get_termfreqs s = ts_get_termfreqs s0;
  tst_names : ts_group s = ts_group s0 ∧ ts_orig_prefix s = ts_orig_prefix s0;
}.

Lemma wrap32_add a b : wrap32 (wrap32 a + b) = wrap32 (a + b).
Proof. unfold wrap32. by rewrite N.Div0.add_mod_idemp_l. Qed.

Lemma term_count_state s0 s n m l x : (N.of_nat (length l) + 1 < 2 ^ 32)%N →
  term_state s0 s n m l → term_state s0 (term_count x s) n m (l ++ [x]).
Proof. intros Hl [H1 H2 H3 H4]. split; try done. by apply counts_of_snoc. Qed.

Lemma term_counts_state s0 s n m l k d (f : TermOccurMatchSpy → TermOccurMatchSpy) :
  (∀ s m l, term_state s0 s n m l → term_state s0 (f s) n (m + d) l) →
  (N.of_nat (length (l ++ k)) < 2 ^ 32)%N → term_state s0 s n m l →
  term_state s0 (foldl (λ s x, f (term_count x s)) s k) n (m + d * length k) (l ++ k).
Proof.
  intros Hf. revert s m l. induction k as [|x k IH]; intros s m l Hl Hs; cbn [foldl].
  { cbn. by rewrite app_nil_r, Nat.mul_0_r, Nat.add_0_r. }
  rewrite cons_middle, app_assoc in Hl |- *. cbn [length]. replace (m + d * S (length k)) with (m + d + d * length k) by lia.
  apply IH; [done|]. apply Hf, term_count_state; [|done].
  rewrite !length_app in Hl. cbn in Hl. lia.
Qed.

Lemma term_seen_state s0 s n m l : term_state s0 s n m l → term_state s0 (term_seen s) n (m + 1) l.
Proof. intros [H1 H2 H3 H4]. split; try done. cbn. rewrite H2, wrap32_add. f_equal. lia. Qed.

Lemma term_doc_seen_state s0 s n m l : (N.of_nat n + 1 < 2 ^ 32)%N → term_state s0 s n m l → term_state s0 (term_doc_seen s) (S n) m l.
Proof. intros Hn [H1 H2 H3 H4]. split; try done. cbn. rewrite H1, wrap32_small by lia. lia. Qed.

(** The pairs of elements, in order. *)
Fixpoint pairs (items : list string) : list string :=
  match items with [] => [] | j :: items => (pair_key j <$> items) ++ pairs items end.

Lemma count_pairs_state s0 n m items : ∀ s l, (N.of_nat (length (l ++ pairs items)) < 2 ^ 32)%N →
  term_state s0 s n m l → term_state s0 (count_pairs items s) n m (l ++ pairs items).
Proof.
  induction items as [|j items IH]; intros s l Hl Hs; cbn [count_pairs pairs] in *; [by rewrite app_nil_r|].
  rewrite app_assoc in *. apply IH; [done|].
  assert (E : ∀ k s, foldl (λ s x, term_count (pair_key j x) s) s k = foldl (λ s x, id (term_count x s)) s (pair_key j <$> k)).
  { induction k as [|x k IHk]; intros s1; [done|]. cbn. apply IHk. }
  rewrite E. rewrite <-(Nat.add_0_r m). apply (term_counts_state _ _ _ _ _ _ 0); [|rewrite length_app in Hl; lia|done].
  intros s1 m1 l1. by rewrite Nat.add_0_r.
Qed.

(** What a document adds to the counts. *)
Definition items_of (s : TermOccurMatchSpy) (doc : document) : list string :=
  if ts_cooccur s then pairs (suffixes s doc) else suffixes s doc.

Lemma suffixes_same s0 s doc n m l : term_state s0 s n m l → suffixes s doc = suffixes s0 doc.
Proof. intros [_ _ _ (_ & _ & Hp & Hw & _) _]. unfold suffixes. by rewrite Hp, Hw. Qed.

Lemma term_call s0 s n m l doc : (N.of_nat n + 1 < 2 ^ 32)%N → (N.of_nat (length (l ++ items_of s0 doc)) < 2 ^ 32)%N →
  term_state s0 s n m l → (N.of_nat n < ts_doc_limit s0)%N →
  term_state s0 (term_spy_call doc s) (S n) (m + length (suffixes s0 doc)) (l ++ items_of s0 doc).
Proof.
  intros Hn Hl Hs Hlt. pose proof (suffixes_same _ _ doc _ _ _ Hs) as Hsuf. pose proof (term_doc_seen_state _ _ _ _ _ Hn Hs) as Hs1.
  destruct Hs as [H1 _ _ (H3 & _ & _ & _ & Hco & _) _]. unfold term_spy_call, TermCoOccurMatchSpy_call, TermOccurMatchSpy_call, items_of in *.
  rewrite H1, H3, (proj2 (N.leb_gt _ _)), Hsuf, Hco by done. destruct (ts_cooccur s0).
  - apply count_pairs_state; [done|]. generalize (suffixes s0 doc). intros k. revert Hs1. generalize (term_doc_seen s).
    revert m. induction k as [|x k IH]; intros m s1 Hs1; cbn [foldl length]; [by rewrite Nat.add_0_r|].
    replace (m + S (length k)) with (m + 1 + length k) by lia. by apply IH, term_seen_state.
  - rewrite <-(Nat.mul_1_l (length (suffixes s0 doc))). apply term_counts_state; [|done..]. intros. by apply term_seen_state.
Qed.

Lemma term_calls s0 docs : ∀ s n m l, (N.of_nat (n + length docs) < 2 ^ 32)%N →
  (N.of_nat (length (l ++ concat (items_of s0 <$> docs))) < 2 ^ 32)%N → term_state s0 s n m l →
  let seen := take (N.to_nat (ts_doc_limit s0) - n) docs in
  term_state s0 (foldl (λ s doc, term_spy_call doc s) s docs) (n + length seen)
    (m + length (concat (suffixes s0 <$> seen))) (l ++ concat (items_of s0 <$> seen)).
Proof.
  induction docs as [|doc docs IH]; intros s n m l Hn Hl Hs.
  { cbv zeta. rewrite take_nil. cbn. by rewrite !Nat.add_0_r, app_nil_r. }
  cbn in Hn, Hl. destruct (decide (ts_doc_limit s0 <= N.of_nat n)%N) as [Hle|Hlt].
  - assert (E : term_spy_call doc s = s).
    { destruct Hs as [H1 _ _ (H3 & _) _]. unfold term_spy_call, TermCoOccurMatchSpy_call, TermOccurMatchSpy_call.
      rewrite H1, H3, (proj2 (N.leb_le _ _)) by done. by destruct (ts_cooccur s). }
    cbn [foldl]. rewrite E. specialize (IH s n m l ltac:(lia)). replace (N.to_nat (ts_doc_limit s0) - n) with 0 in * by lia.
    apply IH; [|done]. rewrite !length_app in *. lia.
  - cbn [foldl]. cbv zeta. replace (N.to_nat (ts_doc_limit s0) - n) with (S (N.to_nat (ts_doc_limit s0) - S n)) by lia.
    cbn. rewrite Nat.add_succ_r, app_assoc, length_app, Nat.add_assoc. apply (IH _ (S n)); [lia|by rewrite <-app_assoc|].
    apply term_call; [lia| |done|lia]. rewrite !length_app in *. lia.
Qed.

(** A new spy, and the stopwords it was given. *)
Definition fresh_spy (cooccur : bool) (group prefix : string) (doc_limit result_limit : N) (get_termfreqs : bool)
    (stopwords : list string) : TermOccurMatchSpy :=
  foldl (λ s w, add_stopword w s) (new_BaseTermOccurMatchSpy cooccur group prefix doc_limit result_limit get_termfreqs) stopwords.

(** The prefix of the terms counted. *)
Definition full_prefix (group prefix : string) : string :=
  if decide (group = "") then prefix else group +:+ sing (chr 9) +:+ prefix.

Lemma fresh_spy_eq cooccur group prefix dl rl tf stopwords :
  ∃ W, fresh_spy cooccur group prefix dl rl tf stopwords =
    mkTermSpy cooccur 0 dl 0 rl group (full_prefix group prefix) prefix W ∅ tf ∧ W = list_to_set stopwords.
Proof.
  unfold fresh_spy, new_BaseTermOccurMatchSpy. fold (full_prefix group prefix).
  assert (H : ∀ W, foldl (λ s w, add_stopword w s) (mkTermSpy cooccur 0 dl 0 rl group (full_prefix group prefix) prefix W ∅ tf) stopwords =
    mkTermSpy cooccur 0 dl 0 rl group (full_prefix group prefix) prefix (list_to_set stopwords ∪ W) ∅ tf).
  { induction stopwords as [|w ws IH]; intros W; cbn [foldl list_to_set]; [by rewrite (left_id_L ∅ (∪))|]. unfold add_stopword at 2; cbn.
    rewrite IH. f_equal. set_solver. }
  eexists. split; [apply H|]. set_solver.
Qed.

Lemma fresh_calls cooccur group prefix dl rl tf stopwords docs :
  let s0 := fresh_spy cooccur group prefix dl rl tf stopwords in
  (N.of_nat (length docs) < 2 ^ 32)%N → (N.of_nat (length (concat (items_of s0 <$> docs))) < 2 ^ 32)%N →
  let seen := take (N.to_nat dl) docs in
  term_state s0 (foldl (λ s doc, term_spy_call doc s) s0 docs) (length seen)
    (length (concat (suffixes s0 <$> seen))) (concat (items_of s0 <$> seen)).
Proof.
  cbv zeta. destruct (fresh_spy_eq cooccur group prefix dl rl tf stopwords) as (W & -> & _). set (s0 := mkTermSpy _ _ _ _ _ _ _ _ _ _ _).
  intros Hd Hl. pose proof (term_calls s0 docs s0 0 0 [] Hd Hl) as H. cbn in H. rewrite Nat.sub_0_r in H. apply H.
  by split.
Qed.
End occur.

(** ** Looking frequencies up *)

Section termfreqs.
Context {document database : Type} `{XD : !Xapian document database}.
Context (all_terms : database → list string) (db : database).

(** What is relied on of the library: the terms of the database, in order. *)
Definition all_terms_laws : Prop :=
  StronglySorted String.le (all_terms db) ∧ ∀ t, t ∈ all_terms db ↔ postlist db t ≠ [].

Definition doc_freq (t : string) : N := N.of_nat (length (postlist db t)).

Lemma termfreq_loop_spec prefix keys : (∀ l, (doc_freq (prefix +:+ l) < 2 ^ 32)%N) → StronglySorted String.le keys →
  ∀ ti m, StronglySorted String.le ti → (∀ l, l ∈ keys → prefix +:+ l ∈ ti ↔ postlist db (prefix +:+ l) ≠ []) →
  (∀ l, l ∈ keys → m !! l = Some 0%N ∨ m !! l = Some (doc_freq (prefix +:+ l))) →
  ∀ l, termfreq_loop db prefix ti keys m !! l = if decide (l ∈ keys) then Some (doc_freq (prefix +:+ l)) else m !! l.
Proof.
  intros Hfreq Hkeys. induction Hkeys as [|k keys Hs IH Hall]; intros ti m Hti Hin Hm l; [done|]. cbn [termfreq_loop].
  pose proof (skip_to_spec (prefix +:+ k) ti Hti) as Hskip. pose proof (skip_to_sorted (prefix +:+ k) ti Hti) as Hti'.
  assert (Hlater : ∀ x, x ∈ k :: keys → prefix +:+ x ∈ skip_to (prefix +:+ k) ti ↔ postlist db (prefix +:+ x) ≠ []).
  { intros x Hx. rewrite Hskip, Hin by done. split; [tauto|]. intros Hp. split; [done|]. rewrite str_lt_app, str_lt_not_le.
    intros Hn. apply Hn. apply elem_of_cons in Hx as [->|Hx]; [done|]. rewrite Forall_forall in Hall. auto. }
  (* no term is left: those still asked for are in no document *)
  assert (Hnone : (∀ x, x ∈ k :: keys → prefix +:+ x ∉ skip_to (prefix +:+ k) ti) →
    m !! l = if decide (l ∈ k :: keys) then Some (doc_freq (prefix +:+ l)) else m !! l).
  { intros Hno. case_decide as Hl; [|done]. specialize (Hno l Hl). rewrite Hlater in Hno by done. apply dec_stable in Hno.
    destruct (Hm l Hl) as [-> | ->]; [|done]. unfold doc_freq. by rewrite Hno. }
  destruct (skip_to (prefix +:+ k) ti) as [|t ti'] eqn:Et; [apply Hnone; set_solver|].
  destruct (Hskip t) as [Ht _]. destruct (Ht ltac:(set_solver)) as [_ Htk].
  assert (Hhead : ∀ y, y ∈ t :: ti' → String.le t y).
  { intros y Hy. apply StronglySorted_inv in Hti' as [_ Hf]. rewrite Forall_forall in Hf. apply elem_of_cons in Hy as [->|Hy]; [done|auto]. }
  destruct (string_startswith t prefix) eqn:Ep; cbn [negb].
  2: { apply Hnone. intros x Hx Hxt. assert (Hpre : ∃ r, t = prefix +:+ r).
    { eapply (prefix_between prefix t x).
      - intros Hlt. apply Htk. etrans; [exact Hlt|]. destruct (decide (k = "")) as [->|Hk]; [by rewrite str_app_nil_r in Htk|].
        rewrite <-(str_app_nil_r prefix) at 1. rewrite str_lt_app. destruct k; [done|]. apply str_lt_nil_cons.
      - rewrite str_lt_not_le. auto. }
    apply string_startswith_spec in Hpre. congruence. }
  rewrite (IH (t :: ti')); [|done| |].
  - destruct (decide (l = k)) as [->|Hne].
    + rewrite (decide_True (P := k ∈ k :: keys)) by set_solver.
      destruct (decide (k ∈ keys)); [done|].
      destruct (decide (t = prefix +:+ k)) as [Hd|Hd].
      * rewrite lookup_insert_eq, Hd. f_equal. by apply wrap32_small.
      * destruct (Hm k ltac:(set_solver)) as [-> | ->]; [|done]. f_equal. unfold doc_freq.
        assert (Hno : prefix +:+ k ∉ t :: ti').
        { intros Hk. apply Hd. pose proof (Hhead _ Hk) as Hle. rewrite str_lt_not_le in Htk. apply dec_stable in Htk. by apply (anti_symm String.le). }
        rewrite Hlater in Hno by set_solver. apply dec_stable in Hno. by rewrite Hno.
    + assert (Hi : (if decide (t = prefix +:+ k) then <[k:=wrap32 (N.of_nat (length (postlist db t)))]> m else m) !! l = m !! l).
      { destruct (decide (t = prefix +:+ k)); [by rewrite lookup_insert_ne|done]. }
      rewrite Hi. repeat case_decide; set_solver.
  - intros x Hx. rewrite Hlater by set_solver. done.
  - intros x Hx. destruct (decide (t = prefix +:+ k)) as [Hd|Hd]; [|apply Hm; set_solver]. destruct (decide (x = k)) as [->|Hne].
    + rewrite lookup_insert_eq. right. f_equal. subst t. by apply wrap32_small.
    + rewrite lookup_insert_ne by done. apply Hm. set_solver.
Qed.

Lemma get_freqs_spec s wanted k : all_terms_laws → (∀ t, (doc_freq t < 2 ^ 32)%N) → k ∈ wanted →
  get_freqs all_terms db s wanted !! k = Some (doc_freq (ts_prefix s +:+ k)).
Proof.
  intros [Hsort Hall] Hfreq Hk. unfold get_freqs.
  assert (Hz : ∀ (l : list string) (m : gmap string N) x, foldl (λ m k, <[k := 0%N]> m) m l !! x = if decide (x ∈ l) then Some 0%N else m !! x).
  { induction l as [|y l IH]; intros m x; cbn [foldl]; [done|]. rewrite IH. destruct (decide (x = y)) as [->|Hne].
    - rewrite lookup_insert_eq. repeat case_decide; set_solver.
    - rewrite lookup_insert_ne by done. repeat case_decide; set_solver. }
  assert (Hkeys : ∀ x, x ∈ sorted_keys (foldl (λ m k, <[k := 0%N]> m) (∅ : gmap string N) wanted) ↔ x ∈ wanted).
  { intros x. rewrite elem_of_sorted_keys, Hz, lookup_empty. case_decide; split; try done. }
  rewrite termfreq_loop_spec; [|done|apply sorted_elems_sorted|done|..].
  - by rewrite decide_True by by apply Hkeys.
  - intros l _. apply Hall.
  - intros l Hl%Hkeys. left. by rewrite Hz, decide_True.
Qed.
End termfreqs.

(** ** What is counted *)

Section counted.
Context {document database : Type} `{XD : !Xapian document database}.

Lemma prefix_terms_sorted p X : StronglySorted String.le (prefix_terms p X).
Proof.
  unfold prefix_terms. pose proof (skip_to_sorted p (sorted_elems X) (sorted_elems_sorted X)) as H.
  induction H as [|a l Hs IH Hall]; cbn; [constructor|]. destruct (string_startswith a p); [|constructor]. constructor; [done|].
  rewrite Forall_forall in Hall |- *. intros x Hx. apply Hall. clear -Hx. induction l as [|b l IH]; [done|]. cbn in Hx.
  destruct (string_startswith b p); [|set_solver]. set_solver.
Qed.

(** The suffixes of the terms of a document that have the prefix, in strict order. *)
Lemma elem_of_suffixes s (doc : document) x :
  x ∈ suffixes s doc ↔ ts_prefix s +:+ x ∈ terms doc ∧ x ∉ ts_stopwords s.
Proof.
  unfold suffixes. rewrite list_elem_of_filter, list_elem_of_fmap. split.
  - intros [Hx (t & -> & [Ht [r ->]]%elem_of_prefix_terms)]. rewrite str_drop_app in *. done.
  - intros [Ht Hx]. split; [done|]. exists (ts_prefix s +:+ x). rewrite str_drop_app, elem_of_prefix_terms. eauto.
Qed.

Lemma suffixes_sorted s (doc : document) : StronglySorted str_lt (suffixes s doc).
Proof.
  unfold suffixes. pose proof (prefix_terms_sorted (ts_prefix s) (terms doc)) as Hs.
  pose proof (prefix_terms_nodup (ts_prefix s) (terms doc)) as Hnd.
  assert (Hp : ∀ t, t ∈ prefix_terms (ts_prefix s) (terms doc) → ∃ r, t = ts_prefix s +:+ r) by (intros t Ht; by apply elem_of_prefix_terms in Ht as [_ ?]).
  revert Hs Hnd Hp. generalize (prefix_terms (ts_prefix s) (terms doc)). intros l Hs. induction Hs as [|t l Hs IH Hall]; intros Hnd Hp; cbn; [constructor|].
  apply NoDup_cons in Hnd as [Ht Hnd]. specialize (IH Hnd ltac:(set_solver)).
  assert (Hlt : Forall (str_lt (str_drop (String.length (ts_prefix s)) t))
    (filter (λ x, x ∉ ts_stopwords s) (str_drop (String.length (ts_prefix s)) <$> l))).
  { apply Forall_forall. intros x [_ (t' & -> & Ht')%list_elem_of_fmap]%list_elem_of_filter.
    destruct (Hp t ltac:(set_solver)) as [r ->], (Hp t' ltac:(set_solver)) as [r' ->]. rewrite !str_drop_app.
    rewrite <-(str_lt_app (ts_prefix s)), str_lt_spec. rewrite Forall_forall in Hall. split; [by apply Hall|]. intros E. by rewrite E in Ht. }
  case_decide; [by constructor|done].
Qed.

Lemma sorted_nodup {A} (R : relation A) `{!Irreflexive R} l : StronglySorted R l → NoDup l.
Proof.
  induction 1 as [|a l Hs IH Hall]; constructor; [|done]. rewrite Forall_forall in Hall. intros Ha. by destruct (irreflexivity R a (Hall a Ha)).
Qed.

Lemma occurrences_nodup x l : NoDup l → occurrences x l = if decide (x ∈ l) then 1 else 0.
Proof.
  induction 1 as [|a l Ha Hnd IH]; [done|]. unfold occurrences in *. rewrite filter_cons. destruct (decide (x = a)) as [->|Hne].
  - cbn [length]. rewrite IH, decide_False, decide_True by set_solver. done.
  - rewrite IH. apply decide_ext. set_solver.
Qed.

(** A term occurs as often as there are documents with it. *)
Lemma occurrences_docs s x (docs : list document) :
  occurrences x (concat (suffixes s <$> docs)) = length (filter (λ doc, ts_prefix s +:+ x ∈ terms doc ∧ x ∉ ts_stopwords s) docs).
Proof.
  induction docs as [|doc docs IH]; [done|]. cbn [fmap list_fmap concat]. rewrite occurrences_app, IH.
  rewrite occurrences_nodup by apply (sorted_nodup str_lt), suffixes_sorted. rewrite filter_cons.
  destruct (decide (ts_prefix s +:+ x ∈ terms doc ∧ x ∉ ts_stopwords s)) as [H|H]; rewrite <-elem_of_suffixes in H.
  - by rewrite decide_True.
  - by rewrite decide_False.
Qed.

(** *** Pairs *)

Lemma split_zero_clean a b : clean a → split_zero (pair_key a b) = (a, Some b).
Proof.
  intros Ha. unfold pair_key. rewrite str_app_assoc. unfold clean in Ha. induction a as [|c a IH]; [done|].
  rewrite str_app_cons. cbn [c_str] in Ha. cbn [split_zero]. destruct (ord c =? 0)%N eqn:E; [done|]. injection Ha as Ha. by rewrite (IH Ha).
Qed.

Lemma split_key_pair a b : clean a → split_key (pair_key a b) = (a, b).
Proof. intros Ha. unfold split_key. by rewrite split_zero_clean. Qed.

Lemma occurrences_pair_keys a b j items : clean a → clean j → NoDup items →
  occurrences (pair_key a b) (pair_key j <$> items) = if decide (a = j ∧ b ∈ items) then 1 else 0.
Proof.
  intros Ha Hj Hnd. assert (Hinj : ∀ x, pair_key a b = pair_key j x → a = j ∧ b = x).
  { intros x E%(f_equal split_key). rewrite !split_key_pair in E by done. by injection E. }
  rewrite occurrences_nodup.
  - apply decide_ext. rewrite list_elem_of_fmap. split; [intros (x & E & Hx)|intros [-> Hb]; eauto]. by destruct (Hinj x E) as [-> ->].
  - apply NoDup_fmap_2; [|done]. intros x y E%(f_equal split_key). rewrite !split_key_pair in E by done. by injection E.
Qed.

Lemma occurrences_pairs a b items : clean a → Forall clean items → StronglySorted str_lt items → str_lt a b →
  occurrences (pair_key a b) (pairs items) = if decide (a ∈ items ∧ b ∈ items) then 1 else 0.
Proof.
  intros Ha Hc Hs Hab. induction Hs as [|j items Hs IH Hall]; cbn [pairs]; [by case_decide; [set_solver|]|].
  apply Forall_cons in Hc as [Hj Hc]. rewrite occurrences_app, IH, occurrences_pair_keys by (try done; by apply (sorted_nodup str_lt)).
  rewrite Forall_forall in Hall. assert (Hjj : j ∉ items) by (intros Hjin; by destruct (irreflexivity str_lt j (Hall j Hjin))).
  destruct (decide (a = j)) as [->|Hne].
  - assert (Hbj : b ≠ j) by (intros ->; by destruct (irreflexivity str_lt j Hab)).
    rewrite (decide_False (P := j ∈ items ∧ b ∈ items)) by tauto. rewrite Nat.add_0_r. apply decide_ext. set_solver.
  - rewrite decide_False by tauto. cbn. apply decide_ext. rewrite !elem_of_cons. split; [tauto|].
    intros [[?|Hain] [->|Hb]]; try done. destruct (irreflexivity str_lt a). etrans; [exact Hab|auto].
Qed.

Lemma occurrences_pair_docs s a b (docs : list document) : clean a → str_lt a b →
  (∀ doc x, doc ∈ docs → x ∈ suffixes s doc → clean x) →
  occurrences (pair_key a b) (concat ((λ doc, pairs (suffixes s doc)) <$> docs)) =
    length (filter (λ doc, a ∈ suffixes s doc ∧ b ∈ suffixes s doc) docs).
Proof.
  intros Ha Hab. induction docs as [|doc docs IH]; intros Hc; [done|]. cbn [fmap list_fmap concat].
  rewrite occurrences_app, IH by (intros; eapply Hc; [by right|done]).
  rewrite occurrences_pairs; [|done| |apply suffixes_sorted|done].
  2: { apply Forall_forall. intros x Hx. eapply Hc; [by left|done]. }
  rewrite filter_cons. by destruct (decide (a ∈ suffixes s doc ∧ b ∈ suffixes s doc)).
Qed.
End counted.

(** ** Results *)

(** Sorting by merging, which is stable. *)
#[local] Instance merge_StdSort : StdSort := λ A lt l, @merge_sort A (λ a b, lt b a = false) (λ a b, decide (lt b a = false)) l.

#[local] Instance merge_StdSortLaws : StdSortLaws.
Proof.
  split; intros A; [intros lt l; apply merge_sort_Permutation|]. intros f l.
  unfold std_sort, merge_StdSort.
  assert (Hs : StronglySorted (λ a b, (f a <? f b)%N = false) (@merge_sort A (λ a b, (f a <? f b)%N = false) (λ a b, decide ((f a <? f b)%N = false)) l)).
  { assert (Transitive (λ a b, (f a <? f b)%N = false)) by (intros a b c; rewrite !N.ltb_ge; lia).
    assert (Total (λ a b, (f a <? f b)%N = false)) by (intros a b; rewrite !N.ltb_ge; lia).
    by apply StronglySorted_merge_sort. }
  induction Hs as [|a k Hs IH Hall]; constructor; [done|]. eapply Forall_impl; [exact Hall|]. intros b. by rewrite N.ltb_ge.
Qed.

Section results.
Context {document database : Type} `{XD : !Xapian document database} `{DS : !DocStore document}.
Context `{SS : !StdSort} `{SL : !StdSortLaws}.

(** C39: a facet spy that the match shows any documents, whose slots it can decode, of a
    field that does not hold dates, reports exactly the documents it looked at, which are
    the first ones up to its limit, how many values they have, and the most frequent of
    those values, each with the number of times it occurs; there are fewer documents and
    values than 32 bits count. *)
Theorem facet_results unserialise dec fieldname doc_limit result_limit docs vals :
  (∀ doc, doc ∈ docs → read_slot dec doc = Ok (vals doc)) →
  (N.of_nat (length docs) < 2 ^ 32)%N → (N.of_nat (length (concat (vals <$> docs))) < 2 ^ 32)%N →
  let seen := take (N.to_nat doc_limit) docs in
  let all := concat (vals <$> seen) in
  ∃ s items, for_each docs FacetCountMatchSpy_call
      (new_FacetCountMatchSpy false (Some dec) fieldname doc_limit result_limit) = (s, Ok ()) ∧
    FacetCountMatchSpy_get_result unserialise s = Ok (JObj [
      ("counts", JArr ((λ '(v, n), JArr [jstr v; JUInt n]) <$> items)); ("docs_seen", JUInt (N.of_nat (length seen)));
      ("fieldname", jstr fieldname); ("type", JStr "facet_count"); ("values_seen", JUInt (N.of_nat (length all)))]) ∧
    top result_limit (tally all) items.
Proof.
  intros Hv Hd Hl seen all. set (s0 := new_FacetCountMatchSpy _ _ _ _ _).
  destruct (facet_calls dec vals s0 docs eq_refl Hv s0 0 [] Hd Hl) as (s & Hs & Hst); [by split|].
  cbn in Hst. rewrite Nat.sub_0_r in Hst. fold seen all in Hst. destruct Hst as [H1 H2 H3 H4 H5 H6 H7 H8].
  exists s, (facet_items s). split; [done|]. split; [|unfold facet_items; rewrite H5, (counts_of_tally _ _ H3); apply top_items].
  unfold FacetCountMatchSpy_get_result. rewrite H1, H2, H8.
  assert (E : ∀ items l, foldl (λ r item, rcounts ← r; append_value unserialise s rcounts item) (Ok (JArr l)) items =
    Ok (JArr (l ++ ((λ '(v, n), JArr [jstr v; JUInt n]) <$> items)))).
  { induction items as [|[v n] items IH]; intros l; cbn [foldl fmap list_fmap]; [by rewrite app_nil_r|].
    unfold append_value at 2. rewrite H7. cbn. rewrite IH, <-app_assoc. done. }
  by rewrite E.
Qed.

Context (all_terms : database → list string) (db : database).

(** The number of documents with a term that is not a stopword. *)
Definition docs_with (prefix : string) (stopwords : list string) (x : string) (docs : list document) : nat :=
  length (filter (λ doc, prefix +:+ x ∈ terms doc ∧ x ∉ stopwords) docs).

Lemma concat_take_le {A} (f : document → list A) n docs : length (concat (f <$> take n docs)) <= length (concat (f <$> docs)).
Proof. rewrite <-(take_drop n docs) at 2. rewrite fmap_app, concat_app, length_app. lia. Qed.

Lemma fresh_suffixes cooccur group prefix dl rl tf stopwords (doc : document) x :
  x ∈ suffixes (fresh_spy cooccur group prefix dl rl tf stopwords) doc ↔
    full_prefix group prefix +:+ x ∈ terms doc ∧ x ∉ stopwords.
Proof. destruct (fresh_spy_eq cooccur group prefix dl rl tf stopwords) as (W & -> & ->). rewrite elem_of_suffixes. cbn. set_solver. Qed.

(** The header and the frequencies, of a spy that was shown documents. *)
Lemma fresh_header type cooccur group prefix dl rl tf stopwords s n m l x :
  term_state (fresh_spy cooccur group prefix dl rl tf stopwords) s n m l →
  json_set (spy_header type s) "counts" x = JObj [("counts", x); ("docs_seen", JUInt (N.of_nat n)); ("group", jstr group);
    ("prefix", jstr prefix); ("terms_seen", JUInt (wrap32 (N.of_nat m))); ("type", JStr type)] ∧
  ts_result_limit s = rl ∧ ts_cooccur s = cooccur ∧ ts_get_termfreqs s = tf ∧ ts_prefix s = full_prefix group prefix.
Proof.
  destruct (fresh_spy_eq cooccur group prefix dl rl tf stopwords) as (W & -> & _).
  intros [H1 H2 _ (_ & H4 & H5 & _ & H6 & H7) [H8 H9]]. unfold spy_header. by rewrite H1, H2, H8, H9.
Qed.

Lemma fresh_items cooccur group prefix dl rl tf stopwords (docs : list document) :
  let s0 := fresh_spy cooccur group prefix dl rl tf stopwords in
  items_of s0 <$> docs = if cooccur then (λ doc, pairs (suffixes s0 doc)) <$> docs else suffixes s0 <$> docs.
Proof.
  cbv zeta. destruct (fresh_spy_eq cooccur group prefix dl rl tf stopwords) as (W & -> & _). unfold items_of. by destruct cooccur.
Qed.

Lemma fresh_occurrences cooccur group prefix dl rl tf stopwords (docs : list document) x :
  occurrences x (concat (suffixes (fresh_spy cooccur group prefix dl rl tf stopwords) <$> docs)) =
    docs_with (full_prefix group prefix) stopwords x docs.
Proof.
  destruct (fresh_spy_eq cooccur group prefix dl rl tf stopwords) as (W & -> & ->). rewrite occurrences_docs. unfold docs_with.
  f_equal. apply list_filter_iff. intros doc. cbn. by rewrite elem_of_list_to_set.
Qed.

Lemma tally_first n l x k : (x, k) ∈ first_items n (std_sort more_frequent (tally l)) → k = N.of_nat (occurrences x l) ∧ x ∈ l.
Proof.
  intros H. assert (Ht : (x, k) ∈ tally l).
  { rewrite <-(sort_perm more_frequent (tally l)). rewrite first_items_take in H. apply elem_of_take in H as (i & Hi & _). by eapply list_elem_of_lookup_2. }
  apply list_elem_of_fmap in Ht as (v & [= -> ->] & Hv). by rewrite elem_of_sorted_elems, elem_of_list_to_set in Hv.
Qed.

(** A spy of the terms of a group reports the documents it looked at, the terms they
    have, and the most frequent terms, each with the number of those documents that have
    it and, if asked for, with the number of documents of the database that have it. *)
Theorem occur_results group prefix doc_limit result_limit get_termfreqs stopwords docs :
  let s0 := fresh_spy false group prefix doc_limit result_limit get_termfreqs stopwords in
  (N.of_nat (length docs) < 2 ^ 32)%N → (N.of_nat (length (concat (suffixes s0 <$> docs))) < 2 ^ 32)%N →
  all_terms_laws all_terms db → (∀ t, (doc_freq db t < 2 ^ 32)%N) →
  let seen := take (N.to_nat doc_limit) docs in
  let all := concat (suffixes s0 <$> seen) in
  ∃ items, top result_limit (tally all) items ∧
    term_spy_get_result all_terms db (foldl (λ s doc, term_spy_call doc s) s0 docs) = JObj [
      ("counts", JArr ((λ '(x, n), JArr ([jstr x; JUInt n] ++
         if get_termfreqs then [JUInt (doc_freq db (full_prefix group prefix +:+ x))] else [])) <$> items));
      ("docs_seen", JUInt (N.of_nat (length seen))); ("group", jstr group); ("prefix", jstr prefix);
      ("terms_seen", JUInt (N.of_nat (length all))); ("type", JStr "occur")] ∧
    ∀ x n, (x, n) ∈ items → n = N.of_nat (docs_with (full_prefix group prefix) stopwords x seen).
Proof.
  intros s0 Hd Hl Hall Hfreq seen all. assert (Hlt : (N.of_nat (length all) < 2 ^ 32)%N).
  { pose proof (concat_take_le (suffixes s0) (N.to_nat doc_limit) docs). unfold all, seen. lia. }
  pose proof (fresh_calls false group prefix doc_limit result_limit get_termfreqs stopwords docs) as H.
  cbv zeta in H. fold s0 in H. assert (Hio : ∀ k : list document, items_of s0 <$> k = suffixes s0 <$> k) by (intros k; apply (fresh_items false)). rewrite !Hio in H.
  specialize (H Hd Hl). fold seen all in H. revert H. generalize (foldl (λ s doc, term_spy_call doc s) s0 docs). intros s H.
  pose proof (counts_of_tally _ _ (tst_counts _ _ _ _ _ H)) as Htally.
  destruct (fresh_header "occur" _ _ _ _ _ _ _ s _ _ _ JNull H) as (_ & Hrl & Hco & Htf & Hp).
  exists (occur_items s). split; [unfold occur_items; rewrite Hrl, Htally; apply top_items|]. split.
  - unfold term_spy_get_result, TermOccurMatchSpy_get_result. rewrite Hco, Htf.
    match goal with |- _ = JObj ((_, ?x) :: _) => destruct (fresh_header "occur" _ _ _ _ _ _ _ s _ _ _ x H) as [E _] end.
    rewrite wrap32_small in E by done. rewrite <-E. f_equal.
    apply (f_equal JArr), list_fmap_ext. intros i [x n] Hi. apply (f_equal JArr). f_equal. destruct get_termfreqs; [|done]. unfold termfreq.
    rewrite get_freqs_spec by first [done | apply (list_elem_of_fmap_2 fst _ (x, n)); by eapply list_elem_of_lookup_2].
    by rewrite Hp.
  - intros x n Hi. unfold occur_items in Hi. rewrite Htally in Hi. apply tally_first in Hi as [-> _].
    f_equal. apply fresh_occurrences.
Qed.
(** *** Pairs of terms *)

Lemma elem_of_pairs items strs : StronglySorted str_lt items →
  strs ∈ pairs items → ∃ a b, strs = pair_key a b ∧ a ∈ items ∧ b ∈ items ∧ str_lt a b.
Proof.
  induction 1 as [|j items Hs IH Hall]; cbn [pairs]; [set_solver|]. rewrite elem_of_app, list_elem_of_fmap.
  rewrite Forall_forall in Hall. intros [(b & -> & Hb)|Hin]; [exists j, b; set_solver|].
  destruct (IH Hin) as (a & b & -> & Ha & Hb & Hab). exists a, b. set_solver.
Qed.

(** The number of documents with two terms. *)
Definition docs_with_both (s : TermOccurMatchSpy) (a b : string) (docs : list document) : nat :=
  length (filter (λ doc, a ∈ suffixes s doc ∧ b ∈ suffixes s doc) docs).

Lemma pair_tally s docs : (∀ doc x, doc ∈ docs → x ∈ suffixes s doc → clean x) →
  let l := (λ '(strs, n), (split_key strs, n)) <$> tally (concat ((λ doc, pairs (suffixes s doc)) <$> docs)) in
  NoDup l ∧ ∀ a b n, ((a, b), n) ∈ l ↔ str_lt a b ∧ n = N.of_nat (docs_with_both s a b docs) ∧ n ≠ 0%N.
Proof.
  intros Hc. cbv zeta. set (all := concat _).
  assert (Hall : ∀ strs, strs ∈ all → ∃ a b, strs = pair_key a b ∧ clean a ∧ str_lt a b).
  { intros strs (items & (doc & -> & Hd)%list_elem_of_In%list_elem_of_fmap & Hin%list_elem_of_In)%list_elem_of_In%in_concat.
    apply elem_of_pairs in Hin as (a & b & -> & Ha & _ & Hab); [|apply suffixes_sorted]. exists a, b. eauto. }
  assert (Hpos : ∀ strs, strs ∈ all ↔ occurrences strs all ≠ 0).
  { intros strs. unfold occurrences. rewrite length_zero_iff_nil. split.
    - intros Hs E. apply (filter_nil_not_elem_of (strs =.) all strs) in E; done.
    - intros Hne. destruct (decide (strs ∈ all)); [done|]. destruct Hne. apply length_zero_iff_nil. by apply occurrences_not_in. }
  split.
  - apply NoDup_fmap_2_strong.
    + intros [x n] [y k] (? & [= -> ->] & Hx)%list_elem_of_fmap (? & [= -> ->] & Hy)%list_elem_of_fmap [= E _].
      rewrite elem_of_sorted_elems, elem_of_list_to_set in Hx, Hy.
      apply Hall in Hx as (a & b & -> & Ha & _), Hy as (a' & b' & -> & Ha' & _). rewrite !split_key_pair in E by done. by injection E as -> ->.
    + apply NoDup_fmap_2, sorted_elems_nodup. by intros x y [= -> _].
  - intros a b n. rewrite list_elem_of_fmap. split.
    + intros ([strs n'] & [= E ->] & (? & [= -> ->] & Hin)%list_elem_of_fmap). rewrite elem_of_sorted_elems, elem_of_list_to_set in Hin.
      pose proof (Hall _ Hin) as (a' & b' & -> & Ha & Hab). rewrite split_key_pair in E by done. injection E as -> ->.
      split; [done|]. pose proof (proj1 (Hpos _) Hin). unfold all in *. rewrite occurrences_pair_docs in * by done. split; [done|]. unfold docs_with_both. lia.
    + intros (Hab & -> & Hne). assert (Ha : clean a).
      { unfold docs_with_both in Hne. destruct (filter _ docs) as [|doc ds] eqn:E; [done|]. assert (Hd : doc ∈ doc :: ds) by set_solver.
        rewrite <-E in Hd. apply list_elem_of_filter in Hd as [[Hd _] Hdoc]. eauto. }
      assert (Hocc : occurrences (pair_key a b) all = docs_with_both s a b docs) by (by apply occurrences_pair_docs).
      exists (pair_key a b, N.of_nat (occurrences (pair_key a b) all)). rewrite split_key_pair, Hocc by done. split; [done|].
      rewrite <-Hocc. apply list_elem_of_fmap_2 with (f := λ v, (v, N.of_nat (occurrences v all))).
      rewrite elem_of_sorted_elems, elem_of_list_to_set, Hpos. lia.
Qed.

(** A spy of pairs of terms reports the documents it looked at and the most frequent
    pairs of different terms of one document, each with the number of those documents
    that have both and, if asked for, the number of documents of the database that have
    each: the pairs counted are exactly those in some document looked at, in one order. *)
Theorem cooccur_results group prefix doc_limit result_limit get_termfreqs stopwords docs :
  let s0 := fresh_spy true group prefix doc_limit result_limit get_termfreqs stopwords in
  (N.of_nat (length docs) < 2 ^ 32)%N →
  (N.of_nat (length (concat ((λ doc, pairs (suffixes s0 doc)) <$> docs))) < 2 ^ 32)%N →
  (∀ doc x, doc ∈ docs → x ∈ suffixes s0 doc → clean x) →
  all_terms_laws all_terms db → (∀ t, (doc_freq db t < 2 ^ 32)%N) →
  let seen := take (N.to_nat doc_limit) docs in
  let freq := λ x, JUInt (doc_freq db (full_prefix group prefix +:+ x)) in
  ∃ l items, top result_limit l items ∧
    NoDup l ∧ (∀ a b n, ((a, b), n) ∈ l ↔ str_lt a b ∧ n = N.of_nat (docs_with_both s0 a b seen) ∧ n ≠ 0%N) ∧
    term_spy_get_result all_terms db (foldl (λ s doc, term_spy_call doc s) s0 docs) = JObj [
      ("counts", JArr ((λ '((a, b), n), JArr ([jstr a; jstr b; JUInt n] ++ if get_termfreqs then [freq a; freq b] else [])) <$> items));
      ("docs_seen", JUInt (N.of_nat (length seen))); ("group", jstr group); ("prefix", jstr prefix);
      ("terms_seen", JUInt (wrap32 (N.of_nat (length (concat (suffixes s0 <$> seen)))))); ("type", JStr "cooccur")].
Proof.
  intros s0 Hd Hl Hc Hall Hfreq seen freq.
  pose proof (fresh_calls true group prefix doc_limit result_limit get_termfreqs stopwords docs) as H.
  cbv zeta in H. fold s0 in H.
  assert (Hio : ∀ k : list document, items_of s0 <$> k = (λ doc, pairs (suffixes s0 doc)) <$> k) by (intros k; apply (fresh_items true)).
  rewrite !Hio in H. specialize (H Hd Hl). fold seen in H. revert H. generalize (foldl (λ s doc, term_spy_call doc s) s0 docs). intros s H.
  destruct (pair_tally s0 seen) as [Hnd Hin]; [intros doc x Hs; apply Hc; apply elem_of_take in Hs as (i & Hi & _); by eapply list_elem_of_lookup_2|].
  pose proof (counts_of_tally _ _ (tst_counts _ _ _ _ _ H)) as Htally.
  destruct (fresh_header "cooccur" _ _ _ _ _ _ _ s _ _ _ JNull H) as (_ & Hrl & Hco & Htf & Hp).
  eexists _, (cooccur_items s). split; [unfold cooccur_items; rewrite Hrl, Htally; apply top_items|]. split_and!; [done..|].
  unfold term_spy_get_result, TermCoOccurMatchSpy_get_result. rewrite Hco, Htf.
  match goal with |- _ = JObj ((_, ?x) :: _) => destruct (fresh_header "cooccur" _ _ _ _ _ _ _ s _ _ _ x H) as [<- _] end.
  f_equal. apply (f_equal JArr), list_fmap_ext. intros i [[a b] n] Hi. apply (f_equal JArr). f_equal. destruct get_termfreqs; [|done].
  assert (Hab : ∀ x, x ∈ [a; b] → x ∈ mjoin ((λ '((str1, str2), _), [str1; str2]) <$> cooccur_items s)).
  { intros x Hx. apply list_elem_of_join. exists [a; b]. split; [done|].
    apply list_elem_of_fmap. exists ((a, b), n). split; [done|]. by eapply list_elem_of_lookup_2. }
  unfold termfreq. rewrite !get_freqs_spec by first [done | apply Hab; set_solver]. by rewrite Hp.
Qed.
End results.

(** ** Instances *)

Definition two_docs : list refdoc :=
  let x := {["xa"; "xb"; "y"]} in let y := {["xa"; "xb"]} in
  [Refdoc x ("", {[1%N := Vint_serialise {["red"; "tall"]}]}); Refdoc y ("", {[1%N := Vint_serialise {["red"]}]})].

Definition two_docs_db : refdb := mkRefdb {[1%N := mkRefdoc {["xa"; "xb"; "y"]} ""; 2%N := mkRefdoc {["xa"]} ""]} ∅.

(** The terms of a database, in order. *)
Definition ref_all_terms (db : refdb) : list string :=
  sorted_elems (filter (λ t, postlist db t ≠ []) (⋃ (rterms <$> (map_to_list (rdocs db)).*2))).

Lemma ref_all_terms_laws db : all_terms_laws ref_all_terms db.
Proof.
  split; [apply sorted_elems_sorted|]. intros t. unfold ref_all_terms. rewrite elem_of_sorted_elems, elem_of_filter. split; [tauto|].
  intros Ht. split; [done|]. destruct (postlist db t) as [|d ds] eqn:E; [done|].
  assert (Hd : d ∈ postlist db t) by (rewrite E; set_solver). apply elem_of_postlist in Hd as (x & Hx & Hxt).
  apply elem_of_union_list. exists (rterms x). split; [|done]. apply list_elem_of_fmap_2, list_elem_of_fmap. exists (d, x).
  split; [done|]. apply elem_of_map_to_list. cbn in Hx. unfold ref_get in Hx. by case_decide.
Qed.

Lemma two_docs_freq t : (doc_freq two_docs_db t < 2 ^ 32)%N.
Proof.
  unfold doc_freq. assert (H : ∀ d, d ∈ postlist two_docs_db t → d ∈ [1%N; 2%N]).
  { intros d (x & Hx & _)%elem_of_postlist. cbn in Hx. unfold ref_get in Hx. case_decide; [done|]. cbn in Hx.
    rewrite lookup_insert in Hx. case_decide; [set_solver|]. rewrite lookup_singleton in Hx. case_decide; [set_solver|done]. }
  assert (Hnd : NoDup (postlist two_docs_db t)) by apply (sorted_nodup N.lt), postlist_sorted.
  pose proof (submseteq_length _ _ (NoDup_submseteq _ _ Hnd H)). cbn [length] in *. lia.
Qed.

Definition colours : SlotDecoder := mkSlotDecoder 1 ENC_VINT_LENGTHS "" false "".
Definition colours_of (doc : refdoc) : list string := match read_slot colours doc with Ok l => l | _ => [] end.

Lemma facet_results_witness : colours_of <$> two_docs = [["red"; "tall"]; ["red"]] ∧
  ∃ s items, for_each two_docs FacetCountMatchSpy_call (new_FacetCountMatchSpy false (Some colours) "colour" 5 1) = (s, Ok ()) ∧
    FacetCountMatchSpy_get_result (λ _, S754_zero false) s = Ok (JObj [
      ("counts", JArr ((λ '(v, n), JArr [jstr v; JUInt n]) <$> items)); ("docs_seen", JUInt 2);
      ("fieldname", JStr "colour"); ("type", JStr "facet_count"); ("values_seen", JUInt 3)]) ∧
    top 1 (tally ["red"; "tall"; "red"]) items.
Proof.
  assert (E : colours_of <$> two_docs = [["red"; "tall"]; ["red"]]) by (vm_compute; reflexivity). split; [exact E|].
  assert (Hv : ∀ doc, doc ∈ two_docs → read_slot colours doc = Ok (colours_of doc)).
  { intros doc. unfold two_docs. cbv zeta. rewrite !list_elem_of_cons || rewrite !elem_of_cons.
    intros [-> | [-> | []%not_elem_of_nil]]; vm_compute; reflexivity. }
  assert (Hl : (N.of_nat (length (concat (colours_of <$> two_docs))) < 2 ^ 32)%N) by (rewrite E; vm_compute; reflexivity).
  destruct (facet_results (λ _, S754_zero false) colours "colour" 5 1 two_docs colours_of Hv eq_refl Hl) as (s & items & H1 & H2 & H3).
  change (take (N.to_nat 5) two_docs) with two_docs in H2, H3. rewrite E in H2, H3. exists s, items. split; [exact H1|].
  split; [exact H2|exact H3].
Defined.

Lemma occur_results_witness :
  let s0 := fresh_spy false "" "x" 5 1 true ["c"] in
  ∃ items, top 1 (tally ["a"; "b"; "a"; "b"]) items ∧
    term_spy_get_result ref_all_terms two_docs_db (foldl (λ s doc, term_spy_call doc s) s0 two_docs) = JObj [
      ("counts", JArr ((λ '(x, n), JArr ([jstr x; JUInt n] ++ [JUInt (doc_freq two_docs_db ("x" +:+ x))])) <$> items));
      ("docs_seen", JUInt 2); ("group", JStr ""); ("prefix", JStr "x"); ("terms_seen", JUInt 4); ("type", JStr "occur")] ∧
    ∀ x n, (x, n) ∈ items → n = N.of_nat (docs_with "x" ["c"] x two_docs).
Proof.
  intros s0. assert (E : suffixes s0 <$> two_docs = [["a"; "b"]; ["a"; "b"]]) by (vm_compute; reflexivity).
  assert (Hl : (N.of_nat (length (concat (suffixes s0 <$> two_docs))) < 2 ^ 32)%N) by (rewrite E; vm_compute; reflexivity).
  destruct (occur_results ref_all_terms two_docs_db "" "x" 5 1 true ["c"] two_docs eq_refl Hl (ref_all_terms_laws _) two_docs_freq)
    as (items & H1 & H2 & H3).
  change (take (N.to_nat 5) two_docs) with two_docs in H1, H2, H3. fold s0 in H1, H2. rewrite E in H1, H2. exists items.
  split; [exact H1|]. split; [exact H2|exact H3].
Defined.

Lemma cooccur_results_witness :
  let s0 := fresh_spy true "" "x" 5 1 false [] in
  ∃ l items, top 1 l items ∧
    NoDup l ∧ (∀ a b n, ((a, b), n) ∈ l ↔ str_lt a b ∧ n = N.of_nat (docs_with_both s0 a b two_docs) ∧ n ≠ 0%N) ∧
    term_spy_get_result ref_all_terms two_docs_db (foldl (λ s doc, term_spy_call doc s) s0 two_docs) = JObj [
      ("counts", JArr ((λ '((a, b), n), JArr ([jstr a; jstr b; JUInt n] ++ [])) <$> items));
      ("docs_seen", JUInt 2); ("group", JStr ""); ("prefix", JStr "x"); ("terms_seen", JUInt 4); ("type", JStr "cooccur")].
Proof.
  intros s0. assert (E : suffixes s0 <$> two_docs = [["a"; "b"]; ["a"; "b"]]) by (vm_compute; reflexivity).
  assert (Hl : (N.of_nat (length (concat ((λ doc, pairs (suffixes s0 doc)) <$> two_docs))) < 2 ^ 32)%N) by (vm_compute; reflexivity).
  assert (Hc : ∀ doc x, doc ∈ two_docs → x ∈ suffixes s0 doc → clean x).
  { intros doc x Hd Hx. assert (Hin : suffixes s0 doc ∈ suffixes s0 <$> two_docs) by by apply list_elem_of_fmap_2.
    rewrite E in Hin. assert (H : Forall clean ["a"; "b"]) by (repeat constructor). rewrite Forall_forall in H. apply H.
    apply elem_of_cons in Hin as [Hs | [Hs | []%not_elem_of_nil]%elem_of_cons]; rewrite <-Hs; exact Hx. }
  destruct (cooccur_results ref_all_terms two_docs_db "" "x" 5 1 false [] two_docs eq_refl Hl Hc (ref_all_terms_laws _) two_docs_freq)
    as (l & items & H1 & H2 & H3 & H4).
  change (take (N.to_nat 5) two_docs) with two_docs in H3, H4. fold s0 in H3, H4. rewrite E in H4. exists l, items.
  split; [exact H1|]. split; [exact H2|]. split; [exact H3|exact H4].
Defined.
