(* ===== verification/Search.v ===== *)
(** * Searches

    src/jsonxapian/collection.cc [perform_search] and [calc_fromdoc_offset],
    infohandlers.cc, facetinfohandler.cc, occurinfohandler.cc and [new_facet_spy] of
    schema.cc: a search builds its query, adds its match spies and its ordering to the
    match, finds the page of results to return, and writes them.

    The match itself is the library's: [Matcher] is [Enquire::get_mset], which is given the
    query, the weighting scheme, the order of documents and that of identifiers, and
    answers the documents of a page and which documents it showed to the spies. *)

From Stdlib Require Import SpecFloat.
From S2P Require Import Prelude Json TextUtils DocData DocValues XapianDb DbGroup Hashing Schema CollConfig Indexing KeyMaker Query Collection MatchSpies.

(** ** The match *)

(** [set_sort_by_...]; relevance is what [Enquire] starts with. *)
Inductive sort_order := BY_RELEVANCE | BY_KEY | BY_RELEVANCE_THEN_KEY | BY_KEY_THEN_RELEVANCE.
#[export] Instance sort_order_eq_dec : EqDecision sort_order.
Proof. solve_decision. Defined.

(** [Xapian::MSet]: the documents of the page, those shown to the spies, and the bounds
    of the number of matches. *)
Record MSet {document : Type} := mkMSet {
  ms_items : list N;
  ms_shown : list document;
  ms_lower : N; ms_estimated : N; ms_upper : N;
}.
Arguments MSet : clear implicits.
Arguments mkMSet {document}.

(** [set_weighting_scheme]; BM25 is what [Enquire] starts with. *)
Inductive weighting := BM25_WEIGHT | BOOL_WEIGHT.

(** [set_docid_order]; ascending is what [Enquire] starts with. *)
Inductive docid_order := ASCENDING | DONT_CARE.

Record Enquire {database : Type} := mkEnquire {
  enq_db : database;
  enq_query : Query;
  enq_weighting : weighting;
  enq_docids : docid_order;
  enq_order : sort_order;
  enq_sorter : MultiValueKeyMaker;
}.
Arguments mkEnquire {database}.

(** [Enquire(db)] with [set_query]. *)
Definition new_Enquire {database} (db : database) (q : Query) : Enquire :=
  mkEnquire db q BM25_WEIGHT ASCENDING BY_RELEVANCE [].

Definition set_weighting_scheme {database} (w : weighting) (enq : @Enquire database) : Enquire :=
  mkEnquire (enq_db enq) (enq_query enq) w (enq_docids enq) (enq_order enq) (enq_sorter enq).

Definition set_docid_order {database} (o : docid_order) (enq : @Enquire database) : Enquire :=
  mkEnquire (enq_db enq) (enq_query enq) (enq_weighting enq) o (enq_order enq) (enq_sorter enq).

(** [set_sort_by_relevance] and its variants with a key maker. *)
Definition set_sort {database} (o : sort_order) (k : MultiValueKeyMaker) (enq : @Enquire database) : Enquire :=
  mkEnquire (enq_db enq) (enq_query enq) (enq_weighting enq) (enq_docids enq) o k.

(** [get_mset(first, maxitems, check_at_least)]. *)
Class Matcher (document database : Type) :=
  match_page : @Enquire database → N → N → N → res (MSet document).

(** The configuration a query builder is made for. *)
Record QueryBuilder {database : Type} := mkBuilder {
  build : json → res Query;
  total_docs : database → res N;
  get_field_config : string → res (option FieldConfig);
  get_slot_decoder : string → res (option SlotDecoder);
}.
Arguments mkBuilder {database}.

Section search.
Context {document database : Type} `{XD : !Xapian document database} `{DS : !DocStore document} `{IL : !IndexLib document}.
Context `{QL : !QueryLib} `{SS : !StdSort} `{MT : !Matcher document database}.

(** ** Info handlers *)

Inductive InfoHandler := FacetCountInfo (spy : FacetCountMatchSpy) | OccurInfo (spy : TermOccurMatchSpy).

(** [InfoHandlers]: null for an item with an unknown member; each handler with whether
    its spy is one of the match. *)
Definition InfoHandlers : Type := list (option (InfoHandler * bool)).

Definition UINT_MAX : N := 4294967295.

(** [new_facet_spy], of [FieldConfig] and of [DateFieldConfig]. *)
Definition new_facet_spy (f : FieldConfig) (decoder : SlotDecoder) (fieldname : string) (doc_limit result_limit : N)
    : FacetCountMatchSpy :=
  new_FacetCountMatchSpy (match f with DateFieldConfig _ _ => true | _ => false end) (Some decoder) fieldname doc_limit result_limit.

(** The two limits of an item. *)
Definition item_limits (params : json) (db : database) : res (N * N) :=
  doc_limit ← json_get_uint64_member_def params "doc_limit" UINT_MAX (get_doccount db);
  result_limit ← json_get_uint64_member_def params "result_limit" UINT_MAX UINT_MAX;
  Ok (wrap32 doc_limit, wrap32 result_limit).

Definition new_FacetCountInfoHandler (params : json) (builder : @QueryBuilder database) (db : database) (check_at_least : N)
    : res (InfoHandler * bool * N) :=
  '(doc_limit, result_limit) ← item_limits params db;
  fieldname ← json_get_string_member params "field" "";
  let without := FacetCountInfo (new_FacetCountMatchSpy false None fieldname doc_limit result_limit) in
  if decide (fieldname = "") then Ok (without, false, check_at_least)
  else
    decoder ← get_slot_decoder builder fieldname;
    field_config ← get_field_config builder fieldname;
    match decoder, field_config with
    | Some d, Some f =>
        Ok (FacetCountInfo (new_facet_spy f d fieldname doc_limit result_limit), true, N.max check_at_least doc_limit)
    | _, _ => Ok (without, false, check_at_least)
    end.

Definition add_stopwords (stopwords : json) (spy : TermOccurMatchSpy) : res TermOccurMatchSpy :=
  if isNull stopwords then Ok spy
  else
    json_check_array stopwords "list of stopwords" ;;
    foldl (λ r stopword,
      spy ← r;
      json_check_string stopword "stopword" ;;
      word ← asString stopword; Ok (add_stopword word spy)) (Ok spy) (json_elems stopwords).

(** [OccurInfoHandler] and [CoOccurInfoHandler]. *)
Definition new_OccurInfoHandler (cooccur : bool) (params : json) (db : database) (check_at_least : N)
    : res (InfoHandler * bool * N) :=
  group ← json_get_string_member params "group" "";
  prefix ← json_get_string_member params "prefix" "";
  '(doc_limit, result_limit) ← item_limits params db;
  get_termfreqs ← json_get_bool params "get_termfreqs" false;
  stopwords ← json_index params "stopwords";
  spy ← add_stopwords stopwords (new_BaseTermOccurMatchSpy cooccur group prefix doc_limit result_limit get_termfreqs);
  Ok (OccurInfo spy, true, N.max check_at_least doc_limit).

(** [handlers.back() = ...]. *)
Definition set_back (h : option (InfoHandler * bool)) (handlers : InfoHandlers) : InfoHandlers := removelast handlers ++ [h].

Definition push_null (handlers : InfoHandlers) : InfoHandlers :=
  match last handlers with Some None => handlers | _ => handlers ++ [None] end.

(** One of the three members; the second is the limit [check_at_least]. *)
Definition add_member (name : string) (new : json → N → res (InfoHandler * bool * N)) (handler : json)
    (st : InfoHandlers * N) : res (InfoHandlers * N) :=
  if isMember handler name then
    params ← json_index handler name;
    '(h, check_at_least) ← new params st.2;
    Ok (set_back (Some h) st.1, check_at_least)
  else Ok st.

Definition add_handler (handler : json) (builder : @QueryBuilder database) (db : database) (st : InfoHandlers * N)
    : res (InfoHandlers * N) :=
  json_check_object handler "search info item to gather" ;;
  if negb (json_size handler =? 1)%N then throw (InvalidValueError "info item must have exactly one member")
  else
    let st := (push_null st.1, st.2) in
    st ← add_member "occur" (λ params, new_OccurInfoHandler false params db) handler st;
    st ← add_member "cooccur" (λ params, new_OccurInfoHandler true params db) handler st;
    add_member "facet_count" (λ params, new_FacetCountInfoHandler params builder db) handler st.

(** The document is shown to the spies of the match. *)
Definition call_spy (doc : document) : M InfoHandler () := λ h,
  match h with
  | FacetCountInfo spy => let '(spy, r) := FacetCountMatchSpy_call doc spy in (FacetCountInfo spy, r)
  | OccurInfo spy => (OccurInfo (term_spy_call doc spy), Ok ())
  end.

Fixpoint show_doc (doc : document) (handlers : InfoHandlers) : InfoHandlers * res () :=
  match handlers with
  | [] => ([], Ok ())
  | Some (h, true) :: rest =>
      match call_spy doc h with
      | (h, Ok tt) => let '(rest, r) := show_doc doc rest in (Some (h, true) :: rest, r)
      | (h, r) => (Some (h, true) :: rest, r)
      end
  | x :: rest => let '(rest, r) := show_doc doc rest in (x :: rest, r)
  end.

(** [Enquire::get_mset], with the spies of the match. *)
Definition get_mset (enq : @Enquire database) (first maxitems check_at_least : N) : M InfoHandlers (MSet document) :=
  mset ← liftM (match_page enq first maxitems check_at_least);
  for_each (ms_shown mset) show_doc ;;
  mret mset.

Context (sortable_unserialise : string → spec_float) (all_terms : database → list string).

Definition InfoHandler_get_result (db : database) (h : InfoHandler) : res json :=
  match h with
  | FacetCountInfo spy => FacetCountMatchSpy_get_result sortable_unserialise spy
  | OccurInfo spy => Ok (term_spy_get_result all_terms db spy)
  end.

Definition InfoHandler_write_results (db : database) (results : json) (h : InfoHandler) : res json :=
  info ← json_get results "info" (JArr []);
  result ← InfoHandler_get_result db h;
  Ok (json_set results "info" (json_append info result)).

Definition InfoHandlers_write_results (db : database) (handlers : InfoHandlers) (results : json) : res json :=
  foldl (λ r h, results ← r; match h with Some (h, _) => InfoHandler_write_results db results h | None => Ok results end)
    (Ok results) handlers.

(** ** Ordering *)

(** What the items of [order_by] asked for so far. *)
Record OrderState := mkOrder { sorter : option MultiValueKeyMaker; score_first : bool; score_last : bool }.

Definition order_by_field (builder : @QueryBuilder database) (item : json) (st : OrderState) : res OrderState :=
  fieldname ← json_get_string_member item "field" "";
  decoder ← get_slot_decoder builder fieldname;
  match decoder with
  | None => Ok st
  | Some d =>
      ascending ← json_get_bool item "ascending" true;
      Ok (mkOrder (Some (MultiValueKeyMaker_add_decoder d (negb ascending) (default [] (sorter st)))) (score_first st) (score_last st))
  end.

Definition order_by_score (n i : nat) (item : json) (st : OrderState) : res OrderState :=
  score ← json_index item "score";
  if negb (json_eqb score (JStr "weight"))
  then throw (InvalidValueError ("Invalid score specification (only allowed value is " +:+ quoted "weight" +:+ ")"))
  else
    ascending ← json_get_bool item "ascending" false;
    if (ascending : bool) then throw (InvalidValueError "Ascending order is not allowed when ordering by weight")
    else if decide (i = 0) then Ok (mkOrder (sorter st) true (score_last st))
    else if decide (i + 1 = n) then Ok (mkOrder (sorter st) (score_first st) true)
    else throw (InvalidValueError ("Sorting by score is only allowed as the first or last sorting condition (was "
      +:+ str_unsigned (N.of_nat i) +:+ " of " +:+ str_unsigned (N.of_nat n) +:+ ")")).

Definition order_item (builder : @QueryBuilder database) (n i : nat) (item : json) (st : OrderState) : res OrderState :=
  json_check_object item "ordering item" ;;
  if isMember item "field" then order_by_field builder item st
  else if isMember item "score" then order_by_score n i item st
  else throw (InvalidValueError ("Invalid order_by item - neither contains " +:+ quoted "field" +:+ " or " +:+ quoted "score" +:+ " member")).

(** The items from the one with index [i] on, of [n]. *)
Fixpoint order_loop (builder : @QueryBuilder database) (n i : nat) (items : list json) (st : OrderState) : res OrderState :=
  match items with
  | [] => Ok st
  | item :: items => st ← order_item builder n i item st; order_loop builder n (S i) items st
  end.

(** The ordering and the key maker that [order_by] gives the match. *)
Definition search_order (builder : @QueryBuilder database) (search : json) : res (sort_order * MultiValueKeyMaker) :=
  if negb (isMember search "order_by") then Ok (BY_RELEVANCE, [])
  else
    order_by ← json_index search "order_by";
    json_check_array order_by "list of ordering items" ;;
    st ← order_loop builder (length (json_elems order_by)) 0 (json_elems order_by) (mkOrder None false false);
    if score_first st && score_last st
    then throw (InvalidValueError "Sorting condition list may only contain sorting by score once.")
    else
      match sorter st with
      | None => Ok (BY_RELEVANCE, [])
      | Some k => Ok (if score_first st then BY_RELEVANCE_THEN_KEY else if score_last st then BY_KEY_THEN_RELEVANCE else BY_KEY, k)
      end.

(** ** Results around a document *)

(** The position of a document in a page. *)
Fixpoint find_item (id : N) (items : list N) : option nat :=
  match items with
  | [] => None
  | x :: items => if (x =? id)%N then Some 0 else S <$> find_item id items
  end.

(** The offset from the rank: [-fromdoc_from] is an [int]. *)
Definition offset_from (rank : N) (fromdoc_from : Z) : res N :=
  if (fromdoc_from <? 0)%Z then
    if (fromdoc_from =? minInt)%Z then throw UndefinedBehaviour
    else if (rank <? Z.to_N (- fromdoc_from))%N then Ok 0%N else Ok (rank - Z.to_N (- fromdoc_from))%N
  else Ok (wrap32 (rank + Z.to_N fromdoc_from)).

(** [while (true)]: a page after another, until the document is in one. *)
Fixpoint fromdoc_loop (fuel : nat) (enq : @Enquire database) (id pagesize : N) (fromdoc_from : Z) (check_at_least from : N)
    : M InfoHandlers N :=
  match fuel with
  | O => liftM OutOfFuel
  | S fuel =>
      mset ← get_mset enq from pagesize check_at_least;
      match find_item id (ms_items mset) with
      | Some i => liftM (offset_from (wrap32 (from + N.of_nat i)) fromdoc_from)
      | None =>
          if negb (N.of_nat (length (ms_items mset)) =? pagesize)%N
          then throwM (InvalidValueError "fromdoc document not present in result set")
          else fromdoc_loop fuel enq id pagesize fromdoc_from check_at_least (wrap32 (from + pagesize))
      end
  end.

(** The type, the identifier, the offset and the page size of a [fromdoc] member. *)
Record FromDoc := mkFromDoc { fromdoc_type : string; fromdoc_id : string; fromdoc_from : Z; fromdoc_pagesize : N }.

Definition calc_fromdoc_offset (fuel : nat) (enq : @Enquire database) (fd : FromDoc) (check_at_least : N) : M InfoHandlers N :=
  match postlist (enq_db enq) (sing (chr 9) +:+ fromdoc_type fd +:+ sing (chr 9) +:+ fromdoc_id fd) with
  | [] => throwM (InvalidValueError "fromdoc document not present in database")
  | id :: _ => fromdoc_loop fuel enq id (fromdoc_pagesize fd) (fromdoc_from fd) check_at_least 0
  end.

(** An identifier or an error. *)
Definition fromdoc_part (fromdoc_obj : json) (key what missing : string) : res string :=
  member ← json_index fromdoc_obj key;
  '(x, error) ← json_get_idstyle_value styled member;
  if negb (bool_decide (error = "")) then throw (InvalidValueError ("Invalid value supplied for fromdoc " +:+ what +:+ ": " +:+ error))
  else if decide (x = "") then throw (InvalidValueError ("Missing or empty " +:+ missing +:+ " supplied for fromdoc"))
  else Ok x.

Definition read_fromdoc (search : json) (from : N) : res (option FromDoc) :=
  fromdoc_obj ← json_index search "fromdoc";
  if isNull fromdoc_obj then Ok None
  else if negb (from =? 0)%N then throw (InvalidValueError "fromdoc was supplied, but from was not 0")
  else if negb (isObject fromdoc_obj) then throw (InvalidValueError "Invalid value supplied for fromdoc: expected an object")
  else
    type ← fromdoc_part fromdoc_obj "type" "type" "type";
    id ← fromdoc_part fromdoc_obj "id" "ID" "ID";
    tmp ← json_index fromdoc_obj "from";
    offset ← (if isNull tmp then Ok 0%Z
              else if negb (isConvertibleTo tmp intValue)
              then throw (InvalidValueError ("fromdoc " +:+ quoted "from" +:+ " parameter is not convertible to an integer"))
              else asInt tmp);
    pagesize ← json_get_uint64_member_def fromdoc_obj "pagesize" UINT_MAX 10000;
    Ok (Some (mkFromDoc type id offset (wrap32 pagesize))).

(** ** Searches *)

(** A limit that is all the documents when it is -1. *)
Definition limit_member (search : json) (key : string) (total def : N) : res N :=
  member ← json_index search key;
  if json_eqb member (JInt (-1)) then Ok total
  else n ← json_get_uint64_member_def search key UINT_MAX def; Ok (wrap32 n).

Definition check_display (fieldlist : json) : res () :=
  if isNull fieldlist then Ok ()
  else
    json_check_array fieldlist "list of fields to display" ;;
    if forallb isString (json_elems fieldlist) then Ok ()
    else throw (InvalidValueError "Item in display field list was not a string").

Definition add_info_handlers (search : json) (builder : @QueryBuilder database) (db : database) (check_at_least : N)
    : res (InfoHandlers * N) :=
  if negb (isMember search "info") then Ok ([], check_at_least)
  else
    info ← json_index search "info";
    json_check_array info "list of info items to gather" ;;
    foldl (λ r i, st ← r; add_handler i builder db st) (Ok ([], check_at_least)) (json_elems info).

Context (json_unserialise : string → res json) (get_description serialise : Query → string).

(** The results to show. *)
Definition show_item (db : database) (fieldlist : json) (id : N) : res json :=
  match get_document db id with
  | None => throw (XapianError "DocNotFoundError")
  | Some doc =>
      match DocumentData_unserialise (payload doc).1 ∅ with
      | (docdata, Ok _) => DocumentData_to_display json_unserialise docdata fieldlist
      | (_, Throw e) => throw e
      | (_, OutOfFuel) => OutOfFuel
      end
  end.

Definition write_search (db : database) (fieldlist : json) (handlers : InfoHandlers) (mset : MSet document)
    (total from size check_at_least : N) (verbose : option Query) : res json :=
  results ← InfoHandlers_write_results db handlers (JObj []);
  let results := json_set results "total_docs" (JUInt total) in
  let results := json_set results "from" (JUInt from) in
  let results := json_set results "size_requested" (JUInt size) in
  let results := json_set results "check_at_least" (JUInt check_at_least) in
  let results := json_set results "matches_lower_bound" (JUInt (ms_lower mset)) in
  let results := json_set results "matches_estimated" (JUInt (ms_estimated mset)) in
  let results := json_set results "matches_upper_bound" (JUInt (ms_upper mset)) in
  items ← mapM (show_item db fieldlist) (ms_items mset);
  let results := json_set results "items" (JArr items) in
  match verbose with
  | None => Ok results
  | Some query =>
      let results := json_set results "query_description" (jstr (hexesc (get_description query))) in
      Ok (json_set results "query_serialised" (jstr (hexesc (serialise query))))
  end.

(** The search of a database. *)
Definition search_db (fuel : nat) (search : json) (builder : @QueryBuilder database) (query : Query) (verbose : bool)
    (fieldlist : json) (db : database) : res json :=
  total ← total_docs builder db;
  from ← json_get_uint64_member_def search "from" UINT_MAX 0;
  let from := wrap32 from in
  size ← limit_member search "size" total 10;
  fromdoc ← read_fromdoc search from;
  check_at_least ← limit_member search "check_at_least" total 0;
  let enq := set_weighting_scheme BOOL_WEIGHT (new_Enquire db query) in
  '(handlers, check_at_least) ← add_info_handlers search builder db check_at_least;
  let enq := set_docid_order DONT_CARE enq in
  '(order, k) ← search_order builder search;
  let enq := set_sort order k enq in
  match (from ← match fromdoc with Some fd => calc_fromdoc_offset fuel enq fd check_at_least | None => mret from end;
         mset ← get_mset enq from size check_at_least;
         mret (from, mset)) handlers with
  | (handlers, Ok (from, mset)) =>
      write_search db fieldlist handlers mset total from size check_at_least (if verbose then Some query else None)
  | (_, Throw e) => Throw e
  | (_, OutOfFuel) => OutOfFuel
  end.

(** *** Builders *)

Context (w : N) (matches_upper_bound : database → Query → N).

Definition new_CollectionQueryBuilder (cfg : CollectionConfig) : @QueryBuilder database :=
  mkBuilder (CollectionQueryBuilder_build w cfg) (λ db, Ok (CollectionQueryBuilder_total_docs db))
    (CollectionQueryBuilder_get_field_config cfg) (CollectionQueryBuilder_get_slot_decoder cfg).

Definition new_DocumentTypeQueryBuilder (cfg : CollectionConfig) (doc_type : string) : @QueryBuilder database :=
  let schema := get_schema doc_type cfg in
  mkBuilder (DocumentTypeQueryBuilder_build w cfg schema)
    (DocumentTypeQueryBuilder_total_docs w cfg schema matches_upper_bound)
    (λ name, Ok (DocumentTypeQueryBuilder_get_field_config schema name)) (DocumentTypeQueryBuilder_get_slot_decoder schema).

Definition new_builder (cfg : CollectionConfig) (doc_type : string) : @QueryBuilder database :=
  if decide (doc_type = "") then new_CollectionQueryBuilder cfg else new_DocumentTypeQueryBuilder cfg doc_type.

(** The checks made before the database is opened. *)
Definition search_query (cfg : CollectionConfig) (search : json) (doc_type : string) : res (bool * json * Query) :=
  verbose ← json_get_bool search "verbose" false;
  fieldlist ← json_index search "display";
  check_display fieldlist ;;
  jsonquery ← json_index search "query";
  query ← build (new_builder cfg doc_type) jsonquery;
  Ok (verbose, fieldlist, query).

Definition perform_search (fuel : nat) (search : json) (doc_type : string) : M Collection json :=
  c ← getM;
  if negb (is_open (control (group c))) then throwM (InvalidStateError "Collection must be open to perform search")
  else
    '(verbose, fieldlist, query) ← liftM (search_query (config c) search doc_type);
    on_group init_group_db ;;
    c ← getM;
    liftM (search_db fuel search (new_builder (config c) doc_type) query verbose fieldlist (group_view (group c))).

End search.
