(* ===== verification/SearchThms.v ===== *)
(** * Searches: properties

    What the page of a search holds, how the position of a document in the results is
    found, and what the spies of a search count. *)

From Stdlib Require Import SpecFloat Qcanon.
From S2P Require Import Prelude Serialise Json TextUtils DocData DocValues XapianDb RefLib DbGroup DbGroupThms Hashing Schema CollConfig Indexing KeyMaker Query QueryThms Collection CollectionThms MatchSpies MatchSpiesThms Search ProcessThms.

(** What holds all along a loop that may throw holds at its end. *)
Lemma foldl_res_inv {A B} (f : A → B → res A) (P : A → Prop) l a b :
  foldl (λ r x, a ← r; f a x) (Ok a) l = Ok b → P a → (∀ a x b, P a → f a x = Ok b → P b) → P b.
Proof.
  intros H Ha Hf. revert a Ha H. induction l as [|x l IH]; intros a Ha H; [by injection H as <-|]. cbn in H.
  destruct (f a x) as [a'|e|] eqn:E; [by apply (IH a'); [eapply Hf|]|exfalso..]; clear -H; induction l; cbn in H; eauto; done.
Qed.

Lemma foldl_keeps {A B C} (g : A → C) (f : A → B → A) l a : (∀ a x, g (f a x) = g a) → g (foldl f a l) = g a.
Proof. intros H. revert a. induction l as [|x l IH]; intros a; [done|]. cbn. by rewrite IH. Qed.

(** ** What is relied on of the match *)

(** The order that a match is asked for, of the documents by their weights and their
    sort keys, a smaller key first; a document whose key cannot be made has no place. *)
Section order.
Context {document : Type} `{DS : !DocStore document} (weight : document → Qc) (k : MultiValueKeyMaker).

Definition key_of (x : document) (s : string) : Prop := ∃ fuel, MultiValueKeyMaker_key fuel k x = Ok s.

Definition keys_in (R : relation string) (x y : document) : Prop := ∀ s t, key_of x s → key_of y t → R s t.

Definition in_order (o : sort_order) (x y : document) : Prop :=
  match o with
  | BY_RELEVANCE => (weight y <= weight x)%Qc
  | BY_KEY => keys_in String.le x y
  | BY_RELEVANCE_THEN_KEY => (weight y < weight x)%Qc ∨ weight x = weight y ∧ keys_in String.le x y
  | BY_KEY_THEN_RELEVANCE => keys_in (λ s t, str_lt s t ∨ s = t ∧ (weight y <= weight x)%Qc) x y
  end.

(** Nothing that the order looks at tells the documents apart. *)
Definition tied (o : sort_order) (x y : document) : Prop :=
  (o = BY_KEY ∨ weight x = weight y) ∧ (o = BY_RELEVANCE ∨ ∃ s, key_of x s ∧ key_of y s).
End order.

Section ranked.
Context {document database : Type} `{XD : !Xapian document database} `{DS : !DocStore document} `{QM : !QueryMatch document}.

(** All the documents that a query matches, in some order. *)
Definition matching (db : database) (q : Query) (found : list N) : Prop :=
  NoDup found ∧ ∀ d, d ∈ found ↔ ∃ x, get_document db d = Some x ∧ matches q x = true.

(** A ranking of them as the match was told to; of documents that are tied the one with
    the lower identifier comes first, unless it was told not to care. *)
Definition ranked_by (weight : database → weighting → Query → document → Qc) (enq : Enquire) (ranked : list N) : Prop :=
  matching (enq_db enq) (enq_query enq) ranked ∧
  StronglySorted (λ d e, ∀ x y, get_document (enq_db enq) d = Some x → get_document (enq_db enq) e = Some y →
    let weight := weight (enq_db enq) (enq_weighting enq) (enq_query enq) in
    in_order weight (enq_sorter enq) (enq_order enq) x y ∧
    (enq_docids enq = ASCENDING → tied weight (enq_sorter enq) (enq_order enq) x y → (d < e)%N)) ranked.
End ranked.

(** A page is a part of a ranking of all the matching documents, and enough of them are
    shown to the spies.  Two pages need not be parts of the same ranking. *)
Class MatcherLaws (document database : Type) `{XD : !Xapian document database} `{DS : !DocStore document} `{QM : !QueryMatch document}
    `{MT : !Matcher document database} := {
  doc_weight : database → weighting → Query → document → Qc;
  page_ranked enq first n cal m : match_page enq first n cal = Ok m →
    ∃ ranked, ranked_by doc_weight enq ranked ∧ ms_items m = take (N.to_nat n) (drop (N.to_nat first) ranked);
  shown_matches enq first n cal m found : match_page enq first n cal = Ok m → matching (enq_db enq) (enq_query enq) found →
    ∃ ids, ids ⊆+ found ∧ Forall2 (λ d x, get_document (enq_db enq) d = Some x) ids (ms_shown m) ∧
      N.to_nat cal `min` length found <= length ids;
}.

(** The pages of a match are all parts of the one ranking. *)
Definition one_ranking {document database} `{MT : !Matcher document database} (enq : Enquire) (ranked : list N) : Prop :=
  ∀ first n cal (m : MSet document), match_page enq first n cal = Ok m → ms_items m = take (N.to_nat n) (drop (N.to_nat first) ranked).

Section search.
Context {document database : Type} `{XD : !Xapian document database} `{DS : !DocStore document} `{IL : !IndexLib document}.
Context `{QL : !QueryLib} `{SS : !StdSort} `{QM : !QueryMatch document} `{MT : !Matcher document database} `{ML : !MatcherLaws document database}.

(** ** Spies that cannot fail *)

Definition quiet_handler (h : option (InfoHandler * bool)) : Prop :=
  match h with Some (FacetCountInfo _, true) => False | _ => True end.

(** No facet is counted: the spies of terms do not throw. *)
Definition quiet (handlers : InfoHandlers) : Prop := Forall quiet_handler handlers.

Lemma show_doc_quiet (doc : document) handlers : quiet handlers →
  ∃ handlers', show_doc doc handlers = (handlers', Ok ()) ∧ quiet handlers'.
Proof.
  induction 1 as [|h handlers Hh Hq (hs & IH & Hhs)]; [exists []; split; [done|by apply Forall_nil]|]. cbn [show_doc].
  destruct h as [[[s|s] []]|]; try done; cbn [call_spy]; rewrite IH; eexists; (split; [reflexivity|]); apply Forall_cons; done.
Qed.

Lemma get_mset_quiet enq first n cal m handlers : quiet handlers →
  match_page enq first n cal = Ok m →
  ∃ handlers', get_mset (document:=document) enq first n cal handlers = (handlers', Ok m) ∧ quiet handlers'.
Proof.
  intros Hq Hm. unfold get_mset, mbind, M_bind, liftM. rewrite Hm.
  assert (H : ∀ shown : list document, ∃ handlers', for_each shown show_doc handlers = (handlers', Ok ()) ∧ quiet handlers').
  { intros shown. revert handlers Hq. induction shown as [|doc shown IH]; intros hs Hq; [by exists hs|].
    destruct (show_doc_quiet doc hs Hq) as (hs1 & H1 & Hq1). destruct (IH hs1 Hq1) as (hs2 & H2 & Hq2).
    exists hs2. split; [|done]. cbn [for_each]. unfold mbind, M_bind. by rewrite H1. }
  destruct (H (ms_shown m)) as (hs & Hs & Hqs). exists hs. by rewrite Hs.
Qed.

(** ** The position of a document *)

Lemma find_item_app id l k : find_item id (l ++ k) =
  match find_item id l with Some i => Some i | None => (λ i, length l + i) <$> find_item id k end.
Proof.
  induction l as [|x l IH]; cbn; [by destruct (find_item id k)|]. destruct (x =? id)%N; [done|]. rewrite IH.
  destruct (find_item id l); [done|]. by destruct (find_item id k).
Qed.

Lemma find_item_lt id l i : find_item id l = Some i → i < length l ∧ l !! i = Some id.
Proof.
  revert i. induction l as [|x l IH]; intros i H; cbn in *; [done|]. destruct (N.eqb_spec x id) as [->|Hne].
  - injection H as <-. split; [lia|done].
  - destruct (find_item id l) as [j|]; [|done]. injection H as <-. destruct (IH j eq_refl) as [? ?]. split; [lia|done].
Qed.

(** What the loop answers, from the rank of the document. *)
Definition fromdoc_answer (id : N) (fromdoc_from : Z) (ranked : list N) : res N :=
  match find_item id ranked with
  | Some i => offset_from (N.of_nat i) fromdoc_from
  | None => throw (InvalidValueError "fromdoc document not present in result set")
  end.

Lemma fromdoc_loop_finds enq ranked id pagesize off cal : one_ranking (document:=document) enq ranked →
  (∀ first, ∃ m, match_page (document:=document) enq first pagesize cal = Ok m) →
  pagesize ≠ 0%N → (N.of_nat (length ranked) < 2 ^ 32)%N →
  ∀ fuel from handlers, quiet handlers → N.to_nat from <= length ranked → length ranked - N.to_nat from < fuel →
  find_item id (take (N.to_nat from) ranked) = None →
  ∃ handlers', fromdoc_loop (document:=document) fuel enq id pagesize off cal from handlers = (handlers', fromdoc_answer id off ranked) ∧ quiet handlers'.
Proof.
  intros Hone Hok Hps Hr. induction fuel as [|fuel IH]; intros from handlers Hq Hfrom Hfuel Hnot; [lia|].
  cbn [fromdoc_loop]. destruct (Hok from) as [m Hm]. destruct (get_mset_quiet enq from pagesize cal m handlers Hq Hm) as (hs & Hs & Hqs).
  unfold mbind, M_bind. rewrite Hs. pose proof (Hone _ _ _ _ Hm) as Hpage.
  assert (Hsplit : find_item id ranked = (λ i, N.to_nat from + i) <$> find_item id (drop (N.to_nat from) ranked)).
  { rewrite <-(take_drop (N.to_nat from) ranked) at 1. rewrite find_item_app, Hnot, length_take_le by done. done. }
  assert (Hdrop : find_item id (drop (N.to_nat from) ranked) = match find_item id (ms_items m) with Some i => Some i | None =>
    (λ i, length (ms_items m) + i) <$> find_item id (drop (N.to_nat pagesize) (drop (N.to_nat from) ranked)) end).
  { rewrite Hpage, <-find_item_app. by rewrite take_drop. }
  destruct (find_item id (ms_items m)) as [i|] eqn:Ei.
  - exists hs. split; [|done]. unfold liftM, fromdoc_answer. rewrite Hsplit, Hdrop. cbn [fmap option_fmap option_map].
    apply find_item_lt in Ei as [Hi _]. rewrite Hpage, length_take, length_drop in Hi.
    rewrite wrap32_small by lia. do 3 f_equal. lia.
  - destruct (N.eqb_spec (N.of_nat (length (ms_items m))) pagesize) as [Heq|Hne]; cbn [negb].
    + rewrite Hpage, length_take, length_drop in Heq. rewrite wrap32_small by lia. apply IH; [done|lia..|].
      replace (N.to_nat (from + pagesize)) with (N.to_nat from + N.to_nat pagesize) by lia.
      rewrite <-take_take_drop, find_item_app, Hnot, <-Hpage, Ei. done.
    + exists hs. split; [|done]. unfold throwM, fromdoc_answer. rewrite Hsplit, Hdrop.
      rewrite drop_drop, drop_ge; [done|]. rewrite Hpage, length_take, length_drop in Hne. lia.
Qed.

(** The offset of a search around a document is right, when all the pages of the match
    are parts of one ranking: if the document is in the results, the search starts at its rank, moved by the offset asked for but not before
    the first result, whatever the size of the pages looked through; if it is not among
    the results, that is an error; and the loop ends. *)
Theorem fromdoc_position fuel enq ranked fd id rest cal handlers : one_ranking (document:=document) enq ranked →
  postlist (enq_db enq) (sing (chr 9) +:+ fromdoc_type fd +:+ sing (chr 9) +:+ fromdoc_id fd) = id :: rest →
  fromdoc_pagesize fd ≠ 0%N → (N.of_nat (length ranked) < 2 ^ 32)%N → length ranked < fuel → quiet handlers →
  (∀ first, ∃ m, match_page (document:=document) enq first
     (fromdoc_pagesize fd) cal = Ok m) →
  ∃ handlers' r, calc_fromdoc_offset (document:=document) fuel enq fd cal handlers = (handlers', r) ∧
    ((∃ i, ranked !! i = Some id ∧ r = offset_from (N.of_nat i) (fromdoc_from fd)) ∨
     (id ∉ ranked ∧ r = Throw (InvalidValueError "fromdoc document not present in result set"))).
Proof.
  intros Hone Hp Hps Hr Hfuel Hq Hok. unfold calc_fromdoc_offset. rewrite Hp.
  destruct (fromdoc_loop_finds enq ranked id (fromdoc_pagesize fd) (fromdoc_from fd) cal Hone Hok Hps Hr fuel 0 handlers Hq) as (hs & H & _);
    [lia|lia|done|].
  exists hs, (fromdoc_answer id (fromdoc_from fd) ranked). split; [exact H|]. unfold fromdoc_answer.
  destruct (find_item id ranked) as [i|] eqn:Ei; [left; exists i; by apply find_item_lt in Ei as [_ ?]|right].
  split; [|done]. intros Hin. revert Ei. clear -Hin. induction Hin as [x l|x y l Hin IH]; cbn; [by rewrite N.eqb_refl|].
  destruct (y =? x)%N; [done|]. by destruct (find_item x l).
Qed.

Lemma fromdoc_loop_zero enq id off cal :
  (∀ first, ∃ m, match_page (document:=document) enq first 0 cal = Ok m) →
  ∀ fuel from handlers, quiet handlers → ∃ handlers', fromdoc_loop (document:=document) fuel enq id 0 off cal from handlers = (handlers', OutOfFuel).
Proof.
  intros Hok. induction fuel as [|fuel IH]; intros from handlers Hq; [by exists handlers|]. cbn [fromdoc_loop].
  destruct (Hok from) as [m Hm]. destruct (get_mset_quiet enq from 0 cal m handlers Hq Hm) as (hs & Hs & Hqs).
  unfold mbind, M_bind. rewrite Hs. destruct (page_ranked _ _ _ _ _ Hm) as (ranked & _ & ->). cbn. by apply IH.
Qed.

(** A fault.  A search around a document that asks for pages of size zero never ends,
    whatever the query, as soon as the document exists: an empty page is as long as was
    asked for, so the loop looks for the next one, at the same place. *)
Theorem fromdoc_pagesize_zero_diverges enq fd id rest cal handlers :
  postlist (enq_db enq) (sing (chr 9) +:+ fromdoc_type fd +:+ sing (chr 9) +:+ fromdoc_id fd) = id :: rest →
  fromdoc_pagesize fd = 0%N → quiet handlers →
  (∀ first, ∃ m, match_page (document:=document) enq first 0 cal = Ok m) →
  ∀ fuel, ∃ handlers', calc_fromdoc_offset (document:=document) fuel enq fd cal handlers = (handlers', OutOfFuel).
Proof. intros Hp Hz Hq Hok fuel. unfold calc_fromdoc_offset. rewrite Hp, Hz. by apply fromdoc_loop_zero. Qed.

(** ** The documents of a page *)

Section page.
Context `{XL : !XapianLaws document database}.
Context (sortable_unserialise : string → spec_float) (all_terms : database → list string).
Context (json_unserialise : string → res json) (get_description serialise : Query → string).
Context (w : N) (matches_upper_bound : database → Query → N).

(** What is shown of a document. *)
Definition displayed (fieldlist : json) (x : document) (item : json) : Prop :=
  ∃ docdata, DocumentData_unserialise (payload x).1 ∅ = (docdata, Ok tt) ∧
    DocumentData_to_display json_unserialise docdata fieldlist = Ok item.

(** The documents at distinct positions, with their identifiers. *)
Lemma identified_documents g m (ids' : list N) : views g = contents g → represents g m → NoDup ids' →
  (∀ d, d ∈ ids' → ∃ x, get_document (group_view g) d = Some x) →
  ∃ L, Forall2 (λ d p, get_document (group_view g) d = Some p.2 ∧ ids p.2 = {[p.1]} ∧ m !! p.1 = Some p.2) ids' L ∧ NoDup L.
Proof.
  intros Hv Hm. induction ids' as [|d l IH]; intros Hnd Hex; [exists []; by split; [|constructor]|].
  apply NoDup_cons in Hnd as [Hd Hnd]. destruct IH as (L & HL & HnL); [done|set_solver|].
  destruct (Hex d ltac:(set_solver)) as [x Hx]. pose proof Hx as Hx'. apply (view_docs g d x Hv) in Hx' as (i & d' & -> & Hpos & Hy).
  destruct (rep_ids _ _ Hm i d' x Hy) as (t & Ht & Hmt). exists ((t, x) :: L). split; [by constructor|]. constructor; [|done].
  intros Hin. apply Hd. apply list_elem_of_lookup in Hin as [j Hj]. destruct (Forall2_lookup_r _ _ _ _ _ HL Hj) as (e & He & Hex' & _ & _).
  cbn in Hex'. apply (view_docs g e x Hv) in Hex' as (i2 & d2 & -> & _ & Hy2).
  destruct (rep_once _ _ Hm i d' x i2 d2 x t Hy Hy2) as [-> ->]; [set_solver..|]. by eapply list_elem_of_lookup_2.
Qed.

(** The results are the documents of the group that the query matches, in the order
    that was asked for. *)
Lemma ranking_documents g m enq ranked : enq_db enq = group_view g → views g = contents g → represents g m →
  ranked_by doc_weight enq ranked →
  ∃ L, Forall2 (λ d p, get_document (group_view g) d = Some p.2) ranked L ∧
    L ≡ₚ map_to_list (filter (λ p, matches (enq_query enq) p.2 = true) m) ∧
    StronglySorted (λ p p', in_order (doc_weight (group_view g) (enq_weighting enq) (enq_query enq)) (enq_sorter enq) (enq_order enq) p.2 p'.2) L.
Proof.
  intros Hdb Hv Hm [[Hnd Hin] Hs]. rewrite Hdb in Hs, Hin. destruct (identified_documents g m ranked Hv Hm Hnd) as (L & HL & HndL).
  { intros d (x & Hx & _)%Hin. eauto. }
  exists L. split; [eapply Forall2_impl; [exact HL|]; by intros d p (? & _ & _)|]. split.
  - apply NoDup_Permutation; [done|apply NoDup_map_to_list|]. intros [t x]. rewrite elem_of_map_to_list, map_lookup_filter_Some. split.
    + intros [j Hj]%list_elem_of_lookup. destruct (Forall2_lookup_r _ _ _ _ _ HL Hj) as (d & Hd & Hx & _ & Hmt). split; [done|].
      assert (Hr : d ∈ ranked) by (by eapply list_elem_of_lookup_2). apply Hin in Hr as (y & Hy & Hq). cbn in *. by simplify_eq.
    + intros [Hmt Hq]. destruct (rep_docs _ _ Hm t x Hmt) as (Ht & i & d' & Hy). destruct (at_pos_bounds _ _ _ _ Hy) as [_ Hpos].
      assert (Hx : get_document (group_view g) (group_docid (length (contents g)) i d') = Some x) by (apply view_docs; eauto).
      assert (Hr : group_docid (length (contents g)) i d' ∈ ranked) by (apply Hin; eauto).
      apply list_elem_of_lookup in Hr as [j Hj]. destruct (Forall2_lookup_l _ _ _ _ _ HL Hj) as ([t' x'] & Hj' & Hx' & Ht' & _). cbn in *.
      simplify_eq. rewrite Ht in Ht'. apply singleton_inj in Ht' as <-. by eapply list_elem_of_lookup_2.
  - clear Hnd Hin HndL. induction HL as [|d [t x] ranked L (Hx & _) HL IH]; [constructor|]. apply StronglySorted_inv in Hs as [Hs Hd].
    constructor; [by apply IH|]. clear IH Hs. induction HL as [|e [u y] ranked L (Hy & _) HL IH]; [done|].
    apply Forall_cons in Hd as [He Hd]. apply Forall_cons. split; [|by apply IH]. by apply (He x y).
Qed.

Lemma write_search_fields db fieldlist handlers mset total from size cal verbose results :
  write_search (document:=document) sortable_unserialise all_terms json_unserialise get_description serialise db fieldlist handlers mset
    total from size cal verbose = Ok results →
  json_get results "from" JNull = Ok (JUInt from) ∧ json_get results "size_requested" JNull = Ok (JUInt size) ∧
  ∃ items, json_get results "items" JNull = Ok (JArr items) ∧
    Forall2 (λ id item, ∃ x, get_document db id = Some x ∧ displayed fieldlist x item) (ms_items mset) items.
Proof.
  unfold write_search. intros (r0 & H0 & H)%res_bind_ok. apply res_bind_ok in H as (items & Hi & H).
  assert (Hobj : isObject r0 = true).
  { apply (foldl_res_inv _ (λ v, isObject v = true) _ _ _ H0); [done|]. intros v h v' Hv Hv'.
    destruct h as [[h b]|]; [|by injection Hv' as <-]. unfold InfoHandler_write_results in Hv'.
    apply res_bind_ok in Hv' as (info & _ & Hv'). apply res_bind_ok in Hv' as (r & _ & [= <-]). by destruct v. }
  assert (Hitems : Forall2 (λ id item, ∃ x, get_document db id = Some x ∧ displayed fieldlist x item) (ms_items mset) items).
  { apply mapM_ok_Forall2 in Hi. eapply Forall2_impl; [exact Hi|]. intros id item Hid. unfold show_item in Hid.
    destruct (get_document db id) as [x|]; [|done]. exists x. split; [done|]. unfold displayed.
    destruct (DocumentData_unserialise _ _) as [dd [[]| |]]; [|done..]. by exists dd. }
  clear Hi. destruct r0; try done; destruct verbose; injection H as <-; (split; [|split; [|exists items; split; [|exact Hitems]]]);
    unfold json_get, json_member; cbn [isNull isObject json_type c_str]; cbn -[obj_set]; rewrite ?obj_find_set; repeat (case_decide; try done).
Qed.

(** A search without [fromdoc]. *)
Lemma search_db_page fuel search builder query verbose fieldlist (db : database) results :
  json_index search "fromdoc" = Ok JNull →
  search_db (document:=document) sortable_unserialise all_terms json_unserialise get_description serialise fuel search builder query
    verbose fieldlist db = Ok results →
  ∃ n total size o k ranked items,
    json_get_uint64_member_def search "from" UINT_MAX 0 = Ok n ∧ total_docs builder db = Ok total ∧
    limit_member search "size" total 10 = Ok size ∧ search_order builder search = Ok (o, k) ∧
    json_get results "from" JNull = Ok (JUInt (wrap32 n)) ∧ json_get results "size_requested" JNull = Ok (JUInt size) ∧
    json_get results "items" JNull = Ok (JArr items) ∧ ranked_by doc_weight (mkEnquire db query BOOL_WEIGHT DONT_CARE o k) ranked ∧
    Forall2 (λ id item, ∃ x, get_document db id = Some x ∧ displayed fieldlist x item)
      (take (N.to_nat size) (drop (N.to_nat (wrap32 n)) ranked)) items.
Proof.
  intros Hf. unfold search_db. intros (total & Ht & H)%res_bind_ok. apply res_bind_ok in H as (n & Hn & H).
  apply res_bind_ok in H as (size & Hs & H). unfold read_fromdoc in H. rewrite Hf in H. cbn [mbind res_bind isNull] in H.
  apply res_bind_ok in H as (cal & _ & H). apply res_bind_ok in H as ([handlers cal'] & _ & H).
  apply res_bind_ok in H as ([o k] & Ho & H). unfold mbind, M_bind, mret, M_ret in H.
  destruct (get_mset _ _ _ _ handlers) as [hs [mset|e|]] eqn:Em; [|done..].
  unfold get_mset, mbind, M_bind, liftM in Em. destruct (match_page _ _ _ _) as [mset'|e|] eqn:Ep; [|done..].
  destruct (for_each _ _ handlers) as [hs' [[]| |]]; try done. injection Em as _ <-.
  apply page_ranked in Ep as (ranked & Hr & Ep). apply write_search_fields in H as (H1 & H2 & items & H3 & H4). rewrite Ep in H4.
  exists n, total, size, o, k, ranked, items. by split_and!.
Qed.

(** C13: a search of a group whose documents have one identifier each and whose combined
    database, if it is built, shows them ([fresh]), and without [fromdoc], returns the
    documents it selects: its items show the documents of the group that the query matches,
    from the one asked for on, as many as asked for and nothing else, ranked by the keys of
    the fields and by the weight as [order_by] asks (documents that these do not tell apart
    come in any order, which need not be that of another page); and in a search of a whole
    collection the query matches exactly the documents that the query tree selects. *)
Theorem search_selected `{QML : !QueryMatchLaws document database} (c c' : @Collection database) m fuel search type results :
  group_ok (group c) → fresh (group c) → represents (group c) m → json_index search "fromdoc" = Ok JNull →
  perform_search (document:=document) sortable_unserialise all_terms json_unserialise get_description serialise w matches_upper_bound
    fuel search type c = (c', Ok results) →
  represents (group c') m ∧
  ∃ verbose fieldlist q n size o k ranked items,
    search_query (document:=document) w matches_upper_bound (config c) search type = Ok (verbose, fieldlist, q) ∧
    search_order (new_builder (document:=document) w matches_upper_bound (config c) type) search = Ok (o, k) ∧
    ranked ≡ₚ map_to_list (filter (λ p, matches q p.2 = true) m) ∧
    StronglySorted (λ p p', in_order (doc_weight (group_view (group c')) BOOL_WEIGHT q) k o p.2 p'.2) ranked ∧
    json_get_uint64_member_def search "from" UINT_MAX 0 = Ok n ∧ json_get results "from" JNull = Ok (JUInt (wrap32 n)) ∧
    json_get results "size_requested" JNull = Ok (JUInt size) ∧ json_get results "items" JNull = Ok (JArr items) ∧
    Forall2 (λ p item, displayed fieldlist p.2 item) (take (N.to_nat size) (drop (N.to_nat (wrap32 n)) ranked)) items ∧
    (type = "" → ∀ query x, json_index search "query" = Ok query →
      selects (CollectionQueryBuilder_field_query (document:=document) w (config c)) (meta_field (config c)) x query (matches q x)).
Proof.
  intros Hg Hfr Hm Hfd. unfold perform_search, mbind, M_bind, getM. destruct (is_open (control (group c))) eqn:Ho; [|done]. cbn [negb].
  destruct (search_query _ _ _ _ _) as [[[verbose fieldlist] q]| |] eqn:Eq; [|done..]. unfold liftM, on_group.
  destruct (init_group_db_ok (group c)) as (g' & Hi & Hro & _ & Hv); [done..|]. rewrite Hi. cbn [group config]. intros H.
  assert (Hm' : represents g' m) by (eapply represents_same; [by apply Hro|done]).
  injection H as <- H. split; [done|]. apply search_db_page in H as (n & total & size & o & k & rk & items & H1 & _ & _ & Ho' & H2 & H3 & H4 & Hrk & H5); [|done].
  destruct (ranking_documents g' m (mkEnquire _ q _ _ o k) rk eq_refl Hv Hm' Hrk) as (L & HL & Hp & Hsort).
  exists verbose, fieldlist, q, n, size, o, k, L, items. split_and!; try done.
  - apply (Forall2_drop _ _ _ (N.to_nat (wrap32 n))), (Forall2_take _ _ _ (N.to_nat size)) in HL. apply Forall2_same_length_lookup. split.
    { by rewrite <-(Forall2_length _ _ _ HL), (Forall2_length _ _ _ H5). }
    intros i p item Hip Hii. destruct (Forall2_lookup_r _ _ _ _ _ HL Hip) as (d & Hd & Hx).
    pose proof (Forall2_lookup_lr _ _ _ _ _ _ H5 Hd Hii) as (x & Hx' & Hdisp). cbn in *. by simplify_eq.
  - intros -> query x Hquery. unfold search_query in Eq. apply res_bind_ok in Eq as (vb & _ & Eq). apply res_bind_ok in Eq as (fl & _ & Eq).
    apply res_bind_ok in Eq as (u & _ & Eq). rewrite Hquery in Eq. cbn [mbind res_bind] in Eq. apply res_bind_ok in Eq as (q' & Hq' & [= <- <- <-]).
    unfold new_builder in Hq'. rewrite decide_True in Hq' by done. cbn in Hq'. eapply build_at_answers; [reflexivity|]. by exists q'.
Qed.

(** *** What the spies see *)

Lemma term_call_seen (doc : document) s : ts_doc_limit (term_spy_call doc s) = ts_doc_limit s ∧
  ts_docs_seen (term_spy_call doc s) = if (ts_doc_limit s <=? ts_docs_seen s)%N then ts_docs_seen s else wrap32 (ts_docs_seen s + 1).
Proof.
  unfold term_spy_call, TermOccurMatchSpy_call, TermCoOccurMatchSpy_call. destruct (_ <=? _)%N; [by destruct (ts_cooccur s)|].
  set (g := λ s, (ts_doc_limit s, ts_docs_seen s)).
  enough (H : ∀ s', g s' = g (term_doc_seen s) → ts_doc_limit s' = ts_doc_limit s ∧ ts_docs_seen s' = wrap32 (ts_docs_seen s + 1)).
  { apply H. destruct (ts_cooccur s); [|by apply (foldl_keeps g)].
    assert (H4 : ∀ l s0, g (count_pairs l s0) = g s0).
    { induction l as [|x l IH]; intros s0; [done|]. cbn [count_pairs]. rewrite IH. by apply (foldl_keeps g). }
    rewrite H4. by apply (foldl_keeps g). }
  intros s' [= -> ->]. done.
Qed.

Lemma term_calls_seen (docs : list document) s : (ts_docs_seen s + N.of_nat (length docs) < 2 ^ 32)%N → (ts_docs_seen s <= ts_doc_limit s)%N →
  let s' := foldl (λ s doc, term_spy_call doc s) s docs in
  ts_docs_seen s' = N.min (ts_doc_limit s) (ts_docs_seen s + N.of_nat (length docs)).
Proof.
  revert s. induction docs as [|doc docs IH]; intros s Hb Hle; cbn [foldl length] in *; [lia|].
  destruct (term_call_seen doc s) as [Hl Hs]. destruct (N.leb_spec (ts_doc_limit s) (ts_docs_seen s)).
  - rewrite IH, Hl, Hs by (rewrite ?Hl, ?Hs; lia). lia.
  - rewrite wrap32_small in Hs by lia. rewrite IH, Hl, Hs by (rewrite ?Hl, ?Hs; lia). lia.
Qed.

Lemma show_occur (docs : list document) s : for_each docs show_doc [Some (OccurInfo s, true)] =
  ([Some (OccurInfo (foldl (λ s doc, term_spy_call doc s) s docs), true)], Ok ()).
Proof. revert s. induction docs as [|doc docs IH]; intros s; [done|]. cbn [for_each foldl]. unfold mbind, M_bind. cbn. apply IH. Qed.

Lemma spy_result_docs_seen (db : database) s :
  json_get (term_spy_get_result all_terms db s) "docs_seen" JNull = Ok (JUInt (ts_docs_seen s)).
Proof. unfold term_spy_get_result. by destruct (ts_cooccur s). Qed.

Lemma write_search_info (db : database) fieldlist s mset total from size cal verbose results :
  write_search (document:=document) sortable_unserialise all_terms json_unserialise get_description serialise db fieldlist
    [Some (OccurInfo s, true)] mset total from size cal verbose = Ok results →
  json_get results "info" JNull = Ok (JArr [term_spy_get_result all_terms db s]).
Proof.
  unfold write_search. cbn [InfoHandlers_write_results foldl mbind res_bind InfoHandler_write_results json_get json_member InfoHandler_get_result].
  intros (items & _ & H)%res_bind_ok. destruct verbose; injection H as <-; unfold json_get, json_member; cbn -[obj_set]; rewrite ?obj_find_set; repeat (case_decide; try done).
Qed.

Lemma new_occur_spy cooccur params (db : database) cal doc_limit result_limit h b cal' :
  item_limits params db = Ok (doc_limit, result_limit) → new_OccurInfoHandler cooccur params db cal = Ok (h, b, cal') →
  ∃ s, h = OccurInfo s ∧ b = true ∧ ts_docs_seen s = 0%N ∧ ts_doc_limit s = doc_limit ∧ (doc_limit <= cal')%N.
Proof.
  intros Hlim. unfold new_OccurInfoHandler. intros (g & _ & H)%res_bind_ok. apply res_bind_ok in H as (p & _ & H).
  rewrite Hlim in H. cbn [mbind res_bind] in H. apply res_bind_ok in H as (tf & _ & H). apply res_bind_ok in H as (sw & _ & H).
  apply res_bind_ok in H as (s & Hs & [= <- <- <-]). exists s. split_and!; [done..| | |lia]; unfold add_stopwords in Hs;
    (destruct (isNull sw); [by injection Hs as <-|]; apply res_bind_ok in Hs as (u & _ & Hs)).
  - apply (foldl_res_inv _ (λ s, ts_docs_seen s = 0%N) _ _ _ Hs); [done|]. clear. intros s x s' <- H.
    apply res_bind_ok in H as (u & _ & H). by apply res_bind_ok in H as (word & _ & [= <-]).
  - apply (foldl_res_inv _ (λ s, ts_doc_limit s = doc_limit) _ _ _ Hs); [done|]. clear. intros s x s' <- H.
    apply res_bind_ok in H as (u & _ & H). by apply res_bind_ok in H as (word & _ & [= <-]).
Qed.

Lemma add_one_handler search builder (db : database) cooccur params cal doc_limit result_limit handlers cal' :
  json_get search "info" JNull = Ok (JArr [JObj [(if cooccur : bool then "cooccur" else "occur", params)]]) →
  item_limits params db = Ok (doc_limit, result_limit) → add_info_handlers search builder db cal = Ok (handlers, cal') →
  ∃ s, handlers = [Some (OccurInfo s, true)] ∧ ts_docs_seen s = 0%N ∧ ts_doc_limit s = doc_limit ∧ (doc_limit <= cal')%N.
Proof.
  intros Hinfo Hlim. unfold add_info_handlers, json_index. rewrite Hinfo. intros H.
  assert (Hm : isMember search "info" = true).
  { unfold json_get in Hinfo. unfold isMember. apply res_bind_ok in Hinfo as (o & -> & Ho). by destruct o. }
  rewrite Hm in H. cbn in H.
  assert (Hn : ∃ h b, new_OccurInfoHandler cooccur params db cal = Ok (h, b, cal') ∧ handlers = [Some (h, b)]).
  { assert (Hp : json_index (JObj [(if cooccur then "cooccur" else "occur", params)]) (if cooccur then "cooccur" else "occur") = Ok params) by by destruct cooccur.
    unfold add_handler, add_member in H. rewrite !isMember_single in H by done.
    change (negb (json_size _ =? 1)%N) with false in H. cbn [mbind res_bind] in H.
    destruct cooccur.
    - change (bool_decide ("cooccur" = "occur")) with false in H. change (bool_decide ("cooccur" = "cooccur")) with true in H.
      change (bool_decide ("cooccur" = "facet_count")) with false in H. rewrite Hp in H. cbn -[new_OccurInfoHandler] in H.
      destruct (new_OccurInfoHandler _ params db cal) as [[[h b] cal1]| |]; [|done..]. injection H as <- <-. by exists h, b.
    - change (bool_decide ("occur" = "occur")) with true in H. change (bool_decide ("occur" = "cooccur")) with false in H.
      change (bool_decide ("occur" = "facet_count")) with false in H. rewrite Hp in H. cbn -[new_OccurInfoHandler] in H.
      destruct (new_OccurInfoHandler _ params db cal) as [[[h b] cal1]| |]; [|done..]. injection H as <- <-. by exists h, b. }
  destruct Hn as (h & b & Hn & ->). destruct (new_occur_spy _ _ _ _ _ _ _ _ _ Hlim Hn) as (s & -> & -> & Hs). by exists s.
Qed.

(** An info item sees enough documents: in a search without [fromdoc], a count of
    terms or of pairs of terms looks at exactly as many documents as its limit, or at all
    the matching documents if there are fewer, however few results are asked for. *)
Theorem info_sees_enough fuel search builder query verbose fieldlist (db : database) found results cooccur params doc_limit result_limit :
  json_index search "fromdoc" = Ok JNull →
  json_get search "info" JNull = Ok (JArr [JObj [(if cooccur : bool then "cooccur" else "occur", params)]]) →
  item_limits params db = Ok (doc_limit, result_limit) → matching (document:=document) db query found → (N.of_nat (length found) < 2 ^ 32)%N →
  search_db (document:=document) sortable_unserialise all_terms json_unserialise get_description serialise fuel search builder query
    verbose fieldlist db = Ok results →
  ∃ r, json_get results "info" JNull = Ok (JArr [r]) ∧
    json_get r "docs_seen" JNull = Ok (JUInt (N.min doc_limit (N.of_nat (length found)))).
Proof.
  intros Hf Hinfo Hlim Hfound Hr. unfold search_db. intros (total & _ & H)%res_bind_ok. apply res_bind_ok in H as (n & _ & H).
  apply res_bind_ok in H as (size & _ & H). unfold read_fromdoc in H. rewrite Hf in H. cbn [mbind res_bind isNull] in H.
  apply res_bind_ok in H as (cal & _ & H). apply res_bind_ok in H as ([handlers cal'] & Hh & H). apply res_bind_ok in H as ([o k] & _ & H).
  assert (Hspy : ∃ s, handlers = [Some (OccurInfo s, true)] ∧ ts_docs_seen s = 0%N ∧ ts_doc_limit s = doc_limit ∧ (doc_limit <= cal')%N)
    by by eapply add_one_handler.
  destruct Hspy as (s & -> & Hs0 & Hsl & Hcal). unfold mbind, M_bind, mret, M_ret in H.
  unfold get_mset, mbind, M_bind, liftM in H. destruct (match_page _ _ _ _) as [mset|e|] eqn:Ep; [|done..].
  rewrite show_occur in H. apply (shown_matches _ _ _ _ _ found) in Ep as (ids' & Hsub & Hall & Hlen); [|done].
  apply write_search_info in H. eexists. split; [exact H|]. rewrite spy_result_docs_seen. do 2 f_equal.
  apply submseteq_length in Hsub. apply Forall2_length in Hall. rewrite term_calls_seen, Hs0, Hsl by (rewrite ?Hs0, ?Hsl; lia). lia.
Qed.

End page.
End search.

(** ** A concrete match *)

Definition ref_found (db : refdb) (q : Query) (d : N) : bool :=
  match ref_get db d with Some x => ref_matches q x | None => false end.

(** No document weighs anything; the key of one that is ordered by relevance alone is empty. *)
Definition ref_key (o : sort_order) (k : MultiValueKeyMaker) (x : refdoc) : res string :=
  if decide (o = BY_RELEVANCE) then Ok "" else MultiValueKeyMaker_key 1 k x.

Definition ref_before (a b : string * N) : Prop := str_lt a.1 b.1 ∨ a.1 = b.1 ∧ (a.2 <= b.2)%N.
#[local] Instance ref_before_dec a b : Decision (ref_before a b).
Proof. unfold ref_before. apply _. Defined.
#[local] Instance ref_before_trans : Transitive ref_before.
Proof.
  intros [s d] [t e] [u f] [H1|[H1 ?]] [H2|[H2 ?]]; unfold ref_before; cbn in *; subst; auto.
  - left. by etrans.
  - right. split; [done|lia].
Qed.
#[local] Instance ref_before_total : Total ref_before.
Proof.
  intros [s d] [t e]. unfold ref_before. cbn. destruct (str_lt_trichotomy s t) as [?|[->|?]]; auto.
  destruct (N.le_ge_cases d e); auto.
Qed.

(** The matching documents with their keys, in order. *)
Definition ref_keyed (enq : @Enquire refdb) : res (list (string * N)) :=
  keyed ← mapM (λ d, match ref_get (enq_db enq) d with
                     | Some x => s ← ref_key (enq_order enq) (enq_sorter enq) x; Ok (s, d)
                     | None => Ok ("", d) end)
    (filter (λ d, ref_found (enq_db enq) (enq_query enq) d = true) (elements (dom (rdocs (enq_db enq)))));
  Ok (merge_sort ref_before keyed).

(** As many are shown as any limit asks for. *)
#[local] Instance ref_Matcher : Matcher refdoc refdb := λ enq first n cal,
  keyed ← ref_keyed enq;
  let r := keyed.*2 in
  let total := N.of_nat (length r) in
  Ok (mkMSet (take (N.to_nat n) (drop (N.to_nat first) r)) (omap (ref_get (enq_db enq)) (take (N.to_nat (N.max cal (first + n))) r)) total total total).

Lemma ref_found_spec db q d : ref_found db q d = true ↔ ∃ x, get_document db d = Some x ∧ ref_matches q x = true.
Proof.
  unfold ref_found. cbn. split; [destruct (ref_get db d) as [x|]; [by exists x|done]|]. by intros (x & -> & Hx).
Qed.

Lemma ref_keyed_spec enq keyed : ref_keyed enq = Ok keyed →
  matching (enq_db enq) (enq_query enq) keyed.*2 ∧ StronglySorted ref_before keyed ∧
  ∀ p x, p ∈ keyed → get_document (enq_db enq) p.2 = Some x → ref_key (enq_order enq) (enq_sorter enq) x = Ok p.1.
Proof.
  unfold ref_keyed. intros (l & Hl & [= <-])%res_bind_ok. apply mapM_ok_Forall2 in Hl.
  set (found := filter _ _) in Hl.
  assert (Hsnd : l.*2 = found).
  { clear -Hl. induction Hl as [|d p ds l Hp Hl IH]; [done|]. cbn. rewrite IH. f_equal.
    destruct (ref_get _ d) as [x|]; [|by injection Hp as <-]. by apply res_bind_ok in Hp as (s & _ & [= <-]). }
  assert (Hperm : (merge_sort ref_before l).*2 ≡ₚ found) by (by rewrite merge_sort_Permutation, Hsnd).
  split_and!.
  - split; [rewrite Hperm; apply NoDup_filter, NoDup_elements|]. intros d. rewrite Hperm. unfold found.
    rewrite list_elem_of_filter, elem_of_elements, elem_of_dom, ref_found_spec. split; [by intros [? _]|]. intros (x & Hx & Hq).
    split; [by exists x|]. cbn in Hx. unfold ref_get in Hx. case_decide; [done|]. by rewrite Hx.
  - apply (StronglySorted_merge_sort ref_before).
  - intros p x Hp Hx. rewrite merge_sort_Permutation in Hp. apply list_elem_of_lookup in Hp as [i Hi].
    destruct (Forall2_lookup_r _ _ _ _ _ Hl Hi) as (d & _ & Hd). cbn in Hx. destruct (ref_get _ d) as [y|] eqn:Ey.
    + apply res_bind_ok in Hd as (s & Hs & [= <-]). cbn in Hx. by simplify_eq.
    + injection Hd as <-. cbn in Hx. by rewrite Ey in Hx.
Qed.

Lemma ref_before_order o k (x y : refdoc) s t (d e : N) : d ≠ e →
  ref_key o k x = Ok s → ref_key o k y = Ok t → ref_before (s, d) (t, e) →
  in_order (λ _, 0%Qc) k o x y ∧ (tied (λ _, 0%Qc) k o x y → (d < e)%N).
Proof.
  unfold ref_key, ref_before. cbn. intros Hne Hs Ht Hb.
  assert (Hk : o ≠ BY_RELEVANCE → (∀ s', key_of k x s' → s' = s) ∧ (∀ t', key_of k y t' → t' = t)).
  { intros Ho. rewrite decide_False in Hs, Ht by done. split; intros u [fuel Hu]; apply key_fuel in Hu; congruence. }
  assert (Hle : String.le s t) by (destruct Hb as [Hb|[-> _]]; [by apply str_lt_spec|reflexivity]).
  split.
  - destruct o; cbn; try (destruct Hk as [Hx Hy]; [done|]).
    + apply Qcle_refl.
    + intros s' t' ->%Hx ->%Hy. done.
    + right. split; [done|]. intros s' t' ->%Hx ->%Hy. done.
    + intros s' t' ->%Hx ->%Hy. destruct Hb as [?|[? _]]; [by left|right]. split; [done|apply Qcle_refl].
  - intros [_ Htie]. destruct Hb as [Hb|[_ ?]]; [|lia]. exfalso. destruct (decide (o = BY_RELEVANCE)) as [->|Ho].
    + injection Hs as <-. injection Ht as <-. by apply str_lt_nil_r in Hb.
    + destruct Htie as [?|(u & Hu1 & Hu2)]; [done|]. destruct (Hk Ho) as [Hx Hy]. rewrite <-(Hx u Hu1), <-(Hy u Hu2) in Hb.
      exact (irreflexivity str_lt u Hb).
Qed.

Lemma ref_ranked enq keyed : ref_keyed enq = Ok keyed → ranked_by (λ _ _ _ _, 0%Qc) enq keyed.*2.
Proof.
  intros (Hm & Hs & Hk)%ref_keyed_spec. split; [done|]. destruct Hm as [Hnd _]. induction Hs as [|[s d] keyed Hs IH Hd]; [constructor|].
  cbn [fmap list_fmap] in *. apply NoDup_cons in Hnd as [Hd' Hnd]. constructor; [apply IH; [done|]; intros p x Hp; apply Hk; by right|].
  apply Forall_fmap, Forall_forall. intros [t e] Hin x y Hx Hy. eapply Forall_forall in Hd; [|done]. cbn in *.
  destruct (ref_before_order (enq_order enq) (enq_sorter enq) x y s t d e) as [H1 H2]; [|by apply (Hk (s, d)); [left|]|by apply (Hk (t, e)); [right|]|done|].
  - intros ->. apply Hd'. by apply (list_elem_of_fmap_2 snd _ _ Hin).
  - split; [done|auto].
Qed.

#[local] Instance ref_MatcherLaws : MatcherLaws refdoc refdb.
Proof.
  apply (Build_MatcherLaws _ _ _ _ _ _ (λ _ _ _ _, 0%Qc)).
  - intros enq first n cal m (keyed & Hk & [= <-])%res_bind_ok. exists keyed.*2. split; [by apply ref_ranked|done].
  - intros enq first n cal m found (keyed & Hk & [= <-])%res_bind_ok Hf. cbn [ms_shown]. apply ref_keyed_spec in Hk as (Hm & _ & _).
    assert (Hp : keyed.*2 ≡ₚ found) by (destruct Hm, Hf; apply NoDup_Permutation; set_solver).
    set (r := keyed.*2) in *. exists (take (N.to_nat (N.max cal (first + n))) r). rewrite <-Hp.
    split_and!; [apply sublist_submseteq, sublist_take| |rewrite length_take; lia].
    assert (H : ∀ d, d ∈ r → ∃ x, ref_get (enq_db enq) d = Some x) by (intros d (x & Hx & _)%Hm; by exists x).
    revert H. generalize r (N.to_nat (N.max cal (first + n))). clear. induction r as [|d r IH]; intros [|n] H; cbn; try constructor.
    destruct (H d ltac:(set_solver)) as [x Hx]. rewrite Hx. constructor; [done|]. apply IH. set_solver.
Defined.

(** *** Two documents *)

Definition doc_term (id : string) : string := sing (chr 9) +:+ "t" +:+ sing (chr 9) +:+ id.
Definition page_doc (id value : string) : refdoc :=
  Refdoc {[doc_term id; "x" +:+ value]} (DocumentData_serialise {["value" := value]}, ∅).

Definition add_page (id value : string) (g : @DbGroup refdb) : @DbGroup refdb :=
  (DbGroup_add_doc ref_write (λ _, true) (page_doc id value) (doc_term id) g).1.
Definition pages_group : @DbGroup refdb := add_page "2" "b" (add_page "1" "a" empty_group).
Definition pages : gmap string refdoc := <[doc_term "2" := page_doc "2" "b"]> (<[doc_term "1" := page_doc "1" "a"]> ∅).
Definition pages_coll : @Collection refdb := mkColl pages_group default_config.

Definition a_search (members : list (string * json)) : json :=
  foldl (λ v '(k, x), json_set v k x) (JObj [("info", JArr [JObj [("occur", JObj [("doc_limit", JUInt 100); ("prefix", JStr "x")])]]); ("query", JObj [("matchall", JBool true)])]) members.

#[local] Existing Instance ref_QueryLib.
#[local] Existing Instance merge_StdSort.

Definition run_search (fuel : nat) (search : json) : res json :=
  (perform_search (λ _, S754_zero false) ref_all_terms (λ s, Ok (JStr s)) (λ _, "") (λ _, "") 64 (λ _ _, 0%N) fuel search "" pages_coll).2.

Lemma doc_term_ids id value : ids (page_doc id value) = {[doc_term id]}.
Proof.
  apply set_eq. intros t. unfold ids. rewrite elem_of_filter. cbn. split; [|set_solver].
  intros [Ht [->%elem_of_singleton| ->%elem_of_singleton]%elem_of_union]; [set_solver|]. vm_compute in Ht. discriminate Ht.
Qed.

Lemma pages_group_ok : group_ok pages_group ∧ is_open (control pages_group) = true ∧ fresh pages_group ∧ represents pages_group pages.
Proof.
  destruct empty_group_ok as (Hg & Hw & Hm & _). unfold pages_group, add_page.
  destruct (add_doc_represents ref_write (λ _, true) (λ _, eq_refl) empty_group ∅ (doc_term "1") (page_doc "1" "a") Hg Hw eq_refl Hm
    (doc_term_ids "1" "a")) as (g1 & E1 & Hg1 & Hw1 & Hm1).
  assert (Hn : (next_fragnum g1 + 2 < 2 ^ 32)%N).
  { replace g1 with (DbGroup_add_doc ref_write (λ _, true) (page_doc "1" "a") (doc_term "1") empty_group).1 by by rewrite E1. by vm_compute. }
  destruct (add_doc_represents ref_write (λ _, true) (λ _, eq_refl) g1 _ (doc_term "2") (page_doc "2" "b") Hg1 Hw1 Hn Hm1
    (doc_term_ids "2" "b")) as (g2 & E2 & Hg2 & Hw2 & Hm2).
  assert (Hv : group_db_valid (add_page "2" "b" (add_page "1" "a" empty_group)) = false) by (vm_compute; reflexivity).
  unfold add_page in Hv. rewrite E1 in *. cbn [fst] in *. rewrite E2 in *. cbn [fst] in *.
  split_and!; [done|by unfold is_open; rewrite Hw2| |done]. intros Hf. by rewrite Hf in Hv.
Qed.

Definition page_two : json := a_search [("from", JUInt 1); ("size", JInt 1)].

Lemma search_selected_witness : ∃ results,
  json_index page_two "fromdoc" = Ok JNull ∧ run_search 5 page_two = Ok results ∧
  ∃ fieldlist q n size ranked items,
    ranked ≡ₚ map_to_list (filter (λ p, matches q p.2 = true) pages) ∧
    json_get_uint64_member_def page_two "from" UINT_MAX 0 = Ok n ∧
    json_get results "items" JNull = Ok (JArr items) ∧
    Forall2 (λ p item, displayed (λ s, Ok (JStr s)) fieldlist p.2 item) (take (N.to_nat size) (drop (N.to_nat (wrap32 n)) ranked)) items.
Proof.
  destruct pages_group_ok as (Hg & _ & Hf & Hm). assert (Hfd : json_index page_two "fromdoc" = Ok JNull) by (vm_compute; reflexivity).
  assert (Hr : ∃ r, run_search 5 page_two = Ok r) by (eexists; vm_compute; reflexivity). destruct Hr as [results Hr].
  exists results. split; [exact Hfd|]. split; [exact Hr|]. unfold run_search in Hr.
  destruct (perform_search _ _ _ _ _ _ _ 5 page_two "" pages_coll) as [c' r] eqn:E. cbn [snd] in Hr. subst r.
  destruct (search_selected (λ _, S754_zero false) ref_all_terms (λ s, Ok (JStr s)) (λ _, "") (λ _, "") 64 (λ _ _, 0%N) pages_coll c' pages 5
    page_two "" results Hg Hf Hm Hfd E) as (_ & vb & fl & q & n & size & o & k & ranked & items & _ & _ & H1 & _ & H2 & _ & _ & H3 & H4 & _).
  exists fl, q, n, size, ranked, items. split; [exact H1|]. split; [exact H2|]. split; [exact H3|exact H4].
Defined.

(** *** Around a document *)

Definition pages_enq : Enquire := set_weighting_scheme BOOL_WEIGHT (new_Enquire (mkRefdb {[1%N := page_doc "1" "a"; 2%N := page_doc "2" "b"]} ∅) MatchAll).
Definition around (members : list (string * json)) : json :=
  a_search [("fromdoc", foldl (λ v '(k, x), json_set v k x) (JObj [("id", JStr "2"); ("type", JStr "t")]) members)].

Lemma pages_one_ranking : one_ranking (document:=refdoc) pages_enq [1%N; 2%N].
Proof.
  intros first n cal m H. unfold match_page, ref_Matcher in H.
  assert (Hk : ref_keyed pages_enq = Ok [("", 1%N); ("", 2%N)]) by (vm_compute; reflexivity). rewrite Hk in H. by injection H as <-.
Qed.

Lemma fromdoc_position_witness :
  read_fromdoc (document:=refdoc) (around [("from", JInt (-1)); ("pagesize", JInt 1)]) 0 = Ok (Some (mkFromDoc "t" "2" (-1) 1)) ∧
  ∃ handlers' r, calc_fromdoc_offset (document:=refdoc) 3 pages_enq (mkFromDoc "t" "2" (-1) 1) 0 [] = (handlers', r) ∧
    ((∃ i, [1%N; 2%N] !! i = Some 2%N ∧ r = offset_from (N.of_nat i) (-1)) ∨
     (2%N ∉ [1%N; 2%N] ∧ r = Throw (InvalidValueError "fromdoc document not present in result set"))).
Proof.
  split; [vm_compute; reflexivity|].
  refine (fromdoc_position (document:=refdoc) 3 pages_enq [1%N; 2%N] (mkFromDoc "t" "2" (-1) 1) 2 [] 0 [] pages_one_ranking _ _ _ _ _ _);
    [vm_compute; reflexivity|done|vm_compute; reflexivity|vm_compute; lia|by apply Forall_nil|intros first; eexists; vm_compute; reflexivity].
Defined.

Lemma fromdoc_pagesize_zero_diverges_witness :
  read_fromdoc (document:=refdoc) (around [("pagesize", JInt 0)]) 0 = Ok (Some (mkFromDoc "t" "2" 0 0)) ∧
  ∀ fuel, ∃ handlers', calc_fromdoc_offset (document:=refdoc) fuel pages_enq (mkFromDoc "t" "2" 0 0) 0 [] = (handlers', OutOfFuel).
Proof.
  split; [vm_compute; reflexivity|].
  refine (fromdoc_pagesize_zero_diverges (document:=refdoc) pages_enq (mkFromDoc "t" "2" 0 0) 2 [] 0 [] _ _ _ _);
    [vm_compute; reflexivity|done|by apply Forall_nil|intros first; eexists; reflexivity].
Defined.

(** *** What the spies count *)

Definition docs_seen_in (r : res json) : res json :=
  results ← r; info ← json_get results "info" JNull; json_get (json_at info 0) "docs_seen" JNull.

Definition run_db : res json :=
  search_db (λ _, S754_zero false) ref_all_terms (λ s, Ok (JStr s)) (λ _, "") (λ _, "") 0 page_two
    (new_builder (document:=refdoc) 64 (λ _ _, 0%N) default_config "") MatchAll false JNull (enq_db pages_enq).

Lemma pages_matching : matching (document:=refdoc) (enq_db pages_enq) MatchAll [1%N; 2%N].
Proof.
  assert (Hk : ref_keyed pages_enq = Ok [("", 1%N); ("", 2%N)]) by (vm_compute; reflexivity). by apply ref_keyed_spec in Hk as [Hm _].
Qed.

Lemma info_sees_enough_witness : ∃ results r, run_db = Ok results ∧
  json_get results "info" JNull = Ok (JArr [r]) ∧ json_get r "docs_seen" JNull = Ok (JUInt (N.min 100 2)).
Proof.
  assert (H : ∃ results, run_db = Ok results) by (eexists; vm_compute; reflexivity). destruct H as [results H]. exists results.
  destruct (info_sees_enough (document:=refdoc) (λ _, S754_zero false) ref_all_terms (λ s, Ok (JStr s)) (λ _, "") (λ _, "")
    0 page_two (new_builder 64 (λ _ _, 0%N) default_config "") MatchAll false JNull (enq_db pages_enq) [1%N; 2%N] results false
    (JObj [("doc_limit", JUInt 100); ("prefix", JStr "x")]) 100 UINT_MAX) as (r & H1 & H2);
    [vm_compute; reflexivity..|exact pages_matching|vm_compute; reflexivity|exact H|]. exists r. split; [exact H|]. split; [exact H1|exact H2].
Defined.

(** A fault.  The page that holds the document is looked for with the spies already added
    to the match, which see its documents then and again when the results are fetched: of
    two documents, four are counted. *)
Theorem fromdoc_counts_twice :
  size pages = 2 ∧ docs_seen_in (run_search 5 (a_search [])) = Ok (JUInt 2) ∧
  docs_seen_in (run_search 5 (around [])) = Ok (JUInt 4).
Proof. split_and!; vm_compute; reflexivity. Qed.
