(* ===== verification/CategoryUpdates.v ===== *)
(** * Changing the taxonomies of a collection

    Every operation on the categories of a collection leaves its documents in step with
    its taxonomies, provided the combined database shows the fragments as they are; and
    what happens when it does not. *)

From S2P Require Import Prelude Json TextUtils Taxonomy TaxonomyClosure TaxonomyFacts TaxonomyOps TaxonomyCut.
From S2P Require Import TaxonomyThms Hashing Schema CollConfig XapianDb DbGroup DbGroupThms Collection CollectionThms.

(** ** Operations on categories *)

Inductive category_op :=
| CatAdd (cat_name : string)
| CatRemove (cat_name : string)
| CatAddParent (child_name parent_name : string)
| CatRemoveParent (child_name parent_name : string).

Definition taxonomy_op (o : category_op) : M tstate () :=
  match o with
  | CatAdd n => Taxonomy_add n
  | CatRemove n => Taxonomy_remove n
  | CatAddParent n p => Taxonomy_add_parent n p
  | CatRemoveParent n p => Taxonomy_remove_parent n p
  end.

(** An operation returns or throws, the latter without effect; it keeps the hierarchy
    well-formed and reports what it changes; adding a category changes no other one. *)
Lemma taxonomy_op_spec o t : wf (cats t) →
  (∃ t', taxonomy_op o t = (t', Ok ()) ∧ wf (cats t') ∧ ∀ n, cats t !! n ≠ cats t' !! n → n ∈ modified t') ∨
  (∃ e, taxonomy_op o t = (t, Throw (InvalidValueError e))).
Proof.
  intros Hwf.
  assert (Htr : tracked t (taxonomy_op o t).1).
  { destruct o; [apply add_tracked|apply remove_tracked|apply add_parent_tracked|apply remove_parent_tracked]. }
  assert (Hwf' : wf (cats (taxonomy_op o t).1)).
  { destruct o; [by apply add_wf|by apply remove_wf|by apply add_parent_wf|by apply remove_parent_wf]. }
  destruct (Htr (wf_name _ Hwf)) as (_ & _ & Hmod).
  assert (Hok : (taxonomy_op o t).2 = Ok () ∨ ∃ e, taxonomy_op o t = (t, Throw (InvalidValueError e))).
  { destruct o as [n|n|n p|n p]; cbn [taxonomy_op].
    - left. by destruct (add_core n t Hwf) as (? & -> & _).
    - left. destruct (cats t !! n) eqn:E; [by destruct (remove_core n t Hwf) as (? & -> & _)|].
      unfold Taxonomy_remove. by rewrite E.
    - destruct (decide (n = p)) as [->|Hne]; [right; unfold Taxonomy_add_parent; rewrite decide_True by done; eauto|].
      destruct (add_parent_core n p t Hwf Hne) as [[_ ->]|(_ & ? & -> & _)]; eauto.
    - left. destruct (decide (n = p)) as [|Hne]; [by rewrite remove_parent_none by auto|].
      destruct (cats t !! n) eqn:E1; [|by rewrite remove_parent_none by auto].
      destruct (cats t !! p) eqn:E2; [|by rewrite remove_parent_none by auto].
      by destruct (remove_parent_core n p t Hwf Hne) as (? & -> & _); [eauto..|]. }
  destruct Hok as [Hok|?]; [left|by right]. destruct (taxonomy_op o t) as [t' r]. cbn in *. subst. eauto.
Qed.

(** A category that is added has no ancestors. *)
Lemma add_no_ancestors n t k c :
  cats (Taxonomy_add n t).1 !! k = Some c → cats t !! k = Some c ∨ (cats t !! k = None ∧ ancestors c = ∅).
Proof.
  unfold Taxonomy_add. destruct (cats t !! n) eqn:E; cbn; [auto|].
  destruct (decide (k = n)) as [->|Hne]; [|rewrite lookup_insert_ne by done; auto].
  rewrite lookup_insert_eq, E. intros [= <-]. by right.
Qed.

Section collections.
Context {document database : Type} `{!Xapian document database} `{!XapianLaws document database}.
Context `{!CommitsSucceed document database}.
Abbreviation DbGroup := (@DbGroup database).
Abbreviation Collection := (@Collection database).
Implicit Types g : DbGroup.
Implicit Types c : Collection.
Implicit Types x : document.
Context (json_serialise : json → string) (io : io_step → bool) (config_str : CollectionConfig → string).
Context (Hio : ∀ step, io step = true).

Definition Collection_op (name : string) (o : category_op) : M Collection () :=
  match o with
  | CatAdd n => Collection_category_add config_str name n
  | CatRemove n => Collection_category_remove json_serialise io config_str name n
  | CatAddParent n p => Collection_category_add_parent json_serialise io config_str name n p
  | CatRemoveParent n p => Collection_category_remove_parent json_serialise io config_str name n p
  end.

(** ** The configuration *)

Definition the_taxonomy (name : string) (cfg : CollectionConfig) : taxonomy := default ∅ (taxonomies cfg !! name).

Lemma change_taxonomy_eq name op cfg :
  ∃ ch, change_taxonomy name op cfg =
    let '(t', r) := op (mkT (the_taxonomy name cfg) ∅) in
    (set_taxonomies (<[name := cats t']> (taxonomies cfg)) ch cfg,
     match r with Ok _ => Ok (cats t', modified t') | Throw e => Throw e | OutOfFuel => OutOfFuel end).
Proof.
  unfold change_taxonomy, get_or_add_taxonomy, the_taxonomy, mbind, M_bind, modifyM, liftM.
  destruct (taxonomies cfg !! name) as [t|] eqn:E; cbn [default]; destruct (op (mkT _ ∅)) as [t' [[]|e|]]; cbn;
    unfold set_taxonomies; cbn; rewrite ?insert_insert_eq; eexists; done.
Qed.

Lemma groups_types name cfg cfg' : types cfg = types cfg' → get_taxonomy_groups name cfg = get_taxonomy_groups name cfg'.
Proof. unfold get_taxonomy_groups. by intros ->. Qed.

(** ** Storing the configuration *)

Lemma set_metadata_ok k v g : group_ok g → writable g →
  ∃ g', DbGroup_set_metadata k v g = (g', Ok ()) ∧ group_ok g' ∧ writable g' ∧
    contents g' = contents g ∧ next_fragnum g' = next_fragnum g ∧ group_db g' = group_db g ∧
    group_db_valid g' = group_db_valid g ∧ frags g' = frags g.
Proof.
  intros Hg Hw. unfold DbGroup_set_metadata. rewrite on_control_set_metadata by done. eexists. split; [reflexivity|].
  split_and!; try done. destruct Hg. by split.
Qed.

Lemma write_config_ok c : group_ok (group c) → writable (group c) →
  ∃ g', write_config config_str c = (mkColl g' (config c), Ok ()) ∧ group_ok g' ∧ writable g' ∧
    contents g' = contents (group c) ∧ next_fragnum g' = next_fragnum (group c) ∧ group_db g' = group_db (group c) ∧
    group_db_valid g' = group_db_valid (group c) ∧ frags g' = frags (group c).
Proof.
  intros Hg Hw. destruct (set_metadata_ok "_restpose_config" (config_str (config c)) (group c) Hg Hw) as (g' & H & ?).
  exists g'. unfold write_config, on_group, mbind, M_bind, getM. by rewrite H.
Qed.

(** ** The update of all groups of a taxonomy *)

(** How the combined database must be for an update of [n] groups: it shows the
    documents as they are, and goes on doing so when there are several groups. *)
Definition readable (n : nat) g : Prop := match n with 0 => True | 1 => fresh g | _ => live g end.

Lemma readable_fresh n g : group_ok g → readable (S n) g → fresh g.
Proof. intros Hg Hr. destruct n; [done|by apply live_fresh]. Qed.

Lemma live_readable n g : group_ok g → live g → readable n g.
Proof. intros Hg Hl. destruct n as [|[|n]]; [done|by apply live_fresh|done]. Qed.

Lemma update_groups_ok t mods l : ∀ c m,
  Forall plain_group l → group_ok (group c) → writable (group c) → (next_fragnum (group c) + 2 < 2 ^ 32)%N →
  readable (length l) (group c) → represents (group c) m →
  ∃ c', for_each l (λ i, on_group (update_modified_categories_group json_serialise io (group_prefix i) t mods)) c = (c', Ok ()) ∧
    config c' = config c ∧ group_ok (group c') ∧ writable (group c') ∧
    next_fragnum (group c') = next_fragnum (group c) ∧ represents (group c') (updated_all l t mods <$> m).
Proof.
  induction l as [|i l IH]; intros c m Hl Hg Hw Hn Hr Hm; cbn [for_each].
  { exists c. split_and!; try done. by rewrite map_fmap_id. }
  apply Forall_cons in Hl as [Hi Hl].
  destruct (update_group_ok json_serialise io (group_prefix i) t mods (group c) m) as
    (g1 & g2 & H1 & Hro & H2 & Hg2 & Hw2 & Hn2 & Hm2 & Hgd & Hv2); [done|by apply plain_group_prefix|done..|by eapply readable_fresh|done|done|].
  destruct (IH (mkColl g2 (config c)) (updated (group_prefix i) t mods <$> m)) as (c' & H3 & Hc & Hg3 & Hw3 & Hn3 & Hm3).
  - done.
  - done.
  - done.
  - cbn. by rewrite Hn2.
  - destruct l as [|j l]; [done|]. apply live_readable; [done|]. unfold live. cbn. rewrite Hv2, Hgd.
    apply (init_group_db_live (group c)); [exact Hr|done].
  - done.
  - exists c'. cbn in *. split_and!; [|done..|by rewrite Hn3|].
    + unfold mbind at 1, M_bind at 1, on_group at 1. by rewrite H2.
    + rewrite <-map_fmap_compose in Hm3. exact Hm3.
Qed.

(** ** Documents in step with the taxonomies *)

Record in_step c (m : gmap string document) : Prop := {
  st_group : group_ok (group c);
  st_writable : writable (group c);
  st_docs : represents (group c) m;
  st_wf : ∀ name, wf (the_taxonomy name (config c));
  st_plain : ∀ name grp, grp ∈ get_taxonomy_groups name (config c) → plain_group grp;
  st_one : ∀ name name' grp, grp ∈ get_taxonomy_groups name (config c) →
    grp ∈ get_taxonomy_groups name' (config c) → name = name';
  st_indexed : ∀ name grp u x, grp ∈ get_taxonomy_groups name (config c) → m !! u = Some x →
    indexed (group_prefix grp) (the_taxonomy name (config c)) x;
}.

Lemma the_taxonomy_insert name name' t ch cfg :
  the_taxonomy name' (set_taxonomies (<[name := t]> (taxonomies cfg)) ch cfg) =
    if decide (name' = name) then t else the_taxonomy name' cfg.
Proof.
  unfold the_taxonomy. cbn. case_decide as E; [subst; by rewrite lookup_insert_eq|by rewrite lookup_insert_ne].
Qed.

(** New documents and a new taxonomy of one name. *)
Lemma in_step_change c g' m name t' ch (F : document → document) :
  in_step c m → group_ok g' → writable g' → represents g' (F <$> m) → wf t' →
  (∀ grp t x, plain_group grp → grp ∉ get_taxonomy_groups name (config c) →
    indexed (group_prefix grp) t x → indexed (group_prefix grp) t (F x)) →
  (∀ grp x, grp ∈ get_taxonomy_groups name (config c) →
    indexed (group_prefix grp) (the_taxonomy name (config c)) x → indexed (group_prefix grp) t' (F x)) →
  in_step (mkColl g' (set_taxonomies (<[name := t']> (taxonomies (config c))) ch (config c))) (F <$> m).
Proof.
  intros Hst Hg Hw Hm Hwf Hother Hsame.
  assert (Hgr : ∀ n, get_taxonomy_groups n (set_taxonomies (<[name := t']> (taxonomies (config c))) ch (config c)) =
    get_taxonomy_groups n (config c)) by (intros; by apply groups_types).
  split; cbn [group config]; try done.
  - intros name'. rewrite the_taxonomy_insert. case_decide; [done|apply (st_wf _ _ Hst)].
  - intros name' grp. rewrite Hgr. apply (st_plain _ _ Hst).
  - intros n n' grp. rewrite !Hgr. apply (st_one _ _ Hst).
  - intros name' grp u y Hgrp [x [<- Hx]]%lookup_fmap_Some. rewrite Hgr in Hgrp. rewrite the_taxonomy_insert.
    pose proof (st_indexed _ _ Hst name' grp u x Hgrp Hx) as Hi. case_decide as E; subst; [by apply Hsame|].
    apply Hother; [by eapply (st_plain _ _ Hst)| |done]. intros Hin. apply E. by apply (st_one _ _ Hst name' name grp).
Qed.

(** The outcome of changing the taxonomy of a configuration. *)
Lemma change_ok name o cfg : (∀ n, wf (the_taxonomy n cfg)) →
  (∃ t' mods ch, change_taxonomy name (taxonomy_op o) cfg =
     (set_taxonomies (<[name := t']> (taxonomies cfg)) ch cfg, Ok (t', mods)) ∧ wf t' ∧
     (∀ n, the_taxonomy name cfg !! n ≠ t' !! n → n ∈ mods) ∧
     (taxonomy_op o (mkT (the_taxonomy name cfg) ∅)).1 = mkT t' mods) ∨
  (∃ e ch, change_taxonomy name (taxonomy_op o) cfg =
     (set_taxonomies (<[name := the_taxonomy name cfg]> (taxonomies cfg)) ch cfg, Throw (InvalidValueError e))).
Proof.
  intros Hwf. destruct (change_taxonomy_eq name (taxonomy_op o) cfg) as [ch E].
  destruct (taxonomy_op_spec o (mkT (the_taxonomy name cfg) ∅) (Hwf name)) as [(t' & H & Hwf' & Hmod)|[e H]];
    rewrite H in E; [left|right].
  - exists (cats t'), (modified t'), ch. rewrite H. by destruct t'.
  - by exists e, ch.
Qed.

(** Thrown out of: nothing but the configuration's flag and an empty taxonomy of the name
    can be new. *)
Lemma in_step_throw c m name ch : in_step c m →
  in_step (mkColl (group c) (set_taxonomies (<[name := the_taxonomy name (config c)]> (taxonomies (config c))) ch (config c))) m.
Proof.
  intros Hst. rewrite <-(map_fmap_id m). apply in_step_change;
    [done|apply Hst|apply Hst|rewrite map_fmap_id; apply Hst|apply (st_wf _ _ Hst)|done|done].
Qed.

Lemma elem_of_groups_list name cfg grp : grp ∈ sorted_elems (get_taxonomy_groups name cfg) ↔ grp ∈ get_taxonomy_groups name cfg.
Proof. apply elem_of_sorted_elems. Qed.

(** The operations that update documents. *)
Lemma category_update_in_step c m name o :
  in_step c m → (next_fragnum (group c) + 2 < 2 ^ 32)%N →
  readable (size (get_taxonomy_groups name (config c))) (group c) →
  ∃ c' r F, category_update json_serialise io config_str name (change_taxonomy name (taxonomy_op o)) c = (c', r) ∧
    (r = Ok () ∨ ∃ e, r = Throw (InvalidValueError e)) ∧ in_step c' (F <$> m) ∧
    ∀ x, payload (F x) = payload x ∧ ∀ y, (∀ grp r, grp ∈ get_taxonomy_groups name (config c) →
      y ≠ (group_prefix grp +:+ "A") +:+ r) → y ∈ terms (F x) ↔ y ∈ terms x.
Proof.
  intros Hst Hn Hr. set (l := sorted_elems (get_taxonomy_groups name (config c))).
  destruct (change_ok name o (config c) (st_wf _ _ Hst)) as [(t' & mods & ch & E & Hwf & Hmods & _)|(e & ch & E)].
  2: { exists (mkColl (group c) (set_taxonomies (<[name := the_taxonomy name (config c)]> (taxonomies (config c))) ch (config c))),
         (Throw (InvalidValueError e)), id. rewrite map_fmap_id. split_and!; [|eauto|by apply in_step_throw|done].
       unfold category_update, on_config, mbind, M_bind. by rewrite E. }
  set (cfg' := set_taxonomies (<[name := t']> (taxonomies (config c))) ch (config c)) in *.
  assert (Hl : Forall plain_group l).
  { apply Forall_forall. intros grp Hg%elem_of_groups_list. by eapply (st_plain _ _ Hst). }
  assert (Hlen : length l = size (get_taxonomy_groups name (config c))).
  { unfold l, sorted_elems. by rewrite merge_sort_Permutation. }
  destruct (update_groups_ok t' mods l (mkColl (group c) cfg') m) as (c1 & H1 & Hc1 & Hg1 & Hw1 & Hn1 & Hm1);
    [done|apply Hst|apply Hst|done|by rewrite Hlen|apply Hst|].
  destruct (write_config_ok c1 Hg1 Hw1) as (g2 & H2 & Hg2 & Hw2 & Hc2 & _).
  exists (mkColl g2 cfg'), (Ok ()), (updated_all l t' mods). split_and!.
  - unfold category_update, on_config, mbind, M_bind at 1 2. rewrite E.
    unfold update_modified_categories, mbind, M_bind, getM. cbn [fst snd config].
    replace (get_taxonomy_groups name cfg') with (get_taxonomy_groups name (config c)) by by apply groups_types.
    fold l. unfold group_prefix in H1. rewrite H1, H2. by rewrite Hc1.
  - by left.
  - apply in_step_change; [done..|by apply (represents_same (group c1))|done| |].
    + intros grp t x Hgp Hn' Hx. apply updated_all_other; [done..| |done]. unfold l; by rewrite elem_of_groups_list.
    + intros grp x Hgrp Hx. apply updated_all_indexed with (the_taxonomy name (config c)); [done|apply sorted_elems_nodup|by apply elem_of_groups_list|done..].
  - intros x. destruct (updated_all_keeps l t' mods x) as [Hp Hy]. split; [done|]. intros y Hne. apply Hy.
    intros grp r Hgrp%elem_of_groups_list. by apply Hne.
Qed.

(** Adding a category changes no document. *)
Lemma category_add_in_step c m name n :
  in_step c m → ∃ c', Collection_category_add config_str name n c = (c', Ok ()) ∧ in_step c' m.
Proof.
  intros Hst. destruct (change_ok name (CatAdd n) (config c) (st_wf _ _ Hst)) as [(t' & mods & ch & E & Hwf & Hmods & Ht)|(e & ch & E)].
  2: { exfalso. destruct (change_taxonomy_eq name (taxonomy_op (CatAdd n)) (config c)) as [ch' E']. rewrite E in E'. cbn in E'.
       unfold Taxonomy_add in E'. by destruct (cats _ !! n). }
  set (cfg' := set_taxonomies (<[name := t']> (taxonomies (config c))) ch (config c)) in *.
  destruct (write_config_ok (mkColl (group c) cfg')) as (g2 & H2 & Hg2 & Hw2 & Hc2 & _); [apply Hst..|].
  exists (mkColl g2 cfg'). split.
  - unfold Collection_category_add, category_add, on_config, mbind, M_bind.
    change (Taxonomy_add n) with (taxonomy_op (CatAdd n)). rewrite E. exact H2.
  - rewrite <-(map_fmap_id m). apply in_step_change; [done..| |done|done|].
    + rewrite map_fmap_id. by apply (represents_same (group c)); [|apply Hst].
    + intros grp x _ Hx a. rewrite (Hx a). cbn [taxonomy_op] in Ht.
      assert (Hkeep : ∀ (k : string) (ct : Category), t' !! k = Some ct → the_taxonomy name (config c) !! k = Some ct ∨ ancestors ct = ∅).
      { intros k ct Hk. pose proof (add_no_ancestors n (mkT (the_taxonomy name (config c)) ∅) k) as Ha. rewrite Ht in Ha. destruct (Ha ct Hk) as [|[_ ?]]; auto. }
      assert (Hold : ∀ (k : string) (ct : Category), the_taxonomy name (config c) !! k = Some ct → t' !! k = Some ct).
      { intros k ct Hk. unfold Taxonomy_add in Ht. cbn in Ht. destruct (the_taxonomy name (config c) !! n) eqn:En; cbn in Ht; simplify_eq; [done|].
        rewrite lookup_insert_ne; [done|]. congruence. }
      split; intros (cat & ct & Hc & Hk & Ha); exists cat, ct; (split; [done|]); [by auto|].
      destruct (Hkeep cat ct Hk) as [|E0]; [done|]. rewrite E0 in Ha. set_solver.
Qed.

End collections.

(** ** Removing a taxonomy *)

Section removing.
Context {document database : Type} `{!Xapian document database} `{!XapianLaws document database}.
Abbreviation DbGroup := (@DbGroup database).
Implicit Types g : DbGroup.
Implicit Types x : document.
Context (json_serialise : json → string) (io : io_step → bool) (config_str : CollectionConfig → string).
Context (allterms : database → string → list string).
Context (Hall : ∀ db p t, t ∈ allterms db p ↔ (∃ r, t = p +:+ r) ∧ term_exists db t = true).

(** A prefix that sorts after every identifier. *)
Definition high_prefix (p : string) : Prop := match p with String c _ => (9 < ord c)%N | EmptyString => False end.

Lemma high_after_tab p s : high_prefix p → str_lt (String (chr 9) s) p.
Proof. destruct p as [|c p]; [done|]. intros H. apply str_lt_cons. by left. Qed.

Lemma skip_to_twice p q l : StronglySorted String.le l → ¬ str_lt q p → skip_to q (skip_to p l) = skip_to q l.
Proof.
  intros _ Hpq. induction l as [|a l IH]; [done|]. cbn [skip_to]. destruct (decide (str_lt a p)) as [Ha|Ha]; [|done].
  rewrite decide_True; [exact IH|]. rewrite str_lt_not_le in *. intros Hqa. apply Ha.
  apply dec_stable in Hpq. by etrans.
Qed.

(** The loop ends within its fuel. *)
Lemma strip_loop_ends p ti : ∀ n x, size (terms x) < n → strip_loop n p ti x ≠ OutOfFuel.
Proof.
  destruct ti as [|t ti]; [by intros [|n]|]. induction n as [|n IH]; intros x Hn; [lia|]. cbn.
  destruct (string_startswith t p); [|done]. unfold doc_remove_term. case_decide as Ht; [|done]. apply IH.
  rewrite terms_remove by done. rewrite size_difference by set_solver. rewrite size_singleton. 
  assert (size (terms x) ≠ 0) by (apply size_non_empty_iff; set_solver). lia.
Qed.

(** A term found is removed, and is still under the iterator. *)
Lemma strip_loop_throws n p t ti x : string_startswith t p = true → t ∈ terms x →
  strip_loop (S (S n)) p (t :: ti) x = Throw (XapianError "InvalidArgumentError").
Proof.
  intros Hp Ht. assert (E1 : doc_remove_term t x = Ok (remove_term t x)) by (unfold doc_remove_term; by rewrite decide_True).
  assert (E2 : doc_remove_term t (remove_term t x) = Throw (XapianError "InvalidArgumentError")).
  { unfold doc_remove_term. rewrite decide_False; [done|]. rewrite terms_remove by done. set_solver. }
  cbn [strip_loop]. rewrite Hp, E1. cbn. by rewrite E2.
Qed.

Lemma strip_terms_throws p x t : high_prefix p → (∃ r, t = p +:+ r) → t ∈ terms x →
  strip_terms p x = Throw (XapianError "InvalidArgumentError").
Proof.
  intros Hp [r ->] Ht. unfold strip_terms. rewrite skip_to_twice; [|apply sorted_elems_sorted|].
  2: { intros Hlt. apply (irreflexivity str_lt p). etrans; [exact Hlt|]. by apply (high_after_tab p ""). }
  pose proof (proj2 (elem_of_prefix_terms p (terms x) (p +:+ r)) ltac:(eauto)) as Hin. unfold prefix_terms in Hin.
  assert (Hskip : ∀ u, u ∈ skip_to p (sorted_elems (terms x)) → u ∈ terms x).
  { intros u. rewrite <-elem_of_sorted_elems. generalize (sorted_elems (terms x)). intros l.
    induction l as [|v l IH]; [done|]. cbn. case_decide; [|done]. intros ?%IH. by right. }
  destruct (skip_to p _) as [|u l]; [by apply elem_of_nil in Hin|]. cbn in Hin.
  destruct (string_startswith u p) eqn:Eu; [|by apply elem_of_nil in Hin].
  assert (Hu : u ∈ terms x) by (apply Hskip, list_elem_of_here).
  destruct (size (terms x)) eqn:Es; [apply size_empty_inv in Es; set_solver|]. by apply strip_loop_throws.
Qed.

(** Nothing to remove, or the first document found makes it fail. *)
Lemma strip_group_spec p db g :
  high_prefix p → (∀ d x, get_document (db_view db g) d = Some x → ∃ t, ids x = {[t]}) →
  strip_group json_serialise io allterms p db g =
    (g, if allterms (db_view db g) p then Ok () else Throw (XapianError "InvalidArgumentError")).
Proof.
  intros Hp Hid. unfold strip_group, mbind, M_bind, getM. destruct (allterms (db_view db g) p) as [|t ts] eqn:E; [done|].
  assert (Ht : t ∈ allterms (db_view db g) p) by (rewrite E; set_solver). apply Hall in Ht as [Hpre Hex].
  cbn [for_each]. unfold mbind, M_bind. unfold term_exists in Hex.
  destruct (postlist (db_view db g) t) as [|d ds] eqn:Ed; [done|]. cbn [for_each].
  assert (Hd : d ∈ postlist (db_view db g) t) by (rewrite Ed; set_solver). apply elem_of_postlist in Hd as (x & Hx & Htx).
  unfold mbind, M_bind, strip_doc, mbind, M_bind, getM. rewrite Hx. destruct (Hid d x Hx) as [u Hu].
  rewrite (doc_idterm_ok x u Hu). cbn -[strip_terms]. by rewrite (strip_terms_throws p x t).
Qed.

Lemma strip_groups_throw l p db : ∀ (c : @Collection database),
  (∀ grp, grp ∈ l → high_prefix ((grp +:+ sing (chr 9)) +:+ "A")) →
  (∀ d x, get_document (db_view db (group c)) d = Some x → ∃ t, ids x = {[t]}) →
  p ∈ l → allterms (db_view db (group c)) ((p +:+ sing (chr 9)) +:+ "A") ≠ [] →
  for_each l (λ i, on_group (strip_group json_serialise io allterms ((i +:+ sing (chr 9)) +:+ "A") db)) c =
    (c, Throw (XapianError "InvalidArgumentError")).
Proof.
  induction l as [|a l IH]; intros c Hl Hid Hp Hne; [set_solver|]. cbn [for_each]. unfold mbind, M_bind, on_group at 1.
  rewrite strip_group_spec by (try done; apply Hl; set_solver).
  destruct (allterms (db_view db (group c)) ((a +:+ sing (chr 9)) +:+ "A")) eqn:E; [|by destruct c].
  assert (p ≠ a) by (intros ->; done).
  replace (mkColl (group c) (config c)) with c by by destruct c. apply IH; set_solver.
Qed.

(** When there is nothing to remove anywhere, nothing happens. *)
Lemma strip_groups_none l db : ∀ (c : @Collection database),
  (∀ grp, grp ∈ l → high_prefix ((grp +:+ sing (chr 9)) +:+ "A")) →
  (∀ d x, get_document (db_view db (group c)) d = Some x → ∃ t, ids x = {[t]}) →
  Forall (λ grp, ¬ allterms (db_view db (group c)) ((grp +:+ sing (chr 9)) +:+ "A") ≠ []) l →
  for_each l (λ i, on_group (strip_group json_serialise io allterms ((i +:+ sing (chr 9)) +:+ "A") db)) c = (c, Ok ()).
Proof.
  induction l as [|a l IH]; intros c Hl Hid Hno; [done|]. cbn [for_each]. apply Forall_cons in Hno as [Ha Hno].
  unfold mbind, M_bind, on_group at 1. rewrite strip_group_spec by (try done; apply Hl; set_solver).
  destruct (allterms (db_view db (group c)) ((a +:+ sing (chr 9)) +:+ "A")) eqn:E; [|by destruct Ha].
  replace (mkColl (group c) (config c)) with c by by destruct c. apply IH; [|done..]. intros; apply Hl; set_solver.
Qed.

(** The terms listed are those of the documents. *)
Lemma anc_terms_shown g m p : views g = contents g → represents g m →
  allterms (db_view (group_db g) g) p ≠ [] ↔ ∃ u x a, m !! u = Some x ∧ p +:+ a ∈ terms x.
Proof.
  intros Hv Hm. split.
  - destruct (allterms _ p) as [|t ts] eqn:E; [done|]. intros _.
    assert (Ht : t ∈ allterms (db_view (group_db g) g) p) by (rewrite E; apply list_elem_of_here).
    apply Hall in Ht as [[a ->] (d & x & Hx & Hxt)%term_exists_spec].
    apply (view_docs g d x Hv) in Hx as (i & d' & _ & _ & Hx). destruct (rep_ids _ _ Hm i d' x Hx) as (u & _ & Hu). by exists u, x, a.
  - intros (u & x & a & Hx & Ha) E. apply (not_elem_of_nil (p +:+ a)). rewrite <-E. apply Hall. split; [eauto|].
    destruct (rep_docs _ _ Hm u x Hx) as (_ & i & d & Hy). apply term_exists_spec.
    exists (group_docid (length (contents g)) i d), x. split; [|done].
    apply (view_docs g _ x Hv). exists i, d. split_and!; [done| |done]. by eapply at_pos_bounds.
Qed.

Lemma set_metadata_eq k v g : writable g →
  ∃ g', DbGroup_set_metadata k v g = (g', Ok ()) ∧ contents g' = contents g ∧ get_metadata (wrdb (control g')) k = v.
Proof.
  intros Hw. unfold DbGroup_set_metadata. rewrite on_control_set_metadata by done. eexists. split_and!; [reflexivity|done|].
  cbn. by rewrite get_set_metadata, decide_True.
Qed.

End removing.

(** ** Properties *)

(** C5: documents follow their taxonomies when categories are added or removed, or parents
    of categories are (not when a whole taxonomy is set or removed: see
    [remove_taxonomy_fails]).  Take a collection open for writing whose documents have
    exactly the ancestor terms of their categories, no two taxonomies sharing a group and
    group prefixes not being mistaken for identifiers or for one another ([in_step]), and
    let file operations and commits succeed and fewer than 2^32 fragments have been made.
    If the combined database shows the documents
    as they are -- and, when several groups use the taxonomy, reads every fragment through
    the database it is written by ([readable]; without this
    [second_group_undoes_first] shows the contrary) -- then the operation, finished or
    refused, leaves every document with exactly the ancestor terms of the changed taxonomy,
    in every group; identifiers, all other terms and the data of the documents stay. *)
Theorem documents_follow_taxonomy {document database} `{!Xapian document database} `{!XapianLaws document database}
    `{!CommitsSucceed document database}
    json_serialise io config_str (c : @Collection database) (m : gmap string document) name o
    (Hio : ∀ step, io step = true) (Hst : in_step c m) (Hn : (next_fragnum (group c) + 2 < 2 ^ 32)%N)
    (Hr : readable (size (get_taxonomy_groups name (config c))) (group c)) :
  ∃ c' r F, Collection_op json_serialise io config_str name o c = (c', r) ∧
    (r = Ok () ∨ ∃ e, r = Throw (InvalidValueError e)) ∧ in_step c' (F <$> m) ∧
    ∀ x, payload (F x) = payload x ∧ ∀ y, (∀ grp r, grp ∈ get_taxonomy_groups name (config c) →
      y ≠ (group_prefix grp +:+ "A") +:+ r) → y ∈ terms (F x) ↔ y ∈ terms x.
Proof.
  destruct o as [n|n|n p|n p].
  - destruct (category_add_in_step io config_str Hio c m name n Hst) as (c' & H & Hst'). exists c', (Ok ()), id.
    rewrite map_fmap_id. split_and!; [done|by left|done|done].
  - by apply (category_update_in_step json_serialise io config_str Hio c m name (CatRemove n)).
  - by apply (category_update_in_step json_serialise io config_str Hio c m name (CatAddParent n p)).
  - by apply (category_update_in_step json_serialise io config_str Hio c m name (CatRemoveParent n p)).
Qed.

(** *** A collection with one document in two groups *)

Definition tab_term (s : string) : string := sing (chr 9) +:+ s.

(** A category field with the group and the taxonomy, neither stored nor in a slot. *)
Definition cat_field (grp taxonomy_name : string) : FieldConfig :=
  CategoryFieldConfig (mkMaxLen SlotName_default 64 TOOLONG_ERROR) (group_prefix grp) SlotName_default taxonomy_name "".

Definition two_fields : gmap string FieldConfig := {["f1" := cat_field "g1" "t"; "f2" := cat_field "g2" "t"]}.

Definition two_groups : CollectionConfig :=
  mkConfig "coll" {["default" := Some (mkSchema "default" two_fields ∅ [])]} ∅ ∅ "id" "type" "_meta" JNull
    {["t" := cats abc]} false.

Lemma two_groups_groups name :
  get_taxonomy_groups name two_groups = if decide ("t" = name) then {["g2"; "g1"]} else ∅.
Proof.
  unfold get_taxonomy_groups.
  replace (sorted_items (types two_groups)) with [("default", Some (mkSchema "default" two_fields ∅ []))]
    by (vm_compute; reflexivity).
  cbn [foldl]. unfold Schema_get_taxonomy_groups. cbn [fields].
  replace (sorted_items two_fields) with [("f1", cat_field "g1" "t"); ("f2", cat_field "g2" "t")]
    by (vm_compute; reflexivity).
  cbn [foldl add_group_if_taxonomy cat_field]. by case_decide; [vm_compute|].
Qed.

Lemma two_groups_taxonomy name : the_taxonomy name two_groups = if decide ("t" = name) then cats abc else ∅.
Proof.
  unfold the_taxonomy, two_groups. cbn [taxonomies]. case_decide as E; [subst; by rewrite lookup_singleton_eq|].
  by rewrite (lookup_singleton_ne _ _ _ E).
Qed.

(** The document is in category [c], below [b] and [a], in both groups. *)
Definition the_doc : refdoc :=
  mkRefdoc {[tab_term "id"; group_prefix "g1" +:+ "Cc"; group_prefix "g1" +:+ "Aa"; group_prefix "g1" +:+ "Ab";
             group_prefix "g2" +:+ "Cc"; group_prefix "g2" +:+ "Aa"; group_prefix "g2" +:+ "Ab"]} "data".

(** Texts for the stored list of one fragment and its number. *)
Definition text_of (v : json) : string :=
  match v with
  | JArr [JObj [(_, JStr s)]] => s
  | JUInt n => str_unsigned n
  | _ => ""
  end.
Definition value_of (s : string) : res json :=
  if string_startswith s "frag" then Ok (JArr [JObj [("name", JStr s)]]) else Ok (JUInt 1).

Definition filled_group : @DbGroup refdb := (DbGroup_add_doc text_of (λ _, true) the_doc (tab_term "id") empty_group).1.
Definition filled : @Collection refdb := mkColl filled_group two_groups.

Lemma two_groups_plain name grp : grp ∈ get_taxonomy_groups name two_groups → plain_group grp.
Proof.
  rewrite two_groups_groups. case_decide; [|by intros ?%elem_of_empty].
  intros [->%elem_of_singleton| ->%elem_of_singleton]%elem_of_union; by split; [|vm_compute; set_solver].
Qed.

Lemma two_groups_one name name' grp :
  grp ∈ get_taxonomy_groups name two_groups → grp ∈ get_taxonomy_groups name' two_groups → name = name'.
Proof. rewrite !two_groups_groups. do 2 case_decide; set_solver. Qed.

Lemma the_doc_indexed name grp : grp ∈ get_taxonomy_groups name two_groups →
  indexed (group_prefix grp) (the_taxonomy name two_groups) the_doc.
Proof.
  rewrite two_groups_groups, two_groups_taxonomy. case_decide; [|by intros ?%elem_of_empty].
  intros [->%elem_of_singleton| ->%elem_of_singleton]%elem_of_union.
  - replace the_doc with (refresh (database:=refdb) (group_prefix "g2") (cats abc) the_doc) by (vm_compute; reflexivity).
    apply refresh_indexed.
  - replace the_doc with (refresh (database:=refdb) (group_prefix "g1") (cats abc) the_doc) by (vm_compute; reflexivity).
    apply refresh_indexed.
Qed.

Lemma filled_in_step : in_step filled {[tab_term "id" := the_doc]}.
Proof.
  destruct empty_group_ok as (H1 & H2 & H3 & _).
  assert (Hids : ids the_doc = {[tab_term "id"]}) by (vm_compute; reflexivity).
  destruct (add_doc_represents text_of (λ _, true) (λ _, eq_refl) empty_group ∅ (tab_term "id") the_doc H1 H2)
    as (g' & E & Hg & Hw & Hm); [vm_compute; reflexivity|exact H3|exact Hids|].
  assert (filled_group = g') as Eg by (unfold filled_group; by rewrite E).
  unfold filled. rewrite Eg. clear E Eg H1 H2 H3. split; cbn [group config]; [exact Hg|exact Hw|exact Hm| | | |].
  - intros name. rewrite two_groups_taxonomy. case_decide; [exact abc_wf|exact wf_empty].
  - exact two_groups_plain.
  - exact two_groups_one.
  - intros name grp u x Hgrp [_ <-]%lookup_singleton_Some. by apply the_doc_indexed.
Qed.

Lemma documents_follow_taxonomy_witness :
  in_step filled {[tab_term "id" := the_doc]} ∧ readable (size (get_taxonomy_groups "t" two_groups)) filled_group ∧
  ∃ c' r F, Collection_op text_of (λ _, true) (λ _, "") "t" (CatRemoveParent "b" "a") filled = (c', r) ∧
    (r = Ok () ∨ ∃ e, r = Throw (InvalidValueError e)) ∧ in_step c' (F <$> {[tab_term "id" := the_doc]}) ∧
    ∀ x, payload (F x) = payload x ∧ ∀ y, (∀ grp r, grp ∈ get_taxonomy_groups "t" two_groups →
      y ≠ (group_prefix grp +:+ "A") +:+ r) → y ∈ terms (F x) ↔ y ∈ terms x.
Proof.
  assert (Hr : readable (size (get_taxonomy_groups "t" two_groups)) filled_group).
  { rewrite two_groups_groups, decide_True by exact eq_refl. change (live filled_group). unfold live.
    replace (group_db_valid filled_group) with false by (vm_compute; reflexivity).
    assert (H : Forall (λ f, fstate f = OPEN_FOR_WRITING) (frags filled_group)).
    { vm_compute. repeat constructor. }
    rewrite Forall_forall in H. exact H. }
  split; [exact filled_in_step|]. split; [exact Hr|].
  exact (documents_follow_taxonomy text_of (λ _, true) (λ _, "") filled {[tab_term "id" := the_doc]} "t"
    (CatRemoveParent "b" "a") (λ _, eq_refl) filled_in_step eq_refl Hr).
Defined.

(** The same collection closed and opened for writing again: its fragment is not open, and
    the combined database will be a snapshot of it. *)
Definition stored_group : @DbGroup refdb := (DbGroup_close (DbGroup_sync filled_group).1).1.
Definition restarted : @Collection refdb :=
  mkColl (DbGroup_open_writable value_of text_of (λ _, true)
            (new_DbGroup "g" (disk stored_group) (files stored_group) (dirs stored_group))).1 two_groups.

(** The document with an identifier, as the fragments hold it. *)
Definition stored_document (idterm : string) (g : @DbGroup refdb) : res (option refdoc) :=
  (DbGroup_get_document (document:=refdoc) idterm (invalidate_group_db g).1).2.

(** A fault.  After a restart the combined database is a snapshot that does not show the
    updates made through the fragments, and nothing marks it as stale; so when two groups
    of a document use a taxonomy, the update of the second group starts from the document
    as it was and undoes that of the first: removing the parent [a] of [b] succeeds, and
    the document still has the ancestor [a] in group [g1], though not in [g2]. *)
Theorem second_group_undoes_first :
  let '(c', r) := Collection_op text_of (λ _, true) (λ _, "") "t" (CatRemoveParent "b" "a") restarted in
  r = Ok () ∧ ∃ x, stored_document (tab_term "id") (group c') = Ok (Some x) ∧
    (group_prefix "g1" +:+ "A") +:+ "a" ∈ terms x ∧ (group_prefix "g2" +:+ "A") +:+ "a" ∉ terms x.
Proof.
  destruct (Collection_op _ _ _ _ _ _) as [c' r] eqn:E.
  assert (Hr : r = Ok ()).
  { change r with (c', r).2. rewrite <-E. vm_compute. reflexivity. }
  split; [exact Hr|].
  exists (mkRefdoc {[tab_term "id"; group_prefix "g1" +:+ "Aa"; group_prefix "g1" +:+ "Ab"; group_prefix "g1" +:+ "Cc";
                     group_prefix "g2" +:+ "Ab"; group_prefix "g2" +:+ "Cc"]} "data").
  split; [|split].
  - change c' with (c', r).1. rewrite <-E. vm_compute. reflexivity.
  - apply (bool_decide_unpack _). vm_compute. exact I.
  - apply (bool_decide_unpack _). vm_compute. exact I.
Qed.

(** C40: a fault.  Removing a taxonomy, in a collection as for [documents_follow_taxonomy]
    whose combined database shows the documents and whose groups sort after the identifiers,
    works exactly as long as no document has an ancestor in it.  When none has, the taxonomy
    is removed from the configuration, which is stored.  When one has, the loop that should
    remove its ancestor terms does not advance, asks to remove the same term a second time
    and so throws: the taxonomy is gone from the configuration in memory, the stored
    configuration is not written, and every document keeps its terms. *)
Theorem remove_taxonomy_fails {document database} `{!Xapian document database} `{!XapianLaws document database}
    json_serialise io config_str (allterms : database → string → list string) (c : @Collection database) (m : gmap string document) name
    (Hall : ∀ db p t, t ∈ allterms db p ↔ (∃ r, t = p +:+ r) ∧ term_exists db t = true)
    (Hst : in_step c m) (Hf : fresh (group c)) (Hin : is_Some (taxonomies (config c) !! name))
    (Hhigh : ∀ grp, grp ∈ get_taxonomy_groups name (config c) → high_prefix grp) :
  ∃ c' r, Collection_remove_taxonomy json_serialise io config_str allterms name c = (c', r) ∧
    taxonomies (config c') !! name = None ∧ represents (group c') m ∧
    ((∀ grp u x a, grp ∈ get_taxonomy_groups name (config c) → m !! u = Some x → (group_prefix grp +:+ "A") +:+ a ∉ terms x) →
     r = Ok () ∧ get_metadata (wrdb (control (group c'))) "_restpose_config" = config_str (config c')) ∧
    (∀ grp u x a, grp ∈ get_taxonomy_groups name (config c) → m !! u = Some x → (group_prefix grp +:+ "A") +:+ a ∈ terms x →
     r = Throw (XapianError "InvalidArgumentError") ∧ control (group c') = control (group c)).
Proof.
  destruct (init_group_db_ok (group c)) as (g' & H1 & Hro & _ & Hv); [apply Hst|by unfold is_open; rewrite (st_writable _ _ Hst)|done|].
  assert (Hm : represents g' m) by (eapply represents_same; [apply Hro; apply Hst|apply Hst]). destruct Hin as [t0 Ht0].
  set (cfg := remove_taxonomy_config name (config c)).
  assert (Hgroups : get_taxonomy_groups name cfg = get_taxonomy_groups name (config c)).
  { apply groups_types. unfold cfg, remove_taxonomy_config. by rewrite Ht0. }
  assert (Hgone : taxonomies cfg !! name = None) by (unfold cfg, remove_taxonomy_config; rewrite Ht0; cbn; apply lookup_delete_eq).
  assert (Hids : ∀ d y, get_document (db_view (group_db g') g') d = Some y → ∃ t, ids y = {[t]}).
  { intros d y Hy. apply (view_docs g' d y Hv) in Hy as (i & d' & _ & _ & Hy). destruct (rep_ids _ _ Hm i d' y Hy) as (t & ? & _). eauto. }
  assert (Hprefix : ∀ grp, grp ∈ sorted_elems (get_taxonomy_groups name (config c)) → high_prefix ((grp +:+ sing (chr 9)) +:+ "A")).
  { intros grp Hi%elem_of_sorted_elems%Hhigh. by destruct grp. }
  assert (Hterms : ∀ grp, allterms (db_view (group_db g') g') ((grp +:+ sing (chr 9)) +:+ "A") ≠ [] ↔
    ∃ u x a, m !! u = Some x ∧ (group_prefix grp +:+ "A") +:+ a ∈ terms x) by (intros grp; by apply (anc_terms_shown allterms Hall)).
  assert (Hrun : Collection_remove_taxonomy json_serialise io config_str allterms name c =
    (for_each (sorted_elems (get_taxonomy_groups name (config c)))
       (λ i, on_group (strip_group json_serialise io allterms ((i +:+ sing (chr 9)) +:+ "A") (group_db g'))) ;;
     write_config config_str) (mkColl g' cfg)).
  { unfold Collection_remove_taxonomy, mbind, M_bind at 1 2 3, on_config, modifyM, on_group at 1, getM. cbn [group config].
    rewrite H1. cbn [group config]. fold cfg. by rewrite Hgroups. }
  rewrite Hrun. clear Hrun.
  destruct (decide (Exists (λ grp, allterms (db_view (group_db g') g') ((grp +:+ sing (chr 9)) +:+ "A") ≠ [])
    (sorted_elems (get_taxonomy_groups name (config c))))) as [He|He].
  - apply Exists_exists in He as (grp & Hgrp & Hne). exists (mkColl g' cfg), (Throw (XapianError "InvalidArgumentError")).
    unfold mbind, M_bind. rewrite (strip_groups_throw json_serialise io allterms Hall _ grp) by done.
    split_and!; [done..| |by intros; split; [|apply Hro]]. intros Hnone. exfalso.
    apply Hterms in Hne as (u & x & a & Hx & Ha). by apply (Hnone grp u x a); [apply elem_of_sorted_elems| |].
  - rewrite <-Forall_Exists_neg in He. unfold mbind, M_bind. rewrite strip_groups_none by done.
    destruct (set_metadata_eq "_restpose_config" (config_str cfg) g') as (g2 & E & Hc2 & Hs2).
    { unfold writable. rewrite (ro_control _ _ Hro). apply Hst. }
    unfold write_config, mbind, M_bind, getM, on_group. cbn [group config]. rewrite E.
    exists (mkColl g2 cfg), (Ok ()). split_and!; [done..|by eapply represents_same|by intros|].
    intros grp u x a Hgrp Hx Ha. exfalso. rewrite Forall_forall in He.
    apply (He grp); [by apply elem_of_sorted_elems|]. apply Hterms. eauto.
Qed.

Definition ref_allterms (db : refdb) (p : string) : list string :=
  filter (λ t, string_startswith t p = true ∧ term_exists db t = true)
    (elements (⋃ (rterms <$> (map_to_list (rdocs db)).*2))).

Lemma elem_of_ref_allterms db p t : t ∈ ref_allterms db p ↔ (∃ r, t = p +:+ r) ∧ term_exists db t = true.
Proof.
  unfold ref_allterms. rewrite list_elem_of_filter, string_startswith_spec, elem_of_elements. split; [naive_solver|].
  intros [Hp Ht]. split; [done|]. apply term_exists_spec in Ht as (d & x & Hx & Hxt).
  apply elem_of_union_list. exists (rterms x). split; [|done]. apply list_elem_of_fmap_2, list_elem_of_fmap. exists (d, x).
  split; [done|]. apply elem_of_map_to_list. cbn in Hx. unfold ref_get in Hx. by case_decide.
Qed.

Lemma remove_taxonomy_fails_witness :
  let a := (group_prefix "g1" +:+ "A") +:+ "a" in
  in_step filled {[tab_term "id" := the_doc]} ∧ a ∈ rterms the_doc ∧
  ∃ c' r, Collection_remove_taxonomy text_of (λ _, true) (λ _, "") ref_allterms "t" filled = (c', r) ∧
    r = Throw (XapianError "InvalidArgumentError") ∧ taxonomies (config c') !! "t" = None ∧
    control (group c') = control filled_group ∧ represents (group c') {[tab_term "id" := the_doc]}.
Proof.
  intros a. split; [exact filled_in_step|].
  assert (Ha : a ∈ rterms the_doc) by (apply (bool_decide_unpack _); vm_compute; exact I). split; [exact Ha|].
  assert (Hf : fresh filled_group).
  { intros Hv. replace (group_db_valid filled_group) with false in Hv by (vm_compute; reflexivity). discriminate Hv. }
  assert (Hh : ∀ grp, grp ∈ get_taxonomy_groups "t" two_groups → high_prefix grp).
  { intros grp. rewrite two_groups_groups, decide_True by exact eq_refl.
    intros [->%elem_of_singleton| ->%elem_of_singleton]%elem_of_union; vm_compute; reflexivity. }
  assert (Hg : "g1" ∈ get_taxonomy_groups "t" two_groups).
  { rewrite two_groups_groups, decide_True by exact eq_refl. set_solver. }
  destruct (remove_taxonomy_fails text_of (λ _, true) (λ _, "") ref_allterms filled {[tab_term "id" := the_doc]} "t"
    elem_of_ref_allterms filled_in_step Hf (mk_is_Some _ _ eq_refl) Hh) as (c' & r & H1 & H2 & H3 & _ & H4).
  destruct (H4 "g1" (tab_term "id") the_doc "a" Hg (lookup_singleton_eq _ _) Ha) as [H5 H6].
  exists c', r. by split_and!.
Defined.
