(* ===== verification/Tasks.v ===== *)
(** * Tasks that change collections

    src/server/basetasks.cc, src/server/tasks.cc, src/features/coll_tasks.cc,
    checkpoint_tasks.cc and category_tasks.cc: what a processing task does with the cached
    configuration of a collection (src/jsonxapian/collconfigs.cc) and hands on to indexing,
    and what an indexing task does to the collection and to its checkpoints.

    What the tasks use of the pool of collections is the class [CollectionStore]; what they
    hand on with [queue_indexing_from_processing] is kept in order, for a hand-off that
    returns with the task queued: its way through the queues, where it may wait for space
    or be dropped when they are closed, is modelled in [TaskManager]. *)

From S2P Require Import Prelude TaskQueue Json TextUtils DocValues Taxonomy Pipe NGram Schema CollConfig Indexing XapianDb DbGroup Collection ProcessDoc SendToPipe CollectionOps Checkpoints Http Router Handlers.

Class CollectionStore (pool collection : Type) := {
  get_writable : string → M pool collection;
  get_readonly : string → M pool collection;
  release : collection → M pool ();
  del : string → M pool ();
  coll_exists : string → M pool bool;
}.

(** ** Errors as text *)

(** [e.what()], a C string, of an exception of RestPose; the text of one of Xapian is an
    argument. *)
Definition error_text (xapian_description : string → string) (e : error) : option string :=
  match e with
  | InvalidValueError m => Some (c_str ("RestPose::InvalidValueError: " +:+ m))
  | UnserialisationError m => Some (c_str ("RestPose::UnserialisationError: " +:+ m))
  | HTTPServerError m => Some (c_str ("RestPose::HTTPServerError: " +:+ m))
  | InvalidStateError m => Some (c_str ("RestPose::InvalidStateError: " +:+ m))
  | SysError m => Some (c_str ("RestPose::SysError: " +:+ m))
  | ThreadError m => Some (c_str ("RestPose::ThreadError: " +:+ m))
  | ImporterError m => Some (c_str ("RestPose::ImporterError: " +:+ m))
  | XapianError name => Some (xapian_description name)
  | NetworkError _ => Some (xapian_description "NetworkError")
  | RuntimeError _ | OutOfRange _ | AssertionError | UndefinedBehaviour => None
  end.

(** [s.substr(n)]. *)
Definition substr_from (n : nat) (s : string) : res string :=
  if decide (n ≤ String.length s) then Ok (str_drop n s) else throw (OutOfRange "basic_string::substr").

(** [s.find(c, from)]. *)
Fixpoint find_char (c : ascii) (s : string) : option nat :=
  match s with
  | EmptyString => None
  | String x s => if decide (x = c) then Some 0 else S <$> find_char c s
  end.
Definition find_from (c : ascii) (from : nat) (s : string) : option nat := (λ i, from + i) <$> find_char c (str_drop from s).

Section tasks.
Context {document database pool : Type} `{XD : !Xapian document database} `{DS : !DocStore document} `{IL : !IndexLib document}.
Context `{CS : !CollectionStore pool (@OpenCollection database)} `{UL : !UnicodeLib}.
Context (w : N) (assertions : bool) (json_unserialise : string → res json) (io : io_step → bool).
Context (clock : nat → Z) (max_recent_errors : N) (expiry_time : Z) (xapian_description : string → string).
Context (allterms : database → string → list string).

(** ** Indexing tasks *)

(** The two classes of tasks a request makes are those of [Handlers]. *)
Inductive IndexingTask : Type :=
| IndexerConfigChangedTask (new_config : json)
| IndexerUpdateDocumentTask (idterm : string) (doc : document)
| RequestedTask (t : indexing_task)
| DeleteCollectionTask
| CollSetConfigTask (new_config : json)
| CollPutCategoryTask (taxonomy_name cat_id : string)
| CollPutCategoryParentTask (taxonomy_name cat_id parent_id : string)
| CollDeleteTaxonomyTask (taxonomy_name : string)
| CollDeleteCategoryTask (taxonomy_name cat_id : string)
| CollDeleteCategoryParentTask (taxonomy_name cat_id parent_id : string).

(** What an indexing thread works on: its collection, the pool and the checkpoints. *)
Record Worker := mkWorker {
  wk_collection : option (@OpenCollection database);
  wk_pool : pool;
  wk_checkpoints : CheckPointManager;
}.

Definition on_pool {A} (m : M pool A) : M Worker A := λ s,
  let '(p, r) := m (wk_pool s) in (mkWorker (wk_collection s) p (wk_checkpoints s), r).
Definition on_checkpoints {A} (m : M CheckPointManager A) : M Worker A := λ s,
  let '(c, r) := m (wk_checkpoints s) in (mkWorker (wk_collection s) (wk_pool s) c, r).
Definition set_collection (c : option OpenCollection) : M Worker () :=
  modifyM (λ s, mkWorker c (wk_pool s) (wk_checkpoints s)).

(** [if (collection == NULL) collection = pool.get_writable(coll_name)]. *)
Definition need_collection (coll_name : string) : M Worker () :=
  s ← getM;
  match wk_collection s with
  | Some _ => mret ()
  | None => c ← on_pool (get_writable coll_name); set_collection (Some c)
  end.

Definition on_collection {A} (m : M (@Collection database) A) : M Worker A := λ s,
  match wk_collection s with
  | None => (s, throw UndefinedBehaviour)
  | Some c => let '(c, r) := on_coll m c in (mkWorker (Some c) (wk_pool s) (wk_checkpoints s), r)
  end.

(** A task that only calls a method of the collection. *)
Definition with_collection {A} (coll_name : string) (m : M (@Collection database) A) : M Worker A :=
  need_collection coll_name ;; on_collection m.

(** The text of the stored configuration, for the methods that write it. *)
Definition config_text (c : CollectionConfig) : string :=
  match CollectionConfig_to_json c with Ok v => json_serialise v | _ => "" end.

Definition checkpoint_error (coll_name msg doc_type doc_id : string) : M CheckPointManager () :=
  CheckPointManager_append_error max_recent_errors coll_name msg doc_type doc_id.

Definition DeleteDocumentTask_perform_task (doc_type doc_id coll_name : string) : M Worker () :=
  let error := validate_doc_type doc_type in
  let error := if decide (error = "") then validate_doc_id doc_id else error in
  if decide (error ≠ "") then
    on_checkpoints (checkpoint_error coll_name error doc_type doc_id) ;;
    throwM (InvalidValueError error)
  else with_collection coll_name (raw_delete_doc (sing (chr 9) +:+ doc_type +:+ sing (chr 9) +:+ doc_id)).

Definition IndexingCheckpointTask_perform_task (do_commit : bool) (coll_name : string) : M Worker () :=
  if do_commit then with_collection coll_name commit else mret ().

Definition DeleteCollectionTask_perform_task (coll_name : string) : M Worker () :=
  s ← getM;
  (match wk_collection s with
   | None => mret ()
   | Some c => set_collection None ;; on_pool (release c)
   end) ;;
  on_pool (del coll_name).

Definition IndexerConfigChangedTask_perform_task (new_config : json) (coll_name : string) : M Worker () :=
  with_collection coll_name (Collection_from_json w new_config).

Definition IndexerUpdateDocumentTask_perform_task (idterm : string) (doc : document) (coll_name : string) : M Worker () :=
  with_collection coll_name (raw_update_doc json_serialise io doc idterm).

Definition CollSetConfigTask_perform_task (config : json) (coll_name : string) : M Worker () :=
  with_collection coll_name (Collection_from_json w config).

Definition CollPutCategoryTask_perform_task (tx cat coll_name : string) : M Worker () :=
  with_collection coll_name (Collection_category_add config_text tx cat).
Definition CollPutCategoryParentTask_perform_task (tx cat parent coll_name : string) : M Worker () :=
  with_collection coll_name (Collection_category_add_parent json_serialise io config_text tx cat parent).
Definition CollDeleteTaxonomyTask_perform_task (tx coll_name : string) : M Worker () :=
  with_collection coll_name (Collection_remove_taxonomy json_serialise io config_text allterms tx).
Definition CollDeleteCategoryTask_perform_task (tx cat coll_name : string) : M Worker () :=
  with_collection coll_name (Collection_category_remove json_serialise io config_text tx cat).
Definition CollDeleteCategoryParentTask_perform_task (tx cat parent coll_name : string) : M Worker () :=
  with_collection coll_name (Collection_category_remove_parent json_serialise io config_text tx cat parent).

Definition perform_task (t : IndexingTask) : string → M Worker () :=
  match t with
  | IndexerConfigChangedTask v => IndexerConfigChangedTask_perform_task v
  | IndexerUpdateDocumentTask idterm doc => IndexerUpdateDocumentTask_perform_task idterm doc
  | RequestedTask (DeleteDocumentTask doc_type doc_id) => DeleteDocumentTask_perform_task doc_type doc_id
  | RequestedTask (IndexingCheckpointTask _ do_commit) => IndexingCheckpointTask_perform_task do_commit
  | DeleteCollectionTask => DeleteCollectionTask_perform_task
  | CollSetConfigTask v => CollSetConfigTask_perform_task v
  | CollPutCategoryTask tx cat => CollPutCategoryTask_perform_task tx cat
  | CollPutCategoryParentTask tx cat parent => CollPutCategoryParentTask_perform_task tx cat parent
  | CollDeleteTaxonomyTask tx => CollDeleteTaxonomyTask_perform_task tx
  | CollDeleteCategoryTask tx cat => CollDeleteCategoryTask_perform_task tx cat
  | CollDeleteCategoryParentTask tx cat parent => CollDeleteCategoryParentTask_perform_task tx cat parent
  end.

(** [info]: what the task does, and the type and identifier of its document.  A task
    that updates a document finds them in the term of its identifier. *)
Definition IndexerUpdateDocumentTask_info (idterm : string) : res (string * string * string) :=
  match find_from (chr 9) 1 idterm with
  | None => id ← substr_from 1 idterm; Ok ("Updating document", "", id)
  | Some tab2 =>
      doc_type ← substr_from 1 idterm;
      doc_id ← substr_from (tab2 + 1) idterm;
      Ok ("Updating document", str_take (tab2 - 1) doc_type, doc_id)
  end.

Definition info (t : IndexingTask) : res (string * string * string) :=
  match t with
  | IndexerConfigChangedTask _ => Ok ("Updating configuration", "", "")
  | IndexerUpdateDocumentTask idterm _ => IndexerUpdateDocumentTask_info idterm
  | RequestedTask (DeleteDocumentTask doc_type doc_id) => Ok ("Delete document", doc_type, doc_id)
  | RequestedTask (IndexingCheckpointTask _ _) => Ok ("Performing checkpoint", "", "")
  | DeleteCollectionTask => Ok ("Delete collection", "", "")
  | CollSetConfigTask _ => Ok ("Setting collection config", "", "")
  | CollPutCategoryTask _ _ => Ok ("Adding category", "", "")
  | CollPutCategoryParentTask _ _ _ => Ok ("Adding category parent", "", "")
  | CollDeleteTaxonomyTask _ => Ok ("Removing taxonomy", "", "")
  | CollDeleteCategoryTask _ _ => Ok ("Removing category", "", "")
  | CollDeleteCategoryParentTask _ _ _ => Ok ("Removing category parent", "", "")
  end.

Definition post_perform (t : IndexingTask) (coll_name : string) : M Worker () :=
  match t with
  | RequestedTask (IndexingCheckpointTask checkid _) =>
      on_checkpoints (CheckPointManager_set_reached clock expiry_time coll_name checkid)
  | _ => mret ()
  end.

(** The handlers of [IndexingTask::perform] for an exception with a text. *)
Definition report_failure (t : IndexingTask) (coll_name what : string) : M Worker () :=
  i ← liftM (info t);
  on_checkpoints (checkpoint_error coll_name (i.1.1 +:+ " failed with " +:+ what) i.1.2 i.2).

Definition IndexingTask_perform (t : IndexingTask) (coll_name : string) : M Worker () := λ s,
  match perform_task t coll_name s with
  | (s, Ok _) => post_perform t coll_name s
  | (s, OutOfFuel) => (s, OutOfFuel)
  | (s, Throw e) =>
      match error_text xapian_description e with
      | None => (s, Throw e)
      | Some what => (report_failure t coll_name what ;; post_perform t coll_name) s
      end
  end.

(** ** Processing tasks *)

(** What a processing thread works on: the cached configurations
    (src/jsonxapian/collconfigs.h, [None] for a pointer to no configuration), the pool and the checkpoints, and the indexing tasks it
    has handed on, with the collections they are for. *)
Record Processor := mkProcessor {
  configs : gmap string (option CollectionConfig);
  pr_pool : pool;
  pr_checkpoints : CheckPointManager;
  handed_on : list (string * IndexingTask);
}.

Definition set_configs (f : gmap string (option CollectionConfig) → gmap string (option CollectionConfig)) : M Processor () :=
  modifyM (λ s, mkProcessor (f (configs s)) (pr_pool s) (pr_checkpoints s) (handed_on s)).
Definition of_pool {A} (m : M pool A) : M Processor A := λ s,
  let '(p, r) := m (pr_pool s) in (mkProcessor (configs s) p (pr_checkpoints s) (handed_on s), r).
Definition of_checkpoints {A} (m : M CheckPointManager A) : M Processor A := λ s,
  let '(c, r) := m (pr_checkpoints s) in (mkProcessor (configs s) (pr_pool s) c (handed_on s), r).

(** [taskman->queue_indexing_from_processing(coll_name, t)]. *)
Definition hand_on (coll_name : string) (t : IndexingTask) : M Processor () :=
  modifyM (λ s, mkProcessor (configs s) (pr_pool s) (pr_checkpoints s) (handed_on s ++ [(coll_name, t)])).

(** *** The cache of configurations *)

Definition clone_config (c : CollectionConfig) : res CollectionConfig := CollectionConfig_clone w json_serialise c.

(** A configuration that has just been made, with its defaults. *)
Definition default_config (coll_name : string) : res CollectionConfig :=
  config ← new_CollectionConfig coll_name;
  (set_default w config).2 ;;
  Ok (set_default w config).1.

(** The configuration of a collection that is not in the cache. *)
Definition load_config (coll_name : string) : M Processor CollectionConfig :=
  found ← of_pool (coll_exists coll_name);
  if (found : bool) then
    c ← of_pool (get_readonly coll_name);
    config ← liftM (clone_config (Collection.config (coll c)));
    of_pool (release c) ;;
    mret config
  else liftM (default_config coll_name).

Definition CollectionConfigs_get (coll_name : string) : M Processor CollectionConfig :=
  s ← getM;
  config ← match configs s !! coll_name with
           | Some (Some config) => mret config
           | Some None => throwM UndefinedBehaviour
           | None =>
               config ← load_config coll_name;
               set_configs <[coll_name := Some config]> ;;
               mret config
           end;
  liftM (clone_config config).

Definition CollectionConfigs_set (coll_name : string) (config : CollectionConfig) : M Processor () :=
  set_configs <[coll_name := Some config]>.

(** The entry of the collection is made, or the configuration it points to deleted, before
    there is a new one. *)
Definition CollectionConfigs_reset (coll_name : string) : M Processor () :=
  set_configs <[coll_name := None]> ;;
  config ← liftM (default_config coll_name);
  set_configs <[coll_name := Some config]>.

(** *** The tasks *)

Definition clear_changed (c : CollectionConfig) : CollectionConfig := set_types (types c) false c.

(** The updates queued before an exception stay queued; [answer] is what the indexing
    queue answers to the pushes, and [rounds] how often one is tried. *)
Definition ProcessorPipeDocumentTask_perform (answer : nat → QueueState) (rounds fuel : nat) (target_pipe : string) (doc : json) (coll_name : string)
    : M Processor () :=
  config ← CollectionConfigs_get coll_name;
  let '(ps, r) := send_to_pipe (document := document) w assertions answer rounds fuel target_pipe doc (mkPipeState config [] 0 false false) in
  for_each (ps_queued ps) (λ '(idterm, xdoc), hand_on coll_name (IndexerUpdateDocumentTask idterm xdoc)) ;;
  liftM r.

(** The errors of a document are reported one by one. *)
Definition report_errors (coll_name doc_type doc_id : string) (l : list (string * string)) : M Processor () :=
  for_each l (λ '(field, error),
    of_checkpoints (checkpoint_error coll_name
      ("Indexing error in field " +:+ sing (chr 34) +:+ field +:+ sing (chr 34) +:+ ": " +:+ sing (chr 34) +:+ error +:+ sing (chr 34))
      doc_type doc_id)).

(** What is handed on after a document: its update, and the configuration if it changed. *)
Definition hand_on_document (coll_name idterm : string) (xdoc : document) (config : CollectionConfig) (new_fields : bool) : M Processor () :=
  hand_on coll_name (IndexerUpdateDocumentTask idterm xdoc) ;;
  if changed config || new_fields then
    tmp ← liftM (CollectionConfig_to_json config);
    hand_on coll_name (IndexerConfigChangedTask tmp) ;;
    CollectionConfigs_set coll_name (clear_changed config)
  else mret ().

Definition ProcessorProcessDocumentTask_perform (doc_type doc_id : string) (doc : json) (coll_name : string) : M Processor () :=
  config ← CollectionConfigs_get coll_name;
  let '(d, r) := process_doc (document := document) w assertions doc_type doc_id (mkDocState (clear_changed config) doc (mkRefs "" new_IndexingErrors false)) in
  xdoc ← liftM r;
  let '(idterm, es, new_fields) := (ref_idterm (ds_refs d), ref_errors (ds_refs d), ref_new_fields (ds_refs d)) in
  report_errors coll_name doc_type doc_id (Indexing.errors es) ;;
  if total_failure es then
    match Indexing.errors es with
    | (field, error) :: _ => throwM (InvalidValueError (field +:+ ": " +:+ error))
    | [] => throwM UndefinedBehaviour
    end
  else hand_on_document coll_name idterm xdoc (ds_config d) new_fields.

Definition DeleteCollectionProcessingTask_perform (coll_name : string) : M Processor () :=
  CollectionConfigs_reset coll_name ;; hand_on coll_name DeleteCollectionTask.

(** Only [InvalidValueError] is caught. *)
Definition ProcessingCollSetConfigTask_perform (config : json) (coll_name : string) : M Processor () :=
  collconfig ← liftM (new_CollectionConfig coll_name);
  match CollectionConfig_from_json w json_serialise config collconfig with
  | (_, Throw (InvalidValueError m)) =>
      of_checkpoints (checkpoint_error coll_name ("Setting collection config failed with " +:+ c_str ("RestPose::InvalidValueError: " +:+ m)) "" "")
  | (_, Throw e) => throwM e
  | (_, OutOfFuel) => liftM OutOfFuel
  | (collconfig, Ok _) => CollectionConfigs_set coll_name collconfig ;; hand_on coll_name (CollSetConfigTask config)
  end.

(** A change of the categories: the cached configuration is changed, and the collection's
    is to be changed in the same way. *)
Definition change_categories {A} (op : M CollectionConfig A) (t : IndexingTask) (coll_name : string) : M Processor () :=
  collconfig ← CollectionConfigs_get coll_name;
  let '(collconfig, r) := op collconfig in
  liftM r ;;
  CollectionConfigs_set coll_name collconfig ;;
  hand_on coll_name t.

Definition ProcessingCollPutCategoryTask_perform (tx cat : string) : string → M Processor () :=
  change_categories (category_add tx cat) (CollPutCategoryTask tx cat).
Definition ProcessingCollPutCategoryParentTask_perform (tx cat parent : string) : string → M Processor () :=
  change_categories (category_add_parent tx cat parent) (CollPutCategoryParentTask tx cat parent).
Definition ProcessingCollDeleteTaxonomyTask_perform (tx : string) : string → M Processor () :=
  change_categories (modifyM (remove_taxonomy_config tx)) (CollDeleteTaxonomyTask tx).
Definition ProcessingCollDeleteCategoryTask_perform (tx cat : string) : string → M Processor () :=
  change_categories (category_remove tx cat) (CollDeleteCategoryTask tx cat).
Definition ProcessingCollDeleteCategoryParentTask_perform (tx cat parent : string) : string → M Processor () :=
  change_categories (category_remove_parent tx cat parent) (CollDeleteCategoryParentTask tx cat parent).

(** The wrapper that keeps an indexing task in order with the processing tasks. *)
Definition DelayedIndexingTask_perform (task : indexing_task) (coll_name : string) : M Processor () :=
  hand_on coll_name (RequestedTask task).

Definition processing_perform (t : processing_task) : string → M Processor () :=
  match t with
  | ProcessorProcessDocumentTask doc_type doc_id doc => ProcessorProcessDocumentTask_perform doc_type doc_id doc
  | DelayedIndexingTask task => DelayedIndexingTask_perform task
  | DeleteCollectionProcessingTask => DeleteCollectionProcessingTask_perform
  | ProcessingCollSetConfigTask config => ProcessingCollSetConfigTask_perform config
  | ProcessingCollPutCategoryTask tx cat => ProcessingCollPutCategoryTask_perform tx cat
  | ProcessingCollPutCategoryParentTask tx cat parent => ProcessingCollPutCategoryParentTask_perform tx cat parent
  | ProcessingCollDeleteTaxonomyTask tx => ProcessingCollDeleteTaxonomyTask_perform tx
  | ProcessingCollDeleteCategoryTask tx cat => ProcessingCollDeleteCategoryTask_perform tx cat
  | ProcessingCollDeleteCategoryParentTask tx cat parent => ProcessingCollDeleteCategoryParentTask_perform tx cat parent
  end.

End tasks.
