(* ===== verification/TaskThreads.v ===== *)
(** * The threads that perform tasks

    src/server/task_threads.cc: what an indexing thread and a processing thread do with
    the tasks they are given.  What [pop_from] gives, in order, is an argument; the queues
    themselves are [TaskQueue].  The thread that answers requests is in [ReadonlyTasks]. *)

From S2P Require Import Prelude Json TextUtils DocValues Taxonomy Pipe NGram Schema CollConfig Indexing XapianDb DbGroup Collection ProcessDoc SendToPipe CollectionOps Checkpoints Http Router Handlers Tasks.

Section threads.
Context {document database pool : Type} `{XD : !Xapian document database} `{DS : !DocStore document} `{IL : !IndexLib document}.
Context `{CS : !CollectionStore pool (@OpenCollection database)} `{UL : !UnicodeLib}.
Context (w : N) (assertions : bool) (io : io_step → bool).
Context (clock : nat → Z) (max_recent_errors : N) (expiry_time : Z) (xapian_description : string → string).
Context (allterms : database → string → list string).

Abbreviation worker := (@Worker database pool).
Abbreviation perform_indexing := (IndexingTask_perform (document := document) w io clock max_recent_errors expiry_time xapian_description allterms).

(** The exceptions [run] catches. *)
Definition caught (e : error) : bool := bool_decide (is_Some (error_text xapian_description e)).

(** ** Indexing *)

(** What [pop_from] gives: the queue is closed and empty, nothing came for five seconds, or
    a task. *)
Inductive popped : Type :=
| Finished
| Timeout
| Popped (t : @IndexingTask document).

(** The inner loop: whether the queue is closed.  Without anything more to pop the thread
    is still waiting. *)
Fixpoint perform_all (coll_name : string) (pops : list popped) : M worker bool :=
  match pops with
  | [] => liftM OutOfFuel
  | Finished :: _ => mret true
  | Timeout :: _ => mret false
  | Popped t :: pops => perform_indexing t coll_name ;; perform_all coll_name pops
  end.

(** [if (collection != NULL) collection->commit()]. *)
Definition commit_collection : M worker () :=
  s ← getM;
  match wk_collection s with
  | None => mret ()
  | Some _ => on_collection Collection.commit
  end.

Definition release_collection : M worker () :=
  s ← getM;
  match wk_collection s with
  | None => mret ()
  | Some c => set_collection None ;; on_pool (release c)
  end.

Definition IndexingThread_cleanup : M worker () := commit_collection ;; release_collection.

(** The [try] block: what is popped is performed, then the collection is committed; whether
    the queue is closed. *)
Definition IndexingThread_try (coll_name : string) (pops : list popped) : M worker bool :=
  closed ← perform_all coll_name pops;
  if (closed : bool) then mret true else commit_collection ;; mret false.

(** One turn of [run] with an assigned collection: whether the thread ends.  An exception
    that is not caught ends it after its cleanup. *)
Definition IndexingThread_turn (coll_name : string) (pops : list popped) : M worker bool := λ s,
  match IndexingThread_try coll_name pops s with
  | (s, Ok true) => (IndexingThread_cleanup ;; mret true) s
  | (s, Ok false) => (release_collection ;; mret false) s
  | (s, Throw e) =>
      if caught e then (release_collection ;; mret false) s
      else (IndexingThread_cleanup ;; throwM e) s
  | (s, OutOfFuel) => (s, OutOfFuel)
  end.

(** ** Processing *)

(** One task: an exception that is caught is only logged. *)
Definition ProcessingThread_turn (coll_name : string) (t : processing_task) : M (@Processor document pool) () := λ s,
  match processing_perform w assertions max_recent_errors t coll_name s with
  | (s, Throw e) => if caught e then (s, Ok ()) else (s, Throw e)
  | r => r
  end.

Definition process_tasks (l : list (string * processing_task)) : M (@Processor document pool) () :=
  for_each l (λ '(coll_name, t), ProcessingThread_turn coll_name t).

End threads.
