(* ===== verification/TasksThms.v ===== *)
(** * What a reached checkpoint guarantees

    The tasks of an indexing thread, one after the other, keep the documents of the
    collection those that the tasks say; what is on the disk is what was there at the last
    checkpoint that commits, whenever the process ends before the library commits of
    itself. *)

From stdpp Require Import pretty.
From S2P Require Import Prelude Json TextUtils DocValues Taxonomy Pipe NGram Schema CollConfig Indexing XapianDb RefLib RefJson DbGroup DbGroupThms Restart Collection ProcessDoc SendToPipe CollectionOps Checkpoints Http Router Handlers Tasks TaskThreads.

(** ** Storing something else than the list of fragments *)

Section metadata.
Context {document database : Type} `{XD : !Xapian document database} `{XL : !XapianLaws document database}.
Context `{CSu : !CommitsSucceed document database}.
Context (json_serialise : json → string).
Implicit Types g : @DbGroup database.

Lemma restartable_metadata k v g (m m0 : gmap string document) n : k ≠ "_frags" → k ≠ "_next_fragnum" →
  group_ok g → writable g → represents g m → restartable json_serialise g m0 n →
  ∃ g', DbGroup_set_metadata k v g = (g', Ok ()) ∧ group_ok g' ∧ writable g' ∧ represents g' m ∧
    restartable json_serialise g' m0 n ∧ next_fragnum g' = next_fragnum g.
Proof.
  intros Hk1 Hk2 Hg Hw Hm Hr. unfold DbGroup_set_metadata. rewrite on_control_set_metadata by done. eexists. split; [reflexivity|].
  split_and!; [destruct Hg; by split|done|by apply (represents_same g)| |done].
  destruct Hr as [H1 H2 H3 H4 H5 H6 H7]. destruct H4 as [H4a H4b].
  split; [done..| |done|done|intros Hlt; by apply (represents_same (disk_group g)), H7].
  split; cbn; by rewrite get_set_metadata, decide_False.
Qed.

End metadata.

(** ** Reaching a checkpoint *)

Lemma set_reached_run clock expiry_time coll_name checkid g :
  ∃ g' t, CheckPointManager_set_reached clock expiry_time coll_name checkid g = (g', Ok ()) ∧
    checkpoints g' !! coll_name ≫= (.!! checkid) = Some (mkCheckPoint (recent_errors g !! coll_name) t true).
Proof.
  unfold CheckPointManager_set_reached, mbind, M_bind.
  destruct (on_points_eq clock expiry_time coll_name (CheckPoints_set_reached clock checkid (recent_errors g !! coll_name)) g) as (st & -> & _).
  destruct (set_reached_ok clock checkid (recent_errors g !! coll_name) st) as (st' & t & -> & Hp & _).
  eexists _, t. split; [reflexivity|]. cbn. rewrite lookup_insert_eq. exact Hp.
Qed.

(** ** The tasks of an indexing thread *)

Section tasks.
Context {document database pool : Type} `{XD : !Xapian document database} `{XL : !XapianLaws document database}.
Context `{CSu : !CommitsSucceed document database}.
Context `{DS : !DocStore document} `{IL : !IndexLib document}.
Context `{CS : !CollectionStore pool (@OpenCollection database)}.
Context (w : N) (io : io_step → bool).
Context (clock : nat → Z) (max_recent_errors : N) (expiry_time : Z) (xapian_description : string → string).
Context (allterms : database → string → list string).
Context (json_unserialise : string → res json).
Context (Hio : ∀ step, io step = true) (Htext : text_laws json_serialise json_unserialise).

Abbreviation worker := (@Worker database pool).
Abbreviation perform := (IndexingTask_perform (document := document) w io clock max_recent_errors expiry_time xapian_description allterms).
Abbreviation loop := (perform_all (document := document) w io clock max_recent_errors expiry_time xapian_description allterms).
Abbreviation task := (@IndexingTask document).

(** The tasks considered, and what they need: the document of an update is identified by
    the term it is stored under, and a configuration is accepted. *)
Definition accepted (v : json) : Prop :=
  ∀ c, ∃ c' j, CollectionConfig_from_json w json_serialise v c = (c', Ok ()) ∧ CollectionConfig_to_json c' = Ok j.

Definition task_fits (t : task) : Prop :=
  match t with
  | IndexerUpdateDocumentTask idterm doc => ids doc = {[idterm]}
  | RequestedTask _ => True
  | IndexerConfigChangedTask v | CollSetConfigTask v => accepted v
  | _ => False
  end.

Definition name_error (doc_type doc_id : string) : string :=
  if decide (validate_doc_type doc_type = "") then validate_doc_id doc_id else validate_doc_type doc_type.

(** What a task does to the documents, and to those that a restart finds. *)
Definition effect (s : gmap string document * gmap string document) (t : task) : gmap string document * gmap string document :=
  match t with
  | IndexerUpdateDocumentTask idterm doc => (<[idterm := doc]> s.1, s.2)
  | RequestedTask (DeleteDocumentTask doc_type doc_id) =>
      if decide (name_error doc_type doc_id = "") then (delete (sing (chr 9) +:+ doc_type +:+ sing (chr 9) +:+ doc_id) s.1, s.2) else s
  | RequestedTask (IndexingCheckpointTask _ true) => (s.1, s.1)
  | _ => s
  end.

(** What a task tells the checkpoints: the deletion of a document with a bad name is
    reported twice. *)
Definition reports (coll_name : string) (t : task) : list cp_op :=
  match t with
  | RequestedTask (DeleteDocumentTask doc_type doc_id) =>
      if decide (name_error doc_type doc_id = "") then []
      else [OpError coll_name (name_error doc_type doc_id) doc_type doc_id;
            OpError coll_name ("Delete document failed with " +:+ c_str ("RestPose::InvalidValueError: " +:+ name_error doc_type doc_id)) doc_type doc_id]
  | RequestedTask (IndexingCheckpointTask checkid _) => [OpReached coll_name checkid]
  | _ => []
  end.

(** How many documents have changed since the last commit. *)
Definition changed_since (n : N) (t : task) : N :=
  match t with
  | IndexerUpdateDocumentTask _ _ => n + 1
  | RequestedTask (DeleteDocumentTask doc_type doc_id) => if decide (name_error doc_type doc_id = "") then n + 1 else n
  | RequestedTask (IndexingCheckpointTask _ true) => 0
  | _ => n
  end.

(** A thread that has the collection open, with its documents and those on the disk, and at
    most [n] documents changed since the last commit. *)
Record holding (s : worker) (oc : @OpenCollection database) (ms : gmap string document * gmap string document) (n : N) : Prop := {
  ho_open : wk_collection s = Some oc;
  ho_ok : group_ok (group (coll oc));
  ho_writable : writable (group (coll oc));
  ho_docs : represents (group (coll oc)) ms.1;
  ho_disk : restartable json_serialise (group (coll oc)) ms.2 n;
}.

Abbreviation fragnum oc := (next_fragnum (group (coll oc))).

(** A method of the collection that changes the documents as a task does. *)
Lemma with_collection_ok (s : worker) oc ms ms' n n' coll_name (op : M (@Collection database) ()) c' :
  holding s oc ms n → op (coll oc) = (c', Ok ()) → group_ok (group c') → writable (group c') →
  represents (group c') ms'.1 → restartable json_serialise (group c') ms'.2 n' →
  (next_fragnum (group c') ≤ fragnum oc + 2)%N →
  ∃ s' oc', with_collection coll_name op s = (s', Ok ()) ∧ holding s' oc' ms' n' ∧ wk_checkpoints s' = wk_checkpoints s ∧
    (fragnum oc' ≤ fragnum oc + 2)%N.
Proof.
  intros [Ho _ _ _ _] E H1 H2 H3 H4 H5. unfold with_collection, need_collection, on_collection, on_coll, mbind, M_bind, getM. rewrite Ho.
  cbn -[on_coll]. rewrite Ho. cbn. rewrite E.
  eexists _, (mkOpen c' (last_config oc)). split; [reflexivity|]. by split.
Qed.

Lemma writable_control (g : @DbGroup database) : writable g → negb (is_writable (control g)) = false.
Proof. intros Hw. unfold is_writable. by rewrite bool_decide_true. Qed.

(** A successful operation on the group, made by a method that checks that the collection
    can be written. *)
Lemma group_method (s : worker) oc ms n o coll_name (op : M (@Collection database) ()) :
  holding s oc ms n → op_ok o → o ≠ Restart → (fragnum oc + 2 < 2 ^ 32)%N →
  op (coll oc) = on_group (run_op json_serialise json_unserialise styled io o) (coll oc) →
  ∃ s' oc', with_collection coll_name op s = (s', Ok ()) ∧ holding s' oc' (group_spec o ms) (uncommitted n o) ∧ wk_checkpoints s' = wk_checkpoints s ∧
    (fragnum oc' ≤ fragnum oc + 2)%N.
Proof.
  intros Hs Ho Hnr Hn E. pose proof Hs as [_ Hg Hw Hm Hd]. destruct ms as [m m0]. cbn [fst snd] in Hm, Hd.
  destruct (run_op_ok json_serialise json_unserialise styled io Hio Htext o _ m m0 n Hg Hw Hm Hd Ho Hn ltac:(done)) as (g' & E' & H1 & H2 & H3 & H4 & H5).
  apply (with_collection_ok s oc (m, m0) _ n _ coll_name op (mkColl g' (config (coll oc)))); [done| |done..].
  rewrite E. unfold on_group. by rewrite E'.
Qed.

Lemma update_task_ok s oc ms n coll_name idterm doc : holding s oc ms n → ids doc = {[idterm]} → (fragnum oc + 2 < 2 ^ 32)%N →
  ∃ s' oc', with_collection coll_name (raw_update_doc json_serialise io doc idterm) s = (s', Ok ()) ∧
    holding s' oc' (<[idterm := doc]> ms.1, ms.2) (n + 1) ∧ wk_checkpoints s' = wk_checkpoints s ∧ (fragnum oc' ≤ fragnum oc + 2)%N.
Proof.
  intros Hs Hids Hn. apply (group_method s oc ms n (AddDoc idterm doc)); [done..|].
  unfold raw_update_doc. by rewrite writable_control by apply Hs.
Qed.

Lemma delete_task_ok s oc ms n coll_name t : holding s oc ms n → is_id t → (fragnum oc + 2 < 2 ^ 32)%N →
  ∃ s' oc', with_collection coll_name (raw_delete_doc t) s = (s', Ok ()) ∧
    holding s' oc' (delete t ms.1, ms.2) (n + 1) ∧ wk_checkpoints s' = wk_checkpoints s ∧ (fragnum oc' ≤ fragnum oc + 2)%N.
Proof.
  intros Hs Ht Hn. apply (group_method s oc ms n (DeleteDoc t)); [done..|].
  unfold raw_delete_doc. by rewrite writable_control by apply Hs.
Qed.

Lemma commit_task_ok s oc ms n coll_name : holding s oc ms n → (fragnum oc + 2 < 2 ^ 32)%N →
  ∃ s' oc', with_collection coll_name Collection.commit s = (s', Ok ()) ∧
    holding s' oc' (ms.1, ms.1) 0 ∧ wk_checkpoints s' = wk_checkpoints s ∧ (fragnum oc' ≤ fragnum oc + 2)%N.
Proof.
  intros Hs Hn. apply (group_method s oc ms n Sync); [done..|].
  unfold Collection.commit. by rewrite writable_control by apply Hs.
Qed.

Lemma config_task_ok s oc ms n coll_name v : holding s oc ms n → accepted v →
  ∃ s' oc', with_collection coll_name (Collection_from_json w v) s = (s', Ok ()) ∧
    holding s' oc' ms n ∧ wk_checkpoints s' = wk_checkpoints s ∧ (fragnum oc' ≤ fragnum oc + 2)%N.
Proof.
  intros Hs Hv. pose proof Hs as [_ Hg Hw Hm Hd]. destruct (Hv (config (coll oc))) as (c' & j & E1 & E2).
  destruct (restartable_metadata json_serialise "_restpose_config" (json_serialise j) _ _ _ _ ltac:(done) ltac:(done) Hg Hw Hm Hd)
    as (g' & E & H1 & H2 & H3 & H4 & H5).
  apply (with_collection_ok s oc ms ms n n coll_name _ (mkColl g' c')); [done| |done..|cbn; lia].
  unfold Collection_from_json, when_writable. rewrite writable_control by done.
  unfold on_config, store_config, mbind, M_bind. rewrite E1. cbn beta iota. unfold getM, liftM, on_group. cbn. by rewrite E2, E.
Qed.

Lemma bad_name_task_ok s coll_name doc_type doc_id : name_error doc_type doc_id ≠ "" →
  perform (RequestedTask (DeleteDocumentTask doc_type doc_id)) coll_name s =
    (mkWorker (wk_collection s) (wk_pool s)
       (foldl (run_cp_op clock max_recent_errors expiry_time) (wk_checkpoints s) (reports coll_name (RequestedTask (DeleteDocumentTask doc_type doc_id)))), Ok ()).
Proof.
  intros Hne. unfold reports. rewrite decide_False by done.
  assert (E : perform_task (document := document) w io max_recent_errors allterms (RequestedTask (DeleteDocumentTask doc_type doc_id)) coll_name s =
    (mkWorker (wk_collection s) (wk_pool s) (run_cp_op clock max_recent_errors expiry_time (wk_checkpoints s) (OpError coll_name (name_error doc_type doc_id) doc_type doc_id)),
     throw (InvalidValueError (name_error doc_type doc_id)))).
  { cbn [perform_task]. unfold DeleteDocumentTask_perform_task. fold (name_error doc_type doc_id).
    replace (if decide (validate_doc_type doc_type = "") then validate_doc_id doc_id else validate_doc_type doc_type) with (name_error doc_type doc_id) by done.
    by rewrite decide_True. }
  unfold IndexingTask_perform. rewrite E. reflexivity.
Qed.

Lemma holding_same s s' oc ms n : wk_collection s' = wk_collection s → holding s oc ms n → holding s' oc ms n.
Proof. intros E []. split; [by rewrite E|done..]. Qed.

(** A checkpoint is marked after its task. *)
Lemma reached_after t coll_name checkid do_commit s s' : t = RequestedTask (IndexingCheckpointTask checkid do_commit) →
  perform_task (document := document) w io max_recent_errors allterms t coll_name s = (s', Ok ()) →
  ∃ s2, perform t coll_name s = (s2, Ok ()) ∧ wk_collection s2 = wk_collection s' ∧
    wk_checkpoints s2 = run_cp_op clock max_recent_errors expiry_time (wk_checkpoints s') (OpReached coll_name checkid).
Proof.
  intros -> E. unfold IndexingTask_perform. rewrite E. cbn [post_perform run_cp_op]. unfold on_checkpoints.
  destruct (set_reached_run clock expiry_time coll_name checkid (wk_checkpoints s')) as (g' & t' & E' & _). rewrite E'. by eexists.
Qed.

(** One task. *)
Lemma task_ok s oc ms n coll_name t : holding s oc ms n → task_fits t → (fragnum oc + 2 < 2 ^ 32)%N →
  ∃ s' oc', perform t coll_name s = (s', Ok ()) ∧ holding s' oc' (effect ms t) (changed_since n t) ∧
    wk_checkpoints s' = foldl (run_cp_op clock max_recent_errors expiry_time) (wk_checkpoints s) (reports coll_name t) ∧
    (fragnum oc' ≤ fragnum oc + 2)%N.
Proof.
  intros Hs Ht Hn. unfold changed_since. destruct t as [v|idterm doc|[doc_type doc_id|checkid do_commit]| |v| | | | |]; cbn in Ht; try done.
  - destruct (config_task_ok s oc ms n coll_name v Hs Ht) as (s' & oc' & E & H1 & H2 & H3).
    exists s', oc'. unfold IndexingTask_perform. cbn [perform_task]. unfold IndexerConfigChangedTask_perform_task. rewrite E. by split_and!.
  - destruct (update_task_ok s oc ms n coll_name idterm doc Hs Ht Hn) as (s' & oc' & E & H1 & H2 & H3).
    exists s', oc'. unfold IndexingTask_perform. cbn [perform_task]. unfold IndexerUpdateDocumentTask_perform_task. rewrite E. by split_and!.
  - destruct (decide (name_error doc_type doc_id = "")) as [He|He].
    + destruct (delete_task_ok s oc ms n coll_name (sing (chr 9) +:+ doc_type +:+ sing (chr 9) +:+ doc_id) Hs ltac:(done) Hn) as (s' & oc' & E & H1 & H2 & H3).
      exists s', oc'. unfold IndexingTask_perform, effect, reports. cbn [perform_task]. unfold DeleteDocumentTask_perform_task.
      fold (name_error doc_type doc_id). rewrite !(decide_True _ _ He). unfold name_error in He.
      rewrite (decide_False (P := _ ≠ "")) by (intros Hx; by apply Hx). rewrite E. by split_and!.
    + eexists _, oc. rewrite bad_name_task_ok by done. split_and!; [done| |done|lia].
      cbn [effect]. rewrite !(decide_False _ _ He). destruct Hs. by split.
  - destruct do_commit.
    + destruct (commit_task_ok s oc ms n coll_name Hs Hn) as (s' & oc' & E & H1 & H2 & H3).
      destruct (reached_after (RequestedTask (IndexingCheckpointTask checkid true)) coll_name checkid true s s') as (s2 & E2 & H4 & H5); [done|exact E|].
      exists s2, oc'. split_and!; [done|by apply (holding_same s')|by rewrite H5, H2|done].
    + destruct (reached_after (RequestedTask (IndexingCheckpointTask checkid false)) coll_name checkid false s s) as (s2 & E2 & H4 & H5); [done..|].
      exists s2, oc. split_and!; [done|by apply (holding_same s)|done|lia].
  - destruct (config_task_ok s oc ms n coll_name v Hs Ht) as (s' & oc' & E & H1 & H2 & H3).
    exists s', oc'. unfold IndexingTask_perform. cbn [perform_task]. unfold CollSetConfigTask_perform_task. rewrite E. by split_and!.
Qed.

(** The state after the tasks of a list. *)
Fixpoint after (coll_name : string) (l : list task) (s : worker) : worker :=
  match l with [] => s | t :: l => after coll_name l (perform t coll_name s).1 end.

Lemma tasks_ok l : ∀ s oc ms n coll_name, holding s oc ms n → Forall task_fits l → (fragnum oc + 2 * N.of_nat (length l) < 2 ^ 32)%N →
  ∃ oc', holding (after coll_name l s) oc' (foldl effect ms l) (foldl changed_since n l) ∧
    (∀ rest, loop coll_name ((Popped <$> l) ++ rest) s = loop coll_name rest (after coll_name l s)) ∧
    wk_checkpoints (after coll_name l s) =
      foldl (run_cp_op clock max_recent_errors expiry_time) (wk_checkpoints s) (l ≫= reports coll_name) ∧
    (fragnum oc' ≤ fragnum oc + 2 * N.of_nat (length l))%N.
Proof.
  induction l as [|t l IH]; intros s oc ms n coll_name Hs Hl Hn; [exists oc; split_and!; try done; cbn; lia|].
  apply Forall_cons in Hl as [Ht Hl]. cbn [length] in Hn.
  destruct (task_ok s oc ms n coll_name t Hs Ht) as (s1 & oc1 & E & H1 & H2 & H3); [lia|].
  destruct (IH s1 oc1 _ _ coll_name H1 Hl) as (oc2 & H4 & H5 & H6 & H7); [lia|].
  cbn [after]. rewrite E. exists oc2. split_and!; [done| | |cbn [length]; lia].
  - intros rest. cbn [fmap list_fmap app perform_all]. unfold mbind at 1, M_bind at 1. rewrite E. apply H5.
  - rewrite bind_cons, foldl_app, <-H2. exact H6.
Qed.

(** *** The documents on the disk *)

Definition commits (t : task) : Prop := match t with RequestedTask (IndexingCheckpointTask _ true) => True | _ => False end.

Lemma effect_disk l : ∀ ms, Forall (λ t, ¬ commits t) l → (foldl effect ms l).2 = ms.2.
Proof.
  induction l as [|t l IH]; intros ms H; [done|]. apply Forall_cons in H as [Ht H]. cbn [foldl]. rewrite IH by done.
  destruct t as [| |[doc_type doc_id|checkid []]| | | | | | |]; cbn [effect]; try done. by destruct (decide _).
Qed.

Lemma effect_docs l : ∀ ms ms', ms.1 = ms'.1 → (foldl effect ms l).1 = (foldl effect ms' l).1.
Proof.
  induction l as [|t l IH]; intros ms ms' E; [done|]. cbn [foldl]. apply IH.
  destruct t as [| |[doc_type doc_id|checkid []]| | | | | | |]; cbn [effect]; try destruct (decide _); cbn; congruence.
Qed.

Lemma changed_length l : ∀ n, (foldl changed_since n l ≤ n + N.of_nat (length l))%N.
Proof.
  induction l as [|t l IH]; intros n; cbn [foldl length]; [lia|]. etrans; [apply IH|].
  destruct t as [| |[doc_type doc_id|checkid []]| | | | | | |]; cbn [changed_since]; try case_decide; lia.
Qed.

Lemma restart_ok g (m : gmap string document) n : group_ok g → restartable json_serialise g m n → (n < flush_threshold)%N → (next_fragnum g < 2 ^ 32)%N →
  ∃ g', run_op json_serialise json_unserialise styled io Restart g = (g', Ok ()) ∧ group_ok g' ∧ writable g' ∧ fresh g' ∧ represents g' m.
Proof.
  intros Hg Hd Hf Hn. destruct (open_restarted json_serialise json_unserialise styled io Hio Htext g m n Hg Hd Hn) as (X & str & E).
  exists (opened g X str). destruct (opened_ok json_serialise g m n X str Hg Hd Hf) as (H1 & H2 & H3 & _). split_and!; [exact E|done..].
Qed.

(** What is there after a list of tasks, a checkpoint that commits and more tasks. *)
Lemma durable s oc m m0 n coll_name ts1 checkid ts2 :
  holding s oc (m, m0) n → (N.of_nat (length ts2) < flush_threshold)%N → Forall task_fits (ts1 ++ ts2) → Forall (λ t, ¬ commits t) ts2 →
  (fragnum oc + 2 * N.of_nat (length ts1 + 2 + length ts2) < 2 ^ 32)%N →
  let last := RequestedTask (IndexingCheckpointTask checkid true) in
  let reported := foldl (run_cp_op clock max_recent_errors expiry_time) (wk_checkpoints s) (ts1 ≫= reports coll_name) in
  ∃ s1 s2 oc2 g',
    (∀ rest, loop coll_name ((Popped <$> ts1 ++ [last]) ++ rest) s = loop coll_name rest s1) ∧
    (∃ t, checkpoints (wk_checkpoints s1) !! coll_name ≫= (.!! checkid) = Some (mkCheckPoint (recent_errors reported !! coll_name) t true)) ∧
    (∀ rest, loop coll_name ((Popped <$> ts2) ++ rest) s1 = loop coll_name rest s2) ∧
    wk_collection s2 = Some oc2 ∧ represents (group (coll oc2)) (foldl effect (m, m0) (ts1 ++ ts2)).1 ∧
    run_op json_serialise json_unserialise styled io Restart (group (coll oc2)) = (g', Ok ()) ∧
    group_ok g' ∧ writable g' ∧ fresh g' ∧ represents g' (foldl effect (m, m0) ts1).1.
Proof.
  intros Hs Hfl [Hf1 Hf2]%Forall_app Hno Hn last reported.
  destruct (tasks_ok (ts1 ++ [last]) s oc (m, m0) n coll_name Hs) as (oc1 & H1 & H2 & H3 & H4);
    [by apply Forall_app; split; [|repeat constructor]|rewrite length_app; cbn [length]; lia|].
  rewrite length_app in H4. cbn [length] in H4. rewrite bind_app, foldl_app in H3. rewrite !foldl_app in H1. cbn [foldl effect changed_since last] in H1.
  destruct (tasks_ok ts2 _ oc1 _ _ coll_name H1 Hf2) as (oc2 & [H5 H9 H10 H11 H12] & H6 & H7 & H8); [lia|]. rewrite effect_disk in H12 by done.
  destruct (restart_ok _ _ _ H9 H12) as (g' & E & G1 & G2 & G3 & G4); [pose proof (changed_length ts2 0); lia|lia|].
  eexists _, _, oc2, g'. split_and!; [exact H2| |exact H6|exact H5| |done..].
  - rewrite H3. destruct (set_reached_run clock expiry_time coll_name checkid reported) as (g2 & t & E' & Hr). exists t.
    unfold reported in *. cbn. rewrite E'. exact Hr.
  - rewrite foldl_app. by erewrite effect_docs.
Qed.

End tasks.

(** C3: what was done before a reached checkpoint is safe.  Take tasks that are updates of
    documents stored under their own and only identifier, deletions of documents, accepted
    configurations and checkpoints ([task_fits]; the deletion of the collection and changes
    of categories are not among them), let file operations and commits succeed, and fewer
    than 2^32 fragments be made.  An
    indexing thread that performs such tasks [ts1], a checkpoint that commits, and such
    tasks [ts2] without one marks the checkpoint as reached with exactly the errors of
    [ts1]; the collection then holds what all these tasks make of its documents; and when
    [ts2] are fewer tasks than the changes that make the library commit of itself
    ([flush_threshold], 10000 by default), a server that ends at that moment and starts
    again finds exactly what [ts1] made of the documents. *)
Theorem checkpoint_durable {document database pool} `{!Xapian document database} `{!XapianLaws document database}
    `{!CommitsSucceed document database}
    `{!DocStore document} `{!IndexLib document} `{!CollectionStore pool (@OpenCollection database)}
    w io clock max_recent_errors expiry_time xapian_description allterms json_unserialise
    (s : @Worker database pool) oc (m m0 : gmap string document) n coll_name ts1 checkid ts2
    (Hio : ∀ step, io step = true) (Htext : text_laws json_serialise json_unserialise)
    (Hs : holding s oc (m, m0) n) (Hfit : Forall (task_fits w) (ts1 ++ ts2)) (Hno : Forall (λ t, ¬ commits t) ts2)
    (Hflush : (N.of_nat (length ts2) < flush_threshold)%N)
    (Hn : (next_fragnum (group (coll oc)) + 2 * N.of_nat (length ts1 + 2 + length ts2) < 2 ^ 32)%N) :
  let loop := perform_all (document := document) w io clock max_recent_errors expiry_time xapian_description allterms coll_name in
  let last := RequestedTask (IndexingCheckpointTask checkid true) in
  let reported := foldl (run_cp_op clock max_recent_errors expiry_time) (wk_checkpoints s) (ts1 ≫= reports coll_name) in
  ∃ s1 s2 oc2,
    (∀ rest, loop ((Popped <$> ts1 ++ [last]) ++ rest) s = loop rest s1) ∧
    (∃ t, checkpoints (wk_checkpoints s1) !! coll_name ≫= (.!! checkid) = Some (mkCheckPoint (recent_errors reported !! coll_name) t true)) ∧
    (∀ rest, loop ((Popped <$> ts2) ++ rest) s1 = loop rest s2) ∧
    wk_collection s2 = Some oc2 ∧ represents (group (coll oc2)) (foldl effect (m, m0) (ts1 ++ ts2)).1 ∧
    ∃ g', run_op json_serialise json_unserialise styled io Restart (group (coll oc2)) = (g', Ok ()) ∧
      group_ok g' ∧ writable g' ∧ represents g' (foldl effect (m, m0) ts1).1.
Proof.
  intros loop last reported.
  destruct (durable w io clock max_recent_errors expiry_time xapian_description allterms json_unserialise Hio Htext
    s oc m m0 n coll_name ts1 checkid ts2 Hs Hflush Hfit Hno Hn) as (s1 & s2 & oc2 & g' & H1 & H2 & H3 & H4 & H5 & H6 & H7 & H8 & _ & H9).
  exists s1, s2, oc2. split_and!; [exact H1|exact H2|exact H3|done|done|]. by exists g'.
Qed.

(** *** A day of a collection *)

(** The reference library, with a text of JSON that can be read again. *)
Definition stored_IndexLib : IndexLib refdoc := {|
  new_document := new_document;
  add_term_wdf := add_term_wdf;
  add_posting := add_posting;
  set_data := set_data;
  known_language := known_language;
  index_text := index_text;
  tokenize := tokenize;
  Indexing.tolower := Indexing.tolower;
  sortable_serialise := sortable_serialise;
  serialise_coord := serialise_coord;
  strtod := strtod;
  json_serialise := ref_serialise;
  styled := styled;
|}.

Definition no_pool : CollectionStore () (@OpenCollection refdb) := {|
  get_writable _ := throwM (XapianError "DatabaseOpeningError");
  get_readonly _ := throwM (XapianError "DatabaseOpeningError");
  release _ := mret ();
  del _ := mret ();
  coll_exists _ := mret false;
|}.

Definition empty_config : CollectionConfig := mkConfig "coll" ∅ ∅ ∅ "" "" "" JNull ∅ false.
Definition plain_config : json := JObj [("format", JInt 3)].

Lemma plain_accepted : @accepted refdoc stored_IndexLib 64 plain_config.
Proof. intros c. eexists _, _. by split. Qed.

Definition morning : list (@IndexingTask refdoc) :=
  [CollSetConfigTask plain_config; IndexerUpdateDocumentTask (sing (chr 9) +:+ "a") doc1; RequestedTask (DeleteDocumentTask "" "x")].
Definition afternoon : list (@IndexingTask refdoc) :=
  [IndexerUpdateDocumentTask (sing (chr 9) +:+ "b") doc2; RequestedTask (DeleteDocumentTask "t" "a")].

Lemma checkpoint_durable_witness :
  let _ := stored_IndexLib in let _ := no_pool in
  ∃ (s s1 s2 : @Worker refdb ()) oc2,
    (∀ rest, perform_all 64 (λ _, true) Z.of_nat 100 600 (λ n, n) (λ _ _, []) "coll"
      ((Popped <$> morning ++ [RequestedTask (IndexingCheckpointTask "c" true)]) ++ rest) s =
      perform_all 64 (λ _, true) Z.of_nat 100 600 (λ n, n) (λ _ _, []) "coll" rest s1) ∧
    (∃ t l, checkpoints (wk_checkpoints s1) !! "coll" ≫= (.!! "c") = Some (mkCheckPoint (Some l) t true) ∧ total_errors l = 2%N) ∧
    wk_collection s2 = Some oc2 ∧ represents (group (coll oc2)) {[sing (chr 9) +:+ "a" := doc1; sing (chr 9) +:+ "b" := doc2]} ∧
    ∃ g', run_op ref_serialise ref_unserialise styled (λ _, true) Restart (group (coll oc2)) = (g', Ok ()) ∧
      represents g' {[sing (chr 9) +:+ "a" := doc1]}.
Proof.
  intros IL CS.
  destruct (new_group_opens (XD := refdb_Xapian) ref_serialise ref_unserialise styled (λ _, true) ltac:(done) "g" ∅ ∅) as (g & E & H1 & H2 & H3 & H4 & H5).
  set (oc := mkOpen (mkColl g empty_config) "").
  set (s := mkWorker (Some oc) () new_Manager).
  destruct (checkpoint_durable 64 (λ _, true) Z.of_nat 100 600 (λ n, n) (λ _ _, []) ref_unserialise s oc ∅ ∅ 0 "coll" morning "c" afternoon)
    as (s1 & s2 & oc2 & R1 & (t & R2) & R3 & R4 & R5 & g' & R6 & _ & _ & R7).
  - done.
  - apply ref_text_laws.
  - by split.
  - repeat constructor; [apply plain_accepted|vm_compute; reflexivity..].
  - repeat constructor; intros [].
  - reflexivity.
  - cbn. rewrite H5. done.
  - exists s, s1, s2, oc2. split_and!; [exact R1| |exact R4| |].
    + exists t. eexists. split; [rewrite R2; reflexivity|reflexivity].
    + exact R5.
    + exists g'. split; [exact R6|]. exact R7.
Defined.
