(* ===== verification/PutThms.v ===== *)
(** * A document from its request to the disk

    A processing thread makes a document of the JSON it is given and hands it on; the
    indexing thread stores it; a checkpoint makes it durable.  The parts' theorems together
    say what a client may rely on: the document is found again after a restart, as long as
    the tasks in between are of the kinds that [task_fits] tells. *)

From stdpp Require Import pretty.
From S2P Require Import Prelude Json TextUtils Hashing DocValues Taxonomy Pipe NGram Schema CollConfig Indexing IndexingThms XapianDb RefLib RefJson DbGroup DbGroupThms Restart Collection ProcessDoc ProcessThms SendToPipe CollectionOps Checkpoints Http Router Handlers Tasks TaskThreads TasksThms.

Section put.
Context {document database pool : Type} `{XD : !Xapian document database} `{XL : !XapianLaws document database}.
Context `{CSu : !CommitsSucceed document database}.
Context `{DS : !DocStore document} `{IL : !IndexLib document} `{LL : !IndexLibLaws document database}.
Context `{CS : !CollectionStore pool (@OpenCollection database)}.
Context (w : N) (assertions : bool) (max_recent_errors : N).





End put.


(** *** The first post of a blog *)

#[local] Existing Instance stored_IndexLib | 0.
#[local] Existing Instance no_pool | 0.





