(* ===== verification/CacheThms.v ===== *)
(** * The cached configurations follow the collections

    src/jsonxapian/collconfigs.cc and the tasks of src/features/category_tasks.cc: a
    processing thread changes its cached copy of the configuration of a collection at once,
    the collection is changed when its indexing thread gets to the task that was handed on.
    The two make the same change. *)

From S2P Require Import Prelude Json TextUtils DocValues Taxonomy Pipe NGram Schema CollConfig ConfigThms Indexing XapianDb RefLib RefJson DbGroup DbGroupThms Collection CategoryUpdates ProcessDoc SendToPipe CollectionOps Checkpoints Http Router Handlers Tasks TaskThreads TasksThms.

(** ** Methods that leave the configuration of a collection alone *)

Section keeps.
Context {database : Type}.
Abbreviation Collection := (@Collection database).

Definition keeps_config {A} (m : M Collection A) : Prop := ∀ c, config (m c).1 = config c.

Lemma keeps_config_bind {A B} (m : M Collection A) (f : A → M Collection B) :
  keeps_config m → (∀ a, keeps_config (f a)) → keeps_config (m ≫= f).
Proof.
  intros Hm Hf c. unfold mbind, M_bind. specialize (Hm c). destruct (m c) as [c1 [a| |]]; [|done..]. by rewrite (Hf a c1).
Qed.
Lemma keeps_config_ret {A} (a : A) : keeps_config (mret a).
Proof. done. Qed.
Lemma keeps_config_get : keeps_config getM.
Proof. done. Qed.
Lemma keeps_config_group {A} (op : M (@DbGroup database) A) : keeps_config (on_group op).
Proof. intros c. unfold on_group. by destruct (op (group c)). Qed.
Lemma keeps_config_each {A} (f : A → M Collection ()) l : (∀ a, keeps_config (f a)) → keeps_config (for_each l f).
Proof.
  intros Hf. induction l as [|a l IH]; [apply keeps_config_ret|]. cbn [for_each]. by apply keeps_config_bind.
Qed.

End keeps.

#[export] Hint Resolve keeps_config_bind keeps_config_ret keeps_config_get keeps_config_group keeps_config_each : keeps_config.

(** ** One change *)

Section change.
Context {document database pool : Type} `{XD : !Xapian document database} `{DS : !DocStore document} `{IL : !IndexLib document}.
Context `{CS : !CollectionStore pool (@OpenCollection database)}.
Context (w : N) (assertions : bool) (io : io_step → bool) (max_recent_errors : N).
Context (allterms : database → string → list string).

Lemma update_keeps (config_str : CollectionConfig → string) name t mods :
  keeps_config (update_modified_categories json_serialise io name t mods ;; write_config config_str).
Proof. unfold update_modified_categories, write_config. auto 8 with keeps_config. Qed.

(** The same operation on two configurations with the same taxonomies. *)
Lemma change_taxonomy_same name op c c' : taxonomies c = taxonomies c' →
  taxonomies (change_taxonomy name op c).1 = taxonomies (change_taxonomy name op c').1 ∧
  (change_taxonomy name op c).2 = (change_taxonomy name op c').2.
Proof.
  intros E. destruct (change_taxonomy_eq name op c) as [ch ->], (change_taxonomy_eq name op c') as [ch' ->].
  assert (Et : the_taxonomy name c = the_taxonomy name c') by (unfold the_taxonomy; by rewrite E). rewrite Et.
  destruct (op _) as [t r]. cbn. by rewrite E.
Qed.

(** A task and the operation on a configuration it stands for. *)
Definition category_change (t : processing_task) : option (M CollectionConfig () * @IndexingTask document) :=
  match t with
  | ProcessingCollPutCategoryTask tx cat => Some (category_add tx cat ;; mret (), CollPutCategoryTask tx cat)
  | ProcessingCollPutCategoryParentTask tx cat parent =>
      Some (category_add_parent tx cat parent ;; mret (), CollPutCategoryParentTask tx cat parent)
  | ProcessingCollDeleteTaxonomyTask tx => Some (modifyM (remove_taxonomy_config tx), CollDeleteTaxonomyTask tx)
  | ProcessingCollDeleteCategoryTask tx cat => Some (category_remove tx cat ;; mret (), CollDeleteCategoryTask tx cat)
  | ProcessingCollDeleteCategoryParentTask tx cat parent =>
      Some (category_remove_parent tx cat parent ;; mret (), CollDeleteCategoryParentTask tx cat parent)
  | _ => None
  end.

(** The collection's own configuration after its task. *)
Lemma category_update_config config_str name op (c : @Collection database) :
  config (category_update json_serialise io config_str name op c).1 = (op (config c)).1.
Proof.
  unfold category_update, mbind at 1, M_bind at 1, on_config. destruct (op (config c)) as [cfg [r| |]]; [|done..].
  by rewrite (update_keeps config_str name r.1 r.2).
Qed.

Lemma remove_taxonomy_keeps name (c : @Collection database) :
  config (Collection_remove_taxonomy json_serialise io config_text allterms name c).1 = remove_taxonomy_config name (config c).
Proof.
  unfold Collection_remove_taxonomy. unfold mbind at 1, M_bind at 1. cbn.
  match goal with |- config (?m ?c0).1 = _ => assert (H : keeps_config m); [|by rewrite (H c0)] end.
  unfold write_config. auto 12 with keeps_config.
Qed.

Lemma with_collection_config (wk : @Worker database pool) oc coll_name (op : M (@Collection database) ()) : wk_collection wk = Some oc →
  ∃ oc', wk_collection (with_collection coll_name op wk).1 = Some oc' ∧ coll oc' = (op (coll oc)).1.
Proof.
  intros Ho. unfold with_collection, need_collection, on_collection, on_coll, mbind, M_bind, getM. rewrite Ho.
  cbn -[on_coll]. rewrite Ho. cbn. destruct (op (coll oc)) as [c r]. by eexists.
Qed.

(** What the collection does with the task, if the configuration allows the operation. *)
Lemma collection_change t f it (wk : @Worker database pool) oc coll_name c :
  category_change t = Some (f, it) → wk_collection wk = Some oc → taxonomies (config (coll oc)) = taxonomies c →
  ∃ oc', wk_collection (perform_task w io max_recent_errors allterms it coll_name wk).1 = Some oc' ∧
    taxonomies (config (coll oc')) = taxonomies (f c).1.
Proof.
  intros Ht Ho Htx.
  assert (Hup : ∀ name op, taxonomies (change_taxonomy name op (config (coll oc))).1 = taxonomies ((change_taxonomy name op ;; mret ()) c).1).
  { intros name op. destruct (change_taxonomy_same name op _ _ Htx) as [E _]. rewrite E. unfold mbind, M_bind.
    by destruct (change_taxonomy name op c) as [? []]. }
  destruct t as [| | | |tx cat|tx cat parent|tx|tx cat|tx cat parent]; try done; injection Ht as <- <-; cbn [perform_task];
    unfold CollPutCategoryTask_perform_task, CollPutCategoryParentTask_perform_task, CollDeleteTaxonomyTask_perform_task,
      CollDeleteCategoryTask_perform_task, CollDeleteCategoryParentTask_perform_task.
  all: edestruct (with_collection_config wk oc coll_name) as (oc' & E1 & E2); [exact Ho|]; exists oc'; split; [exact E1|]; rewrite E2.
  - etrans; [|apply (Hup tx (Taxonomy_add cat))]. unfold Collection_category_add, category_add, mbind, M_bind, on_config.
    destruct (change_taxonomy tx _ (config (coll oc))) as [cfg [r| |]]; [|done..].
    unfold write_config, mbind, M_bind, getM, on_group. by destruct (DbGroup_set_metadata _ _ _).
  - unfold Collection_category_add_parent. rewrite category_update_config. apply Hup.
  - rewrite remove_taxonomy_keeps. cbn. unfold remove_taxonomy_config. rewrite Htx. by destruct (taxonomies c !! tx); cbn; rewrite ?Htx.
  - unfold Collection_category_remove. rewrite category_update_config. apply Hup.
  - unfold Collection_category_remove_parent. rewrite category_update_config. apply Hup.
Qed.

(** What the processing thread does with the task, when the configuration is cached. *)
Lemma change_categories_run {A} (op : M CollectionConfig A) it coll_name (s : @Processor document pool) c :
  config_ok w c → configs s !! coll_name = Some (Some c) →
  ∃ ch, change_categories w op it coll_name s =
    match op (cloned ch c) with
    | (cfg, Ok _) => (mkProcessor (<[coll_name := Some cfg]> (configs s)) (pr_pool s) (pr_checkpoints s) (handed_on s ++ [(coll_name, it)]), Ok ())
    | (_, Throw e) => (s, Throw e)
    | (_, OutOfFuel) => (s, OutOfFuel)
    end.
Proof.
  intros Hc Hs. destruct (clone_ok w json_serialise c Hc) as [ch E]. exists ch.
  assert (Hget : CollectionConfigs_get w coll_name s = (s, Ok (cloned ch c))).
  { unfold CollectionConfigs_get, mbind, M_bind, getM. rewrite Hs. cbn. unfold clone_config, liftM. by rewrite E. }
  unfold change_categories. rewrite (bind_ok _ _ s s _ Hget). by destruct (op (cloned ch c)) as [cfg [a|e|]].
Qed.

Lemma processing_change t f it coll_name (s : @Processor document pool) c :
  category_change t = Some (f, it) → config_ok w c → configs s !! coll_name = Some (Some c) →
  let '(s', r) := processing_perform w assertions max_recent_errors t coll_name s in
  (s' = s ∧ r ≠ Ok ()) ∨
  (r = Ok () ∧ ∃ ch, configs s' = <[coll_name := Some (f (cloned ch c)).1]> (configs s) ∧ handed_on s' = handed_on s ++ [(coll_name, it)]).
Proof.
  intros Ht Hc Hs. destruct t as [| | | |tx cat|tx cat parent|tx|tx cat|tx cat parent]; try done; injection Ht as <- <-; cbn [processing_perform];
    unfold ProcessingCollPutCategoryTask_perform, ProcessingCollPutCategoryParentTask_perform, ProcessingCollDeleteTaxonomyTask_perform,
      ProcessingCollDeleteCategoryTask_perform, ProcessingCollDeleteCategoryParentTask_perform.
  all: match goal with |- context [change_categories w ?op ?it] => destruct (change_categories_run op it coll_name s c Hc Hs) as [ch ->] end.
  3: right; by eauto.
  all: unfold mbind, M_bind; match goal with |- context [?op (cloned ?ch ?d)] => destruct (op (cloned ch d)) as [cfg [r|e|]] eqn:E; [right; split; [done|]; exists ch; by rewrite E|by left..] end.
Qed.

End change.

(** C19: the cached configuration of a collection and the collection itself change their
    categories alike.  When the cached configuration is well-formed and has the taxonomies
    of the collection, a task that changes a taxonomy either fails, and then changes nothing
    and hands nothing on, or hands on one task to the indexing queue; once the indexing
    thread has performed that task -- whether it then succeeds in updating the documents or
    not -- the collection has the taxonomies of the cached configuration again. *)
Theorem cache_follows_collection {document database pool} `{!Xapian document database} `{!DocStore document} `{!IndexLib document}
    `{!CollectionStore pool (@OpenCollection database)}
    w assertions io max_recent_errors (allterms : database → string → list string) t f it coll_name
    (s : @Processor document pool) (wk : @Worker database pool) c oc
    (Ht : category_change t = Some (f, it)) (Hc : config_ok w c)
    (Hs : configs s !! coll_name = Some (Some c)) (Ho : wk_collection wk = Some oc) (Htx : taxonomies (config (coll oc)) = taxonomies c) :
  let '(s', r) := processing_perform w assertions max_recent_errors t coll_name s in
  (s' = s ∧ r ≠ Ok ()) ∨
  (r = Ok () ∧ handed_on s' = handed_on s ++ [(coll_name, it)] ∧
   ∃ c' oc', configs s' !! coll_name = Some (Some c') ∧
     wk_collection (perform_task w io max_recent_errors allterms it coll_name wk).1 = Some oc' ∧
     taxonomies (config (coll oc')) = taxonomies c').
Proof.
  pose proof (processing_change w assertions max_recent_errors t f it coll_name s c Ht Hc Hs) as Hp.
  destruct (processing_perform w assertions max_recent_errors t coll_name s) as [s' r].
  destruct Hp as [Hp|(Hr & ch & E1 & E2)]; [by left|right]. split_and!; [done..|].
  destruct (collection_change w io max_recent_errors allterms t f it wk oc coll_name (cloned ch c) Ht Ho Htx) as (oc' & E3 & E4).
  exists (f (cloned ch c)).1, oc'. split_and!; [rewrite E1; apply lookup_insert_eq|done..].
Qed.

(** *** A category that gets a parent *)

Definition blog_processor : @Processor refdoc () := mkProcessor {["blogs" := Some blog_config]} () new_Manager [].
(** The ancestors of a category in the cached configuration. *)
Definition cached_ancestors (name tx cat : string) (s : @Processor refdoc ()) : option Categories :=
  c ← configs s !! name; c ← c; t ← taxonomies c !! tx; ancestors <$> (t !! cat).

Definition blog_worker : @Worker refdb () :=
  mkWorker (Some (mkOpen (mkColl empty_group blog_config) "")) () new_Manager.

Definition adopt : processing_task := ProcessingCollPutCategoryParentTask "topics" "x" "a".
Definition adopted : @Processor refdoc () * res () :=
  processing_perform (IL := stored_IndexLib) (CS := no_pool) 64 true 100 adopt "blogs" blog_processor.

Lemma cache_follows_collection_witness :
  adopted.2 = Ok () ∧ handed_on adopted.1 = [("blogs", CollPutCategoryParentTask "topics" "x" "a")] ∧
  elements <$> cached_ancestors "blogs" "topics" "x" adopted.1 = Some ["a"] ∧
  ∃ c' oc', configs adopted.1 !! "blogs" = Some (Some c') ∧
    wk_collection (perform_task (IL := stored_IndexLib) (CS := no_pool) 64 (λ _, true) 100 (λ _ _, [])
      (CollPutCategoryParentTask "topics" "x" "a") "blogs" blog_worker).1 = Some oc' ∧
    taxonomies (config (coll oc')) = taxonomies c'.
Proof.
  assert (Hc : config_ok 64 blog_config) by apply config_clone_same_witness.
  pose proof (cache_follows_collection (IndexLib0 := stored_IndexLib) (CollectionStore0 := no_pool) 64 true (λ _, true) 100 (λ _ _, [])
    adopt _ _ "blogs" blog_processor blog_worker blog_config _ eq_refl Hc eq_refl eq_refl eq_refl) as H.
  assert (Hr : adopted.2 = Ok ()) by (vm_compute; reflexivity).
  assert (Ha : elements <$> cached_ancestors "blogs" "topics" "x" adopted.1 = Some ["a"]) by (vm_compute; reflexivity).
  change (processing_perform _ _ _ _ _ _) with adopted in H. destruct adopted as [s' r]. cbn in Hr. subst r.
  destruct H as [[_ H]|(_ & H1 & c' & oc' & H2 & H3 & H4)]; [done|]. split_and!; [done|exact H1|exact Ha|].
  exists c', oc'. exact (conj H2 (conj H3 H4)).
Defined.
