(* ===== verification/ResultHandle.v ===== *)
(** * Handles on results

    src/server/result_handle.h and result_handle.cc: a task and the handler that waits for
    its answer share a result through handles that count each other.  The results live in a
    store, so that it can be said when one is freed. *)

From S2P Require Import Prelude Json CategoryTasks.

(** ** Definitions *)

(** [ResultHandle::Internal]. *)
Record Internal := mkInternal {
  ref_count : N;
  the_result : result;
  nudge_fd : Z;
  nudge_byte : ascii;
}.

Definition new_Internal : Internal := mkInternal 1 new_result (-1) (chr 0).
Definition set_ref_count (n : N) (i : Internal) : Internal := mkInternal n (the_result i) (nudge_fd i) (nudge_byte i).
Definition set_result (r : result) (i : Internal) : Internal := mkInternal (ref_count i) r (nudge_fd i) (nudge_byte i).

(** The results, the handles that exist with what they point to ([None] is the null
    pointer), the next address and the bytes written to wake the main loop up. *)
Record Store := mkStore {
  internals : gmap N Internal;
  handles : gmap N (option N);
  next_internal : N;
  nudges : list (Z * ascii);
}.

Definition no_handles : Store := mkStore ∅ ∅ 0 [].

Definition set_internals (f : gmap N Internal → gmap N Internal) : M Store () :=
  modifyM (λ s, mkStore (f (internals s)) (handles s) (next_internal s) (nudges s)).
Definition set_handle (h : N) (p : option N) : M Store () :=
  modifyM (λ s, mkStore (internals s) (<[h := p]> (handles s)) (next_internal s) (nudges s)).
Definition nudge (fd : Z) (byte : ascii) : M Store () :=
  modifyM (λ s, mkStore (internals s) (handles s) (next_internal s) (nudges s ++ [(fd, byte)])).

(** What a handle points to, which is used without a check. *)
Definition pointed (h : N) : M Store (N * Internal) :=
  s ← getM;
  match mjoin (handles s !! h) with
  | None => throwM UndefinedBehaviour
  | Some p => match internals s !! p with None => throwM UndefinedBehaviour | Some i => mret (p, i) end
  end.

Definition ResultHandle_new (h : N) : M Store () := modifyM (λ s,
  mkStore (<[next_internal s := new_Internal]> (internals s)) (<[h := Some (next_internal s)]> (handles s))
    (next_internal s + 1) (nudges s)).

(** [--ref_count], and the result is deleted with its last handle. *)
Definition drop_reference (h : N) : M Store () :=
  '(p, i) ← pointed h;
  let n := wrap32 (ref_count i + (2 ^ 32 - 1)) in
  set_internals (if (n =? 0)%N then delete p else <[p := set_ref_count n i]>).

(** [internal = other.internal; ++ref_count]. *)
Definition take_reference (h other : N) : M Store () :=
  '(p, i) ← pointed other;
  set_handle h (Some p) ;;
  set_internals <[p := set_ref_count (wrap32 (ref_count i + 1)) i]>.

Definition ResultHandle_destroy (h : N) : M Store () :=
  drop_reference h ;; modifyM (λ s, mkStore (internals s) (delete h (handles s)) (next_internal s) (nudges s)).

Definition ResultHandle_copy (h other : N) : M Store () := take_reference h other.

(** [operator=]: the old result is let go before the new one is looked at. *)
Definition ResultHandle_assign (h other : N) : M Store () :=
  drop_reference h ;; set_handle h None ;; take_reference h other.

Definition ResultHandle_set_nudge (h : N) (fd : Z) (byte : ascii) : M Store () :=
  '(p, i) ← pointed h; set_internals <[p := mkInternal (ref_count i) (the_result i) fd byte]>.

Definition ResultHandle_set_response (h : N) (body : json) (status : Z) : M Store () :=
  '(p, i) ← pointed h; set_internals <[p := set_result (mkResult (Some (body, status)) (is_ready (the_result i))) i]>.

Definition ResultHandle_set_ready (h : N) : M Store () :=
  '(p, i) ← pointed h;
  set_internals <[p := set_result (mkResult (response (the_result i)) true) i]> ;;
  nudge (nudge_fd i) (nudge_byte i).

Definition ResultHandle_is_ready (h : N) : M Store bool := '(_, i) ← pointed h; mret (is_ready (the_result i)).

Definition ResultHandle_failed_json (h : N) (body : json) (status : Z) : M Store () :=
  '(p, i) ← pointed h;
  if is_ready (the_result i) then mret ()
  else
    set_internals <[p := set_result (mkResult (Some (body, status)) true) i]> ;;
    nudge (nudge_fd i) (nudge_byte i).

Definition ResultHandle_failed (h : N) (err : string) (status : Z) : M Store () :=
  ResultHandle_failed_json h (error_body err) status.

(** ** Sequences of operations *)

Inductive handle_op := New (h : N) | Copy (h other : N) | Assign (h other : N) | Destroy (h : N)
| SetNudge (h : N) (fd : Z) (byte : ascii) | Respond (h : N) (body : json) (status : Z) | Ready (h : N) | Fail (h : N) (err : string) (status : Z).

Definition run_handle_op (o : handle_op) : M Store () :=
  match o with
  | New h => ResultHandle_new h
  | Copy h other => ResultHandle_copy h other
  | Assign h other => ResultHandle_assign h other
  | Destroy h => ResultHandle_destroy h
  | SetNudge h fd byte => ResultHandle_set_nudge h fd byte
  | Respond h body status => ResultHandle_set_response h body status
  | Ready h => ResultHandle_set_ready h
  | Fail h err status => ResultHandle_failed h err status
  end.

(** What C++ asks of a program: a handle is made once and used while it exists; and no
    handle is assigned to itself. *)
Definition op_valid (hs : gset N) (o : handle_op) : option (gset N) :=
  match o with
  | New h => if decide (h ∈ hs) then None else Some ({[h]} ∪ hs)
  | Copy h other => if decide (h ∉ hs ∧ other ∈ hs) then Some ({[h]} ∪ hs) else None
  | Assign h other => if decide (h ∈ hs ∧ other ∈ hs ∧ h ≠ other) then Some hs else None
  | Destroy h => if decide (h ∈ hs) then Some (hs ∖ {[h]}) else None
  | SetNudge h _ _ | Respond h _ _ | Ready h | Fail h _ _ => if decide (h ∈ hs) then Some hs else None
  end.

Fixpoint ops_valid (hs : gset N) (l : list handle_op) : option (gset N) :=
  match l with [] => Some hs | o :: l => hs ← op_valid hs o; ops_valid hs l end.

(** ** The count *)

Definition count (p : N) (m : gmap N (option N)) : nat := size (filter (λ ho, ho.2 = Some p) m).

(** Every handle points to a result, and every result counts its handles. *)
Record counted (I : gmap N Internal) (n : N) (m : gmap N (option N)) : Prop := {
  cn_handles : ∀ h o, m !! h = Some o → ∃ p i, o = Some p ∧ I !! p = Some i;
  cn_count : ∀ p i, I !! p = Some i → ref_count i = N.of_nat (count p m) ∧ count p m ≠ 0;
  cn_fresh : ∀ p, (n ≤ p)%N → I !! p = None;
}.

Lemma count_insert p h o m : m !! h = None → count p (<[h := o]> m) = (if decide (o = Some p) then 1 else 0) + count p m.
Proof.
  intros Hm. unfold count. destruct (decide (o = Some p)) as [->|Hne].
  - rewrite map_filter_insert_True by done. rewrite map_size_insert_None; [done|]. apply map_lookup_filter_None. by left.
  - rewrite map_filter_insert_False by done. by rewrite delete_id.
Qed.

Lemma count_delete p h o m : m !! h = Some o → count p m = (if decide (o = Some p) then 1 else 0) + count p (delete h m).
Proof. intros Hm. rewrite <-(count_insert p h o (delete h m)) by apply lookup_delete_eq. by rewrite insert_delete_id. Qed.

Lemma count_le p m : count p m ≤ size m.
Proof. unfold count. apply map_subseteq_size, map_filter_subseteq. Qed.

Lemma count_pos p h m : m !! h = Some (Some p) → count p m ≠ 0.
Proof. intros Hm. rewrite (count_delete p h _ m Hm), decide_True by done. lia. Qed.

Lemma size_delete_le h (m : gmap N (option N)) : size (delete h m) ≤ size m.
Proof. apply map_subseteq_size, delete_subseteq. Qed.

Lemma count_zero I n m p : counted I n m → I !! p = None → count p m = 0.
Proof.
  intros Hc Hp. unfold count. apply map_size_empty_iff, map_empty. intros h. apply map_lookup_filter_None. right.
  intros o Hh Ho. cbn in Ho. subst o.
  destruct (cn_handles _ _ _ Hc h _ Hh) as (q & i & [= <-] & Hq). congruence.
Qed.

Lemma drop_counted I n m h p i : counted I n m → m !! h = Some (Some p) → I !! p = Some i → (N.of_nat (size m) < 2 ^ 32)%N →
  let k := wrap32 (ref_count i + (2 ^ 32 - 1)) in
  counted ((if (k =? 0)%N then delete p else <[p := set_ref_count k i]>) I) n (delete h m).
Proof.
  intros Hc Hh Hp Hs k. destruct (cn_count _ _ _ Hc p i Hp) as [Hr Hz]. pose proof (count_le p m).
  pose proof (count_delete p h _ m Hh) as Hd. rewrite decide_True in Hd by done.
  assert (Hk : k = N.of_nat (count p (delete h m))).
  { unfold k, wrap32. rewrite Hr. replace (N.of_nat (count p m) + (2 ^ 32 - 1))%N with (N.of_nat (count p (delete h m)) + 1 * 2 ^ 32)%N by lia.
    rewrite N.Div0.mod_add, N.mod_small by lia. done. }
  assert (Hne : ∀ q, q ≠ p → count q (delete h m) = count q m).
  { intros q Hq. rewrite (count_delete q h _ m Hh), decide_False by congruence. done. }
  destruct (N.eqb_spec k 0) as [Hk0|Hk0]; split.
  - intros h' o [Hne' Ho]%lookup_delete_Some. destruct (cn_handles _ _ _ Hc h' o Ho) as (q & j & -> & Hq). exists q, j. split; [done|].
    rewrite lookup_delete_ne; [done|]. intros <-. assert (Hx : delete h m !! h' = Some (Some p)) by (by rewrite lookup_delete_ne).
    apply count_pos in Hx. lia.
  - intros q j [Hq Hj]%lookup_delete_Some. rewrite Hne by done. by apply (cn_count _ _ _ Hc).
  - intros q Hq. rewrite lookup_delete_None. right. by apply (cn_fresh _ _ _ Hc).
  - intros h' o [_ Ho]%lookup_delete_Some. destruct (cn_handles _ _ _ Hc h' o Ho) as (q & j & -> & Hq).
    destruct (decide (q = p)) as [->|Hqp]; eexists _, _; (split; [done|]); [apply lookup_insert_eq|by rewrite lookup_insert_ne].
  - intros q j. destruct (decide (q = p)) as [->|Hqp]; [rewrite lookup_insert_eq; intros [= <-]; cbn; lia|].
    rewrite lookup_insert_ne by done. intros Hj. rewrite Hne by done. by apply (cn_count _ _ _ Hc).
  - intros q Hq. pose proof (cn_fresh _ _ _ Hc q Hq). rewrite lookup_insert_ne; congruence.
Qed.

Lemma take_counted I n m h p i : counted I n m → m !! h = None → I !! p = Some i → (N.of_nat (size m) + 1 < 2 ^ 32)%N →
  counted (<[p := set_ref_count (wrap32 (ref_count i + 1)) i]> I) n (<[h := Some p]> m).
Proof.
  intros Hc Hh Hp Hs. destruct (cn_count _ _ _ Hc p i Hp) as [Hr Hz]. pose proof (count_le p m).
  split.
  - intros h' o. destruct (decide (h' = h)) as [->|Hne].
    + rewrite lookup_insert_eq. intros [= <-]. eexists p, _. split; [done|apply lookup_insert_eq].
    + rewrite lookup_insert_ne by done. intros Ho. destruct (cn_handles _ _ _ Hc h' o Ho) as (q & j & -> & Hq).
      destruct (decide (q = p)) as [->|Hqp]; eexists _, _; (split; [done|]); [apply lookup_insert_eq|by rewrite lookup_insert_ne].
  - intros q j. rewrite count_insert by done. destruct (decide (q = p)) as [->|Hqp].
    + rewrite lookup_insert_eq, decide_True by done. intros [= <-]. cbn. unfold wrap32. rewrite N.mod_small; lia.
    + rewrite lookup_insert_ne, decide_False by congruence. apply (cn_count _ _ _ Hc).
  - intros q Hq. pose proof (cn_fresh _ _ _ Hc q Hq). rewrite lookup_insert_ne; congruence.
Qed.

Lemma new_counted I n m h : counted I n m → m !! h = None → counted (<[n := new_Internal]> I) (n + 1) (<[h := Some n]> m).
Proof.
  intros Hc Hh. pose proof (cn_fresh _ _ _ Hc n ltac:(lia)) as Hn. pose proof (count_zero _ _ _ n Hc Hn) as Hz. split.
  - intros h' o. destruct (decide (h' = h)) as [->|Hne].
    + rewrite lookup_insert_eq. intros [= <-]. eexists n, _. split; [done|apply lookup_insert_eq].
    + rewrite lookup_insert_ne by done. intros Ho. destruct (cn_handles _ _ _ Hc h' o Ho) as (q & j & -> & Hq).
      exists q, j. split; [done|]. rewrite lookup_insert_ne; congruence.
  - intros q j. rewrite count_insert by done. destruct (decide (q = n)) as [->|Hqp].
    + rewrite lookup_insert_eq, decide_True, Hz by done. intros [= <-]. done.
    + rewrite lookup_insert_ne, decide_False by congruence. apply (cn_count _ _ _ Hc).
  - intros q Hq. rewrite lookup_insert_ne by lia. apply (cn_fresh _ _ _ Hc). lia.
Qed.

Lemma same_counted I n m p i i' : counted I n m → I !! p = Some i → ref_count i' = ref_count i → counted (<[p := i']> I) n m.
Proof.
  intros Hc Hp Hr. split.
  - intros h o Ho. destruct (cn_handles _ _ _ Hc h o Ho) as (q & j & -> & Hq).
    destruct (decide (q = p)) as [->|Hqp]; eexists _, _; (split; [done|]); [apply lookup_insert_eq|by rewrite lookup_insert_ne].
  - intros q j. destruct (decide (q = p)) as [->|Hqp]; [|rewrite lookup_insert_ne by done; apply (cn_count _ _ _ Hc)].
    rewrite lookup_insert_eq. intros [= <-]. rewrite Hr. by apply (cn_count _ _ _ Hc).
  - intros q Hq. pose proof (cn_fresh _ _ _ Hc q Hq). rewrite lookup_insert_ne; congruence.
Qed.

(** ** Operations *)

Definition counted_store (s : Store) : Prop := counted (internals s) (next_internal s) (handles s).

Lemma pointed_ok s h : counted_store s → h ∈ dom (handles s) →
  ∃ p i, handles s !! h = Some (Some p) ∧ internals s !! p = Some i ∧ pointed h s = (s, Ok (p, i)).
Proof.
  intros Hc [o Ho]%elem_of_dom. destruct (cn_handles _ _ _ Hc h o Ho) as (p & i & -> & Hp). exists p, i. split_and!; [done..|].
  unfold pointed, mbind, M_bind, getM. rewrite Ho. cbn. by rewrite Hp.
Qed.

(** The operations that use a result and keep its count. *)
Lemma same_ok s h p i i' (l : list (Z * ascii)) : counted_store s → handles s !! h = Some (Some p) → internals s !! p = Some i →
  ref_count i' = ref_count i → counted_store (mkStore (<[p := i']> (internals s)) (handles s) (next_internal s) l).
Proof. intros Hc Hh Hp Hr. by apply same_counted with i. Qed.

Lemma drop_reference_ok s h p i : counted_store s → handles s !! h = Some (Some p) → internals s !! p = Some i →
  (N.of_nat (size (handles s)) < 2 ^ 32)%N →
  ∃ I, drop_reference h s = (mkStore I (handles s) (next_internal s) (nudges s), Ok ()) ∧ counted I (next_internal s) (delete h (handles s)).
Proof.
  intros Hc Hh Hp Hs. eexists. split; [|by apply drop_counted].
  destruct (pointed_ok s h) as (p' & i' & E1 & E2 & E3); [done|by eapply elem_of_dom_2|]. simplify_eq.
  unfold drop_reference. by rewrite (bind_ok _ _ _ _ _ E3).
Qed.

Lemma take_reference_ok s h other p i m : handles s = m → m !! other = Some (Some p) → internals s !! p = Some i →
  counted (internals s) (next_internal s) (delete h m) → (N.of_nat (size (delete h m)) + 1 < 2 ^ 32)%N →
  ∃ I, take_reference h other s = (mkStore I (<[h := Some p]> m) (next_internal s) (nudges s), Ok ()) ∧
    counted I (next_internal s) (<[h := Some p]> m).
Proof.
  intros <- Ho Hp Hc Hs. eexists. split.
  - unfold take_reference, pointed, mbind, M_bind, getM. rewrite Ho. cbn. by rewrite Hp.
  - rewrite <-(insert_delete_eq (handles s)). by apply take_counted; [|apply lookup_delete_eq|..].
Qed.

Lemma handle_op_ok o s hs : counted_store s → op_valid (dom (handles s)) o = Some hs → (N.of_nat (size (handles s)) + 1 < 2 ^ 32)%N →
  ∃ s', run_handle_op o s = (s', Ok ()) ∧ counted_store s' ∧ dom (handles s') = hs ∧ size (handles s') ≤ size (handles s) + 1.
Proof.
  intros Hc Hv Hn. destruct o as [h|h other|h other|h|h fd byte|h body status|h|h err status]; cbn [op_valid] in Hv;
    destruct (decide _) as [Hd|Hd] in Hv; try done; injection Hv as <-; cbn [run_handle_op].
  - apply not_elem_of_dom in Hd. eexists. split; [reflexivity|]. split_and!; [by apply new_counted|cbn; set_solver|cbn].
    rewrite map_size_insert_None by done. lia.
  - destruct Hd as [Hh Hother]. apply not_elem_of_dom in Hh. destruct (pointed_ok s other Hc Hother) as (p & i & E1 & E2 & _).
    unfold ResultHandle_copy. destruct (take_reference_ok s h other p i (handles s)) as (I & E & Hc'); [done..|by rewrite delete_id|by rewrite delete_id|].
    rewrite E. eexists. split; [reflexivity|]. split_and!; [done|cbn; set_solver|cbn]. rewrite map_size_insert_None by done. lia.
  - destruct Hd as (Hh & Hother & Hne). destruct (pointed_ok s h Hc Hh) as (p & i & E1 & E2 & _).
    destruct (drop_reference_ok s h p i Hc E1 E2) as (I & E & Hc1); [lia|]. apply elem_of_dom in Hother as [o Hother].
    destruct (cn_handles _ _ _ Hc1 other o) as (q & j & -> & Hq); [by rewrite lookup_delete_ne|].
    destruct (take_reference_ok (mkStore I (<[h := None]> (handles s)) (next_internal s) (nudges s)) h other q j (<[h := None]> (handles s))) as (I' & E' & Hc2);
      [done|by rewrite lookup_insert_ne|done|by rewrite delete_insert_eq|rewrite delete_insert_eq; pose proof (size_delete_le h (handles s)); lia|].
    rewrite insert_insert_eq in E', Hc2. eexists. split.
    { unfold ResultHandle_assign. rewrite (bind_ok _ _ _ _ _ E). exact E'. }
    split_and!; [done|cbn; apply elem_of_dom_2 in Hother; set_solver|cbn]. rewrite map_size_insert_Some; [lia|by eexists].
  - destruct (pointed_ok s h Hc Hd) as (p & i & E1 & E2 & _). destruct (drop_reference_ok s h p i Hc E1 E2) as (I & E & Hc1); [lia|].
    eexists. split; [unfold ResultHandle_destroy; rewrite (bind_ok _ _ _ _ _ E); reflexivity|]. cbn.
    split_and!; [done|set_solver|]. pose proof (size_delete_le h (handles s)). lia.
  - destruct (pointed_ok s h Hc Hd) as (p & i & E1 & E2 & E3). unfold ResultHandle_set_nudge. rewrite (bind_ok _ _ _ _ _ E3).
    eexists. split; [reflexivity|]. split_and!; [by apply (same_ok s h p i)|done|cbn; lia].
  - destruct (pointed_ok s h Hc Hd) as (p & i & E1 & E2 & E3). unfold ResultHandle_set_response. rewrite (bind_ok _ _ _ _ _ E3).
    eexists. split; [reflexivity|]. split_and!; [by apply (same_ok s h p i)|done|cbn; lia].
  - destruct (pointed_ok s h Hc Hd) as (p & i & E1 & E2 & E3). unfold ResultHandle_set_ready. rewrite (bind_ok _ _ _ _ _ E3).
    eexists. split; [reflexivity|]. split_and!; [by apply (same_ok s h p i)|done|cbn; lia].
  - destruct (pointed_ok s h Hc Hd) as (p & i & E1 & E2 & E3). unfold ResultHandle_failed, ResultHandle_failed_json. rewrite (bind_ok _ _ _ _ _ E3).
    destruct (is_ready (the_result i)); [exists s; split_and!; try done; lia|].
    eexists. split; [reflexivity|]. split_and!; [by apply (same_ok s h p i)|done|cbn; lia].
Qed.

Lemma handle_ops_ok l : ∀ s hs, counted_store s → ops_valid (dom (handles s)) l = Some hs →
  (N.of_nat (size (handles s) + length l) < 2 ^ 32)%N →
  ∃ s', for_each l run_handle_op s = (s', Ok ()) ∧ counted_store s' ∧ dom (handles s') = hs.
Proof.
  induction l as [|o l IH]; intros s hs Hc Hv Hn; cbn [ops_valid length] in *; [exists s; by simplify_eq|].
  apply bind_Some in Hv as (hs1 & H1 & H2).
  destruct (handle_op_ok o s hs1 Hc H1) as (s1 & E1 & Hc1 & <- & Hs1); [lia|].
  destruct (IH s1 hs Hc1 H2) as (s2 & E2 & ?); [lia|]. exists s2. cbn [for_each]. by rewrite (bind_ok _ _ _ _ _ E1).
Qed.

(** C35: a result is freed with its last handle, and not before.  Whatever handles are made,
    copied, assigned to others and destroyed, and however the results are filled, as long as
    no handle is assigned to itself no operation touches a freed result or a null pointer,
    and the results that exist are exactly those that some handle points to; when no handle
    is left, neither is a result. *)
Theorem results_freed_with_handles l hs (Hv : ops_valid ∅ l = Some hs) (Hn : (N.of_nat (length l) < 2 ^ 32)%N) :
  ∃ s, for_each l run_handle_op no_handles = (s, Ok ()) ∧ dom (handles s) = hs ∧
    (∀ p, is_Some (internals s !! p) ↔ ∃ h, handles s !! h = Some (Some p)) ∧
    (hs = ∅ → internals s = ∅).
Proof.
  destruct (handle_ops_ok l no_handles hs) as (s & E & Hc & Hd); [|done|done|]; [by split|].
  assert (Hp : ∀ p, is_Some (internals s !! p) ↔ ∃ h, handles s !! h = Some (Some p)).
  { intros p. split.
    - intros [i Hi]. destruct (cn_count _ _ _ Hc p i Hi) as [_ Hz]. unfold count in Hz.
      apply map_size_non_empty_iff, map_choose in Hz as (h & o & [Ho Hq]%map_lookup_filter_Some). cbn in Hq. subst o. by exists h.
    - intros [h Hh]. destruct (cn_handles _ _ _ Hc h _ Hh) as (q & i & [= <-] & Hq). by exists i. }
  exists s. split_and!; [done..|]. intros ->. apply map_empty. intros p. apply eq_None_not_Some. intros [h Hh]%Hp.
  apply elem_of_dom_2 in Hh. set_solver.
Qed.

(** A request that is answered: the handler's handle, the task's, and a failure reported
    after the answer. *)
Definition answered : list handle_op :=
  [New 0; SetNudge 0 5 "H"%char; Copy 1 0; New 2; Assign 2 1; Respond 1 (JObj []) 200; Ready 1; Fail 1 "late" 500; Destroy 1; Destroy 0].

Lemma results_freed_with_handles_witness : ops_valid ∅ answered = Some {[2%N]} ∧
  ∃ s, for_each answered run_handle_op no_handles = (s, Ok ()) ∧ dom (handles s) = {[2%N]} ∧
    (∀ p, is_Some (internals s !! p) ↔ ∃ h, handles s !! h = Some (Some p)) ∧
    nudges s = [(5%Z, "H"%char)].
Proof.
  assert (Hv : ops_valid ∅ answered = Some {[2%N]}) by (vm_compute; reflexivity).
  split; [exact Hv|]. destruct (results_freed_with_handles answered _ Hv) as (s & E & H1 & H2 & _); [done|].
  exists s. split_and!; [exact E|exact H1|exact H2|]. vm_compute in E. injection E as <-. reflexivity.
Defined.

(** A handle assigned to itself has let its result go before it looks at it again. *)
Theorem self_assignment_uses_null s h : counted_store s → h ∈ dom (handles s) → (N.of_nat (size (handles s)) < 2 ^ 32)%N →
  (ResultHandle_assign h h s).2 = throw UndefinedBehaviour.
Proof.
  intros Hc Hh Hn. destruct (pointed_ok s h Hc Hh) as (p & i & E1 & E2 & _). destruct (drop_reference_ok s h p i Hc E1 E2 Hn) as (I & E & _).
  unfold ResultHandle_assign. rewrite (bind_ok _ _ _ _ _ E). unfold set_handle, take_reference, pointed, mbind, M_bind, getM, modifyM.
  cbn. by rewrite lookup_insert_eq.
Qed.

Lemma self_assignment_uses_null_witness :
  let s := (ResultHandle_new 0 no_handles).1 in (ResultHandle_assign 0 0 s).2 = throw UndefinedBehaviour.
Proof.
  apply self_assignment_uses_null; [|by apply elem_of_dom|done].
  apply (new_counted ∅ 0 ∅); [by split|done].
Defined.
