(* ===== verification/ReadonlyTasks.v ===== *)
(** * Tasks that answer requests

    The read-only tasks of src/server/tasks.cc, src/features/coll_tasks.cc,
    checkpoint_tasks.cc and category_tasks.cc, and the thread that performs them
    (src/server/task_threads.cc [SearchThread]): every task it takes is answered. *)

From Stdlib Require Import SpecFloat.
From S2P Require Import Prelude Json TextUtils DocValues Taxonomy Pipe NGram Schema CollConfig Indexing XapianDb DbGroup Collection Query MatchSpies Search ProcessDoc SendToPipe CollectionOps Checkpoints Http Router TaskQueue ThreadPool TaskManager CategoryTasks Handlers Tasks TaskThreads RefLib RefJson QueryThms MatchSpiesThms SearchThms TasksThms.

Section readonly.
Context {document database pool : Type} `{XD : !Xapian document database} `{DS : !DocStore document} `{IL : !IndexLib document}.
Context `{QL : !QueryLib} `{SS : !StdSort} `{MT : !Matcher document database} `{DT : !DocTerms document}.
Context `{CS : !CollectionStore pool (@OpenCollection database)}.
Context (sortable_unserialise : string → spec_float) (all_terms : database → list string).
Context (json_unserialise : string → res json) (get_description serialise : Query → string).
Context (w : N) (matches_upper_bound : database → Query → N).
Context (clock : nat → Z) (expiry_time : Z) (xapian_description : string → string).
(** The file of a path, and the names of the directories of the collections. *)
Context (load_file : string → option string) (get_names : pool → list string).

(** ** State *)

(** What a search thread works on, and the result of the task it performs: the answer in
    JSON, or a file with its content type. *)
Record Reader := mkReader {
  rd_collection : option (@OpenCollection database);
  rd_pool : pool;
  rd_checkpoints : CheckPointManager;
  rd_taskman : TaskManager;
  rd_result : result;
  rd_file : option (string * string);
}.

Definition rd_set_collection (c : option OpenCollection) : M Reader () := modifyM (λ s,
  mkReader c (rd_pool s) (rd_checkpoints s) (rd_taskman s) (rd_result s) (rd_file s)).
Definition rd_on_pool {A} (m : M pool A) : M Reader A := λ s,
  let '(p, r) := m (rd_pool s) in
  (mkReader (rd_collection s) p (rd_checkpoints s) (rd_taskman s) (rd_result s) (rd_file s), r).
Definition rd_on_checkpoints {A} (m : M CheckPointManager A) : M Reader A := λ s,
  let '(c, r) := m (rd_checkpoints s) in
  (mkReader (rd_collection s) (rd_pool s) c (rd_taskman s) (rd_result s) (rd_file s), r).
Definition rd_on_result {A} (m : M result A) : M Reader A := λ s,
  let '(x, r) := m (rd_result s) in
  (mkReader (rd_collection s) (rd_pool s) (rd_checkpoints s) (rd_taskman s) x (rd_file s), r).
Definition rd_on_collection {A} (m : M (@Collection database) A) : M Reader A := λ s,
  match rd_collection s with
  | None => (s, throw UndefinedBehaviour)
  | Some c =>
      let '(c, r) := on_coll m c in
      (mkReader (Some c) (rd_pool s) (rd_checkpoints s) (rd_taskman s) (rd_result s) (rd_file s), r)
  end.

Definition answer (body : json) (status : Z) : M Reader () := rd_on_result (respond_ready body status).

(** [resulthandle.failed(err, status)]. *)
Definition failed (err : string) (status : Z) : M Reader () :=
  s ← getM;
  if is_ready (rd_result s) then mret () else answer (error_body err) status.

(** ** The tasks *)

Definition content_type_of (path : string) : string :=
  if string_endswith path ".html" then "text/html"
  else if string_endswith path ".js" then "application/javascript"
  else if string_endswith path ".css" then "text/css"
  else if string_endswith path ".png" then "image/png"
  else if string_endswith path ".jpg" then "image/jpeg"
  else "text/plain".

Definition StaticFileTask_perform (path : string) : M Reader () :=
  match load_file path with
  | Some data => modifyM (λ s,
      mkReader (rd_collection s) (rd_pool s) (rd_checkpoints s) (rd_taskman s)
        (mkResult (response (rd_result s)) true) (Some (content_type_of path, data)))
  | None => answer (error_body ("Couldn't load file" +:+ path)) 404
  end.

Definition PerformSearchTask_perform (fuel : nat) (search : json) (doc_type : string) : M Reader () :=
  let error := if decide (doc_type = "") then "" else validate_doc_type doc_type in
  if decide (error ≠ "") then failed error 400
  else
    result ← rd_on_collection (perform_search sortable_unserialise all_terms json_unserialise get_description serialise
      w matches_upper_bound fuel search doc_type);
    answer result 200.

Definition GetDocumentTask_perform (doc_type doc_id : string) : M Reader () :=
  let error := validate_doc_type doc_type in
  let error := if decide (error = "") then validate_doc_id doc_id else error in
  if decide (error ≠ "") then failed error 400
  else
    result ← rd_on_collection (Collection_get_document json_unserialise doc_type doc_id (JObj []));
    if isNull result
    then failed ("No document found of type " +:+ CategoryTasks.quoted doc_type +:+ " and id " +:+ CategoryTasks.quoted doc_id) 404
    else answer result 200.

Definition ServerStatusTask_perform : M Reader () := s ← getM; answer (server_status (rd_taskman s)) 200.

Definition CollListTask_perform : M Reader () :=
  s ← getM; answer (foldl (λ result i, json_set result i (JObj [])) (JObj []) (get_names (rd_pool s))) 200.

Definition CollInfoTask_perform : M Reader () :=
  n ← rd_on_collection Collection_doc_count; answer (json_set (JObj []) "doc_count" (JUInt n)) 200.

Definition CollGetConfigTask_perform : M Reader () :=
  result ← rd_on_collection Collection_to_json; answer result 200.

Definition CollGetCheckpointsTask_perform (coll_name : string) : M Reader () :=
  result ← rd_on_checkpoints (CheckPointManager_ids_to_json clock expiry_time coll_name); answer result 200.
Definition CollGetCheckpointTask_perform (coll_name checkid : string) : M Reader () :=
  result ← rd_on_checkpoints (CheckPointManager_get_state clock expiry_time coll_name checkid); answer result 200.

(** The tasks on categories, which ask for the taxonomies of the open collection. *)
Definition category_task (task : gmap string taxonomy → M result ()) : M Reader () :=
  found ← rd_on_collection (λ c,
    if negb (is_open (control (group c)))
    then (c, throw (InvalidStateError "Collection must be open to get taxonomy"))
    else (c, Ok (CollConfig.taxonomies (config c))));
  rd_on_result (task found).

Definition perform_readonly (fuel : nat) (t : readonly_task) : M Reader () :=
  match t with
  | StaticFileTask path => StaticFileTask_perform path
  | ServerStatusTask => ServerStatusTask_perform
  | PerformSearchTask _ search doc_type => PerformSearchTask_perform fuel search doc_type
  | GetDocumentTask _ doc_type doc_id => GetDocumentTask_perform doc_type doc_id
  | CollListTask => CollListTask_perform
  | CollInfoTask _ => CollInfoTask_perform
  | CollGetConfigTask _ => CollGetConfigTask_perform
  | CollGetCheckpointsTask coll_name => CollGetCheckpointsTask_perform coll_name
  | CollGetCheckpointTask coll_name checkid => CollGetCheckpointTask_perform coll_name checkid
  | CollGetTaxonomiesTask _ => category_task CollGetTaxonomiesTask_perform
  | CollGetTaxonomyTask _ tx => category_task (CollGetTaxonomyTask_perform tx)
  | CollGetCategoryTask _ tx cat => category_task (CollGetCategoryTask_perform tx cat)
  | CollGetCategoryParentTask _ tx cat parent => category_task (CollGetCategoryParentTask_perform tx cat parent)
  | CollGetTopCategoriesTask _ tx => category_task (CollGetTopCategoriesTask_perform tx)
  end.

(** [get_coll_name]: the collection a task has to be given. *)
Definition get_coll_name (t : readonly_task) : option string :=
  match t with
  | StaticFileTask _ | ServerStatusTask | CollListTask | CollGetCheckpointsTask _ | CollGetCheckpointTask _ _ => None
  | PerformSearchTask c _ _ | GetDocumentTask c _ _ | CollInfoTask c | CollGetConfigTask c
  | CollGetTaxonomiesTask c | CollGetTaxonomyTask c _ | CollGetCategoryTask c _ _ | CollGetCategoryParentTask c _ _ _
  | CollGetTopCategoriesTask c _ => Some c
  end.

(** ** The thread *)

(** The collection held goes back to the pool, and that of the task is taken from it. *)
Definition take_collection (coll_name : option string) : M Reader () :=
  s ← getM;
  (match rd_collection s with
   | None => mret ()
   | Some c => rd_set_collection None ;; rd_on_pool (release c)
   end) ;;
  match coll_name with
  | None => mret ()
  | Some name => c ← rd_on_pool (get_readonly name); rd_set_collection (Some c)
  end.

(** The handlers of [run]. *)
Definition is_opening_error (e : error) : bool :=
  match e with XapianError n => bool_decide (n = "DatabaseOpeningError") | _ => false end.

Definition answer_error (coll_name : option string) (e : error) : M Reader () :=
  match error_text xapian_description e with
  | None => throwM e
  | Some what =>
      if is_opening_error e then
        match coll_name with
        | Some name =>
            found ← rd_on_pool (coll_exists name);
            failed (if (found : bool) then what else "No collection of name " +:+ CategoryTasks.quoted name +:+ " exists") 404
        | None => failed what 404
        end
      else failed what 500
  end.

(** One task, which comes with a new result. *)
Definition SearchThread_turn (fuel : nat) (t : readonly_task) : M Reader () := λ s,
  let s := mkReader (rd_collection s) (rd_pool s) (rd_checkpoints s) (rd_taskman s) new_result None in
  match (take_collection (get_coll_name t) ;; perform_readonly fuel t) s with
  | (s, Throw e) => answer_error (get_coll_name t) e s
  | r => r
  end.

Definition SearchThread_cleanup : M Reader () := take_collection None.

(** ** Every task is answered *)

(** The operation leaves the result ready when it returns. *)
Definition answers (m : M Reader ()) : Prop := ∀ s, match m s with (s', Ok _) => is_ready (rd_result s') = true | _ => True end.

Lemma answers_bind {A} (m : M Reader A) (f : A → M Reader ()) : (∀ a, answers (f a)) → answers (m ≫= f).
Proof.
  intros Hf s. unfold mbind, M_bind. destruct (m s) as [s' [a| |]]; [|done..]. apply Hf.
Qed.
Lemma answers_answer body status : answers (answer body status).
Proof. done. Qed.
Lemma answers_throw e : answers (throwM e).
Proof. done. Qed.
Lemma answers_failed err status : answers (failed err status).
Proof.
  intros s. unfold failed, mbind, M_bind, getM. destruct (is_ready (rd_result s)) eqn:E; [exact E|]. apply answers_answer.
Qed.
#[local] Hint Resolve answers_bind answers_answer answers_throw answers_failed : answers.

(** The tasks on categories answer in each of their cases. *)
Definition ready_after (m : M result ()) : Prop := ∀ x, match m x with (x', Ok _) => is_ready x' = true | _ => True end.

Lemma answers_category (task : gmap string taxonomy → M result ()) : (∀ t, ready_after (task t)) → answers (category_task task).
Proof.
  intros Ht. apply answers_bind. intros found s. unfold rd_on_result. specialize (Ht found (rd_result s)).
  by destruct (task found (rd_result s)) as [x []].
Qed.

Lemma get_taxonomies_ready t : ready_after (CollGetTaxonomiesTask_perform t).
Proof. done. Qed.
Lemma get_taxonomy_ready tx t : ready_after (CollGetTaxonomyTask_perform tx t).
Proof. intros x. unfold CollGetTaxonomyTask_perform. by destruct (t !! tx). Qed.
Lemma get_category_ready tx cat t : ready_after (CollGetCategoryTask_perform tx cat t).
Proof.
  intros x. unfold CollGetCategoryTask_perform. destruct (t !! tx) as [h|]; [|done]. by destruct (Taxonomy_find h cat).
Qed.
Lemma get_category_parent_ready tx cat parent t : ready_after (CollGetCategoryParentTask_perform tx cat parent t).
Proof.
  intros x. unfold CollGetCategoryParentTask_perform. destruct (t !! tx) as [h|]; [|done]. cbn.
  destruct (Taxonomy_find h cat); [|done]. by destruct (decide _).
Qed.
Lemma get_top_categories_ready tx t : ready_after (CollGetTopCategoriesTask_perform tx t).
Proof. intros x. unfold CollGetTopCategoriesTask_perform. by destruct (t !! tx). Qed.
#[local] Hint Resolve answers_category get_taxonomies_ready get_taxonomy_ready get_category_ready get_category_parent_ready
  get_top_categories_ready : answers.

Lemma task_answers fuel t : answers (perform_readonly fuel t).
Proof.
  destruct t as [path| |c search doc_type|c doc_type doc_id| |c|c|c|c k|c|c tx|c tx cat|c tx cat parent|c tx]; cbn [perform_readonly]; auto with answers.
  - intros s. unfold StaticFileTask_perform. by destruct (load_file path).
  - unfold ServerStatusTask_perform. auto with answers.
  - unfold PerformSearchTask_perform. destruct (decide (_ ≠ "")); auto with answers.
  - unfold GetDocumentTask_perform. destruct (decide (_ ≠ "")); [auto with answers|]. apply answers_bind. intros v. destruct (isNull v); auto with answers.
  - unfold CollListTask_perform. auto with answers.
  - unfold CollInfoTask_perform. auto with answers.
  - unfold CollGetConfigTask_perform. auto with answers.
  - unfold CollGetCheckpointsTask_perform. auto with answers.
  - unfold CollGetCheckpointTask_perform. auto with answers.
Qed.

Lemma error_answers coll_name e : answers (answer_error coll_name e).
Proof.
  unfold answer_error. destruct (error_text xapian_description e) as [what|]; [|auto with answers].
  destruct (is_opening_error e); [destruct coll_name|]; auto with answers.
Qed.

(** An exception that leaves the thread was not one it catches, or came from asking the
    pool for the collection. *)
Lemma error_escapes coll_name e s s' e' : answer_error coll_name e s = (s', Throw e') →
  error_text xapian_description e' = None ∨ ∃ name p, (coll_exists name p).2 = Throw e'.
Proof.
  unfold answer_error. destruct (error_text xapian_description e) as [what|] eqn:Ee; [|intros [= _ <-]; by left].
  assert (Hf : ∀ err status s1 s2, failed err status s1 ≠ (s2, Throw e')).
  { intros err status s1 s2. unfold failed, mbind, M_bind, getM. by destruct (is_ready _). }
  destruct (is_opening_error e); [destruct coll_name as [name|]|]; try by intros ?%Hf.
  unfold mbind, M_bind, rd_on_pool. destruct (coll_exists name (rd_pool s)) as [p [b|e1|]] eqn:Ex; [by intros ?%Hf| |done].
  intros [= _ ->]. right. exists name, (rd_pool s). by rewrite Ex.
Qed.

End readonly.

(** C15: no request is left without an answer.  When a task that answers a request returns,
    or throws an exception that a search thread catches -- those of RestPose and of Xapian,
    from taking the collection out of the pool or from the task itself -- its result is
    ready, so that the handler that waits for it is woken up; otherwise the exception is not
    of these kinds, or comes from asking whether the collection exists, and ends the
    thread. *)
Theorem request_answered {document database pool} `{!Xapian document database} `{!DocStore document} `{!IndexLib document}
    `{!QueryLib} `{!StdSort} `{!Matcher document database} `{!DocTerms document} `{!CollectionStore pool (@OpenCollection database)}
    sortable_unserialise all_terms json_unserialise get_description serialise w matches_upper_bound clock expiry_time xapian_description
    load_file (get_names : pool → list string) fuel t (s : @Reader database pool)
    (Hret : (SearchThread_turn (document := document) sortable_unserialise all_terms json_unserialise get_description serialise w matches_upper_bound
      clock expiry_time xapian_description load_file get_names fuel t s).2 ≠ OutOfFuel) :
  let '(s', r) := SearchThread_turn (document := document) sortable_unserialise all_terms json_unserialise get_description serialise w
    matches_upper_bound clock expiry_time xapian_description load_file get_names fuel t s in
  (r = Ok () ∧ is_ready (rd_result s') = true) ∨
  (∃ e, r = Throw e ∧ (error_text xapian_description e = None ∨ ∃ name p, (coll_exists name p).2 = Throw e)).
Proof.
  unfold SearchThread_turn in *. set (s0 := mkReader _ _ _ _ _ _) in *. set (task := take_collection _ ;; _) in *.
  assert (Ht : answers task) by (apply answers_bind; intros []; apply task_answers). specialize (Ht s0).
  destruct (task s0) as [s1 [[]|e|]]; [by left| |done]. clear Ht.
  pose proof (error_answers xapian_description (get_coll_name t) e s1) as He.
  destruct (answer_error xapian_description (get_coll_name t) e s1) as [s2 [[]|e'|]] eqn:E; [by left| |done].
  right. exists e'. split; [done|]. by eapply error_escapes.
Qed.

(** *** A document of a collection that does not exist *)

Definition plain_DocTerms : DocTerms refdoc := {| get_wdf _ _ := 1%N; positionlist _ _ := [] |}.
Definition idle_reader : @Reader refdb () := mkReader None () new_Manager (new_TaskManager 3) new_result None.
Definition missing_coll : @Reader refdb () * res () :=
  SearchThread_turn (QL := ref_QueryLib) (SS := merge_StdSort) (MT := ref_Matcher) (DT := plain_DocTerms) (CS := no_pool)
    (λ _, S754_zero false) (λ _, []) ref_unserialise (λ _, "") (λ _, "") 64 (λ _ _, 0%N) Z.of_nat 600 (λ n, n) (λ _, None) (λ _, [])
    0 (GetDocumentTask "blogs" "post" "1") idle_reader.

Lemma request_answered_witness :
  missing_coll.2 = Ok () ∧ is_ready (rd_result missing_coll.1) = true ∧
  response (rd_result missing_coll.1) = Some (error_body ("No collection of name " +:+ CategoryTasks.quoted "blogs" +:+ " exists"), 404%Z).
Proof.
  assert (Hr : missing_coll.2 = Ok ()) by (vm_compute; reflexivity).
  pose proof (request_answered (H := ref_QueryLib) (H0 := merge_StdSort) (Matcher0 := ref_Matcher) (DocTerms0 := plain_DocTerms) (CollectionStore0 := no_pool)
    (λ _, S754_zero false) (λ _, []) ref_unserialise (λ _, "") (λ _, "") 64 (λ _ _, 0%N) Z.of_nat 600 (λ n, n) (λ _, None) (λ _, [])
    0 (GetDocumentTask "blogs" "post" "1") idle_reader) as H.
  change (SearchThread_turn _ _ _ _ _ _ _ _ _ _ _ _ _ _ _) with missing_coll in H.
  split; [exact Hr|]. split; [|vm_compute; reflexivity].
  rewrite Hr in H. specialize (H ltac:(done)). destruct missing_coll as [s' r]. cbn in Hr. subst r.
  destruct H as [[_ H]|(e & H & _)]; [exact H|done].
Defined.
