(* ===== verification/Requests.v ===== *)
(** * Handling requests

    src/rest/handler.cc and the callbacks of src/httpserver/httpserver.cc: libmicrohttpd
    calls back once when a request starts, once for every piece of its body, once when the
    body is complete, and again whenever it is woken up until there is a response.

    The response that a task or a handler makes in a result handle is [ex_response]; a
    header of type application/json is taken to be accepted there. *)

From S2P Require Import Prelude Json TextUtils DocValues Http Router TaskQueue CategoryTasks Handlers Tasks.

Section requests.
Context (json_serialise : json → string) (json_unserialise : string → res json).
Context (header_ok : string → string → bool) (xapian_description : string → string).
Context (push_state : submission → QueueState) (alloc_checkpoint : string → string).

(** ** State *)

(** A connection with its handler: the body so far, what the request has caused, and the
    response in the result handle. *)
Record exchange := mkEx {
  ex_conn : ConnectionInfo;
  ex_handler : option handler;
  ex_queued : bool;
  ex_uploaded : string;
  ex_request : request;
  ex_response : Response;
  ex_ready : bool;
  ex_shutdown : bool;
}.

Definition new_exchange (m u : string) (accepts : bool) : exchange :=
  mkEx (new_ConnectionInfo m u accepts) None false "" (mkRequest [] [] None) new_Response false false.

Definition on_conn {A} (m : M ConnectionInfo A) : M exchange A := λ s,
  let '(c, r) := m (ex_conn s) in
  (mkEx c (ex_handler s) (ex_queued s) (ex_uploaded s) (ex_request s) (ex_response s) (ex_ready s) (ex_shutdown s), r).
Definition set_handler (h : option handler) : M exchange () := modifyM (λ s,
  mkEx (ex_conn s) h (ex_queued s) (ex_uploaded s) (ex_request s) (ex_response s) (ex_ready s) (ex_shutdown s)).
Definition set_queued : M exchange () := modifyM (λ s,
  mkEx (ex_conn s) (ex_handler s) true (ex_uploaded s) (ex_request s) (ex_response s) (ex_ready s) (ex_shutdown s)).
Definition add_uploaded (chunk : string) : M exchange () := modifyM (λ s,
  mkEx (ex_conn s) (ex_handler s) (ex_queued s) (ex_uploaded s +:+ chunk) (ex_request s) (ex_response s) (ex_ready s) (ex_shutdown s)).
Definition set_done (resp : Response) : M exchange () := modifyM (λ s,
  mkEx (ex_conn s) (ex_handler s) (ex_queued s) (ex_uploaded s) (ex_request s) resp true (ex_shutdown s)).
Definition set_shutdown : M exchange () := modifyM (λ s,
  mkEx (ex_conn s) (ex_handler s) (ex_queued s) (ex_uploaded s) (ex_request s) (ex_response s) (ex_ready s) true).

(** [Response::set]. *)
Definition json_response (body : json) (status : Z) (headers : list (string * string)) : Response :=
  mkResponse (Some (("Content-Type", "application/json") :: headers)) status (json_serialise body).

(** ** Handlers *)

(** The handlers that wait for the answer of their task. *)
Definition waits (h : handler) : bool :=
  match h with
  | FileHandler _ | ServerStatusHandler | SearchHandler _ _ | GetDocumentHandler _ _ _
  | CollGetCategoryHandler _ _ _ _ | CollGetTopCategoriesHandler _ _
  | CollCreateCheckpointHandler _ | CollGetCheckpointsHandler _ | CollGetCheckpointHandler _ _
  | CollListHandler | CollInfoHandler _ | CollGetConfigHandler _ => true
  | _ => false
  end.

Definition parse_body (text : string) : res json :=
  if decide (text = "") then Ok JNull else json_unserialise text.

Definition err_text (msg : string) : string := "{" +:+ Json.quoted "err" +:+ ":" +:+ Json.quoted msg +:+ "}".

Definition handle_queue_push_fail (state : QueueState) : M exchange bool :=
  match state with
  | CLOSED => on_conn (ConnectionInfo_respond header_ok 500 (err_text "Server is shutting down") "application/json") ;; mret true
  | FULL => on_conn (ConnectionInfo_respond header_ok 503 (err_text "Too many active requests") "application/json") ;; mret true
  | _ => mret false
  end.

(** The virtual [enqueue], which may make the response itself. *)
Definition run_enqueue (h : handler) (body : json) : M exchange QueueState := λ s,
  match enqueue push_state alloc_checkpoint h (ex_conn s) body with
  | None => (s, throw UndefinedBehaviour)
  | Some e =>
      let '(rq, r) := e (ex_request s) in
      let s := mkEx (ex_conn s) (ex_handler s) (ex_queued s) (ex_uploaded s) rq (ex_response s) (ex_ready s) (ex_shutdown s) in
      match ready rq with
      | None => (s, r)
      | Some (status, v, headers) => ((set_done (json_response v status headers) s).1, r)
      end
  end.

(** [conn.respond(resulthandle)]. *)
Definition respond_result : M exchange () := s ← getM; on_conn (ConnectionInfo_respond_handle (ex_response s)).

(** The body of the request is complete. *)
Definition QueuedHandler_submit (h : handler) : M exchange () :=
  s ← getM;
  match parse_body (ex_uploaded s) with
  | Throw (InvalidValueError m) =>
      (if ex_ready s then mret ()
       else set_done (json_response (error_body (c_str ("RestPose::InvalidValueError: " +:+ m))) 400 [])) ;;
      respond_result
  | Throw e => throwM e
  | OutOfFuel => liftM OutOfFuel
  | Ok body =>
      state ← run_enqueue h body;
      failed ← handle_queue_push_fail state;
      if (failed : bool) then mret () else set_queued
  end.

Definition QueuedHandler_handle (h : handler) (chunk : string) : M exchange () :=
  s ← getM;
  if first_call (ex_conn s) then mret ()
  else if ex_queued s then (if ex_ready s then respond_result else mret ())
  else if decide (chunk ≠ "") then add_uploaded chunk
  else QueuedHandler_submit h.

Definition NoWaitQueuedHandler_queue (h : handler) (body : json) : M exchange () := λ s,
  match run_enqueue h body s with
  | (s, Throw (InvalidValueError m)) =>
      on_conn (ConnectionInfo_respond header_ok 400
        (json_serialise (error_body (c_str ("RestPose::InvalidValueError: " +:+ m)))) "application/json") s
  | (s, Throw e) => (s, Throw e)
  | (s, OutOfFuel) => (s, OutOfFuel)
  | (s, Ok state) =>
      (failed ← handle_queue_push_fail state;
       if (failed : bool) then mret ()
       else on_conn (ConnectionInfo_respond header_ok 202
              (match state with LOW_SPACE => "{" +:+ Json.quoted "high_load" +:+ ":1}" | _ => "{}" end) "application/json")) s
  end.

(** Here a body that is not JSON is not dealt with. *)
Definition NoWaitQueuedHandler_submit (h : handler) : M exchange () :=
  s ← getM; body ← liftM (parse_body (ex_uploaded s)); NoWaitQueuedHandler_queue h body.

Definition NoWaitQueuedHandler_handle (h : handler) (chunk : string) : M exchange () :=
  s ← getM;
  if first_call (ex_conn s) then mret ()
  else if decide (chunk ≠ "") then add_uploaded chunk
  else NoWaitQueuedHandler_submit h.

Definition Handler_handle (h : handler) (chunk : string) : M exchange () :=
  match h with
  | ServerShutdownHandler => set_shutdown ;; on_conn (ConnectionInfo_respond header_ok 200 "{}" "application/json")
  | NotFoundHandler => on_conn (ConnectionInfo_respond header_ok 404 "Resource not found" "text/plain")
  | _ => if waits h then QueuedHandler_handle h chunk else NoWaitQueuedHandler_handle h chunk
  end.

(** ** The server *)

Definition respond_error (kind what : string) : M exchange () :=
  on_conn (ConnectionInfo_respond header_ok 500 (json_serialise (error_body (kind +:+ what))) "application/json").

Definition route_and_handle (chunk : string) : M exchange () :=
  s ← getM;
  (match ex_handler s with
   | Some _ => mret ()
   | None => h ← on_conn (route header_ok); set_handler h
   end) ;;
  s ← getM;
  match ex_handler s with None => mret () | Some h => Handler_handle h chunk end.

(** [HTTPServer::answer]. *)
Definition HTTPServer_answer (chunk : string) : M exchange () := λ s,
  match route_and_handle chunk s with
  | (s, Throw e) =>
      match error_text xapian_description e with
      | None => (s, Throw e)
      | Some what => respond_error (match e with XapianError _ => "Xapian::Error(): " | _ => "RestPose::Error(): " end) what s
      end
  | r => r
  end.

Definition set_first_call (b : bool) : M ConnectionInfo () := modifyM (λ c,
  mkConn (resulthandle c) (method c) (host c) (url c) b (responded c) (components c) (uri_args c) (mhd_accepts c)).

(** [answer_connection_cb]: the arguments of the URL are told on every call; whether
    libmicrohttpd is to go on. *)
Definition answer_connection_cb (first : bool) (args : list (string * string)) (chunk : string) : M exchange bool := λ s,
  match ((if first then mret () else on_conn (set_first_call false)) ;;
         for_each args (λ '(k, v), on_conn (receive_argument k v)) ;; HTTPServer_answer chunk) s with
  | (s, Ok _) => (s, Ok true)
  | (s, OutOfFuel) => (s, OutOfFuel)
  | (s, Throw e) =>
      match e with
      | XapianError _ => (s, Throw e)
      | _ => match error_text xapian_description e with None => (s, Throw e) | Some _ => (s, Ok false) end
      end
  end.

(** ** The life of a request *)

Definition uploaded_more (text : string) (s : exchange) : exchange :=
  mkEx (ex_conn s) (ex_handler s) (ex_queued s) (ex_uploaded s +:+ text) (ex_request s) (ex_response s) (ex_ready s) (ex_shutdown s).

(** A handler that takes a body is given the request. *)
Definition taking (h : handler) : bool := match h with ServerShutdownHandler | NotFoundHandler => false | _ => true end.

Lemma handle_taking h chunk : taking h = true →
  Handler_handle h chunk = if waits h then QueuedHandler_handle h chunk else NoWaitQueuedHandler_handle h chunk.
Proof. by destruct h. Qed.

Lemma answer_handle h chunk s : ex_handler s = Some h →
  HTTPServer_answer chunk s =
    match Handler_handle h chunk s with
    | (s, Throw e) =>
        match error_text xapian_description e with
        | None => (s, Throw e)
        | Some what => respond_error (match e with XapianError _ => "Xapian::Error(): " | _ => "RestPose::Error(): " end) what s
        end
    | r => r
    end.
Proof.
  intros Hh. unfold HTTPServer_answer, route_and_handle, mbind, M_bind, getM. rewrite Hh. cbn. by rewrite Hh.
Qed.

Lemma answer_chunk h chunk s : ex_handler s = Some h → taking h = true → first_call (ex_conn s) = false → ex_queued s = false → chunk ≠ "" →
  HTTPServer_answer chunk s = (uploaded_more chunk s, Ok ()).
Proof.
  intros Hh Ht Hf Hq Hc. rewrite (answer_handle h) by done. rewrite handle_taking by done.
  unfold QueuedHandler_handle, NoWaitQueuedHandler_handle, mbind, M_bind, getM.
  destruct (waits h); rewrite Hf, ?Hq, decide_True by done; done.
Qed.

Lemma answer_chunks h cs : ∀ s, ex_handler s = Some h → taking h = true → first_call (ex_conn s) = false → ex_queued s = false →
  Forall (λ c, c ≠ "") cs → for_each cs HTTPServer_answer s = (uploaded_more (str_concat cs) s, Ok ()).
Proof.
  induction cs as [|c cs IH]; intros s Hh Ht Hf Hq Hcs.
  - cbn. unfold uploaded_more. rewrite str_app_nil_r. by destruct s.
  - apply Forall_cons in Hcs as [Hc Hcs]. cbn [for_each]. rewrite (bind_ok _ _ s (uploaded_more c s) ()) by (by apply (answer_chunk h)).
    rewrite IH by done. unfold uploaded_more. cbn. by rewrite str_app_assoc.
Qed.

(** Once the task is queued, the calls without a response change nothing. *)
Lemma answer_waiting h s k : ex_handler s = Some h → waits h = true → ex_queued s = true → ex_ready s = false →
  for_each (replicate k "") HTTPServer_answer s = (s, Ok ()).
Proof.
  intros Hh Hw Hq Hr. induction k as [|k IH]; [done|]. cbn [replicate for_each].
  rewrite (bind_ok _ _ s s ()); [done|]. rewrite (answer_handle h) by done. rewrite handle_taking by (by destruct h). rewrite Hw.
  unfold QueuedHandler_handle, mbind, M_bind, getM. rewrite Hq, Hr. by destruct (first_call _).
Qed.

Definition plain_response (status : Z) (text : string) : Response :=
  mkResponse (Some [("Content-Type", "application/json")]) status text.
Definition response_sent (r : Response) (s : exchange) : Prop := Http.resulthandle (ex_conn s) = r ∧ responded (ex_conn s) = true.

(** What is answered at once, given what the task manager said of the task. *)
Definition at_once (h : handler) (state : QueueState) : option Response :=
  match state with
  | CLOSED => Some (plain_response 500 (err_text "Server is shutting down"))
  | FULL => Some (plain_response 503 (err_text "Too many active requests"))
  | _ => if waits h then None
         else Some (plain_response 202 (match state with LOW_SPACE => "{" +:+ Json.quoted "high_load" +:+ ":1}" | _ => "{}" end))
  end.

Context (Hjson : header_ok "Content-Type" "application/json" = true).

Lemma respond_plain status text s : mhd_accepts (ex_conn s) = true →
  ∃ s', on_conn (ConnectionInfo_respond header_ok status text "application/json") s = (s', Ok ()) ∧
    response_sent (plain_response status text) s' ∧ ex_request s' = ex_request s.
Proof.
  intros Ha. unfold on_conn, ConnectionInfo_respond, Response_set_content_type, Response_add_header, ConnectionInfo_respond0,
    set_response, set_responded, mbind, M_bind, getM, modifyM. cbn. rewrite Hjson. cbn. rewrite Ha. by eexists.
Qed.

(** The call with which the body is complete. *)
Lemma answer_complete h s body e rq state : ex_handler s = Some h → taking h = true → first_call (ex_conn s) = false → ex_queued s = false →
  mhd_accepts (ex_conn s) = true → parse_body (ex_uploaded s) = Ok body →
  enqueue push_state alloc_checkpoint h (ex_conn s) body = Some e → e (ex_request s) = (rq, Ok state) → ready rq = None →
  ∃ s', HTTPServer_answer "" s = (s', Ok ()) ∧ ex_request s' = rq ∧
    match at_once h state with
    | Some r => response_sent r s'
    | None => s' = mkEx (ex_conn s) (Some h) true (ex_uploaded s) rq (ex_response s) (ex_ready s) (ex_shutdown s)
    end.
Proof.
  intros Hh Ht Hf Hq Ha Hb He Hrun Hr. rewrite (answer_handle h), handle_taking by done.
  set (s1 := mkEx (ex_conn s) (ex_handler s) (ex_queued s) (ex_uploaded s) rq (ex_response s) (ex_ready s) (ex_shutdown s)).
  assert (Hen : run_enqueue h body s = (s1, Ok state)) by (unfold run_enqueue; by rewrite He, Hrun, Hr).
  unfold QueuedHandler_handle, NoWaitQueuedHandler_handle, QueuedHandler_submit, NoWaitQueuedHandler_submit, NoWaitQueuedHandler_queue,
    at_once, mbind, M_bind, getM, liftM.
  destruct (waits h); rewrite Hf, ?Hq, decide_False by tauto; rewrite Hb; cbn; rewrite Hen; unfold mbind, M_bind; destruct state; cbn -[on_conn].
  1, 2: eexists; split; [reflexivity|]; by rewrite <-Hh.
  all: unfold mbind, M_bind;
    match goal with |- context [on_conn (ConnectionInfo_respond _ ?st ?text _) ?s1] =>
      destruct (respond_plain st text s1) as (s' & E & ? & ?); [done|]; rewrite E; by exists s'
    end.
Qed.

End requests.

(** C21: a request is carried out once.  When the pieces of its body have arrived and make a
    JSON value, or nothing, the next call hands the task of the request to the task manager;
    if that has no room or is shutting down, or the handler does not wait for the task, the
    response is sent at once and says so; otherwise however often the handler is called
    again nothing more is queued or sent, until the task has made a response, which the next
    call sends. *)
Theorem request_carried_out_once json_serialise json_unserialise header_ok xapian_description push_state alloc_checkpoint
    h s cs body e rq state k resp
    (Hjson : header_ok "Content-Type" "application/json" = true) (Hacc : mhd_accepts (ex_conn s) = true)
    (Hh : ex_handler s = Some h) (Ht : taking h = true) (Hf : first_call (ex_conn s) = false) (Hq : ex_queued s = false)
    (Hr : ex_ready s = false) (Hup : ex_uploaded s = "") (Hcs : Forall (λ c, c ≠ "") cs)
    (Hbody : parse_body json_unserialise (str_concat cs) = Ok body)
    (He : enqueue push_state alloc_checkpoint h (ex_conn s) body = Some e) (Hrun : e (ex_request s) = (rq, Ok state)) (Hrq : ready rq = None)
    (Hresp : is_Some (mhd resp)) :
  let answer := HTTPServer_answer json_serialise json_unserialise header_ok xapian_description push_state alloc_checkpoint in
  ∃ s', for_each (cs ++ [""]) answer s = (s', Ok ()) ∧ ex_request s' = rq ∧
    match at_once h state with
    | Some r => response_sent r s'
    | None =>
        for_each (replicate k "") answer s' = (s', Ok ()) ∧ responded (ex_conn s') = responded (ex_conn s) ∧
        ∃ s'', answer "" (set_done resp s').1 = (s'', Ok ()) ∧ ex_request s'' = rq ∧ response_sent resp s''
    end.
Proof.
  intros answer. set (s0 := uploaded_more (str_concat cs) s).
  assert (Hb : parse_body json_unserialise (ex_uploaded s0) = Ok body) by (cbn; by rewrite Hup).
  destruct (answer_complete json_serialise json_unserialise header_ok xapian_description push_state alloc_checkpoint Hjson h s0 body e rq state)
    as (s' & E & H1 & H2); [done..|]. exists s'. split_and!; [|done|].
  { rewrite (for_each_app _ _ _ s s0) by (by apply (answer_chunks _ _ _ _ _ _ h)). cbn [for_each].
    by rewrite (bind_ok _ _ s0 s' () E). }
  destruct (at_once h state) eqn:Ea; [done|]. subst s'. assert (Hw : waits h = true) by (unfold at_once in Ea; destruct state, (waits h); done).
  split_and!; [by apply (answer_waiting _ _ _ _ _ _ h)|done|].
  unfold answer. rewrite (answer_handle _ _ _ _ _ _ h), handle_taking by done. rewrite Hw. destruct Hresp as [hs Hhs].
  unfold QueuedHandler_handle, respond_result, on_conn, ConnectionInfo_respond_handle, ConnectionInfo_respond0, set_response, set_responded,
    mbind, M_bind, getM, modifyM. cbn. rewrite Hf. cbn.
  rewrite Hhs. cbn. rewrite Hacc. by eexists.
Qed.

(** *** A search sent in two pieces *)

Definition search_conn : ConnectionInfo := (set_first_call false (new_ConnectionInfo "POST" "/coll/blogs/search" true)).1.
Definition search_exchange : exchange :=
  mkEx search_conn (Some (SearchHandler "blogs" "")) false "" (mkRequest [] [] None) new_Response false false.
Definition found : Response := plain_response 200 "{}".
Definition search_queued : request := mkRequest [queue_readonly "search" (PerformSearchTask "blogs" (JObj []) "")] [] None.

Lemma request_carried_out_once_witness :
  let answer := HTTPServer_answer (λ _, "") (λ _, Ok (JObj [])) (λ _ _, true) (λ n, n) (λ _, HAS_SPACE) (λ _, "") in
  ∃ s' s'', for_each ["{"; "}"; ""] answer search_exchange = (s', Ok ()) ∧ ex_request s' = search_queued ∧
    for_each ["" ; ""] answer s' = (s', Ok ()) ∧ responded (ex_conn s') = false ∧
    answer "" (set_done found s').1 = (s'', Ok ()) ∧ ex_request s'' = search_queued ∧ response_sent found s''.
Proof.
  intros answer.
  destruct (request_carried_out_once (λ _, "") (λ _, Ok (JObj [])) (λ _ _, true) (λ n, n) (λ _, HAS_SPACE) (λ _, "")
    (SearchHandler "blogs" "") search_exchange ["{"; "}"] (JObj []) _ search_queued HAS_SPACE 2 found
    eq_refl eq_refl eq_refl eq_refl eq_refl eq_refl eq_refl eq_refl ltac:(by repeat constructor) eq_refl eq_refl eq_refl eq_refl ltac:(by eexists))
    as (s' & E & H1 & H2 & H3 & s'' & H4 & H5 & H6).
  exists s', s''. exact (conj E (conj H1 (conj H2 (conj H3 (conj H4 (conj H5 H6)))))).
Defined.

(** A body that is not JSON: the request of a handler that waits is refused as wrong, that
    of one that does not as an error of the server. *)
Theorem bad_body_refused_twice json_serialise header_ok xapian_description push_state alloc_checkpoint h s m
    (Hjson : header_ok "Content-Type" "application/json" = true) (Hacc : mhd_accepts (ex_conn s) = true)
    (Hh : ex_handler s = Some h) (Ht : taking h = true) (Hf : first_call (ex_conn s) = false) (Hq : ex_queued s = false)
    (Hr : ex_ready s = false) (Hup : ex_uploaded s ≠ "") :
  let text := c_str ("RestPose::InvalidValueError: " +:+ m) in
  ∃ s', HTTPServer_answer json_serialise (λ _, throw (InvalidValueError m)) header_ok xapian_description push_state alloc_checkpoint "" s = (s', Ok ()) ∧
    ex_request s' = ex_request s ∧
    response_sent (if waits h then json_response json_serialise (error_body text) 400 []
                   else plain_response 500 (json_serialise (error_body ("RestPose::Error(): " +:+ text)))) s'.
Proof.
  intros text. rewrite (answer_handle _ _ _ _ _ _ h), handle_taking by done.
  unfold QueuedHandler_handle, NoWaitQueuedHandler_handle, QueuedHandler_submit, NoWaitQueuedHandler_submit, parse_body, mbind, M_bind, getM, liftM.
  destruct (waits h); rewrite Hf, ?Hq, !(decide_False (P := _ ≠ "")) by tauto; rewrite decide_False by done.
  - rewrite Hr. unfold respond_result, on_conn, ConnectionInfo_respond_handle, ConnectionInfo_respond0, set_response, set_responded,
      mbind, M_bind, getM, modifyM. cbn. rewrite Hacc. by eexists.
  - cbn. destruct (respond_plain header_ok Hjson 500 (json_serialise (error_body ("RestPose::Error(): " +:+ text))) s Hacc) as (s' & E & H1 & H2).
    unfold respond_error. exists s'. split_and!; [exact E|done..].
Qed.

Lemma bad_body_refused_twice_witness :
  let s := mkEx search_conn (Some (IndexDocumentHandler "blogs" "post" "1")) false "{" (mkRequest [] [] None) new_Response false false in
  ∃ s', HTTPServer_answer (λ _, "text") (λ _, throw (InvalidValueError "bad")) (λ _ _, true) (λ n, n) (λ _, HAS_SPACE) (λ _, "") "" s = (s', Ok ()) ∧
    ex_request s' = mkRequest [] [] None ∧ response_sent (plain_response 500 "text") s'.
Proof.
  intros s. apply (bad_body_refused_twice (λ _, "text") (λ _ _, true) (λ n, n) (λ _, HAS_SPACE) (λ _, "") (IndexDocumentHandler "blogs" "post" "1") s "bad"); done.
Defined.
