(* ===== verification/IoWrappers.v ===== *)
(** * Calls of the operating system that are repeated

    src/utils/io_wrappers.h and io_wrappers.cc: writing, sending, reading and receiving
    until all is done, whatever signals interrupt.

    A function takes the answers the operating system gives, one after the other; when
    they run out before the function returns, its result is [None]. *)

From S2P Require Import Prelude.

(** ** Definitions *)

(** What [write], [send], [open] or [close] answers: a number that is not negative, or
    -1 with [errno]. *)
Inductive sysanswer (A : Type) := Answered (a : A) | Failed (errno : Z).
Arguments Answered {A} a.
Arguments Failed {A} errno.

Definition EINTR : Z := 4.

(** [open] and [close] are repeated while they are interrupted. *)
Fixpoint uninterrupted {A} (answers : list (sysanswer A)) : option (sysanswer A) :=
  match answers with
  | [] => None
  | Failed e :: answers => if decide (e = EINTR) then uninterrupted answers else Some (Failed e)
  | Answered a :: _ => Some (Answered a)
  end.

Definition io_open_append_create (answers : list (sysanswer Z)) : option Z :=
  (λ a, match a with Answered fd => fd | Failed _ => (-1)%Z end) <$> uninterrupted answers.
Definition io_open_read (answers : list (sysanswer Z)) : option Z :=
  (λ a, match a with Answered fd => fd | Failed _ => (-1)%Z end) <$> uninterrupted answers.
Definition io_close (answers : list (sysanswer ())) : option bool :=
  (λ a, match a with Answered _ => true | Failed _ => false end) <$> uninterrupted answers.
Definition io_close_socket (answers : list (sysanswer ())) : option bool :=
  (λ a, match a with Answered _ => true | Failed _ => false end) <$> uninterrupted answers.

(** [io_write] and [io_send]: what has left so far, and whether the call succeeded. *)
Fixpoint io_write (answers : list (sysanswer nat)) (out data : string) : string * option bool :=
  if decide (data = "") then (out, Some true)
  else
    match answers with
    | [] => (out, None)
    | Answered c :: answers => io_write answers (out +:+ str_take c data) (str_drop c data)
    | Failed e :: answers => if decide (e = EINTR) then io_write answers out data else (out, Some false)
    end.
Definition io_send (answers : list (sysanswer nat)) (out data : string) : string * option bool := io_write answers out data.

Definition io_write_byte (answers : list (sysanswer nat)) (byte : ascii) : string * option bool := io_write answers "" (sing byte).
Definition io_send_byte (answers : list (sysanswer nat)) (byte : ascii) : string * option bool := io_send answers "" (sing byte).

(** [io_write_some] returns the number of bytes written, or -1. *)
Definition io_write_some (answers : list (sysanswer nat)) (data : string) : option Z :=
  if decide (data = "") then Some 0%Z
  else (λ a, match a with Answered c => Z.of_nat c | Failed _ => (-1)%Z end) <$> uninterrupted answers.

(** Reading: the operating system answers with bytes, none of them at the end. *)
Fixpoint read_loop (answers : list (sysanswer string)) (result : string) (to_read : nat) : string * option bool :=
  if decide (to_read <= String.length result) then (result, Some true)
  else
    match answers with
    | [] => (result, None)
    | Answered bytes_read :: answers =>
        if decide (bytes_read = "") then (result, Some true)
        else read_loop answers (result +:+ bytes_read) to_read
    | Failed e :: answers => if decide (e = EINTR) then read_loop answers result to_read else (result, Some false)
    end.
Definition io_read_exact (answers : list (sysanswer string)) (to_read : nat) : string * option bool := read_loop answers "" to_read.

(** [io_read_append] and [io_recv_append] with a limit: the number of bytes, or -1. *)
Definition io_read_append_max (answers : list (sysanswer string)) (result : string) : option (string * Z) :=
  (λ a, match a with
        | Answered bytes_read => (result +:+ bytes_read, Z.of_nat (String.length bytes_read))
        | Failed _ => (result, (-1)%Z)
        end) <$> uninterrupted answers.
Definition io_recv_append_max (answers : list (sysanswer string)) (result : string) : option (string * Z) :=
  io_read_append_max answers result.

(** Without a limit they return that number as a [bool]. *)
Definition as_bool (n : Z) : bool := negb (n =? 0)%Z.
Definition io_read_append (answers : list (sysanswer string)) (result : string) : option (string * bool) :=
  prod_map id as_bool <$> io_read_append_max answers result.
Definition io_recv_append (answers : list (sysanswer string)) (result : string) : option (string * bool) :=
  prod_map id as_bool <$> io_recv_append_max answers result.

(** ** Lemmas *)

Lemma uninterrupted_spec {A} (answers : list (sysanswer A)) :
  match uninterrupted answers with
  | Some a => ∃ n rest, answers = replicate n (Failed EINTR) ++ a :: rest ∧ a ≠ Failed EINTR
  | None => answers = replicate (length answers) (Failed EINTR)
  end.
Proof.
  induction answers as [|[a|e] l IH]; cbn; [done|by exists 0, l|]. case_decide as He; [subst e|].
  - destruct (uninterrupted l) as [a|]; [|by f_equal]. destruct IH as (n & rest & -> & Ha). by exists (S n), rest.
  - exists 0, l. split; [done|congruence].
Qed.

Lemma str_take_nil n : str_take n "" = "".
Proof. by destruct n. Qed.

(** ** Properties *)

(** Writing loses, repeats and reorders nothing: what has left is always the front of the
    data; success means all of it, failure an error other than an interruption. *)
Theorem io_write_spec answers data :
  let '(out, r) := io_write answers "" data in
  (∃ rest, data = out +:+ rest) ∧ (r = Some true → out = data) ∧
  (r = Some false → ∃ e, e ≠ EINTR ∧ Failed e ∈ answers).
Proof.
  assert (H : ∀ out, let '(out', r) := io_write answers out data in
    (∃ rest, out +:+ data = out' +:+ rest) ∧ (r = Some true → out' = out +:+ data) ∧
    (r = Some false → ∃ e, e ≠ EINTR ∧ Failed e ∈ answers)).
  { revert data. induction answers as [|[c|e] l IH]; intros data out; cbn [io_write]; case_decide as Hd.
    1,3,5: subst; rewrite str_app_nil_r; split_and!; [by exists ""; rewrite str_app_nil_r|done..].
    - split_and!; [by exists data|done..].
    - specialize (IH (str_drop c data) (out +:+ str_take c data)). rewrite str_app_assoc, str_take_drop in IH.
      destruct (io_write _ _ _) as [out' r]. destruct IH as (H1 & H2 & H3). split_and!; [done..|].
      intros Hr. destruct (H3 Hr) as (e & He & Hin). exists e. split; [done|by right].
    - case_decide as He.
      + specialize (IH data out). destruct (io_write _ _ _) as [out' r]. destruct IH as (H1 & H2 & H3). split_and!; [done..|].
        intros Hr. destruct (H3 Hr) as (e' & He' & Hin). exists e'. split; [done|by right].
      + split_and!; [by exists data|done|]. intros _. exists e. split; [done|by left]. }
  apply (H "").
Qed.

(** How often bytes were taken. *)
Definition times_moved (answers : list (sysanswer nat)) : nat :=
  length (List.filter (λ a, match a with Answered (S _) => true | _ => false end) answers).

(** It returns: as soon as the operating system has taken bytes as often as there are
    bytes, or has refused. *)
Theorem io_write_returns answers data : String.length data ≤ times_moved answers →
  is_Some (io_write answers "" data).2.
Proof.
  generalize "" at 1. revert data. induction answers as [|[c|e] l IH]; intros data out; cbn [io_write]; case_decide as Hd; try (by eexists).
  - destruct data; cbn; [done|lia].
  - intros Hl. apply IH. rewrite str_drop_length. unfold times_moved in *. destruct c; cbn in Hl |- *; lia.
  - intros Hl. case_decide; [by apply IH|by eexists].
Qed.

Lemma io_write_returns_witness : is_Some (io_write [Answered 2; Failed EINTR; Answered 0; Answered 1; Answered 5] "" "log").2.
Proof. apply io_write_returns. apply Nat.leb_le. vm_compute. reflexivity. Defined.

(** Reading never takes more than the answers hold, and returns what it took. *)
Theorem io_read_exact_spec answers to_read :
  let '(result, r) := io_read_exact answers to_read in
  (∃ n, result = str_concat (omap (λ a, match a with Answered s => Some s | Failed _ => None end) (take n answers))) ∧
  (r = Some true → to_read ≤ String.length result ∨ Answered "" ∈ answers) ∧
  (r = Some false → ∃ e, e ≠ EINTR ∧ Failed e ∈ answers).
Proof.
  unfold io_read_exact.
  assert (H : ∀ result, let '(result', r) := read_loop answers result to_read in
    (∃ n, result' = result +:+ str_concat (omap (λ a, match a with Answered s => Some s | Failed _ => None end) (take n answers))) ∧
    (r = Some true → to_read ≤ String.length result' ∨ Answered "" ∈ answers) ∧
    (r = Some false → ∃ e, e ≠ EINTR ∧ Failed e ∈ answers)).
  { induction answers as [|[s|e] l IH]; intros result; cbn [read_loop]; case_decide as Hd.
    1,3,5: split_and!; [exists 0; cbn; by rewrite str_app_nil_r|by left|done].
    - split_and!; [exists 0; cbn; by rewrite str_app_nil_r|done..].
    - case_decide as Hs.
      + subst. split_and!; [exists 0; cbn; by rewrite str_app_nil_r|intros _; right; by left|done].
      + specialize (IH (result +:+ s)). destruct (read_loop _ _ _) as [result' r]. destruct IH as ((n & ->) & H2 & H3). split_and!.
        * exists (S n). cbn. by rewrite str_app_assoc.
        * intros Hr. destruct (H2 Hr) as [?|?]; [by left|right; by right].
        * intros Hr. destruct (H3 Hr) as (e & He & Hin). exists e. split; [done|by right].
    - case_decide as He.
      + specialize (IH result). destruct (read_loop _ _ _) as [result' r]. destruct IH as ((n & ->) & H2 & H3). split_and!.
        * by exists (S n).
        * intros Hr. destruct (H2 Hr) as [?|?]; [by left|right; by right].
        * intros Hr. destruct (H3 Hr) as (e' & He' & Hin). exists e'. split; [done|by right].
      + split_and!; [exists 0; cbn; by rewrite str_app_nil_r|done|]. intros _. exists e. split; [done|by left]. }
  specialize (H ""). destruct (read_loop _ _ _). exact H.
Qed.

(** A fault.  The versions without a limit turn the number of bytes into their result:
    an error is -1, which counts as success, and the end of the data is failure. *)
Theorem append_result_inverted e result : e ≠ EINTR →
  io_recv_append [Failed e] result = Some (result, true) ∧ io_recv_append [Answered ""] result = Some (result, false).
Proof. intros He. unfold io_recv_append, io_recv_append_max, io_read_append_max. cbn. rewrite decide_False by done. by rewrite str_app_nil_r. Qed.

Lemma append_result_inverted_witness : io_recv_append [Failed 104] "S" = Some ("S", true).
Proof. apply (append_result_inverted 104 "S"). done. Defined.
