(* ===== verification/Server.v ===== *)
(** * The server, its children and its main loop

    src/server/server.h, server.cc, signals.cc and ignore_sigpipe.cc, with what
    task_manager.cc and httpserver.cc offer to the main loop: starting the sub-servers
    and background tasks, waiting in [select], shutting down, and signals.

    What the operating system answers is an argument: [select] is a function of the sets
    it is given, and between two rounds bytes may arrive at the socket pair that wakes
    the main loop up.  A loop that is still running when the given rounds are over ends
    in [OutOfFuel]. *)

From S2P Require Import Prelude Json TaskQueue ThreadPool TaskManager IoWrappers.

(** ** State *)

(** The sets of file descriptors given to [select], with the timeout in milliseconds. *)
Record FdSets := mkFdSets { rfds : gset Z; wfds : gset Z; efds : gset Z; max_fd : Z; timeout : option N }.

(** The bytes in the socket pair of the server, and everything the children own. *)
Record World (W : Type) := mkWorld { nudges : list ascii; outside : W }.
Arguments mkWorld {W}.
Arguments nudges {W}.
Arguments outside {W}.

(** The virtual methods of [SubServer] and [BackgroundTask]. *)
Record SubServer (W : Type) := mkSubServer {
  ss_start : M (World W) ();
  ss_stop : M (World W) ();
  ss_join : M (World W) ();
  ss_get_fdsets : FdSets → M (World W) FdSets;
  ss_serve : FdSets → bool → M (World W) ();
}.
Arguments mkSubServer {W}.
Arguments ss_start {W}.
Arguments ss_stop {W}.
Arguments ss_join {W}.
Arguments ss_get_fdsets {W}.
Arguments ss_serve {W}.

Record BackgroundTask (W : Type) := mkBackgroundTask {
  bt_start : M (World W) ();
  bt_stop : M (World W) ();
  bt_join : M (World W) ();
}.
Arguments mkBackgroundTask {W}.
Arguments bt_start {W}.
Arguments bt_stop {W}.
Arguments bt_join {W}.

Inductive signum := SIGINT | SIGTERM | SIGCHLD | SIGPIPE.
Inductive disposition := SIG_DFL | Handle_sig | Emergency_exit_handler | Catcher.

#[export] Instance signum_eq_dec : EqDecision signum.
Proof. solve_decision. Defined.

(** The write end of the socket pair is only written to, by [Server_shutdown]. *)
Record Server (W : Type) := mkServer {
  sv_started : bool;
  shutting_down : bool;
  nudge_read_end : Z;
  open_ends : gset Z;
  servers : gmap string (SubServer W);
  bgtasks : gmap string (BackgroundTask W);
  handlers : signum → disposition;
  world : World W;
}.
Arguments mkServer {W}.
Arguments sv_started {W}.
Arguments shutting_down {W}.
Arguments nudge_read_end {W}.
Arguments open_ends {W}.
Arguments servers {W}.
Arguments bgtasks {W}.
Arguments handlers {W}.
Arguments world {W}.

Section server.
Context {W : Type}.
Implicit Types s : Server W.

Definition new_Server (w : World W) : Server W := mkServer false false (-1) ∅ ∅ ∅ (λ _, SIG_DFL) w.

Definition set_sv_started s : Server W :=
  mkServer true (shutting_down s) (nudge_read_end s) (open_ends s) (servers s) (bgtasks s) (handlers s) (world s).
Definition set_shutting_down s : Server W :=
  mkServer (sv_started s) true (nudge_read_end s) (open_ends s) (servers s) (bgtasks s) (handlers s) (world s).
Definition set_ends (r : Z) (o : gset Z) s : Server W :=
  mkServer (sv_started s) (shutting_down s) r o (servers s) (bgtasks s) (handlers s) (world s).
Definition set_handlers (h : signum → disposition) s : Server W :=
  mkServer (sv_started s) (shutting_down s) (nudge_read_end s) (open_ends s) (servers s) (bgtasks s) h (world s).
Definition set_world (w : World W) s : Server W :=
  mkServer (sv_started s) (shutting_down s) (nudge_read_end s) (open_ends s) (servers s) (bgtasks s) (handlers s) w.

(** A method of a child. *)
Definition on_world {A} (m : M (World W) A) : M (Server W) A := λ s,
  let '(w, r) := m (world s) in (set_world w s, r).

Definition Server_add (name : string) (server : SubServer W) : M (Server W) () := modifyM (λ s,
  mkServer (sv_started s) (shutting_down s) (nudge_read_end s) (open_ends s) (<[name := server]> (servers s)) (bgtasks s)
    (handlers s) (world s)).
Definition Server_add_bg_task (name : string) (task : BackgroundTask W) : M (Server W) () := modifyM (λ s,
  mkServer (sv_started s) (shutting_down s) (nudge_read_end s) (open_ends s) (servers s) (<[name := task]> (bgtasks s))
    (handlers s) (world s)).

(** [shutdown], from any thread or signal handler: a byte for the main loop. *)
Definition Server_shutdown : M (World W) () := modifyM (λ w, mkWorld (nudges w ++ ["S"%char]) (outside w)).
Definition Server_emergency_shutdown : M (World W) () := mret ().

(** [catch(...)], with and without throwing again. *)
Definition catch_all {A} (m : M (Server W) A) (handler : error → M (Server W) A) : M (Server W) A := λ s,
  match m s with (s, Throw e) => handler e s | r => r end.
Definition ignoring (ignore_errors : bool) (m : M (Server W) ()) : M (Server W) () :=
  if ignore_errors then catch_all m (λ _, mret ()) else m.

(** ** Children *)

Definition start_children : M (Server W) () :=
  s ← getM;
  for_each (sorted_items (servers s)) (λ '(_, c), on_world (ss_start c)) ;;
  for_each (sorted_items (bgtasks s)) (λ '(_, c), on_world (bt_start c)).

Definition Server_stop_children (ignore_errors : bool) : M (Server W) () :=
  s ← getM;
  for_each (sorted_items (bgtasks s)) (λ '(_, c), ignoring ignore_errors (on_world (bt_stop c))) ;;
  for_each (sorted_items (servers s)) (λ '(_, c), ignoring ignore_errors (on_world (ss_stop c))).

Definition Server_join_children (ignore_errors : bool) : M (Server W) () :=
  s ← getM;
  for_each (sorted_items (bgtasks s)) (λ '(_, c), ignoring ignore_errors (on_world (bt_join c))) ;;
  for_each (sorted_items (servers s)) (λ '(_, c), ignoring ignore_errors (on_world (ss_join c))).

(** ** Signals *)

(** Which calls of [sigaction] succeed, and whether the process is the one that set the
    handlers up. *)
Context (sigaction_ok : signum → bool) (own_process : bool).

Definition set_disposition (sig : signum) (d : disposition) s : Server W :=
  set_handlers (λ g, if decide (g = sig) then d else handlers s g) s.

Definition sigaction (sig : signum) (d : disposition) : M (Server W) bool := λ s,
  if sigaction_ok sig then (set_disposition sig d s, Ok true) else (s, Ok false).

Definition must_set (sig : signum) (d : disposition) (msg : string) : M (Server W) () :=
  ok ← sigaction sig d; if ok : bool then mret () else throwM (SysError msg).

Definition ignore_sigpipe : M (Server W) () := must_set SIGPIPE Catcher "Failed to install SIGPIPE handler".

Definition set_up_signal_handlers : M (Server W) () :=
  must_set SIGINT Handle_sig "Unable to set SIGINT handler" ;;
  must_set SIGCHLD Handle_sig "Unable to set SIGCHLD handler" ;;
  must_set SIGTERM Emergency_exit_handler "Unable to set SIGTERM handler" ;;
  ignore_sigpipe.

Definition release_signal_handlers : M (Server W) () :=
  sigaction SIGTERM SIG_DFL ;; sigaction SIGINT SIG_DFL ;; sigaction SIGCHLD SIG_DFL ;; mret ().

Definition set_up_emergency_signal_handlers : M (Server W) () :=
  ok ← sigaction SIGINT Emergency_exit_handler; if ok : bool then mret () else release_signal_handlers.

(** What becomes of the process when a handler returns or exits. *)
Inductive fate := Continues | Exits (code : Z) | Killed (sig : signum).

(** The process itself is in the group: the signal waits until the handler returns. *)
Definition signal_process_group (sig : signum) : M (Server W) fate := sigaction sig SIG_DFL ;; mret (Killed sig).

Definition emergency_exit_handler (sig : signum) : M (Server W) fate :=
  (if own_process then on_world Server_emergency_shutdown else mret ()) ;;
  signal_process_group sig ;; release_signal_handlers ;; mret (Exits 0).

Definition handle_sig (sig : signum) : M (Server W) fate :=
  match sig with
  | SIGINT =>
      (if own_process then on_world Server_shutdown else mret ()) ;;
      set_up_emergency_signal_handlers ;; mret Continues
  | SIGCHLD => mret Continues
  | _ => release_signal_handlers ;; signal_process_group sig
  end.

(** A signal arrives. *)
Definition deliver (sig : signum) : M (Server W) fate :=
  s ← getM;
  match handlers s sig with
  | Handle_sig => handle_sig sig
  | Emergency_exit_handler => emergency_exit_handler sig
  | Catcher => mret Continues
  | SIG_DFL => mret (match sig with SIGCHLD => Continues | _ => Killed sig end)
  end.

(** ** The main loop *)

(** What the operating system does in one round: the bytes that arrive before [select]
    returns, what [select] answers, and the error of [recv], if any. *)
Record round := mkRound {
  arrived : list ascii;
  select : FdSets → option (N * N) → sysanswer (N * FdSets);
  recv_error : option Z;
}.

(** The timeout as seconds and microseconds. *)
Definition timeval (timeout : N) : N * N :=
  let tv_sec := (timeout / 1000)%N in (tv_sec, (timeout - tv_sec * 1000) * 1000)%N.

Definition FD_SET_read (fd : Z) (f : FdSets) : FdSets :=
  mkFdSets ({[fd]} ∪ rfds f) (wfds f) (efds f) (if decide (max_fd f < fd)%Z then fd else max_fd f) (timeout f).

Fixpoint gather_fdsets (l : list (string * SubServer W)) (f : FdSets) : M (Server W) FdSets :=
  match l with
  | [] => mret f
  | (_, c) :: l => f ← on_world (ss_get_fdsets c f); gather_fdsets l f
  end.

(** Reading the nudges: whether one of them asks for a shutdown. *)
Definition read_nudges (recv_error : option Z) : M (Server W) bool :=
  s ← getM;
  let content := String.string_of_list_ascii (take CHUNKSIZE (nudges (world s))) in
  match io_recv_append [match recv_error with Some e => Failed e | None => Answered content end] "" with
  | None => liftM OutOfFuel
  | Some (_, false) => throwM (SysError "Couldn't read from internal socket")
  | Some (result, true) =>
      (if recv_error is None
       then modifyM (λ s, set_world (mkWorld (drop CHUNKSIZE (nudges (world s))) (outside (world s))) s) else mret ()) ;;
      if bool_decide ("S"%char ∈ bytes result) then modifyM set_shutting_down ;; mret true else mret false
  end.

Definition call_subservers (sets : FdSets) (timed_out : bool) : M (Server W) () :=
  s ← getM; for_each (sorted_items (servers s)) (λ '(_, c), on_world (ss_serve c sets timed_out)).

Fixpoint Server_mainloop (rounds : list round) : M (Server W) () :=
  s ← getM;
  if shutting_down s then mret ()
  else
    match rounds with
    | [] => liftM OutOfFuel
    | r :: rounds =>
        modifyM (λ s, set_world (mkWorld (nudges (world s) ++ arrived r) (outside (world s))) s) ;;
        sets ← gather_fdsets (sorted_items (servers s)) (FD_SET_read (nudge_read_end s) (mkFdSets ∅ ∅ ∅ 0 None));
        match select r sets (timeval <$> timeout sets) with
        | Failed e => if decide (e = EINTR) then Server_mainloop rounds else throwM (SysError "Select failed")
        | Answered (ret, sets) =>
            let timed_out := (ret =? 0)%N in
            stop ← (if negb timed_out && bool_decide (nudge_read_end s ∈ rfds sets) then read_nudges (recv_error r) else mret false);
            if stop : bool then mret () else (call_subservers sets timed_out ;; Server_mainloop rounds)
        end
    end.

(** ** Running *)

(** The two ends of the socket pair, if it can be made, and which can be closed. *)
Context (socketpair : sysanswer (Z * Z)) (close_ok : Z → bool).

Definition close_end (fd : Z) : M (Server W) bool := λ s,
  if bool_decide (fd ∈ open_ends s) && close_ok fd then (set_ends (nudge_read_end s) (open_ends s ∖ {[fd]}) s, Ok true) else (s, Ok false).

Definition must_close (fd : Z) : M (Server W) () :=
  ok ← close_end fd; if ok : bool then mret () else throwM (SysError "Couldn't close internal socketpair").

Definition run_children (rounds : list round) (write_end read_end : Z) : M (Server W) () :=
  start_children ;; Server_mainloop rounds ;; Server_stop_children false ;; Server_join_children false ;;
  release_signal_handlers ;; must_close write_end ;; must_close read_end.

Definition clean_up (write_end read_end : Z) : M (Server W) () :=
  Server_stop_children true ;; Server_join_children true ;; release_signal_handlers ;;
  close_end write_end ;; close_end read_end ;; mret ().

Definition Server_run (rounds : list round) : M (Server W) () :=
  s ← getM;
  if sv_started s || shutting_down s then mret ()
  else
    modifyM set_sv_started ;;
    match socketpair with
    | Failed _ => throwM (SysError "Couldn't create internal socketpair")
    | Answered (write_end, read_end) =>
        modifyM (set_ends read_end {[write_end; read_end]}) ;;
        set_up_signal_handlers ;;
        catch_all (run_children rounds write_end read_end) (λ e, clean_up write_end read_end ;; throwM e)
    end.
End server.
