(* ===== verification/ServerThms.v ===== *)
(** * The server: what is shown

    However the main loop ends, every child is told to stop and is joined; a shutdown
    that is asked for ends the loop in the next round.  The calls a child gets are read
    off a trace the children keep, whatever else they do. *)

From S2P Require Import Prelude Json TaskQueue ThreadPool TaskManager IoWrappers Server.

(** ** The calls of children *)

Inductive call := Started (background : bool) (name : string) | Stopped (background : bool) (name : string)
  | Joined (background : bool) (name : string) | Polled (name : string) | Served (name : string).

Definition loop_call (c : call) : Prop := match c with Polled _ | Served _ => True | _ => False end.

Section thms.
Context {W : Type} (trace : W → list call).
Implicit Types s : Server W.

Definition T s : list call := trace (outside (world s)).

(** A method of a child adds its call to the trace. *)
Definition logged {A} (m : M (World W) A) (c : call) : Prop := ∀ w, trace (outside (m w).1) = trace (outside w) ++ [c].

Record well_logged s : Prop := {
  log_servers : ∀ n c, servers s !! n = Some c → logged (ss_start c) (Started false n) ∧ logged (ss_stop c) (Stopped false n) ∧
    logged (ss_join c) (Joined false n) ∧ (∀ f, logged (ss_get_fdsets c f) (Polled n)) ∧ ∀ f b, logged (ss_serve c f b) (Served n);
  log_bgtasks : ∀ n c, bgtasks s !! n = Some c →
    logged (bt_start c) (Started true n) ∧ logged (bt_stop c) (Stopped true n) ∧ logged (bt_join c) (Joined true n);
}.

Definition starts s : list call := (Started false <$> sorted_keys (servers s)) ++ (Started true <$> sorted_keys (bgtasks s)).
Definition stops s : list call := (Stopped true <$> sorted_keys (bgtasks s)) ++ (Stopped false <$> sorted_keys (servers s)).
Definition joins s : list call := (Joined true <$> sorted_keys (bgtasks s)) ++ (Joined false <$> sorted_keys (servers s)).

(** From [s] to [s'] the calls [l] were made, and the children are the same. *)
Record adds (l : list call) s s' : Prop := {
  adds_trace : T s' = T s ++ l;
  adds_servers : servers s' = servers s;
  adds_bgtasks : bgtasks s' = bgtasks s;
  adds_ends : open_ends s' ⊆ open_ends s;
}.

Lemma adds_nil s : adds [] s s.
Proof. split; [by rewrite app_nil_r|done..]. Qed.
Lemma adds_app l1 l2 s1 s2 s3 : adds l1 s1 s2 → adds l2 s2 s3 → adds (l1 ++ l2) s1 s3.
Proof. intros [] []. split; [by rewrite app_assoc; congruence|congruence..|by etrans]. Qed.
Lemma adds_same s s' : outside (world s') = outside (world s) → servers s' = servers s → bgtasks s' = bgtasks s → open_ends s' ⊆ open_ends s → adds [] s s'.
Proof. intros E ???. split; [unfold T; by rewrite E, app_nil_r|done..]. Qed.

Lemma adds_logged l s s' : adds l s s' → well_logged s → well_logged s'.
Proof. intros [_ E1 E2 _] [H1 H2]. split; rewrite ?E1, ?E2; done. Qed.
Lemma adds_stops l s s' : adds l s s' → stops s' = stops s ∧ joins s' = joins s.
Proof. intros [_ E1 E2 _]. unfold stops, joins. by rewrite E1, E2. Qed.

Lemma on_world_adds {A} (m : M (World W) A) c s : logged m c → adds [c] s (on_world m s).1.
Proof. intros H. specialize (H (world s)). unfold on_world. by destruct (m (world s)) as [w r]. Qed.

Lemma ignoring_adds b m c s : adds [c] s (m s).1 → adds [c] s (ignoring b m s).1.
Proof. unfold ignoring, catch_all. destruct b; [|done]. by destruct (m s) as [s' []]. Qed.
Lemma ignoring_no_throw (m : M (Server W) ()) s e : (ignoring true m s).2 ≠ Throw e.
Proof. unfold ignoring, catch_all. by destruct (m s) as [s' []]. Qed.

(** Calling the children of a list one after the other, all of them or until one fails. *)
Lemma each_adds {X} (L : list X) (f : X → M (Server W) ()) (ev : X → call) s s' r :
  (∀ x s, x ∈ L → adds [ev x] s (f x s).1) → for_each L f s = (s', r) →
  ∃ L1 L2, L = L1 ++ L2 ∧ adds (ev <$> L1) s s' ∧ (r = Ok () → L2 = []).
Proof.
  revert s. induction L as [|x L IH]; intros s Hf H; cbn in H; unfold mret, M_ret in H; [simplify_eq; exists [], []; split_and!; [done|apply adds_nil|done]|].
  unfold mbind, M_bind in H. pose proof (Hf x s ltac:(by left)) as Hx. destruct (f x s) as [s1 [[]|e|]].
  - destruct (IH s1) as (L1 & L2 & -> & Ha & Hr); [intros y sy Hy; apply Hf; by right|done|].
    exists (x :: L1), L2. split_and!; [done| |done]. cbn. by apply (adds_app [ev x] _ _ s1).
  - simplify_eq. by exists [x], L.
  - simplify_eq. by exists [x], L.
Qed.

(** If none of them can fail, all are called. *)
Lemma each_adds_all {X} (L : list X) (f : X → M (Server W) ()) (ev : X → call) s s' r :
  (∀ x s, x ∈ L → adds [ev x] s (f x s).1) → (∀ x s e, (f x s).2 ≠ Throw e) → for_each L f s = (s', r) → r ≠ OutOfFuel →
  r = Ok () ∧ adds (ev <$> L) s s'.
Proof.
  revert s. induction L as [|x L IH]; intros s Hf Hn H Hr; cbn in H; unfold mret, M_ret in H; [simplify_eq; split; [done|apply adds_nil]|].
  unfold mbind, M_bind in H. pose proof (Hf x s ltac:(by left)) as Hx. specialize (Hn x s) as Hxn. destruct (f x s) as [s1 [[]|e|]].
  - destruct (IH s1) as [-> Ha]; [intros y sy Hy; apply Hf; by right|done..|]. split; [done|]. cbn. by apply (adds_app [ev x] _ _ s1).
  - by destruct (Hxn e).
  - by simplify_eq.
Qed.

(** The children of a map in order. *)
Lemma fst_items {A} (m : gmap string A) (f : string → call) : (λ x : string * A, f x.1) <$> sorted_items m = f <$> sorted_keys m.
Proof. rewrite <-sorted_items_fst, <-list_fmap_compose. done. Qed.

Section children.
Context s (Hs : well_logged s).

Lemma servers_add (f : SubServer W → M (World W) ()) (ev : string → call) (b : bool) x s0 :
  (∀ n c, servers s !! n = Some c → logged (f c) (ev n)) → x ∈ sorted_items (servers s) →
  adds [ev x.1] s0 ((let '(_, c) := x in ignoring b (on_world (f c))) s0).1.
Proof. intros Hf Hx. destruct x as [n c]. apply elem_of_sorted_items in Hx. apply ignoring_adds, on_world_adds. by apply Hf. Qed.

Lemma bgtasks_add (f : BackgroundTask W → M (World W) ()) (ev : string → call) (b : bool) x s0 :
  (∀ n c, bgtasks s !! n = Some c → logged (f c) (ev n)) → x ∈ sorted_items (bgtasks s) →
  adds [ev x.1] s0 ((let '(_, c) := x in ignoring b (on_world (f c))) s0).1.
Proof. intros Hf Hx. destruct x as [n c]. apply elem_of_sorted_items in Hx. apply ignoring_adds, on_world_adds. by apply Hf. Qed.
End children.

(** Two loops over children, the background tasks first or the servers first. *)
Lemma two_loops {X Y} (L1 : list X) (L2 : list Y) f1 f2 (ev1 : X → call) (ev2 : Y → call) s s' r :
  (∀ x s, x ∈ L1 → adds [ev1 x] s (f1 x s).1) → (∀ x s, x ∈ L2 → adds [ev2 x] s (f2 x s).1) →
  (for_each L1 f1 ;; for_each L2 f2) s = (s', r) →
  ∃ l, adds l s s' ∧ (r = Ok () → l = (ev1 <$> L1) ++ (ev2 <$> L2)).
Proof.
  intros H1 H2 H. unfold mbind, M_bind in H. destruct (for_each L1 f1 s) as [s1 r1] eqn:E1.
  destruct (each_adds L1 f1 ev1 s s1 r1 H1 E1) as (l1 & l2 & -> & Ha & Hr). destruct r1 as [[]|e|]; simplify_eq.
  - rewrite Hr in *|-* by done. destruct (each_adds L2 f2 ev2 s1 s' r H2 H) as (k1 & k2 & -> & Hb & Hr2).
    exists ((ev1 <$> l1) ++ (ev2 <$> k1)). split; [by eapply adds_app|]. intros ->. by rewrite Hr2, !app_nil_r.
  - by exists (ev1 <$> l1).
  - by exists (ev1 <$> l1).
Qed.

Lemma two_loops_all {X Y} (L1 : list X) (L2 : list Y) f1 f2 (ev1 : X → call) (ev2 : Y → call) s s' r :
  (∀ x s, x ∈ L1 → adds [ev1 x] s (f1 x s).1) → (∀ x s, x ∈ L2 → adds [ev2 x] s (f2 x s).1) →
  (∀ x s e, (f1 x s).2 ≠ Throw e) → (∀ x s e, (f2 x s).2 ≠ Throw e) →
  (for_each L1 f1 ;; for_each L2 f2) s = (s', r) → r ≠ OutOfFuel →
  r = Ok () ∧ adds ((ev1 <$> L1) ++ (ev2 <$> L2)) s s'.
Proof.
  intros H1 H2 N1 N2 H Hr. unfold mbind, M_bind in H. destruct (for_each L1 f1 s) as [s1 r1] eqn:E1.
  assert (Hr1 : r1 ≠ OutOfFuel) by (intros ->; by simplify_eq).
  destruct (each_adds_all L1 f1 ev1 s s1 r1 H1 N1 E1 Hr1) as [-> Ha].
  destruct (each_adds_all L2 f2 ev2 s1 s' r H2 N2 H Hr) as [-> Hb]. split; [done|]. by eapply adds_app.
Qed.

Section children_calls.
Context s (Hs : well_logged s).

Lemma start_children_adds s' r : start_children s = (s', r) → ∃ l, adds l s s' ∧ (r = Ok () → l = starts s).
Proof.
  unfold start_children. unfold mbind at 1, M_bind at 1, getM. intros H.
  eapply (two_loops _ _ _ _ (λ x, Started false x.1) (λ x, Started true x.1)) in H as (l & Hl & Hr).
  - exists l. split; [done|]. intros Hok. rewrite (Hr Hok). unfold starts. by rewrite !fst_items.
  - intros x s0. apply (servers_add s (λ c, ss_start c) (Started false) false). apply (log_servers s Hs).
  - intros x s0. apply (bgtasks_add s (λ c, bt_start c) (Started true) false). apply (log_bgtasks s Hs).
Qed.

(** [stop_children] and [join_children] have the same shape. *)
Lemma both_kinds_add b (fb : BackgroundTask W → M (World W) ()) (fs : SubServer W → M (World W) ()) (ev : bool → string → call) s' r :
  (∀ n c, bgtasks s !! n = Some c → logged (fb c) (ev true n)) → (∀ n c, servers s !! n = Some c → logged (fs c) (ev false n)) →
  (for_each (sorted_items (bgtasks s)) (λ '(_, c), ignoring b (on_world (fb c))) ;;
   for_each (sorted_items (servers s)) (λ '(_, c), ignoring b (on_world (fs c)))) s = (s', r) → r ≠ OutOfFuel →
  ∃ l, adds l s s' ∧ (b = true → r = Ok ()) ∧ (r = Ok () → l = (ev true <$> sorted_keys (bgtasks s)) ++ (ev false <$> sorted_keys (servers s))).
Proof.
  intros Hb Hv H Hr. pose proof (bgtasks_add s fb (ev true) b) as Hf1. pose proof (servers_add s fs (ev false) b) as Hf2.
  destruct b.
  - eapply (two_loops_all _ _ _ _ (λ x, ev true x.1) (λ x, ev false x.1)) in H as [-> H]; [|by eauto..| | |done].
    + eexists. split_and!; [exact H|done|]. intros _. by rewrite !fst_items.
    + intros [n c] s0 e. apply ignoring_no_throw.
    + intros [n c] s0 e. apply ignoring_no_throw.
  - eapply (two_loops _ _ _ _ (λ x, ev true x.1) (λ x, ev false x.1)) in H as (l & Hl & Ho); [|by eauto..].
    exists l. split_and!; [done..|]. intros Hok. by rewrite (Ho Hok), !fst_items.
Qed.

Lemma stop_children_adds b s' r : Server_stop_children b s = (s', r) → r ≠ OutOfFuel →
  ∃ l, adds l s s' ∧ (b = true → r = Ok ()) ∧ (r = Ok () → l = stops s).
Proof.
  unfold Server_stop_children. unfold mbind at 1, M_bind at 1, getM. apply (both_kinds_add b bt_stop ss_stop Stopped).
  - intros n c Hn. by apply (log_bgtasks s Hs).
  - intros n c Hn. by apply (log_servers s Hs).
Qed.

Lemma join_children_adds b s' r : Server_join_children b s = (s', r) → r ≠ OutOfFuel →
  ∃ l, adds l s s' ∧ (b = true → r = Ok ()) ∧ (r = Ok () → l = joins s).
Proof.
  unfold Server_join_children. unfold mbind at 1, M_bind at 1, getM. apply (both_kinds_add b bt_join ss_join Joined).
  - intros n c Hn. by apply (log_bgtasks s Hs).
  - intros n c Hn. by apply (log_servers s Hs).
Qed.
End children_calls.

(** ** The main loop *)

Lemma gather_adds l f s s' r : (∀ n c, (n, c) ∈ l → ∀ f, logged (ss_get_fdsets c f) (Polled n)) → gather_fdsets l f s = (s', r) →
  ∃ k, adds k s s' ∧ Forall loop_call k.
Proof.
  revert f s. induction l as [|[n c] l IH]; intros f s Hl H; cbn in H; unfold mret, M_ret in H.
  - simplify_eq. exists []. split; [apply adds_nil|done].
  - unfold mbind, M_bind in H. pose proof (on_world_adds (ss_get_fdsets c f) (Polled n) s ltac:(apply Hl; by left)) as Hc.
    destruct (on_world (ss_get_fdsets c f) s) as [s1 [f1|e|]]; simplify_eq.
    + destruct (IH f1 s1) as (k & Hk & Hf); [intros; apply Hl; by right|done|]. exists (Polled n :: k).
      split; [by apply (adds_app [Polled n] _ _ s1)|by constructor].
    + exists [Polled n]. split; [done|by constructor].
    + exists [Polled n]. split; [done|by constructor].
Qed.

Lemma read_nudges_adds e s : adds [] s (read_nudges e s).1 ∧
  ∀ b, (read_nudges e s).2 = Ok b → shutting_down (read_nudges e s).1 = b || shutting_down s.
Proof.
  unfold read_nudges, mbind, M_bind, getM, modifyM. cbn -[io_recv_append].
  match goal with |- context [io_recv_append ?a ?b] => destruct (io_recv_append a b) as [[result []]|] end; cbn.
  - destruct e; cbn; case_bool_decide; cbn; (split; [by apply adds_same|by intros b [= <-]]).
  - split; [by apply adds_nil|done].
  - split; [by apply adds_nil|done].
Qed.

Lemma call_subservers_adds s sets b s' r : well_logged s → call_subservers sets b s = (s', r) →
  ∃ k, adds k s s' ∧ Forall loop_call k.
Proof.
  intros Hs. unfold call_subservers. unfold mbind at 1, M_bind at 1, getM. intros H.
  eapply (each_adds _ _ (λ x, Served x.1)) in H as (l1 & l2 & _ & Ha & _); [|intros x s0; apply (servers_add s (λ c, ss_serve c sets b) Served false)].
  - exists ((λ x, Served x.1) <$> l1). split; [done|]. apply Forall_fmap, Forall_true. done.
  - intros n c Hn. by apply (log_servers s Hs).
Qed.

Lemma serving_app k1 s1 s2 s3 : adds k1 s1 s2 → Forall loop_call k1 → (∃ k, adds k s2 s3 ∧ Forall loop_call k) → ∃ k, adds k s1 s3 ∧ Forall loop_call k.
Proof. intros ?? (k & ? & ?). exists (k1 ++ k). split; [by eapply adds_app|by apply Forall_app]. Qed.

(** The loop calls the children only to ask for their descriptors and to serve them, and
    returns when a shutdown was asked for. *)
Lemma mainloop_adds rounds s s' r : well_logged s → Server_mainloop rounds s = (s', r) →
  (∃ k, adds k s s' ∧ Forall loop_call k) ∧ (r = Ok () → shutting_down s' = true).
Proof.
  revert s. induction rounds as [|q rounds IH]; intros s Hs H; cbn [Server_mainloop] in H;
    unfold mbind at 1, M_bind at 1, getM in H; destruct (shutting_down s) eqn:Ed.
  1-3: unfold mret, M_ret, liftM in H; simplify_eq; split; [exists []; split; [apply adds_nil|done]|done].
  unfold modifyM at 1, mbind at 1, M_bind at 1 in H. set (s0 := set_world _ s) in H.
  assert (H0 : adds [] s s0) by by apply adds_same. pose proof (adds_logged _ _ _ H0 Hs) as Hs0.
  unfold mbind at 1, M_bind at 1 in H. destruct (gather_fdsets _ _ s0) as [s1 r1] eqn:Eg.
  apply gather_adds in Eg as (k1 & Ha1 & Hk1); [|intros n c Hn f; apply elem_of_sorted_items in Hn; by apply (log_servers s Hs)].
  pose proof (adds_app _ _ _ _ _ H0 Ha1) as Ha. cbn [app] in Ha. pose proof (adds_logged _ _ _ Ha Hs) as Hs1.
  destruct r1 as [f1|e|]; simplify_eq; [|split; [eauto|done]..].
  destruct (select q f1 _) as [[ret sets]|e] eqn:Es.
  - unfold mbind at 1, M_bind at 1 in H.
    destruct ((if negb (ret =? 0)%N && bool_decide (nudge_read_end s ∈ rfds sets) then read_nudges (recv_error q) else mret false) s1) as [s2 r2] eqn:E2.
    assert (H2 : adds [] s1 s2 ∧ ∀ b, r2 = Ok b → shutting_down s2 = b || shutting_down s1).
    { destruct (_ && _) in E2; [pose proof (read_nudges_adds (recv_error q) s1) as H2; rewrite E2 in H2; done|].
      unfold mret, M_ret in E2. simplify_eq. split; [apply adds_nil|by intros b [= <-]]. }
    destruct H2 as [Ha2 Hsd]. pose proof (adds_app _ _ _ _ _ Ha Ha2) as Ha'. rewrite app_nil_r in Ha'.
    destruct r2 as [b|e|]; simplify_eq; [|split; [eauto|done]..]. destruct b.
    + unfold mret, M_ret in H. simplify_eq. split; [eauto|]. by rewrite (Hsd true).
    + unfold mbind, M_bind in H. pose proof (adds_logged _ _ _ Ha' Hs) as Hs2. destruct (call_subservers sets _ s2) as [s3 r3] eqn:E3.
      apply call_subservers_adds in E3 as (k3 & Ha3 & Hk3); [|done]. pose proof (adds_app _ _ _ _ _ Ha' Ha3) as Ha4.
      assert (Hk : Forall loop_call (k1 ++ k3)) by by apply Forall_app.
      destruct r3 as [[]|e|]; simplify_eq; [|split; [eauto|done]..].
      destruct (IH s3 (adds_logged _ _ _ Ha4 Hs) H) as [Hx Hr]. split; [by eapply serving_app|done].
  - case_decide; [|unfold throwM in H; simplify_eq; split; [eauto|done]].
    destruct (IH s1 Hs1 H) as [Hx Hr]. split; [by eapply serving_app|done].
Qed.

(** ** Running *)

Section run.
Context (sigaction_ok : signum → bool) (socketpair : sysanswer (Z * Z)) (close_ok : Z → bool).

(** The rest of [run] touches neither the children nor their state. *)
Record same_children s s' : Prop := {
  same_outside : outside (world s') = outside (world s);
  same_servers : servers s' = servers s;
  same_bgtasks : bgtasks s' = bgtasks s;
  same_shutting : shutting_down s' = shutting_down s;
  same_ends : open_ends s' ⊆ open_ends s;
}.
#[local] Instance same_children_preorder : PreOrder same_children.
Proof. split; [done|intros s1 s2 s3 [] []; split; [congruence..|by etrans]]. Qed.

Lemma same_adds s s' : same_children s s' → adds [] s s'.
Proof. intros []. by apply adds_same. Qed.

Lemma sigaction_same g d s : same_children s (sigaction sigaction_ok g d s).1.
Proof. unfold sigaction. destruct (sigaction_ok g); by split. Qed.

Lemma release_ok s : (release_signal_handlers sigaction_ok s).2 = Ok () ∧ same_children s (release_signal_handlers sigaction_ok s).1.
Proof.
  unfold release_signal_handlers, mbind, M_bind, mret, M_ret, sigaction.
  destruct (sigaction_ok SIGTERM), (sigaction_ok SIGINT), (sigaction_ok SIGCHLD); (split; [done|by split]).
Qed.

Lemma release_default s g : (∀ g, sigaction_ok g = true) → g ≠ SIGPIPE → handlers (release_signal_handlers sigaction_ok s).1 g = SIG_DFL.
Proof.
  intros Ho Hg. unfold release_signal_handlers, mbind, M_bind, mret, M_ret, sigaction. rewrite !Ho. cbn. by destruct g.
Qed.

Lemma close_same fd s : same_children s (close_end close_ok fd s).1 ∧ handlers (close_end close_ok fd s).1 = handlers s ∧
  is_Some (match (close_end close_ok fd s).2 with Ok b => Some b | _ => None end) ∧
  (close_ok fd = true → open_ends (close_end close_ok fd s).1 = open_ends s ∖ {[fd]}).
Proof.
  unfold close_end. case_bool_decide; cbn; [destruct (close_ok fd); cbn|]; split_and!; try done; try (intros _); try set_solver.
  split; try done. cbn. set_solver.
Qed.

Lemma set_up_same s : (∀ g, sigaction_ok g = true) →
  (set_up_signal_handlers sigaction_ok s).2 = Ok () ∧ same_children s (set_up_signal_handlers sigaction_ok s).1 ∧
  open_ends (set_up_signal_handlers sigaction_ok s).1 = open_ends s.
Proof.
  intros Ho. unfold set_up_signal_handlers, ignore_sigpipe, must_set, mbind, M_bind, mret, M_ret, sigaction. rewrite !Ho. split_and!; by try split.
Qed.

(** Stopping and joining children leaves the flags alone. *)
Lemma for_each_flag {X} (L : list X) f s : (∀ x s, shutting_down (f x s).1 = shutting_down s) → shutting_down (for_each (S:=Server W) L f s).1 = shutting_down s.
Proof.
  intros Hf. revert s. induction L as [|x L IH]; intros s; [done|]. cbn. unfold mbind, M_bind. pose proof (Hf x s).
  destruct (f x s) as [s1 [[]|e|]]; cbn in *; [|done..]. by rewrite IH.
Qed.
Lemma ignoring_flag b (m : M (World W) ()) s : shutting_down (ignoring b (on_world m) s).1 = shutting_down s.
Proof. unfold ignoring, catch_all, on_world. destruct b, (m (world s)) as [w []]; done. Qed.
Lemma two_loops_flag {X Y} (L1 : list X) (L2 : list Y) f1 f2 s : (∀ x s, shutting_down (f1 x s).1 = shutting_down s) →
  (∀ x s, shutting_down (f2 x s).1 = shutting_down s) → shutting_down ((for_each (S:=Server W) L1 f1 ;; for_each L2 f2) s).1 = shutting_down s.
Proof.
  intros H1 H2. unfold mbind, M_bind. pose proof (for_each_flag L1 f1 s H1). destruct (for_each L1 f1 s) as [s1 [[]|e|]]; cbn in *; [|done..].
  by rewrite for_each_flag.
Qed.
Lemma stop_keeps_flag b s : shutting_down (Server_stop_children b s).1 = shutting_down s.
Proof.
  unfold Server_stop_children. unfold mbind at 1, M_bind at 1, getM. apply two_loops_flag; intros [n c] s0; apply ignoring_flag.
Qed.
Lemma join_keeps_flag b s : shutting_down (Server_join_children b s).1 = shutting_down s.
Proof.
  unfold Server_join_children. unfold mbind at 1, M_bind at 1, getM. apply two_loops_flag; intros [n c] s0; apply ignoring_flag.
Qed.

(** Everything is left as it was found. *)
Definition released s : Prop := ∀ g, g ≠ SIGPIPE → handlers s g = SIG_DFL.

Section working_signals.
Context (Hsig : ∀ g, sigaction_ok g = true).

Lemma clean_up_spec w r s s' x : well_logged s → clean_up sigaction_ok close_ok w r s = (s', x) → x ≠ OutOfFuel →
  x = Ok () ∧ adds (stops s ++ joins s) s s' ∧ released s' ∧
  ((∀ fd, close_ok fd = true) → open_ends s' ⊆ open_ends s ∖ {[w]} ∖ {[r]}).
Proof.
  intros Hs. unfold clean_up. unfold mbind at 1, M_bind at 1. destruct (Server_stop_children true s) as [s1 r1] eqn:E1. intros H Hx.
  assert (Hr1 : r1 ≠ OutOfFuel) by (intros ->; simplify_eq). apply stop_children_adds in E1 as (l1 & A1 & O1 & L1); [|done..].
  rewrite O1 in H, L1 by done. rewrite L1 in A1 by done. clear O1 L1 Hr1.
  unfold mbind at 1, M_bind at 1 in H. destruct (Server_join_children true s1) as [s2 r2] eqn:E2.
  assert (Hr2 : r2 ≠ OutOfFuel) by (intros ->; simplify_eq).
  apply join_children_adds in E2 as (l2 & A2 & O2 & L2); [|by eapply adds_logged|done]. rewrite O2 in H, L2 by done. rewrite L2 in A2 by done.
  rewrite (proj2 (adds_stops _ _ _ A1)) in A2. pose proof (adds_app _ _ _ _ _ A1 A2) as A.
  unfold mbind at 1, M_bind at 1 in H. destruct (release_ok s2) as [R1 R2]. pose proof (λ g, release_default s2 g Hsig) as R3.
  destruct (release_signal_handlers sigaction_ok s2) as [s3 r3]. cbn in R1, R2, R3. subst r3.
  unfold mbind at 1, M_bind at 1 in H. destruct (close_same w s3) as (C1 & C2 & C3 & C4). destruct (close_end close_ok w s3) as [s4 [b4|e|]]; cbn in C1, C2, C3, C4; [|by destruct C3..].
  unfold mbind at 1, M_bind at 1 in H. destruct (close_same r s4) as (D1 & D2 & D3 & D4). destruct (close_end close_ok r s4) as [s5 [b5|e|]]; cbn in D1, D2, D3, D4; [|by destruct D3..].
  unfold mret, M_ret in H. simplify_eq. split_and!; [done| | |].
  - rewrite <-(app_nil_r (stops s ++ joins s)). eapply adds_app; [done|]. apply same_adds. by do 2 (etrans; [done|]).
  - intros g Hg. by rewrite D2, C2, R3.
  - intros Hc. rewrite D4, C4 by done. pose proof (adds_ends _ _ _ A). pose proof (same_ends _ _ R2). set_solver.
Qed.

Lemma must_close_ok fd s s' : must_close close_ok fd s = (s', Ok ()) →
  same_children s s' ∧ handlers s' = handlers s ∧ open_ends s' = open_ends s ∖ {[fd]}.
Proof.
  unfold must_close, mbind, M_bind, close_end. case_bool_decide; cbn; [destruct (close_ok fd); cbn|]; try done. intros [= <-]. split_and!; [split; try done; cbn; set_solver|done..].
Qed.
Lemma must_close_adds fd s : adds [] s (must_close close_ok fd s).1.
Proof.
  unfold must_close, mbind, M_bind. destruct (close_same fd s) as (C1 & _ & C3 & _).
  destruct (close_end close_ok fd s) as [s1 [[]|e|]]; cbn in *; by apply same_adds.
Qed.

Lemma run_children_spec rounds w r s s' x : well_logged s → run_children sigaction_ok close_ok rounds w r s = (s', x) → x ≠ OutOfFuel →
  ∃ l, adds l s s' ∧ (x = Ok () → (∃ m, l = starts s ++ m ++ stops s ++ joins s ∧ Forall loop_call m) ∧ shutting_down s' = true ∧ released s' ∧
    open_ends s' ⊆ open_ends s ∖ {[w]} ∖ {[r]}).
Proof.
  intros Hs. unfold run_children. unfold mbind at 1, M_bind at 1. destruct (start_children s) as [s1 r1] eqn:E1. intros H Hx.
  apply start_children_adds in E1 as (l1 & A1 & L1); [|done]. destruct r1 as [[]|e|]; simplify_eq; [|by exists l1]. rewrite L1 in A1 by done.
  pose proof (adds_logged _ _ _ A1 Hs) as Hs1. pose proof (adds_stops _ _ _ A1) as [P1 J1].
  unfold mbind at 1, M_bind at 1 in H. destruct (Server_mainloop rounds s1) as [s2 r2] eqn:E2. apply mainloop_adds in E2 as [(m & A2 & Hm) D2]; [|done].
  pose proof (adds_app _ _ _ _ _ A1 A2) as B2. destruct r2 as [[]|e|]; simplify_eq; [|by exists (starts s ++ m)].
  pose proof (adds_logged _ _ _ A2 Hs1) as Hs2. pose proof (adds_stops _ _ _ A2) as [P2 J2].
  unfold mbind at 1, M_bind at 1 in H. destruct (Server_stop_children false s2) as [s3 r3] eqn:E3.
  assert (Hr3 : r3 ≠ OutOfFuel) by (intros ->; simplify_eq). pose proof (stop_keeps_flag false s2) as F3. rewrite E3 in F3. cbn in F3.
  apply stop_children_adds in E3 as (l3 & A3 & _ & L3); [|done..].
  pose proof (adds_app _ _ _ _ _ B2 A3) as B3. destruct r3 as [[]|e|]; simplify_eq; [|by eexists]. rewrite L3, P2, P1 in B3 by done.
  pose proof (adds_logged _ _ _ A3 Hs2) as Hs3. pose proof (adds_stops _ _ _ A3) as [P3 J3].
  unfold mbind at 1, M_bind at 1 in H. destruct (Server_join_children false s3) as [s4 r4] eqn:E4.
  assert (Hr4 : r4 ≠ OutOfFuel) by (intros ->; simplify_eq). pose proof (join_keeps_flag false s3) as F4. rewrite E4 in F4. cbn in F4.
  apply join_children_adds in E4 as (l4 & A4 & _ & L4); [|done..].
  pose proof (adds_app _ _ _ _ _ B3 A4) as B4. destruct r4 as [[]|e|]; simplify_eq; [|by eexists]. rewrite L4, J3, J2, J1 in B4 by done.
  unfold mbind at 1, M_bind at 1 in H. destruct (release_ok s4) as [R1 R2]. pose proof (λ g, release_default s4 g Hsig) as R3.
  destruct (release_signal_handlers sigaction_ok s4) as [s5 r5]. cbn in R1, R2, R3. subst r5. pose proof (adds_app _ _ _ _ _ B4 (same_adds _ _ R2)) as B5.
  unfold mbind at 1, M_bind at 1 in H. pose proof (must_close_adds w s5) as C1. destruct (must_close close_ok w s5) as [s6 [[]|e|]] eqn:E6; simplify_eq.
  2: by eexists; split; [eapply adds_app; [exact B5|exact C1]|].
  pose proof (must_close_adds r s6) as C2. rewrite H in C2. pose proof (adds_app _ _ _ _ _ (adds_app _ _ _ _ _ B5 C1) C2) as B7. eexists. split; [exact B7|]. intros ->.
  apply must_close_ok in E6 as (S6 & H6 & O6), H as (S7 & H7 & O7). rewrite !app_nil_r. split_and!.
  - exists m. by rewrite !app_assoc.
  - rewrite (same_shutting _ _ S7), (same_shutting _ _ S6), (same_shutting _ _ R2), F4, F3. by apply D2.
  - intros g Hg. by rewrite H7, H6, R3.
  - rewrite O7, O6. pose proof (adds_ends _ _ _ B5). set_solver.
Qed.

(** C18: let the server be neither started nor told to shut down, the socket pair be made,
    and every call of sigaction succeed; the calls of the children are seen in a trace that
    each of their methods adds to ([well_logged]).  Whatever the children do besides, and however the main
    loop ends, when [run] returns or throws every background task and every server has been
    told to stop, then joined, and no child is called after that; the dispositions of all
    signals but SIGPIPE, whose handler stays, are the default ones again; and both ends of
    the socket pair are closed if [run] returns, or if closing them succeeds.  [run] returns
    without an error only when a shutdown was asked for, and then the calls are exactly:
    all started in order, any number of rounds, all stopped, all joined.  (When a handler
    cannot be installed, nothing is given back: [failed_handler_leaks].) *)
Theorem run_stops_children rounds w r s s' x (Hs : well_logged s) (Hnew : sv_started s = false) (Hrun : shutting_down s = false)
    (Hpair : socketpair = Answered (w, r)) :
  Server_run sigaction_ok socketpair close_ok rounds s = (s', x) → x ≠ OutOfFuel →
  (∃ l, T s' = T s ++ l ++ stops s ++ joins s) ∧ released s' ∧ ((∀ fd, close_ok fd = true) ∨ x = Ok () → open_ends s' = ∅) ∧
  (x = Ok () → shutting_down s' = true ∧ ∃ m, Forall loop_call m ∧ T s' = T s ++ starts s ++ m ++ stops s ++ joins s).
Proof.
  unfold Server_run. unfold mbind at 1, M_bind at 1, getM. rewrite Hnew, Hrun, Hpair. cbn [orb]. intros H Hx.
  unfold mbind at 1, M_bind at 1, modifyM at 1 in H. unfold mbind at 1, M_bind at 1, modifyM at 1 in H.
  set (s1 := set_ends _ _ _) in H. unfold mbind at 1, M_bind at 1 in H. destruct (set_up_same s1 Hsig) as (U1 & U2 & U3).
  destruct (set_up_signal_handlers sigaction_ok s1) as [s2 r2]. cbn in U1, U2, U3. subst r2.
  assert (E2 : T s2 = T s ∧ starts s2 = starts s ∧ stops s2 = stops s ∧ joins s2 = joins s ∧ well_logged s2).
  { destruct U2 as [V1 V2 V3 _ _]. unfold T, starts, stops, joins. rewrite V1, V2, V3. split_and!; [done..|].
    destruct Hs as [H1 H2]. split; rewrite ?V2, ?V3; done. }
  destruct E2 as (ET & <- & <- & <- & Hs2). rewrite <-ET. unfold catch_all in H.
  destruct (run_children sigaction_ok close_ok rounds w r s2) as [s3 r3] eqn:E3.
  assert (Hr3 : r3 ≠ OutOfFuel) by (intros ->; simplify_eq). apply run_children_spec in E3 as (l & A & Hok); [|done..].
  assert (Hempty : ∀ X : gset Z, X ⊆ open_ends s2 ∖ {[w]} ∖ {[r]} → X = ∅) by (rewrite U3; cbn; set_solver).
  destruct r3 as [[]|e|]; simplify_eq.
  - destruct (Hok eq_refl) as ((m & -> & Hm) & H1 & H2 & H3). pose proof (adds_trace _ _ _ A) as E. rewrite E. split_and!; [|done|by auto|].
    + exists (starts s2 ++ m). by rewrite !app_assoc.
    + intros _. split; [done|]. by exists m.
  - unfold mbind, M_bind in H. pose proof (adds_logged _ _ _ A Hs2) as Hs3. destruct (clean_up sigaction_ok close_ok w r s3) as [s4 r4] eqn:E4.
    assert (Hr4 : r4 ≠ OutOfFuel) by (intros ->; unfold throwM in H; simplify_eq).
    apply clean_up_spec in E4 as (-> & B & H2 & H3); [|done..]. unfold throwM in H. simplify_eq.
    pose proof (adds_app _ _ _ _ _ A B) as C. pose proof (adds_stops _ _ _ A) as [P1 P2]. split_and!; [|done| |done].
    + exists l. by rewrite (adds_trace _ _ _ C), P1, P2.
    + intros [Hc|[=]]. apply Hempty. etrans; [by apply H3|]. pose proof (adds_ends _ _ _ A). set_solver.
Qed.
End working_signals.

(** A fault.  The handlers are set up outside the [try]: when the one for SIGTERM cannot be
    installed, [run] throws with the socket pair open and its handler for SIGINT in place. *)
Theorem failed_handler_leaks rounds w r s : sv_started s = false → shutting_down s = false → socketpair = Answered (w, r) →
  sigaction_ok SIGINT = true → sigaction_ok SIGCHLD = true → sigaction_ok SIGTERM = false →
  let '(s', x) := Server_run sigaction_ok socketpair close_ok rounds s in
  x = throw (SysError "Unable to set SIGTERM handler") ∧ open_ends s' = {[w; r]} ∧ handlers s' SIGINT = Handle_sig ∧ T s' = T s.
Proof.
  intros H1 H2 H3 I1 I2 I3. unfold Server_run, mbind, M_bind, getM, modifyM. rewrite H1, H2, H3. cbn.
  unfold set_up_signal_handlers, must_set, mbind, M_bind, sigaction. rewrite I1, I2, I3. done.
Qed.
End run.

(** ** Shutting down *)

(** A server that asks for its descriptors without taking any out, and without failing. *)
Definition polite (c : SubServer W) : Prop :=
  ∀ f w, ∃ w' f', ss_get_fdsets c f w = (w', Ok f') ∧ rfds f ⊆ rfds f' ∧ nudges w' = nudges w.

(** [select] sees that the socket is ready, and reading it does not fail. *)
Definition sees_nudge (q : round) (fd : Z) : Prop :=
  recv_error q = None ∧
  ∀ sets t, fd ∈ rfds sets → ∃ n sets', select q sets t = Answered (n, sets') ∧ n ≠ 0%N ∧ fd ∈ rfds sets'.

Lemma gather_polite l f s : (∀ n c, (n, c) ∈ l → polite c) → ∃ s' f', gather_fdsets l f s = (s', Ok f') ∧ rfds f ⊆ rfds f' ∧
  nudges (world s') = nudges (world s).
Proof.
  revert f s. induction l as [|[n c] l IH]; intros f s Hl; cbn; [by exists s, f|]. unfold mbind, M_bind, on_world.
  destruct (Hl n c ltac:(by left) f (world s)) as (w' & f1 & -> & Hf & Hn).
  destruct (IH f1 (set_world w' s)) as (s' & f' & -> & Hf' & Hn'); [intros; eapply Hl; by right|].
  exists s', f'. split_and!; [done|by etrans|by rewrite Hn'].
Qed.

Lemma nudged_ends_loop q rounds s : shutting_down s = false → (∀ n c, servers s !! n = Some c → polite c) → sees_nudge q (nudge_read_end s) →
  head (nudges (world s)) = Some "S"%char → ∃ s', Server_mainloop (q :: rounds) s = (s', Ok ()) ∧ shutting_down s' = true.
Proof.
  intros Hd Hp [Hr Hsel] Hh. cbn [Server_mainloop]. unfold mbind at 1, M_bind at 1, getM. rewrite Hd.
  unfold mbind at 1, M_bind at 1, modifyM at 1. unfold mbind at 1, M_bind at 1.
  set (f0 := FD_SET_read _ _). set (s0 := set_world _ s).
  destruct (gather_polite (sorted_items (servers s)) f0 s0) as (s1 & f1 & -> & Hf & Hn); [intros n c Hc; apply elem_of_sorted_items in Hc; eauto|].
  destruct (Hsel f1 (timeval <$> timeout f1)) as (ret & sets & -> & Hret & Hin); [apply Hf; cbn; set_solver|].
  unfold mbind at 1, M_bind at 1. rewrite (proj2 (N.eqb_neq _ _) Hret), bool_decide_true by done. cbn [negb andb].
  unfold read_nudges, mbind, M_bind, getM, modifyM. rewrite Hr, Hn. cbn [world s0 set_world nudges].
  destruct (nudges (world s)) as [|a l]; simplify_eq/=. eexists. split; done.
Qed.

Context (sigaction_ok : signum → bool).

(** C27: an interrupt shuts the server down: the first SIGINT makes the main loop return in
    the round that sees it, before any server is called again; a second one while it shuts
    down ends the process at once. *)
Theorem sigint_shuts_down s q rounds (Hh : handlers s SIGINT = Handle_sig) (Hsig : ∀ g, sigaction_ok g = true) (Hd : shutting_down s = false)
    (Hn : Forall (eq "S"%char) (nudges (world s))) (Hp : ∀ n c, servers s !! n = Some c → polite c) (Hq : sees_nudge q (nudge_read_end s)) :
  ∃ s1, deliver sigaction_ok true SIGINT s = (s1, Ok Continues) ∧
    (∃ s2, Server_mainloop (q :: rounds) s1 = (s2, Ok ()) ∧ shutting_down s2 = true) ∧
    (deliver sigaction_ok true SIGINT s1).2 = Ok (Exits 0).
Proof.
  unfold deliver at 1. unfold mbind at 1, M_bind at 1, getM. rewrite Hh. unfold handle_sig, set_up_emergency_signal_handlers, sigaction, mbind, M_bind, on_world, Server_shutdown, modifyM.
  cbn. rewrite Hsig. eexists. split; [done|]. split.
  - apply nudged_ends_loop; [done..|]. cbn. destruct (nudges (world s)) as [|a l]; [done|]. by apply Forall_cons in Hn as [<- _].
  - unfold deliver, mbind, M_bind, getM. cbn. unfold emergency_exit_handler, signal_process_group, release_signal_handlers, sigaction, mbind, M_bind. cbn. by rewrite !Hsig.
Qed.

(** A fault.  An error when the socket pair is read counts as having read nothing: the loop
    goes on, and [select] reports the same socket again at once. *)
Theorem nudge_error_ignored e s : e ≠ EINTR → read_nudges (Some e) s = (s, Ok false).
Proof.
  intros He. unfold read_nudges, mbind, M_bind, getM, io_recv_append, io_recv_append_max, io_read_append_max. cbn. by rewrite decide_False.
Qed.
End thms.

(** ** A server *)

(** A child that only notes the calls it gets. *)
Definition note (c : call) : M (World (list call)) () := modifyM (λ w, mkWorld (nudges w) (outside w ++ [c])).
Definition noting_server (n : string) : SubServer (list call) :=
  mkSubServer (note (Started false n)) (note (Stopped false n)) (note (Joined false n))
    (λ f, note (Polled n) ;; mret f) (λ _ _, note (Served n)).
Definition noting_task (n : string) : BackgroundTask (list call) :=
  mkBackgroundTask (note (Started true n)) (note (Stopped true n)) (note (Joined true n)).

(** The server of restpose with one background task. *)
Definition noting : Server (list call) :=
  (((Server_add "taskman" (noting_server "taskman") ;; Server_add "httpserver" (noting_server "httpserver") ;;
     Server_add_bg_task "mongoimport" (noting_task "mongoimport")) : M (Server (list call)) ()) (new_Server (mkWorld [] []))).1.

(** A round that is over at once, and one in which a shutdown is asked for. *)
Definition uneventful : round := mkRound [] (λ f _, Answered (0%N, f)) None.
Definition asked : round := mkRound ["S"%char] (λ f _, Answered (1%N, f)) None.

Lemma noting_servers n c : servers noting !! n = Some c → c = noting_server n.
Proof.
  assert (E : servers noting = <["httpserver" := noting_server "httpserver"]> (<["taskman" := noting_server "taskman"]> ∅)) by done.
  rewrite E. by intros [[<- <-]|[_ [[<- <-]|[_ [=]]]%lookup_insert_Some]]%lookup_insert_Some.
Qed.
Lemma noting_bgtasks n c : bgtasks noting !! n = Some c → c = noting_task n.
Proof.
  assert (E : bgtasks noting = <["mongoimport" := noting_task "mongoimport"]> ∅) by done.
  rewrite E. by intros [[<- <-]|[_ [=]]]%lookup_insert_Some.
Qed.

Lemma noting_logged : well_logged id noting.
Proof. split; [intros n c ->%noting_servers|intros n c ->%noting_bgtasks]; by split_and!. Qed.

Definition noting_run : Server (list call) * res () :=
  Server_run (λ _, true) (Answered (3, 4)%Z) (λ _, true) [uneventful; asked] noting.
Lemma noting_run_ok : noting_run.2 = Ok ().
Proof. vm_compute. reflexivity. Qed.

Lemma run_stops_children_witness : ∃ m, Forall loop_call m ∧ T id noting_run.1 = starts noting ++ m ++ stops noting ++ joins noting.
Proof.
  destruct (run_stops_children id (λ _, true) (Answered (3, 4)%Z) (λ _, true) (λ _, eq_refl) [uneventful; asked] 3 4 noting noting_run.1 noting_run.2
    noting_logged eq_refl eq_refl eq_refl (surjective_pairing noting_run)) as (_ & _ & _ & H); [by rewrite noting_run_ok|].
  destruct (H noting_run_ok) as (_ & m & Hm & HT). exact (ex_intro _ m (conj Hm HT)).
Defined.

Lemma sigint_shuts_down_witness : ∃ s1, deliver (λ _, true) true SIGINT (set_up_signal_handlers (λ _, true) noting).1 = (s1, Ok Continues) ∧
  (deliver (λ _, true) true SIGINT s1).2 = Ok (Exits 0).
Proof.
  destruct (sigint_shuts_down (λ _, true) (set_up_signal_handlers (λ _, true) noting).1 asked []) as (s1 & H1 & _ & H2); [done..| | |exact (ex_intro _ s1 (conj H1 H2))].
  - intros n c Hn f w. apply noting_servers in Hn as ->. exists (note (Polled n) w).1, f. split_and!; reflexivity.
  - split; [done|]. intros sets t Hin. by exists 1%N, sets.
Defined.

Lemma failed_handler_leaks_witness :
  (Server_run (λ g, bool_decide (g ≠ SIGTERM)) (Answered (3, 4)%Z) (λ _, true) [asked] noting).2 = throw (SysError "Unable to set SIGTERM handler").
Proof.
  pose proof (failed_handler_leaks id (λ g, bool_decide (g ≠ SIGTERM)) (Answered (3, 4)%Z) (λ _, true) [asked] 3 4 noting eq_refl eq_refl eq_refl) as H.
  destruct (Server_run _ _ _ _ _) as [s' x]. by apply H.
Defined.

Lemma nudge_error_ignored_witness : read_nudges (Some 9%Z) noting = (noting, Ok false).
Proof. by apply nudge_error_ignored. Defined.
