(* ===== verification/Logger.v ===== *)
(** * The logger

    src/logger/logger.h and logger.cc: a bounded queue of messages and the thread that
    writes them.

    A method that holds the lock is one step; the thread gives the lock up while it writes
    and while it waits, so that other threads log in between. *)

From stdpp Require Import pretty.
From S2P Require Import Prelude IoWrappers.

(** ** Definitions *)

Section logger.
(** Times, as the clock reads and as [str] prints them. *)
Context {double : Type} (str_double : double → string) (str_unsigned : N → string).

Record LogMsg := mkLogMsg { timestamp : double; message : string; queue_full_count : N }.

(** Where the thread is: about to take the lock at the top of its loop, writing a buffer
    without the lock, waiting on the condition, or at its end. *)
Inductive place := AtTop | Writing (buf : string) | Waiting | Ended.

(** [woken] tells of a broadcast since the thread began to wait; [written] is what the file
    descriptor got. *)
Record Logger := mkLogger {
  queue : list LogMsg;
  stop_requested : bool;
  thread_at : place;
  woken : bool;
  written : string;
}.

Definition max_queue_size : nat := 100.
Definition new_Logger : Logger := mkLogger [] false AtTop false "".

(** [(queue.back().queue_full_count)++]. *)
Fixpoint count_at_back (l : list LogMsg) : list LogMsg :=
  match l with
  | [] => []
  | [item] => [mkLogMsg (timestamp item) (message item) (wrap32 (queue_full_count item + 1))]
  | item :: l => item :: count_at_back l
  end.

Definition Logger_log (now : double) (msg : string) (g : Logger) : Logger :=
  if decide (max_queue_size ≤ length (queue g))
  then mkLogger (count_at_back (queue g)) (stop_requested g) (thread_at g) (woken g) (written g)
  else mkLogger (queue g ++ [mkLogMsg now msg 0]) (stop_requested g) (thread_at g) true (written g).

Definition Logger_debug now msg := Logger_log now ("D:" +:+ msg).
Definition Logger_info now msg := Logger_log now ("I:" +:+ msg).
Definition Logger_warn now msg := Logger_log now ("W:" +:+ msg).
Definition Logger_error now msg := Logger_log now ("E:" +:+ msg).
(** [what()] of an error, or the description Xapian gives of one of its own. *)
Definition Logger_error_what now context what := Logger_log now ("E:" +:+ context +:+ ": " +:+ what).
Definition Logger_error_bad_alloc now context := Logger_log now ("E:" +:+ context +:+ ": out of memory").

(** One entry of the buffer. *)
Definition log_lines (item : LogMsg) : string :=
  str_double (timestamp item) +:+ ": " +:+ message item +:+ sing (chr 10) +:+
  (if decide (queue_full_count item = 0%N) then ""
   else str_double (timestamp item) +:+ ": LOG OVERLOADED - missing " +:+ str_unsigned (queue_full_count item) +:+ " entries" +:+ sing (chr 10)).

(** [process_queue] up to where it drops the lock, with the buffer. *)
Definition drain_queue (g : Logger) : Logger * string :=
  (mkLogger [] (stop_requested g) (thread_at g) (woken g) (written g), str_concat (log_lines <$> queue g)).

(** Writing the buffer, with what the operating system answers when it is given one. *)
Definition write_out (answers : string → list (sysanswer nat)) (buf : string) (g : Logger) : Logger :=
  mkLogger (queue g) (stop_requested g) (thread_at g) (woken g) (written g +:+ (io_write (answers buf) "" buf).1).

Definition move_to (p : place) (g : Logger) : Logger := mkLogger (queue g) (stop_requested g) p false (written g).

(** [run] from the test of its loop on: it ends, writes, or waits. *)
Definition loop_top (g : Logger) : Logger :=
  if stop_requested g then move_to Ended g
  else
    let '(g, buf) := drain_queue g in
    if decide (buf = "") then move_to Waiting g else move_to (Writing buf) g.

(** Up to the next point where the thread gives up the lock.  It leaves [wait] when it is
    woken, or by itself. *)
Definition thread_step (answers : string → list (sysanswer nat)) (g : Logger) : Logger :=
  match thread_at g with
  | AtTop => loop_top g
  | Writing buf =>
      let g := write_out answers buf g in
      if stop_requested g then move_to Ended g
      else if decide (queue g = []) then move_to Waiting g
      else loop_top g
  | Waiting => loop_top g
  | Ended => g
  end.

(** [Thread::stop] of a thread that was started. *)
Definition Logger_stop (g : Logger) : Logger :=
  if stop_requested g then g else mkLogger (queue g) true (thread_at g) true (written g).

(** [join], once the thread has ended. *)
Definition Logger_join (answers : string → list (sysanswer nat)) (g : Logger) : Logger :=
  let '(g, buf) := drain_queue g in if decide (buf = "") then g else write_out answers buf g.

(** ** What happens to the logger *)

Inductive log_event := Log (now : double) (msg : string) | Step (answers : string → list (sysanswer nat)) | Stop.

Definition run_log_event (g : Logger) (e : log_event) : Logger :=
  match e with Log now msg => Logger_log now msg g | Step answers => thread_step answers g | Stop => Logger_stop g end.
Definition run_log (l : list log_event) (g : Logger) : Logger := foldl run_log_event g l.

(** The messages logged. *)
Definition logged_messages (l : list log_event) : list (double * string) :=
  omap (λ e, match e with Log now msg => Some (now, msg) | _ => None end) l.

(** The operating system takes all that is written. *)
Definition writes_all (answers : string → list (sysanswer nat)) : Prop := ∀ buf, (io_write (answers buf) "" buf).2 = Some true.
Definition takes_all (e : log_event) : Prop :=
  match e with Step answers => writes_all answers | _ => True end.

(** Every message logged is an entry, or is counted as missing by the entry before it. *)
Fixpoint covers (logged : list (double * string)) (entries : list LogMsg) : Prop :=
  match entries with
  | [] => logged = []
  | e :: entries => ∃ missing rest, logged = (timestamp e, message e) :: missing ++ rest ∧
      N.of_nat (length missing) = queue_full_count e ∧ covers rest entries
  end.

(** ** Lemmas *)

Lemma str_concat_app l1 l2 : str_concat (l1 ++ l2) = str_concat l1 +:+ str_concat l2.
Proof. induction l1 as [|s l1 IH]; cbn; [done|]. unfold str_concat in *. by rewrite IH, str_app_assoc. Qed.

Lemma log_lines_nonempty item : log_lines item ≠ "".
Proof.
  unfold log_lines. intros E. apply (f_equal String.length) in E. rewrite !str_app_length in E. cbn in E. lia.
Qed.

Lemma nothing_drained l : str_concat (log_lines <$> l) = "" → l = [].
Proof.
  destruct l as [|e l]; [done|]. cbn. intros E. apply (f_equal String.length) in E. rewrite str_app_length in E. cbn in E.
  destruct (log_lines_nonempty e). destruct (log_lines e); [done|cbn in E; lia].
Qed.

Lemma covers_new logged entries now msg : covers logged entries → covers (logged ++ [(now, msg)]) (entries ++ [mkLogMsg now msg 0]).
Proof.
  revert logged. induction entries as [|e entries IH]; intros logged; cbn.
  - intros ->. by exists [], [].
  - intros (m & r & -> & Hm & Hr). exists m, (r ++ [(now, msg)]). split_and!; [|done|by apply IH]. cbn. by rewrite <-app_assoc.
Qed.

Lemma count_at_back_app l item : count_at_back (l ++ [item]) = l ++ [mkLogMsg (timestamp item) (message item) (wrap32 (queue_full_count item + 1))].
Proof. induction l as [|e l IH]; [done|]. cbn. rewrite IH. by destruct l. Qed.
Lemma count_at_back_length l : length (count_at_back l) = length l.
Proof. induction l as [|e [|e' l] IH]; [done..|]. change (S (length (count_at_back (e' :: l))) = S (S (length l))). by rewrite IH. Qed.

Lemma covers_missing logged entries item x : (N.of_nat (length logged) + 1 < 2 ^ 32)%N → covers logged (entries ++ [item]) →
  covers (logged ++ [x]) (entries ++ [mkLogMsg (timestamp item) (message item) (wrap32 (queue_full_count item + 1))]).
Proof.
  revert logged. induction entries as [|e entries IH]; intros logged Hn; cbn.
  - intros (m & r & -> & Hm & ->). rewrite app_nil_r in *. exists (m ++ [x]), []. rewrite app_nil_r. split_and!; [done| |done].
    rewrite length_cons in Hn. rewrite length_app. unfold wrap32. rewrite N.mod_small; cbn [length]; lia.
  - intros (m & r & -> & Hm & Hr). exists m, (r ++ [x]). split_and!; [cbn; by rewrite <-app_assoc|done|]. apply IH; [|done].
    rewrite length_cons, length_app in Hn. lia.
Qed.

(** ** Invariant *)

(** The buffer that is being written. *)
Definition in_buffer (g : Logger) : string := match thread_at g with Writing buf => buf | _ => "" end.

(** The entries made so far are written, in the buffer or still queued, in order; a thread
    that waits without having been woken has nothing to do. *)
Record logger_ok (logged : list (double * string)) (g : Logger) : Prop := {
  ok_entries : ∃ before, written g +:+ in_buffer g = str_concat (log_lines <$> before) ∧ covers logged (before ++ queue g);
  ok_size : length (queue g) ≤ max_queue_size;
  ok_wakes : thread_at g = Waiting → woken g = false → queue g = [] ∧ stop_requested g = false;
}.

Lemma loop_top_ok logged g : logger_ok logged g → in_buffer g = "" → logger_ok logged (loop_top g).
Proof.
  intros [(before & Hw & Hc) Hs Hk] Hb. rewrite Hb, str_app_nil_r in Hw. unfold loop_top. destruct (stop_requested g) eqn:Est.
  - split; [|done|done]. exists before. by rewrite str_app_nil_r.
  - cbn. case_decide as Hd; (split; [|cbn; lia|done]); cbn.
    + apply nothing_drained in Hd. exists before. rewrite str_app_nil_r. split; [done|]. by rewrite Hd in Hc.
    + exists (before ++ queue g). rewrite fmap_app, str_concat_app, Hw, app_nil_r. done.
Qed.

Lemma writes_all_out answers buf : writes_all answers → (io_write (answers buf) "" buf).1 = buf.
Proof.
  intros Ha. pose proof (io_write_spec (answers buf) buf) as H. specialize (Ha buf). destruct (io_write _ _ _) as [out r]. by apply H.
Qed.

Lemma write_out_ok answers buf logged g : writes_all answers → thread_at g = Writing buf → logger_ok logged g →
  ∀ p, p = Ended ∨ p = AtTop ∨ (p = Waiting ∧ queue g = [] ∧ stop_requested g = false) → logger_ok logged (move_to p (write_out answers buf g)).
Proof.
  intros Ha Hp [(before & Hw & Hc) Hs Hk] p Hp'. unfold in_buffer in Hw. rewrite Hp in Hw.
  pose proof (writes_all_out answers buf Ha) as E.
  split; [|done|].
  - exists before. cbn. rewrite E. split; [|done]. destruct Hp' as [->|[->|(-> & _)]]; cbn; by rewrite str_app_nil_r.
  - cbn. intros ->. destruct Hp' as [?|[?|(_ & ? & ?)]]; done.
Qed.

Lemma log_event_ok logged g e : takes_all e → (N.of_nat (length logged) + 1 < 2 ^ 32)%N → logger_ok logged g →
  logger_ok (match e with Log now msg => logged ++ [(now, msg)] | _ => logged end) (run_log_event g e).
Proof.
  intros He Hn Hg. destruct e as [now msg|answers|]; cbn.
  - destruct Hg as [(before & Hw & Hc) Hs Hk]. unfold Logger_log. case_decide as Hd.
    + destruct (queue g) as [|item l _] eqn:Eq using rev_ind; [cbn in Hd; unfold max_queue_size in Hd; lia|].
      split; cbn; [|by rewrite count_at_back_length|].
      * exists before. split; [done|]. rewrite count_at_back_app, app_assoc. apply covers_missing; [done|]. by rewrite <-app_assoc.
      * intros Ht Hwk. destruct (Hk Ht Hwk) as [Hq _]. by apply app_eq_nil in Hq as [_ ?].
    + split; cbn; [|rewrite length_app; cbn; lia|done]. exists before. split; [done|]. rewrite app_assoc. by apply covers_new.
  - unfold thread_step. destruct (thread_at g) as [|buf| |] eqn:Ep; [apply loop_top_ok; [done|unfold in_buffer; by rewrite Ep]| | |done].
    + pose proof (write_out_ok answers buf logged g He Ep Hg) as Hwo. cbn [takes_all] in He.
      destruct (stop_requested (write_out answers buf g)) eqn:Est; [apply Hwo; by left|].
      case_decide as Hq; [apply Hwo; right; right; by split_and!|].
      assert (E : loop_top (write_out answers buf g) = loop_top (move_to AtTop (write_out answers buf g))) by done.
      rewrite E. apply loop_top_ok; [apply Hwo; by right; left|done].
    + apply loop_top_ok; [done|unfold in_buffer; by rewrite Ep].
  - unfold Logger_stop. destruct (stop_requested g); [done|]. destruct Hg as [H1 H2 H3]. by split.
Qed.

Lemma events_ok l logged g : Forall takes_all l → (N.of_nat (length logged + length (logged_messages l)) + 1 < 2 ^ 32)%N →
  logger_ok logged g → logger_ok (logged ++ logged_messages l) (run_log l g).
Proof.
  revert logged g. induction l as [|e l IH]; intros logged g Hl Hn Hg; cbn; [by rewrite app_nil_r|].
  apply Forall_cons in Hl as [He Hl]. destruct e as [now msg|answers|].
  - change (logged_messages (Log now msg :: l)) with ((now, msg) :: logged_messages l) in *. cbn [length] in Hn.
    change (logger_ok (logged ++ [(now, msg)] ++ logged_messages l) (run_log l (run_log_event g (Log now msg)))). rewrite app_assoc.
    apply IH; [done|rewrite length_app; cbn [length] in *; lia|]. apply (log_event_ok logged g (Log now msg)); [done|lia|done].
  - apply IH; [done..|]. apply (log_event_ok logged g (Step answers)); [done|lia|done].
  - apply IH; [done..|]. apply (log_event_ok logged g Stop); [done|lia|done].
Qed.
End logger.

Section logger_thms.
Context {double : Type} (str_double : double → string) (str_unsigned : N → string).
Notation run l := (run_log str_double str_unsigned l (new_Logger (double:=double))).

Lemma run_ok l : Forall (takes_all (double:=double)) l → (N.of_nat (length (logged_messages l)) + 1 < 2 ^ 32)%N →
  logger_ok str_double str_unsigned (logged_messages l) (run l).
Proof.
  intros Hl Hn. apply (events_ok str_double str_unsigned l []); [done..|]. split; cbn; [by exists []|unfold max_queue_size; lia|done].
Qed.

(** C29: no message is lost without a trace: however threads log and the logger's thread
    writes, once the thread was stopped and joined the log holds, in the order they were
    logged, every message either as a line or in the count of those that were missed. *)
Theorem log_complete l answers (Hl : Forall (takes_all (double:=double)) l) (Ha : writes_all answers)
    (Hn : (N.of_nat (length (logged_messages l)) + 1 < 2 ^ 32)%N) (He : thread_at (run l) = Ended) :
  ∃ entries, written (Logger_join str_double str_unsigned answers (run l)) = str_concat (log_lines str_double str_unsigned <$> entries) ∧
    covers (logged_messages l) entries.
Proof.
  destruct (run_ok l Hl Hn) as [(before & Hw & Hc) _ _]. unfold in_buffer in Hw. rewrite He, str_app_nil_r in Hw.
  exists (before ++ queue (run l)). split; [|done]. rewrite fmap_app, str_concat_app, <-Hw. unfold Logger_join. cbn. case_decide as Hd; cbn.
  - by rewrite Hd, str_app_nil_r.
  - by rewrite (writes_all_out answers _ Ha).
Qed.

(** The thread is never asleep over work, the queue is bounded, and a thread that is asked
    to stop ends the next time it holds the lock. *)
Theorem logger_thread_live l answers (Hl : Forall (takes_all (double:=double)) l) (Hn : (N.of_nat (length (logged_messages l)) + 1 < 2 ^ 32)%N) :
  (thread_at (run l) = Waiting → woken (run l) = false → queue (run l) = [] ∧ stop_requested (run l) = false) ∧
  length (queue (run l)) ≤ max_queue_size ∧
  thread_at (thread_step str_double str_unsigned answers (Logger_stop (run l))) = Ended.
Proof.
  destruct (run_ok l Hl Hn) as [_ H1 H2]. split_and!; [done..|]. unfold thread_step, loop_top, Logger_stop.
  destruct (stop_requested (run l)) eqn:E; cbn; rewrite ?E; destruct (thread_at (run l)) eqn:Et; rewrite ?Et; cbn; rewrite ?E; done.
Qed.
End logger_thms.

(** Three messages, the last two of which are logged while the first is written. *)
Definition whole (buf : string) : list (sysanswer nat) := [Answered (String.length buf)].
Lemma whole_writes_all : writes_all whole.
Proof.
  intros buf. unfold whole. assert (E : str_drop (String.length buf) buf = "") by (rewrite <-(str_app_nil_r buf) at 2; by rewrite str_drop_app).
  cbn. case_decide; [done|]. rewrite E. done.
Qed.
Definition session : list (log_event (double:=N)) :=
  [Step whole; Log 1%N "I:start"; Step whole; Log 2%N "W:a"; Log 3%N "W:b"; Step whole; Stop; Step whole; Log 4%N "E:late"].

Lemma session_ok : Forall (takes_all (double:=N)) session.
Proof. repeat (apply Forall_cons; split; [first [exact I|exact whole_writes_all]|]). by apply Forall_nil. Qed.

Lemma log_complete_witness : ∃ entries,
  written (Logger_join pretty pretty whole (run_log pretty pretty session new_Logger)) = str_concat (log_lines pretty pretty <$> entries) ∧
  covers [(1%N, "I:start"); (2%N, "W:a"); (3%N, "W:b"); (4%N, "E:late")] entries.
Proof. apply (log_complete pretty pretty session whole session_ok whole_writes_all); [done|vm_compute; reflexivity]. Defined.

Lemma logger_thread_live_witness :
  thread_at (thread_step pretty pretty whole (Logger_stop (run_log pretty pretty session new_Logger))) = Ended.
Proof. apply (logger_thread_live pretty pretty session whole session_ok). done. Defined.
