(* ===== verification/Main.v ===== *)
(** * The program

    src/cli/cli.h and cli.cc, the options; src/restpose.cc, what the program does with
    them; and the two sub-servers of the server: the HTTP server (httpserver.cc) and the
    task manager (task_manager.cc) as the main loop sees them.

    What [getopt_long] makes of the command line, the functions of libmicrohttpd, the
    importer and a search from the command line are arguments. *)

From S2P Require Import Prelude Json TaskQueue ThreadPool TaskManager NGram IoWrappers Server.

(** ** The options *)

Inductive action_type := ACT_DEFAULT | ACT_SERVE | ACT_SEARCH | ACT_TRAIN.

#[export] Instance action_type_eq_dec : EqDecision action_type.
Proof. solve_decision. Defined.

Record CliOptions := mkOptions {
  datadir : string;
  action : action_type;
  port : Z;
  pedantic : bool;
  dbname : string;
  searchfiles : list string;
  languages : list string;
  mongo_import : string;
}.

Definition new_CliOptions : CliOptions := mkOptions "" ACT_DEFAULT 7777 false "" [] [] "".

Definition set_action (a : action_type) (o : CliOptions) : CliOptions :=
  mkOptions (datadir o) a (port o) (pedantic o) (dbname o) (searchfiles o) (languages o) (mongo_import o).
Definition set_datadir (d : string) (o : CliOptions) : CliOptions :=
  mkOptions d (action o) (port o) (pedantic o) (dbname o) (searchfiles o) (languages o) (mongo_import o).

(** [atoi]: spaces, a sign, digits. *)
Definition is_space (c : ascii) : bool := let n := ord c in (n =? 32)%N || ((9 <=? n)%N && (n <=? 13)%N).
Fixpoint digits (acc : Z) (s : string) : Z :=
  match s with
  | String c s => if (48 <=? ord c)%N && (ord c <=? 57)%N then digits (acc * 10 + Z.of_N (ord c - 48)) s else acc
  | EmptyString => acc
  end.
Fixpoint atoi (s : string) : Z :=
  match s with
  | String c r =>
      if is_space c then atoi r
      else if decide (c = "-"%char) then (- digits 0 r)%Z
      else if decide (c = "+"%char) then digits 0 r
      else digits 0 s
  | EmptyString => 0%Z
  end.

(** One option and its argument: the new options, or the result of [parse]. *)
Definition parse_option (opt : ascii) (optarg : string) (o : CliOptions) : CliOptions + Z :=
  if decide (opt = "h"%char ∨ opt = "v"%char) then inr (-1)%Z
  else if decide (opt = "d"%char) then inl (set_datadir optarg o)
  else if decide (opt = "a"%char) then
    if decide (action o = ACT_DEFAULT) then
      if decide (optarg = "server") then inl (set_action ACT_SERVE o)
      else if decide (optarg = "search") then inl (set_action ACT_SEARCH o)
      else if decide (optarg = "train") then inl (set_action ACT_TRAIN o)
      else inr 1%Z
    else inr 1%Z
  else if decide (opt = "p"%char) then
    inl (mkOptions (datadir o) (action o) (atoi optarg) (pedantic o) (dbname o) (searchfiles o) (languages o) (mongo_import o))
  else if decide (opt = "P"%char) then
    inl (mkOptions (datadir o) (action o) (port o) true (dbname o) (searchfiles o) (languages o) (mongo_import o))
  else if decide (opt = "n"%char) then
    inl (mkOptions (datadir o) (action o) (port o) (pedantic o) optarg (searchfiles o) (languages o) (mongo_import o))
  else if decide (opt = "f"%char) then
    inl (mkOptions (datadir o) (action o) (port o) (pedantic o) (dbname o) (searchfiles o ++ [optarg]) (languages o) (mongo_import o))
  else if decide (opt = "m"%char) then
    inl (mkOptions (datadir o) (action o) (port o) (pedantic o) (dbname o) (searchfiles o) (languages o) optarg)
  else if decide (opt = "l"%char) then
    inl (mkOptions (datadir o) (action o) (port o) (pedantic o) (dbname o) (searchfiles o) (languages o ++ [optarg]) (mongo_import o))
  else if decide (opt = ":"%char ∨ opt = "?"%char) then inr 1%Z
  else inl o.

Fixpoint parse_options (l : list (ascii * string)) (o : CliOptions) : CliOptions + Z :=
  match l with
  | [] => inl o
  | (opt, optarg) :: l => match parse_option opt optarg o with inl o => parse_options l o | inr ret => inr ret end
  end.

(** [parse]: the options given and whether arguments are left over. *)
Definition CliOptions_parse (l : list (ascii * string)) (excess : bool) : CliOptions + Z :=
  match parse_options l new_CliOptions with
  | inr ret => inr ret
  | inl o =>
      if excess then inr 1%Z
      else
        let o := if decide (action o = ACT_DEFAULT) then set_action ACT_SERVE o else o in
        inl (if decide (datadir o = "") then set_datadir "rspdbs" o else o)
  end.

(** ** The sub-servers *)

Record Process := mkProcess { taskman : TaskManager; daemon : bool }.

Definition on_taskman {A} (m : M TaskManager A) : M (World Process) A := λ w,
  let '(t, r) := m (taskman (outside w)) in (mkWorld (nudges w) (mkProcess t (daemon (outside w))), r).
Definition set_daemon (b : bool) : M (World Process) () := modifyM (λ w, mkWorld (nudges w) (mkProcess (taskman (outside w)) b)).

Section restpose.
(** libmicrohttpd. *)
Context (MHD_start_daemon : Z → bool → bool) (MHD_get_fdset : Process → FdSets → option FdSets) (MHD_get_timeout : Process → option N).
Context (MHD_run : M (World Process) bool).

Definition HTTPServer_start (port : Z) (pedantic : bool) : M (World Process) () :=
  w ← getM;
  if daemon (outside w) then mret ()
  else if MHD_start_daemon port pedantic then set_daemon true
  else throwM (HTTPServerError "Unable to start HTTP daemon").

Definition HTTPServer_stop : M (World Process) () :=
  w ← getM; if daemon (outside w) then set_daemon false else mret ().

(** The timeout, when the daemon has one. *)
Definition merge_timeout (mhd_timeout : option N) (timeout : option N) : option N :=
  match mhd_timeout, timeout with
  | None, t => t
  | Some m, None => Some m
  | Some m, Some t => Some (if (t <? m)%N then m else t)
  end.

Definition HTTPServer_get_fdsets (f : FdSets) : M (World Process) FdSets :=
  w ← getM;
  match MHD_get_fdset (outside w) f with
  | None => throwM (HTTPServerError "Unable to get fdset")
  | Some f => mret (mkFdSets (rfds f) (wfds f) (efds f) (max_fd f) (merge_timeout (MHD_get_timeout (outside w)) (timeout f)))
  end.

Definition HTTPServer_serve : M (World Process) () :=
  ok ← MHD_run; if ok : bool then mret () else throwM (HTTPServerError "Can't poll server (MHD_run failed)").

Definition HTTPServer (port : Z) (pedantic : bool) : SubServer Process :=
  mkSubServer (HTTPServer_start port pedantic) HTTPServer_stop (mret ()) HTTPServer_get_fdsets (λ _ _, HTTPServer_serve).

(** The threads of the task manager, the read end of its socket pair, and what the threads
    do each time [join] waits. *)
Context (address : stage → nat → thread_ptr) (created : stage → nat → Z) (join_result : thread_ptr → Z).
Context (tm_read_end : Z) (meanwhile : list (TaskManager → TaskManager)).

Fixpoint join_taskman (meanwhile : list (TaskManager → TaskManager)) (steps : list join_step) : M TaskManager () :=
  rest ← run_join join_result steps;
  match rest, meanwhile with
  | [], _ => mret ()
  | _, [] => liftM OutOfFuel
  | rest, f :: meanwhile => modifyM f ;; join_taskman meanwhile rest
  end.

Definition TaskManager_get_fdsets (f : FdSets) : M (World Process) FdSets := mret (FD_SET_read tm_read_end f).

Definition TaskManager_serve (sets : FdSets) (timed_out : bool) : M (World Process) () :=
  if negb timed_out && bool_decide (tm_read_end ∈ rfds sets) then on_taskman (serve false) else mret ().

Definition TaskManager_server : SubServer Process :=
  mkSubServer (on_taskman (TaskManager_start address created join_result)) (on_taskman TaskManager_stop)
    (on_taskman (join_taskman meanwhile join_steps)) TaskManager_get_fdsets TaskManager_serve.

(** ** [main_do] *)

(** An importer with its configuration, and a search of a file from the command line. *)
Context (new_importer : string → res (BackgroundTask Process)) (run_search : string → string → res ()).

(** Adding the servers, and the importer when there is one. *)
Definition set_up_server (o : CliOptions) : M (Server Process) () :=
  Server_add "taskman" TaskManager_server ;;
  Server_add "httpserver" (HTTPServer (port o) (pedantic o)) ;;
  if decide (mongo_import o = "") then mret ()
  else importer ← liftM (new_importer (mongo_import o)); Server_add_bg_task "mongoimport" importer.

(** The operating system, for [Server_run]. *)
Context (sigaction_ok : signum → bool) (socketpair : sysanswer (Z * Z)) (close_ok : Z → bool) (rounds : list round).

Definition do_serve (o : CliOptions) : M (Server Process) () :=
  set_up_server o ;; Server_run sigaction_ok socketpair close_ok rounds.

Fixpoint do_search (o : CliOptions) (files : list string) : res () :=
  match files with
  | [] => Ok ()
  | f :: files => if decide (f = "") then do_search o files else run_search (dbname o) f ;; do_search o files
  end.

(** The data files for training: what opening and reading them gives. *)
Context `{!UnicodeLib} (open_answers : string → list (sysanswer Z)) (read_answers : string → list (sysanswer string)).

Definition train_language (o : CliOptions) (lang : string) : M Categoriser () :=
  let path := datadir o +:+ "/text_" +:+ lang in
  match io_open_read (open_answers path) with
  | None => liftM OutOfFuel
  | Some fd =>
      if (fd =? -1)%Z then throwM (SysError ("Unable to open data file at " +:+ path))
      else
        match io_read_exact (read_answers path) (1024 * 1024) with
        | (_, None) => liftM OutOfFuel
        | (_, Some false) => throwM (SysError ("Unable to open read from file at " +:+ path))
        | (text, Some true) => add_target_text lang text
        end
  end.

Definition do_train (o : CliOptions) : res json :=
  let '(cat, r) := for_each (languages o) (train_language o) new_Categoriser in r ;; Categoriser_to_json cat.
End restpose.

(** What the process returns; an exception that is not one of these ends it. *)
Definition exit_status (r : res ()) : option Z :=
  match r with
  | Ok _ => Some 0%Z
  | Throw (InvalidValueError _ | UnserialisationError _ | HTTPServerError _ | NetworkError _ | InvalidStateError _ | SysError _
          | ThreadError _ | ImporterError _ | XapianError _) => Some 1%Z
  | _ => None
  end.

(** ** Properties *)

(** A command line is refused, or asks to end at once, or gives an action and a directory
    for the data. *)
Theorem parse_complete l excess :
  match CliOptions_parse l excess with
  | inr ret => ret = 1%Z ∨ (ret = (-1)%Z ∧ ∃ opt, opt ∈ l.*1 ∧ (opt = "h"%char ∨ opt = "v"%char))
  | inl o => action o ≠ ACT_DEFAULT ∧ datadir o ≠ "" ∧ excess = false
  end.
Proof.
  unfold CliOptions_parse.
  assert (H : ∀ o ret, parse_options l o = inr ret → ret = 1%Z ∨ (ret = (-1)%Z ∧ ∃ opt, opt ∈ l.*1 ∧ (opt = "h"%char ∨ opt = "v"%char))).
  { induction l as [|[opt arg] l IH]; intros o ret; cbn; [done|]. destruct (parse_option opt arg o) as [o'|r] eqn:E.
    - intros H. destruct (IH o' ret H) as [?|(? & x & ? & ?)]; [by left|]. right. split; [done|]. exists x. split; [by right|done].
    - intros [= ->]. unfold parse_option in E. repeat case_decide; simplify_eq; try (by left). right. split; [done|]. exists opt. split; [by left|done]. }
  specialize (H new_CliOptions). destruct (parse_options l new_CliOptions) as [o|ret]; [|by apply H].
  destruct excess; [by left|]. destruct o as [d a]. cbn. split_and!; [|by repeat case_decide|done].
  repeat case_decide; cbn in *; congruence.
Qed.

(** An action is given at most once. *)
Theorem action_once l1 l2 l3 a b excess o : parse_options l1 new_CliOptions = inl o → action o = ACT_DEFAULT →
  (∀ arg, ("h"%char, arg) ∉ l2 ∧ ("v"%char, arg) ∉ l2) →
  CliOptions_parse (l1 ++ ("a"%char, a) :: l2 ++ ("a"%char, b) :: l3) excess = inr 1%Z.
Proof.
  intros Ho Ha Hl. unfold CliOptions_parse.
  assert (Happ : ∀ l l' o, parse_options (l ++ l') o = match parse_options l o with inl o => parse_options l' o | inr r => inr r end).
  { induction l as [|[x y] l IH]; intros l' o'; cbn; [done|]. destruct (parse_option x y o'); [apply IH|done]. }
  rewrite Happ, Ho. cbn [parse_options]. destruct (parse_option "a" a o) as [o1|r] eqn:E1.
  - assert (H1 : action o1 ≠ ACT_DEFAULT) by (unfold parse_option in E1; repeat case_decide; simplify_eq/=; try done; naive_solver).
    rewrite Happ. assert (Hkeep : ∀ l o, (∀ arg, ("h"%char, arg) ∉ l ∧ ("v"%char, arg) ∉ l) → action o ≠ ACT_DEFAULT →
      match parse_options l o with inl o' => action o' ≠ ACT_DEFAULT | inr r => r = 1%Z end).
    { clear. induction l as [|[x y] l IH]; intros o Hl Ha; cbn; [done|]. destruct (parse_option x y o) as [o1|r] eqn:E.
      - apply IH; [intros arg; specialize (Hl arg); set_solver|]. unfold parse_option in E. repeat case_decide; simplify_eq/=; done.
      - unfold parse_option in E. destruct (Hl y) as [Hh Hv]. repeat case_decide; simplify_eq/=; try done.
        destruct_or!; simplify_eq; set_solver. }
    specialize (Hkeep l2 o1 Hl H1). destruct (parse_options l2 o1) as [o2|r2]; [|by subst].
    cbn [parse_options]. destruct (parse_option "a" b o2) eqn:E2; unfold parse_option in E2; repeat case_decide; simplify_eq/=; try done; naive_solver.
  - unfold parse_option in E1. repeat case_decide; simplify_eq/=; try done. naive_solver.
Qed.

Lemma action_once_witness :
  CliOptions_parse [("d"%char, "data"); ("a"%char, "server"); ("p"%char, "80"); ("a"%char, "train")] false = inr 1%Z.
Proof.
  apply (action_once [("d"%char, "data")] [("p"%char, "80")] [] "server" "train" false (set_datadir "data" new_CliOptions)); [done|done|].
  intros arg. split; intros [=]%list_elem_of_singleton.
Defined.

(** A fault.  [select] may only wait as long as the shortest timeout; of two servers that
    have one, the longer is taken. *)
Theorem longer_timeout_taken m t : (t < m)%N → merge_timeout (Some m) (Some t) = Some m.
Proof. intros H. cbn. by rewrite (proj2 (N.ltb_lt _ _) H). Qed.

Lemma longer_timeout_taken_witness : merge_timeout (Some 5000%N) (Some 10%N) = Some 5000%N.
Proof. by apply longer_timeout_taken. Defined.

Lemma two_servers {A} (h t : A) : sorted_items (<["httpserver" := h]> (<["taskman" := t]> (∅ : gmap string A))) = [("httpserver", h); ("taskman", t)].
Proof. vm_compute. reflexivity. Qed.

(** A task manager that was never started is stopped and joined at once. *)
Definition idle_joined (fd : Z) : TaskManager := (run_join (λ _, 0%Z) join_steps (TaskManager_stop (new_TaskManager fd)).1).1.
Lemma idle_join join_result fd : run_join join_result join_steps (TaskManager_stop (new_TaskManager fd)).1 = (idle_joined fd, Ok []).
Proof. vm_compute. reflexivity. Qed.
Lemma idle_joined_closed fd st : closed (queues_of st (idle_joined fd)) = true ∧ threads (threads_of st (idle_joined fd)) = ∅ ∧
  tm_started (idle_joined fd) = false.
Proof. destruct st; vm_compute; done. Qed.

Lemma set_up_plain {W} (s : Server W) : ∃ h, set_up_signal_handlers (λ _, true) s = (set_handlers h s, Ok ()).
Proof. by eexists. Qed.

(** A server with the two of restpose. *)
Section pair.
Context {W : Type} (h t : SubServer W) (s : Server W).
Context (Hs : servers s = <["httpserver" := h]> (<["taskman" := t]> ∅)) (Hb : bgtasks s = ∅).

Lemma start_fails s' e : on_world (ss_start h) s = (s', throw e) → start_children s = (s', throw e).
Proof.
  intros E. unfold start_children. unfold mbind at 1, M_bind at 1, getM. rewrite Hs, two_servers. cbn. unfold mbind, M_bind. by rewrite E.
Qed.
Lemma stop_two b : Server_stop_children b s = (ignoring b (on_world (ss_stop h)) ;; ignoring b (on_world (ss_stop t)) ;; mret ()) s.
Proof. unfold Server_stop_children. unfold mbind at 1, M_bind at 1, getM. by rewrite Hs, Hb, two_servers. Qed.
Lemma join_two b : Server_join_children b s = (ignoring b (on_world (ss_join h)) ;; ignoring b (on_world (ss_join t)) ;; mret ()) s.
Proof. unfold Server_join_children. unfold mbind at 1, M_bind at 1, getM. by rewrite Hs, Hb, two_servers. Qed.
End pair.

Lemma close_ends {W} close_ok w r (s : Server W) : (∀ fd, close_ok fd = true) → open_ends s = {[w; r]} →
  let '(s', x) := (close_end close_ok w ;; close_end close_ok r ;; mret ()) s in open_ends s' = ∅ ∧ world s' = world s ∧ x = Ok ().
Proof.
  intros Hc Ho. unfold mbind, M_bind, close_end. rewrite !Hc, Ho, bool_decide_true by set_solver. cbn.
  case_bool_decide; cbn; split_and!; try done; set_solver.
Qed.

(** When the port is taken the server goes down cleanly: no thread was started, the queues
    are closed, nothing is left open, and the program ends with status 1. *)
Theorem port_taken start_daemon get_fdset get_timeout run_daemon address created join_result tm_read meanwhile importer close_ok rounds w r fd o
    (Hport : start_daemon (port o) (pedantic o) = false) (Hm : mongo_import o = "") (Hclose : ∀ fd, close_ok fd = true) :
  let '(s, x) := do_serve start_daemon get_fdset get_timeout run_daemon address created join_result tm_read meanwhile importer (λ _, true)
    (Answered (w, r)) close_ok rounds o (new_Server (mkWorld [] (mkProcess (new_TaskManager fd) false))) in
  exit_status x = Some 1%Z ∧ open_ends s = ∅ ∧ tm_started (taskman (outside (world s))) = false ∧
  ∀ st, closed (queues_of st (taskman (outside (world s)))) = true ∧ threads (threads_of st (taskman (outside (world s)))) = ∅.
Proof.
  set (h := HTTPServer start_daemon get_fdset get_timeout run_daemon (port o) (pedantic o)).
  set (t := TaskManager_server address created join_result tm_read meanwhile).
  assert (E : do_serve start_daemon get_fdset get_timeout run_daemon address created join_result tm_read meanwhile importer (λ _, true)
    (Answered (w, r)) close_ok rounds o (new_Server (mkWorld [] (mkProcess (new_TaskManager fd) false))) =
    Server_run (λ _, true) (Answered (w, r)) close_ok rounds (mkServer false false (-1) ∅ (<["httpserver" := h]> (<["taskman" := t]> ∅)) ∅ (λ _, SIG_DFL)
      (mkWorld [] (mkProcess (new_TaskManager fd) false)))).
  { unfold do_serve, set_up_server, mbind, M_bind, Server_add, modifyM. by rewrite Hm, decide_True. }
  rewrite E. clear E. unfold Server_run. unfold mbind at 1, M_bind at 1, getM. cbn [sv_started shutting_down orb].
  unfold mbind at 1, M_bind at 1, modifyM at 1. unfold mbind at 1, M_bind at 1, modifyM at 1. unfold mbind at 1, M_bind at 1.
  match goal with |- context [set_up_signal_handlers ?f ?s] => destruct (set_up_plain s) as (k & ->) end.
  match goal with |- context [set_handlers k ?s] => set (s0 := set_handlers k s) end.
  assert (Hs : servers s0 = <["httpserver" := h]> (<["taskman" := t]> ∅)) by done. assert (Hb : bgtasks s0 = ∅) by done.
  unfold catch_all, run_children. unfold mbind at 1, M_bind at 1.
  rewrite (start_fails h t s0 Hs s0 (HTTPServerError "Unable to start HTTP daemon"));
    [|unfold on_world, h; cbn; unfold HTTPServer_start, mbind, M_bind, getM; cbn; by rewrite Hport].
  unfold mbind at 1, M_bind at 1. unfold clean_up.
  unfold mbind at 1, M_bind at 1. rewrite (stop_two h t s0 Hs Hb).
  set (s1 := set_world (mkWorld [] (mkProcess (TaskManager_stop (new_TaskManager fd)).1 false)) s0).
  assert (E1 : (ignoring true (on_world (ss_stop h)) ;; ignoring true (on_world (ss_stop t)) ;; mret ()) s0 = (s1, Ok ())) by reflexivity.
  rewrite E1. unfold mbind at 1, M_bind at 1. rewrite (join_two h t s1 Hs Hb).
  set (s2 := set_world (mkWorld [] (mkProcess (idle_joined fd) false)) s1).
  assert (E2 : (ignoring true (on_world (ss_join h)) ;; ignoring true (on_world (ss_join t)) ;; mret ()) s1 = (s2, Ok ())).
  { unfold mbind, M_bind, ignoring, catch_all, on_world, t. cbn [ss_join TaskManager_server HTTPServer h mret M_ret].
    unfold on_taskman, join_taskman. destruct meanwhile; unfold mbind, M_bind; cbn [outside world set_world taskman s1]; by rewrite idle_join. }
  rewrite E2. unfold mbind at 1, M_bind at 1. unfold release_signal_handlers, sigaction. unfold mbind at 1 2 3, M_bind at 1 2 3, mret at 1, M_ret at 1.
  set (s3 := set_disposition SIGCHLD SIG_DFL _). pose proof (close_ends close_ok w r s3 Hclose eq_refl) as H3.
  destruct ((close_end close_ok w ;; close_end close_ok r ;; mret ()) s3) as [s4 r4]. destruct H3 as (H4 & H5 & ->). cbn. rewrite H5.
  split_and!; [done..|apply (idle_joined_closed fd Indexing)|]. intros st. destruct (idle_joined_closed fd st) as (? & ? & _). done.
Qed.

Lemma port_taken_witness : exit_status (do_serve (λ _ _, false) (λ _ f, Some f) (λ _, None) (mret true) (λ _ _, 0%N) (λ _ _, 0%Z) (λ _, 0%Z) 5 []
  (λ _, throw (InvalidValueError "")) (λ _, true) (Answered (3, 4)%Z) (λ _, true) [] new_CliOptions
  (new_Server (mkWorld [] (mkProcess (new_TaskManager 6) false)))).2 = Some 1%Z.
Proof.
  pose proof (port_taken (λ _ _, false) (λ _ f, Some f) (λ _, None) (mret true) (λ _ _, 0%N) (λ _ _, 0%Z) (λ _, 0%Z) 5 [] (λ _, throw (InvalidValueError ""))
    (λ _, true) [] 3 4 6 new_CliOptions eq_refl eq_refl (λ _, eq_refl)) as H. destruct (do_serve _ _ _ _ _ _ _ _ _ _ _ _ _ _ _ _) as [s x]. apply H.
Defined.
