(* ===== verification/MongoImport.v ===== *)
(** * The importer for MongoDB

    src/importer/mongo/mongo_import.cc: its configuration, the conversions between JSON and
    BSON, and the loop that queues documents and marks them.

    The C driver is vendored under libs/mongo-c-driver: a BSON document is what its
    iterators deliver, and what the code makes of a query is the sequence of calls to the
    driver's buffer, of which the stack of open levels and the checks of strings are here;
    its bytes are not.  Connections, the clock and zlib are arguments. *)

From Stdlib Require Import SpecFloat DecimalString.
From S2P Require Import Prelude Json JsonPath Mapping MappingThms TaskQueue.

(** ** Configuration *)

Record MongoImporterConfig := mkMongoConfig {
  host_ip : string;
  port : Z;
  mongodb : string;
  collection : string;
  query : json;
  out_db_path : string;
  out_config_path : string;
  changed : bool;
}.

Definition new_MongoImporterConfig : MongoImporterConfig := mkMongoConfig "" (-1) "" "" JNull "" "" true.

(** The members set before an exception leaves stay set. *)
Definition MongoImporterConfig_set_from_json (newconfig : json) : M MongoImporterConfig () :=
  liftM (json_check_object newconfig "MongoImporter config") ;;
  h ← liftM (json_get_string_member newconfig "host_ip" "");
  modifyM (λ c, mkMongoConfig h (port c) (mongodb c) (collection c) (query c) (out_db_path c) (out_config_path c) (changed c)) ;;
  member ← liftM (json_get newconfig "port" JNull);
  p ← (if isNull member then mret 27017%Z else liftM (asInt member));
  modifyM (λ c, mkMongoConfig (host_ip c) p (mongodb c) (collection c) (query c) (out_db_path c) (out_config_path c) (changed c)) ;;
  c ← getM;
  d ← liftM (json_get_string_member newconfig "mongodb" (mongodb c));
  modifyM (λ c, mkMongoConfig (host_ip c) (port c) d (collection c) (query c) (out_db_path c) (out_config_path c) (changed c)) ;;
  l ← liftM (json_get_string_member newconfig "collection" (collection c));
  modifyM (λ c, mkMongoConfig (host_ip c) (port c) (mongodb c) l (query c) (out_db_path c) (out_config_path c) (changed c)) ;;
  member ← liftM (json_get newconfig "query" JNull);
  modifyM (λ c, mkMongoConfig (host_ip c) (port c) (mongodb c) (collection c) (if isNull member then JObj [] else member)
                  (out_db_path c) (out_config_path c) (changed c)) ;;
  o ← liftM (json_get_string_member newconfig "out_db_path" "");
  modifyM (λ c, mkMongoConfig (host_ip c) (port c) (mongodb c) (collection c) (query c) o (out_config_path c) (changed c)) ;;
  f ← liftM (json_get_string_member newconfig "out_config_path" "");
  modifyM (λ c, mkMongoConfig (host_ip c) (port c) (mongodb c) (collection c) (query c) (out_db_path c) f true).

(** [ns]. *)
Definition namespace (c : MongoImporterConfig) : string := mongodb c +:+ "." +:+ collection c.

(** ** From BSON to JSON *)

(** The values an iterator of the driver meets, each with the name of its element. *)
Inductive bson_value :=
| bson_int (z : Z)
| bson_long (z : Z)
| bson_double (d : spec_float)
| bson_string (s : string)
| bson_bool (b : bool)
| bson_date (z : Z)
| bson_undefined
| bson_null
| bson_timestamp (t i : Z)
| bson_object (l : list (string * bson_value))
| bson_array (l : list (string * bson_value))
| bson_bindata (bintype : Z) (data : string)
| bson_oid (hex : string)
| bson_regex
| bson_dbref
| bson_code
| bson_symbol
| bson_codewscope
| bson_other.

Definition unsupported (what : string) : res json := throw (InvalidValueError ("Unsupported " +:+ what +:+ " in bson document")).

(** [bson_iterator_bool] answers a [bson_bool_t], which is an [int]. *)
Section conversions.
(** [ZlibInflater::inflate] and [str] of an integer. *)
Context (inflate : string → res string) (str : Z → string).

Fixpoint bson_to_json (v : bson_value) : res json :=
  match v with
  | bson_int z | bson_long z | bson_date z => Ok (JInt z)
  | bson_double d => Ok (JReal d)
  | bson_string s => Ok (jstr s)
  | bson_bool b => Ok (JInt (if b then 1 else 0))
  | bson_undefined | bson_null => Ok JNull
  | bson_timestamp t i => Ok (JArr [JInt t; JInt i])
  | bson_object l =>
      foldl (λ result x, result ← result; y ← x; Ok (json_set result y.1 y.2)) (Ok (JObj []))
        (map (λ x, y ← bson_to_json x.2; Ok (x.1, y)) l)
  | bson_array l =>
      foldl (λ result x, result ← result; y ← x; Ok (json_append result y)) (Ok (JArr [])) (map (λ x, bson_to_json x.2) l)
  | bson_bindata bintype data =>
      if decide (bintype = 0%Z ∨ bintype = 2%Z) then uncompressed ← inflate data; Ok (jstr uncompressed)
      else unsupported ("binary type (" +:+ str bintype +:+ ")")
  | bson_oid hex => Ok (jstr hex)
  | bson_regex => unsupported "type (regex)"
  | bson_dbref => unsupported "type (dbref)"
  | bson_code => unsupported "type (code)"
  | bson_symbol => unsupported "type (symbol)"
  | bson_codewscope => unsupported "type (codewscope)"
  | bson_other => unsupported "type"
  end.

Definition bson_object_to_json (l : list (string * bson_value)) : res json := bson_to_json (bson_object l).

(** ** From JSON to BSON *)

(** The calls made to the driver's buffer. *)
Inductive bson_call :=
| append_start_array (name : string)
| append_start_object (name : string)
| append_finish_object
| append_null (name : string)
| append_long (name : string) (z : Z)
| append_double (name : string) (d : spec_float)
| append_string (name s : string).

(** [asInt64]; the real branch goes through the 32-bit [Int]. *)
Definition maxInt64 : Z := 9223372036854775807.
Definition asInt64 (v : json) : res Z :=
  match v with
  | JNull => Ok 0%Z
  | JInt z => Ok z
  | JUInt n => if (Z.of_N n <=? maxInt64)%Z then Ok (Z.of_N n) else throw (RuntimeError "unsigned integer out of Int64 range")
  | JReal d => if real_ge_Z d (- maxInt64 - 1) && real_le_Z d maxInt64 then Ok (real_trunc d) else throw (RuntimeError "Real out of Int64 range")
  | JBool b => Ok (if b then 1 else 0)%Z
  | _ => throw (RuntimeError "Type is not convertible to Int64")
  end.

Definition component_name (c : JSONPathComponent) : string :=
  match c with JSONPATH_KEY key => key | JSONPATH_INDEX index => str (Z.of_N index) end.

Definition leaf_call (name : string) (v : json) : res bson_call :=
  if isNull v then Ok (append_null name)
  else if isIntegral v then z ← asInt64 v; Ok (append_long name z)
  else if isDouble v then d ← asDouble v; Ok (append_double name d)
  else if isString v then s ← asString v; Ok (append_string name s)
  else throw (InvalidValueError "Unsupported type in bson document").

(** One event of the walk: the new level, and what is appended. *)
Definition event_calls (level : N) (e : Event) : res (N * list bson_call) :=
  let name := component_name (component e) in
  match ev_type e with
  | START => Ok ((level + 1)%N, if (0 <? level)%N then [if isArray (ev_value e) then append_start_array name else append_start_object name] else [])
  | LEAF => c ← leaf_call name (ev_value e); Ok (level, [c])
  | END => Ok ((level - 1)%N, if (0 <? level - 1)%N then [append_finish_object] else [])
  end.

Fixpoint bson_loop (fuel : nat) (walker : JSONWalker) (level : N) : res (list bson_call) :=
  match fuel with
  | O => OutOfFuel
  | S fuel =>
      match JSONWalker_next walker with
      | (_, None) => Ok []
      | (walker, Some event) =>
          '(level, calls) ← event_calls level event; rest ← bson_loop fuel walker level; Ok (calls ++ rest)
      end
  end.

(** [json_to_bson]: [None] for [bson_empty]. *)
Definition json_to_bson (input : json) : res (option (list bson_call)) :=
  if decide (json_size input = 0%N ∧ (isNull input = true ∨ isArray input = true ∨ isObject input = true)) then Ok None
  else walker ← JSONWalker_new input; calls ← bson_loop (2 + walk_size input) walker 0; Ok (Some calls).
End conversions.

(** ** The loop of the importer *)

(** What [run] does to the outside, in order. *)
Inductive import_action :=
| SetStatus (mongo_id : string) (status : Z) (reload_first : bool)
| QueueDocument (item : json) (state : QueueState)
| CreateCheckpoint (state : QueueState)
| UpdateStatus (count batch_count : N).

(** The counters of [run]; what it did is kept in [done]. *)
Record Import := mkImport {
  count : N;
  batch_count : N;
  batch_end : N;
  unflushed_ids : list string;
  acts : list import_action;
}.

Definition batch_size : N := 100000.
Definition new_Import : Import := mkImport 0 0 batch_size [] [].

Definition act (a : import_action) : M Import () := modifyM (λ i,
  mkImport (count i) (batch_count i) (batch_end i) (unflushed_ids i) (acts i ++ [a])).

Section importer.
Context (inflate : string → res string) (str : Z → string) (json_serialise : json → string).
(** Which identifiers can be updated in the database. *)
Context (update_ok : string → bool).

Definition set_update_status (mongo_id : string) (status : Z) (reload_first : bool) : M Import () :=
  if decide (String.length mongo_id < 24) then throwM (ImporterError "Invalid mongo OID for object, when updating status in mongodb")
  else act (SetStatus mongo_id status reload_first) ;;
       if update_ok mongo_id then mret () else throwM (ImporterError "Unable to update document's update status").

(** Queueing one document: what each attempt answers, and whether a stop is requested
    after it.  [false] means that the run ends. *)
Fixpoint queue_document (item : json) (attempts : list (QueueState * bool)) : M Import bool :=
  match attempts with
  | [] => liftM OutOfFuel
  | (state, stop_requested) :: attempts =>
      act (QueueDocument item state) ;;
      match state with
      | CLOSED => mret false
      | FULL => if stop_requested : bool then mret false else queue_document item attempts
      | _ => mret true
      end
  end.

(** A commit is queued and the documents before it are marked. *)
Definition flush_batch (state : QueueState) : M Import () :=
  act (CreateCheckpoint state) ;;
  i ← getM;
  for_each (unflushed_ids i) (λ id, set_update_status id 100 true) ;;
  modifyM (λ i, mkImport (count i) (wrap32 (batch_count i + 1)) (wrap32 (count i + batch_size)) [] (acts i)).

(** What happens while a document is imported: the attempts to queue it, what queueing a
    checkpoint would answer, and whether a stop is requested at the end. *)
Record surroundings := mkSurroundings { attempts : list (QueueState * bool); checkpoint_state : QueueState; stop_after : bool }.

Definition check_server_error (item : json) : res () :=
  if isObject item then
    err ← json_get item "$err" JNull;
    if isNull err then Ok () else throw (ImporterError ("Received error from mongo server: " +:+ json_serialise err))
  else Ok ().

Definition import_document (doc : list (string * bson_value)) (w : surroundings) : M Import bool :=
  item ← liftM (bson_object_to_json inflate str doc);
  liftM (check_server_error item) ;;
  mongo_id ← liftM (json_get_string_member item "_id" "");
  if decide (mongo_id = "") then throwM (ImporterError ("Recieved doc from mongo server with no id: " +:+ json_serialise item))
  else
    set_update_status mongo_id 20 false ;;
    modifyM (λ i, mkImport (count i) (batch_count i) (batch_end i) (unflushed_ids i ++ [mongo_id]) (acts i)) ;;
    queued ← queue_document item (attempts w);
    if negb queued then mret false
    else
      modifyM (λ i, mkImport (wrap32 (count i + 1)) (batch_count i) (batch_end i) (unflushed_ids i) (acts i)) ;;
      i ← getM;
      (if decide (count i mod 23 = 0)%N then mret () else act (UpdateStatus (count i) (batch_count i))) ;;
      (if (batch_end i <? count i)%N then flush_batch (checkpoint_state w) else mret ()) ;;
      mret (negb (stop_after w)).

(** One pass over the cursor: whether it came to the end, where everything is flushed. *)
Fixpoint import_all (docs : list (list (string * bson_value) * surroundings)) (last_checkpoint : QueueState) : M Import bool :=
  match docs with
  | [] => flush_batch last_checkpoint ;; i ← getM; act (UpdateStatus (count i) (batch_count i)) ;; mret true
  | (doc, w) :: docs => go_on ← import_document doc w; if go_on : bool then import_all docs last_checkpoint else mret false
  end.
End importer.

(** ** Queries: what the calls build *)

(** *** Strings

    encoding.c: the driver refuses names and strings that are not UTF-8. *)

Definition trailingBytesForUTF8 (c : N) : nat :=
  if (c <? 192)%N then 0 else if (c <? 224)%N then 1 else if (c <? 240)%N then 2
  else if (c <? 248)%N then 3 else if (c <? 252)%N then 4 else 5.

Definition first_legal (a : N) : bool := negb ((128 <=? a)%N && (a <? 194)%N) && (a <=? 244)%N.
Definition second_legal (a b : N) : bool :=
  (b <=? 191)%N &&
  (if (a =? 224)%N then 160 <=? b else if (a =? 240)%N then 144 <=? b else if (a =? 244)%N then b <=? 143 else 128 <=? b)%N.
Definition other_legal (b : N) : bool := (128 <=? b)%N && (b <=? 191)%N.

Definition isLegalUTF8 (source : list N) : bool :=
  match source with
  | [a] => first_legal a
  | [a; b] => second_legal a b && first_legal a
  | [a; b; c] => other_legal c && second_legal a b && first_legal a
  | [a; b; c; d] => other_legal d && other_legal c && second_legal a b && first_legal a
  | _ => false
  end.

(** The loop over the string; a round passes at least one byte. *)
Fixpoint bson_validate_string (fuel : nat) (string : list N) : bool :=
  match fuel, string with
  | S fuel, c :: _ =>
      let sequence_length := trailingBytesForUTF8 c + 1 in
      if decide (length string < sequence_length) then false
      else isLegalUTF8 (take sequence_length string) && bson_validate_string fuel (drop sequence_length string)
  | _, _ => true
  end.
Definition bson_check_string (s : string) : bool := bson_validate_string (String.length s) (ord <$> bytes s).

(** *** Levels

    bson.c: the elements appended so far at each level that is open, the innermost first
    and the document itself last.  [None] when a string is refused, which leaves out an
    element or its value, and when there is no room for a level or none to end: the
    positions are kept in an array of 32 without a check. *)
Inductive frame := Frame (is_array : bool) (name : string) (elements : list (string * bson_value)).

Definition add_element (name : string) (v : bson_value) (frames : list frame) : option (list frame) :=
  match frames with
  | Frame b n l :: fs => if bson_check_string name then Some (Frame b n (l ++ [(name, v)]) :: fs) else None
  | [] => None
  end.

Definition stackPos (frames : list frame) : nat := length frames - 1.

Definition start_level (is_array : bool) (name : string) (frames : list frame) : option (list frame) :=
  if negb (bson_check_string name) then None
  else if decide (stackPos frames < 32) then Some (Frame is_array name [] :: frames) else None.

Definition build_call (frames : list frame) (c : bson_call) : option (list frame) :=
  match c with
  | append_start_array n => start_level true n frames
  | append_start_object n => start_level false n frames
  | append_finish_object =>
      match frames with
      | Frame b n l :: fs => add_element n (if b then bson_array l else bson_object l) fs
      | [] => None
      end
  | append_null n => add_element n bson_null frames
  | append_long n z => add_element n (bson_long z) frames
  | append_double n d => add_element n (bson_double d) frames
  | append_string n s => if bson_check_string s then add_element n (bson_string s) frames else None
  end.

Definition build_calls (frames : option (list frame)) (calls : list bson_call) : option (list frame) :=
  foldl (λ frames c, frames ← frames; build_call frames c) frames calls.

(** From a new buffer. *)
Definition built (calls : list bson_call) : option (list frame) := build_calls (Some [Frame false "" []]) calls.

(** The document a query stands for. *)
Fixpoint to_bson (str : Z → string) (v : json) : bson_value :=
  match v with
  | JNull => bson_null
  | JInt z => bson_long z
  | JUInt n => bson_long (Z.of_N n)
  | JReal d => bson_double d
  | JStr s => bson_string s
  | JBool b => bson_long (if b then 1 else 0)
  | JArr l => bson_array (imap (λ i x, (str (Z.of_nat i), x)) (map (to_bson str) l))
  | JObj m => bson_object (map (λ x, (x.1, to_bson str x.2)) m)
  end.

(** What comes back: unsigned integers and booleans have become signed integers. *)
Fixpoint as_sent (v : json) : json :=
  match v with
  | JUInt n => JInt (Z.of_N n)
  | JBool b => JInt (if b then 1 else 0)
  | JArr l => JArr (map as_sent l)
  | JObj m => JObj (map (λ x, (x.1, as_sent x.2)) m)
  | v => v
  end.

(** How deep arrays and objects are nested. *)
Fixpoint depth (v : json) : nat :=
  match v with
  | JArr l => S (foldr (λ x n, depth x `max` n) 0 l)
  | JObj m => S (foldr (λ x n, depth x.2 `max` n) 0 m)
  | _ => 0
  end.

(** A string that the driver takes as it is: no zero byte, and UTF-8. *)
Definition bson_text (s : string) : Prop := clean s ∧ bson_check_string s = true.

(** Values as the parser makes them, with keys in order; integers that fit. *)
Fixpoint sendable (v : json) : Prop :=
  match v with
  | JUInt n => (Z.of_N n ≤ maxInt64)%Z
  | JStr s => bson_text s
  | JArr l => foldr (λ x P, sendable x ∧ P) True l
  | JObj m => obj_wf m ∧ foldr (λ x P, (bson_text x.1 ∧ sendable x.2) ∧ P) True m
  | _ => True
  end.

Lemma foldr_and {A} (P : A → Prop) l : foldr (λ x Q, P x ∧ Q) True l ↔ Forall P l.
Proof. induction l as [|x l IH]; cbn; [done|]. rewrite Forall_cons. naive_solver. Qed.

(** The names of the elements of an array are the digits of their indices. *)
Section roundtrip.
Context (inflate : string → res string) (str : Z → string).
Context (Hstr : ∀ z, bson_check_string (str z) = true).

(** Reading back a document that a query was turned into. *)
Lemma bson_of_json v : sendable v → bson_to_json inflate str (to_bson str v) = Ok (as_sent v).
Proof.
  apply (json_nested_ind (λ v, sendable v → bson_to_json inflate str (to_bson str v) = Ok (as_sent v))); clear v; try done.
  - intros s [Hs _]. cbn in *. unfold jstr. by rewrite Hs.
  - intros l IH Hs. cbn [sendable] in Hs. apply (foldr_and sendable) in Hs. cbn [to_bson bson_to_json as_sent].
    assert (H : ∀ i acc, foldl (λ result x, result ← result; y ← x; Ok (json_append result y)) (Ok (JArr acc))
        (map (λ x, bson_to_json inflate str x.2) (imap (λ j x, (str (Z.of_nat (i + j)), x)) (map (to_bson str) l))) = Ok (JArr (acc ++ map as_sent l)));
      [|apply (H 0 [])].
    induction l as [|x l IHl]; intros i acc; cbn; [by rewrite app_nil_r|]. apply Forall_cons in IH as [IHx IH], Hs as [Hx Hs].
    rewrite IHx by done. cbn. replace (acc ++ as_sent x :: map as_sent l) with ((acc ++ [as_sent x]) ++ map as_sent l) by by rewrite <-app_assoc.
    rewrite <-(IHl IH Hs (S i) (acc ++ [as_sent x])). f_equal. f_equal. apply imap_ext. intros j y _. cbn. by rewrite Nat.add_succ_r.
  - intros m IH [Hwf Hs]. apply (foldr_and (λ x : string * json, bson_text x.1 ∧ sendable x.2)) in Hs. cbn [to_bson bson_to_json as_sent].
    assert (E : ∀ acc, foldl (λ result x, result ← result; y ← x; Ok (json_set result y.1 y.2)) (Ok acc)
      (map (λ x, y ← bson_to_json inflate str x.2; Ok (x.1, y)) (map (λ x, (x.1, to_bson str x.2)) m)) =
      Ok (foldl (λ v '(n, c), json_set v n (as_sent c)) acc m)).
    { clear Hwf. induction m as [|[k x] m IHm]; intros acc; cbn; [done|]. apply Forall_cons in IH as [IHx IH], Hs as [[_ Hx] Hs]. cbn in IHx, Hx.
      rewrite IHx by done. cbn. by apply IHm. }
    rewrite E, (json_set_members as_sent m []); [done| |done].
    apply Forall_fmap. eapply Forall_impl; [exact Hs|]. by intros x [[Hk _] _].
Qed.

(** The calls for a list of events. *)
Fixpoint events_calls (level : N) (es : list Event) : res (N * list bson_call) :=
  match es with
  | [] => Ok (level, [])
  | e :: es => '(level, calls) ← event_calls str level e; '(level, rest) ← events_calls level es; Ok (level, calls ++ rest)
  end.

Lemma events_calls_app es1 es2 level level1 cs1 : events_calls level es1 = Ok (level1, cs1) →
  events_calls level (es1 ++ es2) = ('(level2, cs2) ← events_calls level1 es2; Ok (level2, cs1 ++ cs2)).
Proof.
  revert level cs1. induction es1 as [|e es1 IH]; intros level cs1; cbn.
  - intros [= -> <-]. by destruct (events_calls level1 es2) as [[]|?|].
  - destruct (event_calls str level e) as [[l c]|?|]; [|done..]. cbn. destruct (events_calls l es1) as [[l1 c1]|?|] eqn:E; [|done..].
    cbn. intros [= -> <-]. rewrite (IH l c1 E). destruct (events_calls level1 es2) as [[]|?|]; cbn; by rewrite ?app_assoc.
Qed.

Lemma bson_loop_events es w w' level n level' cs : yields w es w' → events_calls level es = Ok (level', cs) →
  bson_loop str (length es + n) w level = (rest ← bson_loop str n w' level'; Ok (cs ++ rest)).
Proof.
  revert w level cs. induction es as [|e es IH]; intros w level cs; cbn.
  - intros <- [= <- <-]. by destruct (bson_loop str n w level).
  - intros (w1 & -> & Hy). destruct (event_calls str level e) as [[l c]|?|]; [|done..]. cbn. destruct (events_calls l es) as [[l1 c1]|?|] eqn:E; [|done..].
    cbn. intros [= <- <-]. rewrite (IH w1 l c1 Hy E). destruct (bson_loop str n w' l1); cbn; by rewrite ?app_assoc.
Qed.

(** Calls that leave the levels as they are and append these elements to the innermost. *)
Definition appends (level : N) (es : list Event) (elements : list (string * bson_value)) : Prop :=
  ∃ cs, events_calls level es = Ok (level, cs) ∧
    ∀ b n l fs, N.of_nat (S (length fs)) = level → build_calls (Some (Frame b n l :: fs)) cs = Some (Frame b n (l ++ elements) :: fs).

Definition elements_of (items : list (JSONPathComponent * json)) : list (string * bson_value) :=
  (λ x, (component_name str x.1, to_bson str x.2)) <$> items.

Lemma appends_items level items : Forall (λ x, appends level (walk x.1 x.2) [(component_name str x.1, to_bson str x.2)]) items →
  appends level (walk_items items) (elements_of items).
Proof.
  induction 1 as [|[c x] items (cs1 & E1 & B1) _ (cs2 & E2 & B2)].
  - exists []. split; [done|]. intros. unfold build_calls. cbn. by rewrite app_nil_r.
  - rewrite walk_items_cons. exists (cs1 ++ cs2). cbn in E1, B1. rewrite (events_calls_app _ _ _ _ _ E1), E2. split; [done|].
    intros b n l fs Hf. unfold build_calls in *. by rewrite foldl_app, B1, B2, <-app_assoc.
Qed.

Lemma elements_arr l : elements_of (level_items (JArr l)) = imap (λ i x, (str (Z.of_nat i), x)) (map (to_bson str) l).
Proof.
  unfold elements_of. cbn [level_items]. rewrite fmap_imap. change (map (to_bson str) l) with (to_bson str <$> l). rewrite imap_fmap.
  apply imap_ext. intros i x _. cbn. by rewrite nat_N_Z.
Qed.
Lemma elements_obj m : elements_of (level_items (JObj m)) = map (λ x, (x.1, to_bson str x.2)) m.
Proof. unfold elements_of. cbn [level_items]. rewrite <-list_fmap_compose. done. Qed.

Lemma sendable_items v : is_container v = true → sendable v → Forall (λ x, sendable x.2) (level_items v).
Proof.
  destruct v; try done; intros _; cbn [sendable level_items].
  - intros H. apply (foldr_and sendable) in H. apply Forall_forall. intros [c x] (i & y & [= -> ->] & Hx)%elem_of_lookup_imap_1. cbn. by eapply Forall_lookup_1.
  - intros [_ H]. apply (foldr_and (λ x : string * json, bson_text x.1 ∧ sendable x.2)) in H. apply Forall_fmap. eapply Forall_impl; [exact H|]. by intros [k x] [_ ?].
Qed.

Lemma depth_max {A} (f : A → nat) l : Forall (λ x, f x <= foldr (λ x n, f x `max` n) 0 l) l.
Proof.
  induction l as [|x l IH]; cbn; [done|]. apply Forall_cons. split; [lia|]. eapply Forall_impl; [exact IH|]. cbn. lia.
Qed.

Lemma depth_items v : is_container v = true → Forall (λ x, depth x.2 < depth v) (level_items v).
Proof.
  destruct v as [| | | | | |l|m]; try done; intros _; cbn [depth level_items].
  - apply Forall_forall. intros [c x] (i & y & [= -> ->] & Hx)%elem_of_lookup_imap_1. cbn.
    pose proof (Forall_lookup_1 _ _ _ _ (depth_max depth l) Hx) as Hd. cbn beta in Hd. lia.
  - apply Forall_fmap. eapply Forall_impl; [apply (depth_max (λ x, depth x.2))|]. intros [k x] H. cbn in *. lia.
Qed.

(** What the walk names the items of a container. *)
Lemma names_items v : is_container v = true → sendable v → Forall (λ x, bson_check_string (component_name str x.1) = true) (level_items v).
Proof using Hstr.
  destruct v as [| | | | | |l|m]; try done; intros _; cbn [sendable level_items].
  - intros _. apply Forall_forall. intros [c x] (i & y & [= -> ->] & Hx)%elem_of_lookup_imap_1. apply Hstr.
  - intros [_ H]. apply (foldr_and (λ x : string * json, bson_text x.1 ∧ sendable x.2)) in H. apply Forall_fmap. eapply Forall_impl; [exact H|]. by intros [k x] [[_ ?] _].
Qed.

Lemma appends_value v : ∀ level c, (0 < level)%N → sendable v → bson_check_string (component_name str c) = true →
  depth v + N.to_nat level <= 33 → appends level (walk c v) [(component_name str c, to_bson str v)].
Proof using Hstr.
  induction v as [v Hv|v Hv IH] using items_ind; intros level c Hl Hs Hc Hd.
  - rewrite walk_leaf by done. unfold appends, build_calls. destruct v as [|z|n|d|s|b|l|m]; try done; cbn [sendable] in Hs.
    3: { exists [append_long (component_name str c) (Z.of_N n)]. cbn. rewrite (proj2 (Z.leb_le _ _) Hs). split; [done|].
         intros. by rewrite Hc. }
    4: destruct Hs as [_ Hs].
    all: eexists; (split; [reflexivity|]); intros; cbn; by rewrite ?Hs, Hc.
  - rewrite walk_container by done. destruct (appends_items (level + 1) (level_items v)) as (cs & E & B).
    { pose proof (sendable_items v Hv Hs) as Hi. pose proof (depth_items v Hv) as Hdi. pose proof (names_items v Hv Hs) as Hn.
      apply Forall_forall. intros x Hx. rewrite Forall_forall in IH, Hi, Hdi, Hn. specialize (Hdi x Hx).
      apply IH; [done|lia|by apply Hi|by apply Hn|lia]. }
    unfold appends. cbn [events_calls]. unfold event_calls at 1. cbn [ev_type component ev_value mbind res_bind]. rewrite (proj2 (N.ltb_lt _ _) Hl).
    rewrite (events_calls_app _ _ _ _ _ E). cbn [events_calls]. unfold event_calls. cbn [ev_type component ev_value mbind res_bind].
    replace (level + 1 - 1)%N with level by lia. rewrite (proj2 (N.ltb_lt _ _) Hl). cbn [app]. eexists. split; [reflexivity|].
    intros b n l fs Hf. assert (Hdv : 0 < depth v) by (destruct v; cbn; (done || lia)).
    assert (Hst : ∀ a, start_level a (component_name str c) (Frame b n l :: fs) = Some (Frame a (component_name str c) [] :: Frame b n l :: fs)).
    { intros a. unfold start_level, stackPos. rewrite Hc. cbn [negb length]. rewrite decide_True; [done|lia]. }
    unfold build_calls in *. cbn [foldl]. rewrite foldl_app.
    destruct v; try done; cbn [isArray build_call mbind option_bind]; rewrite Hst; rewrite B by (cbn [length]; lia);
      cbn [foldl mbind option_bind build_call add_element app to_bson]; rewrite Hc.
    + by rewrite elements_arr.
    + by rewrite elements_obj.
Qed.

(** C30: a query reaches the database as it was written, and reads back, but for integers
    and booleans, which arrive as signed integers: the calls made during the walk build the
    document the query stands for.  That is for a query that is not empty, of strings in
    UTF-8 without zero bytes and integers that fit 64 signed bits, nested no deeper than
    the driver has room for; the indices of arrays are printed in UTF-8, as digits are. *)
Theorem query_roundtrip m (Hs : sendable (JObj m)) (Hm : m ≠ []) (Hd : depth (JObj m) <= 33) :
  ∃ calls l, json_to_bson str (JObj m) = Ok (Some calls) ∧ built calls = Some [Frame false "" l] ∧
    bson_object_to_json inflate str l = Ok (as_sent (JObj m)).
Proof.
  destruct (appends_items 1 (level_items (JObj m))) as (cs & E & B).
  { pose proof (sendable_items (JObj m) eq_refl Hs) as Hi. 
    pose proof (depth_items (JObj m) eq_refl) as Hdi. pose proof (names_items (JObj m) eq_refl Hs) as Hn.
    apply Forall_forall. intros x Hx. rewrite Forall_forall in Hi, Hdi, Hn. specialize (Hdi x Hx).
    apply appends_value; [done|by apply Hi|by apply Hn|lia]. }
  exists cs, (elements_of (level_items (JObj m))). split_and!.
  - unfold json_to_bson. rewrite decide_False by (destruct m; cbn; [done|lia]). cbn [JSONWalker_new isObject isArray negb andb mbind res_bind].
    pose proof (walk_document_length (JObj m)) as Hlen.
    replace (2 + walk_size (JObj m)) with (length (walk_document (JObj m)) + S (1 + walk_size (JObj m) - length (walk_document (JObj m)))) by lia.
    assert (Ed : events_calls 0 (walk_document (JObj m)) = Ok (0%N, cs)).
    { unfold walk_document. cbn [events_calls]. unfold event_calls at 1. cbn [ev_type mbind res_bind N.ltb N.compare N.add].
      rewrite (events_calls_app _ _ _ _ _ E). cbn. by rewrite app_nil_r. }
    rewrite (bson_loop_events _ _ _ _ _ _ _ (yields_document (JObj m)) Ed). cbn. by rewrite app_nil_r.
  - unfold built. by rewrite (B false "" [] []).
  - rewrite elements_obj. apply (bson_of_json (JObj m) Hs).
Qed.
End roundtrip.

Definition query_example : json :=
  JObj [("active", JBool true); ("age", JObj [("$gt", JUInt 17)]); ("tags", JArr [JStr "a"; JNull; JObj []])].

(** Decimal digits, for the indices of arrays. *)
Definition index_str (z : Z) : string := valueToString (Z.to_N z).

Lemma ascii_text s : Forall (λ c, (ord c < 128)%N) (bytes s) → bson_check_string s = true.
Proof.
  unfold bson_check_string. assert (E : String.length s = length (ord <$> bytes s)).
  { rewrite length_fmap. clear. induction s as [|c s IH]; cbn; [done|]. by rewrite IH. }
  rewrite E. clear E. intros H. induction H as [|c l Hc H IH]; [done|]. cbn [fmap list_fmap length bson_validate_string].
  unfold trailingBytesForUTF8. rewrite (proj2 (N.ltb_lt (ord c) 192)) by lia. rewrite decide_False by lia.
  cbn [take drop Nat.add isLegalUTF8]. unfold first_legal. rewrite (proj2 (N.leb_gt 128 (ord c))), (proj2 (N.leb_le (ord c) 244)) by lia. exact IH.
Qed.

Lemma index_str_text z : bson_check_string (index_str z) = true.
Proof.
  assert (H : ∀ d, Forall (λ c, (ord c < 128)%N) (bytes (NilEmpty.string_of_uint d))) by (induction d; cbn; constructor; done).
  apply ascii_text. unfold index_str, valueToString. destruct (N.to_uint _) as [|d|d|d|d|d|d|d|d|d|d]; [by repeat constructor|..];
    [exact (H (Decimal.D0 d))|exact (H (Decimal.D1 d))|exact (H (Decimal.D2 d))|exact (H (Decimal.D3 d))|exact (H (Decimal.D4 d))
    |exact (H (Decimal.D5 d))|exact (H (Decimal.D6 d))|exact (H (Decimal.D7 d))|exact (H (Decimal.D8 d))|exact (H (Decimal.D9 d))].
Qed.

Lemma query_roundtrip_witness : ∃ calls l, json_to_bson index_str query_example = Ok (Some calls) ∧ built calls = Some [Frame false "" l] ∧
  bson_object_to_json Ok index_str l = Ok (as_sent query_example).
Proof.
  apply (query_roundtrip Ok index_str index_str_text); [|done|vm_compute; repeat constructor]. cbn. unfold obj_wf, maxInt64, bson_text, clean.
  repeat match goal with
  | |- _ ∧ _ => split
  | |- StronglySorted _ _ => constructor
  | |- Forall _ _ => constructor
  | |- _ => first [exact I|reflexivity|lia]
  end.
Defined.

(** A fault.  The driver has room for 32 open levels, and neither the importer nor the
    driver counts them: a query of arrays and objects nested 34 deep writes beyond. *)
Definition nested_query (n : nat) : json := Nat.iter n (λ v, JObj [("not", v)]) JNull.
Theorem deep_query_overflows : ∃ calls, json_to_bson index_str (nested_query 34) = Ok (Some calls) ∧ built calls = None ∧
  depth (nested_query 34) = 34.
Proof. eexists. split_and!; vm_compute; reflexivity. Qed.

(** A fault.  A boolean of a document in the database becomes a number in the document
    that is indexed. *)
Theorem boolean_read_as_number inflate str name b :
  bson_object_to_json inflate str [(name, bson_bool b)] = Ok (json_set (JObj []) name (JInt (if b then 1 else 0))).
Proof. done. Qed.

(** A fault.  A condition on a boolean is sent as one on a number, which no boolean in the
    database is equal to. *)
Theorem boolean_sent_as_number str name b : leaf_call name (JBool b) = Ok (append_long name (if b then 1 else 0)) ∧
  json_to_bson str (JObj [("active", JBool true)]) = Ok (Some [append_long "active" 1]).
Proof. done. Qed.

(** ** The loop: what is marked was queued *)

Section marking.
Context (inflate : string → res string) (str : Z → string) (json_serialise : json → string) (update_ok : string → bool).

Definition accepted_state (s : QueueState) : bool := match s with HAS_SPACE | LOW_SPACE => true | _ => false end.
Definition has_id (item : json) (id : string) : Prop := json_get_string_member item "_id" "" = Ok id.

(** The document was accepted_state by its queue. *)
Definition queued (l : list import_action) (id : string) : Prop :=
  ∃ item st, QueueDocument item st ∈ l ∧ accepted_state st = true ∧ has_id item id.

(** It was, and then a checkpoint was asked for. *)
Definition covered (l : list import_action) (id : string) : Prop :=
  ∃ l1 st l2, l = l1 ++ CreateCheckpoint st :: l2 ∧ queued l1 id.

(** What is marked as indexed is covered at that moment. *)
Definition ordered (l : list import_action) : Prop := ∀ k id b, l !! k = Some (SetStatus id 100 b) → covered (take k l) id.

Lemma ordered_snoc l a : ordered l → (∀ id b, a = SetStatus id 100 b → covered l id) → ordered (l ++ [a]).
Proof.
  intros Hl Ha k id b [Hk|[Hlen Hk]]%lookup_app_Some.
  - pose proof (lookup_lt_Some _ _ _ Hk). rewrite take_app_le by lia. by eapply Hl.
  - apply list_lookup_singleton_Some in Hk as [Hz ->]. rewrite take_app_ge by lia.
    replace (k - length l) with 0 by lia. rewrite app_nil_r. by eapply Ha.
Qed.

Lemma queued_app l1 l2 id : queued l1 id → queued (l1 ++ l2) id.
Proof. intros (item & st & Hin & ?). exists item, st. split; [apply elem_of_app; by left|done]. Qed.
Lemma covered_snoc l a id : covered l id → covered (l ++ [a]) id.
Proof. intros (l1 & st & l2 & -> & Hq). exists l1, st, (l2 ++ [a]). by rewrite <-app_assoc. Qed.

(** The state between two documents. *)
Record import_ok (i : Import) : Prop := {
  io_ordered : ordered (acts i);
  io_unflushed : Forall (queued (acts i)) (unflushed_ids i);
}.

Lemma flush_marks l : ∀ i, ordered (acts i) → Forall (covered (acts i)) l →
  ordered (acts (for_each l (λ id, set_update_status update_ok id 100 true) i).1).
Proof.
  induction l as [|id l IH]; intros i Ho Hl; [done|]. apply Forall_cons in Hl as [Hid Hl]. cbn [for_each].
  unfold mbind at 1, M_bind at 1. unfold set_update_status at 1. case_decide; [done|]. unfold mbind, M_bind, act, modifyM. cbn.
  assert (Ho' : ordered (acts i ++ [SetStatus id 100 true])) by (apply ordered_snoc; [done|by intros id' b [= <- <-]]).
  destruct (update_ok id); [|done]. apply IH; [done|]. cbn. eapply Forall_impl; [exact Hl|]. intros x. apply covered_snoc.
Qed.

Lemma flush_batch_run st i : flush_batch update_ok st i =
  let '(i2, r) := for_each (unflushed_ids i) (λ id, set_update_status update_ok id 100 true)
    (mkImport (count i) (batch_count i) (batch_end i) (unflushed_ids i) (acts i ++ [CreateCheckpoint st])) in
  (match r with Ok _ => mkImport (count i2) (wrap32 (batch_count i2 + 1)) (wrap32 (count i2 + batch_size)) [] (acts i2) | _ => i2 end, r).
Proof. unfold flush_batch, mbind, M_bind, act, getM, modifyM. cbn. by destruct (for_each _ _ _) as [i2 [[]|e|]]. Qed.

Lemma flush_batch_ok st i : import_ok i →
  ordered (acts (flush_batch update_ok st i).1) ∧ ((flush_batch update_ok st i).2 = Ok () → import_ok (flush_batch update_ok st i).1).
Proof.
  intros [Ho Hu]. rewrite flush_batch_run. set (i1 := mkImport _ _ _ _ _).
  assert (Hc : Forall (covered (acts i1)) (unflushed_ids i)).
  { eapply Forall_impl; [exact Hu|]. intros id Hq. by exists (acts i), st, []. }
  assert (Ho1 : ordered (acts i1)) by by apply ordered_snoc.
  pose proof (flush_marks (unflushed_ids i) i1 Ho1 Hc) as Hf.
  destruct (for_each _ _ i1) as [i2 [[]|e|]]; (split; [done|]); intros [=]. by split; [|apply Forall_nil].
Qed.

(** The attempts to queue a document leave everything else alone. *)
Lemma queue_document_ok item id u attempts : ∀ i, ordered (acts i) → Forall (queued (acts i)) u → has_id item id →
  let '(i', r) := queue_document item attempts i in
  ordered (acts i') ∧ unflushed_ids i' = unflushed_ids i ∧ Forall (queued (acts i')) u ∧ (r = Ok true → queued (acts i') id).
Proof.
  induction attempts as [|[state stop] attempts IH]; intros i Ho Hu Hid; cbn [queue_document]; [done|].
  unfold mbind, M_bind, act, modifyM. set (i1 := mkImport _ _ _ _ _).
  assert (Ho1 : ordered (acts i1)) by by apply ordered_snoc.
  assert (Hu1 : Forall (queued (acts i1)) u) by (eapply Forall_impl; [exact Hu|]; intros x; apply queued_app).
  assert (Hq : accepted_state state = true → queued (acts i1) id).
  { intros Ha. exists item, state. split_and!; [apply elem_of_app; right; by left|done..]. }
  destruct state; cbn -[i1]; try (by split_and!; auto). destruct stop; [by split_and!|]. by apply (IH i1).
Qed.

Lemma import_document_ok doc w i : import_ok i → let '(i', r) := import_document inflate str json_serialise update_ok doc w i in
  ordered (acts i') ∧ (r = Ok true → import_ok i').
Proof.
  intros [Ho Hu]. unfold import_document, liftM. unfold mbind at 1, M_bind at 1.
  destruct (bson_object_to_json inflate str doc) as [item|e|]; [|done..]. unfold mbind at 1, M_bind at 1.
  destruct (check_server_error json_serialise item) as [[]|e|]; [|done..]. unfold mbind at 1, M_bind at 1.
  destruct (json_get_string_member item "_id" "") as [id|e|] eqn:Hid; [|done..]. case_decide; [done|].
  unfold mbind at 1, M_bind at 1. unfold set_update_status. case_decide; [done|]. unfold mbind at 1, M_bind at 1, act at 1, modifyM at 1.
  set (i1 := mkImport _ _ _ _ _). assert (Ho1 : ordered (acts i1)) by (apply ordered_snoc; [done|by intros id' b [=]]).
  assert (Hu1 : Forall (queued (acts i1)) (unflushed_ids i)) by (eapply Forall_impl; [exact Hu|]; intros x; apply queued_app).
  destruct (update_ok id); [|done]. unfold mret at 1, M_ret at 1. unfold mbind at 1, M_bind at 1, modifyM at 1.
  set (i2 := mkImport _ _ _ _ _). unfold mbind at 1, M_bind at 1.
  pose proof (queue_document_ok item id (unflushed_ids i) (attempts w) i2 Ho1 Hu1 Hid) as Hq.
  destruct (queue_document item (attempts w) i2) as [i3 [[]|e|]]; destruct Hq as (Ho3 & Hun & Hu3 & Hq3); cbn [negb]; [|done..].
  unfold mbind at 1, M_bind at 1, modifyM at 1. unfold mbind at 1, M_bind at 1, getM at 1. set (i4 := mkImport _ _ _ _ _).
  assert (Hok : import_ok i4).
  { split; [done|]. cbn. rewrite Hun. cbn. apply Forall_app. split; [done|]. apply Forall_singleton. by apply Hq3. }
  set (i5 := if decide (count i4 mod 23 = 0)%N then i4 else (act (UpdateStatus (count i4) (batch_count i4)) i4).1).
  assert (E5 : (if decide (count i4 mod 23 = 0)%N then mret () else act (UpdateStatus (count i4) (batch_count i4))) i4 = (i5, Ok ())) by (subst i5; by case_decide).
  assert (Hok5 : import_ok i5).
  { subst i5. case_decide; [done|]. destruct Hok as [F1 F2]. split; cbn -[i4]; [by apply ordered_snoc|]. eapply Forall_impl; [exact F2|]. intros x. apply queued_app. }
  clearbody i5. unfold mbind at 1, M_bind at 1. rewrite E5. unfold mbind at 1, M_bind at 1.
  destruct (batch_end i4 <? count i4)%N.
  - pose proof (flush_batch_ok (checkpoint_state w) i5 Hok5) as [F1 F2]. destruct (flush_batch _ _ i5) as [i6 [[]|e|]]; cbn in *; [|done..].
    split; [done|]. intros _. by apply F2.
  - unfold mret, M_ret. split; [by destruct Hok5|done].
Qed.

Lemma import_all_ok docs last : ∀ i, import_ok i → ordered (acts (import_all inflate str json_serialise update_ok docs last i).1).
Proof.
  induction docs as [|[doc w] docs IH]; intros i Hi; cbn [import_all]; unfold mbind at 1, M_bind at 1.
  - pose proof (flush_batch_ok last i Hi) as [H1 H2]. destruct (flush_batch _ _ i) as [i1 [[]|e|]]; cbn in *; [|done..]. by apply ordered_snoc.
  - pose proof (import_document_ok doc w i Hi) as H. destruct (import_document _ _ _ _ doc w i) as [i1 [[]|e|]]; destruct H as [H1 H2]; cbn; [|done..].
    apply IH. by apply H2.
Qed.
End marking.

(** C36: a document is marked as indexed only after it was accepted_state for processing and a
    checkpoint was asked for after that: whatever documents come, queues refuse, and
    whenever a stop is asked for. *)
Theorem marked_after_queueing inflate str json_serialise update_ok docs last k id b :
  let l := acts (import_all inflate str json_serialise update_ok docs last new_Import).1 in
  l !! k = Some (SetStatus id 100 b) → covered (take k l) id.
Proof. intros l. apply import_all_ok. by split; [|apply Forall_nil]. Qed.

Definition oid : string := "4f8c2a7e9d01b3c5e6f70812".
Definition imported : list import_action :=
  acts (import_all Ok (λ z, valueToString (Z.to_N z)) (λ _, "") (λ _, true)
    [([("_id", bson_oid oid)], mkSurroundings [(FULL, false); (HAS_SPACE, false)] HAS_SPACE false)] FULL new_Import).1.

Lemma marked_after_queueing_witness : imported !! 5 = Some (SetStatus oid 100 true) ∧ covered (take 5 imported) oid.
Proof.
  assert (E : imported !! 5 = Some (SetStatus oid 100 true)) by (vm_compute; reflexivity). split; [exact E|].
  exact (marked_after_queueing Ok (λ z, valueToString (Z.to_N z)) (λ _, "") (λ _, true)
    [([("_id", bson_oid oid)], mkSurroundings [(FULL, false); (HAS_SPACE, false)] HAS_SPACE false)] FULL 5 oid true E).
Defined.

(** A fault.  Whether the checkpoint could be queued is not looked at: with a full queue
    documents are marked as indexed that no commit covers. *)
Theorem marked_without_checkpoint update_ok id : update_ok id = true → 24 ≤ String.length id →
  acts (flush_batch update_ok FULL (mkImport 1 0 batch_size [id] [])).1 = [CreateCheckpoint FULL; SetStatus id 100 true].
Proof.
  intros Hu Hl. unfold flush_batch, set_update_status, mbind, M_bind, act, getM, modifyM. cbn. rewrite decide_False by lia. cbn. by rewrite Hu.
Qed.

Lemma marked_without_checkpoint_witness :
  acts (flush_batch (λ _, true) FULL (mkImport 1 0 batch_size [oid] [])).1 = [CreateCheckpoint FULL; SetStatus oid 100 true].
Proof. apply marked_without_checkpoint; [done|]. apply Nat.leb_le. vm_compute. reflexivity. Defined.
